(* ===== verification/_CoqProject ===== *)
-Q . S2P
Prelude.v
Address.v
Alloc.v
Memory.v
PageTable.v
UserBuffer.v
Virtio.v
Pipe.v
BlockCache.v
BlockLogic.v
Bitmap.v
Layout.v
Console.v
InodeGrowth.v
Efs.v
Vfs.v
Directory.v
Files.v
Pack.v
Buddy.v
Switch.v
Sched.v
Boot.v
KernelThreads.v
SemBuffer.v
Philosophers.v
Barrier.v
MutexAdder.v
CondSync.v
Signal.v
AddressSpace.v
KernelSpace.v
Process.v
ProcessTree.v
Waiting.v
ExecArgs.v
FileCalls.v
FileCallSpecs.v
Syscall.v
Trap.v
UserLib.v
UserLocks.v
UserPrograms.v
Preemption.v
Shell.v
Coroutine.v
TestDriver.v
