(* ===== verification/Prelude.v ===== *)
(** * acore: a teaching kernel for RISC-V and its file system, in Rocq

    acore is a Unix-like kernel for one RISC-V hart (os/), its file system library
    (easy-fs/), the kernel heap (buddy-allocator/), a tool that packs disk images
    (easy-fs-fuse/) and user programs (user/).  The kernel gives each process an Sv39
    address space, schedules threads round-robin, blocks them on mutexes, semaphores,
    condition variables, timers and pipes, delivers signals, and reaches files
    through a write-back block cache.

    The definitions are a shallow embedding of the source.  A [usize] is an integer with
    its wrap-around written out ([uadd], [usub], [umul], [ushl] below); a struct is a record and
    an enum an inductive type; code that may panic returns [res], whose [Panic] says which
    kind of panic it is; code with state is a function in the monad [ST].  The kernel runs
    with interrupts off on one hart, so a kernel path is atomic between two calls of
    [schedule]; the models name these points and every interleaving of the pieces is a run.

    ** Files, and what they model

    Memory (os/src/mm)
    - [Address]: address.rs, config.rs: addresses, page numbers and ranges.
    - [Alloc]: task/utils.rs ([Recycle]), frame_allocator.rs ([Frame]) and the interface
      [FrameAllocatorLaws] the clients of the frame allocator are verified against.
    - [Memory]: physical memory and [FrameTracker].
    - [PageTable]: page_table.rs: entries ([PTE]), three-level tables ([PT]).
    - [UserBuffer]: page_table.rs: access to user memory, [UserBuffer] and its iterator.
    - [Virtio]: drivers/block/virtio_blk.rs: the pages and addresses the disk driver asks for.
    - [AddressSpace]: address_space.rs, task/thread/user_resource.rs and kernel_stack.rs:
      segments, the kernel, ELF and forked address spaces, thread stacks.
    - [Buddy]: buddy-allocator: the kernel heap with its intrusive lists.
    - [KernelSpace]: [init] of mm/mod.rs, heap_allocator.rs, [init_frame_allocator] and
      [remap_test]: the kernel's own address space, for any layout of linker-qemu.ld.

    Files (easy-fs/src, os/src/fs)
    - [BlockCache]: block_cache.rs, block_dev.rs, and the interface [BlockDeviceLaws]; the
      code above the cache is a program of type [io], which runs on the cache over a
      device ([crun]) or on an array of blocks ([lrun]).
    - [BlockLogic]: byte layouts and a weakest-precondition calculus for [io] programs.
    - [Bitmap], [Layout], [InodeGrowth], [Efs], [Vfs], [Directory]: bitmap.rs, layout.rs, efs.rs,
      vfs.rs.
    - [Console]: os/src/sbi/uart.rs, sbi/mod.rs and console.rs: the serial console on a device
      with the registers of a 16550, given by a class with its laws.
    - [Files]: os/src/fs/inode.rs and stdio.rs: open files, standard input and output.
    - [Pipe]: os/src/fs/pipe.rs: the ring buffer and its readers and writers.
    - [Pack]: easy-fs-fuse/src/main.rs: the disk image the kernel boots from.
    - [FileCalls], [FileCallSpecs]: os/src/syscall/fs.rs: the descriptor table and the calls
      on it, and the theorems about them.

    Tasks (os/src/task, os/src/sync, os/src/timer, os/src/trap, os/src/syscall)
    - [Boot]: [rust_boot] of main.rs, [init] of timer/mod.rs and timer_trap.S: machine mode.
    - [Switch]: switch.S and thread/context.rs: the registers at a context switch.
    - [Sched]: task/scheduler, the switching functions of task/mod.rs, sync, timer and
      syscall/sync.rs.
    - [Signal]: task/signal, the signal code of task/mod.rs, the signal calls of
      syscall/process.rs, trap/context.rs and the system-call path of [trap_handler].
    - [Process]: task/process, task/thread/mod.rs, [exit_current_and_run_next], the process
      table, and the calls that create, end and wait for processes and threads; its state
      puts memory, scheduler, address spaces and control blocks together.
    - [ProcessTree], [Waiting], [ExecArgs]: theorems about [Process].
    - [Syscall]: syscall/mod.rs, the system-call branch of trap/mod.rs, and the stubs of
      user/src/syscall.rs: the numbers and registers on both sides.
    - [Trap]: trap.S, all of [trap_handler] and [trap_return].

    User side (user/src)
    - [UserLib]: lib.rs: [_start], the flags, the wrappers and the loops that wait.
    - [UserLocks]: threads that enter and leave a critical section through a lock, one memory
      access per step, and the interface a lock keeps; [UserPrograms]: peterson.rs,
      eisenberg.rs, the adders.
    - [KernelThreads]: the threads of a program on the scheduler of [Sched], with the timer
      and other processes in between; [SemBuffer], [Philosophers], [Barrier], [MutexAdder],
      [CondSync]: mpsc_sem.rs, phil_din_mutex.rs, barrier_condvar.rs, adder_mutex_blocking.rs
      and adder_mutex_spin.rs, condsync_condvar.rs on it; [Preemption]: the programs of
      [UserLocks] on it.
    - [Shell]: user_shell.rs: line editing, parsing, pipelines.
    - [Coroutine]: stackful_coroutine.rs and stackless_coroutine.rs.
    - [TestDriver]: usertests.rs: the argument arrays and the verdict.

    ** What is shown

    - Page tables behave like a finite map; mapping a segment gives fresh zeroed frames and
      unmapping returns them; the kernel maps its sections and devices to themselves, with no
      page both writable and executable; [fork] copies every page into a frame of its own;
      stacks of different threads do not overlap; the arguments of [exec] arrive.
    - Frames, heap blocks and ids that are in use are distinct; the heap never panics and
      fails only when no free block is large enough.
    - The cache with its 16 entries is invisible: programs have the results they have on a
      plain array, and after a sync the device has every write.  On top of it, files of every
      size grow, are written, read and cleared without losing a byte or a block, creating a
      file adds one entry to the directory, and what a program saves under a name is what it
      loads.  The image the packer writes is the one the kernel finds after a reboot.
    - Descriptor calls refuse closed descriptors and keep the table and the reference counts;
      what is written through one descriptor is read through another, from user memory to
      user memory.
    - The dispatcher decodes what the user stubs load; from the registers of a stub, the trap
      entry, the handler and the way back perform the call and change nothing but the result
      register; an interrupt changes nothing; a fault that is not handled ends the thread; a
      context switch resumes every task where it was; the machine timer ticks every 10 ms
      and its trap is not noticed by the code it interrupts.  [_start] hands [main] the
      strings that [exec] pushed; the flags of the user library are, name by name, those of the
      kernel.
    - The console sends every character of a text once, in order, and reads input in order.
    - Both mutexes exclude, semaphores give out no more units than they have, every task is
      in one place, calls do not panic, ready tasks run in order unless their process ends,
      which takes its ready and sleeping threads out; due timers fire; pipes are bounded
      queues and transfers finish.
    - Signals are delivered lowest first, a handler is invisible to the code it interrupts
      unless another one starts before it returns, and SIGKILL ends a process.
    - User programs: Peterson's lock and that of Eisenberg and McGuire exclude, and the first
      lets both threads finish in every fair schedule; the adders count; all this holds for
      the programs as tasks of the kernel, preempted at any point; the bounded buffer
      delivers every value in order and does not deadlock, nor do the dining
      philosophers; no thread passes a barrier before all have come, and none is left
      asleep at it, nor at a flag that another thread has set; the shell parses what it is
      meant to and connects its pipelines; the coroutine runtimes interleave their tasks
      and end.
    - In every run the processes form a tree whose root is [INITPROC], and the process table
      lists exactly those that have not exited; waiting returns what its branches promise.
    - Where the code does not do what it means to, the theorem says what it does instead:
      reusing a thread id, nesting signals, a frozen process, waiting for a process with a
      blocked thread, waiting for the first unused thread id, a second request for DMA pages, a
      pipe call with an empty buffer, an empty command in a pipeline, a heap whose start is
      not aligned.

    ** Fuel and bounds

    Loops that are not structurally recursive take fuel, and the theorems give a bound that is
    enough: [byte_buffer_fuel] (pages of the range), [iter_all] (bytes), [read_all_fuel]
    (blocks of the file), the loops over the inode index (their block counts), [check_timer]
    (the number of timers), the polls of the serial line ([drain], [quiet]), [release_proc]
    (the number of processes), [Stackless.polls] and [calls] (the segments of the
    coroutines).  A fair schedule of user threads is a list of stretches in each of which
    every thread occurs; the theorems give the number of stretches.  Widths matter for
    addresses (39 and 56 bits), file sizes (32 bits, [MAX_SIZE]) and ids ([2 ^ 64]).

    ** Not modelled

    The supervisor's start-up code (clearing .bss, the writes of [satp], [stvec] and [sie], the
    order of the [init] functions) and the panic handler are I/O; the virtio device is behind
    a crate that is not part of the repository, and a block device is a parameter.  The ELF
    parser [xmas_elf] is a parameter: its program headers are an argument.  [UPSafeCell] is a
    field: a second borrow would panic, which the models write out where the code can reach
    it ([reparent]).  A system call of [Sched] that waits returns through the scheduler, and
    the store of its result belongs to the trap path of [Syscall] only for calls that return
    at once.  The console of the user library and the test programs that only print or
    exercise one call are not modelled. *)

From stdpp Require Export base tactics numbers list list_numbers option gmap sets strings.
From Stdlib Require Export ZArith Lia.

(** Shared vocabulary of the development: machine words at their width, the
    outcome type of Rust code that may panic, a state monad over it, and the
    list, option and integer lemmas that several components use. *)

#[global] Set Default Goal Selector "!".
#[global] Open Scope Z_scope.
#[global] Arguments Z.testbit : simpl never.
#[global] Arguments Z.pow : simpl never.
#[global] Arguments Z.shiftl : simpl never.
#[global] Arguments Z.shiftr : simpl never.

(** ** Outcomes

    Every way a call can fail to return is a value.  [OutOfFuel] is a model
    artefact: a loop that is not structurally recursive takes fuel, and the
    theorems about it show that the fuel given is enough. *)

Inductive fault : Set :=
| UnwrapNone
| AssertFailed
| IndexOutOfRange
| PanicCall
| UndefinedBehaviour
| Deadlock
| OutOfFuel.

Inductive res (A : Type) : Type :=
| Ok (a : A)
| Panic (f : fault).
Arguments Ok {A} a.
Arguments Panic {A} f.

#[global] Instance fault_eq_dec : EqDecision fault.
Proof. solve_decision. Defined.

#[global] Instance res_eq_dec {A} `{EqDecision A} : EqDecision (res A).
Proof. solve_decision. Defined.

#[global] Instance res_ret : MRet res := fun A a => Ok a.
#[global] Instance res_bind : MBind res := fun A B k m =>
  match m with Ok a => k a | Panic f => Panic f end.
#[global] Instance res_fmap : FMap res := fun A B g m =>
  match m with Ok a => Ok (g a) | Panic f => Panic f end.

Definition unwrap {A} (o : option A) : res A :=
  match o with Some a => Ok a | None => Panic UnwrapNone end.

Definition rassert (b : bool) : res unit :=
  if b then Ok tt else Panic AssertFailed.

(** Indexing a slice or a vector: out of range panics. *)
Definition index {A} (l : list A) (i : Z) : res A :=
  if decide (0 <= i) then
    match l !! Z.to_nat i with Some a => Ok a | None => Panic IndexOutOfRange end
  else Panic IndexOutOfRange.

Definition index_set {A} (l : list A) (i : Z) (a : A) : res (list A) :=
  if decide (0 <= i < Z.of_nat (length l)) then Ok (<[Z.to_nat i := a]> l)
  else Panic IndexOutOfRange.

(** ** The state monad over outcomes *)

Definition ST (S A : Type) : Type := S -> res (A * S).

#[global] Instance st_ret {S} : MRet (ST S) := fun A a s => Ok (a, s).
#[global] Instance st_bind {S} : MBind (ST S) := fun A B k m s =>
  match m s with Ok (a, s') => k a s' | Panic f => Panic f end.
#[global] Instance st_fmap {S} : FMap (ST S) := fun A B g m s =>
  match m s with Ok (a, s') => Ok (g a, s') | Panic f => Panic f end.

Definition lift {S A} (r : res A) : ST S A := fun s =>
  match r with Ok a => Ok (a, s) | Panic f => Panic f end.

Definition get {S} : ST S S := fun s => Ok (s, s).
Definition put {S} (s : S) : ST S unit := fun _ => Ok (tt, s).
Definition panic {S A} (f : fault) : ST S A := fun _ => Panic f.

(** [for x in l { body }] over a list, in the state monad. *)
Fixpoint st_for {S A} (l : list A) (body : A -> ST S unit) : ST S unit :=
  match l with
  | [] => mret tt
  | x :: l' => body x ≫= fun _ => st_for l' body
  end.

(** ** Vectors

    [Vec::push], [Vec::pop] and [VecDeque::pop_front]; the last element of the
    list is the top of the vector. *)

Definition vec_push {A} (l : list A) (a : A) : list A := l ++ [a].
Definition vec_pop {A} (l : list A) : option (A * list A) :=
  match reverse l with
  | [] => None
  | a :: l' => Some (a, reverse l')
  end.
Definition pop_front {A} (l : list A) : option (A * list A) :=
  match l with
  | [] => None
  | a :: l' => Some (a, l')
  end.

(** [iter().enumerate().find(p)]: the first index whose element satisfies [p]. *)
Fixpoint find_index {A} (p : A -> bool) (l : list A) : option nat :=
  match l with
  | [] => None
  | a :: l' => if p a then Some 0%nat else S <$> find_index p l'
  end.

(** ** Machine words

    The sources are built with [--release] (os/Makefile, user/Makefile), so
    [+], [-] and [*] wrap around at the width of their type. *)

Definition wrap (w z : Z) : Z := z mod 2 ^ w.
Definition usize_bits : Z := 64.
Definition usize_max : Z := 2 ^ 64 - 1.
Definition uadd (a b : Z) : Z := wrap 64 (a + b).
Definition usub (a b : Z) : Z := wrap 64 (a - b).
Definition umul (a b : Z) : Z := wrap 64 (a * b).
Definition unot (a : Z) : Z := usize_max - a.
Definition ushl (a n : Z) : Z := wrap 64 (Z.shiftl a n).
Definition ushr (a n : Z) : Z := Z.shiftr a n.

(** [x as u32], [x as i32] and [x as isize]. *)
Definition as_u32 (a : Z) : Z := wrap 32 a.
Definition as_u8 (a : Z) : Z := wrap 8 a.
Definition as_signed (w a : Z) : Z :=
  let u := wrap w a in if u <? 2 ^ (w - 1) then u else u - 2 ^ w.
Definition as_isize (a : Z) : Z := as_signed 64 a.
Definition as_i32 (a : Z) : Z := as_signed 32 a.

Definition is_u64 (z : Z) : Prop := 0 <= z < 2 ^ 64.
Definition is_u32 (z : Z) : Prop := 0 <= z < 2 ^ 32.
Definition is_u8 (z : Z) : Prop := 0 <= z < 2 ^ 8.

(** ** Tactics *)

(** Invert one bind of an [Ok] hypothesis, in either monad. *)
Lemma res_bind_Ok {A B} (m : res A) (k : A -> res B) b :
  m ≫= k = Ok b <-> exists a, m = Ok a /\ k a = Ok b.
Proof. destruct m as [a|f]; unfold mbind; simpl; naive_solver. Qed.

Lemma st_bind_Ok {S A B} (m : ST S A) (k : A -> ST S B) (s : S) r :
  (m ≫= k) s = Ok r <-> exists a s', m s = Ok (a, s') /\ k a s' = Ok r.
Proof.
  unfold mbind, st_bind. destruct (m s) as [[a s']|f]; naive_solver.
Qed.

(** Run one bind whose first computation is known to succeed. *)
Lemma st_bind_run {S A B} (m : ST S A) (k : A -> ST S B) (s s' : S) a :
  m s = Ok (a, s') -> (m ≫= k) s = k a s'.
Proof. intros H. unfold mbind, st_bind. by rewrite H. Qed.

Lemma res_bind_run {A B} (m : res A) (k : A -> res B) a :
  m = Ok a -> m ≫= k = k a.
Proof. by intros ->. Qed.

Lemma lift_Ok {S A} (r : res A) (s s' : S) a :
  lift r s = Ok (a, s') <-> r = Ok a /\ s' = s.
Proof. unfold lift. destruct r; naive_solver. Qed.

Lemma unwrap_Ok {A} (o : option A) a : unwrap o = Ok a <-> o = Some a.
Proof. destruct o; simpl; naive_solver. Qed.

Lemma rassert_Ok b u : rassert b = Ok u <-> b = true /\ u = tt.
Proof. unfold rassert. destruct b, u; naive_solver. Qed.

Lemma index_Ok {A} (l : list A) i a :
  index l i = Ok a <-> 0 <= i /\ l !! Z.to_nat i = Some a.
Proof. unfold index. case_decide; [destruct (l !! Z.to_nat i)|]; naive_solver. Qed.

Lemma index_set_Ok {A} (l l' : list A) i a :
  index_set l i a = Ok l' <->
  0 <= i < Z.of_nat (length l) /\ l' = <[Z.to_nat i := a]> l.
Proof. unfold index_set. case_decide; naive_solver. Qed.

Ltac mon_inv :=
  repeat match goal with
  | H : Ok _ = Ok _ |- _ => injection H as H
  | H : Panic _ = Ok _ |- _ => discriminate H
  | H : Ok _ = Panic _ |- _ => discriminate H
  | H : mret _ _ = Ok _ |- _ => unfold mret in H; cbv [st_ret res_ret] in H
  | H : mret _ = Ok _ |- _ => unfold mret in H; cbv [res_ret] in H
  | H : mbind _ _ _ = Ok _ |- _ => apply st_bind_Ok in H as (? & ? & ? & H)
  | H : mbind _ _ = Ok _ |- _ => apply res_bind_Ok in H as (? & ? & H)
  | H : lift _ _ = Ok (_, _) |- _ => apply lift_Ok in H as [H ?]
  | H : unwrap _ = Ok _ |- _ => apply unwrap_Ok in H
  | H : rassert _ = Ok _ |- _ => apply rassert_Ok in H as [H ?]
  | H : get _ = Ok _ |- _ => unfold get in H
  | H : put _ _ = Ok _ |- _ => unfold put in H
  | H : panic _ _ = Ok _ |- _ => discriminate H
  | H : (_, _) = (_, _) |- _ => injection H as ? ?
  end; simplify_eq.

(** Run the first bind of a monadic computation whose head computes. *)
Ltac st_step := erewrite st_bind_run; [|reflexivity]; cbv beta; cbn [fst snd].
Ltac st_step_by H := erewrite st_bind_run; [|exact H]; cbv beta; cbn [fst snd].

(** Turn boolean comparisons of [Z] into propositions. *)
Ltac bool_to_Prop :=
  repeat match goal with
  | H : _ && _ = true |- _ => apply andb_prop in H as [? ?]
  | H : _ && _ = false |- _ => apply andb_false_iff in H
  | H : _ || _ = true |- _ => apply orb_prop in H
  | H : _ || _ = false |- _ => apply orb_false_elim in H as [? ?]
  | H : negb _ = true |- _ => apply negb_true_iff in H
  | H : negb _ = false |- _ => apply negb_false_iff in H
  | H : (_ =? _) = true |- _ => apply Z.eqb_eq in H
  | H : (_ =? _) = false |- _ => apply Z.eqb_neq in H
  | H : (_ <? _) = true |- _ => apply Z.ltb_lt in H
  | H : (_ <? _) = false |- _ => apply Z.ltb_ge in H
  | H : (_ <=? _) = true |- _ => apply Z.leb_le in H
  | H : (_ <=? _) = false |- _ => apply Z.leb_gt in H
  end.

(** ** Lemmas on words *)

Create Rewrite HintDb words.

Lemma wrap_small w z : 0 <= z < 2 ^ w -> wrap w z = z.
Proof. intros. by apply Z.mod_small. Qed.

Lemma wrap_range w z : 0 <= w -> 0 <= wrap w z < 2 ^ w.
Proof. intros. apply Z.mod_pos_bound. lia. Qed.

Lemma uadd_small a b : 0 <= a + b < 2 ^ 64 -> uadd a b = a + b.
Proof. apply wrap_small. Qed.

Lemma usub_small a b : 0 <= a - b < 2 ^ 64 -> usub a b = a - b.
Proof. apply wrap_small. Qed.

Lemma umul_small a b : 0 <= a * b < 2 ^ 64 -> umul a b = a * b.
Proof. apply wrap_small. Qed.

Lemma ushl_small a n : 0 <= n -> 0 <= a * 2 ^ n < 2 ^ 64 -> ushl a n = a * 2 ^ n.
Proof. intros. unfold ushl. rewrite Z.shiftl_mul_pow2 by done. by apply wrap_small. Qed.

Lemma ushr_div a n : 0 <= n -> ushr a n = a / 2 ^ n.
Proof. apply Z.shiftr_div_pow2. Qed.

(** The source's way to keep the low [64 - n] bits: [v << n >> n]. *)
Lemma ushr_ushl v n :
  0 <= n <= 64 -> ushr (ushl v n) n = v mod 2 ^ (64 - n).
Proof.
  intros Hn. unfold ushl, wrap. rewrite ushr_div, Z.shiftl_mul_pow2 by lia.
  replace (2 ^ 64) with (2 ^ (64 - n) * 2 ^ n)
    by (rewrite <- Z.pow_add_r by lia; f_equal; lia).
  rewrite Zmult_mod_distr_r, Z.div_mul; [done|]. apply Z.pow_nonzero; lia.
Qed.

Lemma testbit_above b n i :
  0 <= b < 2 ^ n -> 0 <= n <= i -> Z.testbit b i = false.
Proof.
  intros Hb Hi. destruct (decide (b = 0)) as [->|]; [apply Z.bits_0|].
  apply Z.bits_above_log2; [lia|].
  assert (Z.log2 b < n) by (apply Z.log2_lt_pow2; lia). lia.
Qed.

Lemma lor_disjoint_add a b n :
  0 <= n -> 0 <= b < 2 ^ n -> Z.lor (a * 2 ^ n) b = a * 2 ^ n + b.
Proof.
  intros Hn Hb.
  assert (Z.land (a * 2 ^ n) b = 0) as Hd.
  { apply Z.bits_inj'; intros i Hi. rewrite Z.land_spec, Z.bits_0.
    destruct (decide (i < n)).
    - by rewrite Z.mul_pow2_bits_low by lia.
    - rewrite (testbit_above b n) by lia. by rewrite andb_false_r. }
  by rewrite <- Z.lxor_lor, Z.add_nocarry_lxor by done.
Qed.

Lemma land_pow2_sub a n : 0 <= n -> Z.land a (2 ^ n - 1) = a mod 2 ^ n.
Proof. intros. rewrite <- Z.land_ones by done. by rewrite Z.ones_equiv, Z.sub_1_r. Qed.

#[export] Hint Rewrite wrap_small uadd_small usub_small umul_small using lia : words.

(** ** Lemmas on vectors *)

Lemma vec_pop_push {A} (l : list A) a : vec_pop (vec_push l a) = Some (a, l).
Proof. unfold vec_pop, vec_push. by rewrite reverse_snoc, reverse_involutive. Qed.

Lemma vec_pop_Some {A} (l l' : list A) a :
  vec_pop l = Some (a, l') <-> l = l' ++ [a].
Proof.
  unfold vec_pop. split.
  - destruct (reverse l) as [|b r] eqn:E; intros; simplify_eq.
    apply (f_equal reverse) in E. by rewrite reverse_involutive, reverse_cons in E.
  - intros ->. by rewrite reverse_snoc, reverse_involutive.
Qed.

Lemma vec_pop_None {A} (l : list A) : vec_pop l = None <-> l = [].
Proof.
  unfold vec_pop. destruct (reverse l) as [|b r] eqn:E.
  - apply (f_equal reverse) in E. rewrite reverse_involutive in E. naive_solver.
  - split; [done|]. intros ->. done.
Qed.

Lemma find_index_Some {A} (p : A -> bool) l i :
  find_index p l = Some i ->
  exists a, l !! i = Some a /\ p a = true /\
    forall j b, (j < i)%nat -> l !! j = Some b -> p b = false.
Proof.
  revert i. induction l as [|a l IH]; intros i H; simpl in H; [done|].
  destruct (p a) eqn:Ha; simplify_eq.
  - exists a. split_and!; [done|done|lia].
  - destruct (find_index p l) as [k|] eqn:E; simplify_eq/=.
    destruct (IH k eq_refl) as (b & ? & ? & Hlt). exists b. split_and!; [done|done|].
    intros [|j] c Hj ?; simplify_eq/=; [done|]. eapply (Hlt j); [lia|done].
Qed.

Lemma find_index_None {A} (p : A -> bool) l :
  find_index p l = None <-> Forall (fun a => p a = false) l.
Proof.
  induction l as [|a l IH]; simpl; [split; by constructor|].
  rewrite Forall_cons, <- IH. destruct (p a); [naive_solver|].
  destruct (find_index p l); naive_solver.
Qed.

Lemma eqb_ext (a b c d : Z) : (a = b <-> c = d) -> (a =? b) = (c =? d).
Proof. intros H. destruct (Z.eqb_spec a b), (Z.eqb_spec c d); naive_solver. Qed.

Lemma range_step (lo c x : Z) :
  lo <= c -> lo <= x < c + 1 <-> x = c \/ lo <= x < c.
Proof. lia. Qed.
