(* ===== verification/Address.v ===== *)
(** Addresses and page numbers of the Sv39 paging scheme: os/src/mm/address.rs,
    with the layout constants of os/src/config.rs and os/src/boards/qemu.rs.

    The source's newtypes over [usize] ([PhysAddr], [PhysPageNum], [VirtAddr],
    [VirtPageNum]) are represented by the integer they hold; the [From]
    conversions between them are the functions below. *)

From S2P Require Import Prelude.

Definition PAGE_SIZE : Z := 4096.
Definition PAGE_SIZE_BITS : Z := 12.
Definition USER_STACK_SIZE : Z := 8192.
Definition KERNEL_STACK_SIZE : Z := 8192.
Definition KERNEL_HEAP_SIZE : Z := 2097152.
Definition TRAMPOLINE : Z := uadd (usub usize_max PAGE_SIZE) 1.
Definition TRAP_CONTEXT_BASE : Z := usub TRAMPOLINE PAGE_SIZE.
Definition MEMORY_END : Z := 2281701376.

Definition PA_WIDTH_SV39 : Z := 56.
Definition VA_WIDTH_SV39 : Z := 39.
Definition PPN_WIDTH_SV39 : Z := PA_WIDTH_SV39 - PAGE_SIZE_BITS.
Definition VPN_WIDTH_SV39 : Z := VA_WIDTH_SV39 - PAGE_SIZE_BITS.

(** * Physical addresses *)

Definition PhysAddr_from_usize (v : Z) : Z :=
  let bits := usize_bits - PA_WIDTH_SV39 in ushr (ushl v bits) bits.

Definition PhysPageNum_from_usize (v : Z) : Z :=
  let bits := usize_bits - PPN_WIDTH_SV39 in ushr (ushl v bits) bits.

(** [page_offset], [floor], [ceil] and [aligned] have the same body on
    [PhysAddr] and on [VirtAddr]. *)
Definition page_offset (a : Z) : Z :=
  let bits := usize_bits - PAGE_SIZE_BITS in ushr (ushl a bits) bits.

Definition floor (a : Z) : Z := ushr a PAGE_SIZE_BITS.

Definition ceil (a : Z) : Z := ushr (usub (uadd a PAGE_SIZE) 1) PAGE_SIZE_BITS.

Definition aligned (a : Z) : bool := page_offset a =? 0.

Definition PhysPageNum_from_PhysAddr (a : Z) : res Z :=
  _ ← rassert (page_offset a =? 0);
  Ok (floor a).

Definition PhysAddr_from_PhysPageNum (p : Z) : Z := ushl p PAGE_SIZE_BITS.

(** * Virtual addresses *)

Definition VirtAddr_from_usize (v : Z) : Z :=
  let bits := usize_bits - VA_WIDTH_SV39 in ushr (ushl v bits) bits.

(** Sign extension of bit 38. *)
Definition usize_from_VirtAddr (v : Z) : Z :=
  if 0 <? ushr v (VA_WIDTH_SV39 - 1)
  then Z.lor v (ushl (unot 0) (VA_WIDTH_SV39 - 1))
  else v.

Definition VirtPageNum_from_usize (v : Z) : Z :=
  let bits := usize_bits - VPN_WIDTH_SV39 in ushr (ushl v bits) bits.

Definition VirtPageNum_from_VirtAddr (a : Z) : res Z :=
  _ ← rassert (page_offset a =? 0);
  Ok (floor a).

Definition VirtAddr_from_VirtPageNum (v : Z) : Z := ushl v PAGE_SIZE_BITS.

(** [for i in (0..3).rev() { res[i] = vpn & 511; vpn >>= 9; }] *)
Fixpoint indexes_loop (i : nat) (vpn : Z) (res : list Z) : list Z :=
  match i with
  | O => res
  | S i' => indexes_loop i' (ushr vpn 9) (<[i' := Z.land vpn 511]> res)
  end.

Definition indexes (vpn : Z) : list Z := indexes_loop 3 vpn [0; 0; 0].

(** * Ranges of page numbers *)

(** The trait [StepByOne], for both page number types. *)
Definition step (n : Z) : Z := uadd n 1.

Record SimpleRange := mkRange { range_l : Z; range_r : Z }.

Definition SimpleRange_new (start end_ : Z) : res SimpleRange :=
  _ ← rassert (start <=? end_);
  Ok (mkRange start end_).

Record SimpleRangeIterator := mkRangeIter { iter_current : Z; iter_end : Z }.

Definition into_iter (r : SimpleRange) : SimpleRangeIterator :=
  mkRangeIter r.(range_l) r.(range_r).

Definition next (it : SimpleRangeIterator) : option (Z * SimpleRangeIterator) :=
  if it.(iter_current) =? it.(iter_end) then None
  else Some (it.(iter_current), mkRangeIter (step it.(iter_current)) it.(iter_end)).

(** The items a [for] loop over the range sees; [None] when [fuel] runs out. *)
Fixpoint collect (fuel : nat) (it : SimpleRangeIterator) : option (list Z) :=
  match fuel with
  | O => None
  | S fuel' =>
      match next it with
      | None => Some []
      | Some (x, it') => cons x <$> collect fuel' it'
      end
  end.

(** The fuel that the range length calls for. *)
Definition vpns (r : SimpleRange) : list Z :=
  default [] (collect (S (Z.to_nat (r.(range_r) - r.(range_l)))) (into_iter r)).

(** * Lemmas *)

Section conversions.

Lemma PhysAddr_from_usize_mod v : PhysAddr_from_usize v = v mod 2 ^ 56.
Proof. unfold PhysAddr_from_usize. by rewrite ushr_ushl by (cbv; intuition discriminate). Qed.

Lemma PhysPageNum_from_usize_mod v : PhysPageNum_from_usize v = v mod 2 ^ 44.
Proof. unfold PhysPageNum_from_usize. by rewrite ushr_ushl by (cbv; intuition discriminate). Qed.

Lemma VirtAddr_from_usize_mod v : VirtAddr_from_usize v = v mod 2 ^ 39.
Proof. unfold VirtAddr_from_usize. by rewrite ushr_ushl by (cbv; intuition discriminate). Qed.

Lemma VirtPageNum_from_usize_mod v : VirtPageNum_from_usize v = v mod 2 ^ 27.
Proof. unfold VirtPageNum_from_usize. by rewrite ushr_ushl by (cbv; intuition discriminate). Qed.

Lemma page_offset_mod a : page_offset a = a mod 4096.
Proof. unfold page_offset. by rewrite ushr_ushl by (cbv; intuition discriminate). Qed.

Lemma floor_div a : floor a = a / 4096.
Proof. apply ushr_div. done. Qed.

Lemma ceil_div a : 0 <= a < 2 ^ 64 - 4096 -> ceil a = (a + 4095) / 4096.
Proof.
  intros. unfold ceil, PAGE_SIZE. rewrite uadd_small, usub_small by lia.
  rewrite ushr_div by done. f_equal. lia.
Qed.

Lemma PhysAddr_from_PhysPageNum_mul p :
  0 <= p < 2 ^ 52 -> PhysAddr_from_PhysPageNum p = p * 4096.
Proof. intros. unfold PhysAddr_from_PhysPageNum. by rewrite ushl_small by (cbv [PAGE_SIZE_BITS]; lia). Qed.

Lemma VirtAddr_from_VirtPageNum_mul p :
  0 <= p < 2 ^ 52 -> VirtAddr_from_VirtPageNum p = p * 4096.
Proof. intros. unfold VirtAddr_from_VirtPageNum. by rewrite ushl_small by (cbv [PAGE_SIZE_BITS]; lia). Qed.

(** The two halves of the canonical address space. *)
Lemma usize_from_VirtAddr_spec v :
  0 <= v < 2 ^ 39 ->
  usize_from_VirtAddr v = if decide (v < 2 ^ 38) then v else v + (2 ^ 64 - 2 ^ 39).
Proof.
  intros Hv. unfold usize_from_VirtAddr, VA_WIDTH_SV39. rewrite ushr_div by lia.
  change (ushl (unot 0) (39 - 1)) with ((2 ^ 26 - 1) * 2 ^ 38).
  case_decide.
  - rewrite Z.div_small by lia. done.
  - replace (v / 2 ^ (39 - 1)) with 1 by (apply Z.div_unique with (v - 2 ^ 38); lia).
    assert (Hs : v = Z.lor (1 * 2 ^ 38) (v - 2 ^ 38))
      by (rewrite lor_disjoint_add by lia; lia).
    rewrite Hs at 1. rewrite Z.lor_comm, Z.lor_assoc.
    change (Z.lor ((2 ^ 26 - 1) * 2 ^ 38) (1 * 2 ^ 38)) with ((2 ^ 26 - 1) * 2 ^ 38).
    rewrite lor_disjoint_add by lia. change (0 <? 1) with true. cbv iota. lia.
Qed.

Lemma indexes_spec vpn :
  indexes vpn = [vpn / 2 ^ 18 mod 512; vpn / 2 ^ 9 mod 512; vpn mod 512].
Proof.
  unfold indexes. cbn -[Z.land Z.div Z.modulo Z.pow].
  rewrite !ushr_div by lia. change 511 with (2 ^ 9 - 1). rewrite !land_pow2_sub by lia.
  rewrite Z.div_div by lia. done.
Qed.

Lemma step_small n : 0 <= n < 2 ^ 64 - 1 -> step n = n + 1.
Proof. intros. unfold step. by rewrite uadd_small by lia. Qed.

Lemma collect_seqZ n l r :
  0 <= l <= r -> r < 2 ^ 64 -> (Z.to_nat (r - l) < n)%nat ->
  collect n (mkRangeIter l r) = Some (seqZ l (r - l)).
Proof.
  revert l. induction n as [|n IH]; intros l Hl Hr Hn; [lia|].
  cbn [collect]. unfold next. simpl. destruct (l =? r) eqn:E; bool_to_Prop.
  - subst. by rewrite Z.sub_diag.
  - rewrite step_small, IH by lia. rewrite (seqZ_cons l) by lia. simpl.
    do 3 f_equal; lia.
Qed.

Lemma vpns_seqZ l r :
  0 <= l <= r -> r < 2 ^ 64 -> vpns (mkRange l r) = seqZ l (r - l).
Proof. intros. unfold vpns, into_iter. cbn [range_l range_r]. by rewrite collect_seqZ by (simpl; lia). Qed.

End conversions.

(** * Properties *)

(** The addresses Sv39 accepts: bits 63..38 all equal. *)
Definition canonical (v : Z) : bool := (v <? 2 ^ 38) || (2 ^ 64 - 2 ^ 38 <=? v).

(** Truncating a 64-bit address to a [VirtAddr] and extending it back gives
    the address again exactly when it is canonical, and always gives a canonical
    address with the same low 39 bits. *)
Theorem virt_addr_roundtrip v :
  is_u64 v ->
  let u := usize_from_VirtAddr (VirtAddr_from_usize v) in
  (u = v <-> canonical v = true) /\ canonical u = true /\ u mod 2 ^ 39 = v mod 2 ^ 39.
Proof.
  intros [H0 H1] u. unfold u, canonical. clear u. rewrite VirtAddr_from_usize_mod.
  pose proof (Z.mod_pos_bound v (2 ^ 39) ltac:(lia)) as Hm.
  rewrite usize_from_VirtAddr_spec by done. rewrite !orb_true_iff, !Z.ltb_lt, !Z.leb_le.
  case_decide.
  - rewrite Z.mod_mod by lia. Z.to_euclidean_division_equations; lia.
  - assert (Hx : (v mod 2 ^ 39 + (2 ^ 64 - 2 ^ 39)) mod 2 ^ 39 = v mod 2 ^ 39).
    { replace (2 ^ 64 - 2 ^ 39) with ((2 ^ 25 - 1) * 2 ^ 39) by lia.
      by rewrite Z.mod_add, Z.mod_mod by lia. }
    rewrite Hx. clear Hx. Z.to_euclidean_division_equations; lia.
Qed.

Lemma virt_addr_roundtrip_witness :
  usize_from_VirtAddr (VirtAddr_from_usize TRAMPOLINE) = TRAMPOLINE /\
  VirtAddr_from_usize TRAMPOLINE = 2 ^ 39 - 4096.
Proof.
  split; [|by vm_compute].
  apply (virt_addr_roundtrip TRAMPOLINE); [by vm_compute|by vm_compute].
Defined.

(** [indexes] splits a 27-bit virtual page number into three table indices
    below 512 from which the page number is recovered, so the three levels of a
    walk distinguish all pages. *)
Theorem indexes_decompose vpn :
  0 <= vpn < 2 ^ 27 ->
  exists i0 i1 i2, indexes vpn = [i0; i1; i2] /\
    Forall (fun i => 0 <= i < 512) [i0; i1; i2] /\
    vpn = i0 * 2 ^ 18 + i1 * 2 ^ 9 + i2.
Proof.
  intros Hv. rewrite indexes_spec. do 3 eexists. split; [done|]. split.
  - repeat constructor; apply Z.mod_pos_bound; lia.
  - Z.to_euclidean_division_equations; lia.
Qed.

Lemma indexes_decompose_witness :
  exists i0 i1 i2, indexes (2 ^ 27 - 1) = [i0; i1; i2] /\
    Forall (fun i => 0 <= i < 512) [i0; i1; i2] /\
    2 ^ 27 - 1 = i0 * 2 ^ 18 + i1 * 2 ^ 9 + i2.
Proof. apply (indexes_decompose (2 ^ 27 - 1)). split; [by vm_compute|by vm_compute]. Defined.

(** A range of page numbers from [start] to [end_] is refused when it is
    reversed, and iterating over an accepted one ends after visiting every page
    number from [start] up to and excluding [end_], in order. *)
Theorem page_range_iteration start end_ :
  is_u64 start -> is_u64 end_ ->
  match SimpleRange_new start end_ with
  | Ok r => start <= end_ /\
      collect (S (Z.to_nat (end_ - start))) (into_iter r) = Some (seqZ start (end_ - start))
  | Panic e => end_ < start /\ e = AssertFailed
  end.
Proof.
  intros [] []. unfold SimpleRange_new, rassert. destruct (start <=? end_) eqn:E; bool_to_Prop; cbn [mbind res_bind].
  - split; [done|]. by apply collect_seqZ; lia.
  - done.
Qed.

Lemma page_range_iteration_witness :
  match SimpleRange_new 5 8 with
  | Ok r => 5 <= 8 /\ collect 4 (into_iter r) = Some [5; 6; 7]
  | Panic e => 8 < 5 /\ e = AssertFailed
  end.
Proof. apply (page_range_iteration 5 8); (split; [by vm_compute|by vm_compute]). Defined.
