(* ===== verification/Alloc.v ===== *)
(** The identifier allocators of the kernel.

    [Recycle] models os/src/task/utils.rs ([RecycleAllocator], which hands out
    process ids, thread ids and kernel stack ids); [Frame] models
    os/src/mm/frame_allocator.rs ([StackFrameAllocator]).  The class
    [FrameAllocatorLaws] is what the memory-management code relies on: it is
    stated over the set of frames that are handed out, and
    [Frame.stack_frame_allocator_laws] discharges it for the allocator of the
    source. *)

From S2P Require Import Prelude Address.

(** * RecycleAllocator *)
Module Recycle.

Record RecycleAllocator := mkRecycle {
  current : Z;
  recycled : list Z;
}.

Definition new : RecycleAllocator := mkRecycle 0 [].

Definition alloc (a : RecycleAllocator) : Z * RecycleAllocator :=
  match vec_pop a.(recycled) with
  | Some (id, rest) => (id, mkRecycle a.(current) rest)
  | None => let c := uadd a.(current) 1 in (usub c 1, mkRecycle c a.(recycled))
  end.

Definition dealloc (id : Z) (a : RecycleAllocator) : res RecycleAllocator :=
  _ ← rassert (id <? a.(current));
  _ ← rassert (negb (existsb (fun target => target =? id) a.(recycled)));
  Ok (mkRecycle a.(current) (vec_push a.(recycled) id)).

(** The ids in use: below [current] and not recycled. *)
Definition live (a : RecycleAllocator) : gset Z :=
  list_to_set (seqZ 0 a.(current)) ∖ list_to_set a.(recycled).

Record wf (a : RecycleAllocator) : Prop := {
  wf_current : 0 <= a.(current) < 2 ^ 64;
  wf_recycled : Forall (fun i => 0 <= i < a.(current)) a.(recycled);
  wf_nodup : NoDup a.(recycled);
}.

Lemma existsb_eqb_elem (l : list Z) x :
  existsb (fun t => t =? x) l = true <-> x ∈ l.
Proof.
  rewrite existsb_exists, list_elem_of_In. setoid_rewrite Z.eqb_eq. naive_solver.
Qed.

Lemma existsb_eqb_not_elem (l : list Z) x :
  existsb (fun t => t =? x) l = false <-> x ∉ l.
Proof. rewrite <- existsb_eqb_elem, not_true_iff_false. done. Qed.

Lemma elem_of_live a id :
  id ∈ live a <-> 0 <= id < a.(current) /\ id ∉ a.(recycled).
Proof.
  unfold live. rewrite elem_of_difference, !elem_of_list_to_set, elem_of_seqZ.
  by rewrite Z.add_0_l.
Qed.

Lemma new_wf : wf new.
Proof. split; simpl; [lia|constructor|constructor]. Qed.

Lemma new_live : live new = ∅.
Proof. done. Qed.

Lemma alloc_correct a id a' :
  wf a -> a.(current) < 2 ^ 64 - 1 -> alloc a = (id, a') ->
  wf a' /\ id ∉ live a /\ live a' = {[id]} ∪ live a /\ a'.(current) <= a.(current) + 1.
Proof.
  intros [Hc Hr Hn] Hlt. unfold alloc.
  destruct (vec_pop (recycled a)) as [[i rest]|] eqn:E; intros ?; simplify_eq/=.
  - apply vec_pop_Some in E. rewrite E in Hr, Hn.
    apply Forall_app in Hr as [Hr Hi]. inversion_clear Hi as [|? ? Hid _].
    apply NoDup_app in Hn as (Hn & Hd & _).
    assert (Hnot : id ∉ rest) by (intros Hin; by apply (Hd id Hin), list_elem_of_singleton).
    split_and!; [by split| | |simpl; lia].
    + rewrite elem_of_live, E. set_solver.
    + apply set_eq. intros x. rewrite elem_of_union, elem_of_singleton, !elem_of_live, E. simpl.
      destruct (decide (x = id)) as [->|]; set_solver.
  - apply vec_pop_None in E. rewrite uadd_small, usub_small by lia.
    replace (current a + 1 - 1) with (current a) by lia.
    split_and!; simpl; [split; simpl; [lia|by rewrite E; constructor|by rewrite E; constructor]
      | | |lia].
    + rewrite elem_of_live. lia.
    + apply set_eq. intros x. rewrite elem_of_union, elem_of_singleton, !elem_of_live. simpl.
      rewrite E. pose proof (not_elem_of_nil x). rewrite range_step by lia. tauto.
Qed.

Lemma dealloc_live a id :
  wf a -> id ∈ live a ->
  exists a', dealloc id a = Ok a' /\ wf a' /\ live a' = live a ∖ {[id]}.
Proof.
  intros [Hc Hr Hn] [Hb Hni]%elem_of_live. unfold dealloc, rassert.
  rewrite (proj2 (Z.ltb_lt _ _)) by lia. simpl.
  rewrite (proj2 (existsb_eqb_not_elem _ _)) by done. simpl.
  eexists. split; [done|]. split.
  - split; simpl; [lia| |].
    + apply Forall_app. auto.
    + apply NoDup_app. split_and!; [done|set_solver|apply NoDup_singleton].
  - apply set_eq. intros x. rewrite elem_of_difference, elem_of_singleton, !elem_of_live. simpl.
    unfold vec_push. rewrite elem_of_app, list_elem_of_singleton. tauto.
Qed.

Lemma dealloc_not_live a id :
  0 <= id -> id ∉ live a -> dealloc id a = Panic AssertFailed.
Proof.
  intros H0 Hn. rewrite elem_of_live in Hn. unfold dealloc, rassert.
  destruct (id <? current a) eqn:E; [|done]. bool_to_Prop. simpl.
  destruct (existsb _ _) eqn:E2; [done|].
  apply existsb_eqb_not_elem in E2. exfalso. apply Hn. split; [lia|done].
Qed.

(** ** Reachable states, with the ids the callers hold *)

Inductive reach : RecycleAllocator -> list Z -> Prop :=
| reach_new : reach new []
| reach_alloc a held id a' :
    reach a held -> a.(current) < 2 ^ 64 - 1 -> alloc a = (id, a') ->
    reach a' (id :: held)
| reach_dealloc a l1 id l2 a' :
    reach a (l1 ++ id :: l2) -> dealloc id a = Ok a' -> reach a' (l1 ++ l2).

Lemma reach_inv a held :
  reach a held -> wf a /\ NoDup held /\ live a = list_to_set held.
Proof.
  induction 1 as [|a held id a' _ (Hwf & Hnd & Hl) Hc E|a l1 id l2 a' _ (Hwf & Hnd & Hl) E].
  - split_and!; [apply new_wf|constructor|done].
  - destruct (alloc_correct _ _ _ Hwf Hc E) as (Hwf' & Hni & Hl' & _). rewrite Hl in Hni.
    split_and!; [done| |by rewrite Hl', Hl].
    constructor; [set_solver|done].
  - assert (Hid : id ∈ live a) by (rewrite Hl; set_solver).
    destruct (dealloc_live a id Hwf Hid) as (a2 & E2 & Hwf' & Hl'). rewrite E in E2. simplify_eq.
    rewrite <- Permutation_middle in Hnd.
    apply NoDup_cons in Hnd as [Hn Hnd]. split_and!; [done|done|].
    rewrite Hl', Hl. set_solver.
Qed.

(** Whatever sequence of allocations and releases led to a state, the ids
    that callers hold are pairwise distinct, each of them can be released, and
    releasing any other id panics. *)
Theorem recycle_ids_distinct a held :
  reach a held ->
  NoDup held /\
  (forall id, id ∈ held -> exists a', dealloc id a = Ok a') /\
  (forall id, 0 <= id -> id ∉ held -> dealloc id a = Panic AssertFailed).
Proof.
  intros (Hwf & Hnd & Hl)%reach_inv. split_and!; [done| |].
  - intros id Hid. destruct (dealloc_live a id Hwf) as (a' & ? & _); [set_solver|eauto].
  - intros id H0 Hid. apply dealloc_not_live; [done|set_solver].
Qed.

Lemma recycle_ids_distinct_witness :
  let a := mkRecycle 3 [0] in
  NoDup [2; 1] /\
  (forall id, id ∈ [2; 1] -> exists a', dealloc id a = Ok a') /\
  (forall id, 0 <= id -> id ∉ [2; 1] -> dealloc id a = Panic AssertFailed).
Proof.
  apply recycle_ids_distinct.
  apply (reach_dealloc (mkRecycle 3 []) [2; 1] 0 []); [|by vm_compute].
  apply (reach_alloc (mkRecycle 2 []) [1; 0] 2); [|by vm_compute|by vm_compute].
  apply (reach_alloc (mkRecycle 1 []) [0] 1); [|by vm_compute|by vm_compute].
  apply (reach_alloc new [] 0); [constructor|by vm_compute|by vm_compute].
Defined.

End Recycle.

(** * Frame allocators *)

(** The trait [FrameAllocator] (os/src/mm/frame_allocator.rs). *)
Class FrameAllocator (F : Type) := {
  fa_new : F;
  fa_alloc : F -> option Z * F;
  fa_dealloc : Z -> F -> res F;
}.

(** What its clients rely on: [fa_rep f live] says that [live] is the set of
    frames [f] has handed out and not taken back. *)
Class FrameAllocatorLaws (F : Type) `{FrameAllocator F} := {
  fa_rep : F -> gset Z -> Prop;
  fa_capacity : F -> nat;
  fa_live_ppn : forall f live p, fa_rep f live -> p ∈ live -> 0 <= p < 2 ^ 44;
  fa_alloc_some : forall f live, fa_rep f live -> (fa_capacity f <> 0)%nat ->
    exists p f', fa_alloc f = (Some p, f') /\ p ∉ live /\
      fa_rep f' ({[p]} ∪ live) /\ fa_capacity f = S (fa_capacity f');
  fa_alloc_none : forall f live, fa_rep f live -> (fa_capacity f = 0)%nat ->
    fa_alloc f = (None, f);
  fa_dealloc_live : forall f live p, fa_rep f live -> p ∈ live ->
    exists f', fa_dealloc p f = Ok f' /\ fa_rep f' (live ∖ {[p]}) /\
      fa_capacity f' = S (fa_capacity f);
}.

Module Frame.

Record StackFrameAllocator := mkFrameAllocator {
  current : Z;
  end_ : Z;
  recycled : list Z;
}.

Definition new : StackFrameAllocator :=
  mkFrameAllocator (PhysPageNum_from_usize 0) (PhysPageNum_from_usize 0) [].

Definition alloc (a : StackFrameAllocator) : option Z * StackFrameAllocator :=
  match vec_pop a.(recycled) with
  | Some (ppn, rest) => (Some ppn, mkFrameAllocator a.(current) a.(end_) rest)
  | None =>
      if a.(current) =? a.(end_) then (None, a)
      else
        let c := uadd a.(current) 1 in
        (Some (PhysPageNum_from_usize (usub c 1)), mkFrameAllocator c a.(end_) a.(recycled))
  end.

Definition dealloc (ppn : Z) (a : StackFrameAllocator) : res StackFrameAllocator :=
  if (a.(current) <=? ppn) || existsb (fun v => v =? ppn) a.(recycled)
  then Panic PanicCall
  else Ok (mkFrameAllocator a.(current) a.(end_) (vec_push a.(recycled) ppn)).

Definition init (l r : Z) (a : StackFrameAllocator) : StackFrameAllocator :=
  mkFrameAllocator l r a.(recycled).

#[global] Instance stack_frame_allocator : FrameAllocator StackFrameAllocator := {
  fa_new := new;
  fa_alloc := alloc;
  fa_dealloc := dealloc;
}.

(** The frames between [lo] (where [init] started) and [current], less the
    recycled ones, are handed out. *)
Record rep (lo : Z) (a : StackFrameAllocator) (live : gset Z) : Prop := {
  rep_lo : 0 <= lo <= a.(current);
  rep_end : a.(current) <= a.(end_) <= 2 ^ 44;
  rep_recycled : Forall (fun p => lo <= p < a.(current)) a.(recycled);
  rep_nodup : NoDup a.(recycled);
  rep_live : forall p, p ∈ live <-> lo <= p < a.(current) /\ p ∉ a.(recycled);
}.

Definition capacity (a : StackFrameAllocator) : nat :=
  length a.(recycled) + Z.to_nat (a.(end_) - a.(current)).

Lemma rep_live_ppn lo a live p : rep lo a live -> p ∈ live -> 0 <= p < 2 ^ 44.
Proof. intros [] Hp%rep_live0. lia. Qed.

Lemma init_rep lo hi a :
  0 <= lo <= hi -> hi <= 2 ^ 44 -> a.(recycled) = [] -> rep lo (init lo hi a) ∅.
Proof.
  intros. split; simpl; [lia|lia| | |]; rewrite ?H1; [constructor|constructor|set_solver by lia].
Qed.

Lemma alloc_some lo a live :
  rep lo a live -> (capacity a <> 0)%nat ->
  exists p a', alloc a = (Some p, a') /\ p ∉ live /\ lo <= p < a.(end_) /\
    rep lo a' ({[p]} ∪ live) /\ capacity a = S (capacity a').
Proof.
  intros [Hlo He Hr Hn Hl] Hcap. unfold alloc, capacity in *.
  destruct (vec_pop (recycled a)) as [[i rest]|] eqn:E.
  - apply vec_pop_Some in E. rewrite E in Hr, Hn.
    apply Forall_app in Hr as [Hr Hi]. inversion_clear Hi as [|? ? Hid _].
    apply NoDup_app in Hn as (Hn & Hd & _).
    assert (Hnot : i ∉ rest) by (intros Hin; by apply (Hd i Hin), list_elem_of_singleton).
    eexists _, _. split; [done|]. split_and!; [rewrite Hl, E; set_solver|lia|lia| |].
    + split; simpl; [lia|lia|done|done|]. intros x.
      rewrite elem_of_union, elem_of_singleton, Hl, E.
      destruct (decide (x = i)) as [->|]; set_solver.
    + simpl. rewrite E, length_app. simpl. lia.
  - apply vec_pop_None in E. rewrite E in *. simpl in *.
    destruct (current a =? end_ a) eqn:E2; bool_to_Prop; [lia|].
    rewrite uadd_small, usub_small, PhysPageNum_from_usize_mod, Z.mod_small by lia.
    replace (current a + 1 - 1) with (current a) by lia.
    eexists _, _. split; [done|]. split_and!; [rewrite Hl; lia|lia|lia| |simpl; lia].
    split; simpl; [lia|lia|constructor|constructor|]. intros x.
    rewrite elem_of_union, elem_of_singleton, Hl.
    pose proof (not_elem_of_nil x). rewrite range_step by lia. tauto.
Qed.

Lemma alloc_none lo a live :
  rep lo a live -> (capacity a = 0)%nat -> alloc a = (None, a).
Proof.
  intros [] Hcap. unfold alloc, capacity in *.
  assert (E : recycled a = []) by (apply nil_length_inv; lia). rewrite E. simpl.
  destruct (current a =? end_ a) eqn:E2; bool_to_Prop; [done|lia].
Qed.

Lemma frame_dealloc_live lo a live p :
  rep lo a live -> p ∈ live ->
  exists a', dealloc p a = Ok a' /\ rep lo a' (live ∖ {[p]}) /\
    capacity a' = S (capacity a).
Proof.
  intros [Hlo He Hr Hn Hl] Hp. pose proof (proj1 (Hl p) Hp) as [Hb Hni]. unfold dealloc.
  rewrite (proj2 (Z.leb_gt _ _)) by lia.
  rewrite (proj2 (Recycle.existsb_eqb_not_elem _ _)) by done. simpl.
  eexists. split; [done|]. split.
  - split; simpl; [lia|lia| | |].
    + apply Forall_app; auto.
    + apply NoDup_app. split_and!; [done|set_solver|apply NoDup_singleton].
    + intros x. rewrite elem_of_difference, elem_of_singleton, Hl. unfold vec_push.
      rewrite elem_of_app, list_elem_of_singleton. tauto.
  - unfold capacity; simpl. unfold vec_push. rewrite length_app. simpl. lia.
Qed.

Lemma frame_dealloc_not_live lo a live p :
  rep lo a live -> lo <= p -> p ∉ live -> dealloc p a = Panic PanicCall.
Proof.
  intros [] Hp Hn. unfold dealloc. rewrite rep_live0 in Hn.
  destruct (current a <=? p) eqn:E; [done|]. bool_to_Prop. simpl.
  destruct (existsb _ _) eqn:E2; [done|].
  apply Recycle.existsb_eqb_not_elem in E2. exfalso. apply Hn. split; [lia|done].
Qed.

(** ** Reachable states, with the frames the kernel holds *)

Inductive reach (lo hi : Z) : StackFrameAllocator -> list Z -> Prop :=
| reach_init : reach lo hi (init lo hi new) []
| reach_alloc a held p a' :
    reach lo hi a held -> alloc a = (Some p, a') -> reach lo hi a' (p :: held)
| reach_dealloc a l1 p l2 a' :
    reach lo hi a (l1 ++ p :: l2) -> dealloc p a = Ok a' -> reach lo hi a' (l1 ++ l2).

Lemma frame_reach_inv lo hi a held :
  0 <= lo <= hi -> hi <= 2 ^ 44 -> reach lo hi a held ->
  rep lo a (list_to_set held) /\ NoDup held /\ a.(end_) = hi /\
  Z.of_nat (length held + capacity a) = hi - lo.
Proof.
  intros Hlo Hhi.
  induction 1 as [|a held p a' _ (Hr & Hnd & He & Hc) E|a l1 p l2 a' _ (Hr & Hnd & He & Hc) E].
  - split_and!; [by apply init_rep|constructor|done|]. unfold capacity; simpl. lia.
  - assert (Hcap : (capacity a <> 0)%nat).
    { intros H0. by rewrite (alloc_none _ _ _ Hr H0) in E. }
    destruct (alloc_some _ _ _ Hr Hcap) as (q & a2 & E2 & Hq & Hb & Hr' & Hc'). rewrite E in E2. simplify_eq.
    split_and!; [done| | |simpl; lia].
    + constructor; [set_solver|done].
    + unfold alloc in E. destruct (vec_pop _) as [[]|]; [by simplify_eq|].
      destruct (_ =? _); by simplify_eq.
  - destruct (frame_dealloc_live _ _ _ p Hr) as (a2 & E2 & Hr' & Hc'); [set_solver|]. rewrite E in E2. simplify_eq.
    rewrite <- Permutation_middle in Hnd.
    apply NoDup_cons in Hnd as [Hn Hnd]. split_and!; [|done| |].
    + replace (list_to_set (l1 ++ l2) : gset Z)
        with ((list_to_set (l1 ++ p :: l2) : gset Z) ∖ {[p]}) by set_solver. done.
    + unfold dealloc in E. destruct (_ || _); by simplify_eq.
    + rewrite !length_app in *. simpl in *. lia.
Qed.

(** After any sequence of frame allocations and releases starting from
    [init l r], the frames in use are pairwise distinct and between [l] and
    [r], and the allocator runs out exactly when all of them are in use. *)
Theorem frames_never_shared lo hi a held :
  0 <= lo <= hi -> hi <= 2 ^ 44 -> reach lo hi a held ->
  NoDup held /\ Forall (fun p => lo <= p < hi) held /\
  ((alloc a).1 = None <-> Z.of_nat (length held) = hi - lo).
Proof.
  intros Hlo Hhi Hreach. destruct (frame_reach_inv _ _ _ _ Hlo Hhi Hreach) as (Hr & Hnd & He & Hc).
  split_and!; [done| |].
  - apply Forall_forall. intros p Hp. destruct Hr.
    assert (p ∈ (list_to_set held : gset Z)) as Hp' by set_solver.
    apply rep_live0 in Hp'. lia.
  - destruct (decide (capacity a = 0%nat)) as [H0|H0].
    + rewrite (alloc_none _ _ _ Hr H0). simpl. split; [lia|done].
    + destruct (alloc_some _ _ _ Hr H0) as (p & a' & E & _). rewrite E. simpl. split; [done|lia].
Qed.

Lemma frames_never_shared_witness :
  let a := mkFrameAllocator 12 12 [10] in
  NoDup [11] /\ Forall (fun p => 10 <= p < 12) [11] /\
  ((alloc a).1 = None <-> Z.of_nat (length [11]) = 12 - 10).
Proof.
  apply frames_never_shared; [lia|lia|].
  apply (reach_dealloc 10 12 (mkFrameAllocator 12 12 []) [11] 10 []); [|by vm_compute].
  apply (reach_alloc 10 12 (mkFrameAllocator 11 12 []) [10] 11); [|by vm_compute].
  apply (reach_alloc 10 12 (mkFrameAllocator 10 12 []) [] 10); [|by vm_compute].
  apply (reach_init 10 12).
Defined.

#[global] Program Instance stack_frame_allocator_laws (lo : Z) :
  FrameAllocatorLaws StackFrameAllocator := {
  fa_rep := rep lo;
  fa_capacity := capacity;
}.
Next Obligation. intros. by eapply rep_live_ppn. Qed.
Next Obligation.
  intros lo f live Hr Hc. destruct (alloc_some lo f live Hr Hc) as (p & f' & ? & ? & ? & ? & ?).
  eauto 6.
Qed.
Next Obligation. intros. by eapply alloc_none. Qed.
Next Obligation. intros. by eapply frame_dealloc_live. Qed.

End Frame.
