(* ===== verification/Memory.v ===== *)
(** Physical memory, and the frames the kernel takes from it.

    Memory is a map from physical page numbers to pages and a page is a map
    from byte offsets to bytes; a byte that was never written reads as 0.  The
    views of a page that os/src/mm/address.rs hands out are functions on it:
    [PhysPageNum::get_bytes_array] (all 4096 bytes) and
    [PhysPageNum::get_pte_array] (512 little-endian words).  The second half
    models [FrameTracker], [frame_alloc] and [frame_dealloc] of
    os/src/mm/frame_allocator.rs over any allocator that implements the trait. *)

From S2P Require Import Prelude Address Alloc.

Abbreviation page := (gmap Z Z).
Abbreviation pmem := (gmap Z (gmap Z Z)).

Definition get_page (m : pmem) (ppn : Z) : page := default ∅ (m !! ppn).
Definition byte_at (p : page) (off : Z) : Z := default 0 (p !! off).

(** Little-endian words of [n] bytes. *)
Fixpoint read_le (n : nat) (p : page) (off : Z) : Z :=
  match n with
  | O => 0
  | S n' => byte_at p off + 256 * read_le n' p (off + 1)
  end.

Fixpoint write_le (n : nat) (p : page) (off w : Z) : page :=
  match n with
  | O => p
  | S n' => write_le n' (<[off := w mod 256]> p) (off + 1) (w / 256)
  end.

Definition read_word (m : pmem) (ppn i : Z) : Z := read_le 8 (get_page m ppn) (8 * i).
Definition write_word (m : pmem) (ppn i w : Z) : pmem :=
  <[ppn := write_le 8 (get_page m ppn) (8 * i) w]> m.

(** [slice.copy_from_slice(src)] on bytes [off ..] of a page. *)
Fixpoint write_bytes (p : page) (off : Z) (bs : list Z) : page :=
  match bs with
  | [] => p
  | b :: bs' => write_bytes (<[off := b]> p) (off + 1) bs'
  end.

Definition read_bytes (p : page) (off len : Z) : list Z :=
  byte_at p <$> seqZ off len.

(** [ppn.get_bytes_array().fill(0)] *)
Definition zero_page (m : pmem) (ppn : Z) : pmem := <[ppn := ∅]> m.

(** * The state of the memory-management code *)

Section frames.

Context {F : Type} `{FrameAllocator F}.

Record mm := mkMM {
  mem : pmem;
  falloc : F;
}.

(** [FrameTracker::new] clears the frame. *)
Definition FrameTracker_new (ppn : Z) : ST mm Z := fun s =>
  Ok (ppn, mkMM (zero_page s.(mem) ppn) s.(falloc)).

Definition frame_alloc : ST mm (option Z) := fun s =>
  match fa_alloc s.(falloc) with
  | (Some ppn, f') => (Some <$> FrameTracker_new ppn) (mkMM s.(mem) f')
  | (None, f') => Ok (None, mkMM s.(mem) f')
  end.

(** Also the [Drop] of a [FrameTracker]. *)
Definition frame_dealloc (ppn : Z) : ST mm unit := fun s =>
  match fa_dealloc ppn s.(falloc) with
  | Ok f' => Ok (tt, mkMM s.(mem) f')
  | Panic e => Panic e
  end.

Definition load_word (ppn i : Z) : ST mm Z := fun s =>
  Ok (read_word s.(mem) ppn i, s).

Definition store_word (ppn i w : Z) : ST mm unit := fun s =>
  Ok (tt, mkMM (write_word s.(mem) ppn i w) s.(falloc)).

Definition load_page (ppn : Z) : ST mm page := fun s =>
  Ok (get_page s.(mem) ppn, s).

Definition store_page (ppn : Z) (p : page) : ST mm unit := fun s =>
  Ok (tt, mkMM (<[ppn := p]> s.(mem)) s.(falloc)).

End frames.
Arguments mm F : clear implicits.

(** * Lemmas *)

Lemma byte_at_empty off : byte_at ∅ off = 0.
Proof. done. Qed.

Lemma byte_at_insert p off b i :
  byte_at (<[off := b]> p) i = if decide (off = i) then b else byte_at p i.
Proof. unfold byte_at. rewrite lookup_insert. by case_decide. Qed.

Lemma read_le_empty n off : read_le n ∅ off = 0.
Proof. revert off. induction n; intros; simpl; [done|]. by rewrite IHn. Qed.

Lemma byte_at_write_le n p off w i :
  byte_at (write_le n p off w) i =
  if decide (off <= i < off + Z.of_nat n) then w / 256 ^ (i - off) mod 256 else byte_at p i.
Proof.
  revert p off w. induction n as [|n IH]; intros p off w; cbn [write_le].
  { rewrite decide_False by lia. done. }
  rewrite IH, byte_at_insert. repeat case_decide; try lia.
  - rewrite Z.div_div by lia. do 2 f_equal.
    rewrite <- Z.pow_succ_r by lia. f_equal. lia.
  - subst. rewrite Z.sub_diag, Z.pow_0_r, Z.div_1_r. done.
Qed.

Lemma read_le_ext n p q off :
  (forall i, off <= i < off + Z.of_nat n -> byte_at p i = byte_at q i) ->
  read_le n p off = read_le n q off.
Proof.
  revert off. induction n as [|n IH]; intros off Hi; simpl; [done|].
  rewrite (Hi off) by lia. rewrite (IH (off + 1)); [done|]. intros. apply Hi. lia.
Qed.

Lemma read_le_bytes n p off w :
  (forall k, 0 <= k < Z.of_nat n -> byte_at p (off + k) = w / 256 ^ k mod 256) ->
  read_le n p off = w mod 256 ^ Z.of_nat n.
Proof.
  revert off w. induction n as [|n IH]; intros off w Hk; cbn [read_le].
  { by rewrite Z.mod_1_r. }
  rewrite (IH (off + 1) (w / 256)).
  - specialize (Hk 0). rewrite Z.add_0_r, Z.pow_0_r, Z.div_1_r in Hk. rewrite Hk by lia.
    replace (256 ^ Z.of_nat (S n)) with (256 * 256 ^ Z.of_nat n)
      by (rewrite Nat2Z.inj_succ, Z.pow_succ_r; lia).
    rewrite Z.rem_mul_r; lia.
  - intros k Hr. replace (off + 1 + k) with (off + (k + 1)) by lia.
    rewrite Hk, Z.div_div by lia. rewrite Z.pow_add_r, Z.mul_comm by lia. done.
Qed.

Lemma read_write_le n p off w :
  read_le n (write_le n p off w) off = w mod 256 ^ Z.of_nat n.
Proof.
  apply read_le_bytes. intros k Hk. rewrite byte_at_write_le, decide_True by lia.
  do 3 f_equal. lia.
Qed.

Lemma get_page_insert m ppn p q :
  get_page (<[ppn := p]> m) q = if decide (ppn = q) then p else get_page m q.
Proof. unfold get_page. rewrite lookup_insert. by case_decide. Qed.

Lemma read_word_write_eq m ppn i w :
  0 <= w < 2 ^ 64 -> read_word (write_word m ppn i w) ppn i = w.
Proof.
  intros. unfold read_word, write_word. rewrite get_page_insert, decide_True by done.
  rewrite read_write_le. by apply Z.mod_small.
Qed.

Lemma read_word_write_ne m ppn i w q j :
  ppn <> q \/ i <> j -> read_word (write_word m ppn i w) q j = read_word m q j.
Proof.
  intros Hne. unfold read_word, write_word. rewrite get_page_insert.
  case_decide; [|done]. subst. apply read_le_ext. intros k Hk.
  rewrite byte_at_write_le, decide_False by lia. done.
Qed.

Lemma read_word_zero_eq m ppn i : read_word (zero_page m ppn) ppn i = 0.
Proof.
  unfold read_word, zero_page. rewrite get_page_insert, decide_True by done.
  apply read_le_empty.
Qed.

Lemma read_word_zero_ne m ppn q i :
  ppn <> q -> read_word (zero_page m ppn) q i = read_word m q i.
Proof. intros. unfold read_word, zero_page. by rewrite get_page_insert, decide_False. Qed.

Lemma byte_at_write_bytes p off bs i :
  byte_at (write_bytes p off bs) i =
  if decide (off <= i < off + Z.of_nat (length bs))
  then default 0 (bs !! Z.to_nat (i - off)) else byte_at p i.
Proof.
  revert p off. induction bs as [|b bs IH]; intros p off; cbn [write_bytes].
  { simpl. rewrite decide_False by lia. done. }
  rewrite IH, byte_at_insert. simpl length. repeat case_decide; try lia.
  - replace (Z.to_nat (i - off)) with (S (Z.to_nat (i - (off + 1)))) by lia. done.
  - subst. by rewrite Z.sub_diag.
Qed.

Section frame_lemmas.

Context {F : Type} `{FrameAllocatorLaws F}.

(** [frame_alloc] returns a cleared frame that was not handed out, and leaves
    every other page alone. *)
Lemma frame_alloc_some (s : mm F) live :
  fa_rep s.(falloc) live -> (fa_capacity s.(falloc) <> 0)%nat ->
  exists p f', frame_alloc s = Ok (Some p, mkMM (zero_page s.(mem) p) f') /\
    p ∉ live /\ 0 <= p < 2 ^ 44 /\ fa_rep f' ({[p]} ∪ live) /\
    fa_capacity s.(falloc) = S (fa_capacity f').
Proof.
  intros Hr Hc. destruct (fa_alloc_some _ _ Hr Hc) as (p & f' & E & Hp & Hr' & Hc').
  exists p, f'. unfold frame_alloc. rewrite E. split_and!; try done.
  - eapply fa_live_ppn; [done|set_solver].
  - eapply fa_live_ppn; [exact Hr'|set_solver].
Qed.

End frame_lemmas.
