(* ===== verification/PageTable.v ===== *)
(** Sv39 page tables: os/src/mm/page_table.rs.

    [PageTable] builds three-level tables in physical memory from frames of the
    frame allocator; [PageTableView] walks them.  A [&'static mut
    PageTableEntry] is represented by its place, the table's page number and
    the index in it.  The theorems relate the tables to the partial function
    [leaf] from virtual page numbers to valid entries: [map] adds one binding
    and [unmap] removes one, and neither touches any other translation. *)

From S2P Require Import Prelude Address Alloc Memory.

(** * Entries *)
Module PTE.

Definition V : Z := 1.
Definition R : Z := 2.
Definition W : Z := 4.
Definition X : Z := 8.
Definition U : Z := 16.

(** [PTEFlags] defines all eight bits, so [from_bits] never fails. *)
Definition flags_from_bits (b : Z) : option Z :=
  if Z.land b (Z.lnot 255) =? 0 then Some b else None.

Definition new (ppn flags : Z) : Z := Z.lor (ushl ppn 10) flags.
Definition empty : Z := 0.
Definition ppn (bits : Z) : Z := PhysPageNum_from_usize (ushr (ushl bits 10) 20).
Definition flags (bits : Z) : res Z := unwrap (flags_from_bits (as_u8 bits)).

Definition has (flag bits : Z) : res bool :=
  f ← flags bits;
  Ok (negb (Z.land f flag =? 0)).

Definition is_valid (bits : Z) : res bool := has V bits.
Definition readable (bits : Z) : res bool := has R bits.
Definition writable (bits : Z) : res bool := has W bits.
Definition executable (bits : Z) : res bool := has X bits.

Lemma ppn_div bits : 0 <= bits -> ppn bits = bits / 2 ^ 10 mod 2 ^ 44.
Proof.
  intros. unfold ppn. rewrite PhysPageNum_from_usize_mod.
  unfold ushl, wrap. rewrite ushr_div, Z.shiftl_mul_pow2 by lia.
  replace (2 ^ 64) with (2 ^ 54 * 2 ^ 10) by lia.
  rewrite Zmult_mod_distr_r.
  replace (2 ^ 20) with (2 ^ 10 * 2 ^ 10) by lia.
  rewrite <- Z.div_div, Z.div_mul by lia.
  replace (2 ^ 54) with (2 ^ 10 * 2 ^ 44) by lia.
  rewrite Z.rem_mul_r by lia.
  rewrite (Z.mul_comm (2 ^ 10)), Z.div_add by lia.
  rewrite (Z.div_small (bits mod 2 ^ 10)), Z.add_0_l by (apply Z.mod_pos_bound; lia).
  by rewrite Z.mod_mod by lia.
Qed.

Lemma new_add p f : 0 <= p < 2 ^ 44 -> 0 <= f < 2 ^ 10 -> new p f = p * 2 ^ 10 + f.
Proof. intros. unfold new. rewrite ushl_small by lia. by apply lor_disjoint_add. Qed.

Lemma new_range p f : 0 <= p < 2 ^ 44 -> 0 <= f < 2 ^ 10 -> 0 <= new p f < 2 ^ 64.
Proof. intros. rewrite new_add by done. lia. Qed.

Lemma ppn_new p f : 0 <= p < 2 ^ 44 -> 0 <= f < 2 ^ 10 -> ppn (new p f) = p.
Proof.
  intros. rewrite ppn_div by (pose proof (new_range p f); lia). rewrite new_add by done.
  rewrite Z.div_add_l, (Z.div_small f), Z.add_0_r by lia. by apply Z.mod_small.
Qed.

Lemma flags_from_bits_small b : 0 <= b < 256 -> flags_from_bits b = Some b.
Proof.
  intros. unfold flags_from_bits.
  rewrite <- Z.ldiff_land. change 255 with (Z.ones 8).
  rewrite Z.ldiff_ones_r by lia. rewrite Z.shiftr_div_pow2, Z.div_small by lia. done.
Qed.

Lemma flags_Ok bits : flags bits = Ok (bits mod 256).
Proof.
  unfold flags, as_u8, wrap. rewrite flags_from_bits_small; [done|].
  apply Z.mod_pos_bound. lia.
Qed.

Lemma flags_new p f : 0 <= p < 2 ^ 44 -> 0 <= f < 256 -> flags (new p f) = Ok f.
Proof.
  intros. rewrite flags_Ok, new_add by lia.
  replace (p * 2 ^ 10 + f) with (f + (p * 4) * 256) by lia.
  by rewrite Z.mod_add, Z.mod_small by lia.
Qed.

Lemma has_bit k bits : 0 <= k < 8 -> has (2 ^ k) bits = Ok (Z.testbit bits k).
Proof.
  intros Hk. unfold has. rewrite flags_Ok. simpl. f_equal.
  assert (Z.land (bits mod 256) (2 ^ k) = if Z.testbit bits k then 2 ^ k else 0) as ->.
  { apply Z.bits_inj'. intros i Hi. rewrite Z.land_spec.
    change 256 with (2 ^ 8). rewrite Z.pow2_bits_eqb by lia.
    destruct (k =? i) eqn:E; bool_to_Prop; subst; rewrite ?andb_true_r, ?andb_false_r.
    - rewrite Z.mod_pow2_bits_low by lia. destruct (Z.testbit bits i); simpl.
      + symmetry. apply Z.pow2_bits_true. lia.
      + by rewrite Z.bits_0.
    - destruct (Z.testbit bits k); [|by rewrite Z.bits_0].
      symmetry. by apply Z.pow2_bits_false. }
  destruct (Z.testbit bits k); [|done].
  rewrite (proj2 (Z.eqb_neq _ _)); [done|]. apply Z.pow_nonzero; lia.
Qed.

Lemma is_valid_testbit bits : is_valid bits = Ok (Z.testbit bits 0).
Proof. by apply (has_bit 0). Qed.

Lemma testbit_new p f k :
  0 <= p < 2 ^ 44 -> 0 <= f < 2 ^ 10 -> 0 <= k < 10 ->
  Z.testbit (new p f) k = Z.testbit f k.
Proof.
  intros. unfold new. rewrite ushl_small, Z.lor_spec, Z.mul_pow2_bits_low by lia. done.
Qed.

End PTE.

Module PT.

Record PageTable := mkPageTable {
  root_ppn : Z;
  frames : list Z;
}.

Section page_table.

Context {F : Type} `{FrameAllocator F}.

Definition PageTable_new : ST (mm F) PageTable :=
  o ← frame_alloc;
  frame ← lift (unwrap o);
  mret (mkPageTable frame [frame]).

(** One iteration per element of [id]; the last one ([i == 2]) returns the
    place of the leaf entry. *)
Fixpoint find_pte_create_loop (id : list Z) (ppn : Z) (frames : list Z)
  : ST (mm F) (option (Z * Z) * list Z) :=
  match id with
  | [] => mret (None, frames)
  | [i] => mret (Some (ppn, i), frames)
  | i :: id' =>
      pte ← load_word ppn i;
      valid ← lift (PTE.is_valid pte);
      if valid : bool then find_pte_create_loop id' (PTE.ppn pte) frames
      else
        o ← frame_alloc;
        frame ← lift (unwrap o);
        let pte' := PTE.new frame PTE.V in
        _ ← store_word ppn i pte';
        find_pte_create_loop id' (PTE.ppn pte') (vec_push frames frame)
  end.

Definition find_pte_create (pt : PageTable) (vpn : Z)
  : ST (mm F) (option (Z * Z) * PageTable) :=
  r ← find_pte_create_loop (indexes vpn) pt.(root_ppn) pt.(frames);
  mret (r.1, mkPageTable pt.(root_ppn) r.2).

Fixpoint find_pte_loop (id : list Z) (ppn : Z) : ST (mm F) (option (Z * Z)) :=
  match id with
  | [] => mret None
  | [i] => mret (Some (ppn, i))
  | i :: id' =>
      pte ← load_word ppn i;
      valid ← lift (PTE.is_valid pte);
      if valid : bool then find_pte_loop id' (PTE.ppn pte) else mret None
  end.

(** [PageTableView::find_pte]; a view is its root. *)
Definition find_pte (root vpn : Z) : ST (mm F) (option (Z * Z)) :=
  find_pte_loop (indexes vpn) root.

Definition map (pt : PageTable) (vpn ppn permission : Z) : ST (mm F) PageTable :=
  r ← find_pte_create pt vpn;
  place ← lift (unwrap r.1);
  pte ← load_word place.1 place.2;
  valid ← lift (PTE.is_valid pte);
  _ ← lift (rassert (negb valid));
  fl ← lift (unwrap (PTE.flags_from_bits permission));
  _ ← store_word place.1 place.2 (PTE.new ppn (Z.lor fl PTE.V));
  mret r.2.

Definition unmap (pt : PageTable) (vpn : Z) : ST (mm F) unit :=
  o ← find_pte pt.(root_ppn) vpn;
  place ← lift (unwrap o);
  pte ← load_word place.1 place.2;
  valid ← lift (PTE.is_valid pte);
  _ ← lift (rassert valid);
  store_word place.1 place.2 PTE.empty.

Definition satp (root : Z) : Z := Z.lor (ushl 8 60) root.

(** [PageTableView::from_satp]. *)
Definition from_satp (s : Z) : Z := PhysPageNum_from_usize s.

Definition translate (root vpn : Z) : ST (mm F) (option Z) :=
  o ← find_pte root vpn;
  match o with
  | Some (t, i) => Some <$> load_word t i
  | None => mret None
  end.

Definition translate_va (root va : Z) : ST (mm F) (option Z) :=
  o ← find_pte root (floor va);
  match o with
  | Some (t, i) =>
      pte ← load_word t i;
      mret (Some (PhysAddr_from_usize
        (uadd (PhysAddr_from_PhysPageNum (PTE.ppn pte)) (page_offset va))))
  | None => mret None
  end.

End page_table.

(** * Reference semantics of the tables *)

Definition valid (pte : Z) : bool := Z.testbit pte 0.

(** The table reached from [t] along a path of indices. *)
Fixpoint walk (m : pmem) (t : Z) (path : list Z) : option Z :=
  match path with
  | [] => Some t
  | i :: path' =>
      let e := read_word m t i in
      if valid e then walk m (PTE.ppn e) path' else None
  end.

Definition is_index (i : Z) : Prop := 0 <= i < 512.
Definition is_path (p : list Z) : Prop := (length p <= 2)%nat /\ Forall is_index p.

Definition dir (vpn : Z) : list Z := [vpn / 2 ^ 18 mod 512; vpn / 2 ^ 9 mod 512].
Definition slot (vpn : Z) : Z := vpn mod 512.

(** The valid entry a virtual page number resolves to. *)
Definition leaf (m : pmem) (root vpn : Z) : option Z :=
  t ← walk m root (dir vpn);
  let e := read_word m t (slot vpn) in
  if valid e then Some e else None.

(** Tables that the path to [vpn] lacks. *)
Definition lacks (m : pmem) (root : Z) (p : list Z) : nat := if walk m root p then 0 else 1.
Definition dir1 (vpn : Z) : list Z := [vpn / 2 ^ 18 mod 512].
Definition missing (m : pmem) (root vpn : Z) : nat := lacks m root (dir1 vpn) + lacks m root (dir vpn).

(** The tables form a tree: each is reached by one path, and all of them are
    in [tables]. *)
Record wf (m : pmem) (root : Z) (tables : gset Z) : Prop := {
  wf_in : forall p t, walk m root p = Some t -> is_path p -> t ∈ tables;
  wf_inj : forall p q t, walk m root p = Some t -> walk m root q = Some t ->
    is_path p -> is_path q -> p = q;
}.

(** * Walking the tables *)

Section walks.

Implicit Types (m : pmem) (root : Z) (p q : list Z) (T : gset Z).

Lemma walk_app m t p q :
  walk m t (p ++ q) = t' ← walk m t p; walk m t' q.
Proof.
  revert t. induction p as [|i p IH]; intros t; [done|].
  simpl. destruct (valid _); [apply IH|done].
Qed.

(** A walk depends only on the entries it reads. *)
Lemma walk_ext m m' t p :
  (forall q i r t', p = q ++ i :: r -> walk m t q = Some t' ->
    read_word m' t' i = read_word m t' i) ->
  walk m' t p = walk m t p.
Proof.
  revert t. induction p as [|i p IH]; intros t Hr; [done|].
  simpl. rewrite (Hr [] i p t) by done.
  destruct (valid (read_word m t i)) eqn:E; [|done].
  apply IH. intros q j r t' -> Hw. apply (Hr (i :: q) j r t'); [done|].
  simpl. by rewrite E.
Qed.

Lemma is_path_app p q : is_path (p ++ q) -> is_path p.
Proof. intros [Hl Hf]. rewrite length_app in Hl. apply Forall_app in Hf as [? ?]. split; [lia|done]. Qed.

Lemma dir_path v : is_path (dir v).
Proof.
  split; [simpl; lia|]. repeat constructor; unfold is_index; apply Z.mod_pos_bound; lia.
Qed.

(** Walks do not depend on pages that are not tables. *)
Lemma wf_pages m m' root T :
  wf m root T -> (forall x : Z, x ∈ T -> get_page m' x = get_page m x) ->
  wf m' root T /\ forall v, leaf m' root v = leaf m root v.
Proof.
  intros Hwf Hp.
  assert (Hw : forall path, is_path path -> walk m' root path = walk m root path).
  { intros path Hpath. apply walk_ext. intros q i r t' -> Hq. unfold read_word. rewrite Hp; [done|].
    apply (wf_in _ _ _ Hwf) in Hq; [done|by eapply is_path_app]. }
  split.
  - destruct Hwf as [H1 H2]. split.
    + intros q t' Hq Hpq. rewrite Hw in Hq by done. by eapply H1.
    + intros q r t' Hq Hr Hpq Hpr. rewrite Hw in Hq, Hr by done. by eapply H2.
  - intros v. unfold leaf. rewrite Hw by apply dir_path. destruct (walk m root (dir v)) as [t|] eqn:E; [|done].
    simpl. unfold read_word. rewrite Hp; [done|]. apply (wf_in _ _ _ Hwf) in E; [done|apply dir_path].
Qed.

Lemma dir_slot_inj v w :
  0 <= v < 2 ^ 27 -> 0 <= w < 2 ^ 27 -> dir v = dir w -> slot v = slot w -> v = w.
Proof.
  unfold dir, slot. intros Hv Hw Hd Hs. injection Hd as H1 H2.
  rewrite (Z.mod_small (v / 2 ^ 18)) in H1 by (split; [apply Z.div_pos|apply Z.div_lt_upper_bound]; lia).
  rewrite (Z.mod_small (w / 2 ^ 18)) in H1 by (split; [apply Z.div_pos|apply Z.div_lt_upper_bound]; lia).
  replace (2 ^ 18) with (2 ^ 9 * 512) in H1 by lia. rewrite <- !Z.div_div in H1 by lia.
  assert (v / 2 ^ 9 = w / 2 ^ 9) as H3.
  { rewrite (Z.div_mod (v / 2 ^ 9) 512), (Z.div_mod (w / 2 ^ 9) 512) by lia. congruence. }
  rewrite (Z.div_mod v 512), (Z.div_mod w 512) by lia.
  change 512 with (2 ^ 9) in *. congruence.
Qed.

(** Writing a leaf entry moves no table. *)
Lemma walk_store_leaf m root T d t i e p :
  wf m root T -> is_path d -> length d = 2%nat -> walk m root d = Some t ->
  is_path p -> walk (write_word m t i e) root p = walk m root p.
Proof.
  intros Hwf Hd Hlen Hw Hp. apply walk_ext. intros q j r t' -> Hq.
  apply read_word_write_ne. left. intros <-.
  assert (q = d) as -> by (apply (wf_inj _ _ _ Hwf _ _ t); eauto using is_path_app).
  destruct Hp as [Hl _]. rewrite length_app in Hl. simpl in Hl. lia.
Qed.

Lemma wf_store_leaf m root T d t i e :
  wf m root T -> is_path d -> length d = 2%nat -> walk m root d = Some t ->
  wf (write_word m t i e) root T.
Proof.
  intros Hwf Hd Hl Hw. split.
  - intros p t' Hpt Hp. rewrite (walk_store_leaf _ _ T d) in Hpt by done.
    by eapply (wf_in _ _ _ Hwf).
  - intros p q t' Hpt Hqt Hp Hq. rewrite !(walk_store_leaf _ _ T d) in * by done.
    by eapply (wf_inj _ _ _ Hwf).
Qed.

Lemma leaf_store_leaf m root T vpn t e v :
  wf m root T -> 0 <= vpn < 2 ^ 27 -> 0 <= v < 2 ^ 27 -> 0 <= e < 2 ^ 64 ->
  walk m root (dir vpn) = Some t ->
  leaf (write_word m t (slot vpn) e) root v =
  if decide (v = vpn) then (if valid e then Some e else None) else leaf m root v.
Proof.
  intros Hwf Hvpn Hv He Hw. unfold leaf.
  rewrite (walk_store_leaf _ _ T (dir vpn)) by (done || apply dir_path).
  case_decide as Hc.
  - subst. rewrite Hw. simpl. by rewrite read_word_write_eq by done.
  - destruct (walk m root (dir v)) as [t'|] eqn:E; [|done]. simpl.
    rewrite read_word_write_ne; [done|].
    destruct (decide (t = t')) as [<-|]; [right|by left]. intros Hs. apply Hc.
    apply dir_slot_inj; [done|done| |done].
    eapply (wf_inj _ _ _ Hwf); eauto using dir_path.
Qed.

(** Hanging a fresh, cleared table under entry [i] of the table at [q]. *)
Section add_table.
Context (m : pmem) (root t i f : Z) (q : list Z) (T : gset Z).
Context (Hwf : wf m root T) (Hq : is_path (q ++ [i])) (Hw : walk m root q = Some t).
Context (Hinv : valid (read_word m t i) = false) (Hf : f ∉ T) (Hfr : 0 <= f < 2 ^ 44).

Definition with_table : pmem := write_word (zero_page m f) t i (PTE.new f PTE.V).

Lemma table_in : t ∈ T.
Proof. apply (wf_in _ _ _ Hwf q); eauto using is_path_app. Qed.

Lemma with_table_read t' j :
  t' <> f -> (t' <> t \/ j <> i) -> read_word with_table t' j = read_word m t' j.
Proof.
  intros H1 H2. unfold with_table.
  rewrite read_word_write_ne, read_word_zero_ne by (done || naive_solver). done.
Qed.

Lemma with_table_entry : read_word with_table t i = PTE.new f PTE.V.
Proof. apply read_word_write_eq, PTE.new_range; unfold PTE.V; lia. Qed.

Lemma with_table_fresh j : read_word with_table f j = 0.
Proof.
  pose proof table_in. unfold with_table.
  rewrite read_word_write_ne, read_word_zero_eq; [done|]. left. by intros ->.
Qed.

Lemma walk_with_table_other p :
  is_path p -> (forall r, p <> (q ++ [i]) ++ r) ->
  walk with_table root p = walk m root p.
Proof.
  intros Hp Hne. apply walk_ext. intros q' j r t' -> Hq'.
  assert (t' ∈ T) by (apply (wf_in _ _ _ Hwf q'); eauto using is_path_app).
  apply with_table_read; [by intros ->|].
  destruct (decide (t' = t)) as [->|]; [right; intros ->|by left].
  assert (q' = q) as -> by (apply (wf_inj _ _ _ Hwf _ _ t); eauto using is_path_app).
  apply (Hne r). by rewrite <- app_assoc.
Qed.

Lemma walk_with_table_under r :
  walk with_table root ((q ++ [i]) ++ r) = if decide (r = []) then Some f else None.
Proof.
  rewrite !walk_app, walk_with_table_other, Hw.
  - simpl. rewrite with_table_entry.
    assert (valid (PTE.new f PTE.V) = true) as ->
      by (unfold valid; rewrite PTE.testbit_new; unfold PTE.V; [done|lia..]).
    rewrite PTE.ppn_new by (unfold PTE.V; lia). simpl.
    destruct r as [|j r]; [done|]. simpl. by rewrite with_table_fresh.
  - eauto using is_path_app.
  - intros r' E. apply (f_equal length) in E. rewrite !length_app in E. simpl in E. lia.
Qed.

Lemma walk_with_table p :
  is_path p ->
  walk with_table root p = if decide (p = q ++ [i]) then Some f else walk m root p.
Proof.
  intros Hp. destruct (decide (q ++ [i] `prefix_of` p)) as [[r ->]|Hn].
  - rewrite walk_with_table_under. destruct (decide (r = [])) as [->|Hr].
    { by rewrite app_nil_r, decide_True. }
    rewrite decide_False.
    + rewrite !walk_app, Hw. simpl. by rewrite Hinv.
    + intros E. apply Hr, nil_length_inv. apply (f_equal length) in E.
      rewrite !length_app in E. lia.
  - rewrite walk_with_table_other by (done || intros r ->; apply Hn; by exists r).
    rewrite decide_False; [done|]. intros ->. by apply Hn.
Qed.

Lemma wf_with_table : wf with_table root ({[f]} ∪ T).
Proof.
  split.
  - intros p t' Hpt Hp. rewrite walk_with_table in Hpt by done.
    case_decide; [set_solver|]. apply elem_of_union_r. by eapply wf_in.
  - intros p p' t' Hpt Hpt' Hp Hp'. rewrite walk_with_table in Hpt, Hpt' by done.
    repeat case_decide; simplify_eq; try done.
    + exfalso. apply Hf. by eapply wf_in.
    + exfalso. apply Hf. by eapply wf_in.
    + by eapply wf_inj.
Qed.

Lemma leaf_with_table v : leaf with_table root v = leaf m root v.
Proof.
  unfold leaf. rewrite walk_with_table by apply dir_path. case_decide as Hd.
  - rewrite Hd, walk_app, Hw. simpl. rewrite Hinv, with_table_fresh. done.
  - destruct (walk m root (dir v)) as [t'|] eqn:E; [|done]. simpl.
    rewrite with_table_read; [done| |].
    + intros ->. apply Hf. eapply wf_in; eauto using dir_path.
    + left. intros ->.
      assert (dir v = q) as Hdq
        by (apply (wf_inj _ _ _ Hwf _ _ t); eauto using dir_path, is_path_app).
      destruct Hq as [Hl _]. rewrite <- Hdq, length_app in Hl. simpl in Hl. lia.
Qed.

Lemma page_with_table (x : Z) :
  x ∉ {[f]} ∪ T -> get_page with_table x = get_page m x.
Proof.
  pose proof table_in. intros Hx. unfold with_table, write_word, zero_page.
  rewrite !get_page_insert, !decide_False by set_solver. done.
Qed.

End add_table.

End walks.

(** * The operations refine the partial function [leaf] *)

Section operations.

Context {F : Type} `{HL : FrameAllocatorLaws F}.
Implicit Types (s : mm F) (pt : PageTable) (live : gset Z).

(** A page table in memory whose frames are handed out by the allocator. *)
Record inv s pt live : Prop := {
  inv_wf : wf s.(mem) pt.(root_ppn) (list_to_set pt.(frames));
  inv_rep : fa_rep s.(falloc) live;
  inv_sub : list_to_set pt.(frames) ⊆ live;
  inv_nodup : NoDup pt.(frames);
}.

(** [s'] has at most [n] more tables than [s], and the same translations. *)
Record grows (n : nat) s pt live s' pt' live' : Prop := {
  g_inv : inv s' pt' live';
  g_root : pt'.(root_ppn) = pt.(root_ppn);
  g_frames : pt.(frames) ⊆ pt'.(frames);
  g_live : live' = live ∪ list_to_set pt'.(frames);
  g_leaf : forall v, leaf s'.(mem) pt.(root_ppn) v = leaf s.(mem) pt.(root_ppn) v;
  g_page : forall p, p ∉ pt'.(frames) -> get_page s'.(mem) p = get_page s.(mem) p;
  g_fresh : forall p, p ∈ pt'.(frames) -> p ∈ pt.(frames) \/ p ∉ live;
  g_cap : (fa_capacity s.(falloc) <= n + fa_capacity s'.(falloc))%nat;
  g_walk : forall p t, is_path p -> walk s.(mem) pt.(root_ppn) p = Some t -> walk s'.(mem) pt.(root_ppn) p = Some t;
}.

Lemma grows_le n n' s pt live s' pt' live' : (n <= n')%nat -> grows n s pt live s' pt' live' -> grows n' s pt live s' pt' live'.
Proof. intros Hn []. split; try done. lia. Qed.

Lemma lacks_mono n s pt live s' pt' live' p :
  grows n s pt live s' pt' live' -> is_path p -> (lacks s'.(mem) pt.(root_ppn) p <= lacks s.(mem) pt.(root_ppn) p)%nat.
Proof.
  intros G Hp. unfold lacks. destruct (walk (mem s) _ p) as [t|] eqn:E; [|case_match; lia]. by rewrite (g_walk _ _ _ _ _ _ _ G p t Hp E).
Qed.

Lemma grows_refl s pt live : inv s pt live -> grows 0 s pt live s pt live.
Proof. intros Hi. split; try done; [destruct Hi; set_solver|by left]. Qed.

Lemma grows_trans n n' s pt live s1 pt1 live1 s2 pt2 live2 :
  grows n s pt live s1 pt1 live1 -> grows n' s1 pt1 live1 s2 pt2 live2 ->
  grows (n + n') s pt live s2 pt2 live2.
Proof.
  intros [] []. split; try congruence; try lia.
  - set_solver.
  - set_solver.
  - intros p Hp. rewrite g_page1 by done. apply g_page0. set_solver.
  - intros p Hp. destruct (g_fresh1 p Hp) as [Hp'|Hp']; [by apply g_fresh0|]. right. set_solver.
  - intros p t Hp Hw. rewrite <- g_root0. apply g_walk1; [done|]. rewrite g_root0. by apply g_walk0.
Qed.

Lemma create_loop_cons i j ids t fs s :
  find_pte_create_loop (i :: j :: ids) t fs s =
  if valid (read_word s.(mem) t i)
  then find_pte_create_loop (j :: ids) (PTE.ppn (read_word s.(mem) t i)) fs s
  else (o ← frame_alloc;
        f ← lift (unwrap o);
        _ ← store_word t i (PTE.new f PTE.V);
        find_pte_create_loop (j :: ids) (PTE.ppn (PTE.new f PTE.V)) (vec_push fs f)) s.
Proof.
  transitivity ((valid ← lift (Ok (valid (read_word s.(mem) t i)));
    if valid : bool
    then find_pte_create_loop (j :: ids) (PTE.ppn (read_word s.(mem) t i)) fs
    else o ← frame_alloc;
         f ← lift (unwrap o);
         _ ← store_word t i (PTE.new f PTE.V);
         find_pte_create_loop (j :: ids) (PTE.ppn (PTE.new f PTE.V)) (vec_push fs f)) s).
  - unfold valid at 1. rewrite <- PTE.is_valid_testbit. done.
  - unfold mbind at 1, st_bind at 1. simpl lift. by destruct (valid (read_word _ _ _)).
Qed.

(** One level of [find_pte_create_loop]: afterwards the table below exists. *)
Lemma create_level s pt live q i j ids t :
  inv s pt live -> (lacks s.(mem) pt.(root_ppn) (q ++ [i]) <= fa_capacity s.(falloc))%nat ->
  is_path (q ++ [i]) -> walk s.(mem) pt.(root_ppn) q = Some t ->
  exists t' s' pt' live',
    find_pte_create_loop (i :: j :: ids) t pt.(frames) s =
      find_pte_create_loop (j :: ids) t' pt'.(frames) s' /\
    grows (lacks s.(mem) pt.(root_ppn) (q ++ [i])) s pt live s' pt' live' /\
    walk s'.(mem) pt.(root_ppn) (q ++ [i]) = Some t'.
Proof.
  intros Hi Hcap Hp Hw. pose proof Hi as [Hwf Hrep Hsub Hnd].
  rewrite create_loop_cons.
  destruct (valid (read_word (mem s) t i)) eqn:Hv.
  - exists (PTE.ppn (read_word (mem s) t i)), s, pt, live. split_and!; [done| |].
    + eapply grows_le; [|by apply grows_refl]. lia.
    + rewrite walk_app, Hw. simpl. by rewrite Hv.
  - assert (Hla : lacks (mem s) (root_ppn pt) (q ++ [i]) = 1%nat) by (unfold lacks; rewrite walk_app, Hw; simpl; by rewrite Hv).
    rewrite Hla in *. destruct (frame_alloc_some s live Hrep ltac:(lia)) as (f & fa & E & Hf & Hfr & Hrep' & Hc').
    rewrite (st_bind_run _ _ _ _ _ E).
    assert (Hft : f ∉ (list_to_set (frames pt) : gset Z)) by set_solver.
    exists f, (mkMM (with_table (mem s) t i f) fa),
      (mkPageTable (root_ppn pt) (vec_push (frames pt) f)), ({[f]} ∪ live).
    assert (Hts : (list_to_set (vec_push (frames pt) f) : gset Z)
      = {[f]} ∪ list_to_set (frames pt)) by (unfold vec_push; set_solver).
    split_and!.
    + do 2 st_step. by rewrite PTE.ppn_new by (unfold PTE.V; lia).
    + split; simpl; try done.
      * split; simpl; rewrite ?Hts; [by eapply wf_with_table|done|set_solver|].
        apply NoDup_app. split_and!; [done|set_solver|apply NoDup_singleton].
      * unfold vec_push. set_solver.
      * rewrite Hts. set_solver.
      * intros v. by eapply leaf_with_table.
      * intros p Hp'. eapply page_with_table; [done..|]. unfold vec_push in Hp'. set_solver.
      * unfold vec_push. set_solver.
      * lia.
      * intros p x Hp' Hx. erewrite walk_with_table by done. case_decide as Hd; [|done]. subst p. unfold lacks in Hla. by rewrite Hx in Hla.
    + simpl. erewrite walk_with_table by done. by rewrite decide_True.
Qed.

Lemma find_pte_create_spec s pt live vpn :
  inv s pt live -> (missing s.(mem) pt.(root_ppn) vpn <= fa_capacity s.(falloc))%nat ->
  exists t s' pt' live',
    find_pte_create pt vpn s = Ok ((Some (t, slot vpn), pt'), s') /\
    grows (missing s.(mem) pt.(root_ppn) vpn) s pt live s' pt' live' /\
    walk s'.(mem) pt.(root_ppn) (dir vpn) = Some t.
Proof.
  intros Hi Hcap. unfold find_pte_create. rewrite indexes_spec. fold (slot vpn). unfold missing in *.
  pose proof (dir_path vpn) as Hd. unfold dir, dir1 in *.
  destruct (create_level s pt live [] (vpn / 2 ^ 18 mod 512) (vpn / 2 ^ 9 mod 512) [slot vpn] (root_ppn pt) Hi)
    as (t1 & s1 & pt1 & live1 & E1 & G1 & W1);
    [cbn [app]; lia|by apply (is_path_app _ [vpn / 2 ^ 9 mod 512])|done|]. cbn [app] in *.
  pose proof (lacks_mono _ _ _ _ _ _ _ _ G1 Hd) as Hla.
  rewrite <- (g_root _ _ _ _ _ _ _ G1) in W1.
  destruct (create_level s1 pt1 live1 [vpn / 2 ^ 18 mod 512] (vpn / 2 ^ 9 mod 512) (slot vpn)
    [] t1 (g_inv _ _ _ _ _ _ _ G1))
    as (t2 & s2 & pt2 & live2 & E2 & G2 & W2);
    [pose proof (g_cap _ _ _ _ _ _ _ G1); rewrite (g_root _ _ _ _ _ _ _ G1); cbn [app]; lia|done|done|]. cbn [app] in *.
  pose proof (grows_trans _ _ _ _ _ _ _ _ _ _ _ G1 G2) as G.
  exists t2, s2, pt2, live2. rewrite (g_root _ _ _ _ _ _ _ G1) in W2.
  split_and!; [|eapply grows_le; [|exact G]; rewrite (g_root _ _ _ _ _ _ _ G1); lia|done].
  erewrite st_bind_run by (rewrite E1, E2; done). simpl.
  pose proof (g_root _ _ _ _ _ _ _ G) as <-. by destruct pt2.
Qed.

Lemma missing_le m root vpn : (missing m root vpn <= 2)%nat.
Proof. unfold missing, lacks. repeat case_match; lia. Qed.

Lemma dir1_path v : is_path (dir1 v).
Proof. apply (is_path_app (dir1 v) [v / 2 ^ 9 mod 512]), dir_path. Qed.

Lemma find_loop_cons i j ids t s :
  find_pte_loop (i :: j :: ids) t s =
  if valid (read_word s.(mem) t i)
  then find_pte_loop (j :: ids) (PTE.ppn (read_word s.(mem) t i)) s
  else Ok (None, s).
Proof.
  transitivity ((valid ← lift (Ok (valid (read_word s.(mem) t i)));
    if valid : bool
    then find_pte_loop (j :: ids) (PTE.ppn (read_word s.(mem) t i))
    else mret None) s).
  - unfold valid at 1. rewrite <- PTE.is_valid_testbit. done.
  - unfold mbind at 1, st_bind at 1. simpl lift. by destruct (valid (read_word _ _ _)).
Qed.

Lemma find_pte_spec s root vpn :
  find_pte root vpn s = Ok ((fun t => (t, slot vpn)) <$> walk s.(mem) root (dir vpn), s).
Proof.
  unfold find_pte, dir. rewrite indexes_spec, !find_loop_cons. cbn [walk].
  by repeat destruct (valid _).
Qed.

Lemma walk_of_leaf m root vpn e :
  leaf m root vpn = Some e ->
  exists t, walk m root (dir vpn) = Some t /\ read_word m t (slot vpn) = e /\ valid e = true.
Proof.
  unfold leaf. destruct (walk m root (dir vpn)) as [t|]; [|done]. simpl.
  destruct (valid _) eqn:E; naive_solver.
Qed.

Lemma lor_V_range permission :
  0 <= permission < 256 -> 0 <= Z.lor permission PTE.V < 256.
Proof.
  intros Hp. assert (0 <= Z.lor permission PTE.V) by (apply Z.lor_nonneg; unfold PTE.V; lia).
  split; [done|]. change 256 with (2 ^ 8).
  destruct (decide (Z.lor permission PTE.V = 0)); [lia|].
  apply Z.log2_lt_pow2; [lia|]. rewrite Z.log2_lor by (unfold PTE.V; lia).
  apply Z.max_lub_lt; [|done].
  destruct (decide (permission = 0)) as [->|]; [done|]. apply Z.log2_lt_pow2; lia.
Qed.

(** [map] on an unmapped page adds exactly that translation, and the tables it lacks. *)
Lemma map_frugal s pt live vpn ppn permission :
  inv s pt live -> 0 <= vpn < 2 ^ 27 -> 0 <= ppn < 2 ^ 44 -> 0 <= permission < 256 ->
  leaf s.(mem) pt.(root_ppn) vpn = None -> (missing s.(mem) pt.(root_ppn) vpn <= fa_capacity s.(falloc))%nat ->
  exists pt' s',
    map pt vpn ppn permission s = Ok (pt', s') /\
    inv s' pt' (live ∪ list_to_set pt'.(frames)) /\
    pt'.(root_ppn) = pt.(root_ppn) /\ pt.(frames) ⊆ pt'.(frames) /\
    (forall v, 0 <= v < 2 ^ 27 -> leaf s'.(mem) pt.(root_ppn) v =
      if decide (v = vpn) then Some (PTE.new ppn (Z.lor permission PTE.V))
      else leaf s.(mem) pt.(root_ppn) v) /\
    (forall p, p ∉ pt'.(frames) -> get_page s'.(mem) p = get_page s.(mem) p) /\
    (forall p, p ∈ pt'.(frames) -> p ∈ pt.(frames) \/ p ∉ live) /\
    (fa_capacity s.(falloc) <= missing s.(mem) pt.(root_ppn) vpn + fa_capacity s'.(falloc))%nat /\
    (forall p t, is_path p -> walk s.(mem) pt.(root_ppn) p = Some t -> walk s'.(mem) pt.(root_ppn) p = Some t) /\
    missing s'.(mem) pt.(root_ppn) vpn = 0%nat.
Proof.
  intros Hi Hvpn Hppn Hperm Hnone Hcap.
  destruct (find_pte_create_spec s pt live vpn Hi Hcap) as (t & s1 & pt1 & live1 & E & G & W).
  pose proof (g_leaf _ _ _ _ _ _ _ G vpn) as Hl. rewrite Hnone in Hl.
  unfold leaf in Hl. rewrite W in Hl. simpl in Hl.
  destruct (valid (read_word (mem s1) t (slot vpn))) eqn:Hv; [done|].
  pose proof (lor_V_range permission Hperm) as Hpv.
  set (e := PTE.new ppn (Z.lor permission PTE.V)).
  assert (He : 0 <= e < 2 ^ 64) by (apply PTE.new_range; lia).
  assert (Hev : valid e = true).
  { unfold valid, e. rewrite PTE.testbit_new by lia. rewrite Z.lor_spec. apply orb_true_r. }
  pose proof (g_inv _ _ _ _ _ _ _ G) as [Hwf Hrep Hsub Hnd].
  pose proof (g_root _ _ _ _ _ _ _ G) as Hroot. rewrite Hroot in Hwf.
  exists pt1, (mkMM (write_word (mem s1) t (slot vpn) e) (falloc s1)).
  split.
  { unfold map. st_step_by E. do 2 st_step. rewrite PTE.is_valid_testbit.
    fold (valid (read_word (mem s1) t (slot vpn))). rewrite Hv. do 2 st_step.
    rewrite PTE.flags_from_bits_small by done. by do 2 st_step. }
  assert (Hs : forall p, is_path p -> walk (write_word (mem s1) t (slot vpn) e) (root_ppn pt) p = walk (mem s1) (root_ppn pt) p).
  { intros p Hp. apply (walk_store_leaf _ _ (list_to_set (frames pt1)) (dir vpn) t); auto using dir_path. }
  rewrite <- (g_live _ _ _ _ _ _ _ G). split_and!; try done.
  - split; simpl; rewrite ?Hroot; try done.
    apply (wf_store_leaf _ _ _ (dir vpn)); auto using dir_path.
  - apply (g_frames _ _ _ _ _ _ _ G).
  - intros v Hv'. simpl. rewrite (leaf_store_leaf _ _ (list_to_set (frames pt1))) by done.
    rewrite Hev, (g_leaf _ _ _ _ _ _ _ G). done.
  - intros p Hp. simpl. unfold write_word. rewrite get_page_insert, decide_False.
    + by apply (g_page _ _ _ _ _ _ _ G).
    + intros ->. apply Hp. apply (wf_in _ _ _ Hwf) in W; [set_solver|apply dir_path].
  - apply (g_fresh _ _ _ _ _ _ _ G).
  - apply (g_cap _ _ _ _ _ _ _ G).
  - intros p x Hp Hx. rewrite <- (g_walk _ _ _ _ _ _ _ G p x Hp Hx). by apply Hs.
  - unfold missing, lacks. cbn [mem]. rewrite !Hs, W by eauto using dir_path, dir1_path. destruct (walk (mem s1) (root_ppn pt) (dir1 vpn)) eqn:E1; [done|].
    change (dir vpn) with (dir1 vpn ++ [vpn / 2 ^ 9 mod 512]) in W. by rewrite walk_app, E1 in W.
Qed.

Lemma map_correct s pt live vpn ppn permission :
  inv s pt live -> 0 <= vpn < 2 ^ 27 -> 0 <= ppn < 2 ^ 44 -> 0 <= permission < 256 ->
  leaf s.(mem) pt.(root_ppn) vpn = None -> (2 <= fa_capacity s.(falloc))%nat ->
  exists pt' s',
    map pt vpn ppn permission s = Ok (pt', s') /\
    inv s' pt' (live ∪ list_to_set pt'.(frames)) /\
    pt'.(root_ppn) = pt.(root_ppn) /\ pt.(frames) ⊆ pt'.(frames) /\
    (forall v, 0 <= v < 2 ^ 27 -> leaf s'.(mem) pt.(root_ppn) v =
      if decide (v = vpn) then Some (PTE.new ppn (Z.lor permission PTE.V))
      else leaf s.(mem) pt.(root_ppn) v) /\
    (forall p, p ∉ pt'.(frames) -> get_page s'.(mem) p = get_page s.(mem) p) /\
    (forall p, p ∈ pt'.(frames) -> p ∈ pt.(frames) \/ p ∉ live) /\
    (fa_capacity s.(falloc) <= 2 + fa_capacity s'.(falloc))%nat.
Proof.
  intros Hi Hv Hp Hf Hl Hcap. pose proof (missing_le (mem s) (root_ppn pt) vpn) as Hm.
  destruct (map_frugal s pt live vpn ppn permission Hi Hv Hp Hf Hl ltac:(lia)) as (pt' & s' & E & Hi' & Hr & Hsub & Hle & Hpg & Hfr & Hc & _).
  exists pt', s'. split_and!; try done. lia.
Qed.

(** A page that holds no table may be written freely. *)
Lemma inv_pages s pt live s' :
  inv s pt live -> falloc s' = falloc s ->
  (forall p, p ∈ pt.(frames) -> get_page s'.(mem) p = get_page s.(mem) p) ->
  inv s' pt live /\ forall v, leaf s'.(mem) pt.(root_ppn) v = leaf s.(mem) pt.(root_ppn) v.
Proof.
  intros [Hwf Hrep Hsub Hnd] Hf Hp. destruct (wf_pages _ s'.(mem) _ _ Hwf) as [Hwf' Hl]; [set_solver|].
  split; [|done]. split; [done|by rewrite Hf|done|done].
Qed.

(** Mapping a page that is mapped already panics. *)
Lemma map_mapped s pt live vpn ppn permission e :
  inv s pt live -> (2 <= fa_capacity s.(falloc))%nat ->
  leaf s.(mem) pt.(root_ppn) vpn = Some e ->
  map pt vpn ppn permission s = Panic AssertFailed.
Proof.
  intros Hi Hcap Hsome.
  destruct (find_pte_create_spec s pt live vpn Hi ltac:(pose proof (missing_le (mem s) (root_ppn pt) vpn); lia)) as (t & s1 & pt1 & live1 & E & G & W).
  pose proof (g_leaf _ _ _ _ _ _ _ G vpn) as Hl. rewrite Hsome in Hl.
  apply walk_of_leaf in Hl as (t' & W' & Hr & Hv). rewrite W in W'. simplify_eq.
  unfold map. st_step_by E. do 2 st_step. rewrite PTE.is_valid_testbit.
  match goal with |- context [Z.testbit ?x 0] => fold (valid x) end.
  simpl snd in *. simpl fst in *. rewrite Hv. by st_step.
Qed.

Lemma unmap_correct s pt live vpn e :
  inv s pt live -> 0 <= vpn < 2 ^ 27 -> leaf s.(mem) pt.(root_ppn) vpn = Some e ->
  exists s', unmap pt vpn s = Ok (tt, s') /\ inv s' pt live /\
    (forall v, 0 <= v < 2 ^ 27 -> leaf s'.(mem) pt.(root_ppn) v =
      if decide (v = vpn) then None else leaf s.(mem) pt.(root_ppn) v) /\
    (forall p, p ∉ pt.(frames) -> get_page s'.(mem) p = get_page s.(mem) p) /\
    s'.(falloc) = s.(falloc).
Proof.
  intros [Hwf Hrep Hsub Hnd] Hvpn (t & W & Hr & Hv)%walk_of_leaf.
  exists (mkMM (write_word (mem s) t (slot vpn) 0) (falloc s)). split_and!; try done.
  - unfold unmap. st_step_by (find_pte_spec s (root_ppn pt) vpn). rewrite W. simpl.
    do 2 st_step. rewrite PTE.is_valid_testbit. simpl. subst e. unfold valid in Hv. rewrite Hv.
    by do 2 st_step.
  - split; simpl; try done. apply (wf_store_leaf _ _ _ (dir vpn)); auto using dir_path.
  - intros v Hv'. simpl. by rewrite (leaf_store_leaf _ _ (list_to_set (frames pt))) by done.
  - intros p Hp. simpl. unfold write_word. rewrite get_page_insert, decide_False; [done|].
    intros ->. apply Hp. apply (wf_in _ _ _ Hwf) in W; [set_solver|apply dir_path].
Qed.

Lemma unmap_unmapped s pt vpn :
  leaf s.(mem) pt.(root_ppn) vpn = None ->
  unmap pt vpn s = Panic UnwrapNone \/ unmap pt vpn s = Panic AssertFailed.
Proof.
  unfold leaf, unmap. intros Hl. st_step_by (find_pte_spec s (root_ppn pt) vpn).
  destruct (walk _ _ _) as [t|]; [right|by left]. simpl in *. do 2 st_step.
  rewrite PTE.is_valid_testbit. simpl.
  destruct (valid _) eqn:E; [done|]. unfold valid in E. rewrite E. done.
Qed.

Lemma translate_spec s root vpn :
  translate root vpn s =
  Ok ((fun t => read_word s.(mem) t (slot vpn)) <$> walk s.(mem) root (dir vpn), s).
Proof.
  unfold translate. st_step_by (find_pte_spec s root vpn). by destruct (walk _ _ _).
Qed.

Lemma translate_leaf s root vpn e :
  leaf s.(mem) root vpn = Some e -> translate root vpn s = Ok (Some e, s).
Proof.
  intros (t & W & Hr & _)%walk_of_leaf. rewrite translate_spec, W. simpl. by rewrite Hr.
Qed.

Lemma from_satp_satp root : 0 <= root < 2 ^ 44 -> from_satp (satp root) = root.
Proof.
  intros. unfold from_satp, satp. rewrite PhysPageNum_from_usize_mod.
  change (ushl 8 60) with (8 * 2 ^ 60).
  rewrite lor_disjoint_add by lia.
  replace (8 * 2 ^ 60 + root) with (root + 8 * 2 ^ 16 * 2 ^ 44) by lia.
  rewrite Z.mod_add by lia. by apply Z.mod_small.
Qed.

Lemma PageTable_new_correct s live :
  fa_rep s.(falloc) live -> (fa_capacity s.(falloc) <> 0)%nat ->
  exists f fa, PageTable_new s = Ok (mkPageTable f [f], mkMM (zero_page s.(mem) f) fa) /\
    inv (mkMM (zero_page s.(mem) f) fa) (mkPageTable f [f]) ({[f]} ∪ live) /\
    f ∉ live /\ 0 <= f < 2 ^ 44 /\
    (forall v, leaf (zero_page s.(mem) f) f v = None) /\
    fa_capacity s.(falloc) = S (fa_capacity fa).
Proof.
  intros Hr Hc. destruct (frame_alloc_some s live Hr Hc) as (f & fa & E & Hf & Hb & Hr' & Hc').
  assert (Hw : forall p t, walk (zero_page (mem s) f) f p = Some t -> p = [] /\ t = f).
  { intros [|i p] t; simpl; [naive_solver|]. by rewrite read_word_zero_eq. }
  exists f, fa. split_and!; try done; try lia.
  - unfold PageTable_new. st_step_by E. by st_step.
  - split; simpl; [|done|set_solver|apply NoDup_singleton]. split.
    + intros p t [_ ->]%Hw _. set_solver.
    + intros p q t [-> _]%Hw [-> _]%Hw. done.
  - intros v. unfold leaf, dir. simpl. by rewrite read_word_zero_eq.
Qed.

(** ** Sequences of operations against a finite map *)

Inductive op :=
| OpMap (vpn ppn permission : Z)
| OpUnmap (vpn : Z).

Definition op_ok (o : op) : Prop :=
  match o with
  | OpMap vpn ppn permission => 0 <= vpn < 2 ^ 27 /\ 0 <= ppn < 2 ^ 44 /\ 0 <= permission < 256
  | OpUnmap vpn => 0 <= vpn < 2 ^ 27
  end.

Fixpoint run (ops : list op) (pt : PageTable) : ST (mm F) PageTable :=
  match ops with
  | [] => mret pt
  | OpMap vpn ppn permission :: ops' => pt' ← map pt vpn ppn permission; run ops' pt'
  | OpUnmap vpn :: ops' => _ ← unmap pt vpn; run ops' pt
  end.

(** The specification: a finite map, on which mapping a bound page and
    unmapping an unbound one are errors. *)
Fixpoint spec_run (ops : list op) (A : gmap Z Z) : option (gmap Z Z) :=
  match ops with
  | [] => Some A
  | OpMap vpn ppn permission :: ops' =>
      match A !! vpn with
      | Some _ => None
      | None => spec_run ops' (<[vpn := PTE.new ppn (Z.lor permission PTE.V)]> A)
      end
  | OpUnmap vpn :: ops' =>
      match A !! vpn with
      | Some _ => spec_run ops' (delete vpn A)
      | None => None
      end
  end.

Definition abs s (root : Z) (A : gmap Z Z) : Prop :=
  forall v, 0 <= v < 2 ^ 27 -> leaf s.(mem) root v = A !! v.

Lemma run_refines ops : forall s pt live A,
  inv s pt live -> abs s pt.(root_ppn) A -> Forall op_ok ops ->
  (2 * length ops <= fa_capacity s.(falloc))%nat ->
  match spec_run ops A with
  | Some A' => exists pt' s' live', run ops pt s = Ok (pt', s') /\
      inv s' pt' live' /\ abs s' pt'.(root_ppn) A' /\ pt'.(root_ppn) = pt.(root_ppn)
  | None => exists e, run ops pt s = Panic e
  end.
Proof.
  induction ops as [|[vpn ppn perm|vpn] ops IH]; intros s pt live A Hi Ha Hok Hcap.
  - simpl. by exists pt, s, live.
  - apply Forall_cons in Hok as [(Hv & Hp & Hperm) Hok']. simpl in Hcap. cbn [spec_run run].
    destruct (A !! vpn) as [e|] eqn:EA; rewrite <- Ha in EA by done.
    { exists AssertFailed. unfold mbind, st_bind.
      by rewrite (map_mapped s pt live vpn ppn perm e) by (done || lia). }
    destruct (map_correct s pt live vpn ppn perm) as (pt1 & s1 & E & Hi1 & Hr1 & _ & Hl1 & _ & _ & Hc1);
      [done|done|done|done|done|lia|].
    erewrite st_bind_run by exact E. rewrite <- Hr1. eapply IH; [done| |done|lia].
    intros v Hv'. rewrite Hr1, Hl1, Ha, lookup_insert by done. repeat case_decide; congruence.
  - apply Forall_cons in Hok as [Hv Hok']. simpl in Hcap, Hv. cbn [spec_run run].
    destruct (A !! vpn) as [e|] eqn:EA; rewrite <- Ha in EA by done.
    2: { unfold mbind, st_bind. destruct (unmap_unmapped s pt vpn EA) as [-> | ->]; eauto. }
    destruct (unmap_correct s pt live vpn e) as (s1 & E & Hi1 & Hl1 & _ & Hf1); [done..|].
    erewrite st_bind_run by exact E. eapply IH; [done| |done|rewrite Hf1; lia].
    intros v Hv'. rewrite Hl1, Ha, lookup_delete by done. repeat case_decide; congruence.
Qed.

(** * Properties *)

(** C1: any sequence of [map] and [unmap] calls on a page table behaves like the
    same sequence on a finite map from virtual page numbers to entries: it
    succeeds exactly when every page is unmapped before it is mapped and mapped
    before it is unmapped, and afterwards [translate] returns for each bound page
    its entry.  Two free frames per call are enough. *)
Theorem page_table_refines_map ops s pt live :
  inv s pt live -> abs s pt.(root_ppn) ∅ -> Forall op_ok ops ->
  (2 * length ops <= fa_capacity s.(falloc))%nat ->
  match spec_run ops ∅ with
  | Some A => exists pt' s' live', run ops pt s = Ok (pt', s') /\ inv s' pt' live' /\
      forall v, 0 <= v < 2 ^ 27 ->
        leaf s'.(mem) pt.(root_ppn) v = A !! v /\
        (forall e, A !! v = Some e -> translate pt'.(root_ppn) v s' = Ok (Some e, s'))
  | None => exists e, run ops pt s = Panic e
  end.
Proof.
  intros Hi Ha Hok Hc. pose proof (run_refines ops s pt live ∅ Hi Ha Hok Hc) as Hrun.
  destruct (spec_run ops ∅) as [A|]; [|done].
  destruct Hrun as (pt' & s' & live' & E & Hi' & Ha' & Hr). exists pt', s', live'.
  split_and!; [done|done|]. intros v Hv. rewrite <- Hr. split; [by apply Ha'|].
  intros e He. apply translate_leaf. by rewrite Ha'.
Qed.

(** [map] on an unmapped page succeeds, gives the page an entry with the
    requested frame and the permission bits plus V, keeps the page table
    well formed, and changes no other translation and no page outside the tables;
    [unmap] of the same page then restores every translation. *)
Theorem map_unmap_roundtrip s pt live vpn ppn permission :
  inv s pt live -> 0 <= vpn < 2 ^ 27 -> 0 <= ppn < 2 ^ 44 -> 0 <= permission < 256 ->
  leaf s.(mem) pt.(root_ppn) vpn = None -> (2 <= fa_capacity s.(falloc))%nat ->
  exists pt' s1 s2 e,
    map pt vpn ppn permission s = Ok (pt', s1) /\
    translate pt'.(root_ppn) vpn s1 = Ok (Some e, s1) /\
    PTE.ppn e = ppn /\ PTE.flags e = Ok (Z.lor permission PTE.V) /\
    (forall v, 0 <= v < 2 ^ 27 -> v <> vpn ->
      leaf s1.(mem) pt.(root_ppn) v = leaf s.(mem) pt.(root_ppn) v) /\
    (forall p, p ∉ pt'.(frames) -> get_page s1.(mem) p = get_page s.(mem) p) /\
    unmap pt' vpn s1 = Ok (tt, s2) /\
    inv s2 pt' (live ∪ list_to_set pt'.(frames)) /\
    (forall v, 0 <= v < 2 ^ 27 ->
      leaf s2.(mem) pt.(root_ppn) v = leaf s.(mem) pt.(root_ppn) v).
Proof.
  intros Hi Hv Hp Hperm Hn Hc.
  destruct (map_correct s pt live vpn ppn permission) as
    (pt' & s1 & E & Hi1 & Hr & Hf & Hl & Hpg & _); [done..|].
  pose proof (Hl vpn Hv) as He. rewrite decide_True in He by done.
  pose proof He as He'. rewrite <- Hr in He'.
  destruct (unmap_correct s1 pt' _ vpn _ Hi1 Hv He') as (s2 & E2 & Hi2 & Hl2 & _ & _).
  assert (Hpv : 0 <= Z.lor permission PTE.V < 256) by (apply lor_V_range; done).
  exists pt', s1, s2, (PTE.new ppn (Z.lor permission PTE.V)). split_and!; try done.
  - by apply translate_leaf.
  - apply PTE.ppn_new; lia.
  - apply PTE.flags_new; lia.
  - intros v Hv' Hne. by rewrite Hl, decide_False.
  - intros v Hv'. rewrite Hr in Hl2. rewrite Hl2, Hl by done. case_decide; congruence.
Qed.

End operations.

(** A page table just created from frames 16..63, for the witnesses. *)
Definition demo_start : mm Frame.StackFrameAllocator :=
  mkMM ∅ (Frame.init 16 64 Frame.new).

Lemma demo_table :
  exists pt s live, PageTable_new demo_start = Ok (pt, s) /\
    inv (HL := Frame.stack_frame_allocator_laws 16) s pt live /\
    root_ppn pt = 16 /\ fa_capacity (FrameAllocatorLaws := Frame.stack_frame_allocator_laws 16) (falloc s) = 47%nat /\
    (forall v, leaf (mem s) 16 v = None).
Proof.
  destruct (PageTable_new_correct (HL := Frame.stack_frame_allocator_laws 16) demo_start ∅)
    as (f & fa & E & Hi & _ & _ & Hl & Hc).
  - by apply Frame.init_rep.
  - by vm_compute.
  - pose proof E as E'. vm_compute in E'. injection E' as Hf Hm Hfa. subst f fa.
    do 3 eexists. split_and!; [exact E|exact Hi|done|by vm_compute|exact Hl].
Qed.

Lemma page_table_refines_map_witness :
  exists pt s pt' s', PageTable_new demo_start = Ok (pt, s) /\
    run [OpMap 5 20 PTE.R; OpMap 6 21 PTE.W; OpUnmap 5] pt s = Ok (pt', s') /\
    leaf s'.(mem) pt.(root_ppn) 6 = Some (PTE.new 21 (Z.lor PTE.W PTE.V)).
Proof.
  destruct demo_table as (pt & s & live & E & Hi & Hr & Hc & Hl).
  destruct (page_table_refines_map (HL := Frame.stack_frame_allocator_laws 16)
    [OpMap 5 20 PTE.R; OpMap 6 21 PTE.W; OpUnmap 5] s pt live)
    as (pt' & s' & live' & E' & _ & Ha).
  - exact Hi.
  - intros v _. rewrite Hr. apply Hl.
  - repeat constructor; (by vm_compute).
  - rewrite Hc. simpl. lia.
  - exists pt, s, pt', s'. split_and!; [exact E|exact E'|].
    destruct (Ha 6) as [-> _]; [lia|]. by vm_compute.
Defined.

Lemma map_unmap_roundtrip_witness :
  exists pt s pt' s1, PageTable_new demo_start = Ok (pt, s) /\
    map pt 5 20 PTE.R s = Ok (pt', s1) /\
    translate pt'.(root_ppn) 5 s1 = Ok (Some (PTE.new 20 3), s1).
Proof.
  destruct demo_table as (pt & s & live & E & Hi & Hr & Hc & Hl).
  destruct (map_unmap_roundtrip (HL := Frame.stack_frame_allocator_laws 16)
    s pt live 5 20 PTE.R) as (pt' & s1 & s2 & e & E1 & Et & Hp & Hf & _).
  - exact Hi.
  - lia.
  - lia.
  - by vm_compute.
  - rewrite Hr. apply Hl.
  - rewrite Hc. lia.
  - exists pt, s, pt', s1. split_and!; [exact E|exact E1|].
    vm_compute in E. injection E as <- <-. vm_compute in E1. injection E1 as <- <-.
    by vm_compute.
Defined.

End PT.
