(* ===== verification/UserBuffer.v ===== *)
(** How the kernel reaches user memory: [translated_byte_buffer],
    [translated_str], [translated_ref], [translated_refmut] and [UserBuffer]
    of os/src/mm/page_table.rs.

    A slice of physical memory ([&'static mut [u8]]) is a page number with the
    bounds of the slice in that page; a raw pointer to a byte of it is the pair
    of its page number and its offset. *)

From S2P Require Import Prelude Address Alloc Memory PageTable.

Record slice := mkSlice {
  sl_ppn : Z;
  sl_from : Z;
  sl_to : Z;
}.

Definition sl_len (s : slice) : Z := s.(sl_to) - s.(sl_from).

(** [&mut ppn.get_bytes_array()[from..to]] *)
Definition slice_page (ppn from to : Z) : res slice :=
  if (from <=? to) && (to <=? PAGE_SIZE) then Ok (mkSlice ppn from to)
  else Panic IndexOutOfRange.

Section translated.

Context {F : Type} `{FrameAllocator F}.

Fixpoint translated_byte_buffer_loop (fuel : nat) (root start end_ : Z) (v : list slice)
  : ST (mm F) (list slice) :=
  match fuel with
  | O => panic OutOfFuel
  | S fuel' =>
      if start <? end_ then
        let start_va := VirtAddr_from_usize start in
        let vpn := floor start_va in
        o ← PT.translate root vpn;
        pte ← lift (unwrap o);
        let ppn := PTE.ppn pte in
        let vpn := step vpn in
        let end_va := Z.min (VirtAddr_from_VirtPageNum vpn) (VirtAddr_from_usize end_) in
        sl ← lift (if page_offset end_va =? 0
                   then slice_page ppn (page_offset start_va) PAGE_SIZE
                   else slice_page ppn (page_offset start_va) (page_offset end_va));
        translated_byte_buffer_loop fuel' root (usize_from_VirtAddr end_va) end_ (vec_push v sl)
      else mret v
  end.

(** One iteration per page the range touches, and the final test. *)
Definition byte_buffer_fuel (len : Z) : nat := Z.to_nat (len / PAGE_SIZE + 3).

Definition translated_byte_buffer (satp ptr len : Z) : ST (mm F) (list slice) :=
  let root := PT.from_satp satp in
  translated_byte_buffer_loop (byte_buffer_fuel len) root ptr (uadd ptr len) [].

(** [PhysAddr::get_mut::<u8>()] dereferenced; a null pointer panics. *)
Definition load_byte (pa : Z) : ST (mm F) Z := fun s =>
  if pa =? 0 then Panic UnwrapNone
  else Ok (byte_at (get_page s.(mem) (pa / PAGE_SIZE)) (pa mod PAGE_SIZE), s).

Fixpoint translated_str_loop (fuel : nat) (root va : Z) (string : list Z)
  : ST (mm F) (list Z) :=
  match fuel with
  | O => panic OutOfFuel
  | S fuel' =>
      o ← PT.translate_va root (VirtAddr_from_usize va);
      pa ← lift (unwrap o);
      ch ← load_byte pa;
      if ch =? 0 then mret string
      else translated_str_loop fuel' root (uadd va 1) (vec_push string ch)
  end.

(** The loop ends at the first 0 byte; [fuel] bounds the string's length. *)
Definition translated_str (fuel : nat) (satp ptr : Z) : ST (mm F) (list Z) :=
  translated_str_loop fuel (PT.from_satp satp) ptr [].

(** [translated_ref] and [translated_refmut]: the physical address. *)
Definition translated_ref (satp ptr : Z) : ST (mm F) Z :=
  o ← PT.translate_va (PT.from_satp satp) (VirtAddr_from_usize ptr);
  pa ← lift (unwrap o);
  if pa =? 0 then panic UnwrapNone else mret pa.

Definition translated_refmut (satp ptr : Z) : ST (mm F) Z := translated_ref satp ptr.

End translated.

(** * UserBuffer *)

Record UserBuffer := mkUserBuffer { buffers : list slice }.

Definition UserBuffer_len (b : UserBuffer) : Z :=
  foldl (fun length s => uadd length (sl_len s)) 0 b.(buffers).

Record UserBufferIterator := mkUserBufferIterator {
  it_buffers : list slice;
  buffer_id : Z;
  offset : Z;
}.

Definition UserBuffer_into_iter (b : UserBuffer) : UserBufferIterator :=
  mkUserBufferIterator b.(buffers) 0 0.

Definition UserBufferIterator_next (it : UserBufferIterator)
  : res (option (Z * Z) * UserBufferIterator) :=
  if Z.of_nat (length it.(it_buffers)) <=? it.(buffer_id) then Ok (None, it)
  else
    b ← index it.(it_buffers) it.(buffer_id);
    if sl_len b <=? it.(offset) then Panic IndexOutOfRange
    else
      let cur := (b.(sl_ppn), b.(sl_from) + it.(offset)) in
      if uadd it.(offset) 1 =? sl_len b
      then Ok (Some cur, mkUserBufferIterator it.(it_buffers) (uadd it.(buffer_id) 1) 0)
      else Ok (Some cur, mkUserBufferIterator it.(it_buffers) it.(buffer_id) (uadd it.(offset) 1)).

(** The pointers a loop over the iterator sees, at most [fuel] of them. *)
Fixpoint iter_all (fuel : nat) (it : UserBufferIterator) : res (list (Z * Z)) :=
  match fuel with
  | O => Panic OutOfFuel
  | S fuel' =>
      r ← UserBufferIterator_next it;
      match r with
      | (None, _) => Ok []
      | (Some p, it') => cons p <$> iter_all fuel' it'
      end
  end.

(** * Reference semantics *)

Definition slice_ptrs (s : slice) : list (Z * Z) :=
  pair s.(sl_ppn) <$> seqZ s.(sl_from) (sl_len s).

Definition buffer_ptrs (l : list slice) : list (Z * Z) := l ≫= slice_ptrs.

(** The physical byte a mapped virtual address designates. *)
Definition phys (m : pmem) (root va : Z) : option (Z * Z) :=
  (fun e => (PTE.ppn e, va mod PAGE_SIZE)) <$> PT.leaf m root (va / PAGE_SIZE).

Definition slice_ok (s : slice) : Prop := 0 <= s.(sl_from) < s.(sl_to) /\ s.(sl_to) <= PAGE_SIZE.

(** * Lemmas *)

Section lemmas.

Context {F : Type} `{FrameAllocator F}.
Implicit Types (s : mm F).

Lemma buffer_ptrs_app l1 l2 : buffer_ptrs (l1 ++ l2) = buffer_ptrs l1 ++ buffer_ptrs l2.
Proof. unfold buffer_ptrs. apply bind_app. Qed.

(** Bytes of one page, listed by virtual address. *)
Lemma phys_page m root e start n :
  0 <= n -> start mod PAGE_SIZE + n <= PAGE_SIZE -> 0 <= start ->
  PT.leaf m root (start / PAGE_SIZE) = Some e ->
  phys m root <$> seqZ start n = Some <$> slice_ptrs
    (mkSlice (PTE.ppn e) (start mod PAGE_SIZE) (start mod PAGE_SIZE + n)).
Proof.
  intros Hn Hle H0 Hl. unfold slice_ptrs, sl_len. cbn [sl_ppn sl_from sl_to].
  replace (start mod PAGE_SIZE + n - start mod PAGE_SIZE) with n by lia.
  rewrite <- list_fmap_compose. apply list_eq. intros k.
  rewrite !list_lookup_fmap.
  destruct (decide (Z.of_nat k < n)).
  - rewrite !lookup_seqZ_lt by done. simpl. f_equal. unfold phys.
    unfold PAGE_SIZE in *.
    pose proof (Z.div_mod start 4096 ltac:(lia)) as Hd.
    pose proof (Z.mod_pos_bound start 4096 ltac:(lia)) as Hb.
    assert ((start + Z.of_nat k) / 4096 = start / 4096) as ->
      by (symmetry; apply Z.div_unique with (start mod 4096 + Z.of_nat k); lia).
    assert ((start + Z.of_nat k) mod 4096 = start mod 4096 + Z.of_nat k) as ->
      by (symmetry; apply Z.mod_unique with (start / 4096); lia).
    rewrite Hl. done.
  - rewrite !lookup_seqZ_ge by lia. done.
Qed.

Lemma page_end_cases start end_ :
  0 <= start < end_ -> end_ <= 2 ^ 38 ->
  let e := Z.min (VirtAddr_from_VirtPageNum (step (floor (VirtAddr_from_usize start))))
             (VirtAddr_from_usize end_) in
  start < e <= end_ /\ e <= 2 ^ 38 /\
  start mod PAGE_SIZE + (e - start) <= PAGE_SIZE /\
  (if page_offset e =? 0 then PAGE_SIZE else page_offset e) = start mod PAGE_SIZE + (e - start) /\
  (e = end_ \/ e / PAGE_SIZE = start / PAGE_SIZE + 1).
Proof.
  intros Hs He e.
  assert (e = Z.min ((start / 4096 + 1) * 4096) end_) as ->.
  { subst e. rewrite !VirtAddr_from_usize_mod, (Z.mod_small start), (Z.mod_small end_) by lia.
    rewrite floor_div.
    assert (0 <= start / 4096 < 2 ^ 26) by (split; [apply Z.div_pos|apply Z.div_lt_upper_bound]; lia).
    rewrite step_small, VirtAddr_from_VirtPageNum_mul by lia. done. }
  rewrite page_offset_mod. unfold PAGE_SIZE.
  destruct (_ =? 0) eqn:E; bool_to_Prop; Z.to_euclidean_division_equations; lia.
Qed.

Lemma byte_buffer_loop s root start end_ v fuel :
  0 <= start -> end_ <= 2 ^ 38 ->
  (forall va, start <= va < end_ -> is_Some (phys s.(mem) root va)) ->
  (0 < fuel)%nat ->
  (start < end_ -> (end_ + 4095) / 4096 - start / 4096 < Z.of_nat fuel) ->
  exists l, translated_byte_buffer_loop fuel root start end_ v s = Ok (v ++ l, s) /\
    phys s.(mem) root <$> seqZ start (end_ - start) = Some <$> buffer_ptrs l /\
    Forall slice_ok l.
Proof.
  revert start v. induction fuel as [|fuel IH]; intros start v H0 He Hm Hf Hfuel; [lia|].
  cbn [translated_byte_buffer_loop]. destruct (start <? end_) eqn:Elt; bool_to_Prop.
  2: { exists []. rewrite seqZ_nil by lia. rewrite app_nil_r. done. }
  destruct (page_end_cases start end_) as (H1 & H2 & H3 & H4 & H5); [lia|lia|].
  cbv zeta in *. set (e := Z.min _ _) in *. destruct (Hm start) as [[p o] Hp]; [lia|].
  unfold phys in Hp. destruct (PT.leaf (mem s) root (start / PAGE_SIZE)) as [pte|] eqn:El; [|done].
  clear Hp p o.
  assert (Hva : VirtAddr_from_usize start = start)
    by (rewrite VirtAddr_from_usize_mod; apply Z.mod_small; lia).
  rewrite Hva, floor_div. st_step_by (PT.translate_leaf s root _ _ El). st_step.
  set (sl := mkSlice (PTE.ppn pte) (start mod PAGE_SIZE) (start mod PAGE_SIZE + (e - start))).
  assert (Hsl : slice_ok sl).
  { unfold sl, slice_ok. simpl. pose proof (Z.mod_pos_bound start PAGE_SIZE). unfold PAGE_SIZE in *. lia. }
  assert (Esl : (if page_offset e =? 0 then slice_page (PTE.ppn pte) (page_offset start) PAGE_SIZE
    else slice_page (PTE.ppn pte) (page_offset start) (page_offset e)) = Ok sl).
  { rewrite (page_offset_mod start). fold PAGE_SIZE. unfold sl, slice_page, slice_ok in *. simpl in Hsl.
    destruct (page_offset e =? 0); rewrite <- H4 in *;
      rewrite !(proj2 (Z.leb_le _ _)) by lia; done. }
  rewrite Esl. st_step.
  assert (Hnext : usize_from_VirtAddr e = if decide (e < 2 ^ 38) then e else e + (2 ^ 64 - 2 ^ 39))
    by (apply usize_from_VirtAddr_spec; lia).
  destruct (IH (usize_from_VirtAddr e) (vec_push v sl)) as (l & El' & Hl & Hok).
  - rewrite Hnext. case_decide; lia.
  - lia.
  - intros va Hva'. apply Hm. rewrite Hnext in Hva'. case_decide; lia.
  - specialize (Hfuel Elt). revert Hfuel. Z.to_euclidean_division_equations; lia.
  - rewrite Hnext. case_decide; [|lia]. intros Hlt. specialize (Hfuel Elt).
    unfold PAGE_SIZE in H5. lia.
  - exists (sl :: l). split_and!.
    + rewrite El'. unfold vec_push. by rewrite <- app_assoc.
    + replace (end_ - start) with ((e - start) + (end_ - e)) by lia.
      rewrite seqZ_app, fmap_app by lia.
      rewrite (phys_page _ _ pte) by (done || lia). fold sl.
      change (sl :: l) with ([sl] ++ l). rewrite buffer_ptrs_app, fmap_app.
      unfold buffer_ptrs at 1. simpl. rewrite app_nil_r. f_equal.
      replace (start + (e - start)) with e by lia. rewrite <- Hl, Hnext.
      case_decide; [done|]. rewrite !seqZ_nil by lia. done.
    + by constructor.
Qed.

Lemma translated_byte_buffer_run s satp ptr len :
  0 <= ptr -> 0 <= len -> ptr + len <= 2 ^ 38 ->
  (forall va, ptr <= va < ptr + len -> is_Some (phys s.(mem) (PT.from_satp satp) va)) ->
  exists l, translated_byte_buffer satp ptr len s = Ok (l, s) /\
    phys s.(mem) (PT.from_satp satp) <$> seqZ ptr len = Some <$> buffer_ptrs l /\ Forall slice_ok l.
Proof.
  intros Hp Hl He Hm. set (root := PT.from_satp satp) in *.
  assert (Hend : uadd ptr len = ptr + len) by (apply uadd_small; lia).
  destruct (byte_buffer_loop s root ptr (ptr + len) [] (byte_buffer_fuel len))
    as (l & E & Hptrs & Hok); [done|done|done| |intros _|];
    [unfold byte_buffer_fuel, PAGE_SIZE; Z.to_euclidean_division_equations; lia..|].
  replace (ptr + len - ptr) with len in Hptrs by lia.
  exists l. split_and!; [|done|done]. unfold translated_byte_buffer. fold root. by rewrite Hend, E.
Qed.

(** What the iterator has still to yield. *)
Definition remaining (it : UserBufferIterator) : list (Z * Z) :=
  match drop (Z.to_nat it.(buffer_id)) it.(it_buffers) with
  | [] => []
  | b :: bs => drop (Z.to_nat it.(offset)) (slice_ptrs b) ++ buffer_ptrs bs
  end.

Record iter_wf (it : UserBufferIterator) : Prop := {
  iw_ok : Forall slice_ok it.(it_buffers);
  iw_short : Z.of_nat (length it.(it_buffers)) < 2 ^ 64;
  iw_id : 0 <= it.(buffer_id);
  iw_off : 0 <= it.(offset);
  iw_cur : forall b, it.(it_buffers) !! Z.to_nat it.(buffer_id) = Some b -> it.(offset) < sl_len b;
}.

Lemma length_slice_ptrs b : length (slice_ptrs b) = Z.to_nat (sl_len b).
Proof. unfold slice_ptrs. by rewrite length_fmap, length_seqZ. Qed.

Lemma next_spec it :
  iter_wf it ->
  exists o it', UserBufferIterator_next it = Ok (o, it') /\ iter_wf it' /\
    match o with
    | None => remaining it = []
    | Some p => remaining it = p :: remaining it'
    end.
Proof.
  intros [Hok Hsh Hid Hoff Hcur]. unfold UserBufferIterator_next, remaining.
  destruct (_ <=? _) eqn:E; bool_to_Prop.
  { exists None, it. split_and!; [done|by split|]. by rewrite drop_ge by lia. }
  destruct (lookup_lt_is_Some_2 (it_buffers it) (Z.to_nat (buffer_id it))) as [b Hb]; [lia|].
  rewrite (proj2 (index_Ok _ _ b)) by done. simpl.
  specialize (Hcur b Hb). rewrite (proj2 (Z.leb_gt _ _)) by done.
  assert (Hbok : slice_ok b) by (by eapply Forall_lookup_1).
  assert (Hlen : 0 < sl_len b <= 4096) by (unfold sl_len, slice_ok, PAGE_SIZE in *; lia).
  rewrite (drop_S _ b) by done.
  assert (Hp : slice_ptrs b !! Z.to_nat (offset it) = Some (sl_ppn b, sl_from b + offset it)).
  { unfold slice_ptrs. rewrite list_lookup_fmap, lookup_seqZ_lt by lia. simpl. do 2 f_equal. lia. }
  rewrite (drop_S _ _ _ Hp). simpl. rewrite uadd_small by lia.
  destruct (_ =? _) eqn:E2; bool_to_Prop.
  - eexists _, _. split_and!; [done| |].
    + rewrite uadd_small by lia. split; simpl; try done; try lia.
      intros b' Hb'. assert (slice_ok b') as Hb2 by (by eapply Forall_lookup_1).
      unfold sl_len, slice_ok in *. lia.
    + f_equal. simpl. rewrite (drop_ge (slice_ptrs b)) by (rewrite length_slice_ptrs; lia).
      rewrite uadd_small, Z2Nat.inj_add, Nat.add_1_r by lia.
      destruct (drop _ _); done.
  - eexists _, _. split_and!; [done| |].
    + split; simpl; try done; try lia. intros b' Hb'. simplify_eq. lia.
    + simpl. rewrite (drop_S (it_buffers it) b (Z.to_nat (buffer_id it))) by done. rewrite Z2Nat.inj_add, Nat.add_1_r by lia. done.
Qed.

Lemma iter_all_spec fuel it :
  iter_wf it -> (length (remaining it) < fuel)%nat -> iter_all fuel it = Ok (remaining it).
Proof.
  revert it. induction fuel as [|fuel IH]; intros it Hw Hf; [lia|].
  destruct (next_spec it Hw) as (o & it' & E & Hw' & Ho). simpl. rewrite E. simpl.
  destruct o as [p|]; rewrite Ho in *; [|done]. simpl in Hf.
  rewrite IH by (done || lia). done.
Qed.

Lemma iter_wf_new l :
  Forall slice_ok l -> Z.of_nat (length l) < 2 ^ 64 -> iter_wf (UserBuffer_into_iter (mkUserBuffer l)).
Proof.
  intros Hok Hl. split; simpl; try done. intros b Hb.
  assert (slice_ok b) by (by eapply Forall_lookup_1). unfold sl_len, slice_ok in *. lia.
Qed.

Lemma remaining_new l : remaining (UserBuffer_into_iter (mkUserBuffer l)) = buffer_ptrs l.
Proof. unfold remaining. simpl. by destruct l. Qed.

Lemma UserBuffer_len_spec l :
  Forall slice_ok l -> Z.of_nat (length (buffer_ptrs l)) < 2 ^ 64 ->
  UserBuffer_len (mkUserBuffer l) = Z.of_nat (length (buffer_ptrs l)).
Proof.
  unfold UserBuffer_len. simpl. intros Hok.
  enough (forall a, 0 <= a -> a + Z.of_nat (length (buffer_ptrs l)) < 2 ^ 64 ->
    foldl (fun n b => uadd n (sl_len b)) a l = a + Z.of_nat (length (buffer_ptrs l)))
    as Hgen by (intros; by rewrite Hgen by lia).
  induction Hok as [|b l Hb Hok IH]; intros a Ha Hl; simpl; [lia|].
  change (buffer_ptrs (b :: l)) with (slice_ptrs b ++ buffer_ptrs l) in *.
  rewrite length_app, length_slice_ptrs in *. unfold slice_ok, sl_len in *.
  rewrite uadd_small by lia. rewrite IH by lia. lia.
Qed.

(** One step of [translated_str]: the byte behind a mapped address. *)
Lemma translate_va_phys s root va p o :
  0 <= va < 2 ^ 39 -> 0 <= p < 2 ^ 44 ->
  phys s.(mem) root va = Some (p, o) ->
  PT.translate_va root va s = Ok (Some (p * 4096 + o), s) /\ 0 <= o < 4096.
Proof.
  intros Hva Hp Hph. unfold phys in Hph.
  destruct (PT.leaf (mem s) root (va / PAGE_SIZE)) as [e|] eqn:El; simplify_eq/=.
  pose proof (Z.mod_pos_bound va PAGE_SIZE ltac:(done)) as Ho.
  apply PT.walk_of_leaf in El as (t & W & Hr & _). split; [|unfold PAGE_SIZE in *; lia].
  unfold PT.translate_va. rewrite floor_div. st_step_by (PT.find_pte_spec s root (va / 4096)).
  change PAGE_SIZE with 4096 in *. rewrite W. simpl. st_step. rewrite Hr.
  rewrite PhysAddr_from_PhysPageNum_mul, page_offset_mod by lia.
  rewrite uadd_small, PhysAddr_from_usize_mod, Z.mod_small by lia. done.
Qed.

Lemma load_byte_phys s p o :
  0 < p -> 0 <= o < 4096 ->
  load_byte (p * 4096 + o) s = Ok (byte_at (get_page s.(mem) p) o, s).
Proof.
  intros Hp Ho. unfold load_byte. rewrite (proj2 (Z.eqb_neq _ _)) by lia.
  unfold PAGE_SIZE. rewrite Z.div_add_l, (Z.div_small o), Z.add_0_r by lia.
  rewrite Z.add_comm, Z.mod_add, Z.mod_small by lia. done.
Qed.

(** The byte at a mapped user address. *)
Definition user_byte (m : pmem) (root va : Z) : option Z :=
  (fun '(p, o) => byte_at (get_page m p) o) <$> phys m root va.

Definition ppn_nonzero (m : pmem) (root va : Z) : Prop :=
  forall p o, phys m root va = Some (p, o) -> 0 < p < 2 ^ 44.

Lemma str_loop s root va str acc fuel :
  0 <= va -> va + Z.of_nat (length str) < 2 ^ 38 ->
  (forall a, va <= a <= va + Z.of_nat (length str) -> ppn_nonzero s.(mem) root a) ->
  user_byte s.(mem) root <$> seqZ va (Z.of_nat (length str)) = Some <$> str ->
  Forall (fun c => c <> 0) str ->
  user_byte s.(mem) root (va + Z.of_nat (length str)) = Some 0 ->
  (length str < fuel)%nat ->
  translated_str_loop fuel root va acc s = Ok (acc ++ str, s).
Proof.
  revert va acc fuel. induction str as [|c str IH]; intros va acc fuel H0 Hb Hp Hs Hnz He Hf.
  all: destruct fuel as [|fuel]; [simpl in Hf; lia|]; cbn [translated_str_loop].
  all: rewrite VirtAddr_from_usize_mod, Z.mod_small by (simpl in *; lia).
  - rewrite Z.add_0_r in He. unfold user_byte in He.
    destruct (phys (mem s) root va) as [[p o]|] eqn:E; simplify_eq/=.
    pose proof (Hp va ltac:(lia) p o E) as Hpp.
    destruct (translate_va_phys s root va p o) as [Et Ho]; [lia|lia|done|].
    st_step_by Et. st_step. st_step_by (load_byte_phys s p o ltac:(lia) Ho).
    rewrite He. by rewrite app_nil_r.
  - inversion_clear Hnz as [|? ? Hc Hnz']. simpl length in *.
    rewrite seqZ_cons in Hs by lia. simpl in Hs. injection Hs as Hc' Hs'.
    unfold user_byte in Hc'. destruct (phys (mem s) root va) as [[p o]|] eqn:E; simplify_eq/=.
    pose proof (Hp va ltac:(lia) p o E) as Hpp.
    destruct (translate_va_phys s root va p o) as [Et Ho]; [lia|lia|done|].
    st_step_by Et. st_step. st_step_by (load_byte_phys s p o ltac:(lia) Ho).
    rewrite (proj2 (Z.eqb_neq _ _)) by done. rewrite uadd_small by lia.
    rewrite IH; try done; try lia.
    + unfold vec_push. by rewrite <- app_assoc.
    + intros a Ha. apply Hp. lia.
    + etrans; [|exact Hs']. f_equal. f_equal; lia.
    + rewrite <- He. f_equal. lia.
Qed.

End lemmas.

(** * Properties *)

Section properties.

Context {F : Type} `{FrameAllocator F}.

(** When every page of the user range [ptr, ptr + len) is mapped and the
    range ends in the lower half of the address space, [translated_byte_buffer]
    returns, and iterating over the [UserBuffer] it makes yields exactly the
    physical bytes of the range's addresses, in order; its length is [len]. *)
Theorem user_buffer_covers_range (s : mm F) satp ptr len :
  0 <= ptr -> 0 <= len -> ptr + len <= 2 ^ 38 ->
  (forall va, ptr <= va < ptr + len -> is_Some (phys s.(mem) (PT.from_satp satp) va)) ->
  exists l ptrs,
    translated_byte_buffer satp ptr len s = Ok (l, s) /\
    phys s.(mem) (PT.from_satp satp) <$> seqZ ptr len = Some <$> ptrs /\
    UserBuffer_len (mkUserBuffer l) = len /\
    iter_all (S (Z.to_nat len)) (UserBuffer_into_iter (mkUserBuffer l)) = Ok ptrs.
Proof.
  intros Hp Hl He Hm. destruct (translated_byte_buffer_run s satp ptr len Hp Hl He Hm) as (l & E & Hptrs & Hok).
  assert (Hlen : length (buffer_ptrs l) = Z.to_nat len).
  { apply (f_equal length) in Hptrs. by rewrite !length_fmap, length_seqZ in Hptrs. }
  assert (Hshort : Z.of_nat (length l) <= Z.of_nat (length (buffer_ptrs l))).
  { clear -Hok. induction Hok as [|b l Hb Hok IH]; [done|].
    change (buffer_ptrs (b :: l)) with (slice_ptrs b ++ buffer_ptrs l).
    rewrite length_app, length_slice_ptrs. unfold slice_ok, sl_len in *. simpl. lia. }
  exists l, (buffer_ptrs l). split_and!; [|done| |].
  - exact E.
  - rewrite UserBuffer_len_spec by (done || lia). lia.
  - rewrite iter_all_spec, remaining_new; [done| |].
    + apply iter_wf_new; [done|lia].
    + rewrite remaining_new. lia.
Qed.

(** [translated_str] returns the bytes of the user string at [ptr] up to and
    excluding its terminating 0, when all of them are mapped to frames other
    than frame 0. *)
Theorem translated_str_reads (s : mm F) satp ptr str :
  0 <= ptr -> ptr + Z.of_nat (length str) < 2 ^ 38 ->
  (forall a, ptr <= a <= ptr + Z.of_nat (length str) ->
    ppn_nonzero s.(mem) (PT.from_satp satp) a) ->
  user_byte s.(mem) (PT.from_satp satp) <$> seqZ ptr (Z.of_nat (length str)) = Some <$> str ->
  Forall (fun c => c <> 0) str ->
  user_byte s.(mem) (PT.from_satp satp) (ptr + Z.of_nat (length str)) = Some 0 ->
  translated_str (S (length str)) satp ptr s = Ok (str, s).
Proof. intros. unfold translated_str. rewrite (str_loop _ _ _ str []); [done..|lia]. Qed.

(** The walks do not look at the valid bit of the leaf entry: for a user
    address whose page is not mapped but whose last-level table exists,
    [translated_ref] returns an address in physical page 0 instead of panicking. *)
Theorem translated_ref_unmapped_page (s : mm F) satp ptr t :
  0 <= ptr < 2 ^ 39 -> ptr mod 4096 <> 0 ->
  PT.walk s.(mem) (PT.from_satp satp) (PT.dir (ptr / 4096)) = Some t ->
  read_word s.(mem) t (PT.slot (ptr / 4096)) = PTE.empty ->
  PT.leaf s.(mem) (PT.from_satp satp) (ptr / 4096) = None /\
  translated_ref satp ptr s = Ok (ptr mod 4096, s).
Proof.
  intros Hp Ho W Hr. set (root := PT.from_satp satp) in *. split.
  - unfold PT.leaf. rewrite W. simpl. by rewrite Hr.
  - unfold translated_ref. fold root.
    rewrite VirtAddr_from_usize_mod, Z.mod_small by lia.
    pose proof (Z.mod_pos_bound ptr 4096 ltac:(lia)) as Hb.
    assert (E : PT.translate_va root ptr s = Ok (Some (ptr mod 4096), s)).
    { unfold PT.translate_va. rewrite floor_div. st_step_by (PT.find_pte_spec s root (ptr / 4096)).
      rewrite W. simpl. st_step. rewrite Hr. rewrite page_offset_mod.
      change (PhysAddr_from_PhysPageNum (PTE.ppn PTE.empty)) with 0.
      rewrite uadd_small, PhysAddr_from_usize_mod, Z.mod_small by lia. done. }
    st_step_by E. st_step. by rewrite (proj2 (Z.eqb_neq _ _)) by done.
Qed.

End properties.

(** A user page table with pages 1 and 2 mapped to frames 40 and 30, and the
    string "hi" laid across their boundary. *)
Definition demo_user : res (Z * mm Frame.StackFrameAllocator) :=
  '(pt, s) ← PT.PageTable_new PT.demo_start;
  '(pt, s) ← PT.run [PT.OpMap 1 40 22; PT.OpMap 2 30 22] pt s;
  let m := <[40 := write_bytes ∅ 4095 [104]]> (<[30 := write_bytes ∅ 0 [105]]> s.(mem)) in
  Ok (PT.satp pt.(PT.root_ppn), mkMM m s.(falloc)).

Definition demo_user_state : mm Frame.StackFrameAllocator :=
  Eval vm_compute in match demo_user with Ok (_, s) => s | Panic _ => PT.demo_start end.

Definition demo_satp : Z := PT.satp 16.

Ltac each_address H va :=
  match type of H with
  | ?lo <= va < ?hi =>
      let H' := fresh in
      assert (va = lo \/ lo + 1 <= va < hi) as [->|H'] by lia; [|clear H; rename H' into H]
  end.

Lemma user_buffer_covers_range_witness :
  exists l, translated_byte_buffer demo_satp 8190 4 demo_user_state = Ok (l, demo_user_state) /\
    iter_all 5 (UserBuffer_into_iter (mkUserBuffer l)) = Ok [(40, 4094); (40, 4095); (30, 0); (30, 1)].
Proof.
  destruct (user_buffer_covers_range demo_user_state demo_satp 8190 4) as (l & ptrs & E & Hp & _ & Hi);
    [lia|lia|lia| |].
  - intros va Hva. do 4 (each_address Hva va; [by eexists; vm_compute|]). lia.
  - exists l. split; [exact E|]. vm_compute in E. injection E as <-. by vm_compute.
Defined.

Lemma translated_str_reads_witness :
  translated_str 3 demo_satp 8191 demo_user_state = Ok ([104; 105], demo_user_state).
Proof.
  apply (translated_str_reads demo_user_state demo_satp 8191 [104; 105]).
  - lia.
  - simpl. lia.
  - intros a Ha p o Hp. simpl length in Ha. assert (a = 8191 \/ a = 8192 \/ a = 8193) as [-> |[-> | ->]] by lia.
    all: vm_compute in Hp; simplify_eq; by vm_compute.
  - by vm_compute.
  - by repeat constructor.
  - by vm_compute.
Defined.

Lemma translated_ref_unmapped_page_witness :
  PT.leaf demo_user_state.(mem) (PT.from_satp demo_satp) 3 = None /\
  translated_ref demo_satp 12289 demo_user_state = Ok (1, demo_user_state).
Proof.
  apply (translated_ref_unmapped_page demo_user_state demo_satp 12289 18); by vm_compute.
Defined.
