(* ===== verification/Virtio.v ===== *)
(** The memory of the virtio block driver: [VirtioHal] of
    os/src/drivers/block/virtio_blk.rs, over the frame allocator.

    The driver itself ([VirtIOBlk]) is a third-party crate; it calls these functions for its
    queues and for the buffers it hands to the device. *)

From S2P Require Import Prelude Address Alloc Memory PageTable UserBuffer.

Import Frame.
#[local] Abbreviation kernel_memory := (mm StackFrameAllocator).

(** Memory and [QUEUE_FRAMES]. *)
Record dma := mkDma { dm : kernel_memory; QUEUE_FRAMES : list Z }.

Definition on_dm {A} (m : ST kernel_memory A) : ST dma A := fun s => '(a, k) ← m (dm s); Ok (a, mkDma k (QUEUE_FRAMES s)).
Definition push_frame (ppn : Z) : ST dma unit := fun s => Ok (tt, mkDma (dm s) (vec_push (QUEUE_FRAMES s) ppn)).

(** The rounds of [for i in 0..pages] from [i] on. *)
Fixpoint dma_alloc_loop (rounds : nat) (i ppn_base : Z) : ST dma Z :=
  match rounds with
  | O => mret ppn_base
  | S rounds' =>
      o ← on_dm frame_alloc;
      frame ← lift (unwrap o);
      let ppn_base := if i =? 0 then frame else ppn_base in
      lift (rassert (frame =? ppn_base + i));;
      push_frame frame;;
      dma_alloc_loop rounds' (i + 1) ppn_base
  end.

Definition dma_alloc (pages : Z) : ST dma Z :=
  ppn_base ← dma_alloc_loop (Z.to_nat pages) 0 0;
  mret (PhysAddr_from_PhysPageNum ppn_base).

Fixpoint dma_dealloc_loop (rounds : nat) (ppn_base : Z) : ST dma unit :=
  match rounds with
  | O => mret tt
  | S rounds' => on_dm (frame_dealloc ppn_base);; dma_dealloc_loop rounds' (step ppn_base)
  end.

Definition dma_dealloc (paddr pages : Z) : ST dma Z :=
  ppn_base ← lift (PhysPageNum_from_PhysAddr (PhysAddr_from_usize paddr));
  dma_dealloc_loop (Z.to_nat pages) ppn_base;;
  mret 0.

Definition phys_to_virt (paddr : Z) : Z := paddr.

Definition virt_to_phys (kernel_satp vaddr : Z) : ST dma Z :=
  o ← on_dm (PT.translate_va (PT.from_satp kernel_satp) (VirtAddr_from_usize vaddr));
  lift (unwrap o).

(** ** Lemmas *)

(** What clearing frames leaves. *)
Definition zero_pages (m : pmem) (l : list Z) : pmem := foldl zero_page m l.

Lemma fresh_frame m c e q :
  0 <= c < e -> e <= 2 ^ 44 ->
  on_dm frame_alloc (mkDma (mkMM m (mkFrameAllocator c e [])) q) =
  Ok (Some c, mkDma (mkMM (zero_page m c) (mkFrameAllocator (c + 1) e [])) q).
Proof.
  intros Hc He. unfold on_dm, frame_alloc. cbn [dm falloc mem QUEUE_FRAMES fa_alloc stack_frame_allocator]. unfold alloc. cbn [recycled vec_pop reverse current end_].
  rewrite (proj2 (Z.eqb_neq c e)) by lia. rewrite uadd_small by lia. rewrite usub_small by lia. rewrite PhysPageNum_from_usize_mod, Z.mod_small by lia.
  replace (c + 1 - 1) with c by lia. reflexivity.
Qed.

Lemma dma_alloc_loop_ok rounds : forall m c e q i b,
  0 <= c -> c + Z.of_nat rounds <= e -> e <= 2 ^ 44 -> 0 <= i -> (i <> 0 -> c = b + i) ->
  dma_alloc_loop rounds i b (mkDma (mkMM m (mkFrameAllocator c e [])) q) =
  Ok (if (i =? 0) && (0 <? Z.of_nat rounds) then c else b,
      mkDma (mkMM (zero_pages m (seqZ c (Z.of_nat rounds))) (mkFrameAllocator (c + Z.of_nat rounds) e [])) (q ++ seqZ c (Z.of_nat rounds))).
Proof.
  induction rounds as [|rounds IH]; intros m c e q i b Hc Hr He Hi Hb; cbn [dma_alloc_loop].
  - cbn. rewrite andb_false_r, Z.add_0_r, app_nil_r. reflexivity.
  - rewrite (st_bind_run _ _ _ _ _ (fresh_frame m c e q ltac:(lia) He)). cbn [unwrap lift]. st_step.
    set (b' := if i =? 0 then c else b). assert (Hb' : c = b' + i).
    { unfold b'. destruct (Z.eqb_spec i 0); [lia|auto]. }
    rewrite (proj2 (Z.eqb_eq c (b' + i)) Hb'). unfold rassert. st_step. 
    etransitivity; [exact (IH (zero_page m c) (c + 1) e (q ++ [c]) (i + 1) b' ltac:(lia) ltac:(lia) He ltac:(lia) ltac:(lia))|]. rewrite (proj2 (Z.eqb_neq (i + 1) 0)) by lia. cbn [andb].
    rewrite (seqZ_cons c) by lia. replace (Z.pred (Z.of_nat (S rounds))) with (Z.of_nat rounds) by lia. replace (Z.succ c) with (c + 1) by lia.
    cbn [zero_pages foldl]. rewrite <- app_assoc. cbn [app]. do 3 f_equal.
    + unfold b'. rewrite (proj2 (Z.ltb_lt 0 (Z.of_nat (S rounds)))) by lia. by rewrite andb_true_r.
    + f_equal. f_equal. lia.
Qed.

Lemma dma_dealloc_loop_ok rounds : forall m c e rec q p,
  0 <= p -> p + Z.of_nat rounds <= c -> c <= 2 ^ 44 -> (forall x, x ∈ rec -> ~ p <= x < p + Z.of_nat rounds) ->
  dma_dealloc_loop rounds p (mkDma (mkMM m (mkFrameAllocator c e rec)) q) =
  Ok (tt, mkDma (mkMM m (mkFrameAllocator c e (rec ++ seqZ p (Z.of_nat rounds)))) q).
Proof.
  induction rounds as [|rounds IH]; intros m c e rec q p Hp Hr Hc Hrec; cbn [dma_dealloc_loop].
  - cbn. by rewrite app_nil_r.
  - assert (E : on_dm (frame_dealloc p) (mkDma (mkMM m (mkFrameAllocator c e rec)) q) = Ok (tt, mkDma (mkMM m (mkFrameAllocator c e (rec ++ [p]))) q)).
    { unfold on_dm, frame_dealloc. cbn [dm falloc mem QUEUE_FRAMES fa_dealloc stack_frame_allocator]. unfold dealloc. cbn [current recycled end_].
      rewrite (proj2 (Z.leb_gt c p)) by lia. cbn [orb]. assert (Hn : existsb (fun v => v =? p) rec = false); [|by rewrite Hn].
      apply not_true_iff_false. rewrite existsb_exists. intros (v & Hin & Hv). apply Z.eqb_eq in Hv as ->. apply list_elem_of_In in Hin. specialize (Hrec p Hin). lia. }
    rewrite (st_bind_run _ _ _ _ _ E). rewrite step_small by lia. rewrite IH; [|lia|lia|lia|intros x [Hx|Hx%list_elem_of_singleton]%elem_of_app; [specialize (Hrec x Hx)|]; lia].
    rewrite <- app_assoc. cbn [app]. rewrite (seqZ_cons p) by lia. replace (Z.pred (Z.of_nat (S rounds))) with (Z.of_nat rounds) by lia. done.
Qed.

Lemma zero_pages_byte m l p i : p ∈ l -> byte_at (get_page (zero_pages m l) p) i = 0.
Proof.
  unfold zero_pages. induction l as [|x l IH] using rev_ind; [by intros ?%elem_of_nil|]. rewrite foldl_app. cbn [foldl]. unfold zero_page.
  rewrite get_page_insert. case_decide; [done|]. intros [Hin|Hin%list_elem_of_singleton]%elem_of_app; [by apply IH|congruence].
Qed.

(** A recycled frame comes from the end of the list. *)
Lemma recycled_frame m c e rec p q :
  on_dm frame_alloc (mkDma (mkMM m (mkFrameAllocator c e (rec ++ [p]))) q) = Ok (Some p, mkDma (mkMM (zero_page m p) (mkFrameAllocator c e rec)) q).
Proof.
  unfold on_dm, frame_alloc. cbn [dm falloc mem QUEUE_FRAMES fa_alloc stack_frame_allocator]. unfold alloc. cbn [recycled].
  change (rec ++ [p]) with (vec_push rec p). rewrite vec_pop_push. reflexivity.
Qed.

Lemma one_recycled m c e rec p q :
  dma_alloc_loop 1 0 0 (mkDma (mkMM m (mkFrameAllocator c e (rec ++ [p]))) q) =
  Ok (p, mkDma (mkMM (zero_page m p) (mkFrameAllocator c e rec)) (vec_push q p)).
Proof.
  cbn [dma_alloc_loop]. rewrite (st_bind_run _ _ _ _ _ (recycled_frame m c e _ _ q)). unfold lift at 1, unwrap at 1. st_step. cbn [Z.eqb].
  rewrite Z.add_0_r, Z.eqb_refl. reflexivity.
Qed.

(** With two frames recycled last, in ascending order, the second one handed out is below
    the first. *)
Lemma descending_panics m e cur rec p q pages' :
  2 <= pages' ->
  dma_alloc pages' (mkDma (mkMM m (mkFrameAllocator cur e ((rec ++ [p]) ++ [p + 1]))) q) = Panic AssertFailed.
Proof.
  intros Hp'. unfold dma_alloc. destruct (Z.to_nat pages') as [|[|n]] eqn:En; [lia|lia|].
  assert (Hl : dma_alloc_loop (S (S n)) 0 0 (mkDma (mkMM m (mkFrameAllocator cur e ((rec ++ [p]) ++ [p + 1]))) q) =
    Panic AssertFailed); [|unfold mbind, st_bind; by rewrite Hl].
  cbn [dma_alloc_loop]. rewrite (st_bind_run _ _ _ _ _ (recycled_frame m cur e _ _ q)). unfold lift at 1, unwrap at 1. st_step. cbn [Z.eqb].
  rewrite Z.add_0_r, Z.eqb_refl. unfold lift at 1, rassert at 1. st_step. unfold push_frame at 1. st_step.
  etransitivity; [exact (st_bind_run _ _ _ _ _ (recycled_frame (zero_page m _) cur e rec p (vec_push q (p + 1))))|].
  st_step. change (0 + 1 =? 0) with false. cbn iota.
  rewrite (proj2 (Z.eqb_neq p _)) by lia. reflexivity.
Qed.

Lemma seqZ_last2 c n : 2 <= n -> seqZ c n = (seqZ c (n - 2) ++ [c + n - 2]) ++ [c + n - 2 + 1].
Proof.
  intros Hn. rewrite <- app_assoc. cbn [app]. replace n with ((n - 2) + 2) at 1 by lia. rewrite seqZ_app by lia. f_equal.
  rewrite (seqZ_cons (c + (n - 2))) by lia. rewrite (seqZ_cons (Z.succ _)) by lia. cbn. f_equal; [lia|]. f_equal. lia.
Qed.

Lemma seqZ_last c n : 1 <= n -> seqZ c n = seqZ c (n - 1) ++ [c + n - 1].
Proof. intros Hn. replace n with ((n - 1) + 1) at 1 by lia. rewrite seqZ_app by lia. f_equal. rewrite seqZ_cons by lia. cbn. f_equal. lia. Qed.

(** The frames run out in the middle of the loop. *)
Lemma dma_alloc_loop_exhausted rounds : forall m c e q i b,
  0 <= c <= e -> e < c + Z.of_nat rounds -> e <= 2 ^ 44 -> 0 <= i -> (i <> 0 -> c = b + i) ->
  dma_alloc_loop rounds i b (mkDma (mkMM m (mkFrameAllocator c e [])) q) = Panic UnwrapNone.
Proof.
  induction rounds as [|rounds IH]; intros m c e q i b Hc Hr He Hi Hb; cbn [dma_alloc_loop]; [lia|].
  destruct (decide (c = e)) as [->|Hne].
  - assert (E : on_dm frame_alloc (mkDma (mkMM m (mkFrameAllocator e e [])) q) = Ok (None, mkDma (mkMM m (mkFrameAllocator e e [])) q)).
    { unfold on_dm, frame_alloc. cbn [dm falloc mem QUEUE_FRAMES fa_alloc stack_frame_allocator]. unfold alloc. cbn [recycled vec_pop reverse current end_].
      rewrite Z.eqb_refl. reflexivity. }
    rewrite (st_bind_run _ _ _ _ _ E). reflexivity.
  - rewrite (st_bind_run _ _ _ _ _ (fresh_frame m c e q ltac:(lia) He)). cbn [unwrap lift]. st_step.
    set (b' := if i =? 0 then c else b). assert (Hb' : c = b' + i).
    { unfold b'. destruct (Z.eqb_spec i 0); [lia|auto]. }
    rewrite (proj2 (Z.eqb_eq c (b' + i)) Hb'). unfold rassert. st_step.
    apply (IH (zero_page m c) (c + 1) e (q ++ [c]) (i + 1) b'); lia.
Qed.

(** [PhysAddr::from(paddr).into()] of the address of a frame. *)
Lemma frame_of_address p : 0 <= p < 2 ^ 44 -> PhysPageNum_from_PhysAddr (PhysAddr_from_usize (PhysAddr_from_PhysPageNum p)) = Ok p.
Proof.
  intros Hp. rewrite PhysAddr_from_PhysPageNum_mul by lia. rewrite PhysAddr_from_usize_mod, Z.mod_small by lia.
  unfold PhysPageNum_from_PhysAddr. rewrite page_offset_mod by lia. rewrite Z.mod_mul by lia. cbn [Z.eqb rassert mbind res_bind]. f_equal.
  rewrite floor_div. by rewrite Z.div_mul.
Qed.

(** C33: The pages of the virtio queues.  While no frame has been recycled, [dma_alloc] of
    any number of pages that are left returns the address of that many frames, cleared and
    one after the other, and keeps them in [QUEUE_FRAMES]; of more pages it panics.
    [dma_dealloc] of any run of frames that are handed out and not recycled, whatever was
    recycled before, gives exactly these back to the frame allocator, behind the ones
    recycled before, and [QUEUE_FRAMES] keeps them.  The allocator hands recycled frames out
    from the last one down: after such a release a [dma_alloc] of one page gets the last
    page of the run, and, when the run had two pages or more, a [dma_alloc] of two pages or
    more fails its assertion. *)
Theorem dma_pages m c e rec q p pages :
  0 <= c <= e -> e <= 2 ^ 44 -> 0 < pages ->
  (let s := mkDma (mkMM m (mkFrameAllocator c e [])) q in
   let s1 := mkDma (mkMM (zero_pages m (seqZ c pages)) (mkFrameAllocator (c + pages) e [])) (q ++ seqZ c pages) in
   (c + pages <= e -> dma_alloc pages s = Ok (c * 4096, s1) /\
      forall p i, c <= p < c + pages -> byte_at (get_page (mem (dm s1)) p) i = 0) /\
   (e < c + pages -> dma_alloc pages s = Panic UnwrapNone)) /\
  (0 <= p -> p + pages <= c -> (forall x, x ∈ rec -> ~ p <= x < p + pages) ->
   let s := mkDma (mkMM m (mkFrameAllocator c e rec)) q in
   let s2 := mkDma (mkMM m (mkFrameAllocator c e (rec ++ seqZ p pages))) q in
   dma_dealloc (p * 4096) pages s = Ok (0, s2) /\
   dma_alloc 1 s2 = Ok ((p + pages - 1) * 4096,
     mkDma (mkMM (zero_page m (p + pages - 1)) (mkFrameAllocator c e (rec ++ seqZ p (pages - 1)))) (q ++ [p + pages - 1])) /\
   (2 <= pages -> forall pages', 2 <= pages' -> dma_alloc pages' s2 = Panic AssertFailed)).
Proof.
  intros Hc Hmax Hp. split.
  - intros s s1. split.
    + intros He. split; [|intros p' i Hin; unfold s1; cbn [mem dm]; by apply zero_pages_byte, elem_of_seqZ].
      unfold dma_alloc. pose proof (dma_alloc_loop_ok (Z.to_nat pages) m c e q 0 0 ltac:(lia)) as E. rewrite Z2Nat.id in E by lia.
      specialize (E He Hmax ltac:(lia) ltac:(lia)). rewrite (st_bind_run _ _ _ _ _ E). rewrite (proj2 (Z.ltb_lt 0 pages)) by lia. cbn [Z.eqb andb].
      rewrite PhysAddr_from_PhysPageNum_mul by lia. reflexivity.
    + intros He. unfold dma_alloc, mbind, st_bind, s. by rewrite dma_alloc_loop_exhausted by lia.
  - intros Hp0 Hpc Hrec s s2. split_and!.
    + unfold dma_dealloc. rewrite <- PhysAddr_from_PhysPageNum_mul by lia. rewrite frame_of_address by lia. unfold lift at 1. st_step.
      pose proof (dma_dealloc_loop_ok (Z.to_nat pages) m c e rec q p Hp0) as E. rewrite Z2Nat.id in E by lia.
      specialize (E ltac:(lia) ltac:(lia) Hrec). unfold s. rewrite (st_bind_run _ _ _ _ _ E). reflexivity.
    + unfold s2. rewrite (seqZ_last p pages), app_assoc by lia. unfold dma_alloc. change (Z.to_nat 1) with 1%nat.
      rewrite (st_bind_run _ _ _ _ _ (one_recycled m c e _ _ q)). by rewrite PhysAddr_from_PhysPageNum_mul by lia.
    + intros H2 pages' H2'. unfold s2. rewrite (seqZ_last2 p pages), !app_assoc by lia. by apply descending_panics.
Qed.

(** Three pages are allocated; the last two of them are released first. *)
Lemma dma_pages_witness :
  dma_alloc 3 (mkDma (mkMM ∅ (mkFrameAllocator 0x80500 0x88000 [])) []) =
    Ok (0x80500000, mkDma (mkMM (zero_pages ∅ [0x80500; 0x80501; 0x80502]) (mkFrameAllocator 0x80503 0x88000 [])) [0x80500; 0x80501; 0x80502]) /\
  dma_alloc 5 (mkDma (mkMM (zero_pages ∅ [0x80500; 0x80501; 0x80502]) (mkFrameAllocator 0x80503 0x88000 [0x80501; 0x80502])) [0x80500; 0x80501; 0x80502]) =
    Panic AssertFailed.
Proof.
  destruct (dma_pages ∅ 0x80500 0x88000 [] [] 0 3) as [[E1 _] _]; [lia..|]. destruct E1 as [E1 _]; [lia|]. split; [exact E1|].
  destruct (dma_pages (zero_pages ∅ [0x80500; 0x80501; 0x80502]) 0x80503 0x88000 [] [0x80500; 0x80501; 0x80502] 0x80501 2) as [_ E2]; [lia..|].
  destruct E2 as (_ & _ & E2); [lia|lia|by intros x ?%elem_of_nil|]. exact (E2 ltac:(lia) 5 ltac:(lia)).
Defined.

(** In the identically mapped part of the kernel's address space [virt_to_phys] is the
    identity, as [phys_to_virt] is. *)
Lemma virt_to_phys_identity s satp va :
  0 <= va < 2 ^ 38 -> phys (mem (dm s)) (PT.from_satp satp) va = Some (va / 4096, va mod 4096) ->
  virt_to_phys satp va s = Ok (phys_to_virt va, s).
Proof.
  intros Hva Hp. unfold virt_to_phys. rewrite VirtAddr_from_usize_mod, Z.mod_small by lia.
  destruct (translate_va_phys (dm s) (PT.from_satp satp) va (va / 4096) (va mod 4096)) as [E _]; [lia| |done|].
  { split; [apply Z.div_pos; lia|apply Z.div_lt_upper_bound; lia]. }
  assert (E' : on_dm (PT.translate_va (PT.from_satp satp) va) s = Ok (Some va, s)).
  { unfold on_dm. rewrite E. destruct s. cbn. rewrite Z.mul_comm, <- Z.div_mod by lia. done. }
  rewrite (st_bind_run _ _ _ _ _ E'). reflexivity.
Qed.
