(* ===== verification/Pipe.v ===== *)
(** Pipes: os/src/fs/pipe.rs.

    [PipeRingBuffer] is a 32-byte ring; [Pipe::read] and [Pipe::write] move
    bytes between it and a [UserBuffer], giving up the processor
    ([suspend_current_and_run_next]) when the ring is empty or full.  The kernel
    is not preempted, so what runs between two suspensions is atomic: [read_run]
    and [write_run] are those pieces, and an execution of a pipe is a sequence of
    them from any number of readers and writers.

    The [Weak<Pipe>] to the write end is modelled by the number of strong
    references to it: [upgrade] gives [None] when that number is 0. *)

From S2P Require Import Prelude.

Definition RING_BUFFER_SIZE : Z := 32.

Inductive RingBufferStatus := Full | Empty | Normal.

#[global] Instance RingBufferStatus_eq_dec : EqDecision RingBufferStatus.
Proof. solve_decision. Defined.

Record PipeRingBuffer := mkRing {
  arr : list Z;
  head : Z;
  tail : Z;
  status : RingBufferStatus;
  write_end : option unit;
}.

Definition PipeRingBuffer_new : PipeRingBuffer :=
  mkRing (replicate 32 0) 0 0 Empty None.

Definition set_write_end (r : PipeRingBuffer) : PipeRingBuffer :=
  mkRing r.(arr) r.(head) r.(tail) r.(status) (Some tt).

Definition read_byte (r : PipeRingBuffer) : res (Z * PipeRingBuffer) :=
  c ← index r.(arr) r.(head);
  let h := uadd r.(head) 1 mod RING_BUFFER_SIZE in
  let st := if h =? r.(tail) then Empty else Normal in
  Ok (c, mkRing r.(arr) h r.(tail) st r.(write_end)).

Definition available_read (r : PipeRingBuffer) : Z :=
  if decide (r.(status) = Empty) then 0
  else if r.(head) <? r.(tail) then usub r.(tail) r.(head)
  else usub (uadd r.(tail) RING_BUFFER_SIZE) r.(head).

Definition write_byte (byte : Z) (r : PipeRingBuffer) : res PipeRingBuffer :=
  a ← index_set r.(arr) r.(tail) byte;
  let t := uadd r.(tail) 1 mod RING_BUFFER_SIZE in
  let st := if t =? r.(head) then Full else Normal in
  Ok (mkRing a r.(head) t st r.(write_end)).

Definition available_write (r : PipeRingBuffer) : Z :=
  usub RING_BUFFER_SIZE (available_read r).

(** [writers] is the strong count of the write end. *)
Definition all_write_ends_closed (writers : Z) (r : PipeRingBuffer) : res bool :=
  _ ← unwrap r.(write_end);
  Ok (writers =? 0).

(** How a piece of [read] or [write] ends. *)
Inductive outcome :=
| Returned (n : Z)
| Suspended.

(** A [read] in progress: the destination pointers not used yet, the stores
    made so far, and [already_read]. *)
Record reader := mkReader {
  r_buf_len : Z;
  r_iter : list (Z * Z);
  r_stored : list ((Z * Z) * Z);
  already_read : Z;
}.

(** [for _ in 0..available_read { ... }] *)
Fixpoint read_for (n : nat) (r : PipeRingBuffer) (rd : reader)
  : res (option Z * PipeRingBuffer * reader) :=
  match n with
  | O => Ok (None, r, rd)
  | S n' =>
      '(byte_ref, iter) ← unwrap (pop_front rd.(r_iter));
      '(b, r') ← read_byte r;
      let already := uadd rd.(already_read) 1 in
      let rd' := mkReader rd.(r_buf_len) iter (rd.(r_stored) ++ [(byte_ref, b)]) already in
      if already =? rd.(r_buf_len) then Ok (Some already, r', rd') else read_for n' r' rd'
  end.

(** The [loop] of [Pipe::read] from a resumption to the next suspension. *)
Fixpoint read_run (fuel : nat) (writers : Z) (r : PipeRingBuffer) (rd : reader)
  : res (outcome * PipeRingBuffer * reader) :=
  match fuel with
  | O => Panic OutOfFuel
  | S fuel' =>
      let n := available_read r in
      if n =? 0 then
        closed ← all_write_ends_closed writers r;
        if closed : bool then Ok (Returned rd.(already_read), r, rd) else Ok (Suspended, r, rd)
      else
        '(o, r', rd') ← read_for (Z.to_nat n) r rd;
        match o with
        | Some v => Ok (Returned v, r', rd')
        | None => read_run fuel' writers r' rd'
        end
  end.

(** A [write] in progress: the bytes that dereferencing the pointers not consumed
    yet gives when their turn comes. *)
Record writer := mkWriter {
  w_buf_len : Z;
  w_iter : list Z;
  already_write : Z;
}.

Fixpoint write_for (n : nat) (r : PipeRingBuffer) (wr : writer)
  : res (option Z * PipeRingBuffer * writer) :=
  match n with
  | O => Ok (None, r, wr)
  | S n' =>
      '(b, iter) ← unwrap (pop_front wr.(w_iter));
      r' ← write_byte b r;
      let already := uadd wr.(already_write) 1 in
      let wr' := mkWriter wr.(w_buf_len) iter already in
      if already =? wr.(w_buf_len) then Ok (Some already, r', wr') else write_for n' r' wr'
  end.

Fixpoint write_run (fuel : nat) (r : PipeRingBuffer) (wr : writer)
  : res (outcome * PipeRingBuffer * writer) :=
  match fuel with
  | O => Panic OutOfFuel
  | S fuel' =>
      let n := available_write r in
      if n =? 0 then Ok (Suspended, r, wr)
      else
        '(o, r', wr') ← write_for (Z.to_nat n) r wr;
        match o with
        | Some v => Ok (Returned v, r', wr')
        | None => write_run fuel' r' wr'
        end
  end.

(** A resumption goes round the loop at most twice: once to move bytes, once to
    find the ring empty or full. *)
Definition run_fuel : nat := 2.

(** [Pipe::read(buf)] and [Pipe::write(buf)] before their first iteration. *)
Definition Pipe_read (readable : bool) (buf_len : Z) (ptrs : list (Z * Z)) : res reader :=
  _ ← rassert readable;
  Ok (mkReader buf_len ptrs [] 0).

Definition Pipe_write (writable : bool) (buf_len : Z) (bytes : list Z) : res writer :=
  _ ← rassert writable;
  Ok (mkWriter buf_len bytes 0).

(** The two ends share the ring. *)
Record Pipe := mkPipe { p_readable : bool; p_writable : bool }.
Definition read_end_of_buffer : Pipe := mkPipe true false.
Definition write_end_of_buffer : Pipe := mkPipe false true.

(** Returns the shared ring with the read end and the write end. *)
Definition make_pipe : PipeRingBuffer * Pipe * Pipe :=
  (set_write_end PipeRingBuffer_new, read_end_of_buffer, write_end_of_buffer).

(** * Reference semantics: a bounded queue *)

Record wf (r : PipeRingBuffer) : Prop := {
  wf_arr : length r.(arr) = 32%nat;
  wf_head : 0 <= r.(head) < 32;
  wf_tail : 0 <= r.(tail) < 32;
  wf_status : match r.(status) with
              | Normal => r.(head) <> r.(tail)
              | _ => r.(head) = r.(tail)
              end;
  wf_write_end : r.(write_end) = Some tt;
}.

(** The queue the ring holds, oldest byte first. *)
Definition contents (r : PipeRingBuffer) : list Z :=
  (fun i => r.(arr) !!! Z.to_nat ((r.(head) + i) mod 32)) <$> seqZ 0 (available_read r).

(** * Lemmas *)

Lemma available_read_spec r :
  wf r -> available_read r =
    match r.(status) with
    | Empty => 0
    | Full => 32
    | Normal => (r.(tail) - r.(head)) mod 32
    end.
Proof.
  intros [_ Hh Ht Hs _]. unfold available_read, RING_BUFFER_SIZE.
  destruct (status r); case_decide; try done.
  all: destruct (head r <? tail r) eqn:E; bool_to_Prop; try lia.
  - rewrite uadd_small, usub_small by lia. lia.
  - rewrite usub_small by lia. rewrite Z.mod_small; lia.
  - rewrite uadd_small, usub_small by lia.
    apply Z.mod_unique with (-1); lia.
Qed.

Lemma available_read_range r : wf r -> 0 <= available_read r <= 32.
Proof.
  intros Hw. rewrite available_read_spec by done. destruct (status r); [lia|lia|].
  pose proof (Z.mod_pos_bound (tail r - head r) 32). lia.
Qed.

Lemma available_write_spec r : wf r -> available_write r = 32 - available_read r.
Proof.
  intros Hw. pose proof (available_read_range r Hw). unfold available_write, RING_BUFFER_SIZE.
  rewrite usub_small; lia.
Qed.

Lemma length_contents r : length (contents r) = Z.to_nat (available_read r).
Proof. unfold contents. by rewrite length_fmap, length_seqZ. Qed.

Lemma new_ring_wf : wf (set_write_end PipeRingBuffer_new).
Proof. by split. Qed.

Lemma mod_ne_0 d : -32 < d < 32 -> d <> 0 -> d mod 32 <> 0.
Proof. intros. Z.to_euclidean_division_equations; lia. Qed.

(** [read_byte] dequeues. *)
Lemma read_byte_spec r b q :
  wf r -> contents r = b :: q ->
  exists r', read_byte r = Ok (b, r') /\ wf r' /\ contents r' = q.
Proof.
  intros Hw Hc. pose proof Hw as [Ha Hh Ht Hs He].
  pose proof (length_contents r) as Hlen. rewrite Hc in Hlen. simpl in Hlen.
  pose proof (available_read_spec r Hw) as Hav. pose proof (available_read_range r Hw) as Hr.
  unfold contents in Hc. rewrite seqZ_cons in Hc by lia. simpl in Hc. injection Hc as Hb Hq.
  rewrite Z.add_0_r, Z.mod_small in Hb by lia.
  unfold read_byte, RING_BUFFER_SIZE. rewrite uadd_small by lia.
  destruct (lookup_lt_is_Some_2 (arr r) (Z.to_nat (head r))) as [x Hx]; [lia|].
  rewrite (proj2 (index_Ok _ _ x)) by (split; [lia|done]). simpl.
  rewrite list_lookup_total_alt, Hx in Hb. simpl in Hb. subst x.
  set (r' := mkRing _ _ _ _ _).
  pose proof (Z.mod_pos_bound (head r + 1) 32 ltac:(lia)) as Hh'.
  assert (Hw' : wf r').
  { split; simpl; try done. destruct (_ =? _) eqn:E; bool_to_Prop; done. }
  assert (Hav' : available_read r' = available_read r - 1).
  { rewrite !available_read_spec by done. unfold r'. simpl.
    destruct (status r) eqn:Es; [| |].
    - destruct (_ =? _) eqn:E; bool_to_Prop; Z.to_euclidean_division_equations; lia.
    - rewrite Hav in Hlen. simpl in Hlen. lia.
    - destruct (_ =? _) eqn:E; bool_to_Prop; Z.to_euclidean_division_equations; lia. }
  exists r'. split_and!; [done|done|]. rewrite <- Hq. unfold contents. rewrite Hav'.
  apply list_eq. intros k. rewrite !list_lookup_fmap.
  destruct (decide (Z.of_nat k < available_read r - 1)).
  - rewrite !lookup_seqZ_lt by lia. simpl. do 3 f_equal.
    rewrite Zplus_mod_idemp_l. f_equal. lia.
  - rewrite !lookup_seqZ_ge by lia. done.
Qed.

(** [write_byte] enqueues. *)
Lemma write_byte_spec r b :
  wf r -> available_read r < 32 ->
  exists r', write_byte b r = Ok r' /\ wf r' /\ contents r' = contents r ++ [b].
Proof.
  intros Hw Hlt. pose proof Hw as [Ha Hh Ht Hs He].
  pose proof (available_read_spec r Hw) as Hav. pose proof (available_read_range r Hw) as Hr.
  unfold write_byte, RING_BUFFER_SIZE. rewrite uadd_small by lia.
  rewrite (proj2 (index_set_Ok (arr r) _ (tail r) b)) by (split; [lia|done]). simpl.
  set (r' := mkRing _ _ _ _ _).
  pose proof (Z.mod_pos_bound (tail r + 1) 32 ltac:(lia)) as Ht'.
  assert (Hw' : wf r').
  { split; simpl; try done.
    - by rewrite length_insert.
    - destruct (_ =? _) eqn:E; bool_to_Prop; done. }
  assert (Hav' : available_read r' = available_read r + 1).
  { rewrite !available_read_spec by done. unfold r'. simpl.
    destruct (status r) eqn:Es; [lia| |].
    all: destruct (_ =? _) eqn:E; bool_to_Prop; Z.to_euclidean_division_equations; lia. }
  assert (Hpos : (head r + available_read r) mod 32 = tail r).
  { rewrite Hav. destruct (status r) eqn:Es; [lia|rewrite Z.add_0_r, Z.mod_small; lia|].
    rewrite Zplus_mod_idemp_r. replace (head r + (tail r - head r)) with (tail r) by lia.
    apply Z.mod_small; lia. }
  exists r'. split_and!; [done|done|].
  unfold contents at 1. rewrite Hav', seqZ_app, fmap_app by lia. simpl. f_equal.
  - apply list_fmap_ext. intros i x Hx. apply lookup_seqZ in Hx as [-> Hi].
    rewrite list_lookup_total_insert_ne; [done|].
    intros Heq%Z2Nat.inj; [|lia|apply Z.mod_pos_bound; lia].
    rewrite <- Hpos in Heq. revert Heq. Z.to_euclidean_division_equations; lia.
  - rewrite !Z.add_0_l, Hpos, list_lookup_total_insert_eq by lia. done.
Qed.

(** ** The loops *)

Record reader_inv (rd : reader) : Prop := {
  ri_count : rd.(already_read) = Z.of_nat (length rd.(r_stored));
  ri_len : rd.(already_read) + Z.of_nat (length rd.(r_iter)) = rd.(r_buf_len);
  ri_bound : rd.(r_buf_len) < 2 ^ 64;
  ri_more : rd.(r_iter) <> [];
}.

Record writer_inv (wr : writer) : Prop := {
  wi_count : 0 <= wr.(already_write);
  wi_len : wr.(already_write) + Z.of_nat (length wr.(w_iter)) = wr.(w_buf_len);
  wi_bound : wr.(w_buf_len) < 2 ^ 64;
  wi_more : wr.(w_iter) <> [];
}.

(** [k] more bytes of the queue [q] stored. *)
Definition reader_after (k : nat) (q : list Z) (rd : reader) : reader :=
  mkReader rd.(r_buf_len) (drop k rd.(r_iter))
    (rd.(r_stored) ++ zip (take k rd.(r_iter)) (take k q)) (rd.(already_read) + Z.of_nat k).

Definition writer_after (k : nat) (wr : writer) : writer :=
  mkWriter wr.(w_buf_len) (drop k wr.(w_iter)) (wr.(already_write) + Z.of_nat k).

Lemma reader_after_0 q rd : reader_after 0 q rd = rd.
Proof. unfold reader_after. simpl. rewrite app_nil_r, Z.add_0_r. by destruct rd. Qed.

Lemma writer_after_0 wr : writer_after 0 wr = wr.
Proof. unfold writer_after. simpl. rewrite Z.add_0_r. by destruct wr. Qed.

Lemma reader_after_S k b q p iter rd :
  rd.(r_iter) = p :: iter ->
  reader_after (S k) (b :: q) rd =
  reader_after k q (mkReader rd.(r_buf_len) iter (rd.(r_stored) ++ [(p, b)]) (rd.(already_read) + 1)).
Proof.
  intros E. unfold reader_after. rewrite E. simpl. rewrite <- app_assoc. f_equal. lia.
Qed.

Lemma writer_after_S k b iter wr :
  wr.(w_iter) = b :: iter ->
  writer_after (S k) wr = writer_after k (mkWriter wr.(w_buf_len) iter (wr.(already_write) + 1)).
Proof. intros E. unfold writer_after. rewrite E. simpl. f_equal. lia. Qed.

Lemma read_for_spec n r rd :
  wf r -> reader_inv rd -> (n <= length (contents r))%nat ->
  let k := (n `min` length rd.(r_iter))%nat in
  exists r', read_for n r rd =
      Ok (if decide (k = length rd.(r_iter)) then Some rd.(r_buf_len) else None,
          r', reader_after k (contents r) rd) /\
    wf r' /\ contents r' = drop k (contents r).
Proof.
  revert r rd. induction n as [|n IH]; intros r rd Hw Hi Hn k.
  - exists r. subst k. simpl. rewrite reader_after_0, decide_False; [done|].
    destruct Hi as [_ _ _ Hm]. by destruct (r_iter rd).
  - subst k. destruct (contents r) as [|b q] eqn:Eq; [simpl in Hn; lia|].
    destruct (read_byte_spec r b q Hw Eq) as (r1 & E1 & Hw1 & Hq1).
    pose proof Hi as [Hc Hl Hb Hm]. destruct (r_iter rd) as [|p iter] eqn:Ei; [done|].
    simpl length in *. cbn [read_for]. rewrite Ei. simpl. rewrite E1. simpl.
    rewrite uadd_small by lia. rewrite (reader_after_S _ _ _ p iter) by done.
    set (rd1 := mkReader _ _ _ _).
    destruct (_ =? _) eqn:E; bool_to_Prop.
    + assert (iter = []) as -> by (apply nil_length_inv; lia). simpl.
      rewrite Nat.min_0_r. rewrite decide_True by done. rewrite reader_after_0.
      exists r1. rewrite E. done.
    + assert (Hi1 : reader_inv rd1).
      { split; simpl; [|lia|lia|]; [rewrite length_app; simpl; lia|].
        intros ->. simpl in Hl. lia. }
      destruct (IH r1 rd1 Hw1 Hi1) as (r2 & E2 & Hw2 & Hq2); [rewrite Hq1; lia|].
      simpl in E2, Hq2. rewrite Hq1 in E2, Hq2. exists r2. rewrite E2.
      split_and!; [|done|done]. by repeat case_decide; try lia.
Qed.

Lemma write_for_spec n r wr :
  wf r -> writer_inv wr -> (n + length (contents r) <= 32)%nat ->
  let k := (n `min` length wr.(w_iter))%nat in
  exists r', write_for n r wr =
      Ok (if decide (k = length wr.(w_iter)) then Some wr.(w_buf_len) else None,
          r', writer_after k wr) /\
    wf r' /\ contents r' = contents r ++ take k wr.(w_iter).
Proof.
  revert r wr. induction n as [|n IH]; intros r wr Hw Hi Hn k.
  - exists r. subst k. simpl. rewrite writer_after_0, decide_False, app_nil_r; [done|].
    destruct Hi as [_ _ _ Hm]. by destruct (w_iter wr).
  - subst k. pose proof Hi as [Hc Hl Hb Hm]. destruct (w_iter wr) as [|b iter] eqn:Ei; [done|].
    pose proof (length_contents r) as Hlc. pose proof (available_read_range r Hw).
    destruct (write_byte_spec r b Hw) as (r1 & E1 & Hw1 & Hq1); [lia|].
    simpl length in *. cbn [write_for]. rewrite Ei. simpl. rewrite E1. simpl.
    rewrite uadd_small by lia. rewrite (writer_after_S _ b iter) by done.
    set (wr1 := mkWriter _ _ _).
    destruct (_ =? _) eqn:E; bool_to_Prop.
    + assert (iter = []) as -> by (apply nil_length_inv; lia). simpl.
      rewrite Nat.min_0_r. rewrite decide_True by done. rewrite writer_after_0.
      exists r1. rewrite E. done.
    + assert (Hi1 : writer_inv wr1).
      { split; simpl; [lia|lia|lia|]. intros ->. simpl in Hl. lia. }
      destruct (IH r1 wr1 Hw1 Hi1) as (r2 & E2 & Hw2 & Hq2).
      { rewrite Hq1, length_app. simpl. lia. }
      simpl in E2, Hq2. rewrite Hq1, <- app_assoc in Hq2. exists r2. rewrite E2.
      split_and!; [|done|done]. by repeat case_decide; try lia.
Qed.

(** What one resumption of a reader does. *)
Lemma read_run_spec writers r rd :
  wf r -> reader_inv rd ->
  let k := (length (contents r) `min` length rd.(r_iter))%nat in
  exists r', read_run run_fuel writers r rd =
      Ok (if decide (k = length rd.(r_iter)) then Returned rd.(r_buf_len)
          else if writers =? 0 then Returned (rd.(already_read) + Z.of_nat k) else Suspended,
          r', reader_after k (contents r) rd) /\
    wf r' /\ contents r' = drop k (contents r).
Proof.
  intros Hw Hi k. unfold run_fuel. cbn [read_run].
  pose proof (length_contents r) as Hlen. pose proof (available_read_range r Hw) as Hr.
  pose proof Hi as [_ _ _ Hm].
  destruct (available_read r =? 0) eqn:E0; bool_to_Prop.
  - assert (contents r = []) as Hc by (apply nil_length_inv; lia).
    subst k. rewrite Hc. simpl. rewrite reader_after_0.
    unfold all_write_ends_closed. rewrite (wf_write_end r Hw). simpl. exists r.
    rewrite decide_False by (by destruct (r_iter rd)). rewrite Z.add_0_r.
    destruct (writers =? 0); done.
  - destruct (read_for_spec (Z.to_nat (available_read r)) r rd Hw Hi) as (r1 & E1 & Hw1 & Hq1);
      [lia|].
    cbv zeta in E1, Hq1. rewrite <- Hlen in E1, Hq1. fold k in E1, Hq1. rewrite <- Hlen.
    rewrite E1. cbn [mbind res_bind]. exists r1.
    case_decide as Hk; [done|].
    assert (Hkc : k = length (contents r)) by lia.
    assert (contents r1 = []) as Hc1 by (rewrite Hq1; apply drop_ge; lia).
    pose proof (length_contents r1) as Hl1. rewrite Hc1 in Hl1. simpl in Hl1.
    pose proof (available_read_range r1 Hw1).
    rewrite (proj2 (Z.eqb_eq _ _)) by lia.
    unfold all_write_ends_closed. rewrite (wf_write_end r1 Hw1). simpl.
    destruct (writers =? 0); done.
Qed.

Lemma write_run_spec r wr :
  wf r -> writer_inv wr ->
  let k := ((32 - length (contents r)) `min` length wr.(w_iter))%nat in
  exists r', write_run run_fuel r wr =
      Ok (if decide (k = length wr.(w_iter)) then Returned wr.(w_buf_len) else Suspended,
          r', writer_after k wr) /\
    wf r' /\ contents r' = contents r ++ take k wr.(w_iter).
Proof.
  intros Hw Hi k. unfold run_fuel. cbn [write_run].
  pose proof (length_contents r) as Hlen. pose proof (available_read_range r Hw) as Hr.
  rewrite available_write_spec by done. pose proof Hi as [_ _ _ Hm].
  destruct (32 - available_read r =? 0) eqn:E0; bool_to_Prop.
  - assert (k = 0%nat) as -> by lia. rewrite writer_after_0. exists r. simpl. rewrite app_nil_r.
    rewrite decide_False by (by destruct (w_iter wr)). done.
  - destruct (write_for_spec (Z.to_nat (32 - available_read r)) r wr Hw Hi) as (r1 & E1 & Hw1 & Hq1);
      [lia|].
    cbv zeta in E1, Hq1.
    replace (Z.to_nat (32 - available_read r)) with (32 - length (contents r))%nat in * by lia.
    fold k in E1, Hq1. rewrite E1. cbn [mbind res_bind]. exists r1.
    case_decide as Hk; [done|].
    assert (Hkc : k = (32 - length (contents r))%nat) by lia.
    pose proof (length_contents r1) as Hl1. rewrite Hq1, length_app, length_take in Hl1.
    pose proof (available_read_range r1 Hw1).
    rewrite available_write_spec, (proj2 (Z.eqb_eq _ _)) by (done || lia). done.
Qed.

(** * Executions of a pipe

    Any number of [read] and [write] calls are in progress on the two ends, each
    under the identifier of its thread; the write end has some number of strong
    references.  A step starts a call, runs one that is in progress from a
    resumption to its next suspension or its return, or changes the number of
    references.  The ghost fields [received] and [delivered] record the bytes
    that went into and came out of the ring, in order. *)

Record world := mkWorld {
  ring : PipeRingBuffer;
  writers : Z;
  reads : gmap nat reader;
  writes : gmap nat writer;
  received : list Z;
  delivered : list Z;
}.

Definition world_init : world := mkWorld (make_pipe.1.1) 1 ∅ ∅ [] [].

Inductive step : world -> world -> Prop :=
| StartRead w t ptrs rd :
    reads w !! t = None -> Z.of_nat (length ptrs) < 2 ^ 64 ->
    Pipe_read (p_readable make_pipe.1.2) (Z.of_nat (length ptrs)) ptrs = Ok rd ->
    step w (mkWorld (ring w) (writers w) (<[t := rd]> (reads w)) (writes w) (received w) (delivered w))
| StartWrite w t bytes wr :
    writes w !! t = None -> Z.of_nat (length bytes) < 2 ^ 64 ->
    Pipe_write (p_writable make_pipe.2) (Z.of_nat (length bytes)) bytes = Ok wr ->
    step w (mkWorld (ring w) (writers w) (reads w) (<[t := wr]> (writes w)) (received w) (delivered w))
| ReadSuspends w t rd r' rd' :
    reads w !! t = Some rd ->
    read_run run_fuel (writers w) (ring w) rd = Ok (Suspended, r', rd') ->
    step w (mkWorld r' (writers w) (<[t := rd']> (reads w)) (writes w) (received w)
              (delivered w ++ (drop (length (r_stored rd)) (r_stored rd')).*2))
| ReadReturns w t rd n r' rd' :
    reads w !! t = Some rd ->
    read_run run_fuel (writers w) (ring w) rd = Ok (Returned n, r', rd') ->
    step w (mkWorld r' (writers w) (delete t (reads w)) (writes w) (received w)
              (delivered w ++ (drop (length (r_stored rd)) (r_stored rd')).*2))
| WriteSuspends w t wr r' wr' :
    writes w !! t = Some wr ->
    write_run run_fuel (ring w) wr = Ok (Suspended, r', wr') ->
    step w (mkWorld r' (writers w) (reads w) (<[t := wr']> (writes w))
              (received w ++ take (length (w_iter wr) - length (w_iter wr')) (w_iter wr)) (delivered w))
| WriteReturns w t wr n r' wr' :
    writes w !! t = Some wr ->
    write_run run_fuel (ring w) wr = Ok (Returned n, r', wr') ->
    step w (mkWorld r' (writers w) (reads w) (delete t (writes w))
              (received w ++ take (length (w_iter wr) - length (w_iter wr')) (w_iter wr)) (delivered w))
| WriteEndRefs w k :
    0 <= k -> writers w <> 0 ->
    step w (mkWorld (ring w) k (reads w) (writes w) (received w) (delivered w)).

(** A call with an empty buffer. *)
Definition empty_reader : reader := mkReader 0 [] [] 0.
Definition empty_writer : writer := mkWriter 0 [] 0.

(** It has no use for a byte, or for room, that is there. *)
Lemma empty_read_run writers r :
  wf r -> read_run run_fuel writers r empty_reader =
    if available_read r =? 0 then Ok (if writers =? 0 then Returned 0 else Suspended, r, empty_reader) else Panic UnwrapNone.
Proof.
  intros Hw. unfold run_fuel. cbn [read_run]. destruct (Z.eqb_spec (available_read r) 0) as [|Hne].
  - unfold all_write_ends_closed. rewrite (wf_write_end r Hw). cbn. by destruct (writers =? 0).
  - pose proof (available_read_range r Hw). destruct (Z.to_nat (available_read r)) eqn:E; [lia|]. done.
Qed.

Lemma empty_write_run r :
  wf r -> write_run run_fuel r empty_writer = if available_write r =? 0 then Ok (Suspended, r, empty_writer) else Panic UnwrapNone.
Proof.
  intros Hw. unfold run_fuel. cbn [write_run]. destruct (Z.eqb_spec (available_write r) 0) as [|Hne]; [done|].
  pose proof (available_read_range r Hw). rewrite available_write_spec in * by done. destruct (Z.to_nat (32 - available_read r)) eqn:E; [lia|]. done.
Qed.

Definition reader_ok (rd : reader) : Prop := reader_inv rd \/ rd = empty_reader.
Definition writer_ok (wr : writer) : Prop := writer_inv wr \/ wr = empty_writer.

Record world_inv (w : world) : Prop := {
  inv_ring : wf (ring w);
  inv_reads : map_Forall (fun _ => reader_ok) (reads w);
  inv_writes : map_Forall (fun _ => writer_ok) (writes w);
  inv_fifo : received w = delivered w ++ contents (ring w);
}.

Lemma world_init_inv : world_inv world_init.
Proof. split; [apply new_ring_wf|apply map_Forall_empty|apply map_Forall_empty|done]. Qed.

Lemma stored_after k q rd :
  (k <= length (r_iter rd))%nat ->
  (drop (length (r_stored rd)) (r_stored (reader_after k q rd))).*2 = take k q.
Proof.
  intros Hk. simpl. rewrite drop_app_length, snd_zip; [done|].
  rewrite !length_take. lia.
Qed.

Lemma consumed_after k wr :
  (k <= length (w_iter wr))%nat ->
  take (length (w_iter wr) - length (w_iter (writer_after k wr))) (w_iter wr) = take k (w_iter wr).
Proof. intros Hk. simpl. rewrite length_drop. f_equal. lia. Qed.

(** A call that suspends has work left, so its invariant is kept. *)
Lemma reader_after_inv k q rd :
  reader_inv rd -> (k < length (r_iter rd))%nat -> (k <= length q)%nat ->
  reader_inv (reader_after k q rd).
Proof.
  intros [Hc Hl Hb _] Hk Hq. split; simpl.
  - rewrite length_app, length_zip, !length_take. lia.
  - rewrite length_drop. lia.
  - done.
  - intros E%(f_equal length). rewrite length_drop in E. simpl in E. lia.
Qed.

Lemma writer_after_inv k wr :
  writer_inv wr -> (k < length (w_iter wr))%nat -> writer_inv (writer_after k wr).
Proof.
  intros [Hc Hl Hb _] Hk. split; simpl.
  - lia.
  - rewrite length_drop. lia.
  - done.
  - intros E%(f_equal length). rewrite length_drop in E. simpl in E. lia.
Qed.

(** The FIFO equation across a read and a write. *)
Lemma fifo_read (ins outs q : list Z) (k : nat) : ins = outs ++ q -> ins = (outs ++ take k q) ++ drop k q.
Proof. intros ->. by rewrite <- app_assoc, take_drop. Qed.

Lemma read_run_inv w t rd o r' rd' :
  world_inv w -> reads w !! t = Some rd ->
  read_run run_fuel (writers w) (ring w) rd = Ok (o, r', rd') ->
  wf r' /\
  received w = (delivered w ++ (drop (length (r_stored rd)) (r_stored rd')).*2) ++ contents r' /\
  (o = Suspended -> reader_ok rd').
Proof.
  intros [Hw Hr Hwr Hf] Ht E. specialize (Hr t rd Ht). simpl in Hr. destruct Hr as [Hr| ->].
  2: { rewrite empty_read_run in E by done. destruct (_ =? 0); [|done]. injection E as <- <- <-. cbn. rewrite app_nil_r. split_and!; [done|done|by right]. }
  destruct (read_run_spec (writers w) (ring w) rd Hw Hr) as (r1 & E1 & Hw1 & Hq1).
  cbv zeta in E1, Hq1. rewrite E in E1. injection E1 as -> <- ->.
  rewrite stored_after by lia. split_and!; [done|rewrite Hq1; by apply fifo_read|].
  intros Ho. case_decide; [done|]. left. apply reader_after_inv; [done|lia|lia].
Qed.

Lemma write_run_inv w t wr o r' wr' :
  world_inv w -> writes w !! t = Some wr ->
  write_run run_fuel (ring w) wr = Ok (o, r', wr') ->
  wf r' /\
  received w ++ take (length (w_iter wr) - length (w_iter wr')) (w_iter wr) =
    delivered w ++ contents r' /\
  (o = Suspended -> writer_ok wr').
Proof.
  intros [Hw Hr Hwr Hf] Ht E. specialize (Hwr t wr Ht). simpl in Hwr. destruct Hwr as [Hwr| ->].
  2: { rewrite empty_write_run in E by done. destruct (_ =? 0); [|done]. injection E as <- <- <-. cbn. rewrite app_nil_r. split_and!; [done|done|by right]. }
  destruct (write_run_spec (ring w) wr Hw Hwr) as (r1 & E1 & Hw1 & Hq1).
  cbv zeta in E1, Hq1. rewrite E in E1. injection E1 as -> <- ->.
  rewrite consumed_after by lia. split_and!; [done|rewrite Hq1, Hf; by rewrite app_assoc|].
  intros Ho. case_decide; [done|]. left. apply writer_after_inv; [done|lia].
Qed.

Lemma step_inv w w' : step w w' -> world_inv w -> world_inv w'.
Proof.
  intros Hstep Hinv. pose proof Hinv as [Hw Hr Hwr Hf]. destruct Hstep as
    [w t ptrs rd Ht Hlen E|w t bytes wr Ht Hlen E|w t rd r' rd' Ht E|w t rd n r' rd' Ht E
    |w t wr r' wr' Ht E|w t wr n r' wr' Ht E|w k Hk Hne].
  - injection E as <-. split; [done| |done|done]. apply map_Forall_insert_2; [|done]. destruct ptrs; [by right|left; by split].
  - injection E as <-. split; [done|done| |done]. apply map_Forall_insert_2; [|done]. destruct bytes; [by right|left; by split].
  - destruct (read_run_inv w t rd _ r' rd' Hinv Ht E) as (? & ? & Hi). split; [done| |done|done].
    apply map_Forall_insert_2; [by apply Hi|done].
  - destruct (read_run_inv w t rd _ r' rd' Hinv Ht E) as (? & ? & _). split; [done| |done|done].
    by apply map_Forall_delete.
  - destruct (write_run_inv w t wr _ r' wr' Hinv Ht E) as (? & ? & Hi). split; [done|done| |done].
    apply map_Forall_insert_2; [by apply Hi|done].
  - destruct (write_run_inv w t wr _ r' wr' Hinv Ht E) as (? & ? & _). split; [done|done| |done].
    by apply map_Forall_delete.
  - by split.
Qed.

Lemma pipe_reachable_inv w : rtc step world_init w -> world_inv w.
Proof.
  intros H. remember world_init as w0 eqn:E0.
  assert (world_inv w0) as H0 by (subst; apply world_init_inv). clear E0.
  induction H as [|w1 w2 w3 Hs _ IH]; [done|]. apply IH. by apply (step_inv w1).
Qed.

(** C28: In every execution of a pipe, with any number of readers and writers
    interleaved at their suspension points, the bytes delivered so far followed
    by the bytes in the ring are exactly the bytes received, in the order they
    were received, and the ring never holds more than 32.  No call with a non-empty
    buffer panics when it is resumed.  A call with an empty buffer moves nothing; it
    panics exactly when it is resumed and finds a byte to read, or room to write. *)
Theorem pipe_is_fifo w :
  rtc step world_init w ->
  received w = delivered w ++ contents (ring w) /\
  (length (contents (ring w)) <= 32)%nat /\
  (forall t rd, reads w !! t = Some rd ->
     if decide (r_buf_len rd = 0)
     then read_run run_fuel (writers w) (ring w) rd =
       (if decide (contents (ring w) = []) then Ok (if writers w =? 0 then Returned 0 else Suspended, ring w, rd) else Panic UnwrapNone)
     else exists o r' rd', read_run run_fuel (writers w) (ring w) rd = Ok (o, r', rd')) /\
  (forall t wr, writes w !! t = Some wr ->
     if decide (w_buf_len wr = 0)
     then write_run run_fuel (ring w) wr =
       (if decide (length (contents (ring w)) = 32%nat) then Ok (Suspended, ring w, wr) else Panic UnwrapNone)
     else exists o r' wr', write_run run_fuel (ring w) wr = Ok (o, r', wr')).
Proof.
  intros H%pipe_reachable_inv. destruct H as [Hw Hr Hwr Hf]. pose proof (length_contents (ring w)) as Hlen. pose proof (available_read_range _ Hw) as Hav. split_and!.
  - done.
  - lia.
  - intros t rd Ht. destruct (Hr t rd Ht) as [Hi| ->].
    + rewrite decide_False; [destruct (read_run_spec (writers w) (ring w) rd Hw Hi) as (r1 & E1 & _); eauto|].
      destruct Hi as [H1 H2 _ H4]. destruct (r_iter rd); [done|cbn in H2; lia].
    + rewrite decide_True, empty_read_run by done. destruct (Z.eqb_spec (available_read (ring w)) 0) as [E|E].
      * rewrite decide_True; [done|]. apply nil_length_inv. lia.
      * rewrite decide_False; [done|]. intros Hc. rewrite Hc in Hlen. cbn in Hlen. lia.
  - intros t wr Ht. destruct (Hwr t wr Ht) as [Hi| ->].
    + rewrite decide_False; [destruct (write_run_spec (ring w) wr Hw Hi) as (r1 & E1 & _); eauto|].
      destruct Hi as [H1 H2 _ H4]. destruct (w_iter wr); [done|cbn in H2; lia].
    + rewrite decide_True, empty_write_run, available_write_spec by done. destruct (Z.eqb_spec (32 - available_read (ring w)) 0) as [E|E].
      * rewrite decide_True by lia. done.
      * rewrite decide_False by lia. done.
Qed.

(** One writer of 40 bytes, resumed once: the ring is full, 8 bytes are left. *)
Definition demo_bytes : list Z := seqZ 1 40.

Lemma pipe_is_fifo_witness :
  exists w, rtc step world_init w /\ contents (ring w) = seqZ 1 32 /\
    received w = delivered w ++ contents (ring w).
Proof.
  pose (wr := mkWriter 40 demo_bytes 0).
  pose (w1 := mkWorld (ring world_init) 1 ∅ {[0%nat := wr]} [] []).
  pose (r2 := match write_run run_fuel (ring world_init) wr with
              | Ok (_, r', _) => r' | _ => ring world_init end).
  pose (wr2 := writer_after 32 wr).
  pose (w2 := mkWorld r2 1 ∅ (<[0%nat := wr2]> (writes w1)) ([] ++ take 32 demo_bytes) []).
  assert (H : rtc step world_init w2).
  { eapply rtc_l.
    - apply (StartWrite world_init 0%nat demo_bytes wr); [done|by vm_compute|done].
    - eapply rtc_l; [|apply rtc_refl].
      apply (WriteSuspends w1 0%nat wr r2 wr2); [done|by vm_compute]. }
  exists w2. split_and!; [exact H|by vm_compute|apply (pipe_is_fifo w2 H)].
Defined.

(** * A transfer completes *)

(** The scheduler alternates the two threads: the writer of [bytes] and the
    reader into [ptrs] each run to their next suspension or their return. *)
Fixpoint transfer (fuel : nat) (r : PipeRingBuffer) (wr : option writer) (rd : reader)
  : res (Z * list ((Z * Z) * Z) * PipeRingBuffer) :=
  match fuel with
  | O => Panic OutOfFuel
  | S fuel' =>
      '(wr', r1) ← match wr with
        | Some w =>
            '(o, r', w') ← write_run run_fuel r w;
            Ok (match o with Returned _ => None | Suspended => Some w' end, r')
        | None => Ok (None, r)
        end;
      '(o, r2, rd') ← read_run run_fuel 1 r1 rd;
      match o with
      | Returned n => Ok (n, r_stored rd', r2)
      | Suspended => transfer fuel' r2 wr' rd'
      end
  end.

(** With an empty ring and as many bytes to write as to read, each round moves 32
    bytes or finishes. *)
Lemma transfer_spec fuel r wr rd :
  wf r -> contents r = [] -> writer_inv wr -> reader_inv rd ->
  length (w_iter wr) = length (r_iter rd) ->
  (length (r_iter rd) <= 32 * fuel)%nat ->
  exists r', transfer fuel r (Some wr) rd =
    Ok (r_buf_len rd, r_stored rd ++ zip (r_iter rd) (w_iter wr), r') /\ wf r' /\ contents r' = [].
Proof.
  revert r wr rd. induction fuel as [|fuel IH]; intros r wr rd Hw Hc Hwi Hri Hlen Hf.
  { destruct Hri as [_ _ _ Hm]. destruct (r_iter rd); [done|simpl in Hf; lia]. }
  cbn [transfer].
  destruct (write_run_spec r wr Hw Hwi) as (r1 & E1 & Hw1 & Hq1). cbv zeta in E1, Hq1.
  rewrite E1. clear E1. cbn [mbind res_bind]. rewrite Hc in *. simpl length in *. rewrite Nat.sub_0_r in *. rewrite app_nil_l in Hq1.
  set (k := (32 `min` length (w_iter wr))%nat) in *.
  destruct (read_run_spec 1 r1 rd Hw1 Hri) as (r2 & E2 & Hw2 & Hq2). cbv zeta in E2, Hq2.
  rewrite E2. clear E2. cbn [mbind res_bind]. rewrite Hq1, length_take in *.
  replace ((k `min` length (w_iter wr)) `min` length (r_iter rd))%nat with k in * by lia.
  assert (contents r2 = []) as Hc2 by (rewrite Hq2; apply drop_ge; rewrite length_take; lia).
  destruct (decide (k = length (r_iter rd))) as [Hk|Hk].
  - exists r2. split_and!; [|done|done]. simpl. rewrite take_take, Nat.min_id.
    rewrite !take_ge by lia. done.
  - simpl. rewrite decide_False by lia. pose proof Hwi as [? ? ? _]. pose proof Hri as [? ? ? _].
    destruct (IH r2 (writer_after k wr) (reader_after k (take k (w_iter wr)) rd)) as (r3 & E3 & ? & ?).
    + done.
    + done.
    + apply writer_after_inv; [done|lia].
    + apply reader_after_inv; [done|lia|rewrite length_take; lia].
    + simpl. rewrite !length_drop. lia.
    + simpl. rewrite length_drop. lia.
    + exists r3. rewrite E3. split_and!; [|done|done]. simpl. rewrite <- app_assoc. do 4 f_equal.
      rewrite take_take, Nat.min_id.
      rewrite <- zip_with_app by (rewrite !length_take; lia). by rewrite !take_drop.
Qed.

(** C39: A [write] of any number [n > 0] of bytes and a [read] into a buffer of [n]
    bytes, scheduled alternately on an empty pipe, both finish within
    [n / 32 + 1] rounds: the read returns [n], it has stored the written bytes
    at the successive addresses of its buffer, and the pipe is empty again. *)
Theorem transfer_completes bytes ptrs wr rd :
  bytes <> [] -> length ptrs = length bytes -> Z.of_nat (length bytes) < 2 ^ 64 ->
  Pipe_write (p_writable make_pipe.2) (Z.of_nat (length bytes)) bytes = Ok wr ->
  Pipe_read (p_readable make_pipe.1.2) (Z.of_nat (length ptrs)) ptrs = Ok rd ->
  exists r', transfer (length bytes / 32 + 1) make_pipe.1.1 (Some wr) rd =
    Ok (Z.of_nat (length bytes), zip ptrs bytes, r') /\ contents r' = [].
Proof.
  intros Hne Hlen Hb [= <-] [= <-]. rewrite Hlen.
  assert (ptrs <> []) as Hp by (intros ->; by destruct bytes).
  destruct (transfer_spec (length bytes / 32 + 1) make_pipe.1.1
    (mkWriter (Z.of_nat (length bytes)) bytes 0)
    (mkReader (Z.of_nat (length bytes)) ptrs [] 0)) as (r' & E & _ & Hc).
  - apply new_ring_wf.
  - done.
  - by split.
  - split; simpl; [done|lia|done|done].
  - done.
  - cbn [r_iter]. rewrite Hlen. pose proof (Nat.div_mod_eq (length bytes) 32).
    pose proof (Nat.mod_upper_bound (length bytes) 32). lia.
  - exists r'. by split.
Qed.

Lemma transfer_completes_witness :
  exists r', transfer 2 make_pipe.1.1 (Some (mkWriter 40 demo_bytes 0))
      (mkReader 40 ((fun i => (0, i)) <$> seqZ 0 40) [] 0) =
    Ok (40, zip ((fun i => (0, i)) <$> seqZ 0 40) demo_bytes, r') /\ contents r' = [].
Proof.
  apply (transfer_completes demo_bytes ((fun i => (0, i)) <$> seqZ 0 40)); try reflexivity; done.
Defined.

(** Once every reference to the write end is gone, a [read] never waits: when
    resumed it drains what it can and returns the number of bytes it has stored
    in all, which is 0 for a new call on an empty pipe. *)
Theorem read_after_close r rd :
  wf r -> reader_inv rd ->
  exists r' rd',
    read_run run_fuel 0 r rd = Ok (Returned (Z.of_nat (length (r_stored rd'))), r', rd') /\
    (r_stored rd').*2 = (r_stored rd).*2 ++ take (length (r_iter rd)) (contents r) /\
    contents r' = drop (length (r_iter rd)) (contents r).
Proof.
  intros Hw Hi. destruct (read_run_spec 0 r rd Hw Hi) as (r1 & E1 & Hw1 & Hq1).
  cbv zeta in E1, Hq1. set (k := (_ `min` _)%nat) in *.
  exists r1, (reader_after k (contents r) rd). pose proof Hi as [Hc Hl Hb Hm].
  assert (Hsl : Z.of_nat (length (r_stored (reader_after k (contents r) rd))) =
                already_read rd + Z.of_nat k).
  { simpl. rewrite length_app, length_zip, !length_take. lia. }
  split_and!.
  - rewrite Hsl, E1. case_decide; simpl; repeat f_equal; lia.
  - simpl. rewrite fmap_app, snd_zip by (rewrite !length_take; lia). f_equal.
    unfold k. by rewrite Nat.min_comm, <- take_take, firstn_all.
  - rewrite Hq1. unfold k. destruct (decide (length (r_iter rd) <= length (contents r))%nat).
    + f_equal. lia.
    + rewrite !drop_ge; [done|lia|lia].
Qed.

Lemma read_after_close_witness :
  exists r' rd',
    read_run run_fuel 0 make_pipe.1.1 (mkReader 1 [(0, 0)] [] 0) =
      Ok (Returned (Z.of_nat (length (r_stored rd'))), r', rd') /\
    (r_stored rd').*2 = [] /\ contents r' = [].
Proof.
  apply (read_after_close make_pipe.1.1 (mkReader 1 [(0, 0)] [] 0)).
  - apply new_ring_wf.
  - by split.
Defined.

(** A [read] or a [write] with an empty user buffer does not return 0: the
    iterator is unwrapped before the length is compared, so a read on a
    non-empty pipe and a write on a pipe that is not full panic. *)
Theorem empty_buffer_panics r writers :
  wf r ->
  (contents r <> [] -> read_run run_fuel writers r (mkReader 0 [] [] 0) = Panic UnwrapNone) /\
  ((length (contents r) < 32)%nat ->
     write_run run_fuel r (mkWriter 0 [] 0) = Panic UnwrapNone).
Proof.
  intros Hw. pose proof (length_contents r) as Hl. pose proof (available_read_range r Hw) as Hr.
  unfold run_fuel. cbn [read_run write_run]. rewrite available_write_spec by done. split.
  - intros Hc. assert (length (contents r) <> 0%nat) by (by destruct (contents r)).
    rewrite (proj2 (Z.eqb_neq _ _)) by lia.
    by destruct (Z.to_nat (available_read r)) eqn:E; [lia|].
  - intros Hc. rewrite (proj2 (Z.eqb_neq _ _)) by lia.
    by destruct (Z.to_nat (32 - available_read r)) eqn:E; [lia|].
Qed.

Lemma empty_buffer_panics_witness :
  (contents make_pipe.1.1 <> [] ->
     read_run run_fuel 1 make_pipe.1.1 (mkReader 0 [] [] 0) = Panic UnwrapNone) /\
  ((length (contents make_pipe.1.1) < 32)%nat ->
     write_run run_fuel make_pipe.1.1 (mkWriter 0 [] 0) = Panic UnwrapNone).
Proof. apply (empty_buffer_panics make_pipe.1.1 1). apply new_ring_wf. Defined.
