(* ===== verification/BlockCache.v ===== *)
(** The block cache of the file system: easy-fs/src/block_cache.rs and
    easy-fs/src/block_dev.rs, with the device of easy-fs-fuse/src/main.rs.

    The code above the cache never holds more of it than guards: every access is
    [get_block_cache(id, dev).lock().read(off, f)] or [.modify(off, f)], whose
    handle and lock live for the duration of [f], and [f] may make further
    accesses.  Those clients are programs of the type [io]: a tree of the lock
    acquisitions and releases the code makes.  [crun] runs such a program on the
    cache manager and a device; [lrun] runs it on a plain array of blocks.  The
    refinement theorem relates the two, so the components above are verified on
    [lrun] alone. *)

From S2P Require Import Prelude.

Definition BLOCK_SZ : Z := 512.

(** ** The [BlockDevice] trait *)

Class BlockDevice (D : Type) := {
  read_block : D -> Z -> list Z -> res (list Z);
  write_block : D -> Z -> list Z -> res D;
}.

(** What a device promises: it stores blocks of [BLOCK_SZ] bytes. *)
Class BlockDeviceLaws (D : Type) `{BlockDevice D} := {
  dev_rep : D -> gmap Z (list Z) -> Prop;
  dev_len : forall d M id b, dev_rep d M -> M !! id = Some b -> length b = 512%nat;
  dev_read : forall d M id b buf, dev_rep d M -> M !! id = Some b -> length buf = 512%nat ->
    read_block d id buf = Ok b;
  dev_write : forall d M id b, dev_rep d M -> is_Some (M !! id) -> length b = 512%nat ->
    exists d', write_block d id b = Ok d' /\ dev_rep d' (<[id := b]> M);
}.

(** ** [BlockCache] *)

Record BlockCache := mkCache {
  cache : list Z;
  disk_id : Z;
  modified : bool;
}.

Section Cache.
Context {D : Type} `{BlockDevice D}.

Definition BlockCache_new (id : Z) (d : D) : res BlockCache :=
  c ← read_block d id (replicate 512 0);
  Ok (mkCache c id false).

Definition sync (d : D) (c : BlockCache) : res (BlockCache * D) :=
  if c.(modified) then
    d' ← write_block d c.(disk_id) c.(cache);
    Ok (mkCache c.(cache) c.(disk_id) false, d')
  else Ok (c, d).

(** [Drop for BlockCache] *)
Definition drop_cache (d : D) (c : BlockCache) : res D :=
  '(_, d') ← sync d c; Ok d'.

(** ** [BlockCacheManager]

    [held] lists the ids whose handle and lock are alive; the queue owns one more
    reference to each cache, so its strong count is 1 exactly when no handle is
    alive. *)

Record store := mkStore {
  queue : list (Z * BlockCache);
  held : list Z;
  dev : D;
}.

Definition BLOCK_CACHE_SIZE : Z := 16.

Definition BlockCacheManager_new (d : D) : store := mkStore [] [] d.

Definition strong_count (H : list Z) (id : Z) : Z :=
  1 + Z.of_nat (length (filter (fun i => i = id) H)).

(** Makes room for one more cache. *)
Definition evict (s : store) : res store :=
  if Z.of_nat (length s.(queue)) =? BLOCK_CACHE_SIZE then
    match find_index (fun p => strong_count s.(held) p.1 =? 1) s.(queue) with
    | Some i =>
        c ← index s.(queue) (Z.of_nat i);
        d' ← drop_cache s.(dev) c.2;
        Ok (mkStore (delete i s.(queue)) s.(held) d')
    | None => Panic PanicCall
    end
  else Ok s.

(** Returns the position of the cache in the queue. *)
Definition get_block_cache (id : Z) (s : store) : res (nat * store) :=
  match find_index (fun p => p.1 =? id) s.(queue) with
  | Some i => Ok (i, s)
  | None =>
      s1 ← evict s;
      c ← BlockCache_new id s1.(dev);
      Ok (length s1.(queue), mkStore (s1.(queue) ++ [(id, c)]) s1.(held) s1.(dev))
  end.

(** [get_block_cache(id, dev).lock()]: the bytes behind the guard.  A cache whose
    lock is taken by this thread is never unlocked: the spin lock deadlocks. *)
Definition acquire (id : Z) : ST store (list Z) := fun s =>
  '(i, s1) ← get_block_cache id s;
  if decide (id ∈ s1.(held)) then Panic Deadlock
  else
    p ← index s1.(queue) (Z.of_nat i);
    Ok (p.2.(cache), mkStore s1.(queue) (id :: s1.(held)) s1.(dev)).

(** The guard and the handle are dropped.  [upd] is what the closure given to
    [modify] left in the block; it is [None] after [read].  No one else sees the
    block between [acquire] and [release]. *)
Definition put_back (upd : option (list Z)) (p : Z * BlockCache) : Z * BlockCache :=
  match upd with
  | Some b => (p.1, mkCache b p.2.(disk_id) true)
  | None => p
  end.

Definition release (id : Z) (upd : option (list Z)) : ST store unit := fun s =>
  i ← unwrap (find_index (fun p => p.1 =? id) s.(queue));
  Ok (tt, mkStore (alter (put_back upd) i s.(queue)) (filter (fun x => x <> id) s.(held)) s.(dev)).

Fixpoint sync_loop (H : list Z) (q : list (Z * BlockCache)) (d : D)
  : res (list (Z * BlockCache) * D) :=
  match q with
  | [] => Ok ([], d)
  | (id, c) :: q' =>
      if decide (id ∈ H) then Panic Deadlock
      else
        '(c', d1) ← sync d c;
        '(q'', d2) ← sync_loop H q' d1;
        Ok ((id, c') :: q'', d2)
  end.

Definition block_cache_sync_all : ST store unit := fun s =>
  '(q, d) ← sync_loop s.(held) s.(queue) s.(dev);
  Ok (tt, mkStore q s.(held) d).

End Cache.
Arguments store D : clear implicits.

(** ** Programs over the cache *)

Inductive io (A : Type) : Type :=
| Ret (a : A)
| Fault (f : fault)
| Acquire (id : Z) (k : list Z -> io A)
| Release (id : Z) (upd : option (list Z)) (k : io A)
| SyncAll (k : io A).
Arguments Ret {A} a.
Arguments Fault {A} f.
Arguments Acquire {A} id k.
Arguments Release {A} id upd k.
Arguments SyncAll {A} k.

Fixpoint io_bind_ {A B} (k : A -> io B) (m : io A) : io B :=
  match m with
  | Ret a => k a
  | Fault f => Fault f
  | Acquire id c => Acquire id (fun b => io_bind_ k (c b))
  | Release id upd c => Release id upd (io_bind_ k c)
  | SyncAll c => SyncAll (io_bind_ k c)
  end.

#[global] Instance io_ret : MRet io := fun A a => Ret a.
#[global] Instance io_bind : MBind io := fun A B k m => io_bind_ k m.

Definition io_res {A} (r : res A) : io A :=
  match r with Ok a => Ret a | Panic f => Fault f end.
Definition io_assert (b : bool) : io unit := io_res (rassert b).
Definition io_sync : io unit := SyncAll (Ret tt).

(** [for x in l { body }] threading a value. *)
Fixpoint io_fold {A S} (l : list A) (body : S -> A -> io S) (s : S) : io S :=
  match l with
  | [] => mret s
  | x :: l' => s' ← body s x; io_fold l' body s'
  end.

(** Types that a block holds at an offset: [size_of], and the bytes. *)
Record layout (T : Type) := mkLayout {
  size_of : Z;
  decode : list Z -> T;
  encode : T -> list Z;
}.
Arguments mkLayout {T}.
Arguments size_of {T}.
Arguments decode {T}.
Arguments encode {T}.

(** [type DataBlock = [u8; BLOCK_SZ]] *)
Definition DataBlock : layout (list Z) :=
  mkLayout BLOCK_SZ (fun bs => bs) (fun bs => bs).

(** The bytes from [off], and a block with the bytes [v] stored at [off]. *)
Definition bytes_at (off n : Z) (b : list Z) : list Z :=
  take (Z.to_nat n) (drop (Z.to_nat off) b).
Definition splice (off : Z) (v b : list Z) : list Z :=
  take (Z.to_nat off) b ++ v ++ drop (Z.to_nat off + length v) b.

Section Access.
Context {T : Type} (l : layout T).

Definition get_ref (offset : Z) (b : list Z) : res T :=
  _ ← rassert (uadd offset (size_of l) <=? BLOCK_SZ);
  Ok (decode l (bytes_at offset (size_of l) b)).

(** [get_block_cache(id, dev).lock().read(offset, f)] *)
Definition read {V} (id offset : Z) (f : T -> io V) : io V :=
  Acquire id (fun b =>
    t ← io_res (get_ref offset b);
    v ← f t;
    Release id None (Ret v)).

(** [get_block_cache(id, dev).lock().modify(offset, f)]; [f] returns its value and
    what it left in the referenced place. *)
Definition modify {V} (id offset : Z) (f : T -> io (V * T)) : io V :=
  Acquire id (fun b =>
    t ← io_res (get_ref offset b);
    '(v, t') ← f t;
    Release id (Some (splice offset (encode l t') b)) (Ret v)).
End Access.

(** ** The two interpretations *)

Fixpoint crun {D} `{BlockDevice D} {A} (p : io A) : ST (store D) A :=
  match p with
  | Ret a => mret a
  | Fault f => panic f
  | Acquire id k => fun s => match acquire id s with
                             | Ok (b, s') => crun (k b) s'
                             | Panic f => Panic f
                             end
  | Release id upd k => fun s => match release id upd s with
                                 | Ok (_, s') => crun k s'
                                 | Panic f => Panic f
                                 end
  | SyncAll k => fun s => match block_cache_sync_all s with
                          | Ok (_, s') => crun k s'
                          | Panic f => Panic f
                          end
  end.

Definition full_block (upd : option (list Z)) : bool :=
  match upd with Some b => (length b =? 512)%nat | None => true end.

(** The reference: an array of blocks [L] and the ids [H] that are locked.  It is
    silent ([UndefinedBehaviour]) on what depends on the device or on the
    history of the cache: an id the device does not have, and a seventeenth lock;
    and on a store of something else than 512 bytes in a block. *)
Fixpoint lrun {A} (p : io A) (L : gmap Z (list Z)) (H : list Z)
  : res (A * gmap Z (list Z) * list Z) :=
  match p with
  | Ret a => Ok (a, L, H)
  | Fault f => Panic f
  | Acquire id k =>
      match L !! id with
      | None => Panic UndefinedBehaviour
      | Some b =>
          if decide (id ∈ H) then Panic Deadlock
          else if Z.of_nat (length H) <? 16 then lrun (k b) L (id :: H)
          else Panic UndefinedBehaviour
      end
  | Release id upd k =>
      if bool_decide (id ∈ H) && full_block upd then
        lrun k (match upd with Some b => <[id := b]> L | None => L end) (filter (fun x => x <> id) H)
      else Panic UndefinedBehaviour
  | SyncAll k =>
      match H with [] => lrun k L H | _ => Panic UndefinedBehaviour end
  end.

(** * The refinement *)

Section Refinement.
Context {D : Type} {BD : BlockDevice D} {HD : BlockDeviceLaws D}.

(** The queue [q] and the device contents [M] together hold the blocks [L]. *)
Record coherent (q : list (Z * BlockCache)) (M L : gmap Z (list Z)) : Prop := {
  co_nodup : NoDup q.*1;
  co_dom : dom M = dom L;
  co_len : map_Forall (fun _ b => length b = 512%nat) L;
  co_in : forall id c, (id, c) ∈ q ->
    disk_id c = id /\ L !! id = Some (cache c) /\ (modified c = false -> M !! id = Some (cache c));
  co_out : forall id b, L !! id = Some b -> id ∉ q.*1 -> M !! id = Some b;
}.

Record rep (s : store D) (L : gmap Z (list Z)) (H : list Z) : Prop := {
  rep_held : held s = H;
  rep_nodup : NoDup H;
  rep_size : (length (queue s) <= 16)%nat;
  rep_pinned : forall id, id ∈ H -> id ∈ (queue s).*1;
  rep_co : exists M, dev_rep (dev s) M /\ coherent (queue s) M L;
}.

Lemma sync_coherent d M L q1 q2 id c :
  dev_rep d M -> coherent (q1 ++ (id, c) :: q2) M L ->
  exists c' d' M', sync d c = Ok (c', d') /\ dev_rep d' M' /\
    coherent (q1 ++ (id, c') :: q2) M' L /\ M' !! id = L !! id /\ modified c' = false.
Proof.
  intros Hd [Hnd Hdom Hlen Hin Hout].
  destruct (Hin id c) as (Hid & HL & Hm); [set_solver|].
  unfold sync. destruct (modified c) eqn:Em.
  - destruct (dev_write d M id (cache c) Hd) as (d' & E & Hd').
    { apply elem_of_dom. rewrite Hdom. by apply elem_of_dom. }
    { by apply (Hlen id). }
    rewrite Hid, E. simpl. eexists _, d', _. split_and!; [done|exact Hd'| | |done].
    2: { by rewrite lookup_insert_eq, HL. }
    split; [|..|].
    + rewrite fmap_app in *. done.
    + rewrite dom_insert_L, Hdom. apply elem_of_dom_2 in HL. set_solver.
    + done.
    + intros id' c' [Hc|[[= -> ->]|Hc]%elem_of_cons]%elem_of_app; simpl.
      * destruct (Hin id' c') as (? & ? & ?); [set_solver|]. split_and!; [done|done|].
        rewrite lookup_insert_ne; [done|]. intros <-. rewrite fmap_app, fmap_cons in Hnd.
        apply NoDup_app in Hnd as (_ & Hdisj & _). apply (Hdisj id); [|set_solver].
        by apply (list_elem_of_fmap_2' fst q1 (id, c')).
      * split_and!; [done|done|]. by rewrite lookup_insert_eq.
      * destruct (Hin id' c') as (? & ? & ?); [set_solver|]. split_and!; [done|done|].
        rewrite lookup_insert_ne; [done|]. intros <-. rewrite fmap_app, fmap_cons in Hnd.
        apply NoDup_app in Hnd as (_ & _ & [Hni _]%NoDup_cons). apply Hni.
        by apply (list_elem_of_fmap_2' fst q2 (id, c')).
    + intros id' b Hb Hni. rewrite lookup_insert_ne; [|intros <-; apply Hni].
      * apply Hout; [done|]. rewrite !fmap_app, !fmap_cons in *. done.
      * rewrite fmap_app, fmap_cons. set_solver.
  - exists c, d, M. split_and!; [done|done|by split| |done]. by rewrite Hm, HL.
Qed.

Lemma drop_coherent M L q1 q2 id c :
  coherent (q1 ++ (id, c) :: q2) M L -> M !! id = L !! id -> coherent (q1 ++ q2) M L.
Proof.
  intros [Hnd Hdom Hlen Hin Hout] HM. rewrite fmap_app, fmap_cons in Hnd. split.
  - rewrite fmap_app. apply NoDup_app in Hnd as (? & Hd & [? ?]%NoDup_cons).
    apply NoDup_app. set_solver.
  - done.
  - done.
  - intros id' c' Hc. apply Hin. set_solver.
  - intros id' b Hb Hni. destruct (decide (id' = id)) as [->|]; [by rewrite HM|].
    apply Hout; [done|]. rewrite fmap_app, fmap_cons. rewrite fmap_app in Hni. set_solver.
Qed.

Lemma load_coherent M L q id b :
  coherent q M L -> L !! id = Some b -> id ∉ q.*1 ->
  coherent (q ++ [(id, mkCache b id false)]) M L.
Proof.
  intros [Hnd Hdom Hlen Hin Hout] HL Hni. split.
  - rewrite fmap_app. apply NoDup_app. split_and!; [done|set_solver|apply NoDup_singleton].
  - done.
  - done.
  - intros id' c' [Hc|[= -> ->]%list_elem_of_singleton]%elem_of_app; [by apply Hin|].
    simpl. split_and!; [done|done|]. intros _. by apply Hout.
  - intros id' b' Hb Hni'. apply Hout; [done|]. rewrite fmap_app in Hni'. set_solver.
Qed.

Lemma sync_loop_coherent q1 q2 d M L :
  dev_rep d M -> coherent (q1 ++ q2) M L ->
  exists q2' d' M', sync_loop [] q2 d = Ok (q2', d') /\ dev_rep d' M' /\
    coherent (q1 ++ q2') M' L /\ q2'.*1 = q2.*1 /\ Forall (fun p => modified p.2 = false) q2'.
Proof.
  revert q1 d M. induction q2 as [|[id c] q2 IH]; intros q1 d M Hd Hco.
  - exists [], d, M. by split_and!.
  - cbn [sync_loop]. rewrite decide_False by set_solver.
    destruct (sync_coherent d M L q1 q2 id c Hd Hco) as (c' & d1 & M1 & E1 & Hd1 & Hco1 & _ & Hm).
    rewrite E1. simpl. rewrite cons_middle, app_assoc in Hco1.
    destruct (IH _ d1 M1 Hd1 Hco1) as (q2' & d2 & M2 & E2 & Hd2 & Hco2 & Hk & Hf).
    rewrite E2. simpl. eexists _, d2, M2. split_and!; [done|done| | |].
    + by rewrite <- app_assoc in Hco2.
    + by rewrite !fmap_cons, Hk.
    + by constructor.
Qed.

Lemma strong_count_1 H id : (strong_count H id =? 1) = true <-> id ∉ H.
Proof.
  unfold strong_count. rewrite Z.eqb_eq. split.
  - intros Hl Hin. assert (id ∈ filter (fun i => i = id) H) as Hf by (by apply list_elem_of_filter).
    destruct (filter _ H); [by apply elem_of_nil in Hf|simpl in Hl; lia].
  - intros Hni. assert (filter (fun i => i = id) H = []) as ->; [|done].
    apply elem_of_nil_inv. intros x [-> ?]%list_elem_of_filter. done.
Qed.

(** Fewer locked ids than queue entries: one of the entries can go. *)
Lemma some_evictable (q : list (Z * BlockCache)) (H : list Z) :
  NoDup q.*1 -> (length H < length q)%nat ->
  exists i, find_index (fun p => strong_count H p.1 =? 1) q = Some i.
Proof.
  intros Hnd Hlt. destruct (find_index _ q) as [i|] eqn:E; [by exists i|].
  apply find_index_None in E. exfalso.
  assert (length q.*1 <= length H)%nat; [|rewrite length_fmap in *; lia].
  apply submseteq_length, NoDup_submseteq; [done|].
  intros id ((id', c) & -> & Hc)%list_elem_of_fmap. rewrite Forall_forall in E.
  specialize (E _ Hc). simpl. destruct (decide (id' ∈ H)) as [|Hn]; [done|].
  apply strong_count_1 in Hn. simpl in E. congruence.
Qed.

Lemma evict_spec (s : store D) L H :
  rep s L H -> (length H < 16)%nat ->
  exists s', evict s = Ok s' /\ rep s' L H /\ (length (queue s') < 16)%nat /\
    (forall id, id ∈ (queue s').*1 -> id ∈ (queue s).*1).
Proof.
  intros [Hh Hnd Hsz Hp (M & Hd & Hco)] HH. unfold evict, BLOCK_CACHE_SIZE.
  destruct (_ =? _) eqn:E; bool_to_Prop.
  2: { exists s. split_and!; [done|by split; eauto|lia|done]. }
  destruct (some_evictable (queue s) H (co_nodup _ _ _ Hco) ltac:(lia)) as [i Ei].
  rewrite Hh, Ei. apply find_index_Some in Ei as ([id c] & Hi & Hsc & _).
  unfold index. rewrite decide_True, Nat2Z.id, Hi by lia. cbn [mbind res_bind snd].
  rewrite <- (take_drop_middle _ _ _ Hi) in Hco.
  destruct (sync_coherent _ _ _ _ _ _ _ Hd Hco) as (c' & d' & M' & Es & Hd' & Hco' & HM & _).
  unfold drop_cache. rewrite Es. cbn [mbind res_bind].
  eexists. split_and!; [done| | |].
  - assert (delete i (queue s) = take i (queue s) ++ drop (S i) (queue s)) as Hdel
      by apply delete_take_drop.
    split; simpl; [done|done| | |].
    + rewrite length_delete by eauto. lia.
    + intros x Hx. pose proof (Hp x Hx) as Hx'.
      rewrite <- (take_drop_middle _ _ _ Hi) in Hx'. rewrite Hdel.
      rewrite fmap_app, fmap_cons in Hx'. rewrite fmap_app. simpl in Hx', Hsc.
      apply strong_count_1 in Hsc. set_solver.
    + exists M'. split; [done|]. rewrite Hdel. by eapply drop_coherent.
  - simpl. rewrite length_delete by eauto. lia.
  - simpl. intros x Hx. rewrite list_elem_of_fmap in Hx. destruct Hx as (p & -> & Hx).
    apply list_elem_of_fmap_2. rewrite list_elem_of_lookup in Hx. destruct Hx as [k Hk].
    rewrite delete_take_drop in Hk. apply list_elem_of_lookup_2 in Hk.
    rewrite <- (take_drop_middle _ _ _ Hi). set_solver.
Qed.

Lemma find_entry (q : list (Z * BlockCache)) id c :
  NoDup q.*1 -> (id, c) ∈ q ->
  exists i, find_index (fun p => p.1 =? id) q = Some i /\ q !! i = Some (id, c).
Proof.
  intros Hnd Hin. destruct (find_index _ q) as [i|] eqn:E.
  - apply find_index_Some in E as ([id' c'] & Hi & Heq & _). simpl in Heq. bool_to_Prop. subst id'.
    exists i. split; [done|]. apply list_elem_of_lookup in Hin as [j Hj].
    assert (i = j) as ->; [|done]. apply (NoDup_lookup q.*1 i j id Hnd).
    + by rewrite list_lookup_fmap, Hi.
    + by rewrite list_lookup_fmap, Hj.
  - apply find_index_None in E. rewrite Forall_forall in E. specialize (E _ Hin). simpl in E.
    bool_to_Prop. done.
Qed.

Lemma find_no_entry (q : list (Z * BlockCache)) id :
  find_index (fun p => p.1 =? id) q = None -> id ∉ q.*1.
Proof.
  intros E%find_index_None ((id' & c) & -> & Hc)%list_elem_of_fmap.
  rewrite Forall_forall in E. specialize (E _ Hc). simpl in E. bool_to_Prop. done.
Qed.

Lemma get_block_cache_spec (s : store D) L H id b :
  rep s L H -> L !! id = Some b -> (length H < 16)%nat ->
  exists i s' c, get_block_cache id s = Ok (i, s') /\ rep s' L H /\
    queue s' !! i = Some (id, c) /\ cache c = b.
Proof.
  intros Hr HL HH. unfold get_block_cache.
  destruct (find_index _ (queue s)) as [i|] eqn:E.
  - apply find_index_Some in E as ([id' c] & Hi & Heq & _). simpl in Heq. bool_to_Prop. subst id'.
    exists i, s, c. split_and!; [done|done|done|]. destruct Hr as [_ _ _ _ (M & _ & Hco)].
    destruct (co_in _ _ _ Hco id c) as (_ & Hc & _); [by eapply list_elem_of_lookup_2|]. congruence.
  - apply find_no_entry in E. destruct (evict_spec s L H Hr HH) as (s1 & E1 & Hr1 & Hsz & Hsub).
    rewrite E1. cbn [mbind res_bind]. destruct Hr1 as [Hh Hnd _ Hp (M & Hd & Hco)].
    assert (HM : M !! id = Some b) by (apply (co_out _ _ _ Hco); auto).
    unfold BlockCache_new. rewrite (dev_read _ M id b) by done. cbn [mbind res_bind].
    eexists _, _, _. split_and!; [done| |by apply list_lookup_middle|done].
    split; simpl; [done|done| | |].
    + rewrite length_app. simpl. lia.
    + intros x Hx. rewrite fmap_app. apply elem_of_app. left. by apply Hp.
    + exists M. split; [done|]. apply load_coherent; [done|done|]. auto.
Qed.

Lemma acquire_spec (s : store D) L H id b :
  rep s L H -> L !! id = Some b -> (length H < 16)%nat -> id ∉ H ->
  exists s', acquire id s = Ok (b, s') /\ rep s' L (id :: H).
Proof.
  intros Hr HL HH Hni. unfold acquire.
  destruct (get_block_cache_spec s L H id b Hr HL HH) as (i & s1 & c & E & Hr1 & Hi & <-).
  rewrite E. cbn [mbind res_bind]. destruct Hr1 as [Hh Hnd Hsz Hp (M & Hd & Hco)].
  rewrite Hh, decide_False by done. unfold index. rewrite decide_True, Nat2Z.id, Hi by lia.
  cbn [mbind res_bind snd]. eexists. split; [done|]. split; simpl; [done|by constructor|done| |by eauto].
  intros x [->|Hx]%elem_of_cons; [|by apply Hp].
  by apply (list_elem_of_fmap_2' fst _ (id, c)); [eapply list_elem_of_lookup_2|].
Qed.

(** Locking a block twice in the same thread never returns. *)
Lemma acquire_deadlock (s : store D) L H id b :
  rep s L H -> L !! id = Some b -> id ∈ H -> acquire id s = Panic Deadlock.
Proof.
  intros [Hh Hnd Hsz Hp (M & Hd & Hco)] HL Hin. unfold acquire, get_block_cache.
  destruct (find_index _ (queue s)) as [i|] eqn:E.
  - cbn [mbind res_bind]. by rewrite Hh, decide_True.
  - apply find_no_entry in E. by apply Hp in Hin.
Qed.

Lemma put_back_coherent q1 q2 M L id c upd :
  coherent (q1 ++ (id, c) :: q2) M L -> full_block upd = true ->
  coherent (q1 ++ put_back upd (id, c) :: q2) M
    (match upd with Some b => <[id := b]> L | None => L end).
Proof.
  intros Hco Hf. destruct upd as [b|]; [|done]. apply Nat.eqb_eq in Hf.
  destruct Hco as [Hnd Hdom Hlen Hin Hout].
  destruct (Hin id c) as (Hid & HL & _); [set_solver|]. simpl.
  assert (Hne : forall id' c', (id', c') ∈ q1 \/ (id', c') ∈ q2 -> id <> id').
  { intros id' c' Hc <-. rewrite fmap_app, fmap_cons in Hnd.
    apply NoDup_app in Hnd as (_ & Hdj & [Hni _]%NoDup_cons). destruct Hc as [Hc|Hc].
    - apply (Hdj id); [by apply (list_elem_of_fmap_2' fst q1 (id, c'))|set_solver].
    - apply Hni. by apply (list_elem_of_fmap_2' fst q2 (id, c')). }
  split.
  - by rewrite fmap_app in *.
  - rewrite dom_insert_L, Hdom. apply elem_of_dom_2 in HL. set_solver.
  - by apply map_Forall_insert_2.
  - intros id' c' [Hc|[[= -> ->]|Hc]%elem_of_cons]%elem_of_app; simpl.
    + rewrite lookup_insert_ne by eauto. apply Hin. set_solver.
    + by rewrite lookup_insert_eq.
    + rewrite lookup_insert_ne by eauto. apply Hin. set_solver.
  - intros id' b' Hb Hni. rewrite fmap_app, fmap_cons in Hni. simpl in Hni.
    rewrite lookup_insert_ne in Hb by set_solver. apply Hout; [done|].
    rewrite fmap_app, fmap_cons. done.
Qed.

Lemma release_spec (s : store D) L H id upd :
  rep s L H -> id ∈ H -> full_block upd = true ->
  exists s', release id upd s = Ok (tt, s') /\
    rep s' (match upd with Some b => <[id := b]> L | None => L end) (filter (fun x => x <> id) H).
Proof.
  intros [Hh Hnd Hsz Hp (M & Hd & Hco)] Hin Hf. unfold release.
  pose proof (Hp id Hin) as ((id' & c) & Heq & Hc)%list_elem_of_fmap. simpl in Heq. subst id'.
  destruct (find_entry (queue s) id c (co_nodup _ _ _ Hco) Hc) as (i & -> & Hi).
  cbn [unwrap mbind res_bind]. eexists. split; [done|].
  assert (Halt : alter (put_back upd) i (queue s) =
    take i (queue s) ++ put_back upd (id, c) :: drop (S i) (queue s)).
  { rewrite <- insert_take_drop by (by eapply lookup_lt_Some). rewrite list_insert_alter.
    apply list_alter_ext; [|done]. intros x Hx. congruence. }
  split; simpl; [by rewrite Hh|by apply NoDup_filter|by rewrite length_alter| |].
  - intros x [_ Hx]%list_elem_of_filter. rewrite Halt, fmap_app, fmap_cons.
    apply Hp in Hx. rewrite <- (take_drop_middle _ _ _ Hi), fmap_app, fmap_cons in Hx.
    destruct upd; done.
  - exists M. split; [done|]. rewrite Halt. apply put_back_coherent; [|done].
    by rewrite take_drop_middle.
Qed.

Lemma sync_all_spec (s : store D) L :
  rep s L [] ->
  exists s', block_cache_sync_all s = Ok (tt, s') /\ rep s' L [] /\ dev_rep (dev s') L.
Proof.
  intros [Hh Hnd Hsz Hp (M & Hd & Hco)]. unfold block_cache_sync_all. rewrite Hh.
  destruct (sync_loop_coherent [] (queue s) (dev s) M L Hd Hco)
    as (q' & d' & M' & E & Hd' & Hco' & Hk & Hf). simpl in Hco'.
  rewrite E. cbn [mbind res_bind]. eexists. split; [done|].
  assert (M' = L) as ->.
  { apply map_eq. intros id. destruct Hco' as [_ Hdom _ Hin Hout].
    destruct (L !! id) as [b|] eqn:EL.
    - destruct (decide (id ∈ q'.*1)) as [((id' & c) & -> & Hc)%list_elem_of_fmap|]; [|by apply Hout].
      destruct (Hin _ _ Hc) as (_ & HL & Hm). simpl in EL. rewrite <- EL, HL. apply Hm.
      rewrite Forall_forall in Hf. by apply (Hf _ Hc).
    - apply not_elem_of_dom. rewrite Hdom. by apply not_elem_of_dom. }
  split; [|done]. split; simpl; [done|done| |by intros ? ?%elem_of_nil|by eauto].
  rewrite <- (length_fmap fst), Hk, length_fmap. done.
Qed.

Lemma new_rep (d : D) L :
  dev_rep d L -> map_Forall (fun _ b => length b = 512%nat) L -> rep (BlockCacheManager_new d) L [].
Proof.
  intros Hd Hl. split; simpl; [done|constructor|lia|done|]. exists L. split; [done|].
  split; [constructor|done|done|by intros ? ? ?%elem_of_nil|done].
Qed.

Lemma crun_simulates {A} (p : io A) (s : store D) L H :
  rep s L H ->
  match lrun p L H with
  | Ok (a, L', H') => exists s', crun p s = Ok (a, s') /\ rep s' L' H'
  | Panic UndefinedBehaviour => True
  | Panic f => crun p s = Panic f
  end.
Proof.
  revert s L H. induction p as [a|f|id k IH|id upd k IH|k IH]; intros s L H Hr; cbn [lrun crun].
  - by exists s.
  - by destruct f.
  - destruct (L !! id) as [b|] eqn:HL; [|done]. case_decide as Hin.
    + by rewrite (acquire_deadlock s L H id b).
    + destruct (_ <? 16) eqn:E; bool_to_Prop; [|done].
      destruct (acquire_spec s L H id b Hr HL ltac:(lia) Hin) as (s' & -> & Hr'). by apply IH.
  - destruct (bool_decide _ && _) eqn:E; bool_to_Prop; [|done].
    rename select (bool_decide _ = true) into Hin. apply bool_decide_eq_true in Hin.
    destruct (release_spec s L H id upd Hr Hin) as (s' & -> & Hr'); [done|]. by apply IH.
  - destruct H; [|done]. destruct (sync_all_spec s L Hr) as (s' & -> & Hr' & _). by apply IH.
Qed.

(** C2: The block cache is invisible: a program of nested [read], [modify] and
    [block_cache_sync_all] calls, run on the cache manager (16 entries, first
    unpinned entry evicted, write-back when dropped or synced) over any block
    device, gives the result it gives on a plain array of blocks and leaves the
    cache and the device representing the same array.  In particular eviction
    never panics with fewer than 16 blocks locked, and a panic or a deadlock of
    the program is the same in both. *)
Theorem cache_refines_disk {A} (p : io A) (s : store D) L H :
  rep s L H ->
  match lrun p L H with
  | Ok (a, L', H') => exists s', crun p s = Ok (a, s') /\ rep s' L' H'
  | Panic UndefinedBehaviour => True
  | Panic f => crun p s = Panic f
  end.
Proof. apply crun_simulates. Qed.

(** After [block_cache_sync_all] with no block locked, the device itself holds
    every block as the program last wrote it: a new manager over that device
    represents the same array, so nothing is lost when the cache is. *)
Theorem sync_all_durable (s : store D) L :
  rep s L [] -> map_Forall (fun _ b => length b = 512%nat) L ->
  exists s', block_cache_sync_all s = Ok (tt, s') /\ dev_rep (dev s') L /\
    rep (BlockCacheManager_new (dev s')) L [].
Proof.
  intros Hr Hl. destruct (sync_all_spec s L Hr) as (s' & E & _ & Hd).
  exists s'. split_and!; [done|done|by apply new_rep].
Qed.
End Refinement.

(** ** [BlockFile]: the image file of easy-fs-fuse

    The file is its bytes.  [seek] to a [Start] position succeeds; [read] gives the
    bytes up to the end of the file and [write] stores at the position. *)

Module BlockFile.
Definition file := list Z.

Definition read_block (f : file) (id : Z) (buf : list Z) : res (list Z) :=
  let pos := umul id BLOCK_SZ in
  let got := take (length buf) (drop (Z.to_nat pos) f) in
  _ ← rassert (Z.of_nat (length got) =? BLOCK_SZ);
  Ok (got ++ drop (length got) buf).

Definition write_block (f : file) (id : Z) (buf : list Z) : res file :=
  let pos := Z.to_nat (umul id BLOCK_SZ) in
  _ ← rassert (Z.of_nat (length buf) =? BLOCK_SZ);
  Ok (take pos (f ++ replicate (pos - length f) 0) ++ buf ++ drop (pos + length buf) f).

(** An image of [n] blocks. *)
Definition image (n : Z) (f : file) (M : gmap Z (list Z)) : Prop :=
  0 <= n < 2 ^ 55 /\ Z.of_nat (length f) = 512 * n /\
  (forall id, 0 <= id < n -> M !! id = Some (bytes_at (512 * id) 512 f)) /\
  (forall id, ~ 0 <= id < n -> M !! id = None).

Lemma image_lookup n f M id b :
  image n f M -> M !! id = Some b ->
  0 <= id < n /\ b = bytes_at (512 * id) 512 f /\ length b = 512%nat.
Proof.
  intros (Hn & Hl & Hi & Ho) Hb. destruct (decide (0 <= id < n)) as [Hr|Hr].
  - rewrite Hi in Hb by done. simplify_eq. split_and!; [lia|lia|done|].
    unfold bytes_at. rewrite length_take, length_drop. lia.
  - rewrite Ho in Hb by done. done.
Qed.

Lemma image_store n f M id b :
  image n f M -> 0 <= id < n -> length b = 512%nat ->
  image n (splice (512 * id) b f) (<[id := b]> M).
Proof.
  intros (Hn & Hl & Hi & Ho) Hid Hb.
  assert (Hlen : length (splice (512 * id) b f) = length f).
  { unfold splice. rewrite !length_app, length_take, length_drop. lia. }
  split_and!; [lia|lia|lia| |].
  - intros i Hir. destruct (decide (i = id)) as [->|Hne].
    + rewrite lookup_insert_eq. f_equal. unfold bytes_at, splice.
      rewrite drop_app_length', take_app_length'; [done|lia|rewrite length_take; lia].
    + rewrite lookup_insert_ne, Hi by done. f_equal. unfold bytes_at, splice.
      destruct (decide (i < id)).
      * rewrite drop_app_le by (rewrite length_take; lia).
        rewrite take_app_le by (rewrite length_drop, length_take; lia).
        rewrite skipn_firstn_comm, take_take. f_equal. lia.
      * rewrite app_assoc, drop_app_ge by (rewrite length_app, length_take; lia).
        rewrite drop_drop, length_app, length_take. do 2 f_equal. lia.
  - intros i Hni. rewrite lookup_insert_ne by (intros ->; done). by apply Ho.
Qed.
End BlockFile.

#[global] Instance BlockFile_device : BlockDevice BlockFile.file := {|
  read_block := BlockFile.read_block;
  write_block := BlockFile.write_block;
|}.

#[global, program] Instance BlockFile_laws (n : Z) : BlockDeviceLaws BlockFile.file := {|
  dev_rep := BlockFile.image n;
|}.
Next Obligation.
  intros n d M id b Hd Hb. by eapply BlockFile.image_lookup.
Qed.
Next Obligation.
  intros n d M id b buf Hd Hb Hbuf.
  destruct (BlockFile.image_lookup n d M id b Hd Hb) as (Hid & Heq & Hlen).
  destruct Hd as (Hn & Hl & _). simpl. unfold BlockFile.read_block, BLOCK_SZ.
  rewrite umul_small by lia.
  assert (take (length buf) (drop (Z.to_nat (id * 512)) d) = b) as ->.
  { rewrite Heq, Hbuf. unfold bytes_at. do 2 f_equal. lia. }
  rewrite Hlen. simpl. rewrite drop_ge, app_nil_r by lia. done.
Qed.
Next Obligation.
  intros n d M id b Hd [b0 Hb0] Hlen. simpl in *.
  destruct (BlockFile.image_lookup n d M id b0 Hd Hb0) as (Hid & _ & _).
  pose proof Hd as (Hn & Hl & _). unfold BlockFile.write_block, BLOCK_SZ.
  rewrite umul_small by lia. rewrite Hlen. simpl. eexists. split; [done|].
  replace (Z.to_nat (id * 512) - length d)%nat with 0%nat by lia.
  simpl. rewrite app_nil_r. rewrite Z.mul_comm, <- Hlen. by apply BlockFile.image_store.
Qed.

(** Two blocks modified one inside the other. *)
Definition demo_prog : io Z :=
  modify DataBlock 0 0 (fun b0 =>
    x ← modify DataBlock 1 0 (fun b1 => mret (b1 !!! 0%nat, <[0%nat := 7]> b1));
    mret (x, <[1%nat := 9]> b0)).

Definition demo_image : BlockFile.file := replicate 1024 0.
Definition demo_blocks : gmap Z (list Z) := {[ 0 := replicate 512 0; 1 := replicate 512 0 ]}.

Lemma demo_image_rep : BlockFile.image 2 demo_image demo_blocks.
Proof.
  split_and!; [lia|lia|done| |].
  - intros id Hid. assert (id = 0 \/ id = 1) as [-> | ->] by lia; by vm_compute.
  - intros id Hid. unfold demo_blocks. rewrite lookup_insert_ne, lookup_singleton_ne; [done|lia|lia].
Qed.

Lemma demo_store_rep : rep (HD := BlockFile_laws 2) (BlockCacheManager_new demo_image) demo_blocks [].
Proof.
  apply new_rep; [apply demo_image_rep|]. apply map_Forall_insert_2; [done|].
  by apply map_Forall_singleton.
Qed.

Lemma cache_refines_disk_witness :
  exists L' s', lrun demo_prog demo_blocks [] = Ok (0, L', []) /\
    crun demo_prog (BlockCacheManager_new demo_image) = Ok (0, s') /\
    rep (HD := BlockFile_laws 2) s' L' [].
Proof.
  pose proof (cache_refines_disk (HD := BlockFile_laws 2) demo_prog _ _ _ demo_store_rep) as Hx.
  destruct (lrun demo_prog demo_blocks []) as [[[a L'] H']|f] eqn:E; [|by vm_compute in E].
  assert (a = 0 /\ H' = []) as [-> ->].
  { vm_compute in E. injection E as <- _ <-. done. }
  destruct Hx as (s' & ? & ?). by exists L', s'.
Defined.

Lemma sync_all_durable_witness :
  exists s', block_cache_sync_all (BlockCacheManager_new demo_image) = Ok (tt, s') /\
    BlockFile.image 2 (dev s') demo_blocks /\
    rep (HD := BlockFile_laws 2) (BlockCacheManager_new (dev s')) demo_blocks [].
Proof.
  apply (sync_all_durable (HD := BlockFile_laws 2)); [apply demo_store_rep|].
  apply map_Forall_insert_2; [done|]. by apply map_Forall_singleton.
Defined.
