(* ===== verification/BlockLogic.v ===== *)
(** Reasoning about programs over the block cache: the byte layouts of the types
    that blocks hold, and a weakest-precondition calculus for [lrun].  A triple
    [wp p L H Q] says that [p] returns, with the locks it started with, leaving
    well-formed blocks that satisfy [Q]. *)

From S2P Require Import Prelude BlockCache.

(** * Layouts *)

Definition bytes_ok (bs : list Z) : Prop := Forall is_u8 bs.

(** A layout stores valid values and reads them back.  The encoding may be
    shorter than [size_of]: padding keeps the bytes it had. *)
Record layout_ok {T} (l : layout T) (valid : T -> Prop) : Prop := {
  lo_size : 0 < size_of l <= 512;
  lo_len : forall t, valid t -> (length (encode l t) <= Z.to_nat (size_of l))%nat;
  lo_bytes : forall t, valid t -> bytes_ok (encode l t);
  lo_valid : forall bs, bytes_ok bs -> length bs = Z.to_nat (size_of l) -> valid (decode l bs);
  lo_roundtrip : forall t pad, valid t ->
    (length (encode l t) + length pad = Z.to_nat (size_of l))%nat -> decode l (encode l t ++ pad) = t;
}.

(** Little-endian words of [k] bytes. *)
Definition enc_word (k : nat) (w : Z) : list Z := Z_to_little_endian (Z.of_nat k) 8 w.
Definition dec_word (bs : list Z) : Z := little_endian_to_Z 8 bs.

Fixpoint enc_words (k : nat) (ws : list Z) : list Z :=
  match ws with [] => [] | w :: ws' => enc_word k w ++ enc_words k ws' end.
Fixpoint dec_words (k n : nat) (bs : list Z) : list Z :=
  match n with O => [] | S n' => dec_word (take k bs) :: dec_words k n' (drop k bs) end.

Definition words_ok (k n : nat) (ws : list Z) : Prop :=
  length ws = n /\ Forall (fun w => 0 <= w < 2 ^ (8 * Z.of_nat k)) ws.

(** [[uK; n]] *)
Definition word_array (k n : nat) : layout (list Z) :=
  mkLayout (Z.of_nat (n * k)) (dec_words k n) (enc_words k).

Lemma length_enc_word k w : length (enc_word k w) = k.
Proof. pose proof (length_Z_to_little_endian (Z.of_nat k) 8 w). unfold enc_word. lia. Qed.

Lemma enc_word_bytes k w : bytes_ok (enc_word k w).
Proof. apply Z_to_little_endian_bound; lia. Qed.

Lemma dec_enc_word k w : 0 <= w < 2 ^ (8 * Z.of_nat k) -> dec_word (enc_word k w) = w.
Proof.
  intros Hw. unfold dec_word, enc_word. rewrite little_endian_to_Z_to_little_endian by lia.
  rewrite Z.mod_small; [done|]. by rewrite Z.mul_comm.
Qed.

Lemma dec_word_bound k bs :
  bytes_ok bs -> length bs = k -> 0 <= dec_word bs < 2 ^ (8 * Z.of_nat k).
Proof.
  intros Hb <-. rewrite Z.mul_comm. apply little_endian_to_Z_bound; [lia|done].
Qed.

Lemma length_enc_words k ws : length (enc_words k ws) = (length ws * k)%nat.
Proof. induction ws; simpl; [done|]. rewrite length_app, length_enc_word. lia. Qed.

Lemma enc_words_bytes k ws : bytes_ok (enc_words k ws).
Proof. induction ws; simpl; [constructor|]. apply Forall_app; split; [apply enc_word_bytes|done]. Qed.

Lemma length_dec_words k n bs : length (dec_words k n bs) = n.
Proof. revert bs. induction n; intros bs; simpl; [done|]. by rewrite IHn. Qed.

Lemma dec_words_ok k n bs :
  bytes_ok bs -> (n * k <= length bs)%nat -> words_ok k n (dec_words k n bs).
Proof.
  intros Hb Hl. split; [apply length_dec_words|].
  revert bs Hb Hl. induction n as [|n IH]; intros bs Hb Hl; simpl; constructor.
  - apply dec_word_bound; [by apply Forall_take|]. rewrite length_take. lia.
  - apply IH; [by apply Forall_drop|]. rewrite length_drop. lia.
Qed.

Lemma dec_enc_words k n ws pad :
  words_ok k n ws -> dec_words k n (enc_words k ws ++ pad) = ws.
Proof.
  intros [<- Hf]. induction ws as [|w ws IH]; simpl; [done|].
  apply Forall_cons in Hf as [Hw Hf].
  rewrite <- app_assoc, take_app_length', drop_app_length' by (by rewrite length_enc_word).
  rewrite dec_enc_word by done. by rewrite IH.
Qed.

Lemma word_array_ok k n :
  (0 < n * k <= 512)%nat -> layout_ok (word_array k n) (words_ok k n).
Proof.
  intros Hnk. split; simpl.
  - lia.
  - intros ws [Hl _]. rewrite length_enc_words, Hl, Nat2Z.id. lia.
  - intros ws _. apply enc_words_bytes.
  - intros bs Hb Hl. apply dec_words_ok; [done|]. rewrite Hl. lia.
  - intros ws pad Hws _. by apply dec_enc_words.
Qed.

Definition block_ok (bs : list Z) : Prop := length bs = 512%nat /\ bytes_ok bs.

Lemma DataBlock_ok : layout_ok DataBlock block_ok.
Proof.
  split; simpl; unfold BLOCK_SZ.
  - lia.
  - intros t [? _]. lia.
  - by intros t [_ ?].
  - intros bs ? Hl. by split.
  - intros t pad [Ht _] Hl. rewrite (nil_length_inv pad) by lia. by rewrite app_nil_r.
Qed.

Lemma words_ok_insert k n ws (i : nat) w :
  words_ok k n ws -> 0 <= w < 2 ^ (8 * Z.of_nat k) -> words_ok k n (<[i := w]> ws).
Proof. intros [Hl Hf] Hw. split; [by rewrite length_insert|by apply Forall_insert]. Qed.

(** * Splicing *)

Lemma length_splice off v b :
  (Z.to_nat off + length v <= length b)%nat -> length (splice off v b) = length b.
Proof. intros. unfold splice. rewrite !length_app, length_take, length_drop. lia. Qed.

Lemma splice_bytes off v b : bytes_ok v -> bytes_ok b -> bytes_ok (splice off v b).
Proof.
  intros Hv Hb. unfold splice, bytes_ok in *. rewrite !Forall_app.
  split_and!; [by apply Forall_take|done|by apply Forall_drop].
Qed.

(** Byte [i] of a spliced block. *)
Lemma lookup_splice off v b (i : nat) :
  (Z.to_nat off + length v <= length b)%nat ->
  splice off v b !! i =
    if decide (Z.to_nat off <= i < Z.to_nat off + length v)%nat
    then v !! (i - Z.to_nat off)%nat else b !! i.
Proof.
  intros Hl. unfold splice. case_decide as Hi.
  - rewrite lookup_app_r by (rewrite length_take; lia).
    rewrite length_take, lookup_app_l by lia. f_equal. lia.
  - destruct (decide (i < Z.to_nat off)%nat).
    + rewrite lookup_app_l by (rewrite length_take; lia). by apply lookup_take_lt.
    + rewrite lookup_app_r by (rewrite length_take; lia).
      rewrite length_take, lookup_app_r by lia. rewrite lookup_drop. f_equal. lia.
Qed.

Lemma length_bytes_at off n b :
  0 <= off -> 0 <= n -> off + n <= Z.of_nat (length b) -> length (bytes_at off n b) = Z.to_nat n.
Proof. intros. unfold bytes_at. rewrite length_take, length_drop. lia. Qed.

Lemma lookup_bytes_at off n b (i : nat) :
  0 <= off -> (Z.of_nat i < n) -> bytes_at off n b !! i = b !! (Z.to_nat off + i)%nat.
Proof. intros. unfold bytes_at. rewrite lookup_take_lt by lia. by rewrite lookup_drop. Qed.

Lemma bytes_at_bytes off n b : bytes_ok b -> bytes_ok (bytes_at off n b).
Proof. intros. by apply Forall_take, Forall_drop. Qed.

Lemma bytes_at_all b : length b = 512%nat -> bytes_at 0 512 b = b.
Proof. intros Hl. unfold bytes_at. simpl. rewrite drop_0, take_ge; [done|lia]. Qed.

Lemma splice_all v b : length v = 512%nat -> length b = 512%nat -> splice 0 v b = v.
Proof.
  intros Hv Hb. unfold splice. simpl. rewrite drop_ge, app_nil_r by lia. done.
Qed.

(** Bytes read back: the stored ones, then what was there. *)
Lemma bytes_at_splice_eq off n v b :
  0 <= off -> Z.of_nat (length v) <= n -> off + n <= Z.of_nat (length b) ->
  bytes_at off n (splice off v b) = v ++ bytes_at (off + Z.of_nat (length v)) (n - Z.of_nat (length v)) b.
Proof.
  intros. unfold bytes_at, splice. rewrite drop_app_length' by (rewrite length_take; lia).
  rewrite take_app_ge by lia. do 2 f_equal; [lia|]. f_equal. lia.
Qed.

Lemma bytes_at_splice_ne off n off' v b :
  0 <= off -> 0 <= off' -> off + n <= Z.of_nat (length b) ->
  off' + Z.of_nat (length v) <= Z.of_nat (length b) ->
  off + n <= off' \/ off' + Z.of_nat (length v) <= off ->
  bytes_at off n (splice off' v b) = bytes_at off n b.
Proof.
  intros Ho Ho' Hl Hl' Hd. destruct (decide (0 <= n)).
  2: { unfold bytes_at. by replace (Z.to_nat n) with 0%nat by lia. }
  apply list_eq. intros i. destruct (decide (Z.of_nat i < n)).
  - rewrite !lookup_bytes_at, lookup_splice by lia. rewrite decide_False; [done|]. lia.
  - rewrite !lookup_ge_None_2; [done|rewrite length_bytes_at; lia|].
    rewrite length_bytes_at; [lia|lia|lia|]. rewrite length_splice; lia.
Qed.

Lemma decode_splice {T} (l : layout T) valid t off b :
  layout_ok l valid -> valid t -> 0 <= off -> off + size_of l <= Z.of_nat (length b) ->
  decode l (bytes_at off (size_of l) (splice off (encode l t) b)) = t.
Proof.
  intros Hl Ht Ho Hb. pose proof (lo_len _ _ Hl t Ht). pose proof (lo_size _ _ Hl).
  rewrite bytes_at_splice_eq by lia. apply (lo_roundtrip _ _ Hl); [done|].
  rewrite length_bytes_at; lia.
Qed.

(** * Weakest preconditions *)

Definition disk_ok (L : gmap Z (list Z)) : Prop := map_Forall (fun _ => block_ok) L.

Definition wp {A} (p : io A) (L : gmap Z (list Z)) (H : list Z)
  (Q : A -> gmap Z (list Z) -> Prop) : Prop :=
  disk_ok L ->
  exists a L', lrun p L H = Ok (a, L', H) /\ disk_ok L' /\ dom L' = dom L /\ Q a L'.

Lemma lrun_bind {A B} (m : io A) (k : A -> io B) L H :
  lrun (m ≫= k) L H =
  match lrun m L H with Ok (a, L', H') => lrun (k a) L' H' | Panic f => Panic f end.
Proof.
  unfold mbind, io_bind. revert L H.
  induction m as [a|f|id c IH|id upd c IH|c IH]; intros L H; simpl; try done.
  - destruct (L !! id); [|done]. case_decide; [done|]. destruct (_ <? 16); [apply IH|done].
  - destruct (_ && _); [apply IH|done].
  - destruct H; [apply IH|done].
Qed.

Section Wp.
Context {A : Type}.
Implicit Types (L : gmap Z (list Z)) (H : list Z) (Q : A -> gmap Z (list Z) -> Prop).

Lemma wp_ret (a : A) L H Q : Q a L -> wp (mret a) L H Q.
Proof. intros HQ HL. by exists a, L. Qed.

Lemma wp_mono (p : io A) L H Q Q' :
  wp p L H Q -> (forall a L', disk_ok L' -> dom L' = dom L -> Q a L' -> Q' a L') -> wp p L H Q'.
Proof.
  intros Hp HQ HL. destruct (Hp HL) as (a & L' & ? & ? & ? & ?).
  exists a, L'. split_and!; auto.
Qed.

Lemma wp_bind {B} (m : io B) (k : B -> io A) L H Q :
  wp m L H (fun b L' => wp (k b) L' H Q) -> wp (m ≫= k) L H Q.
Proof.
  intros Hm HL. destruct (Hm HL) as (b & L1 & E1 & HL1 & Hd1 & Hk).
  destruct (Hk HL1) as (a & L2 & E2 & HL2 & Hd2 & HQ). exists a, L2.
  rewrite lrun_bind, E1. split_and!; [done|done|congruence|done].
Qed.

Lemma wp_res (r : res A) a L H Q : r = Ok a -> Q a L -> wp (io_res r) L H Q.
Proof. intros -> HQ. by apply wp_ret. Qed.

(** The well-formedness of the blocks is at hand inside a triple. *)
Lemma wp_disk_ok (p : io A) L H Q : (disk_ok L -> wp p L H Q) -> wp p L H Q.
Proof. intros Hp HL. by apply Hp. Qed.

Lemma filter_ne_not_in (id : Z) H : id ∉ H -> filter (fun x => x <> id) H = H.
Proof.
  intros Hni. induction H as [|x H IH]; [done|].
  rewrite filter_cons, decide_True by set_solver. rewrite IH; set_solver.
Qed.

Lemma get_ref_ok {T} (l : layout T) off b :
  0 <= off -> 0 < size_of l -> off + size_of l <= 512 ->
  get_ref l off b = Ok (decode l (bytes_at off (size_of l) b)).
Proof.
  intros. unfold get_ref, rassert, BLOCK_SZ. rewrite uadd_small by lia.
  by rewrite (proj2 (Z.leb_le _ _)).
Qed.

Lemma wp_read {T} (l : layout T) valid id off (f : T -> io A) b L H Q :
  layout_ok l valid -> L !! id = Some b -> id ∉ H -> (length H < 16)%nat ->
  0 <= off -> off + size_of l <= 512 ->
  (valid (decode l (bytes_at off (size_of l) b)) ->
   wp (f (decode l (bytes_at off (size_of l) b))) L (id :: H) Q) ->
  wp (read l id off f) L H Q.
Proof.
  intros Hlo Hid Hni HH Ho Hsz Hf HL. pose proof (lo_size _ _ Hlo) as Hs.
  assert (Hb : block_ok b) by (by eapply HL). destruct Hb as [Hlen Hbytes].
  destruct Hf as (a & L' & E & HL' & Hd & HQ).
  { apply (lo_valid _ _ Hlo); [by apply bytes_at_bytes|]. rewrite length_bytes_at; lia. }
  { done. }
  exists a, L'. split_and!; [|done|done|done].
  cbn [read lrun]. rewrite Hid, decide_False by done. rewrite (proj2 (Z.ltb_lt _ _)) by lia.
  rewrite get_ref_ok, lrun_bind by lia. cbn [io_res lrun]. rewrite lrun_bind, E. cbn [lrun].
  rewrite bool_decide_eq_true_2 by set_solver. cbn [andb full_block].
  by rewrite filter_cons, decide_False, filter_ne_not_in by naive_solver.
Qed.

Lemma wp_modify {T} (l : layout T) valid id off (f : T -> io (A * T)) b L H Q :
  layout_ok l valid -> L !! id = Some b -> id ∉ H -> (length H < 16)%nat ->
  0 <= off -> off + size_of l <= 512 ->
  (valid (decode l (bytes_at off (size_of l) b)) ->
   wp (f (decode l (bytes_at off (size_of l) b))) L (id :: H)
     (fun '(v, t') L' => valid t' /\ Q v (<[id := splice off (encode l t') b]> L'))) ->
  wp (modify l id off f) L H Q.
Proof.
  intros Hlo Hid Hni HH Ho Hsz Hf HL. pose proof (lo_size _ _ Hlo) as Hs.
  assert (Hb : block_ok b) by (by eapply HL). destruct Hb as [Hlen Hbytes].
  destruct Hf as ([v t'] & L' & E & HL' & Hd & Hv & HQ).
  { apply (lo_valid _ _ Hlo); [by apply bytes_at_bytes|]. rewrite length_bytes_at; lia. }
  { done. }
  pose proof (lo_len _ _ Hlo t' Hv) as Hle. pose proof (lo_bytes _ _ Hlo t' Hv) as Hbs.
  assert (Hok : block_ok (splice off (encode l t') b)).
  { split; [rewrite length_splice; lia|by apply splice_bytes]. }
  exists v, (<[id := splice off (encode l t') b]> L'). split_and!.
  - cbn [modify lrun]. rewrite Hid, decide_False by done. rewrite (proj2 (Z.ltb_lt _ _)) by lia.
    rewrite get_ref_ok, lrun_bind by lia. cbn [io_res lrun]. rewrite lrun_bind, E. cbn [lrun].
    rewrite bool_decide_eq_true_2 by set_solver. unfold full_block.
    rewrite (proj1 Hok). cbn [andb Nat.eqb]. by rewrite filter_cons, decide_False, filter_ne_not_in by naive_solver.
  - by apply map_Forall_insert_2.
  - rewrite dom_insert_L, Hd. apply elem_of_dom_2 in Hid. set_solver.
  - done.
Qed.
End Wp.

Lemma wp_sync L (Q : unit -> gmap Z (list Z) -> Prop) : Q tt L -> wp io_sync L [] Q.
Proof. intros HQ HL. by exists tt, L. Qed.

Lemma wp_assert b L H (Q : unit -> gmap Z (list Z) -> Prop) :
  b = true -> Q tt L -> wp (io_assert b) L H Q.
Proof. intros -> HQ. by apply wp_ret. Qed.

(** A [for] loop with an invariant on the elements done and left. *)
Lemma wp_fold {A S} (l : list A) (body : S -> A -> io S) (I : list A -> S -> gmap Z (list Z) -> Prop)
  s L H (Q : S -> gmap Z (list Z) -> Prop) :
  I l s L ->
  (forall x l' s L, I (x :: l') s L -> wp (body s x) L H (fun s' L' => I l' s' L')) ->
  (forall s L, I [] s L -> Q s L) ->
  wp (io_fold l body s) L H Q.
Proof.
  intros HI Hbody HQ. revert s L HI. induction l as [|x l IH]; intros s L HI; simpl.
  - apply wp_ret. auto.
  - apply wp_bind. eapply wp_mono; [by apply Hbody|]. intros s' L' _ _ HI'. by apply IH.
Qed.

(** What a block holds at an offset. *)
Definition holds {T} (l : layout T) (L : gmap Z (list Z)) (id off : Z) (t : T) : Prop :=
  exists b, L !! id = Some b /\ decode l (bytes_at off (size_of l) b) = t.

(** From a triple on blocks to the cache over a device. *)
Lemma wp_crun {D} {BD : BlockDevice D} {HD : BlockDeviceLaws D} {A} (p : io A) (s : store D) L H Q :
  wp p L H Q -> disk_ok L -> rep s L H ->
  exists a s' L', crun p s = Ok (a, s') /\ rep s' L' H /\ Q a L'.
Proof.
  intros Hwp HL Hr. destruct (Hwp HL) as (a & L' & E & _ & _ & HQ).
  pose proof (crun_simulates p s L H Hr) as Href. rewrite E in Href. destruct Href as (s' & ? & ?).
  by exists a, s', L'.
Qed.
