(* ===== verification/Bitmap.v ===== *)
(** Bitmaps on disk: easy-fs/src/bitmap.rs.

    A bitmap occupies [blocks] consecutive disk blocks, each an array of 64
    words of 64 bits.  The reference view of a bitmap is the function from bit
    numbers to booleans that the blocks encode ([bit]). *)

From S2P Require Import Prelude BlockCache BlockLogic.

(** Division and remainder by constants inside [lia]. *)
#[local] Ltac Zify.zify_post_hook ::= Z.to_euclidean_division_equations.

Definition BLOCK_BITS : Z := umul BLOCK_SZ 8.
Definition BitmapBlock : layout (list Z) := word_array 8 64.

Record Bitmap := mkBitmap {
  start_disk_id : Z;
  blocks : Z;
}.

Definition Bitmap_new (start blocks : Z) : Bitmap := mkBitmap start blocks.

(** [u64::trailing_ones] *)
Fixpoint trailing_ones_loop (n : nat) (w : Z) : Z :=
  match n with
  | O => 0
  | S n' => if Z.odd w then 1 + trailing_ones_loop n' (Z.shiftr w 1) else 0
  end.
Definition trailing_ones (w : Z) : Z := trailing_ones_loop 64 w.

(** The closure of [alloc]. *)
Definition alloc_in_block (block_pos : Z) (bitmap_block : list Z) : io (option Z * list Z) :=
  match find_index (fun bits64 => negb (bits64 =? usize_max)) bitmap_block with
  | Some bits64_pos =>
      bits64 ← io_res (index bitmap_block (Z.of_nat bits64_pos));
      let inner_pos := trailing_ones bits64 in
      bitmap_block' ← io_res (index_set bitmap_block (Z.of_nat bits64_pos)
                                (Z.lor bits64 (ushl 1 inner_pos)));
      mret (Some (uadd (uadd (umul block_pos BLOCK_BITS) (umul (Z.of_nat bits64_pos) 64)) inner_pos),
            bitmap_block')
  | None => mret (None, bitmap_block)
  end.

Fixpoint alloc_loop (start : Z) (positions : list Z) : io (option Z) :=
  match positions with
  | [] => mret None
  | block_pos :: rest =>
      pos ← modify BitmapBlock (uadd block_pos start) 0 (alloc_in_block block_pos);
      match pos with
      | Some _ => mret pos
      | None => alloc_loop start rest
      end
  end.

Definition alloc (bm : Bitmap) : io (option Z) :=
  alloc_loop bm.(start_disk_id) (seqZ 0 bm.(blocks)).

Definition decomposition (bit : Z) : Z * Z * Z :=
  (bit / BLOCK_BITS, bit mod BLOCK_BITS / 64, bit mod 64).

Definition dealloc (bm : Bitmap) (bit : Z) : io unit :=
  let '(block_pos, bits64_pos, inner_pos) := decomposition bit in
  modify BitmapBlock (uadd block_pos bm.(start_disk_id)) 0 (fun bitmap_block =>
    bits64 ← io_res (index bitmap_block bits64_pos);
    _ ← io_assert (0 <? Z.land bits64 (ushl 1 inner_pos));
    bitmap_block' ← io_res (index_set bitmap_block bits64_pos
                              (Z.land bits64 (unot (ushl 1 inner_pos))));
    mret (tt, bitmap_block')).

Definition max_allocatable_blocks (bm : Bitmap) : Z := umul bm.(blocks) BLOCK_BITS.

(** * The reference view *)

Definition bits_of (b : list Z) (i : Z) : bool :=
  Z.testbit (dec_words 8 64 b !!! Z.to_nat (i / 64)) (i mod 64).

Definition bit (L : gmap Z (list Z)) (bm : Bitmap) (i : Z) : bool :=
  match L !! (bm.(start_disk_id) + i / 4096) with
  | Some b => bits_of b (i mod 4096)
  | None => false
  end.

Definition in_region (bm : Bitmap) (id : Z) : Prop :=
  bm.(start_disk_id) <= id < bm.(start_disk_id) + bm.(blocks).

(** The blocks of the bitmap exist and are not locked. *)
Record usable (bm : Bitmap) (L : gmap Z (list Z)) (H : list Z) : Prop := {
  us_start : 0 <= bm.(start_disk_id);
  us_blocks : 0 <= bm.(blocks);
  us_bound : bm.(start_disk_id) + bm.(blocks) < 2 ^ 32;
  us_present : forall id, in_region bm id -> is_Some (L !! id);
  us_unlocked : forall id, in_region bm id -> id ∉ H;
  us_locks : (length H < 16)%nat;
}.

(** * Lemmas *)

Lemma trailing_ones_loop_spec n w :
  0 <= w ->
  let k := trailing_ones_loop n w in
  0 <= k <= Z.of_nat n /\ (forall j, 0 <= j < k -> Z.testbit w j = true) /\
  (k < Z.of_nat n -> Z.testbit w k = false).
Proof.
  revert w. induction n as [|n IH]; intros w Hw; cbn [trailing_ones_loop].
  { split_and!; [lia|lia|lia|]. simpl. lia. }
  destruct (Z.odd w) eqn:Ho.
  - destruct (IH (Z.shiftr w 1)) as (Hk & Hlt & Hat); [by apply Z.shiftr_nonneg|].
    set (k := trailing_ones_loop n (Z.shiftr w 1)) in *. split_and!; [lia|lia| |].
    + intros j Hj. destruct (decide (j = 0)) as [->|]; [by rewrite Z.bit0_odd|].
      rewrite <- (Hlt (j - 1)) by lia. rewrite Z.shiftr_spec by lia. f_equal. lia.
    + intros Hk'. rewrite <- Hat by lia. rewrite Z.shiftr_spec by lia. f_equal. lia.
  - split_and!; [lia|lia|lia|]. intros _. by rewrite Z.bit0_odd.
Qed.

Lemma trailing_ones_spec w :
  0 <= w < 2 ^ 64 -> w <> usize_max ->
  0 <= trailing_ones w < 64 /\ Z.testbit w (trailing_ones w) = false /\
  (forall j, 0 <= j < trailing_ones w -> Z.testbit w j = true).
Proof.
  intros Hw Hne. destruct (trailing_ones_loop_spec 64 w) as (Hk & Hlt & Hat); [lia|].
  fold (trailing_ones w) in *. destruct (decide (trailing_ones w < 64)) as [Hlt64|Hge].
  - split_and!; [lia|lia| |done]. apply Hat. lia.
  - exfalso. apply Hne. change usize_max with (Z.ones 64). apply Z.bits_inj'. intros j Hj.
    destruct (decide (j < 64)).
    + rewrite Z.ones_spec_low by lia. apply Hlt. lia.
    + rewrite Z.ones_spec_high, (testbit_above w 64) by lia. done.
Qed.

Lemma full_word_bits j : 0 <= j < 64 -> Z.testbit usize_max j = true.
Proof. intros. change usize_max with (Z.ones 64). apply Z.ones_spec_low. lia. Qed.

Lemma ushl_1 k : 0 <= k < 64 -> ushl 1 k = 2 ^ k.
Proof.
  intros. rewrite ushl_small; [lia|lia|]. rewrite Z.mul_1_l. split; [lia|].
  apply Z.pow_lt_mono_r; lia.
Qed.

Lemma testbit_set w k j : 0 <= k < 64 -> 0 <= j ->
  Z.testbit (Z.lor w (ushl 1 k)) j = (j =? k) || Z.testbit w j.
Proof.
  intros Hk Hj. rewrite Z.lor_spec, ushl_1, Z.pow2_bits_eqb by lia.
  by rewrite orb_comm, Z.eqb_sym.
Qed.

Lemma set_range w k : 0 <= w < 2 ^ 64 -> 0 <= k < 64 -> 0 <= Z.lor w (ushl 1 k) < 2 ^ 64.
Proof.
  intros Hw Hk. rewrite ushl_1 by lia. split; [apply Z.lor_nonneg; lia|].
  assert (2 ^ k < 2 ^ 64) by (apply Z.pow_lt_mono_r; lia). assert (0 < 2 ^ k) by lia.
  destruct (decide (Z.lor w (2 ^ k) = 0)) as [->|]; [lia|].
  apply Z.log2_lt_pow2; [pose proof (Z.lor_nonneg w (2 ^ k)); lia|].
  rewrite Z.log2_lor by lia. apply Z.max_lub_lt; [|rewrite Z.log2_pow2; lia].
  destruct (decide (w = 0)) as [->|]; [done|apply Z.log2_lt_pow2; lia].
Qed.

Lemma testbit_clear w k j : 0 <= w < 2 ^ 64 -> 0 <= k < 64 -> 0 <= j ->
  Z.testbit (Z.land w (unot (ushl 1 k))) j = negb (j =? k) && Z.testbit w j.
Proof.
  intros Hw Hk Hj. rewrite ushl_1, Z.land_spec, andb_comm by lia.
  destruct (decide (j < 64)).
  - f_equal. unfold unot.
    assert (usize_max - 2 ^ k = Z.ldiff usize_max (2 ^ k)) as ->.
    { rewrite Z.sub_nocarry_ldiff; [done|]. apply Z.bits_inj'. intros i Hi.
      rewrite Z.ldiff_spec, Z.pow2_bits_eqb, Z.bits_0 by lia.
      destruct (k =? i) eqn:E; bool_to_Prop; [|done]. subst. by rewrite full_word_bits by lia. }
    rewrite Z.ldiff_spec, full_word_bits, Z.pow2_bits_eqb by lia. simpl. by rewrite Z.eqb_sym.
  - rewrite (testbit_above w 64) by lia. by rewrite !andb_false_r.
Qed.

Lemma clear_range w k : 0 <= w < 2 ^ 64 -> 0 <= k < 64 -> 0 <= Z.land w (unot (ushl 1 k)) < 2 ^ 64.
Proof.
  intros Hw Hk. assert (0 <= Z.land w (unot (ushl 1 k))) by (apply Z.land_nonneg; lia).
  split; [done|]. destruct (decide (Z.land w (unot (ushl 1 k)) = 0)) as [->|]; [lia|].
  apply Z.log2_lt_pow2; [lia|]. apply Z.nle_gt. intros Hge.
  pose proof (Z.bit_log2 (Z.land w (unot (ushl 1 k))) ltac:(lia)) as Hb.
  rewrite Z.land_spec, (testbit_above w 64) in Hb by lia. done.
Qed.

Lemma land_pow2_pos w k : 0 <= w -> 0 <= k < 64 -> (0 <? Z.land w (ushl 1 k)) = Z.testbit w k.
Proof.
  intros Hw Hk. rewrite ushl_1 by lia. destruct (Z.testbit w k) eqn:E.
  - apply Z.ltb_lt. assert (0 <= Z.land w (2 ^ k)) by (apply Z.land_nonneg; lia).
    assert (Z.land w (2 ^ k) <> 0); [|lia]. intros E0. apply (f_equal (fun z => Z.testbit z k)) in E0.
    rewrite Z.land_spec, Z.pow2_bits_true, E, Z.bits_0 in E0 by lia. done.
  - apply Z.ltb_ge. assert (Z.land w (2 ^ k) = 0) as ->; [|done]. apply Z.bits_inj'. intros i Hi.
    rewrite Z.land_spec, Z.pow2_bits_eqb, Z.bits_0 by lia.
    destruct (k =? i) eqn:Ei; bool_to_Prop; [subst; by rewrite E|by rewrite andb_false_r].
Qed.

Lemma BitmapBlock_ok : layout_ok BitmapBlock (words_ok 8 64).
Proof. apply word_array_ok. lia. Qed.

Definition wbit (ws : list Z) (i : Z) : bool := Z.testbit (ws !!! Z.to_nat (i / 64)) (i mod 64).

Lemma words_lookup ws (i : nat) :
  words_ok 8 64 ws -> (i < 64)%nat ->
  exists w, ws !! i = Some w /\ ws !!! i = w /\ 0 <= w < 2 ^ 64.
Proof.
  intros [Hl Hf] Hi. destruct (lookup_lt_is_Some_2 ws i) as [w Hw]; [lia|].
  exists w. split_and!; [done|by apply list_lookup_total_correct| |].
  all: rewrite Forall_forall in Hf; apply list_elem_of_lookup_2 in Hw; apply Hf in Hw; apply Hw.
Qed.

(** Changing one word changes the bits of that word. *)
Lemma wbit_insert ws p w j :
  length ws = 64%nat -> 0 <= p < 64 -> 0 <= j ->
  wbit (<[Z.to_nat p := w]> ws) j = if j / 64 =? p then Z.testbit w (j mod 64) else wbit ws j.
Proof.
  intros Hl Hp Hj. unfold wbit. destruct (j / 64 =? p) eqn:E; bool_to_Prop.
  - rewrite E, list_lookup_total_insert_eq by lia. done.
  - rewrite list_lookup_total_insert_ne; [done|]. lia.
Qed.

Lemma alloc_in_block_spec bp ws :
  words_ok 8 64 ws -> 0 <= bp < 2 ^ 32 ->
  (exists i ws', alloc_in_block bp ws = Ret (Some (bp * 4096 + i), ws') /\
     0 <= i < 4096 /\ wbit ws i = false /\ (forall j, 0 <= j < i -> wbit ws j = true) /\
     words_ok 8 64 ws' /\ (forall j, 0 <= j -> wbit ws' j = (j =? i) || wbit ws j)) \/
  (alloc_in_block bp ws = Ret (None, ws) /\ forall i, 0 <= i < 4096 -> wbit ws i = true).
Proof.
  intros Hws Hbp. unfold alloc_in_block. destruct (find_index _ ws) as [p|] eqn:E.
  - apply find_index_Some in E as (w & Hw & Hne & Hlt). bool_to_Prop. left.
    pose proof (lookup_lt_Some _ _ _ Hw) as Hp. rewrite (proj1 Hws) in Hp.
    destruct (words_lookup ws p Hws ltac:(lia)) as (w' & Hw' & Htot & Hr). simplify_eq.
    destruct (trailing_ones_spec (ws !!! p) Hr Hne) as (Hk & Hclear & Hset).
    set (k := trailing_ones (ws !!! p)) in *. exists (Z.of_nat p * 64 + k).
    unfold index, index_set. rewrite decide_True, Nat2Z.id, Hw by lia.
    cbn [io_res mbind io_bind io_bind_]. rewrite decide_True by (rewrite (proj1 Hws); lia). cbn [io_res mbind io_bind io_bind_].
    eexists. split; [|split_and!].
    + change BLOCK_BITS with 4096. rewrite (umul_small bp), (umul_small (Z.of_nat p)) by lia.
      rewrite (uadd_small (bp * 4096)), uadd_small by lia. do 3 f_equal. lia.
    + lia.
    + lia.
    + unfold wbit. replace ((Z.of_nat p * 64 + k) / 64) with (Z.of_nat p) by lia.
      replace ((Z.of_nat p * 64 + k) mod 64) with k by lia. by rewrite Nat2Z.id.
    + intros j Hj. unfold wbit. destruct (decide (j / 64 = Z.of_nat p)) as [Hjp|Hjp].
      * rewrite Hjp, Nat2Z.id. apply Hset. lia.
      * destruct (words_lookup ws (Z.to_nat (j / 64)) Hws ltac:(lia)) as (v & Hv & -> & _).
        specialize (Hlt (Z.to_nat (j / 64)) v ltac:(lia) Hv). simpl in Hlt. bool_to_Prop. subst v.
        apply full_word_bits. lia.
    + apply words_ok_insert; [done|]. by apply set_range.
    + intros j Hj. rewrite <- (Nat2Z.id p) at 1. rewrite wbit_insert by (done || lia || apply Hws).
      destruct (_ =? Z.of_nat p) eqn:Ep; bool_to_Prop.
      * rewrite testbit_set by lia. unfold wbit. rewrite Ep, Nat2Z.id. f_equal. apply eqb_ext. lia.
      * rewrite (proj2 (Z.eqb_neq j _)) by lia. done.
  - right. split; [done|]. intros i Hi. apply find_index_None in E. rewrite Forall_forall in E.
    destruct (words_lookup ws (Z.to_nat (i / 64)) Hws ltac:(lia)) as (v & Hv & Ht & _).
    apply list_elem_of_lookup_2, E in Hv. bool_to_Prop. unfold wbit. rewrite Ht. subst v.
    apply full_word_bits. lia.
Qed.

(** The view of a bitmap with one block rewritten. *)
Lemma bit_insert L bm bp ws b j :
  words_ok 8 64 ws -> length b = 512%nat -> 0 <= j ->
  bit (<[start_disk_id bm + bp := splice 0 (encode BitmapBlock ws) b]> L) bm j =
  if j / 4096 =? bp then wbit ws (j mod 4096) else bit L bm j.
Proof.
  intros Hws Hb Hj. unfold bit. destruct (_ =? bp) eqn:E; bool_to_Prop.
  - rewrite E, lookup_insert_eq. unfold bits_of, wbit.
    change (encode BitmapBlock ws) with (enc_words 8 ws).
    rewrite splice_all by (rewrite ?length_enc_words, ?(proj1 Hws); done).
    rewrite <- (app_nil_r (enc_words 8 ws)), dec_enc_words by done. done.
  - rewrite lookup_insert_ne by lia. done.
Qed.

Lemma bit_wbit L bm bp b j :
  L !! (start_disk_id bm + bp) = Some b -> length b = 512%nat -> j / 4096 = bp ->
  bit L bm j = wbit (decode BitmapBlock (bytes_at 0 (size_of BitmapBlock) b)) (j mod 4096).
Proof.
  intros HL Hb Hj. unfold bit. rewrite Hj, HL. change (size_of BitmapBlock) with 512.
  by rewrite bytes_at_all.
Qed.

(** Unchanged outside the blocks of the bitmap. *)
Definition same_outside (bm : Bitmap) (L L' : gmap Z (list Z)) : Prop :=
  forall id, ~ in_region bm id -> L' !! id = L !! id.

Definition alloc_post (bm : Bitmap) (L : gmap Z (list Z)) (lo hi : Z) (o : option Z)
  (L' : gmap Z (list Z)) : Prop :=
  match o with
  | Some i =>
      lo <= i < hi /\ bit L bm i = false /\ (forall j, lo <= j < i -> bit L bm j = true) /\
      (forall j, 0 <= j -> bit L' bm j = (j =? i) || bit L bm j)
  | None =>
      (forall j, lo <= j < hi -> bit L bm j = true) /\
      (forall j, 0 <= j -> bit L' bm j = bit L bm j)
  end /\ same_outside bm L L'.

Lemma usable_dom bm L L' H : usable bm L H -> dom L' = dom L -> usable bm L' H.
Proof.
  intros [H1 H2 H3 Hp H5 H6] Hd. split; try done. intros id Hid.
  apply elem_of_dom. rewrite Hd. by apply elem_of_dom, Hp.
Qed.

Lemma alloc_loop_spec bm L H n lo :
  usable bm L H -> 0 <= lo -> lo + Z.of_nat n = blocks bm ->
  wp (alloc_loop (start_disk_id bm) (seqZ lo (Z.of_nat n))) L H
    (alloc_post bm L (lo * 4096) (blocks bm * 4096)).
Proof.
  revert lo L. induction n as [|n IH]; intros lo L Hus Hlo Hn.
  { apply wp_ret. split; [|done]. split; [|done]. intros j Hj. lia. }
  pose proof Hus as [Hs Hb Hbd Hp Hul Hlk].
  rewrite seqZ_cons by lia. cbn [alloc_loop]. apply wp_bind, wp_disk_ok. intros HL.
  rewrite uadd_small, (Z.add_comm lo) by lia.
  destruct (Hp (start_disk_id bm + lo)) as [b HLb]; [unfold in_region; lia|].
  assert (length b = 512%nat) as Hbl by (by eapply HL).
  eapply (wp_modify BitmapBlock (words_ok 8 64) _ _ _ b);
    [apply BitmapBlock_ok|done|apply Hul; unfold in_region; lia|done|done|done|].
  intros Hws. set (ws := decode _ _) in *.
  assert (Hbw : forall j, j / 4096 = lo -> bit L bm j = wbit ws (j mod 4096)).
  { intros j Hj. by eapply bit_wbit. }
  destruct (alloc_in_block_spec lo ws Hws ltac:(lia))
    as [(i & ws' & -> & Hi & Hcl & Hlow & Hws' & Hbits)|[-> Hall]]; apply wp_ret; (split; [done|]).
  - apply wp_ret. split; [split_and!|].
    + lia.
    + lia.
    + rewrite Hbw by lia. replace ((lo * 4096 + i) mod 4096) with i by lia. done.
    + intros j Hj. rewrite Hbw by lia. apply Hlow. lia.
    + intros j Hj. rewrite bit_insert by done. destruct (j / 4096 =? lo) eqn:E; bool_to_Prop.
      * rewrite Hbits, Hbw by lia. f_equal. apply eqb_ext. lia.
      * rewrite (proj2 (Z.eqb_neq j _)) by lia. done.
    + intros id Hid. apply lookup_insert_ne. unfold in_region in Hid. lia.
  - set (L1 := <[_ := _]> L).
    assert (Hsame : forall j, 0 <= j -> bit L1 bm j = bit L bm j).
    { intros j Hj. unfold L1. rewrite bit_insert by done.
      destruct (j / 4096 =? lo) eqn:E; bool_to_Prop; [|done]. by rewrite Hbw. }
    assert (Hout : same_outside bm L L1).
    { intros id Hid. apply lookup_insert_ne. unfold in_region in Hid. lia. }
    replace (Z.pred (Z.of_nat (S n))) with (Z.of_nat n) by lia.
    eapply wp_mono; [apply (IH (Z.succ lo) L1)|].
    + apply (usable_dom bm L); [done|]. unfold L1.
      by rewrite dom_insert_lookup_L by eauto.
    + lia.
    + lia.
    + intros o L' _ _ [Ho Hout']. split; [|intros id Hid; by rewrite Hout', Hout].
      assert (Hlo' : forall j, lo * 4096 <= j < (lo + 1) * 4096 -> bit L bm j = true).
      { intros j Hj. rewrite Hbw by lia. apply Hall. lia. }
      destruct o as [i|].
      * destruct Ho as (? & Hf & Ht & Hb'). split_and!; [lia|lia|by rewrite <- Hsame by lia| |].
        -- intros j Hj. destruct (decide (j < (lo + 1) * 4096)); [apply Hlo'; lia|].
           rewrite <- Hsame by lia. apply Ht. lia.
        -- intros j Hj. rewrite Hb', Hsame by lia. done.
      * destruct Ho as (Ht & Hb'). split.
        -- intros j Hj. destruct (decide (j < (lo + 1) * 4096)); [apply Hlo'; lia|].
           rewrite <- Hsame by lia. apply Ht. lia.
        -- intros j Hj. rewrite Hb', Hsame by lia. done.
Qed.

Lemma alloc_spec bm L H :
  usable bm L H -> wp (alloc bm) L H (alloc_post bm L 0 (blocks bm * 4096)).
Proof.
  intros Hus. unfold alloc. pose proof (us_blocks _ _ _ Hus).
  rewrite <- (Z2Nat.id (blocks bm)) at 1 by lia. apply (alloc_loop_spec bm L H _ 0); [done|lia|lia].
Qed.

Lemma decomposition_spec i : decomposition i = (i / 4096, i mod 4096 / 64, i mod 4096 mod 64).
Proof. unfold decomposition. change BLOCK_BITS with 4096. f_equal. lia. Qed.

Definition dealloc_post (bm : Bitmap) (L : gmap Z (list Z)) (i : Z) (L' : gmap Z (list Z)) : Prop :=
  (forall j, 0 <= j -> bit L' bm j = negb (j =? i) && bit L bm j) /\ same_outside bm L L'.

Lemma dealloc_spec bm L H i :
  usable bm L H -> 0 <= i < blocks bm * 4096 -> bit L bm i = true ->
  wp (dealloc bm i) L H (fun _ => dealloc_post bm L i).
Proof.
  intros Hus Hi Hbit. pose proof Hus as [Hs Hb Hbd Hp Hul Hlk].
  unfold dealloc. rewrite decomposition_spec. apply wp_disk_ok. intros HL.
  assert (Hreg : in_region bm (start_disk_id bm + i / 4096)) by (unfold in_region; lia).
  rewrite uadd_small, (Z.add_comm (i / 4096)) by lia. destruct (Hp _ Hreg) as [b HLb].
  assert (length b = 512%nat) as Hbl by (by eapply HL).
  eapply (wp_modify BitmapBlock (words_ok 8 64) _ _ _ b);
    [apply BitmapBlock_ok|done|by apply Hul|done|done|done|].
  intros Hws. rewrite (bit_wbit L bm _ b i HLb Hbl eq_refl) in Hbit.
  assert (Hbw : forall j, j / 4096 = i / 4096 -> bit L bm j = wbit (decode BitmapBlock
    (bytes_at 0 (size_of BitmapBlock) b)) (j mod 4096)) by (intros j Hj; by eapply bit_wbit).
  set (ws := decode _ _) in *. set (q := i mod 4096) in *. assert (Hq : 0 <= q < 4096) by lia.
  destruct (words_lookup ws (Z.to_nat (q / 64)) Hws ltac:(lia)) as (w & Hw & Ht & Hr).
  apply wp_bind. eapply wp_res; [apply index_Ok; split; [lia|exact Hw]|].
  apply wp_bind, wp_assert.
  { rewrite land_pow2_pos by lia. unfold wbit in Hbit. by rewrite Ht in Hbit. }
  apply wp_bind. eapply wp_res; [apply index_set_Ok; split; [rewrite (proj1 Hws); lia|reflexivity]|].
  apply wp_ret. split.
  { apply words_ok_insert; [done|]. apply clear_range; lia. }
  split.
  - intros j Hj. rewrite bit_insert; [|apply words_ok_insert; [done|apply clear_range; lia]|done|done].
    destruct (j / 4096 =? i / 4096) eqn:E; bool_to_Prop.
    + rewrite wbit_insert, Hbw by (apply Hws || lia). destruct (_ =? q / 64) eqn:Eq; bool_to_Prop.
      * rewrite testbit_clear by lia. unfold wbit. rewrite Eq, Ht. do 2 f_equal. apply eqb_ext. lia.
      * rewrite (proj2 (Z.eqb_neq j i)) by lia. done.
    + rewrite (proj2 (Z.eqb_neq j i)) by (intros ->; done). done.
  - intros id Hid. apply lookup_insert_ne. intros <-. done.
Qed.

Lemma dealloc_free_panics bm L H i :
  usable bm L H -> 0 <= i < blocks bm * 4096 -> disk_ok L -> bit L bm i = false ->
  lrun (dealloc bm i) L H = Panic AssertFailed.
Proof.
  intros Hus Hi HL Hbit. pose proof Hus as [Hs Hb Hbd Hp Hul Hlk].
  unfold dealloc. rewrite decomposition_spec.
  assert (Hreg : in_region bm (start_disk_id bm + i / 4096)) by (unfold in_region; lia).
  rewrite uadd_small, (Z.add_comm (i / 4096)) by lia. destruct (Hp _ Hreg) as [b HLb].
  destruct (HL _ _ HLb) as [Hbl Hby].
  rewrite (bit_wbit L bm _ b i HLb Hbl eq_refl) in Hbit.
  unfold modify. cbn [lrun]. rewrite HLb, decide_False by (by apply Hul).
  rewrite (proj2 (Z.ltb_lt _ _)) by lia. rewrite lrun_bind, get_ref_ok by (simpl; lia).
  cbn [io_res lrun]. rewrite lrun_bind.
  assert (Hws : words_ok 8 64 (decode BitmapBlock (bytes_at 0 (size_of BitmapBlock) b))).
  { apply (lo_valid _ _ BitmapBlock_ok); [by apply bytes_at_bytes|].
    apply length_bytes_at; [lia|simpl; lia|simpl; lia]. }
  set (ws := decode _ _) in *. set (q := i mod 4096) in *.
  destruct (words_lookup ws (Z.to_nat (q / 64)) Hws ltac:(lia)) as (w & Hw & Ht & Hr).
  rewrite lrun_bind, (proj2 (index_Ok _ _ w)) by (split; [lia|done]). cbn [io_res lrun].
  rewrite lrun_bind, land_pow2_pos by lia.
  unfold wbit in Hbit. rewrite Ht in Hbit. by rewrite Hbit.
Qed.

(** [Bitmap::alloc] hands out the lowest free bit and sets exactly that bit;
    when it returns [None] every bit is taken and nothing changed.  No block
    outside the bitmap is touched. *)
Theorem bitmap_alloc_lowest_free bm L H :
  usable bm L H ->
  wp (alloc bm) L H (fun o L' =>
    match o with
    | Some i =>
        0 <= i < max_allocatable_blocks bm /\ bit L bm i = false /\
        (forall j, 0 <= j < i -> bit L bm j = true) /\
        (forall j, 0 <= j -> bit L' bm j = (j =? i) || bit L bm j)
    | None =>
        (forall j, 0 <= j < max_allocatable_blocks bm -> bit L bm j = true) /\
        (forall j, 0 <= j -> bit L' bm j = bit L bm j)
    end /\ same_outside bm L L').
Proof.
  intros Hus. pose proof Hus as [Hs Hb Hbd _ _ _].
  unfold max_allocatable_blocks. change BLOCK_BITS with 4096. rewrite umul_small by lia.
  eapply wp_mono; [by apply alloc_spec|]. intros o L' _ _ Hpost. exact Hpost.
Qed.

Definition demo_bitmap : Bitmap := Bitmap_new 1 1.

Lemma demo_usable : usable demo_bitmap demo_blocks [].
Proof.
  split; [done|done|done| | |simpl; lia].
  - intros id Hid. assert (id = 1) as -> by (unfold in_region in Hid; simpl in Hid; lia). by eexists.
  - intros id _. apply not_elem_of_nil.
Qed.

Lemma demo_disk_ok : disk_ok demo_blocks.
Proof.
  assert (block_ok (replicate 512 0)) as Hz.
  { split; [done|]. apply Forall_replicate. unfold is_u8. lia. }
  apply map_Forall_insert_2; [done|]. by apply map_Forall_singleton.
Qed.

Lemma bitmap_alloc_lowest_free_witness :
  exists L', lrun (alloc demo_bitmap) demo_blocks [] = Ok (Some 0, L', []) /\
    bit L' demo_bitmap 0 = true /\ bit L' demo_bitmap 1 = false.
Proof.
  destruct (bitmap_alloc_lowest_free demo_bitmap demo_blocks [] demo_usable demo_disk_ok)
    as (o & L' & E & _ & _ & Hpost & _).
  assert (o = Some 0) as ->.
  { assert (exists L2, lrun (alloc demo_bitmap) demo_blocks [] = Ok (Some 0, L2, [])) as [L2 E2]
      by (eexists; vm_compute; reflexivity). rewrite E in E2. congruence. }
  destruct Hpost as (_ & _ & _ & Hb). exists L'. split_and!; [done| |].
  - rewrite Hb by lia. done.
  - rewrite Hb by lia. by vm_compute.
Defined.

(** [Bitmap::dealloc] of a bit that is set clears that bit and no other; of a
    bit that is clear (a double free) it panics on its assertion. *)
Theorem bitmap_dealloc_frees bm L H i :
  usable bm L H -> 0 <= i < max_allocatable_blocks bm -> disk_ok L ->
  (bit L bm i = true ->
     wp (dealloc bm i) L H (fun _ L' =>
       (forall j, 0 <= j -> bit L' bm j = negb (j =? i) && bit L bm j) /\ same_outside bm L L')) /\
  (bit L bm i = false -> lrun (dealloc bm i) L H = Panic AssertFailed).
Proof.
  intros Hus Hi HL. pose proof Hus as [Hs Hb Hbd _ _ _].
  unfold max_allocatable_blocks in Hi. change BLOCK_BITS with 4096 in Hi. rewrite umul_small in Hi by lia.
  split; [intros; by apply dealloc_spec|intros; by apply dealloc_free_panics].
Qed.

Lemma bitmap_dealloc_frees_witness :
  (bit demo_blocks demo_bitmap 5 = true ->
     wp (dealloc demo_bitmap 5) demo_blocks [] (fun _ L' =>
       (forall j, 0 <= j -> bit L' demo_bitmap j = negb (j =? 5) && bit demo_blocks demo_bitmap j) /\
       same_outside demo_bitmap demo_blocks L')) /\
  (bit demo_blocks demo_bitmap 5 = false ->
     lrun (dealloc demo_bitmap 5) demo_blocks [] = Panic AssertFailed).
Proof.
  apply (bitmap_dealloc_frees demo_bitmap demo_blocks [] 5).
  - apply demo_usable.
  - split; [lia|by vm_compute].
  - apply demo_disk_ok.
Defined.
