(* ===== verification/Layout.v ===== *)
(** The on-disk structures: easy-fs/src/layout.rs.

    [SuperBlock], [DiskInode] and [DirEntry] with their byte layouts, and the
    operations of [DiskInode]: the three-level block index, growing and clearing a
    file, reading and writing its bytes.

    The reference view of an inode is [block_id] (the disk block of the i-th data
    block) and [fbyte] (the k-th byte of the file), read off the blocks directly;
    [all_ids] lists every block the inode owns in the order it acquires them. *)

From S2P Require Import Prelude BlockCache BlockLogic.

(** Division and remainder by constants inside [lia]. *)
#[local] Ltac Zify.zify_post_hook ::= Z.to_euclidean_division_equations.

Definition EFS_MAGIC : Z := 998244353.
Definition INODE_DIRECT_COUNT : Z := 28.
Definition INODE_INDIRECT1_COUNT : Z := BLOCK_SZ / 4.
Definition INODE_INDIRECT2_COUNT : Z := umul INODE_INDIRECT1_COUNT INODE_INDIRECT1_COUNT.
Definition DIRECT_BOUND : Z := INODE_DIRECT_COUNT.
Definition INDIRECT1_BOUND : Z := uadd DIRECT_BOUND INODE_INDIRECT1_COUNT.
Definition INDIRECT2_BOUND : Z := uadd INDIRECT1_BOUND INODE_INDIRECT2_COUNT.
Definition NAME_LENGTH_LIMIT : Z := 27.

(** ** [SuperBlock] *)

Record SuperBlock := mkSuperBlock {
  magic : Z;
  total_blocks_ : Z;
  inode_bitmap_blocks : Z;
  inode_area_blocks : Z;
  data_bitmap_blocks : Z;
  data_area_blocks : Z;
}.

Definition SuperBlock_words (s : SuperBlock) : list Z :=
  [magic s; total_blocks_ s; inode_bitmap_blocks s; inode_area_blocks s;
   data_bitmap_blocks s; data_area_blocks s].

Definition SuperBlock_layout : layout SuperBlock :=
  mkLayout 24
    (fun bs => let w := dec_words 4 6 bs in
       mkSuperBlock (w !!! 0%nat) (w !!! 1%nat) (w !!! 2%nat) (w !!! 3%nat) (w !!! 4%nat) (w !!! 5%nat))
    (fun s => enc_words 4 (SuperBlock_words s)).

Definition SuperBlock_initialize (total ibm iarea dbm darea : Z) : SuperBlock :=
  mkSuperBlock EFS_MAGIC total ibm iarea dbm darea.

Definition is_valid (s : SuperBlock) : bool := magic s =? EFS_MAGIC.

(** ** [DiskInode]

    [type_] is one byte after the 31 words, followed by 3 bytes of padding; a
    [DiskInodeType] is 0 or 1. *)

Inductive DiskInodeType := File | Directory.

#[global] Instance DiskInodeType_eq_dec : EqDecision DiskInodeType.
Proof. solve_decision. Defined.

Definition IndirectBlock : layout (list Z) := word_array 4 128.

Record DiskInode := mkInode {
  size : Z;
  direct : list Z;
  indirect1 : Z;
  indirect2 : Z;
  type_ : DiskInodeType;
}.

Definition DiskInodeType_byte (t : DiskInodeType) : Z :=
  match t with File => 0 | Directory => 1 end.
Definition DiskInodeType_of_byte (b : Z) : DiskInodeType :=
  if b =? 0 then File else Directory.

Definition DiskInode_words (di : DiskInode) : list Z :=
  size di :: direct di ++ [indirect1 di; indirect2 di].

Definition DiskInode_layout : layout DiskInode :=
  mkLayout 128
    (fun bs => let w := dec_words 4 31 bs in
       mkInode (w !!! 0%nat) (take 28 (drop 1 w)) (w !!! 29%nat) (w !!! 30%nat)
         (DiskInodeType_of_byte (bs !!! 124%nat)))
    (fun di => enc_words 4 (DiskInode_words di) ++ [DiskInodeType_byte (type_ di)]).

Definition DiskInode_initialize (t : DiskInodeType) : DiskInode :=
  mkInode 0 (replicate 28 0) 0 0 t.

Definition is_dir (di : DiskInode) : bool := bool_decide (type_ di = Directory).
Definition is_file (di : DiskInode) : bool := bool_decide (type_ di = File).

(** [get_block_cache(id, dev).lock().read(0, |b: &IndirectBlock| b[i])] *)
Definition read_indirect (id i : Z) : io Z :=
  read IndirectBlock id 0 (fun indirect_block => io_res (index indirect_block i)).

Definition get_disk_id (di : DiskInode) (inner_id : Z) : io Z :=
  if inner_id <? DIRECT_BOUND then io_res (index (direct di) inner_id)
  else if inner_id <? INDIRECT1_BOUND then
    read_indirect (indirect1 di) (usub inner_id DIRECT_BOUND)
  else
    indirect1_ ← read_indirect (indirect2 di)
                   (usub inner_id INDIRECT1_BOUND / INODE_INDIRECT1_COUNT);
    read_indirect indirect1_ (usub inner_id INDIRECT1_BOUND mod INODE_INDIRECT1_COUNT).

(** [u32] arithmetic *)
Definition _data_blocks (sz : Z) : Z :=
  wrap 32 (wrap 32 (sz + as_u32 BLOCK_SZ) - 1) / as_u32 BLOCK_SZ.

Definition data_blocks (di : DiskInode) : Z := _data_blocks (size di).

Definition total_blocks (sz : Z) : Z :=
  let data_blocks := _data_blocks sz in
  let total := data_blocks in
  let total := if DIRECT_BOUND <? data_blocks then uadd total 1 else total in
  let total :=
    if INDIRECT1_BOUND <? data_blocks then
      uadd (uadd total 1)
        (usub (uadd (usub data_blocks INDIRECT1_BOUND) INODE_INDIRECT1_COUNT) 1 / INODE_INDIRECT1_COUNT)
    else total in
  as_u32 total.

Definition blocks_num_needed (di : DiskInode) (new_size : Z) : res Z :=
  _ ← rassert (size di <=? new_size);
  Ok (wrap 32 (total_blocks new_size - total_blocks (size di))).

(** [while cur < bound { arr[cur] = new_blocks.next().unwrap(); cur += 1; }]; the
    array has at most 128 entries, so 128 rounds end the loop or leave the
    array. *)
Fixpoint fill_loop (fuel : nat) (bound cur : Z) (arr new_blocks : list Z)
  : res (list Z * list Z * Z) :=
  if cur <? bound then
    match fuel with
    | O => Panic OutOfFuel
    | S fuel' =>
        '(x, new_blocks') ← unwrap (pop_front new_blocks);
        arr' ← index_set arr cur x;
        fill_loop fuel' bound (uadd cur 1) arr' new_blocks'
    end
  else Ok (arr, new_blocks, cur).

(** The loop over the second-level index, inside the closure on [indirect2]. *)
Fixpoint fill2_loop (fuel : nat) (a1 b1 a0 b0 : Z) (ind2 new_blocks : list Z)
  : io (list Z * list Z) :=
  if (a0 <? a1) || ((a0 =? a1) && (b0 <? b1)) then
    match fuel with
    | O => Fault OutOfFuel
    | S fuel' =>
        '(ind2', new_blocks1) ← io_res (
          if b0 =? 0 then
            '(x, nb) ← unwrap (pop_front new_blocks);
            ind2' ← index_set ind2 a0 x;
            Ok (ind2', nb)
          else Ok (ind2, new_blocks));
        id ← io_res (index ind2' a0);
        new_blocks2 ← modify IndirectBlock id 0 (fun ind1 =>
          io_res ('(x, nb) ← unwrap (pop_front new_blocks1);
                  ind1' ← index_set ind1 b0 x;
                  Ok (nb, ind1')));
        let b0' := uadd b0 1 in
        if b0' =? INODE_INDIRECT1_COUNT
        then fill2_loop fuel' a1 b1 (uadd a0 1) 0 ind2' new_blocks2
        else fill2_loop fuel' a1 b1 a0 b0' ind2' new_blocks2
    end
  else mret (ind2, new_blocks).

(** At most 128 * 128 data blocks hang below [indirect2]. *)
Definition fill2_fuel : nat := Z.to_nat INODE_INDIRECT2_COUNT.

Definition increase_size (di : DiskInode) (new_size : Z) (new_blocks : list Z) : io DiskInode :=
  let current_blocks := data_blocks di in
  let total := _data_blocks new_size in
  '(direct', new_blocks, current_blocks) ←
    io_res (fill_loop 128 (Z.min INODE_DIRECT_COUNT total) current_blocks (direct di) new_blocks);
  let di := mkInode new_size direct' (indirect1 di) (indirect2 di) (type_ di) in
  if total <=? INODE_DIRECT_COUNT then mret di
  else
    '(indirect1', new_blocks) ← io_res (
      if current_blocks =? INODE_DIRECT_COUNT then unwrap (pop_front new_blocks)
      else Ok (indirect1 di, new_blocks));
    let di := mkInode (size di) (direct di) indirect1' (indirect2 di) (type_ di) in
    let current_blocks := usub current_blocks INODE_DIRECT_COUNT in
    let total := usub total INODE_DIRECT_COUNT in
    '(new_blocks, current_blocks) ← modify IndirectBlock indirect1' 0 (fun ind1 =>
      '(ind1', nb, cur) ← io_res (fill_loop 128 (Z.min INODE_INDIRECT1_COUNT total)
                                    current_blocks ind1 new_blocks);
      mret ((nb, cur), ind1'));
    if total <=? INODE_INDIRECT1_COUNT then mret di
    else
      '(indirect2', new_blocks) ← io_res (
        if current_blocks =? INODE_INDIRECT1_COUNT then unwrap (pop_front new_blocks)
        else Ok (indirect2 di, new_blocks));
      let di := mkInode (size di) (direct di) (indirect1 di) indirect2' (type_ di) in
      let current_blocks := usub current_blocks INODE_INDIRECT1_COUNT in
      let total := usub total INODE_INDIRECT1_COUNT in
      let a0 := current_blocks / INODE_INDIRECT1_COUNT in
      let b0 := current_blocks mod INODE_INDIRECT1_COUNT in
      let a1 := total / INODE_INDIRECT1_COUNT in
      let b1 := total mod INODE_INDIRECT1_COUNT in
      modify IndirectBlock indirect2' 0 (fun ind2 =>
        '(ind2', _) ← fill2_loop fill2_fuel a1 b1 a0 b0 ind2 new_blocks;
        mret (tt, ind2'));;
      mret di.

(** [while cur < bound { v.push(arr[cur]); cur += 1; }] *)
Fixpoint push_loop (fuel : nat) (bound cur : Z) (arr v : list Z) : res (list Z * Z) :=
  if cur <? bound then
    match fuel with
    | O => Panic OutOfFuel
    | S fuel' =>
        x ← index arr cur;
        push_loop fuel' bound (uadd cur 1) arr (vec_push v x)
    end
  else Ok (v, cur).

(** The same loop over [self.direct], which it also zeroes. *)
Fixpoint push_zero_loop (fuel : nat) (bound cur : Z) (arr v : list Z) : res (list Z * list Z * Z) :=
  if cur <? bound then
    match fuel with
    | O => Panic OutOfFuel
    | S fuel' =>
        x ← index arr cur;
        arr' ← index_set arr cur 0;
        push_zero_loop fuel' bound (uadd cur 1) arr' (vec_push v x)
    end
  else Ok (arr, v, cur).

(** Pushes a first-level index block and the first [n] ids it holds. *)
Definition push_sub (n : Z) (v : list Z) (indirect1_id : Z) : io (list Z) :=
  let v := vec_push v indirect1_id in
  modify IndirectBlock indirect1_id 0 (fun ind1 =>
    mret (v ++ take (Z.to_nat n) ind1, ind1)).

Definition clear_size (di : DiskInode) : io (list Z * DiskInode) :=
  let data_blocks := data_blocks di in
  '(direct', v, current_blocks) ←
    io_res (push_zero_loop 128 (Z.min INODE_DIRECT_COUNT data_blocks) 0 (direct di) []);
  let di := mkInode 0 direct' (indirect1 di) (indirect2 di) (type_ di) in
  if data_blocks <=? INODE_DIRECT_COUNT then mret (v, di)
  else
    let v := vec_push v (indirect1 di) in
    let current_blocks := usub current_blocks INODE_DIRECT_COUNT in
    let data_blocks := usub data_blocks INODE_DIRECT_COUNT in
    v ← modify IndirectBlock (indirect1 di) 0 (fun ind1 =>
      '(v, _) ← io_res (push_loop 128 (Z.min INODE_INDIRECT1_COUNT data_blocks) current_blocks ind1 v);
      mret (v, ind1));
    let di := mkInode (size di) (direct di) 0 (indirect2 di) (type_ di) in
    if data_blocks <=? INODE_INDIRECT1_COUNT then mret (v, di)
    else
      let v := vec_push v (indirect2 di) in
      let data_blocks := usub data_blocks INODE_INDIRECT1_COUNT in
      let a1 := data_blocks / INODE_INDIRECT1_COUNT in
      let b1 := data_blocks mod INODE_INDIRECT1_COUNT in
      v ← modify IndirectBlock (indirect2 di) 0 (fun ind2 =>
        v ← io_fold (take (Z.to_nat a1) ind2) (push_sub INODE_INDIRECT1_COUNT) v;
        v ← (if 0 <? b1 then
               id ← io_res (index ind2 a1);
               push_sub b1 v id
             else mret v);
        mret (v, ind2));
      mret (v, mkInode (size di) (direct di) (indirect1 di) 0 (type_ di)).

(** [&buf[lo..lo + n]] and [buf[lo..lo + n].copy_from_slice(src)] *)
Definition slice (buf : list Z) (lo n : Z) : res (list Z) :=
  if (lo <=? uadd lo n) && (uadd lo n <=? Z.of_nat (length buf)) then Ok (bytes_at lo n buf)
  else Panic IndexOutOfRange.

Definition copy_to_slice (buf : list Z) (lo n : Z) (src : list Z) : res (list Z) :=
  d ← slice buf lo n;
  if (length d =? length src)%nat then Ok (splice lo src buf) else Panic PanicCall.

(** The [loop] of [read_at] and of [write_at]. *)
Fixpoint read_loop (fuel : nat) (di : DiskInode) (end_ cur buf_ptr : Z) (buf : list Z)
  : io (Z * list Z) :=
  match fuel with
  | O => Fault OutOfFuel
  | S fuel' =>
      let cur_end := Z.min (umul (uadd (cur / BLOCK_SZ) 1) BLOCK_SZ) end_ in
      let n := usub cur_end cur in
      _ ← io_res (slice buf buf_ptr n);
      id ← get_disk_id di (as_u32 (cur / BLOCK_SZ));
      buf' ← read DataBlock id 0 (fun data_block =>
        io_res (src ← slice data_block (cur mod BLOCK_SZ) n;
                copy_to_slice buf buf_ptr n src));
      let buf_ptr' := uadd buf_ptr n in
      if cur_end =? end_ then mret (buf_ptr', buf')
      else read_loop fuel' di end_ cur_end buf_ptr' buf'
  end.

(** One round per block that the range meets. *)
Definition loop_fuel (len : Z) : nat := S (S (Z.to_nat (len / BLOCK_SZ))).

Definition read_at (di : DiskInode) (offset : Z) (buf : list Z) : io (Z * list Z) :=
  let len := Z.of_nat (length buf) in
  let end_ := Z.min (uadd offset len) (size di) in
  if end_ <=? offset then mret (0, buf)
  else read_loop (loop_fuel len) di end_ offset 0 buf.

Fixpoint write_loop (fuel : nat) (di : DiskInode) (end_ cur buf_ptr : Z) (buf : list Z) : io Z :=
  match fuel with
  | O => Fault OutOfFuel
  | S fuel' =>
      let cur_end := Z.min (umul (uadd (cur / BLOCK_SZ) 1) BLOCK_SZ) end_ in
      let n := usub cur_end cur in
      src ← io_res (slice buf buf_ptr n);
      id ← get_disk_id di (as_u32 (cur / BLOCK_SZ));
      modify DataBlock id 0 (fun data_block =>
        data_block' ← io_res (copy_to_slice data_block (cur mod BLOCK_SZ) n src);
        mret (tt, data_block'));;
      let buf_ptr' := uadd buf_ptr n in
      if cur_end =? end_ then mret buf_ptr'
      else write_loop fuel' di end_ cur_end buf_ptr' buf
  end.

Definition write_at (di : DiskInode) (offset : Z) (buf : list Z) : io Z :=
  let len := Z.of_nat (length buf) in
  let end_ := Z.min (uadd offset len) (size di) in
  io_assert (offset <=? end_);;
  write_loop (loop_fuel len) di end_ offset 0 buf.

(** ** [DirEntry]

    A name is its UTF-8 bytes. *)

Record DirEntry := mkDirEntry {
  name_ : list Z;
  inode_id : Z;
}.

Definition DIRENTRY_SZ : Z := 32.

Definition DirEntry_zero_init : DirEntry := mkDirEntry (replicate 28 0) 0.

Definition DirEntry_new (name : list Z) (inode_id : Z) : res DirEntry :=
  bytes ← copy_to_slice (replicate 28 0) 0 (Z.of_nat (length name)) name;
  Ok (mkDirEntry bytes inode_id).

Definition as_bytes (e : DirEntry) : list Z := name_ e ++ enc_word 4 (inode_id e).

(** The entry whose bytes [as_bytes_mut] exposed were overwritten with [bs]. *)
Definition DirEntry_of_bytes (bs : list Z) : DirEntry :=
  mkDirEntry (take 28 bs) (dec_word (take 4 (drop 28 bs))).

(** [core::str::from_utf8]: the well-formed sequences of the Unicode standard. *)
Definition cont (b : Z) : bool := (128 <=? b) && (b <=? 191).
Definition between (lo hi b : Z) : bool := (lo <=? b) && (b <=? hi).

Fixpoint is_utf8 (fuel : nat) (bs : list Z) : bool :=
  match fuel, bs with
  | _, [] => true
  | O, _ => false
  | S f, b :: r =>
      if between 0 127 b then is_utf8 f r
      else if between 194 223 b then
        match r with c :: r => cont c && is_utf8 f r | _ => false end
      else if between 224 239 b then
        match r with
        | c :: d :: r =>
            between (if b =? 224 then 160 else 128) (if b =? 237 then 159 else 191) c && cont d &&
            is_utf8 f r
        | _ => false
        end
      else if between 240 244 b then
        match r with
        | c :: d :: e :: r =>
            between (if b =? 240 then 144 else 128) (if b =? 244 then 143 else 191) c && cont d &&
            cont e && is_utf8 f r
        | _ => false
        end
      else false
  end.

Definition from_utf8 (bs : list Z) : res (list Z) :=
  if is_utf8 (length bs) bs then Ok bs else Panic UnwrapNone.

(** [(0usize..).find(|i| self.name[*i] == 0)] walks until a zero or out of the
    array. *)
Definition name (e : DirEntry) : res (list Z) :=
  len ← match find_index (fun b => b =? 0) (name_ e) with
        | Some i => Ok i
        | None => Panic IndexOutOfRange
        end;
  from_utf8 (take len (name_ e)).

(** * Layout lemmas *)

#[local] Arguments enc_words : simpl never.
#[local] Arguments dec_words : simpl never.
#[local] Arguments enc_word : simpl never.

Lemma IndirectBlock_ok : layout_ok IndirectBlock (words_ok 4 128).
Proof. apply word_array_ok. lia. Qed.

Definition valid_super (s : SuperBlock) : Prop := Forall is_u32 (SuperBlock_words s).

Lemma SuperBlock_ok : layout_ok SuperBlock_layout valid_super.
Proof.
  split; cbn [size_of decode encode SuperBlock_layout].
  - lia.
  - intros s _. rewrite length_enc_words. simpl. lia.
  - intros s _. apply enc_words_bytes.
  - intros bs Hb Hl. destruct (dec_words_ok 4 6 bs Hb) as [Hlen Hf]; [lia|].
    revert Hlen Hf. generalize (dec_words 4 6 bs) as w. intros w Hlen Hf.
    do 6 (destruct w as [|? w]; [done|]). destruct w; [exact Hf|done].
  - intros s pad Hs _. rewrite dec_enc_words by (by split). by destruct s.
Qed.

Definition valid_inode (di : DiskInode) : Prop :=
  length (direct di) = 28%nat /\ Forall is_u32 (DiskInode_words di).

Lemma DiskInode_words_ok di : valid_inode di -> words_ok 4 31 (DiskInode_words di).
Proof.
  intros [Hl Hf]. split; [|done]. simpl. rewrite length_app, Hl. done.
Qed.

Lemma DiskInode_ok : layout_ok DiskInode_layout valid_inode.
Proof.
  split; cbn [size_of decode encode DiskInode_layout].
  - lia.
  - intros di Hd%DiskInode_words_ok. rewrite length_app, length_enc_words, (proj1 Hd). simpl. lia.
  - intros di _. apply Forall_app; split; [apply enc_words_bytes|]. constructor; [|done].
    unfold is_u8. destruct (type_ di); simpl; lia.
  - intros bs Hb Hl. destruct (dec_words_ok 4 31 bs Hb) as [Hlen Hf]; [lia|].
    set (w := dec_words 4 31 bs) in *. assert (Hin : forall i, (i < 31)%nat -> is_u32 (w !!! i)).
    { intros i Hi. rewrite Forall_lookup in Hf. apply (Hf i), list_lookup_lookup_total_lt. lia. }
    split; cbn [direct size indirect1 indirect2 DiskInode_words].
    + rewrite length_take, length_drop. lia.
    + constructor; [apply Hin; lia|]. apply Forall_app; split.
      * by apply Forall_take, Forall_drop.
      * repeat constructor; apply Hin; lia.
  - intros di pad Hd Hl. pose proof (DiskInode_words_ok di Hd) as Hw.
    rewrite <- app_assoc, dec_enc_words by done. cbn [app].
    rewrite list_lookup_total_middle.
    2: { by rewrite length_enc_words, (proj1 Hw). }
    destruct di as [sz dr i1 i2 ty]. destruct Hd as [Hlen _].
    unfold DiskInode_words. cbn [size direct indirect1 indirect2 type_] in *.
    set (r := dr ++ [i1; i2]).
    change (drop 1 (sz :: r)) with r. change ((sz :: r) !!! 29%nat) with (r !!! 28%nat).
    change ((sz :: r) !!! 30%nat) with (r !!! 29%nat). unfold r.
    rewrite take_app_length', !lookup_total_app_r, Hlen by lia. by destruct ty.
Qed.

(** * The reference view of an inode *)

Definition words_at (L : gmap Z (list Z)) (id : Z) : list Z :=
  match L !! id with Some b => dec_words 4 128 b | None => [] end.

Definition sub_id (L : gmap Z (list Z)) (di : DiskInode) (a : Z) : Z :=
  words_at L (indirect2 di) !!! Z.to_nat a.

(** The disk block of the [i]-th data block. *)
Definition block_id (L : gmap Z (list Z)) (di : DiskInode) (i : Z) : Z :=
  if i <? 28 then direct di !!! Z.to_nat i
  else if i <? 156 then words_at L (indirect1 di) !!! Z.to_nat (i - 28)
  else words_at L (sub_id L di ((i - 156) / 128)) !!! Z.to_nat ((i - 156) mod 128).

(** The index blocks that come into use with the [i]-th data block. *)
Definition meta_group (L : gmap Z (list Z)) (di : DiskInode) (i : Z) : list Z :=
  (if i =? 28 then [indirect1 di] else []) ++
  (if i =? 156 then [indirect2 di] else []) ++
  (if (156 <=? i) && ((i - 156) mod 128 =? 0) then [sub_id L di ((i - 156) / 128)] else []).

Definition group (L : gmap Z (list Z)) (di : DiskInode) (i : Z) : list Z :=
  meta_group L di i ++ [block_id L di i].

(** All blocks of an inode with [n] data blocks, and its index blocks. *)
Definition all_ids (L : gmap Z (list Z)) (di : DiskInode) (n : Z) : list Z :=
  seqZ 0 n ≫= group L di.
Definition meta_ids (L : gmap Z (list Z)) (di : DiskInode) (n : Z) : list Z :=
  seqZ 0 n ≫= meta_group L di.

(** The [k]-th byte of the file. *)
Definition fbyte (L : gmap Z (list Z)) (di : DiskInode) (k : Z) : Z :=
  match L !! block_id L di (k / 512) with
  | Some b => b !!! Z.to_nat (k mod 512)
  | None => 0
  end.

Definition fbytes (L : gmap Z (list Z)) (di : DiskInode) (off n : Z) : list Z :=
  fbyte L di <$> seqZ off n.

(** The blocks of the inode exist, are distinct and are not locked. *)
Record inode_ok (L : gmap Z (list Z)) (H : list Z) (di : DiskInode) (n : Z) : Prop := {
  io_valid : valid_inode di;
  io_count : 0 <= n <= 16540;
  io_nodup : NoDup (all_ids L di n);
  io_present : forall id, id ∈ all_ids L di n -> is_Some (L !! id);
  io_unlocked : forall id, id ∈ all_ids L di n -> id ∉ H;
}.

(** * Index blocks *)

Definition set_words (id : Z) (ws : list Z) (L : gmap Z (list Z)) : gmap Z (list Z) :=
  <[id := enc_words 4 ws]> L.

Lemma words_at_ok L id : disk_ok L -> is_Some (L !! id) -> words_ok 4 128 (words_at L id).
Proof.
  intros HL [b Hb]. unfold words_at. rewrite Hb. destruct (HL _ _ Hb) as [Hl Hby].
  apply dec_words_ok; [done|lia].
Qed.

Lemma words_at_decode L id b :
  L !! id = Some b -> length b = 512%nat ->
  decode IndirectBlock (bytes_at 0 (size_of IndirectBlock) b) = words_at L id.
Proof.
  intros Hb Hl. unfold words_at. rewrite Hb. change (size_of IndirectBlock) with 512.
  by rewrite bytes_at_all.
Qed.

Lemma words_at_set_eq L id ws : words_ok 4 128 ws -> words_at (set_words id ws L) id = ws.
Proof.
  intros Hw. unfold words_at, set_words. rewrite lookup_insert_eq.
  rewrite <- (app_nil_r (enc_words 4 ws)). by apply dec_enc_words.
Qed.

Lemma words_at_set_ne L id ws id' : id <> id' -> words_at (set_words id ws L) id' = words_at L id'.
Proof. intros Hne. unfold words_at, set_words. by rewrite lookup_insert_ne. Qed.

Lemma words_at_same L L' id : L' !! id = L !! id -> words_at L' id = words_at L id.
Proof. intros E. unfold words_at. by rewrite E. Qed.

Lemma lookup_set_words_ne L id ws id' : id <> id' -> set_words id ws L !! id' = L !! id'.
Proof. apply lookup_insert_ne. Qed.

Lemma words_at_index L id i :
  disk_ok L -> is_Some (L !! id) -> 0 <= i < 128 ->
  index (words_at L id) i = Ok (words_at L id !!! Z.to_nat i).
Proof.
  intros HL Hid Hi. apply index_Ok. split; [lia|].
  apply list_lookup_lookup_total_lt. rewrite (proj1 (words_at_ok L id HL Hid)). lia.
Qed.

Lemma wp_modify_indirect {A} id (f : list Z -> io (A * list Z)) L H Q :
  is_Some (L !! id) -> id ∉ H -> (length H < 16)%nat ->
  (words_ok 4 128 (words_at L id) ->
   wp (f (words_at L id)) L (id :: H)
     (fun '(v, ws) L' => words_ok 4 128 ws /\ Q v (set_words id ws L'))) ->
  wp (modify IndirectBlock id 0 f) L H Q.
Proof.
  intros Hid Hni HH Hf. apply wp_disk_ok. intros HL. pose proof Hid as [b Hb].
  destruct (HL _ _ Hb) as [Hl Hby].
  eapply (wp_modify IndirectBlock); [apply IndirectBlock_ok|done|done|done|done|done|].
  rewrite (words_at_decode L id b Hb Hl). intros Hw. eapply wp_mono; [by apply Hf|].
  intros [v ws] L' _ _ [Hws HQ]. split; [done|]. change (encode IndirectBlock ws) with (enc_words 4 ws).
  rewrite splice_all; [done| |done]. by rewrite length_enc_words, (proj1 Hws).
Qed.

Lemma wp_read_indirect id i L H :
  is_Some (L !! id) -> id ∉ H -> (length H < 16)%nat -> 0 <= i < 128 ->
  wp (read_indirect id i) L H (fun v L' => v = words_at L id !!! Z.to_nat i /\ L' = L).
Proof.
  intros Hid Hni HH Hi. apply wp_disk_ok. intros HL. pose proof Hid as [b Hb].
  destruct (HL _ _ Hb) as [Hl Hby]. unfold read_indirect.
  eapply (wp_read IndirectBlock); [apply IndirectBlock_ok|done|done|done|done|done|].
  rewrite (words_at_decode L id b Hb Hl). intros _.
  by eapply wp_res; [apply words_at_index|].
Qed.

(** * Membership and distinctness of the blocks of an inode *)

Lemma all_ids_succ L di n : 0 <= n -> all_ids L di (n + 1) = all_ids L di n ++ group L di n.
Proof.
  intros Hn. unfold all_ids. rewrite seqZ_app, Z.add_0_l by lia. rewrite bind_app. f_equal.
  simpl. by rewrite app_nil_r.
Qed.

Lemma elem_of_all_ids L di n id :
  id ∈ all_ids L di n <-> exists i, 0 <= i < n /\ id ∈ group L di i.
Proof.
  unfold all_ids. rewrite list_elem_of_bind. split.
  - intros (i & Hid & Hi). apply elem_of_seqZ in Hi. exists i. split; [lia|done].
  - intros (i & Hi & Hid). exists i. split; [done|]. apply elem_of_seqZ. lia.
Qed.

Lemma all_ids_ext L di L' di' n :
  (forall i, 0 <= i < n -> group L' di' i = group L di i) -> all_ids L' di' n = all_ids L di n.
Proof.
  intros Hg. unfold all_ids. apply Forall_bind_ext, Forall_forall.
  intros i Hi%elem_of_seqZ. apply Hg. lia.
Qed.

Lemma block_id_in_group L di i : block_id L di i ∈ group L di i.
Proof. unfold group. set_solver. Qed.

Lemma indirect1_in_group L di : indirect1 di ∈ group L di 28.
Proof. unfold group, meta_group. simpl. set_solver. Qed.

Lemma indirect2_in_group L di : indirect2 di ∈ group L di 156.
Proof. unfold group, meta_group. simpl. set_solver. Qed.

Lemma sub_id_in_group L di a : 0 <= a -> sub_id L di a ∈ group L di (156 + 128 * a).
Proof.
  intros Ha. unfold group, meta_group.
  replace ((156 + 128 * a - 156) / 128) with a by lia.
  rewrite (proj2 (Z.leb_le _ _)), (proj2 (Z.eqb_eq ((156 + 128 * a - 156) mod 128) 0)) by lia.
  simpl. set_solver.
Qed.

Lemma seqZ_bind_disjoint {A} (f : Z -> list A) n i j x :
  NoDup (seqZ 0 n ≫= f) -> 0 <= i < j -> j < n -> x ∈ f i -> x ∈ f j -> False.
Proof.
  intros Hnd Hi Hj Hxi Hxj. replace n with (j + (n - j)) in Hnd by lia.
  rewrite seqZ_app, bind_app in Hnd by lia. apply NoDup_app in Hnd as (_ & Hd & _).
  apply (Hd x).
  - apply list_elem_of_bind. exists i. split; [done|]. apply elem_of_seqZ. lia.
  - apply list_elem_of_bind. exists j. split; [done|]. apply elem_of_seqZ. lia.
Qed.

Lemma groups_disjoint L di n i j x :
  NoDup (all_ids L di n) -> 0 <= i < n -> 0 <= j < n -> i <> j ->
  x ∈ group L di i -> x ∈ group L di j -> False.
Proof.
  intros Hnd Hi Hj Hne Hxi Hxj. destruct (decide (i < j)).
  - eapply (seqZ_bind_disjoint (group L di) n i j x); [done|lia|lia|done|done].
  - eapply (seqZ_bind_disjoint (group L di) n j i x); [done|lia|lia|done|done].
Qed.

Lemma block_id_inj L di n i j :
  NoDup (all_ids L di n) -> 0 <= i < n -> 0 <= j < n ->
  block_id L di i = block_id L di j -> i = j.
Proof.
  intros Hnd Hi Hj E. destruct (decide (i = j)) as [|Hne]; [done|]. exfalso.
  eapply (groups_disjoint L di n i j); [done|done|done|done|apply block_id_in_group|].
  rewrite E. apply block_id_in_group.
Qed.

Lemma NoDup_group L di n i : NoDup (all_ids L di n) -> 0 <= i < n -> NoDup (group L di i).
Proof.
  intros Hnd Hi. replace n with ((i + 1) + (n - (i + 1))) in Hnd by lia.
  unfold all_ids in Hnd. rewrite seqZ_app, bind_app in Hnd by lia.
  apply NoDup_app in Hnd as (Hnd & _ & _). fold (all_ids L di (i + 1)) in Hnd.
  rewrite all_ids_succ in Hnd by lia. by apply NoDup_app in Hnd as (_ & _ & ?).
Qed.

(** Data blocks and index blocks are different blocks. *)
Lemma block_id_not_meta L di n i j x :
  NoDup (all_ids L di n) -> 0 <= i < n -> 0 <= j < n -> x ∈ meta_group L di j ->
  block_id L di i <> x.
Proof.
  intros Hnd Hi Hj Hx <-. destruct (decide (i = j)) as [->|Hne].
  - pose proof (NoDup_group L di n j Hnd Hj) as Hg. unfold group in Hg.
    apply NoDup_app in Hg as (_ & Hd & _). apply (Hd _ Hx). set_solver.
  - eapply (groups_disjoint L di n i j); [done|done|done|done|apply block_id_in_group|].
    unfold group. set_solver.
Qed.

Lemma group_in_all_ids L di n i x : 0 <= i < n -> x ∈ group L di i -> x ∈ all_ids L di n.
Proof. intros Hi Hx. apply elem_of_all_ids. eauto. Qed.

Lemma block_id_in L di n i : 0 <= i < n -> block_id L di i ∈ all_ids L di n.
Proof. intros Hi. eapply group_in_all_ids; [done|apply block_id_in_group]. Qed.

Lemma indirect1_in L di n : 28 < n -> indirect1 di ∈ all_ids L di n.
Proof. intros Hn. apply (group_in_all_ids L di n 28); [lia|apply indirect1_in_group]. Qed.

Lemma indirect2_in L di n : 156 < n -> indirect2 di ∈ all_ids L di n.
Proof. intros Hn. apply (group_in_all_ids L di n 156); [lia|apply indirect2_in_group]. Qed.

Lemma sub_id_in L di n a : 0 <= a -> 156 + 128 * a < n -> sub_id L di a ∈ all_ids L di n.
Proof. intros Ha Hn. eapply group_in_all_ids; [|by apply sub_id_in_group]. lia. Qed.

(** * [get_disk_id] *)

Lemma get_disk_id_spec L H di n i :
  inode_ok L H di n -> (length H < 16)%nat -> 0 <= i < n ->
  wp (get_disk_id di i) L H (fun v L' => v = block_id L di i /\ L' = L).
Proof.
  intros [[Hdl _] Hn _ Hp Hu] HH Hi. unfold get_disk_id, block_id.
  change DIRECT_BOUND with 28. change INDIRECT1_BOUND with 156. change INODE_INDIRECT1_COUNT with 128.
  destruct (i <? 28) eqn:E1; bool_to_Prop.
  { eapply wp_res; [|done]. apply index_Ok. split; [lia|].
    apply list_lookup_lookup_total_lt. lia. }
  destruct (i <? 156) eqn:E2; bool_to_Prop.
  { pose proof (indirect1_in L di n ltac:(lia)) as Hin. rewrite usub_small by lia.
    apply wp_read_indirect; [by apply Hp|by apply Hu|done|lia]. }
  rewrite usub_small by lia.
  pose proof (indirect2_in L di n ltac:(lia)) as Hin2.
  pose proof (sub_id_in L di n ((i - 156) / 128) ltac:(lia) ltac:(lia)) as Hins.
  apply wp_bind. eapply wp_mono.
  { apply (wp_read_indirect (indirect2 di) ((i - 156) / 128)); [by apply Hp|by apply Hu|done|lia]. }
  intros v L' _ _ [-> ->]. fold (sub_id L di ((i - 156) / 128)).
  apply wp_read_indirect; [by apply Hp|by apply Hu|done|lia].
Qed.

(** * Sizes *)

Definition MAX_SIZE : Z := 16540 * 512.

Lemma data_blocks_spec sz : 0 <= sz <= MAX_SIZE -> _data_blocks sz = (sz + 511) / 512.
Proof.
  unfold MAX_SIZE. intros. unfold _data_blocks. change (as_u32 BLOCK_SZ) with 512.
  rewrite (wrap_small 32 (sz + 512)), wrap_small by lia. f_equal. lia.
Qed.

(** * Reading *)

Lemma slice_ok buf lo n :
  0 <= lo -> 0 <= n -> lo + n <= Z.of_nat (length buf) -> Z.of_nat (length buf) < 2 ^ 64 ->
  slice buf lo n = Ok (bytes_at lo n buf).
Proof.
  intros. unfold slice. rewrite uadd_small by lia.
  by rewrite (proj2 (Z.leb_le _ _)), (proj2 (Z.leb_le _ _)) by lia.
Qed.

Lemma copy_to_slice_ok buf lo n src :
  0 <= lo -> Z.of_nat (length src) = n -> lo + n <= Z.of_nat (length buf) ->
  Z.of_nat (length buf) < 2 ^ 64 -> copy_to_slice buf lo n src = Ok (splice lo src buf).
Proof.
  intros Hlo Hn Hle Hlt. unfold copy_to_slice. rewrite slice_ok by lia. simpl.
  rewrite length_bytes_at by lia. rewrite <- Hn, Nat2Z.id. by rewrite Nat.eqb_refl.
Qed.

Lemma length_fbytes L di off n : length (fbytes L di off n) = Z.to_nat n.
Proof. unfold fbytes. by rewrite length_fmap, length_seqZ. Qed.

Lemma fbytes_add L di off a b :
  0 <= a -> 0 <= b -> fbytes L di off (a + b) = fbytes L di off a ++ fbytes L di (off + a) b.
Proof. intros. unfold fbytes. by rewrite seqZ_app, fmap_app by lia. Qed.

Lemma lookup_fbytes L di off n (i : nat) :
  Z.of_nat i < n -> fbytes L di off n !! i = Some (fbyte L di (off + Z.of_nat i)).
Proof. intros. unfold fbytes. by rewrite list_lookup_fmap, lookup_seqZ_lt by lia. Qed.

(** Bytes of one block are consecutive bytes of the file. *)
Lemma fbytes_block L di cur m b :
  0 <= cur -> 0 <= m -> cur mod 512 + m <= 512 ->
  L !! block_id L di (cur / 512) = Some b -> length b = 512%nat ->
  bytes_at (cur mod 512) m b = fbytes L di cur m.
Proof.
  intros Hc Hm Hle Hb Hl. apply list_eq. intros i. destruct (decide (Z.of_nat i < m)).
  - rewrite lookup_bytes_at, lookup_fbytes by lia. unfold fbyte.
    replace ((cur + Z.of_nat i) / 512) with (cur / 512) by lia. rewrite Hb.
    replace (Z.to_nat ((cur + Z.of_nat i) mod 512)) with (Z.to_nat (cur mod 512) + i)%nat by lia.
    apply list_lookup_lookup_total_lt. lia.
  - rewrite !lookup_ge_None_2; [done|rewrite length_fbytes; lia|rewrite length_bytes_at; lia].
Qed.

Lemma splice_app pre v rest off :
  off = Z.of_nat (length pre) -> splice off v (pre ++ rest) = pre ++ v ++ drop (length v) rest.
Proof.
  intros ->. unfold splice. rewrite Nat2Z.id, take_app_length.
  rewrite <- drop_drop, drop_app_length. done.
Qed.

(** The end of the current round, as the source computes it. *)
Lemma round_end cur end_ :
  0 <= cur < end_ -> end_ <= MAX_SIZE ->
  let ce := Z.min (umul (uadd (cur / BLOCK_SZ) 1) BLOCK_SZ) end_ in
  ce = Z.min ((cur / 512 + 1) * 512) end_ /\ usub ce cur = ce - cur /\
  0 < ce - cur /\ cur mod 512 + (ce - cur) <= 512 /\ as_u32 (cur / BLOCK_SZ) = cur / 512.
Proof.
  unfold MAX_SIZE, BLOCK_SZ. intros Hc He.
  rewrite uadd_small, umul_small by lia. split_and!; [done| |lia|lia|].
  - rewrite usub_small; lia.
  - unfold as_u32. rewrite wrap_small; lia.
Qed.

Record in_file (L : gmap Z (list Z)) (H : list Z) (di : DiskInode) : Prop := {
  if_size : 0 <= size di <= MAX_SIZE;
  if_ok : inode_ok L H di (data_blocks di);
  if_locks : (length H < 16)%nat;
}.

Lemma in_file_block L H di k :
  in_file L H di -> 0 <= k < size di ->
  0 <= k / 512 < data_blocks di /\
  is_Some (L !! block_id L di (k / 512)) /\ block_id L di (k / 512) ∉ H.
Proof.
  intros [Hsz [_ _ _ Hp Hu] _] Hk.
  assert (0 <= k / 512 < data_blocks di) as Hr.
  { unfold data_blocks. rewrite data_blocks_spec by done. lia. }
  pose proof (block_id_in L di _ _ Hr). auto.
Qed.

Lemma read_loop_spec fuel L H di off end_ cur buf0 :
  in_file L H di -> 0 <= off <= cur -> cur < end_ -> end_ <= size di ->
  end_ - off <= Z.of_nat (length buf0) -> Z.of_nat (length buf0) < 2 ^ 64 ->
  (end_ - 1) / 512 - cur / 512 < Z.of_nat fuel ->
  wp (read_loop fuel di end_ cur (cur - off)
        (fbytes L di off (cur - off) ++ drop (Z.to_nat (cur - off)) buf0)) L H
    (fun r L' => r = (end_ - off, fbytes L di off (end_ - off) ++ drop (Z.to_nat (end_ - off)) buf0) /\
       L' = L).
Proof.
  intros Hif Hoff Hcur Hend Hlen Hmax. pose proof (if_size _ _ _ Hif) as Hsz.
  revert cur Hoff Hcur. induction fuel as [|fuel IH]; intros cur Hoff Hcur Hfuel; [lia|].
  cbn [read_loop]. destruct (round_end cur end_) as (Hce & Hn & Hpos & Hfit & Hidx); [lia|lia|].
  cbv zeta in *. set (ce := Z.min (umul _ _) end_) in *. rewrite Hn, Hidx. change BLOCK_SZ with 512.
  set (buf := fbytes L di off (cur - off) ++ _).
  assert (Hbl : length buf = length buf0).
  { unfold buf. rewrite length_app, length_fbytes, length_drop. lia. }
  apply wp_bind. eapply wp_res; [apply slice_ok; lia|]. apply wp_bind.
  destruct (in_file_block L H di cur Hif ltac:(lia)) as (Hr & [b Hb] & Hni).
  eapply wp_mono; [apply (get_disk_id_spec L H di (data_blocks di) (cur / 512)); [apply Hif|apply Hif|done]|].
  intros id L' _ _ [-> ->]. apply wp_bind, wp_disk_ok. intros HL. destruct (HL _ _ Hb) as [Hb512 _].
  eapply (wp_read DataBlock); [apply DataBlock_ok|exact Hb|done|apply Hif|done|done|]. intros _.
  cbn [DataBlock size_of decode]. change BLOCK_SZ with 512. rewrite bytes_at_all by done.
  eapply wp_res.
  { rewrite slice_ok by lia. cbn [mbind res_bind]. apply copy_to_slice_ok; [lia| |lia|lia].
    rewrite length_bytes_at; lia. }
  rewrite (fbytes_block L di cur) by (done || lia).
  assert (Hbuf : splice (cur - off) (fbytes L di cur (ce - cur)) buf =
    fbytes L di off (ce - off) ++ drop (Z.to_nat (ce - off)) buf0).
  { unfold buf. rewrite splice_app by (rewrite length_fbytes; lia).
    replace (ce - off) with ((cur - off) + (ce - cur)) at 1 by lia. rewrite fbytes_add by lia.
    rewrite <- app_assoc. replace (off + (cur - off)) with cur by lia.
    rewrite length_fbytes, drop_drop. do 3 f_equal. lia. }
  rewrite Hbuf, uadd_small by lia. replace (cur - off + (ce - cur)) with (ce - off) by lia.
  destruct (ce =? end_) eqn:E; bool_to_Prop.
  - apply wp_ret. by rewrite E.
  - apply IH; lia.
Qed.

Lemma read_at_spec L H di off buf :
  in_file L H di -> 0 <= off -> off + Z.of_nat (length buf) < 2 ^ 64 ->
  let n := Z.max 0 (Z.min (Z.of_nat (length buf)) (size di - off)) in
  wp (read_at di off buf) L H
    (fun r L' => r = (n, fbytes L di off n ++ drop (Z.to_nat n) buf) /\ L' = L).
Proof.
  intros Hif Hoff Hlen n. unfold read_at. rewrite uadd_small by lia.
  pose proof (if_size _ _ _ Hif) as Hsz. unfold MAX_SIZE in Hsz.
  destruct (_ <=? off) eqn:E; bool_to_Prop.
  - apply wp_ret. replace n with 0 by lia. done.
  - set (end_ := Z.min (off + Z.of_nat (length buf)) (size di)) in *. replace n with (end_ - off) by lia.
    assert (Hnn : 0 <= end_ / 512) by lia.
    pose proof (read_loop_spec (loop_fuel (Z.of_nat (length buf))) L H di off end_ off buf) as Hrl.
    rewrite Z.sub_diag in Hrl. apply Hrl; try lia; [done|].
    unfold loop_fuel, BLOCK_SZ. lia.
Qed.

(** * Writing *)

Lemma elem_of_meta_ids L di n id :
  id ∈ meta_ids L di n <-> exists i, 0 <= i < n /\ id ∈ meta_group L di i.
Proof.
  unfold meta_ids. rewrite list_elem_of_bind. split.
  - intros (i & Hid & Hi). apply elem_of_seqZ in Hi. exists i. split; [lia|done].
  - intros (i & Hi & Hid). exists i. split; [done|]. apply elem_of_seqZ. lia.
Qed.

Lemma indirect1_meta L di n : 28 < n -> indirect1 di ∈ meta_ids L di n.
Proof.
  intros Hn. apply elem_of_meta_ids. exists 28. split; [lia|]. unfold meta_group. simpl. set_solver.
Qed.

Lemma indirect2_meta L di n : 156 < n -> indirect2 di ∈ meta_ids L di n.
Proof.
  intros Hn. apply elem_of_meta_ids. exists 156. split; [lia|]. unfold meta_group. simpl. set_solver.
Qed.

Lemma sub_id_meta L di n a : 0 <= a -> 156 + 128 * a < n -> sub_id L di a ∈ meta_ids L di n.
Proof.
  intros Ha Hn. apply elem_of_meta_ids. exists (156 + 128 * a). split; [lia|]. unfold meta_group.
  replace ((156 + 128 * a - 156) / 128) with a by lia.
  rewrite (proj2 (Z.leb_le _ _)), (proj2 (Z.eqb_eq ((156 + 128 * a - 156) mod 128) 0)) by lia.
  simpl. set_solver.
Qed.

(** The index of an inode depends on its index blocks only. *)
Lemma block_id_frame L L' di n i :
  (forall id, id ∈ meta_ids L di n -> L' !! id = L !! id) -> 0 <= i < n ->
  block_id L' di i = block_id L di i.
Proof.
  intros Hm Hi. unfold block_id. destruct (i <? 28) eqn:E1; [done|].
  destruct (i <? 156) eqn:E2; bool_to_Prop.
  - by rewrite (words_at_same L L') by (apply Hm, indirect1_meta; lia).
  - unfold sub_id. rewrite (words_at_same L L' (indirect2 di)) by (apply Hm, indirect2_meta; lia).
    rewrite (words_at_same L L'); [done|]. apply Hm, sub_id_meta; lia.
Qed.

Lemma group_frame L L' di n i :
  (forall id, id ∈ meta_ids L di n -> L' !! id = L !! id) -> 0 <= i < n ->
  group L' di i = group L di i.
Proof.
  intros Hm Hi. unfold group. rewrite (block_id_frame L L' di n i) by done. f_equal.
  unfold meta_group. do 2 f_equal. destruct (_ && _) eqn:E; bool_to_Prop; [|done].
  unfold sub_id. by rewrite (words_at_same L L' (indirect2 di)) by (apply Hm, indirect2_meta; lia).
Qed.

Lemma inode_ok_frame L L' H di n :
  inode_ok L H di n -> dom L' = dom L ->
  (forall id, id ∈ meta_ids L di n -> L' !! id = L !! id) ->
  inode_ok L' H di n /\ all_ids L' di n = all_ids L di n.
Proof.
  intros [Hv Hn Hnd Hp Hu] Hdom Hm.
  assert (all_ids L' di n = all_ids L di n) as E.
  { apply all_ids_ext. intros i Hi. by apply (group_frame L L' di n). }
  split; [|done]. split; [done|done| | |]; rewrite E; try done.
  intros id Hid. apply elem_of_dom. rewrite Hdom. apply elem_of_dom. auto.
Qed.

Definition is_data (L : gmap Z (list Z)) (di : DiskInode) (n id : Z) : Prop :=
  exists i, 0 <= i < n /\ block_id L di i = id.

Lemma meta_not_data L di n id : NoDup (all_ids L di n) -> id ∈ meta_ids L di n -> ~ is_data L di n id.
Proof.
  intros Hnd (j & Hj & Hid)%elem_of_meta_ids (i & Hi & E). by eapply (block_id_not_meta L di n i j id).
Qed.

(** The bytes [lo..hi) of the file are now [v], and only data blocks changed. *)
Record written (L L' : gmap Z (list Z)) (di : DiskInode) (n lo hi : Z) (v : Z -> Z) : Prop := {
  wr_bytes : forall k, 0 <= k < 512 * n ->
    fbyte L' di k = if decide (lo <= k < hi) then v k else fbyte L di k;
  wr_frame : forall id, ~ is_data L di n id -> L' !! id = L !! id;
}.

Lemma written_meta L L' di n lo hi v H :
  inode_ok L H di n -> written L L' di n lo hi v ->
  forall id, id ∈ meta_ids L di n -> L' !! id = L !! id.
Proof.
  intros Hok [_ Hf] id Hid. apply Hf, meta_not_data; [apply Hok|done].
Qed.

Lemma written_trans L L1 L2 di n lo mid hi v H :
  inode_ok L H di n -> lo <= mid <= hi ->
  written L L1 di n lo mid v -> written L1 L2 di n mid hi v -> written L L2 di n lo hi v.
Proof.
  intros Hok Hle H1 H2. pose proof (written_meta _ _ _ _ _ _ _ _ Hok H1) as Hm.
  destruct H1 as [Hb1 Hf1], H2 as [Hb2 Hf2]. split.
  - intros k Hk. rewrite Hb2, Hb1 by done. repeat case_decide; done || lia.
  - intros id Hid. rewrite Hf2, Hf1; [done|done|]. intros (i & Hi & E). apply Hid. exists i.
    split; [done|]. by rewrite <- (block_id_frame L L1 di n i).
Qed.

(** One block written. *)
Lemma written_block L H di n cur m src b :
  inode_ok L H di n -> 0 <= cur / 512 < n -> 0 <= cur -> cur mod 512 + m <= 512 ->
  L !! block_id L di (cur / 512) = Some b -> length b = 512%nat -> Z.of_nat (length src) = m ->
  written L (<[block_id L di (cur / 512) := splice (cur mod 512) src b]> L) di n cur (cur + m)
    (fun k => src !!! Z.to_nat (k - cur)).
Proof.
  intros Hok Hr Hc Hfit Hb Hl Hm. set (L1 := <[_ := _]> L). assert (Hmeta : forall id, id ∈ meta_ids L di n -> L1 !! id = L !! id).
  { intros id Hid. apply lookup_insert_ne. intros E. eapply (meta_not_data L di n id); [apply Hok|done|].
    by exists (cur / 512). }
  split.
  - intros k Hk. unfold fbyte. rewrite (block_id_frame L L1 di n) by (done || lia).
    destruct (decide (k / 512 = cur / 512)) as [E|E].
    + rewrite E, Hb. unfold L1. rewrite lookup_insert_eq.
      rewrite list_lookup_total_alt, lookup_splice by lia. repeat case_decide; try lia.
      * rewrite <- list_lookup_total_alt. f_equal. lia.
      * by rewrite <- list_lookup_total_alt.
    + unfold L1. rewrite lookup_insert_ne; [|intros E'; apply E; symmetry; eapply (block_id_inj L di n);
        [apply Hok|lia|lia|done]].
      rewrite decide_False by lia. done.
  - intros id Hid. apply lookup_insert_ne. intros <-. apply Hid. by exists (cur / 512).
Qed.

Lemma written_in_file L L' H di lo hi v :
  in_file L H di -> dom L' = dom L -> written L L' di (data_blocks di) lo hi v -> in_file L' H di.
Proof.
  intros [Hsz Hok Hl] Hd Hw. split; [done| |done].
  apply (inode_ok_frame L L'); [done|done|by eapply written_meta].
Qed.

Lemma write_loop_spec fuel L H di off end_ cur buf :
  in_file L H di -> bytes_ok buf -> 0 <= off <= cur -> cur < end_ -> end_ <= size di ->
  end_ - off <= Z.of_nat (length buf) -> Z.of_nat (length buf) < 2 ^ 64 ->
  (end_ - 1) / 512 - cur / 512 < Z.of_nat fuel ->
  wp (write_loop fuel di end_ cur (cur - off) buf) L H
    (fun r L' => r = end_ - off /\
       written L L' di (data_blocks di) cur end_ (fun k => buf !!! Z.to_nat (k - off))).
Proof.
  intros Hif Hby Hoff Hcur Hend Hlen Hmax. pose proof (if_size _ _ _ Hif) as Hsz.
  revert L cur Hif Hoff Hcur. induction fuel as [|fuel IH]; intros L cur Hif Hoff Hcur Hfuel; [lia|].
  cbn [write_loop]. destruct (round_end cur end_) as (Hce & Hn & Hpos & Hfit & Hidx); [lia|lia|].
  cbv zeta in *. set (ce := Z.min (umul _ _) end_) in *. rewrite Hn, Hidx. change BLOCK_SZ with 512.
  apply wp_bind. eapply wp_res; [apply slice_ok; lia|]. apply wp_bind.
  destruct (in_file_block L H di cur Hif ltac:(lia)) as (Hr & [b Hb] & Hni).
  eapply wp_mono; [apply (get_disk_id_spec L H di (data_blocks di) (cur / 512)); [apply Hif|apply Hif|done]|].
  intros id L' _ _ [-> ->]. apply wp_bind, wp_disk_ok. intros HL. destruct (HL _ _ Hb) as [Hb512 Hbb].
  eapply (wp_modify DataBlock); [apply DataBlock_ok|exact Hb|done|apply Hif|done|done|]. intros _.
  cbn [DataBlock size_of decode encode]. change BLOCK_SZ with 512. rewrite bytes_at_all by done.
  set (src := bytes_at (cur - off) (ce - cur) buf).
  assert (Hsrc : Z.of_nat (length src) = ce - cur) by (unfold src; rewrite length_bytes_at; lia).
  assert (Hsp : block_ok (splice (cur mod 512) src b)).
  { split; [rewrite length_splice; lia|]. apply splice_bytes; [by apply bytes_at_bytes|done]. }
  apply wp_bind. eapply wp_res; [apply copy_to_slice_ok; lia|]. apply wp_ret. split; [done|].
  rewrite splice_all by (done || apply Hsp).
  set (L1 := <[_ := _]> L).
  assert (Hw1 : written L L1 di (data_blocks di) cur ce (fun k => buf !!! Z.to_nat (k - off))).
  { destruct (written_block L H di (data_blocks di) cur (ce - cur) src b) as [Hwb Hwf];
      [apply Hif|done|lia|lia|done|done|done|]. split; [|done].
    intros k Hk. rewrite Hwb by done. replace (cur + (ce - cur)) with ce by lia.
    case_decide; [|done]. unfold src. rewrite !list_lookup_total_alt, lookup_bytes_at by lia.
    do 2 f_equal. lia. }
  assert (Hd1 : dom L1 = dom L) by (unfold L1; by rewrite dom_insert_lookup_L by eauto).
  rewrite uadd_small by lia. replace (cur - off + (ce - cur)) with (ce - off) by lia.
  destruct (ce =? end_) eqn:E; bool_to_Prop.
  - apply wp_ret. rewrite <- E. done.
  - eapply wp_mono; [apply (IH L1 ce); [by eapply written_in_file|lia|lia|lia]|].
    intros r L' _ _ [-> Hw2]. split; [done|]. eapply written_trans; [apply Hif| |exact Hw1|exact Hw2]. lia.
Qed.

Lemma write_at_spec L H di off buf :
  in_file L H di -> bytes_ok buf -> 0 <= off -> buf <> [] ->
  off + Z.of_nat (length buf) <= size di ->
  wp (write_at di off buf) L H
    (fun r L' => r = Z.of_nat (length buf) /\
       written L L' di (data_blocks di) off (off + Z.of_nat (length buf))
         (fun k => buf !!! Z.to_nat (k - off))).
Proof.
  intros Hif Hby Hoff Hne Hle. pose proof (if_size _ _ _ Hif) as Hsz. unfold MAX_SIZE in Hsz.
  assert (0 < Z.of_nat (length buf)) by (destruct buf; [done|simpl; lia]).
  unfold write_at. rewrite uadd_small by lia.
  rewrite Z.min_l by lia. apply wp_bind, wp_assert; [apply Z.leb_le; lia|].
  pose proof (write_loop_spec (loop_fuel (Z.of_nat (length buf))) L H di off
    (off + Z.of_nat (length buf)) off buf) as Hwl. rewrite Z.sub_diag in Hwl.
  replace (off + Z.of_nat (length buf) - off) with (Z.of_nat (length buf)) in Hwl by lia.
  apply Hwl; try lia; [done|done|]. unfold loop_fuel, BLOCK_SZ. lia.
Qed.

(** [DiskInode::read_at] copies into the buffer exactly the bytes of the file
    from [offset] up to the end of the buffer or of the file, whichever comes
    first, through direct, indirect and doubly indirect blocks; it returns their
    number, leaves the rest of the buffer alone and changes no block. *)
Theorem read_at_returns_file_bytes L H di off buf :
  in_file L H di -> 0 <= off -> off + Z.of_nat (length buf) < 2 ^ 64 ->
  let n := Z.max 0 (Z.min (Z.of_nat (length buf)) (size di - off)) in
  wp (read_at di off buf) L H
    (fun r L' => r = (n, fbytes L di off n ++ drop (Z.to_nat n) buf) /\ L' = L).
Proof. apply read_at_spec. Qed.

(** A file of 600 bytes in blocks 0 and 1. *)
Definition demo_inode : DiskInode := mkInode 600 ([0; 1] ++ replicate 26 0) 0 0 File.

Lemma demo_in_file L :
  is_Some (L !! 0) -> is_Some (L !! 1) -> in_file L [] demo_inode.
Proof.
  intros H0 H1. assert (all_ids L demo_inode (data_blocks demo_inode) = [0; 1]) as E by done.
  split; [by vm_compute| |simpl; lia]. split.
  - split; [done|]. by repeat constructor.
  - by vm_compute.
  - rewrite E. by repeat constructor; set_solver.
  - rewrite E. intros id Hid. assert (id = 0 \/ id = 1) as [-> | ->] by set_solver; done.
  - intros id _. apply not_elem_of_nil.
Qed.

Lemma read_at_returns_file_bytes_witness :
  wp (read_at demo_inode 510 (replicate 8 255)) demo_blocks []
    (fun r L' => r = (8, fbytes demo_blocks demo_inode 510 8) /\ L' = demo_blocks).
Proof.
  eapply wp_mono.
  - apply (read_at_returns_file_bytes demo_blocks [] demo_inode 510 (replicate 8 255)).
    + apply demo_in_file; by eexists.
    + lia.
    + simpl. lia.
  - intros r L' _ _ [-> ->]. split; [|done]. by vm_compute.
Defined.

(** Writing [buf] at [offset] inside a file and reading the same range back
    gives [buf]; every other byte of the file is what it was, and no block but
    the data blocks of this inode changed. *)
Theorem write_at_read_at_roundtrip L H di off buf dst :
  in_file L H di -> bytes_ok buf -> buf <> [] -> 0 <= off ->
  off + Z.of_nat (length buf) <= size di -> length dst = length buf ->
  wp (write_at di off buf ≫= fun n => r ← read_at di off dst; mret (n, r)) L H
    (fun r L' =>
      r = (Z.of_nat (length buf), (Z.of_nat (length buf), buf)) /\
      (forall k, 0 <= k < off \/ off + Z.of_nat (length buf) <= k < size di ->
         fbyte L' di k = fbyte L di k) /\
      (forall id, ~ is_data L di (data_blocks di) id -> L' !! id = L !! id)).
Proof.
  intros Hif Hby Hne Hoff Hle Hdst. pose proof (if_size _ _ _ Hif) as Hsz. unfold MAX_SIZE in Hsz.
  apply wp_bind. eapply wp_mono; [by apply write_at_spec|]. intros n L1 _ Hdom [-> Hw].
  pose proof (written_in_file L L1 H di _ _ _ Hif Hdom Hw) as Hif1. destruct Hw as [Hb Hf].
  assert (Hdb : size di <= 512 * data_blocks di).
  { unfold data_blocks. rewrite data_blocks_spec by done. lia. }
  apply wp_bind. eapply wp_mono; [apply (read_at_spec L1 H di off dst); [done|lia|lia]|].
  intros r L2 _ _ [-> ->]. apply wp_ret. rewrite Hdst. split_and!.
  - rewrite Z.min_l, Z.max_r by lia. do 2 f_equal.
    rewrite drop_ge, app_nil_r by lia. apply list_eq. intros i.
    destruct (decide (i < length buf)%nat).
    + rewrite lookup_fbytes by lia. rewrite Hb, decide_True by lia.
      replace (Z.to_nat (off + Z.of_nat i - off)) with i by lia.
      symmetry. by apply list_lookup_lookup_total_lt.
    + rewrite !lookup_ge_None_2; [done|lia|rewrite length_fbytes; lia].
  - intros k Hk. rewrite Hb by lia. by rewrite decide_False by lia.
  - done.
Qed.

Lemma write_at_read_at_roundtrip_witness :
  wp (write_at demo_inode 510 [1; 2; 3; 4] ≫= fun n =>
        r ← read_at demo_inode 510 (replicate 4 0); mret (n, r)) demo_blocks []
    (fun r L' => r = (4, (4, [1; 2; 3; 4]))).
Proof.
  eapply wp_mono.
  - apply (write_at_read_at_roundtrip demo_blocks [] demo_inode 510 [1; 2; 3; 4] (replicate 4 0)).
    + apply demo_in_file; by eexists.
    + by repeat constructor.
    + done.
    + lia.
    + by vm_compute.
    + done.
  - intros r L' _ _ [-> _]. done.
Defined.

(** * Directory entries *)

Lemma find_index_app_zero (nm pad : list Z) :
  Forall (fun b => b <> 0) nm ->
  find_index (fun b => b =? 0) (nm ++ 0 :: pad) = Some (length nm).
Proof.
  induction 1 as [|b nm Hb _ IH]; [done|]. simpl. rewrite (proj2 (Z.eqb_neq b 0)) by done. by rewrite IH.
Qed.

Lemma DirEntry_new_ok nm id :
  (length nm <= 28)%nat ->
  DirEntry_new nm id = Ok (mkDirEntry (nm ++ replicate (28 - length nm) 0) id).
Proof.
  intros Hl. unfold DirEntry_new. rewrite copy_to_slice_ok by (rewrite ?length_replicate; lia).
  cbn [mbind res_bind]. do 2 f_equal. unfold splice.
  change (Z.to_nat 0) with 0%nat. by rewrite drop_replicate.
Qed.

Lemma direntry_ok nm id :
  bytes_ok nm -> Forall (fun b => b <> 0) nm -> is_utf8 (length nm) nm = true -> is_u32 id ->
  (Z.of_nat (length nm) <= NAME_LENGTH_LIMIT -> exists e, DirEntry_new nm id = Ok e /\
     name e = Ok nm /\ Z.of_nat (length (as_bytes e)) = DIRENTRY_SZ /\
     name (DirEntry_of_bytes (as_bytes e)) = Ok nm /\ inode_id (DirEntry_of_bytes (as_bytes e)) = id) /\
  (Z.of_nat (length nm) = NAME_LENGTH_LIMIT + 1 -> exists e, DirEntry_new nm id = Ok e /\
     name e = Panic IndexOutOfRange) /\
  (NAME_LENGTH_LIMIT + 1 < Z.of_nat (length nm) -> Z.of_nat (length nm) < 2 ^ 64 ->
     DirEntry_new nm id = Panic IndexOutOfRange).
Proof.
  unfold NAME_LENGTH_LIMIT. intros Hby Hnz Hutf Hid. split_and!.
  - intros Hl. rewrite DirEntry_new_ok by lia. eexists. split; [done|].
    set (e := mkDirEntry _ id).
    assert (Hlen : length (name_ e) = 28%nat).
    { simpl. rewrite length_app, length_replicate. lia. }
    assert (Hn : name e = Ok nm).
    { unfold name, e. cbn [name_]. replace (28 - length nm)%nat with (S (27 - length nm)) by lia.
      cbn [replicate]. rewrite find_index_app_zero by done. cbn [mbind res_bind].
      rewrite take_app_length. unfold from_utf8. by rewrite Hutf. }
    assert (Hrt : DirEntry_of_bytes (as_bytes e) = e).
    { unfold DirEntry_of_bytes, as_bytes. rewrite take_app_length', drop_app_length' by done.
      rewrite take_ge by (by rewrite length_enc_word). rewrite dec_enc_word by done. by destruct e. }
    rewrite Hrt. split_and!; try done. unfold as_bytes. rewrite length_app, length_enc_word, Hlen. done.
  - intros Hl. rewrite DirEntry_new_ok by lia. eexists. split; [done|]. unfold name. cbn [name_].
    replace (28 - length nm)%nat with 0%nat by lia. rewrite app_nil_r.
    rewrite (proj2 (find_index_None _ nm)); [done|].
    eapply Forall_impl; [exact Hnz|]. intros b Hb. by apply Z.eqb_neq.
  - intros Hl Hmax. unfold DirEntry_new, copy_to_slice, slice.
    unfold uadd. rewrite Z.add_0_l, wrap_small by lia.
    rewrite (proj2 (Z.leb_gt (Z.of_nat (length nm)) _)) by (rewrite length_replicate; lia).
    by rewrite andb_false_r.
Qed.

Lemma as_bytes_ok nm id e : bytes_ok nm -> DirEntry_new nm id = Ok e -> (length nm <= 28)%nat -> bytes_ok (as_bytes e).
Proof.
  intros Hby He Hl. rewrite DirEntry_new_ok in He by done. injection He as <-. unfold as_bytes. cbn [name_ inode_id].
  repeat apply Forall_app_2; [done|apply Forall_replicate; unfold is_u8; lia|apply enc_word_bytes].
Qed.

(** A directory entry keeps a name of up to 27 bytes and its inode id through
    its 32 bytes on disk.  A name of 28 bytes is accepted by [DirEntry::new] although
    [NAME_LENGTH_LIMIT] is 27, and then [name()] runs off the array and panics;
    a longer one panics in [DirEntry::new]. *)
Theorem direntry_name_roundtrip nm id :
  bytes_ok nm -> Forall (fun b => b <> 0) nm -> is_utf8 (length nm) nm = true -> is_u32 id ->
  (Z.of_nat (length nm) <= NAME_LENGTH_LIMIT -> exists e, DirEntry_new nm id = Ok e /\
     name e = Ok nm /\ Z.of_nat (length (as_bytes e)) = DIRENTRY_SZ /\
     name (DirEntry_of_bytes (as_bytes e)) = Ok nm /\ inode_id (DirEntry_of_bytes (as_bytes e)) = id) /\
  (Z.of_nat (length nm) = NAME_LENGTH_LIMIT + 1 -> exists e, DirEntry_new nm id = Ok e /\
     name e = Panic IndexOutOfRange) /\
  (NAME_LENGTH_LIMIT + 1 < Z.of_nat (length nm) -> Z.of_nat (length nm) < 2 ^ 64 ->
     DirEntry_new nm id = Panic IndexOutOfRange).
Proof. apply direntry_ok. Qed.

Lemma direntry_name_roundtrip_witness :
  exists e, DirEntry_new [104; 105] 7 = Ok e /\ name e = Ok [104; 105].
Proof.
  destruct (direntry_name_roundtrip [104; 105] 7) as [H _].
  - by repeat constructor.
  - by repeat constructor.
  - done.
  - by vm_compute.
  - destruct H as (e & He & Hn & _); [by vm_compute|]. by exists e.
Defined.
