(* ===== verification/Console.v ===== *)
(** The console: os/src/sbi/uart.rs, os/src/sbi/mod.rs and os/src/console.rs.

    The UART is a device behind loads and stores at addresses ([Device]); what the driver
    relies on is the data sheet of the 16550 ([NS16550]): which register a store at an offset
    sets while the divisor latch is selected or not, that a byte stored in the transmitter
    holding register when the line status says that it is empty is sent, and that the
    receiver buffer has the oldest byte received when the line status says so. *)

From S2P Require Import Prelude Layout.

(** * Text *)

(** [str::chars]: the code points of a string, from its UTF-8 bytes. *)
Fixpoint chars_ (fuel : nat) (bs : list Z) : list Z :=
  match fuel, bs with
  | S f, b :: r =>
      if b <? 128 then b :: chars_ f r
      else match r with
        | c :: r1 =>
            if b <? 224 then (b mod 32) * 64 + c mod 64 :: chars_ f r1
            else match r1 with
              | d :: r2 =>
                  if b <? 240 then (b mod 16) * 4096 + (c mod 64) * 64 + d mod 64 :: chars_ f r2
                  else match r2 with
                    | e :: r3 => (b mod 8) * 262144 + (c mod 64) * 4096 + (d mod 64) * 64 + e mod 64 :: chars_ f r3
                    | [] => []
                    end
              | [] => []
              end
        | [] => []
        end
  | _, _ => []
  end.
Definition chars (s : list Z) : list Z := chars_ (length s) s.

(** What [Stdout::write_str] puts on the line: [c as u8] for every character. *)
Definition put_bytes (s : list Z) : list Z := (fun c => c mod 256) <$> chars s.

Module Uart.

(** * Flags and registers *)

Definition RX_AVAILABLE : Z := Z.shiftl 1 0.
Definition TX_EMPTY : Z := Z.shiftl 1 1.
Definition InterruptEnable_empty : Z := 0.
Definition ENABLE : Z := Z.shiftl 1 0.
Definition CLEAR_RX_FIFO : Z := Z.shiftl 1 1.
Definition CLEAR_TX_FIFO : Z := Z.shiftl 1 2.
Definition TRIGGER_14 : Z := Z.shiftl 3 6.
Definition DATA_8 : Z := 3.
Definition DLAB_ENABLE : Z := Z.shiftl 1 7.
Definition DATA_TERMINAL_READY : Z := Z.shiftl 1 0.
Definition AUXILIARY_OUTPUT_2 : Z := Z.shiftl 1 3.
Definition INPUT_AVAILABLE : Z := Z.shiftl 1 0.
Definition OUTPUT_EMPTY : Z := Z.shiftl 1 5.

(** The fields of the two [repr(C)] structs, one byte each. *)
Inductive ReadPort := rbr | r_ier | iir | r_lcr | r_mcr | lsr | msr | r_scr.
Inductive WritePort := thr | ier | fcr | lcr | mcr | factory_test | not_used | scr.

Definition read_offset (r : ReadPort) : Z :=
  match r with rbr => 0 | r_ier => 1 | iir => 2 | r_lcr => 3 | r_mcr => 4 | lsr => 5 | msr => 6 | r_scr => 7 end.
Definition write_offset (r : WritePort) : Z :=
  match r with thr => 0 | ier => 1 | fcr => 2 | lcr => 3 | mcr => 4 | factory_test => 5 | not_used => 6 | scr => 7 end.

Record UartRaw := mkUart { base : Z }.
Definition UART_DIVISOR : Z := 3.

(** * The driver *)

Class Device (D : Type) := {
  load : Z -> D -> Z * D;
  store : Z -> Z -> D -> D;
}.

Section driver.
Context {D : Type} `{Device D}.

Definition read_port (self : UartRaw) (r : ReadPort) : D -> Z * D := load (base self + read_offset r).
Definition write_port (self : UartRaw) (r : WritePort) (v : Z) : D -> D := store (base self + write_offset r) v.

Definition init (self : UartRaw) (d : D) : D :=
  let d := write_port self ier InterruptEnable_empty d in
  let d := write_port self lcr DLAB_ENABLE d in
  let d := write_port self thr (UART_DIVISOR mod 256) d in
  let d := write_port self ier (Z.shiftr UART_DIVISOR 8 mod 256) d in
  let d := write_port self lcr DATA_8 d in
  let d := write_port self fcr (Z.lor ENABLE TRIGGER_14) d in
  let d := write_port self mcr (Z.lor DATA_TERMINAL_READY AUXILIARY_OUTPUT_2) d in
  write_port self ier (Z.lor RX_AVAILABLE TX_EMPTY) d.

(** [wait_for!] on a bit of the line status. *)
Fixpoint wait_for (fuel : nat) (self : UartRaw) (bits : Z) (d : D) : res D :=
  match fuel with
  | O => Panic OutOfFuel
  | S fuel' => let '(v, d') := read_port self lsr d in if negb (Z.land v bits =? 0) then Ok d' else wait_for fuel' self bits d'
  end.

Definition send (fuel : nat) (self : UartRaw) (byte : Z) (d : D) : res D :=
  d ← wait_for fuel self OUTPUT_EMPTY d;
  Ok (write_port self thr byte d).

Definition recv (fuel : nat) (self : UartRaw) (d : D) : res (Z * D) :=
  d ← wait_for fuel self INPUT_AVAILABLE d;
  Ok (read_port self rbr d).
End driver.

(** * The console *)

Definition VIRT_UART0 : Z := 0x10000000.
Definition VIRT_TEST : Z := 0x100000.
Definition UART : UartRaw := mkUart VIRT_UART0.

Section console.
Context {D : Type} `{Device D}.

Definition uart_init : D -> D := init UART.
Definition uart_send (fuel : nat) (byte : Z) : D -> res D := send fuel UART byte.
Definition uart_recv (fuel : nat) : D -> res (Z * D) := recv fuel UART.
Definition console_putchar (fuel : nat) (c : Z) : D -> res D := uart_send fuel c.
Definition console_getchar (fuel : nat) : D -> res (Z * D) := uart_recv fuel.

Fixpoint put_chars (fuel : nat) (cs : list Z) (d : D) : res D :=
  match cs with
  | [] => Ok d
  | c :: cs' => d ← console_putchar fuel (c mod 256) d; put_chars fuel cs' d
  end.
Definition write_str (fuel : nat) (s : list Z) : D -> res D := put_chars fuel (chars s).

(** [print]: [write_fmt] writes the pieces of the formatted text in order. *)
Fixpoint print (fuel : nat) (pieces : list (list Z)) (d : D) : res D :=
  match pieces with
  | [] => Ok d
  | s :: rest => d ← write_str fuel s d; print fuel rest d
  end.
End console.

Definition FINISHER_FAIL : Z := 0x3333.
Definition FINISHER_PASS : Z := 0x5555.

(** The address and the word that [shutdown] stores. *)
Definition shutdown (failure : bool) : Z * Z := (VIRT_TEST, if failure then FINISHER_FAIL else FINISHER_PASS).

(** * The 16550 *)

(** The registers that stores set, and what was sent. *)
Record line := mkLine { l_lcr : Z; l_divisor : Z; l_ier : Z; l_fcr : Z; l_mcr : Z; l_sent : list Z }.

Definition dlab (l : line) : bool := Z.testbit (l_lcr l) 7.
Definition with_sent (sent : list Z) (l : line) : line := mkLine (l_lcr l) (l_divisor l) (l_ier l) (l_fcr l) (l_mcr l) sent.

Definition line_store (o v : Z) (l : line) : line :=
  if o =? 0 then
    if dlab l then mkLine (l_lcr l) (l_divisor l / 256 * 256 + v) (l_ier l) (l_fcr l) (l_mcr l) (l_sent l)
    else with_sent (l_sent l ++ [v]) l
  else if o =? 1 then
    if dlab l then mkLine (l_lcr l) (v * 256 + l_divisor l mod 256) (l_ier l) (l_fcr l) (l_mcr l) (l_sent l)
    else mkLine (l_lcr l) (l_divisor l) v (l_fcr l) (l_mcr l) (l_sent l)
  else if o =? 2 then mkLine (l_lcr l) (l_divisor l) (l_ier l) v (l_mcr l) (l_sent l)
  else if o =? 3 then mkLine v (l_divisor l) (l_ier l) (l_fcr l) (l_mcr l) (l_sent l)
  else if o =? 4 then mkLine (l_lcr l) (l_divisor l) (l_ier l) (l_fcr l) v (l_sent l)
  else l.

(** [busy] is the number of times the line status says so before the transmitter is empty,
    at most [drain]; [incoming] are the bytes the other side sends that were not read yet,
    and [quiet] the number of times the line status says that there is none before the first
    of them is there. *)
Class NS16550 (addr : Z) (D : Type) `{Device D} := {
  regs : D -> line;
  busy : D -> nat;
  drain : nat;
  incoming : D -> list Z;
  quiet : D -> nat;
  busy_bound d : (busy d <= drain)%nat;
  store_regs o v d : 0 <= o <= 4 -> 0 <= v < 256 -> (o = 0 -> dlab (regs d) = false -> busy d = 0%nat) ->
    regs (store (addr + o) v d) = line_store o v (regs d);
  store_incoming v d : incoming (store (addr + 0) v d) = incoming d;
  status_regs d : regs (load (addr + 5) d).2 = regs d /\ incoming (load (addr + 5) d).2 = incoming d;
  status_busy d : Z.testbit (load (addr + 5) d).1 5 = (busy d =? 0)%nat /\ busy (load (addr + 5) d).2 = Nat.pred (busy d);
  status_quiet d : Z.testbit (load (addr + 5) d).1 0 = ((quiet d =? 0)%nat && bool_decide (incoming d <> [])) /\
    quiet (load (addr + 5) d).2 = Nat.pred (quiet d);
  receive d b rest : dlab (regs d) = false -> quiet d = 0%nat -> incoming d = b :: rest ->
    (load (addr + 0) d).1 = b /\ incoming (load (addr + 0) d).2 = rest /\ regs (load (addr + 0) d).2 = regs d;
}.

(** * The driver on the device *)

Lemma masked_bit v n : 0 <= n -> negb (Z.land v (Z.shiftl 1 n) =? 0) = Z.testbit v n.
Proof.
  intros Hn. rewrite Z.shiftl_1_l. destruct (Z.testbit v n) eqn:E.
  - apply negb_true_iff, Z.eqb_neq. intros Hz. assert (Ht : Z.testbit (Z.land v (2 ^ n)) n = true) by (rewrite Z.land_spec, E, Z.pow2_bits_true; done).
    by rewrite Hz, Z.bits_0 in Ht.
  - apply negb_false_iff, Z.eqb_eq, Z.bits_inj'. intros m Hm. rewrite Z.land_spec, Z.bits_0. destruct (decide (m = n)) as [->|Hne]; [by rewrite E|].
    rewrite (Z.pow2_bits_false n m) by done. by rewrite andb_false_r.
Qed.

Section device.
Context {D : Type} `{HN : NS16550 VIRT_UART0 D}.

Lemma wait_output fuel d :
  (busy d < fuel)%nat -> exists d', wait_for fuel UART OUTPUT_EMPTY d = Ok d' /\ busy d' = 0%nat /\ regs d' = regs d /\ incoming d' = incoming d.
Proof.
  revert d. induction fuel as [|fuel IH]; intros d Hf; [lia|]. cbn [wait_for]. unfold read_port. cbn [base UART read_offset].
  destruct (status_regs d) as [Hr Hi]. destruct (status_busy d) as [Hb Hp]. destruct (load (VIRT_UART0 + 5) d) as [v d1]. cbn [fst snd] in *.
  unfold OUTPUT_EMPTY. rewrite masked_bit, Hb by lia. destruct (Nat.eqb_spec (busy d) 0) as [E|E].
  - exists d1. split_and!; [done|lia|done|done].
  - destruct (IH d1 ltac:(lia)) as (d' & E' & H0 & H1 & H2). exists d'. split_and!; [exact E'|congruence..].
Qed.

Lemma wait_input fuel d :
  (quiet d < fuel)%nat -> incoming d <> [] ->
  exists d', wait_for fuel UART INPUT_AVAILABLE d = Ok d' /\ quiet d' = 0%nat /\ regs d' = regs d /\ incoming d' = incoming d.
Proof.
  revert d. induction fuel as [|fuel IH]; intros d Hf Hne; [lia|]. cbn [wait_for]. unfold read_port. cbn [base UART read_offset].
  destruct (status_regs d) as [Hr Hi]. destruct (status_quiet d) as [Hb Hp]. destruct (load (VIRT_UART0 + 5) d) as [v d1]. cbn [fst snd] in *.
  unfold INPUT_AVAILABLE. rewrite masked_bit, Hb by lia. rewrite bool_decide_eq_true_2, andb_true_r by done. destruct (Nat.eqb_spec (quiet d) 0) as [E|E].
  - exists d1. split_and!; [done|lia|done|done].
  - destruct (IH d1 ltac:(lia) ltac:(congruence)) as (d' & E' & H0 & H1 & H2). exists d'. split_and!; [exact E'|congruence..].
Qed.

Lemma send_ok fuel b d :
  (drain < fuel)%nat -> 0 <= b < 256 -> dlab (regs d) = false ->
  exists d', send fuel UART b d = Ok d' /\ regs d' = with_sent (l_sent (regs d) ++ [b]) (regs d) /\ incoming d' = incoming d.
Proof.
  intros Hf Hb Hd. pose proof (busy_bound d). destruct (wait_output fuel d ltac:(lia)) as (d1 & E & Hz & Hr & Hi).
  unfold send. rewrite E. cbn [mbind res_bind]. eexists. split; [done|]. unfold write_port. cbn [base UART write_offset].
  rewrite store_incoming, store_regs by (done || lia). unfold line_store. cbn [Z.eqb]. rewrite Hr, Hd. done.
Qed.

Lemma put_chars_ok fuel cs : forall d, (drain < fuel)%nat -> dlab (regs d) = false ->
  exists d', put_chars fuel cs d = Ok d' /\ regs d' = with_sent (l_sent (regs d) ++ ((fun c => c mod 256) <$> cs)) (regs d) /\ incoming d' = incoming d.
Proof.
  induction cs as [|c cs IH]; intros d Hf Hd; cbn [put_chars fmap list_fmap].
  - exists d. rewrite app_nil_r. by destruct (regs d).
  - destruct (send_ok fuel (c mod 256) d Hf ltac:(apply Z.mod_pos_bound; lia) Hd) as (d1 & E & Hr & Hi).
    unfold console_putchar, uart_send. rewrite E. cbn [mbind res_bind]. destruct (IH d1 Hf) as (d2 & E2 & Hr2 & Hi2); [by rewrite Hr|].
    exists d2. rewrite E2, Hr2, Hr, Hi2, Hi. cbn. by rewrite <- app_assoc.
Qed.

Lemma print_ok fuel pieces : forall d, (drain < fuel)%nat -> dlab (regs d) = false ->
  exists d', print fuel pieces d = Ok d' /\ regs d' = with_sent (l_sent (regs d) ++ concat (put_bytes <$> pieces)) (regs d) /\ incoming d' = incoming d.
Proof.
  induction pieces as [|s pieces IH]; intros d Hf Hd; cbn [print fmap list_fmap concat].
  - exists d. rewrite app_nil_r. by destruct (regs d).
  - destruct (put_chars_ok fuel (chars s) d Hf Hd) as (d1 & E & Hr & Hi). unfold write_str. rewrite E. cbn [mbind res_bind].
    destruct (IH d1 Hf) as (d2 & E2 & Hr2 & Hi2); [by rewrite Hr|]. exists d2. rewrite E2, Hr2, Hr, Hi2, Hi. cbn. by rewrite <- app_assoc.
Qed.

(** [init] leaves 8 data bits, the divisor 3 and the interrupts on, and sends nothing. *)
Lemma write_port_regs r v d :
  write_offset r <= 4 -> 0 <= v < 256 -> (r = thr -> dlab (regs d) = true) ->
  regs (write_port UART r v d) = line_store (write_offset r) v (regs d).
Proof.
  intros Hr Hv Hd. unfold write_port. cbn [base UART]. apply store_regs; [|done|].
  - split; [by destruct r|done].
  - intros Ho Hf. assert (E : r = thr) by (by destruct r). rewrite (Hd E) in Hf. done.
Qed.

Lemma init_line l :
  line_store 1 (Z.lor RX_AVAILABLE TX_EMPTY) (line_store 4 (Z.lor DATA_TERMINAL_READY AUXILIARY_OUTPUT_2)
    (line_store 2 (Z.lor ENABLE TRIGGER_14) (line_store 3 DATA_8 (line_store 1 (Z.shiftr UART_DIVISOR 8 mod 256)
      (line_store 0 (UART_DIVISOR mod 256) (line_store 3 DLAB_ENABLE (line_store 1 0 l))))))) =
  mkLine 3 3 3 193 9 (l_sent l).
Proof.
  assert (H1 : exists k, line_store 1 0 l = k /\ l_sent k = l_sent l).
  { eexists. split; [done|]. unfold line_store, Z.eqb. by destruct (dlab l). }
  destruct H1 as (k & -> & <-). destruct k as [a b c e f snt]. change (line_store 3 DLAB_ENABLE (mkLine a b c e f snt)) with (mkLine DLAB_ENABLE b c e f snt).
  assert (H2 : line_store 1 (Z.shiftr UART_DIVISOR 8 mod 256) (line_store 0 (UART_DIVISOR mod 256) (mkLine DLAB_ENABLE b c e f snt)) =
    mkLine DLAB_ENABLE 3 c e f snt).
  { unfold line_store. cbn [Z.eqb]. unfold dlab at 2. cbn [l_lcr l_divisor l_ier l_fcr l_mcr l_sent]. change (Z.testbit DLAB_ENABLE 7) with true. cbn iota.
    unfold dlab. cbn [l_lcr l_divisor l_ier l_fcr l_mcr l_sent]. change (Z.testbit DLAB_ENABLE 7) with true. cbn iota. f_equal.
    change (Z.shiftr UART_DIVISOR 8 mod 256) with 0. change (UART_DIVISOR mod 256) with 3. cbn [l_divisor]. rewrite Z.mul_0_l, Z.add_0_l, (Z.add_comm _ 3), Z.mod_add by lia. done. }
  rewrite H2. reflexivity.
Qed.

Lemma init_ok d : regs (uart_init d) = mkLine 3 3 3 193 9 (l_sent (regs d)).
Proof.
  unfold uart_init, init.
  rewrite (write_port_regs ier (Z.lor RX_AVAILABLE TX_EMPTY)) by done.
  rewrite (write_port_regs mcr (Z.lor DATA_TERMINAL_READY AUXILIARY_OUTPUT_2)) by done.
  rewrite (write_port_regs fcr (Z.lor ENABLE TRIGGER_14)) by done.
  rewrite (write_port_regs lcr DATA_8) by done.
  rewrite (write_port_regs ier (Z.shiftr UART_DIVISOR 8 mod 256)) by done.
  assert (E : regs (write_port UART lcr DLAB_ENABLE (write_port UART ier InterruptEnable_empty d)) =
    line_store 3 DLAB_ENABLE (line_store 1 0 (regs d))) by (by rewrite !write_port_regs).
  rewrite write_port_regs; [|done|done|intros _; by rewrite E]. rewrite E.
  apply init_line.
Qed.
End device.

Definition ascii (b : Z) : Prop := 0 <= b < 128.

Lemma put_bytes_ascii s : Forall ascii s -> put_bytes s = s.
Proof.
  unfold put_bytes, chars. induction 1 as [|b s Hb _ IH]; [done|]. unfold ascii in Hb. cbn [length chars_].
  rewrite (proj2 (Z.ltb_lt b 128)) by lia. cbn [fmap list_fmap]. rewrite Z.mod_small by lia. f_equal. exact IH.
Qed.

Lemma put_pieces_ascii pieces : Forall (Forall ascii) pieces -> put_bytes <$> pieces = pieces.
Proof. induction 1 as [|s pieces Hs _ IH]; [done|]. cbn. by rewrite put_bytes_ascii, IH. Qed.

(** C32: The console on any device that behaves like a 16550.  Whatever state the device was
    in, after [uart_init] it has 8 data bits and the divisor 3, and a [print] returns and has
    sent, after what was sent before, one byte for every character of every piece in order,
    the low byte of its code point, which for ASCII text is the text.  Then
    [console_getchar] returns the oldest byte that was not read, when it arrives, and takes
    only that. *)
Theorem console_prints {D : Type} `{NS16550 VIRT_UART0 D} fuel pieces (d : D) :
  (drain < fuel)%nat ->
  exists d', print fuel pieces (uart_init d) = Ok d' /\
    regs d' = mkLine DATA_8 UART_DIVISOR (Z.lor RX_AVAILABLE TX_EMPTY) (Z.lor ENABLE TRIGGER_14)
      (Z.lor DATA_TERMINAL_READY AUXILIARY_OUTPUT_2) (l_sent (regs d) ++ concat (put_bytes <$> pieces)) /\
    (Forall (Forall ascii) pieces -> l_sent (regs d') = l_sent (regs d) ++ concat pieces) /\
    (forall fuel' b rest, incoming d' = b :: rest -> (quiet d' < fuel')%nat ->
       exists d'', console_getchar fuel' d' = Ok (b, d'') /\ incoming d'' = rest /\ regs d'' = regs d').
Proof.
  intros Hf. destruct (print_ok fuel pieces (uart_init d) Hf) as (d' & E & Hr & _); [by rewrite init_ok|]. rewrite init_ok in Hr. exists d'. split_and!.
  - done.
  - exact Hr.
  - intros Ha. rewrite Hr. cbn. by rewrite put_pieces_ascii.
  - intros fuel' b rest Hi Hq. destruct (wait_input fuel' d' Hq ltac:(by rewrite Hi)) as (d1 & E1 & Hq1 & Hr1 & Hi1).
    assert (Hd : dlab (regs d1) = false) by (rewrite Hr1, Hr; done). rewrite Hi in Hi1.
    destruct (receive d1 b rest Hd Hq1 Hi1) as (Hb & Hrest & Hrg). unfold console_getchar, uart_recv, recv. rewrite E1. cbn [mbind res_bind].
    unfold read_port. cbn [base UART read_offset]. destruct (load (VIRT_UART0 + 0) d1) as [v d2]. cbn [fst snd] in *. subst v.
    exists d2. split_and!; [done|done|congruence].
Qed.

(** * A device *)

(** A transmitter that is busy for two polls after every byte, and input that arrives after
    [s_quiet] polls. *)
Record sim := mkSim { s_regs : line; s_busy : bool * bool; s_incoming : list Z; s_quiet : nat }.

Definition s_polls (d : sim) : nat := match s_busy d with (true, true) => 2 | (false, false) => 0 | _ => 1 end.
Definition polled (b : bool * bool) : bool * bool := match b with (true, true) => (true, false) | _ => (false, false) end.
Definition s_status (d : sim) : Z :=
  (if (s_polls d =? 0)%nat then 32 else 0) + (if (s_quiet d =? 0)%nat && bool_decide (s_incoming d <> []) then 1 else 0).

Definition sim_load (a : Z) (d : sim) : Z * sim :=
  if a =? VIRT_UART0 + 5 then (s_status d, mkSim (s_regs d) (polled (s_busy d)) (s_incoming d) (Nat.pred (s_quiet d)))
  else if (a =? VIRT_UART0 + 0) && negb (dlab (s_regs d)) then
    (default 0 (s_incoming d !! 0%nat), mkSim (s_regs d) (s_busy d) (drop 1 (s_incoming d)) (s_quiet d))
  else (0, d).

Definition sim_store (a v : Z) (d : sim) : sim :=
  mkSim (line_store (a - VIRT_UART0) v (s_regs d)) (if a =? VIRT_UART0 + 0 then (true, true) else s_busy d) (s_incoming d) (s_quiet d).

#[export] Instance sim_device : Device sim := { load := sim_load; store := sim_store }.

#[export] Instance sim_16550 : NS16550 VIRT_UART0 sim.
Proof.
  refine {| regs := s_regs; busy := s_polls; drain := 2; incoming := s_incoming; quiet := s_quiet |}.
  - intros d. unfold s_polls. repeat case_match; lia.
  - intros o v d _ _ _. cbn. f_equal. lia.
  - done.
  - done.
  - intros d. unfold load, sim_device, sim_load. rewrite Z.eqb_refl. cbn [fst snd]. unfold s_status. destruct d as [rg [[] []] inc q]; cbn; split; try done;
      by destruct ((q =? 0)%nat && _).
  - intros d. unfold load, sim_device, sim_load. rewrite Z.eqb_refl. cbn [fst snd]. unfold s_status. split; [|done].
    by destruct ((s_quiet d =? 0)%nat && _), (s_polls d =? 0)%nat.
  - intros d b rest Hd Hq Hi. unfold load, sim_device, sim_load. cbn [Z.eqb VIRT_UART0 Z.add Pos.eqb]. rewrite Hd. cbn. by rewrite Hi.
Defined.

Lemma console_prints_witness :
  exists d', print 3 [[72; 105]; [10]] (uart_init (mkSim (mkLine 131 12 0 0 0 [33]) (true, true) [113] 4)) = Ok d' /\
    l_sent (regs d') = [33; 72; 105; 10] /\
    (forall fuel' b rest, incoming d' = b :: rest -> (quiet d' < fuel')%nat ->
       exists d'', console_getchar fuel' d' = Ok (b, d'') /\ incoming d'' = rest /\ regs d'' = regs d').
Proof.
  destruct (console_prints 3 [[72; 105]; [10]] (mkSim (mkLine 131 12 0 0 0 [33]) (true, true) [113] 4)) as (d' & E & _ & Ha & Hg); [cbn; lia|].
  exists d'. split_and!; [exact E| |exact Hg]. rewrite Ha; [reflexivity|]. repeat constructor; lia.
Defined.

(** A character outside ASCII is sent as one byte that is not its encoding. *)
Example put_bytes_eacute : is_utf8 2 [195; 169] = true /\ put_bytes [195; 169] = [233].
Proof. split; reflexivity. Qed.
End Uart.
