(* ===== verification/InodeGrowth.v ===== *)
(** Growing and clearing a file: the proofs about [increase_size] and [clear_size]
    of easy-fs/src/layout.rs.

    An inode grows one data block at a time; with some of them come index blocks.
    [grown] describes an inode part-way: which blocks it has consumed, and that
    the blocks it had are where they were. *)

From S2P Require Import Prelude BlockCache BlockLogic Layout.

#[local] Ltac Zify.zify_post_hook ::= Z.to_euclidean_division_equations.
#[local] Arguments enc_words : simpl never.
#[local] Arguments dec_words : simpl never.

(** * The number of blocks *)

Definition count (n : Z) : Z :=
  n + (if 28 <? n then 1 else 0) + (if 156 <? n then 1 + (n - 156 + 127) / 128 else 0).

Lemma length_group L di i : 0 <= i -> Z.of_nat (length (group L di i)) = count (i + 1) - count i.
Proof.
  intros Hi. unfold group, meta_group, count. rewrite !length_app. simpl length.
  destruct (i =? 28) eqn:E1, (i =? 156) eqn:E2, ((156 <=? i) && ((i - 156) mod 128 =? 0)) eqn:E3;
    bool_to_Prop; simpl length;
    destruct (28 <? i + 1) eqn:E4, (28 <? i) eqn:E5, (156 <? i + 1) eqn:E6, (156 <? i) eqn:E7;
    bool_to_Prop; lia.
Qed.

Lemma length_all_ids L di n : 0 <= n -> Z.of_nat (length (all_ids L di n)) = count n.
Proof.
  revert n. apply natlike_ind; [done|]. intros n Hn IH. unfold Z.succ.
  rewrite all_ids_succ, length_app by lia. pose proof (length_group L di n Hn). lia.
Qed.

Lemma total_blocks_spec sz : 0 <= sz <= MAX_SIZE -> total_blocks sz = count ((sz + 511) / 512).
Proof.
  intros Hsz. unfold total_blocks. rewrite data_blocks_spec by done. unfold MAX_SIZE in Hsz.
  set (n := (sz + 511) / 512). assert (Hn : 0 <= n <= 16540) by lia. clearbody n. clear Hsz.
  change DIRECT_BOUND with 28. change INDIRECT1_BOUND with 156. change INODE_INDIRECT1_COUNT with 128.
  unfold count. destruct (28 <? n) eqn:E1, (156 <? n) eqn:E2; bool_to_Prop.
  - rewrite (usub_small n), (uadd_small (n - 156)), usub_small by lia.
    rewrite (uadd_small n 1), (uadd_small (n + 1) 1), uadd_small by lia.
    unfold as_u32. rewrite wrap_small; lia.
  - rewrite uadd_small by lia. unfold as_u32. rewrite wrap_small; lia.
  - lia.
  - unfold as_u32. rewrite wrap_small; lia.
Qed.

Lemma count_mono a b : 0 <= a <= b -> count a <= count b.
Proof.
  intros H. unfold count.
  destruct (28 <? a) eqn:E1, (28 <? b) eqn:E2, (156 <? a) eqn:E3, (156 <? b) eqn:E4; bool_to_Prop; lia.
Qed.

(** * Part-way through *)

Record grown (L : gmap Z (list Z)) (di : DiskInode) (n : Z) (c pend : list Z)
  (L' : gmap Z (list Z)) (di' : DiskInode) (m : Z) : Prop := {
  g_valid : valid_inode di';
  g_le : 0 <= n <= m;
  g_old : forall i, 0 <= i < n -> group L' di' i = group L di i;
  g_ids : all_ids L' di' m ++ pend = all_ids L di n ++ c;
  g_dom : dom L' = dom L;
  g_frame : forall id, id ∉ meta_ids L' di' m ++ pend -> L' !! id = L !! id;
}.

Lemma meta_ids_succ L di n : 0 <= n -> meta_ids L di (n + 1) = meta_ids L di n ++ meta_group L di n.
Proof.
  intros Hn. unfold meta_ids. rewrite seqZ_app, Z.add_0_l by lia. rewrite bind_app. f_equal.
  simpl. by rewrite app_nil_r.
Qed.

Lemma group_meta L L' di di' i :
  group L' di' i = group L di i -> meta_group L' di' i = meta_group L di i.
Proof. unfold group. intros [? _]%app_inj_tail. done. Qed.

Lemma meta_ids_ext L di L' di' n :
  (forall i, 0 <= i < n -> group L' di' i = group L di i) -> meta_ids L' di' n = meta_ids L di n.
Proof.
  intros Hg. unfold meta_ids. apply Forall_bind_ext, Forall_forall.
  intros i Hi%elem_of_seqZ. apply group_meta, Hg. lia.
Qed.

(** One more data block, with the index blocks that come with it. *)
Lemma grown_step L di n c pend L1 di1 m L2 di2 g :
  grown L di n c pend L1 di1 m ->
  valid_inode di2 -> dom L2 = dom L1 ->
  (forall i, 0 <= i < m -> group L2 di2 i = group L1 di1 i) ->
  meta_group L2 di2 m = pend ++ g ->
  (forall id, id ∉ meta_ids L1 di1 m -> id ∉ meta_group L2 di2 m -> L2 !! id = L1 !! id) ->
  grown L di n (c ++ g ++ [block_id L2 di2 m]) [] L2 di2 (m + 1).
Proof.
  intros [Hv Hle Hold Hids Hdom Hfr] Hv2 Hd2 Hg Hm Hfr2. split.
  - done.
  - lia.
  - intros i Hi. rewrite Hg by lia. by apply Hold.
  - rewrite all_ids_succ by lia. rewrite (all_ids_ext L1 di1 L2 di2) by done.
    unfold group. rewrite Hm, app_nil_r, (app_assoc (all_ids L di n)), <- Hids. by rewrite <- !app_assoc.
  - congruence.
  - intros id Hid. rewrite meta_ids_succ, (meta_ids_ext L1 di1 L2 di2), app_nil_r in Hid by (done || lia).
    apply not_elem_of_app in Hid as [Hid1 Hid2]. rewrite Hfr2, Hfr; [done| |done|done].
    rewrite Hm in Hid2. apply not_elem_of_app in Hid2 as [? _]. by apply not_elem_of_app.
Qed.

Lemma grown_refl L di n : valid_inode di -> 0 <= n -> grown L di n [] [] L di n.
Proof. intros. split; try done. Qed.

(** Inode fields changed one at a time. *)
Definition with_direct (d : list Z) (di : DiskInode) : DiskInode :=
  mkInode (size di) d (indirect1 di) (indirect2 di) (type_ di).
Definition with_indirect1 (y : Z) (di : DiskInode) : DiskInode :=
  mkInode (size di) (direct di) y (indirect2 di) (type_ di).
Definition with_indirect2 (z : Z) (di : DiskInode) : DiskInode :=
  mkInode (size di) (direct di) (indirect1 di) z (type_ di).
Definition with_size (s : Z) (di : DiskInode) : DiskInode :=
  mkInode s (direct di) (indirect1 di) (indirect2 di) (type_ di).

Lemma valid_inode_fields di :
  valid_inode di <->
  length (direct di) = 28%nat /\ Forall is_u32 (direct di) /\
  is_u32 (size di) /\ is_u32 (indirect1 di) /\ is_u32 (indirect2 di).
Proof.
  unfold valid_inode, DiskInode_words. rewrite Forall_cons, Forall_app, !Forall_cons.
  naive_solver.
Qed.

Lemma group_lt28 L di i : 0 <= i < 28 -> group L di i = [direct di !!! Z.to_nat i].
Proof.
  intros Hi. unfold group, meta_group, block_id.
  rewrite (proj2 (Z.eqb_neq i 28)), (proj2 (Z.eqb_neq i 156)), (proj2 (Z.leb_gt 156 i)),
    (proj2 (Z.ltb_lt i 28)) by lia. done.
Qed.

Lemma group_lt156 L di i :
  28 <= i < 156 ->
  group L di i = (if i =? 28 then [indirect1 di] else []) ++
                 [words_at L (indirect1 di) !!! Z.to_nat (i - 28)].
Proof.
  intros Hi. unfold group, meta_group, block_id.
  rewrite (proj2 (Z.eqb_neq i 156)), (proj2 (Z.leb_gt 156 i)), (proj2 (Z.ltb_ge i 28)),
    (proj2 (Z.ltb_lt i 156)) by lia. simpl. by rewrite app_nil_r.
Qed.

Lemma group_ge156 L di i :
  156 <= i ->
  group L di i = (if i =? 156 then [indirect2 di] else []) ++
                 (if (i - 156) mod 128 =? 0 then [sub_id L di ((i - 156) / 128)] else []) ++
                 [words_at L (sub_id L di ((i - 156) / 128)) !!! Z.to_nat ((i - 156) mod 128)].
Proof.
  intros Hi. unfold group, meta_group, block_id.
  rewrite (proj2 (Z.eqb_neq i 28)), (proj2 (Z.leb_le 156 i)), (proj2 (Z.ltb_ge i 28)),
    (proj2 (Z.ltb_ge i 156)) by lia. simpl. by rewrite <- app_assoc.
Qed.

Lemma group_with_size L di s i : group L (with_size s di) i = group L di i.
Proof. done. Qed.

Lemma grown_with_size L di n c L1 di1 m s :
  grown L di n c [] L1 di1 m -> is_u32 s -> grown L di n c [] L1 (with_size s di1) m.
Proof.
  intros [Hv Hle Hold Hids Hdom Hfr] Hs. apply valid_inode_fields in Hv. split; try done.
  apply valid_inode_fields. simpl. naive_solver.
Qed.

(** The block is announced before the first entry that needs it. *)
Lemma grown_pend1 L di n c L1 di1 y :
  grown L di n c [] L1 di1 28 -> is_u32 y -> grown L di n (c ++ [y]) [y] L1 (with_indirect1 y di1) 28.
Proof.
  intros [Hv Hle Hold Hids Hdom Hfr] Hy. apply valid_inode_fields in Hv.
  assert (Hg : forall i, 0 <= i < 28 -> group L1 (with_indirect1 y di1) i = group L1 di1 i).
  { intros i Hi. by rewrite !group_lt28. }
  split.
  - apply valid_inode_fields. simpl. naive_solver.
  - done.
  - intros i Hi. rewrite Hg by lia. by apply Hold.
  - rewrite (all_ids_ext L1 di1) by done. rewrite app_nil_r in Hids. by rewrite Hids, app_assoc.
  - done.
  - intros id Hid. apply Hfr. rewrite app_nil_r. rewrite (meta_ids_ext L1 di1) in Hid by done.
    by apply not_elem_of_app in Hid as [? _].
Qed.

Lemma grown_pend2 L di n c L1 di1 z :
  grown L di n c [] L1 di1 156 -> is_u32 z -> grown L di n (c ++ [z]) [z] L1 (with_indirect2 z di1) 156.
Proof.
  intros [Hv Hle Hold Hids Hdom Hfr] Hy. apply valid_inode_fields in Hv.
  assert (Hg : forall i, 0 <= i < 156 -> group L1 (with_indirect2 z di1) i = group L1 di1 i).
  { intros i Hi. destruct (decide (i < 28)); [by rewrite !group_lt28 by lia|by rewrite !group_lt156 by lia]. }
  split.
  - apply valid_inode_fields. simpl. naive_solver.
  - done.
  - intros i Hi. rewrite Hg by lia. by apply Hold.
  - rewrite (all_ids_ext L1 di1) by done. rewrite app_nil_r in Hids. by rewrite Hids, app_assoc.
  - done.
  - intros id Hid. apply Hfr. rewrite app_nil_r. rewrite (meta_ids_ext L1 di1) in Hid by done.
    by apply not_elem_of_app in Hid as [? _].
Qed.

Lemma step_direct L di n c L1 di1 m x :
  grown L di n c [] L1 di1 m -> m < 28 -> is_u32 x ->
  grown L di n (c ++ [x]) [] L1 (with_direct (<[Z.to_nat m := x]> (direct di1)) di1) (m + 1).
Proof.
  intros Hg Hm Hx. pose proof (g_le _ _ _ _ _ _ _ _ Hg) as Hle.
  pose proof (g_valid _ _ _ _ _ _ _ _ Hg) as Hv. apply valid_inode_fields in Hv as (Hl & Hf & ? & ? & ?).
  set (di2 := with_direct _ _).
  assert (block_id L1 di2 m = x) as Hb.
  { unfold block_id. rewrite (proj2 (Z.ltb_lt m 28)) by lia. simpl.
    by rewrite list_lookup_total_insert_eq by lia. }
  pose proof (grown_step L di n c [] L1 di1 m L1 di2 []) as Hs. simpl in Hs. rewrite Hb in Hs. apply Hs.
  - done.
  - apply valid_inode_fields. simpl. rewrite length_insert. split_and!; try done. by apply Forall_insert.
  - done.
  - intros i Hi. rewrite !group_lt28 by lia. simpl. rewrite list_lookup_total_insert_ne; [done|lia].
  - unfold meta_group.
    by rewrite (proj2 (Z.eqb_neq m 28)), (proj2 (Z.eqb_neq m 156)), (proj2 (Z.leb_gt 156 m)) by lia.
  - done.
Qed.

Definition pend1 (di : DiskInode) (m : Z) : list Z := if m =? 28 then [indirect1 di] else [].
Definition pend2 (di : DiskInode) (m : Z) : list Z := if m =? 156 then [indirect2 di] else [].

Lemma dom_set_words id ws L : is_Some (L !! id) -> dom (set_words id ws L) = dom L.
Proof. intros. unfold set_words. by rewrite dom_insert_lookup_L. Qed.

Lemma step_ind1 L di n c L1 di1 m ws x :
  grown L di n c (pend1 di1 m) (set_words (indirect1 di1) ws L1) di1 m -> 28 <= m < 156 ->
  words_ok 4 128 ws -> is_u32 x -> is_Some (L1 !! indirect1 di1) ->
  grown L di n (c ++ [x]) [] (set_words (indirect1 di1) (<[Z.to_nat (m - 28) := x]> ws) L1) di1 (m + 1).
Proof.
  intros Hg Hm Hws Hx Hp. set (y := indirect1 di1) in *. set (L2 := set_words y (<[_ := x]> ws) L1).
  assert (Hws' : words_ok 4 128 (<[Z.to_nat (m - 28) := x]> ws)) by (by apply words_ok_insert).
  assert (Hw2 : words_at L2 y = <[Z.to_nat (m - 28) := x]> ws) by (by apply words_at_set_eq).
  assert (block_id L2 di1 m = x) as Hb.
  { unfold block_id. rewrite (proj2 (Z.ltb_ge m 28)), (proj2 (Z.ltb_lt m 156)) by lia. fold y.
    rewrite Hw2, list_lookup_total_insert_eq; [done|]. rewrite (proj1 Hws). lia. }
  rewrite <- Hb at 1. apply (grown_step L di n c (pend1 di1 m) (set_words y ws L1) di1 m L2 di1 []);
    [done|apply Hg| | | |].
  - unfold L2. by rewrite !dom_set_words.
  - intros i Hi. destruct (decide (i < 28)); [by rewrite !group_lt28 by lia|].
    rewrite !group_lt156 by lia. fold y. rewrite Hw2, words_at_set_eq by done.
    rewrite list_lookup_total_insert_ne; [done|lia].
  - unfold meta_group, pend1.
    by rewrite (proj2 (Z.eqb_neq m 156)), (proj2 (Z.leb_gt 156 m)) by lia.
  - intros id Hni Hnm. unfold L2, set_words. rewrite !lookup_insert_ne; [done|..].
    all: intros <-; destruct (decide (m = 28)) as [->|];
      [apply Hnm; unfold meta_group; simpl; apply list_elem_of_singleton; done
      |apply Hni, indirect1_meta; lia].
Qed.

(** A data block below [indirect2]: [a] and [b] are its coordinates and [s] the
    first-level index block it goes in. *)
Lemma step_sub L di n c L1 di1 m L2 s x :
  let a := (m - 156) / 128 in
  let b := (m - 156) mod 128 in
  grown L di n c (pend2 di1 m) L1 di1 m -> 156 <= m ->
  dom L2 = dom L1 ->
  words_at L2 (indirect1 di1) = words_at L1 (indirect1 di1) ->
  (forall a', 0 <= a' < a -> sub_id L2 di1 a' = sub_id L1 di1 a' /\
     words_at L2 (sub_id L1 di1 a') = words_at L1 (sub_id L1 di1 a')) ->
  sub_id L2 di1 a = s -> (b <> 0 -> sub_id L1 di1 a = s) ->
  (forall j, 0 <= j < b -> words_at L2 s !!! Z.to_nat j = words_at L1 s !!! Z.to_nat j) ->
  words_at L2 s !!! Z.to_nat b = x ->
  (forall id, id <> s -> id <> indirect2 di1 -> L2 !! id = L1 !! id) ->
  grown L di n (c ++ (if b =? 0 then [s] else []) ++ [x]) [] L2 di1 (m + 1).
Proof.
  intros a b Hg Hm Hdom H1 Hsub Hs2 Hs1 Hlow Hx Hfr.
  assert (block_id L2 di1 m = x) as Hb.
  { unfold block_id. rewrite (proj2 (Z.ltb_ge m 28)), (proj2 (Z.ltb_ge m 156)) by lia.
    fold a b. by rewrite Hs2. }
  assert (Hmg : meta_group L2 di1 m = pend2 di1 m ++ (if b =? 0 then [s] else [])).
  { unfold meta_group, pend2. rewrite (proj2 (Z.eqb_neq m 28)), (proj2 (Z.leb_le 156 m)) by lia.
    fold a b. by rewrite Hs2. }
  rewrite <- Hb at 1. apply (grown_step L di n c (pend2 di1 m) L1 di1 m L2 di1); [done|apply Hg|done| |done|].
  - intros i Hi. destruct (decide (i < 28)); [by rewrite !group_lt28 by lia|].
    destruct (decide (i < 156)); [by rewrite !group_lt156, H1 by lia|].
    rewrite !group_ge156 by lia. destruct (decide ((i - 156) / 128 < a)) as [Hlt|Hge].
    + destruct (Hsub ((i - 156) / 128) ltac:(lia)) as [-> ->]. done.
    + assert ((i - 156) / 128 = a) as -> by lia. rewrite Hs1, Hs2 by lia. do 3 f_equal. apply Hlow. lia.
  - intros id Hni Hnm. rewrite Hmg in Hnm. apply not_elem_of_app in Hnm as [Hnp Hns]. apply Hfr.
    + intros ->. destruct (b =? 0) eqn:Eb; bool_to_Prop; [by apply Hns, list_elem_of_singleton|].
      apply Hni. rewrite <- (Hs1 Eb). apply sub_id_meta; lia.
    + intros ->. unfold pend2 in Hnp. destruct (m =? 156) eqn:Em; bool_to_Prop.
      * by apply Hnp, list_elem_of_singleton.
      * apply Hni, indirect2_meta. lia.
Qed.

(** Which blocks differ from which, from the distinctness of all of them. *)
Lemma sub_ids_distinct L di m a a' :
  NoDup (all_ids L di m) -> 0 <= a' < a -> 156 + 128 * a < m -> sub_id L di a' <> sub_id L di a.
Proof.
  intros Hnd Ha Hm E. eapply (groups_disjoint L di m (156 + 128 * a') (156 + 128 * a));
    [done|lia|lia|lia|apply sub_id_in_group; lia|]. rewrite E. apply sub_id_in_group. lia.
Qed.

Lemma indirect1_ne_indirect2 L di m :
  NoDup (all_ids L di m) -> 156 < m -> indirect1 di <> indirect2 di.
Proof.
  intros Hnd Hm E. eapply (groups_disjoint L di m 28 156); [done|lia|lia|done|apply indirect1_in_group|].
  rewrite E. apply indirect2_in_group.
Qed.

Lemma indirect1_ne_sub L di m a :
  NoDup (all_ids L di m) -> 0 <= a -> 156 + 128 * a < m -> indirect1 di <> sub_id L di a.
Proof.
  intros Hnd Ha Hm E. eapply (groups_disjoint L di m 28 (156 + 128 * a));
    [done|lia|lia|lia|apply indirect1_in_group|]. rewrite E. apply sub_id_in_group. lia.
Qed.

Lemma indirect2_ne_sub L di m a :
  NoDup (all_ids L di m) -> 0 <= a -> 156 + 128 * a < m -> indirect2 di <> sub_id L di a.
Proof.
  intros Hnd Ha Hm E. destruct (decide (a = 0)) as [->|].
  - pose proof (NoDup_group L di m 156 Hnd ltac:(lia)) as Hg.
    rewrite group_ge156 in Hg by lia. simpl in Hg. change ((156 - 156) / 128) with 0 in Hg.
    rewrite E in Hg. apply NoDup_cons in Hg as [Hni _]. apply Hni. by left.
  - eapply (groups_disjoint L di m 156 (156 + 128 * a));
      [done|lia|lia|lia|apply indirect2_in_group|]. rewrite E. apply sub_id_in_group. lia.
Qed.

(** * The loops *)

Lemma fill_direct_spec fuel L di n c L1 di1 cur bound rest :
  grown L di n c [] L1 di1 cur -> cur <= bound <= 28 -> bound - cur <= Z.of_nat fuel ->
  bound - cur <= Z.of_nat (length rest) -> Forall is_u32 rest ->
  let k := Z.to_nat (bound - cur) in
  exists d, fill_loop fuel bound cur (direct di1) rest = Ok (d, drop k rest, bound) /\
    grown L di n (c ++ take k rest) [] L1 (with_direct d di1) bound.
Proof.
  revert c di1 cur rest. induction fuel as [|fuel IH]; intros c di1 cur rest Hg Hb Hf Hlen Hr k.
  all: cbn [fill_loop]; destruct (cur <? bound) eqn:E; bool_to_Prop; try lia.
  1, 3: assert (cur = bound) as -> by lia; exists (direct di1); replace k with 0%nat by lia;
    rewrite drop_0, take_0, app_nil_r; split; [done|by destruct di1].
  pose proof (g_le _ _ _ _ _ _ _ _ Hg) as Hle.
  pose proof (g_valid _ _ _ _ _ _ _ _ Hg) as [Hdl _].
  destruct rest as [|x rest]; [simpl in Hlen; lia|]. apply Forall_cons in Hr as [Hx Hr].
  cbn [unwrap pop_front mbind res_bind]. unfold index_set. rewrite decide_True by lia.
  cbn [mbind res_bind]. rewrite uadd_small by lia.
  destruct (IH (c ++ [x]) (with_direct (<[Z.to_nat cur := x]> (direct di1)) di1) (cur + 1) rest)
    as (d & Ed & Hgd); [apply step_direct; [done|lia|done]|lia|lia|simpl in Hlen; lia|done|].
  exists d. replace k with (S (Z.to_nat (bound - (cur + 1)))) by lia. cbn [drop take].
  simpl in Ed. rewrite Ed. split; [done|]. rewrite <- app_assoc in Hgd. exact Hgd.
Qed.

Lemma fill_ind1_spec fuel L di n c L1 di1 ws cur bound rest :
  grown L di n c (pend1 di1 (28 + cur)) (set_words (indirect1 di1) ws L1) di1 (28 + cur) ->
  0 <= cur <= bound -> bound <= 128 -> bound - cur <= Z.of_nat fuel ->
  bound - cur <= Z.of_nat (length rest) -> Forall is_u32 rest ->
  words_ok 4 128 ws -> is_Some (L1 !! indirect1 di1) ->
  let k := Z.to_nat (bound - cur) in
  exists ws', fill_loop fuel bound cur ws rest = Ok (ws', drop k rest, bound) /\ words_ok 4 128 ws' /\
    grown L di n (c ++ take k rest) (pend1 di1 (28 + bound))
      (set_words (indirect1 di1) ws' L1) di1 (28 + bound).
Proof.
  revert c ws cur rest. induction fuel as [|fuel IH];
    intros c ws cur rest Hg Hb Hb2 Hf Hlen Hr Hws Hp k.
  all: cbn [fill_loop]; destruct (cur <? bound) eqn:E; bool_to_Prop; try lia.
  1, 3: assert (cur = bound) as -> by lia; exists ws; replace k with 0%nat by lia;
    rewrite drop_0, take_0, app_nil_r; done.
  destruct rest as [|x rest]; [simpl in Hlen; lia|]. apply Forall_cons in Hr as [Hx Hr].
  cbn [unwrap pop_front mbind res_bind]. unfold index_set.
  rewrite decide_True by (rewrite (proj1 Hws); lia). cbn [mbind res_bind]. rewrite uadd_small by lia.
  pose proof (step_ind1 L di n c L1 di1 (28 + cur) ws x Hg ltac:(lia) Hws Hx Hp) as Hg1.
  replace (28 + cur - 28) with cur in Hg1 by lia. replace (28 + cur + 1) with (28 + (cur + 1)) in Hg1 by lia.
  destruct (IH (c ++ [x]) (<[Z.to_nat cur := x]> ws) (cur + 1) rest) as (ws' & Ed & Hws' & Hgd).
  - unfold pend1. rewrite (proj2 (Z.eqb_neq (28 + (cur + 1)) 28)) by lia. done.
  - lia.
  - lia.
  - lia.
  - simpl in Hlen. lia.
  - done.
  - by apply words_ok_insert.
  - done.
  - exists ws'. replace k with (S (Z.to_nat (bound - (cur + 1)))) by lia. cbn [drop take].
    rewrite Ed. split_and!; [done|done|]. rewrite <- app_assoc in Hgd. exact Hgd.
Qed.

(** The second-level index [w2] is local while it is being filled: the disk as it
    will be is [set_words (indirect2 di1) w2 L1]. *)
Lemma step_sub_virtual L di n c L1 di1 m w2 s x :
  let z := indirect2 di1 in
  let a := (m - 156) / 128 in
  let b := (m - 156) mod 128 in
  grown L di n c (pend2 di1 m) (set_words z w2 L1) di1 m -> 156 <= m -> a < 128 ->
  words_ok 4 128 w2 -> words_ok 4 128 (words_at L1 s) -> is_u32 s -> is_u32 x ->
  is_Some (L1 !! s) -> is_Some (L1 !! z) ->
  (b <> 0 -> w2 !!! Z.to_nat a = s) ->
  s <> z -> s <> indirect1 di1 -> indirect1 di1 <> z ->
  (forall a', 0 <= a' < a -> w2 !!! Z.to_nat a' <> s /\ w2 !!! Z.to_nat a' <> z) ->
  grown L di n (c ++ (if b =? 0 then [s] else []) ++ [x]) []
    (set_words z (if b =? 0 then <[Z.to_nat a := s]> w2 else w2)
       (set_words s (<[Z.to_nat b := x]> (words_at L1 s)) L1)) di1 (m + 1).
Proof.
  intros z a b Hg Hm Ha Hw2 Hws Hs Hx Hps Hpz Hsb Hsz Hs1 H1z Hsubs.
  set (w2' := if b =? 0 then _ else w2). set (V := set_words z w2 L1) in *.
  set (V' := set_words z w2' _).
  assert (Hw2' : words_ok 4 128 w2') by (unfold w2'; destruct (b =? 0); [by apply words_ok_insert|done]).
  assert (HVz : words_at V z = w2) by (by apply words_at_set_eq).
  assert (HV'z : words_at V' z = w2') by (by apply words_at_set_eq).
  assert (HV's : words_at V' s = <[Z.to_nat b := x]> (words_at L1 s)).
  { unfold V'. rewrite words_at_set_ne by done. apply words_at_set_eq. by apply words_ok_insert. }
  assert (HVs : words_at V s = words_at L1 s) by (unfold V; by rewrite words_at_set_ne).
  assert (Hoth : forall id, id <> s -> id <> z -> V' !! id = V !! id).
  { intros id Hids Hidz. unfold V', V. by rewrite !lookup_set_words_ne. }
  assert (Hw2a : w2' !!! Z.to_nat a = s).
  { unfold w2'. destruct (b =? 0) eqn:E; bool_to_Prop; [|by apply Hsb].
    rewrite list_lookup_total_insert_eq; [done|]. rewrite (proj1 Hw2). lia. }
  apply (step_sub L di n c V di1 m V'); fold a b z; [done|done| | | | | | | |].
  - unfold V', V. rewrite !dom_set_words; [done|done|done|]. apply elem_of_dom.
    rewrite dom_set_words by done. by apply elem_of_dom.
  - apply words_at_same, Hoth; done.
  - intros a' Ha'. destruct (Hsubs a' Ha') as [Hns Hnz]. unfold sub_id. fold z. rewrite HVz, HV'z. split.
    + unfold w2'. destruct (b =? 0); [|done]. rewrite list_lookup_total_insert_ne; [done|lia].
    + apply words_at_same. by apply Hoth.
  - unfold sub_id. fold z. by rewrite HV'z.
  - intros Hb. unfold sub_id. fold z. rewrite HVz. by apply Hsb.
  - intros j Hj. rewrite HV's, HVs. rewrite list_lookup_total_insert_ne; [done|lia].
  - rewrite HV's, list_lookup_total_insert_eq; [done|]. rewrite (proj1 Hws). lia.
  - done.
Qed.

(** The blocks an inode under growth may use: distinct, present and not locked. *)
Record supply (L : gmap Z (list Z)) (H : list Z) (ids : list Z) : Prop := {
  su_nodup : NoDup ids;
  su_present : forall id, id ∈ ids -> id ∈ dom L;
  su_unlocked : forall id, id ∈ ids -> id ∉ H;
}.

Lemma count_step m :
  156 <= m -> count (m + 1) - count m =
    (if m =? 156 then 1 else 0) + (if (m - 156) mod 128 =? 0 then 1 else 0) + 1.
Proof.
  intros Hm. unfold count.
  rewrite (proj2 (Z.ltb_lt 28 (m + 1))), (proj2 (Z.ltb_lt 28 m)), (proj2 (Z.ltb_lt 156 (m + 1))) by lia.
  destruct (156 <? m) eqn:E1, (m =? 156) eqn:E2, ((m - 156) mod 128 =? 0) eqn:E3; bool_to_Prop; lia.
Qed.

(** Distinctness of the index blocks when the next data block goes in [s]. *)
Lemma next_sub_distinct L1 di1 m s rest :
  NoDup ((all_ids L1 di1 m ++ pend2 di1 m) ++ rest) -> 156 <= m ->
  ((m - 156) mod 128 <> 0 -> sub_id L1 di1 ((m - 156) / 128) = s) ->
  ((m - 156) mod 128 = 0 -> s ∈ rest) ->
  s <> indirect2 di1 /\ s <> indirect1 di1 /\ indirect1 di1 <> indirect2 di1 /\
  (forall a', 0 <= a' < (m - 156) / 128 ->
     sub_id L1 di1 a' <> s /\ sub_id L1 di1 a' <> indirect2 di1).
Proof.
  intros Hnd Hm Hold Hnew.
  apply NoDup_app in Hnd as (Hnd & Hdj & _). apply NoDup_app in Hnd as (Hnd & Hdp & _).
  pose proof (indirect1_in L1 di1 m ltac:(lia)) as Hi1.
  assert (Hi2 : indirect2 di1 ∈ all_ids L1 di1 m ++ pend2 di1 m).
  { apply elem_of_app. unfold pend2. destruct (m =? 156) eqn:E; bool_to_Prop.
    - right. by apply list_elem_of_singleton.
    - left. apply indirect2_in. lia. }
  assert (H12 : indirect1 di1 <> indirect2 di1).
  { destruct (decide (m = 156)) as [->|]; [|apply (indirect1_ne_indirect2 L1 di1 m); [done|lia]].
    intros E. apply (Hdp _ Hi1). rewrite E. by left. }
  assert (Hsub : forall a', 0 <= a' < (m - 156) / 128 -> sub_id L1 di1 a' ∈ all_ids L1 di1 m).
  { intros a' Ha'. apply sub_id_in; lia. }
  assert (Hsz : forall a', 0 <= a' < (m - 156) / 128 -> sub_id L1 di1 a' <> indirect2 di1).
  { intros a' Ha'. apply not_eq_sym. apply (indirect2_ne_sub L1 di1 m); [done|lia|lia]. }
  destruct (decide ((m - 156) mod 128 = 0)) as [Hb|Hb].
  - specialize (Hnew Hb). split_and!; [| |done|].
    + intros ->. by apply (Hdj _ Hi2).
    + intros ->. apply (Hdj (indirect1 di1)); [apply elem_of_app; by left|done].
    + intros a' Ha'. split; [|by apply Hsz]. intros E. apply (Hdj (sub_id L1 di1 a')).
      * apply elem_of_app. left. by apply Hsub.
      * by rewrite E.
  - specialize (Hold Hb). subst s. split_and!; [| |done|].
    + apply not_eq_sym, (indirect2_ne_sub L1 di1 m); [done|lia|lia].
    + apply not_eq_sym, (indirect1_ne_sub L1 di1 m); [done|lia|lia].
    + intros a' Ha'. split; [|by apply Hsz]. apply (sub_ids_distinct L1 di1 m); [done|lia|lia].
Qed.

(** One round: the index block [s] of the next data block is there or is taken
    from [rest]. *)
Lemma fill2_pop a b w2 rest :
  words_ok 4 128 w2 -> 0 <= a < 128 -> Forall is_u32 rest ->
  (b = 0 -> rest <> []) ->
  exists s rest1,
    (if b =? 0 then '(x, nb) ← unwrap (pop_front rest); w ← index_set w2 a x; Ok (w, nb)
     else Ok (w2, rest)) = Ok (if b =? 0 then <[Z.to_nat a := s]> w2 else w2, rest1) /\
    rest = (if b =? 0 then [s] else []) ++ rest1 /\ is_u32 s /\
    (b <> 0 -> w2 !!! Z.to_nat a = s) /\
    index (if b =? 0 then <[Z.to_nat a := s]> w2 else w2) a = Ok s.
Proof.
  intros Hw2 Ha Hr Hne. pose proof (proj1 Hw2) as Hl. destruct (b =? 0) eqn:E; bool_to_Prop.
  - destruct rest as [|s rest1]; [by destruct (Hne E)|]. apply Forall_cons in Hr as [Hs _].
    exists s, rest1. cbn [unwrap pop_front mbind res_bind].
    rewrite (proj2 (index_set_Ok w2 _ a s)) by (split; [lia|done]). split_and!; try done; try apply Hs.
    apply index_Ok. split; [lia|]. apply list_lookup_insert_eq. lia.
  - exists (w2 !!! Z.to_nat a), rest. split_and!; try done.
    + destruct Hw2 as [_ Hf]. rewrite Forall_lookup in Hf.
      apply (Hf (Z.to_nat a)), list_lookup_lookup_total_lt. lia.
    + apply index_Ok. split; [lia|]. apply list_lookup_lookup_total_lt. lia.
Qed.

Lemma fill2_loop_spec fuel L di n H c L1 di1 m t w2 rest :
  let z := indirect2 di1 in
  grown L di n c (pend2 di1 m) (set_words z w2 L1) di1 m ->
  156 <= m <= t -> t <= 16540 -> t - m <= Z.of_nat fuel ->
  Z.of_nat (length rest) + Z.of_nat (length (pend2 di1 m)) = count t - count m ->
  supply L H (all_ids L di n ++ c ++ rest) -> Forall is_u32 rest ->
  words_ok 4 128 w2 -> z ∈ dom L1 -> (length H < 15)%nat ->
  wp (fill2_loop fuel ((t - 156) / 128) ((t - 156) mod 128) ((m - 156) / 128) ((m - 156) mod 128) w2 rest)
    L1 (z :: H)
    (fun r L' => words_ok 4 128 r.1 /\ r.2 = [] /\
       grown L di n (c ++ rest) [] (set_words z r.1 L') di1 t).
Proof.
  intros z. revert c L1 m w2 rest.
  induction fuel as [|fuel IH]; intros c L1 m w2 rest Hg Hm Ht Hf Hlen Hsu Hr Hw2 Hz HH.
  all: cbn [fill2_loop]; set (a := (m - 156) / 128); set (b := (m - 156) mod 128).
  all: destruct (decide (m < t)) as [Hlt|Hge].
  2, 4: assert (m = t) as -> by lia; rewrite Z.sub_diag in Hlen;
    rewrite (proj2 (Z.ltb_ge a _)), (proj2 (Z.ltb_ge b _)), andb_false_r by lia; simpl;
    apply wp_ret; assert (rest = []) as -> by (apply nil_length_inv; lia);
    assert (pend2 di1 t = []) as Hp by (apply nil_length_inv; lia); rewrite Hp in Hg;
    rewrite app_nil_r; done.
  { lia. }
  replace ((a <? (t - 156) / 128) || (a =? (t - 156) / 128) && (b <? (t - 156) mod 128)) with true.
  2: { symmetry. destruct (a <? (t - 156) / 128) eqn:E; bool_to_Prop; [done|]. simpl.
       rewrite (proj2 (Z.eqb_eq _ _)), (proj2 (Z.ltb_lt _ _)) by lia. done. }
  assert (Hcnt := count_step m ltac:(lia)). fold b in Hcnt.
  assert (Hpl : Z.of_nat (length (pend2 di1 m)) = if m =? 156 then 1 else 0).
  { unfold pend2. by destruct (m =? 156). }
  pose proof (count_mono (m + 1) t ltac:(lia)) as Hmono.
  destruct (fill2_pop a b w2 rest Hw2 ltac:(lia) Hr) as (s & rest1 & Epop & Erest & Hs & Hsw & Eidx).
  { intros Hb ->. simpl in Hlen. rewrite Hb in Hcnt. simpl in Hcnt. lia. }
  apply wp_bind. eapply wp_res; [exact Epop|]. apply wp_bind. eapply wp_res; [exact Eidx|].
  (* what the new block may be used for *)
  destruct Hsu as [Hnd Hpr Hul].
  assert (HVz : words_at (set_words z w2 L1) z = w2) by (by apply words_at_set_eq).
  pose proof Hnd as Hnd'. rewrite app_assoc, <- (g_ids _ _ _ _ _ _ _ _ Hg) in Hnd'.
  destruct (next_sub_distinct _ _ _ s rest Hnd') as (Hsz & Hs1 & H1z & Hsubs); [lia| | |].
  { intros Hb. unfold sub_id. fold z. rewrite HVz. by apply Hsw. }
  { intros Hb. rewrite Erest. fold b in Hb. rewrite Hb. by left. }
  assert (Hsin : s ∈ all_ids L di n ++ c ++ rest).
  { destruct (decide (b = 0)) as [Hb|Hb].
    - rewrite !elem_of_app. right. right. rewrite Erest, Hb. by left.
    - rewrite app_assoc, <- (g_ids _ _ _ _ _ _ _ _ Hg), !elem_of_app. left. left.
      assert (sub_id (set_words z w2 L1) di1 a = s) as <-.
      { unfold sub_id. fold z. rewrite HVz. by apply Hsw. }
      apply sub_id_in; lia. }
  assert (Hd1 : dom L1 = dom L).
  { rewrite <- (g_dom _ _ _ _ _ _ _ _ Hg). symmetry. apply dom_set_words. by apply elem_of_dom. }
  assert (Hps : is_Some (L1 !! s)) by (apply elem_of_dom; rewrite Hd1; by apply Hpr).
  apply wp_bind, wp_modify_indirect; [done| |simpl; lia|].
  { apply not_elem_of_cons. split; [done|]. by apply Hul. }
  intros Hws. assert (Hl1 : (1 <= length rest1)%nat).
  { rewrite Erest, length_app in Hlen. destruct (b =? 0); simpl in Hlen; lia. }
  destruct rest1 as [|x rest2]; [simpl in Hl1; lia|].
  assert (Hrx : Forall is_u32 (x :: rest2)) by (rewrite Erest in Hr; by apply Forall_app in Hr as [_ ?]).
  apply Forall_cons in Hrx as [Hx Hr2].
  eapply wp_res.
  { cbn [unwrap pop_front mbind res_bind]. erewrite (proj2 (index_set_Ok (words_at L1 s) _ b x));
      [reflexivity|]. rewrite (proj1 Hws). split; [lia|done]. }
  split; [by apply words_ok_insert|]. rewrite uadd_small by lia.
  assert (Hsubs' : forall a', 0 <= a' < a -> w2 !!! Z.to_nat a' <> s /\ w2 !!! Z.to_nat a' <> z).
  { intros a' Ha'. destruct (Hsubs a' Ha') as [Ha1 Ha2]. unfold sub_id in Ha1, Ha2.
    fold z in Ha1, Ha2. rewrite HVz in Ha1, Ha2. done. }
  pose proof (step_sub_virtual L di n c L1 di1 m w2 s x Hg ltac:(lia) ltac:(lia) Hw2 Hws Hs Hx Hps
    (proj1 (elem_of_dom _ _) Hz) Hsw Hsz Hs1 H1z Hsubs') as Hg'. cbv zeta in Hg'. fold a b z in Hg'.
  assert (Hpend' : pend2 di1 (m + 1) = []).
  { unfold pend2. by rewrite (proj2 (Z.eqb_neq (m + 1) 156)) by lia. }
  set (c' := c ++ (if b =? 0 then [s] else []) ++ [x]) in *.
  assert (Hcr : c ++ rest = c' ++ rest2) by (unfold c'; rewrite Erest, <- !app_assoc; done).
  assert (Hgo : forall a2 b2, a2 = (m + 1 - 156) / 128 -> b2 = (m + 1 - 156) mod 128 ->
    wp (fill2_loop fuel ((t - 156) / 128) ((t - 156) mod 128) a2 b2
          (if b =? 0 then <[Z.to_nat a := s]> w2 else w2) rest2)
      (set_words s (<[Z.to_nat b := x]> (words_at L1 s)) L1) (z :: H)
      (fun r L' => words_ok 4 128 r.1 /\ r.2 = [] /\
         grown L di n (c ++ rest) [] (set_words z r.1 L') di1 t)).
  { intros a2 b2 -> ->. rewrite Hcr. apply IH; try done.
    - by rewrite Hpend'.
    - lia.
    - lia.
    - rewrite Hpend'. rewrite Erest, length_app in Hlen. simpl length in *.
      destruct (m =? 156), (b =? 0); simpl length in *; lia.
    - rewrite <- Hcr. by split.
    - destruct (b =? 0); [by apply words_ok_insert|done].
    - by rewrite dom_set_words. }
  change INODE_INDIRECT1_COUNT with 128. destruct (b + 1 =? 128) eqn:E; bool_to_Prop.
  - rewrite uadd_small by lia. apply Hgo; lia.
  - apply Hgo; lia.
Qed.

(** * [increase_size] *)

Lemma enc_dec_words k n bs :
  bytes_ok bs -> length bs = (n * k)%nat -> enc_words k (dec_words k n bs) = bs.
Proof.
  revert bs. induction n as [|n IH]; intros bs Hb Hl.
  { by rewrite (nil_length_inv bs). }
  change (enc_words k (dec_words k (S n) bs)) with
    (enc_word k (dec_word (take k bs)) ++ enc_words k (dec_words k n (drop k bs))).
  rewrite IH by (by apply Forall_drop || (rewrite length_drop; lia)).
  unfold enc_word, dec_word. rewrite Z_to_little_endian_to_Z; [apply take_drop|..].
  - rewrite length_take. lia.
  - lia.
  - by apply Forall_take.
Qed.

Lemma set_words_same L id : disk_ok L -> is_Some (L !! id) -> set_words id (words_at L id) L = L.
Proof.
  intros HL [b Hb]. unfold set_words, words_at. rewrite Hb. destruct (HL _ _ Hb) as [Hl Hby].
  rewrite enc_dec_words by (done || lia). by apply insert_id.
Qed.

(** The blocks consumed are those the data blocks need. *)
Lemma grown_length L di n c pend L1 di1 m :
  grown L di n c pend L1 di1 m ->
  Z.of_nat (length c) = count m + Z.of_nat (length pend) - count n.
Proof.
  intros Hg. pose proof (g_le _ _ _ _ _ _ _ _ Hg) as Hle.
  pose proof (f_equal length (g_ids _ _ _ _ _ _ _ _ Hg)) as E. rewrite !length_app in E.
  pose proof (length_all_ids L di n ltac:(lia)). pose proof (length_all_ids L1 di1 m ltac:(lia)). lia.
Qed.

Section Increase.
Context (L : gmap Z (list Z)) (di : DiskInode) (n t : Z) (nb : list Z).
Context (Hvalid : valid_inode di) (Hnt : 0 <= n <= t) (Ht : t <= 16540).
Context (Hnb : Z.of_nat (length nb) = count t - count n) (Hu32 : Forall is_u32 nb).

Lemma phase_direct :
  exists d c rest, fill_loop 128 (Z.min 28 t) n (direct di) nb = Ok (d, rest, Z.max n (Z.min 28 t)) /\
    nb = c ++ rest /\ grown L di n c [] L (with_direct d di) (Z.max n (Z.min 28 t)).
Proof.
  destruct (decide (n <= 28)) as [Hn|Hn].
  - replace (Z.max n (Z.min 28 t)) with (Z.min 28 t) by lia.
    assert (Z.min 28 t - n <= Z.of_nat (length nb)).
    { rewrite Hnb. unfold count.
      destruct (28 <? t) eqn:E1, (28 <? n) eqn:E2, (156 <? t) eqn:E3, (156 <? n) eqn:E4; bool_to_Prop; lia. }
    destruct (fill_direct_spec 128 L di n [] L di n (Z.min 28 t) nb) as (d & E & Hg);
      [by apply grown_refl; [|lia]|lia|lia|done|done|].
    rewrite app_nil_l in Hg. eexists d, _, _. split; [exact E|]. split; [|exact Hg].
    by rewrite take_drop.
  - exists (direct di), [], nb. replace (Z.max n (Z.min 28 t)) with n by lia.
    assert (E : (n <? Z.min 28 t) = false) by (apply Z.ltb_ge; lia).
    cbn [fill_loop]. rewrite E. split_and!; [done|done|].
    replace (with_direct (direct di) di) with di by (by destruct di). apply grown_refl; [done|lia].
Qed.

Lemma phase_indirect1 c rest L1 di1 m :
  grown L di n c [] L1 di1 m -> nb = c ++ rest -> m = Z.max n (Z.min 28 t) -> 28 < t ->
  exists y c' rest',
    (if m =? 28 then unwrap (pop_front rest) else Ok (indirect1 di1, rest)) = Ok (y, rest') /\
    nb = c' ++ rest' /\ grown L di n c' (pend1 (with_indirect1 y di1) m) L1 (with_indirect1 y di1) m /\
    y ∈ all_ids L di n ++ nb.
Proof.
  intros Hg Hc Hm Ht28. destruct (m =? 28) eqn:E; bool_to_Prop.
  - destruct rest as [|y rest].
    + exfalso. pose proof (grown_length _ _ _ _ _ _ _ _ Hg) as Hl. rewrite app_nil_r in Hc. subst c.
      rewrite E in Hl. simpl in Hl. unfold count in *.
      destruct (28 <? t) eqn:E1, (28 <? 28) eqn:E2, (156 <? t) eqn:E3, (156 <? 28) eqn:E4;
        bool_to_Prop; lia.
    + exists y, (c ++ [y]), rest. split; [done|]. split; [by rewrite Hc, <- app_assoc|].
      unfold pend1. rewrite (proj2 (Z.eqb_eq m 28)) by lia. subst m. rewrite E in *. split.
      * apply grown_pend1; [done|]. rewrite Hc in Hu32. apply Forall_app in Hu32 as [_ Hr].
        by apply Forall_cons in Hr as [? _].
      * rewrite Hc, !elem_of_app. right. right. by left.
  - exists (indirect1 di1), c, rest. unfold pend1. rewrite (proj2 (Z.eqb_neq m 28)) by lia.
    replace (with_indirect1 (indirect1 di1) di1) with di1 by (by destruct di1).
    split_and!; [done|done|done|].
    assert (indirect1 di1 ∈ all_ids L di n ++ c) as Hin.
    { rewrite <- (g_ids _ _ _ _ _ _ _ _ Hg), app_nil_r. apply indirect1_in. lia. }
    rewrite Hc, app_assoc. apply elem_of_app. by left.
Qed.

Lemma phase_indirect2 c rest L1 di1 m :
  grown L di n c [] L1 di1 m -> nb = c ++ rest -> m = Z.max n 156 -> 156 < t ->
  exists z c' rest',
    (if m =? 156 then unwrap (pop_front rest) else Ok (indirect2 di1, rest)) = Ok (z, rest') /\
    nb = c' ++ rest' /\ grown L di n c' (pend2 (with_indirect2 z di1) m) L1 (with_indirect2 z di1) m /\
    z ∈ all_ids L di n ++ nb.
Proof.
  intros Hg Hc Hm Ht156. destruct (m =? 156) eqn:E; bool_to_Prop.
  - destruct rest as [|z rest].
    + exfalso. pose proof (grown_length _ _ _ _ _ _ _ _ Hg) as Hl. rewrite app_nil_r in Hc. subst c.
      rewrite E in Hl. simpl in Hl. unfold count in *.
      destruct (28 <? t) eqn:E1, (156 <? t) eqn:E3; bool_to_Prop; simpl in Hl; lia.
    + exists z, (c ++ [z]), rest. split; [done|]. split; [by rewrite Hc, <- app_assoc|].
      unfold pend2. rewrite (proj2 (Z.eqb_eq m 156)) by lia. subst m. rewrite E in *. split.
      * apply grown_pend2; [done|]. rewrite Hc in Hu32. apply Forall_app in Hu32 as [_ Hr].
        by apply Forall_cons in Hr as [? _].
      * rewrite Hc, !elem_of_app. right. right. by left.
  - exists (indirect2 di1), c, rest. unfold pend2. rewrite (proj2 (Z.eqb_neq m 156)) by lia.
    replace (with_indirect2 (indirect2 di1) di1) with di1 by (by destruct di1).
    split_and!; [done|done|done|].
    assert (indirect2 di1 ∈ all_ids L di n ++ c) as Hin.
    { rewrite <- (g_ids _ _ _ _ _ _ _ _ Hg), app_nil_r. apply indirect2_in. lia. }
    rewrite Hc, app_assoc. apply elem_of_app. by left.
Qed.

(** The first-level index, as many entries as are needed. *)
Lemma phase_fill1 c rest L1 di1 m :
  grown L di n c (pend1 di1 m) L1 di1 m -> nb = c ++ rest -> m = Z.max n (Z.min 28 t) -> 28 < t ->
  disk_ok L1 -> is_Some (L1 !! indirect1 di1) ->
  let m' := Z.max n (Z.min 156 t) in
  exists ws c' rest',
    fill_loop 128 (Z.min 128 (t - 28)) (m - 28) (words_at L1 (indirect1 di1)) rest = Ok (ws, rest', m' - 28) /\
    words_ok 4 128 ws /\ nb = c' ++ rest' /\
    grown L di n c' [] (set_words (indirect1 di1) ws L1) di1 m'.
Proof.
  intros Hg Hc Hm Ht28 HL Hp m'. pose proof (words_at_ok L1 _ HL Hp) as Hws.
  pose proof (set_words_same L1 _ HL Hp) as Hsame.
  destruct (decide (m <= 156)) as [Hle|Hgt].
  - rewrite Hc in Hu32. apply Forall_app in Hu32 as [_ Hr].
    pose proof (grown_length _ _ _ _ _ _ _ _ Hg) as Hl.
    assert (Z.min 128 (t - 28) - (m - 28) <= Z.of_nat (length rest)).
    { pose proof (f_equal length Hc) as El. rewrite length_app in El. unfold pend1 in Hl.
      unfold count in *. destruct (m =? 28) eqn:E0; bool_to_Prop; simpl length in Hl;
      destruct (28 <? t) eqn:E1, (28 <? n) eqn:E2, (156 <? t) eqn:E3, (156 <? n) eqn:E4,
        (28 <? m) eqn:E5, (156 <? m) eqn:E6; bool_to_Prop; lia. }
    destruct (fill_ind1_spec 128 L di n c L1 di1 (words_at L1 (indirect1 di1)) (m - 28)
      (Z.min 128 (t - 28)) rest) as (ws & E & Hws' & Hg');
      [|lia|lia|lia|done|done|done|done|].
    { replace (28 + (m - 28)) with m by lia. by rewrite Hsame. }
    replace (28 + Z.min 128 (t - 28)) with m' in Hg' by lia.
    replace (Z.min 128 (t - 28)) with (m' - 28) in E at 3 by lia.
    eexists ws, _, _. split; [exact E|]. split; [done|]. split.
    + rewrite Hc, <- app_assoc, take_drop. done.
    + unfold pend1 in Hg'. rewrite (proj2 (Z.eqb_neq m' 28)) in Hg' by lia. exact Hg'.
  - exists (words_at L1 (indirect1 di1)), c, rest. replace m' with m by lia.
    assert (E : (m - 28 <? Z.min 128 (t - 28)) = false) by (apply Z.ltb_ge; lia).
    cbn [fill_loop]. rewrite E. split_and!; [done|done|done|]. rewrite Hsame.
    unfold pend1 in Hg. rewrite (proj2 (Z.eqb_neq m 28)) in Hg by lia. done.
Qed.
End Increase.

Lemma increase_size_grown L H di new_size nb :
  let n := data_blocks di in
  let t := _data_blocks new_size in
  valid_inode di -> 0 <= size di <= new_size -> new_size <= MAX_SIZE ->
  Z.of_nat (length nb) = count t - count n -> Forall is_u32 nb ->
  supply L H (all_ids L di n ++ nb) -> (length H < 15)%nat ->
  wp (increase_size di new_size nb) L H
    (fun di' L' => size di' = new_size /\ type_ di' = type_ di /\ grown L di n nb [] L' di' t).
Proof.
  intros n t Hv Hsz Hmax Hlen Hu Hsu HH.
  assert (Hns : 0 <= new_size <= MAX_SIZE) by lia.
  assert (is_u32 new_size) as Hu32 by (unfold is_u32, MAX_SIZE in *; lia).
  assert (Hnt : 0 <= n <= t /\ t <= 16540).
  { unfold n, t, data_blocks. rewrite !data_blocks_spec by lia. unfold MAX_SIZE in *. lia. }
  destruct Hnt as [Hnt Ht]. unfold increase_size. fold n t.
  change INODE_DIRECT_COUNT with 28. change INODE_INDIRECT1_COUNT with 128.
  destruct (phase_direct L di n t nb Hv Hnt Hlen Hu) as (d & c1 & r1 & E1 & Hc1 & Hg1).
  apply wp_bind. eapply wp_res; [exact E1|]. cbn beta iota.
  apply grown_with_size with (s := new_size) in Hg1; [|done].
  set (m1 := Z.max n (Z.min 28 t)) in *. change (mkInode new_size d _ _ _) with (with_size new_size (with_direct d di)).
  set (di1 := with_size new_size (with_direct d di)) in *.
  assert (Hend : forall c rest L' di' m, nb = c ++ rest -> grown L di n c [] L' di' m -> m = t ->
    grown L di n nb [] L' di' t).
  { intros c rest L' di' m Hc Hg ->. pose proof (grown_length _ _ _ _ _ _ _ _ Hg) as Hl.
    pose proof (f_equal length Hc) as El. rewrite length_app in El. simpl in Hl.
    assert (rest = []) as -> by (apply nil_length_inv; lia). by rewrite Hc, app_nil_r. }
  destruct (t <=? 28) eqn:Et28; bool_to_Prop.
  { apply wp_ret. split_and!; [done|done|]. apply (Hend c1 r1 L di1 m1); [done|done|lia]. }
  destruct (phase_indirect1 L di n t nb Hlen Hu c1 r1 L di1 m1)
    as (y & c2 & r2 & E2 & Hc2 & Hg2 & Hy); [done|done|done|lia|].
  apply wp_bind. eapply wp_res; [exact E2|]. cbn beta iota.
  change (mkInode (size di1) _ y _ _) with (with_indirect1 y di1).
  set (di2 := with_indirect1 y di1) in *. destruct Hsu as [Hnd Hpr Hul].
  rewrite (usub_small m1 28), (usub_small t 28) by lia. apply wp_bind, wp_disk_ok. intros HL.
  assert (Hpy : is_Some (L !! y)) by (apply elem_of_dom; by apply Hpr).
  destruct (phase_fill1 L di n t nb Hnt Hlen Hu c2 r2 L di2 m1) as (ws & c3 & r3 & E3 & Hws & Hc3 & Hg3);
    [done|done|done|lia|done|done|].
  apply wp_modify_indirect; [done|by apply Hul|lia|]. intros _.
  apply wp_bind. eapply wp_res; [exact E3|]. apply wp_ret. split; [done|].
  set (m2 := Z.max n (Z.min 156 t)) in *. set (L2 := set_words y ws L).
  destruct (t - 28 <=? 128) eqn:Et156; bool_to_Prop.
  { apply wp_ret. split_and!; [done|done|]. apply (Hend c3 r3 L2 di2 m2); [done|done|lia]. }
  destruct (phase_indirect2 L di n t nb Hlen Hu c3 r3 L2 di2 m2)
    as (z & c4 & r4 & E4 & Hc4 & Hg4 & Hz); [done|done|lia|lia|].
  replace (m2 - 28 =? 128) with (m2 =? 156) by (apply eqb_ext; lia).
  apply wp_bind. eapply wp_res; [exact E4|]. cbn beta iota.
  change (mkInode (size di2) _ _ z _) with (with_indirect2 z di2).
  set (di3 := with_indirect2 z di2) in *.
  rewrite (usub_small (m2 - 28)), (usub_small (t - 28)) by lia.
  replace (m2 - 28 - 128) with (m2 - 156) by lia. replace (t - 28 - 128) with (t - 156) by lia.
  apply wp_bind, wp_disk_ok. intros HL2.
  assert (Hd2 : dom L2 = dom L) by (unfold L2; by rewrite dom_set_words).
  assert (Hpz : is_Some (L2 !! z)) by (apply elem_of_dom; rewrite Hd2; by apply Hpr).
  apply wp_modify_indirect; [done|by apply Hul|lia|]. intros Hw2.
  apply wp_bind. eapply wp_mono.
  { apply (fill2_loop_spec fill2_fuel L di n H c4 L2 di3 m2 t (words_at L2 z) r4).
    - change (indirect2 di3) with z. by rewrite set_words_same.
    - lia.
    - done.
    - unfold fill2_fuel. change INODE_INDIRECT2_COUNT with 16384. lia.
    - pose proof (grown_length _ _ _ _ _ _ _ _ Hg4) as Hl.
      pose proof (f_equal length Hc4) as El. rewrite length_app in El. lia.
    - rewrite <- Hc4. by split.
    - rewrite Hc4 in Hu. by apply Forall_app in Hu as [_ ?].
    - done.
    - by apply elem_of_dom.
    - done. }
  intros [w2' r'] L3 _ _ (Hw2' & _ & Hg5). simpl in Hw2', Hg5. apply wp_ret. split; [done|].
  apply wp_ret. split_and!; [done|done|]. by rewrite Hc4.
Qed.

(** * [clear_size] *)

Lemma push_loop_spec fuel bound cur arr v :
  0 <= cur <= bound -> bound <= Z.of_nat (length arr) -> bound <= 2 ^ 32 -> bound - cur <= Z.of_nat fuel ->
  push_loop fuel bound cur arr v =
    Ok (v ++ take (Z.to_nat (bound - cur)) (drop (Z.to_nat cur) arr), bound).
Proof.
  revert cur v. induction fuel as [|fuel IH]; intros cur v Hc Hb Hm Hf.
  all: cbn [push_loop]; destruct (cur <? bound) eqn:E; bool_to_Prop; try lia.
  1, 3: assert (cur = bound) as -> by lia; rewrite Z.sub_diag, app_nil_r; done.
  destruct (lookup_lt_is_Some_2 arr (Z.to_nat cur)) as [x Hx]; [lia|].
  rewrite (proj2 (index_Ok arr cur x)) by (split; [lia|done]). cbn [mbind res_bind].
  rewrite uadd_small, IH by lia. unfold vec_push. rewrite <- app_assoc.
  rewrite (drop_S arr x (Z.to_nat cur) Hx).
  replace (Z.to_nat (bound - cur)) with (S (Z.to_nat (bound - (cur + 1)))) by lia.
  replace (Z.to_nat (cur + 1)) with (S (Z.to_nat cur)) by lia. done.
Qed.

Lemma push_zero_loop_spec fuel bound cur arr v :
  0 <= cur <= bound -> bound <= Z.of_nat (length arr) -> bound <= 2 ^ 32 -> bound - cur <= Z.of_nat fuel ->
  Forall is_u32 arr ->
  exists arr', push_zero_loop fuel bound cur arr v =
      Ok (arr', v ++ take (Z.to_nat (bound - cur)) (drop (Z.to_nat cur) arr), bound) /\
    length arr' = length arr /\ Forall is_u32 arr'.
Proof.
  revert cur arr v. induction fuel as [|fuel IH]; intros cur arr v Hc Hb Hm Hf Hu.
  all: cbn [push_zero_loop]; destruct (cur <? bound) eqn:E; bool_to_Prop; try lia.
  1, 3: exists arr; assert (cur = bound) as -> by lia; rewrite Z.sub_diag, app_nil_r; done.
  destruct (lookup_lt_is_Some_2 arr (Z.to_nat cur)) as [x Hx]; [lia|].
  rewrite (proj2 (index_Ok arr cur x)) by (split; [lia|done]). cbn [mbind res_bind].
  unfold index_set. rewrite decide_True by lia. cbn [mbind res_bind]. rewrite uadd_small by lia.
  destruct (IH (cur + 1) (<[Z.to_nat cur := 0]> arr) (vec_push v x)) as (arr' & E' & Hl & Hu').
  - lia.
  - rewrite length_insert. lia.
  - lia.
  - lia.
  - apply Forall_insert; [done|]. unfold is_u32. lia.
  - exists arr'. rewrite E'. rewrite length_insert in Hl. split_and!; [|done|done].
    rewrite (drop_S arr x (Z.to_nat cur) Hx). unfold vec_push. rewrite <- app_assoc.
    replace (Z.to_nat (cur + 1)) with (S (Z.to_nat cur)) by lia.
    rewrite drop_insert_lt by lia.
    replace (Z.to_nat (bound - cur)) with (S (Z.to_nat (bound - (cur + 1)))) by lia. done.
Qed.

(** The blocks of an inode, level by level. *)
Lemma all_ids_add L di p q :
  0 <= p -> 0 <= q -> all_ids L di (p + q) = all_ids L di p ++ (seqZ p q ≫= group L di).
Proof. intros. unfold all_ids. by rewrite seqZ_app, bind_app, Z.add_0_l by lia. Qed.

(** Consecutive groups that are single entries of an array. *)
Lemma bind_singletons (f : Z -> list Z) (arr : list Z) p j k :
  0 <= j -> j + k <= Z.of_nat (length arr) ->
  (forall i, 0 <= i < k -> f (p + i) = [arr !!! Z.to_nat (j + i)]) ->
  seqZ p k ≫= f = take (Z.to_nat k) (drop (Z.to_nat j) arr).
Proof.
  intros Hj Hk. revert p j Hj Hk. destruct (decide (0 <= k)) as [Hk0|]; cycle 1.
  { intros p j ? ? _. rewrite seqZ_nil by lia. by replace (Z.to_nat k) with 0%nat by lia. }
  revert k Hk0. apply (natlike_ind (fun k => forall p j : Z, 0 <= j -> j + k <= Z.of_nat (length arr) ->
    (forall i, 0 <= i < k -> f (p + i) = [arr !!! Z.to_nat (j + i)]) ->
    seqZ p k ≫= f = take (Z.to_nat k) (drop (Z.to_nat j) arr))); [done|].
  intros k Hk IH p j Hj Hl Hf. rewrite seqZ_cons by lia. cbn [mbind list_bind].
  pose proof (Hf 0 ltac:(lia)) as H0. rewrite !Z.add_0_r in H0. rewrite H0.
  replace (Z.pred (Z.succ k)) with k by lia. change (list_bind _ _ f (seqZ (Z.succ p) k)) with (seqZ (Z.succ p) k ≫= f).
  rewrite (IH (Z.succ p) (j + 1)); [|lia|lia|].
  - rewrite (drop_S arr (arr !!! Z.to_nat j) (Z.to_nat j)) by (apply list_lookup_lookup_total_lt; lia).
    replace (Z.to_nat (Z.succ k)) with (S (Z.to_nat k)) by lia.
    replace (Z.to_nat (j + 1)) with (S (Z.to_nat j)) by lia. done.
  - intros i Hi. replace (Z.succ p + i) with (p + (i + 1)) by lia. rewrite Hf by lia. do 2 f_equal. lia.
Qed.

Lemma all_ids_direct L di n :
  valid_inode di -> 0 <= n <= 28 -> all_ids L di n = take (Z.to_nat n) (direct di).
Proof.
  intros [Hl _] Hn. unfold all_ids. rewrite (bind_singletons _ (direct di) 0 0 n); [done|lia|lia|].
  intros i Hi. rewrite group_lt28 by lia. done.
Qed.

Lemma all_ids_indirect1 L di k :
  length (words_at L (indirect1 di)) = 128%nat -> 0 < k <= 128 ->
  all_ids L di (28 + k) =
    all_ids L di 28 ++ indirect1 di :: take (Z.to_nat k) (words_at L (indirect1 di)).
Proof.
  intros Hl Hk. rewrite all_ids_add by lia. f_equal. rewrite seqZ_cons by lia. cbn [mbind list_bind].
  rewrite group_lt156 by lia. change (list_bind _ _ (group L di) ?l) with (l ≫= group L di).
  rewrite (bind_singletons (group L di) (words_at L (indirect1 di)) (Z.succ 28) 1 (Z.pred k)); [|lia|lia|].
  - set (w := words_at L (indirect1 di)) in *. destruct w as [|w0 w]; [done|].
    replace (Z.to_nat k) with (S (Z.to_nat (Z.pred k))) by lia. done.
  - intros i Hi. rewrite group_lt156 by lia. rewrite (proj2 (Z.eqb_neq (Z.succ 28 + i) 28)) by lia.
    simpl. do 2 f_equal. lia.
Qed.

Lemma all_ids_sub L di a k :
  0 <= a -> length (words_at L (sub_id L di a)) = 128%nat -> 0 < k <= 128 ->
  all_ids L di (156 + 128 * a + k) =
    (all_ids L di (156 + 128 * a) ++ pend2 di (156 + 128 * a)) ++
    sub_id L di a :: take (Z.to_nat k) (words_at L (sub_id L di a)).
Proof.
  intros Ha Hl Hk. rewrite all_ids_add, <- app_assoc by lia. f_equal.
  rewrite seqZ_cons by lia. cbn [mbind list_bind]. rewrite group_ge156 by lia.
  replace ((156 + 128 * a - 156) mod 128) with 0 by lia.
  replace ((156 + 128 * a - 156) / 128) with a by lia. rewrite <- !app_assoc. unfold pend2. f_equal.
  change (list_bind _ _ (group L di) ?l) with (l ≫= group L di).
  rewrite (bind_singletons (group L di) (words_at L (sub_id L di a)) (Z.succ (156 + 128 * a)) 1 (Z.pred k));
    [|lia|lia|].
  - set (w := words_at L (sub_id L di a)) in *. destruct w as [|w0 w]; [done|].
    replace (Z.to_nat k) with (S (Z.to_nat (Z.pred k))) by lia. done.
  - intros i Hi. rewrite group_ge156 by lia.
    rewrite (proj2 (Z.eqb_neq (Z.succ (156 + 128 * a) + i) 156)) by lia.
    replace ((Z.succ (156 + 128 * a) + i - 156) mod 128) with (1 + i) by lia.
    replace ((Z.succ (156 + 128 * a) + i - 156) / 128) with a by lia.
    rewrite (proj2 (Z.eqb_neq (1 + i) 0)) by lia. done.
Qed.

Lemma push_sub_spec k v id L H :
  is_Some (L !! id) -> id ∉ H -> (length H < 16)%nat ->
  wp (push_sub k v id) L H
    (fun v' L' => v' = v ++ id :: take (Z.to_nat k) (words_at L id) /\ L' = L).
Proof.
  intros Hp Hni HH. apply wp_disk_ok. intros HL. unfold push_sub, vec_push.
  apply wp_modify_indirect; [done|done|done|]. intros Hw. apply wp_ret.
  split; [done|]. split; [by rewrite <- app_assoc|by apply set_words_same].
Qed.

Lemma clear_size_spec L H di :
  let n := data_blocks di in
  inode_ok L H di n -> (length H < 15)%nat ->
  wp (clear_size di) L H
    (fun r L' => r.1 = all_ids L di n /\ L' = L /\
       valid_inode r.2 /\ size r.2 = 0 /\ type_ r.2 = type_ di).
Proof.
  intros n [Hv Hn Hnd Hp Hu] HH. pose proof Hv as (Hdl & Hdu & _ & Hi1 & Hi2)%valid_inode_fields.
  apply wp_disk_ok. intros HL. unfold clear_size. fold n.
  change INODE_DIRECT_COUNT with 28. change INODE_INDIRECT1_COUNT with 128.
  assert (Hfin : forall d i1 i2 v, length d = 28%nat -> Forall is_u32 d -> is_u32 i1 -> is_u32 i2 ->
    v = all_ids L di n ->
    v = all_ids L di n /\ L = L /\ valid_inode (mkInode 0 d i1 i2 (type_ di)) /\ 0 = 0 /\
    type_ di = type_ di).
  { intros d i1 i2 v ? ? ? ? ->. split_and!; try done. apply valid_inode_fields. simpl. done. }
  assert (Hz : is_u32 0) by (unfold is_u32; lia).
  assert (Hw : forall id, id ∈ all_ids L di n -> length (words_at L id) = 128%nat).
  { intros id Hid. apply words_at_ok; [done|by apply Hp]. }
  destruct (push_zero_loop_spec 128 (Z.min 28 n) 0 (direct di) []) as (d & E1 & Hld & Hud);
    [lia|lia|lia|lia|done|].
  apply wp_bind. eapply wp_res; [exact E1|]. cbn beta iota. rewrite app_nil_l, drop_0, Z.sub_0_r.
  rewrite <- (all_ids_direct L) by (done || lia). destruct (n <=? 28) eqn:E28; bool_to_Prop.
  { apply wp_ret. apply Hfin; try done; [by rewrite Hld|]. by rewrite Z.min_r by lia. }
  rewrite (Z.min_l 28 n), (usub_small 28), (usub_small n) by lia. cbn [indirect1 indirect2 size direct type_].
  pose proof (indirect1_in L di n ltac:(lia)) as Hin1. apply wp_bind, wp_modify_indirect;
    [by apply Hp|by apply Hu|lia|]. intros Hw1. apply wp_bind. eapply wp_res.
  { apply push_loop_spec; [lia|rewrite (Hw _ Hin1); lia|lia|lia]. }
  cbn beta iota. apply wp_ret. split; [done|]. rewrite set_words_same by (done || by apply Hp).
  replace (vec_push _ _ ++ _) with (all_ids L di (Z.min 156 n)); cycle 1.
  { unfold vec_push. rewrite Z.sub_diag, Z.sub_0_r, drop_0, <- app_assoc. cbn [app].
    rewrite <- all_ids_indirect1 by (apply (Hw _ Hin1) || lia). f_equal. lia. }
  destruct (n - 28 <=? 128) eqn:E156; bool_to_Prop.
  { apply wp_ret. apply Hfin; try done; [by rewrite Hld|]. by rewrite Z.min_r by lia. }
  rewrite (usub_small (n - 28)), (Z.min_l 156 n) by lia. replace (n - 28 - 128) with (n - 156) by lia.
  pose proof (indirect2_in L di n ltac:(lia)) as Hin2. apply wp_bind, wp_modify_indirect;
    [by apply Hp|by apply Hu|lia|]. intros Hw2. set (w2 := words_at L (indirect2 di)) in *.
  set (a1 := (n - 156) / 128). set (b1 := (n - 156) mod 128).
  assert (Hsub : forall a, 0 <= a -> 156 + 128 * a < n -> sub_id L di a ∈ all_ids L di n /\
    sub_id L di a ∉ indirect2 di :: H).
  { intros a Ha Ha'. pose proof (sub_id_in L di n a Ha Ha') as Hs. split; [done|].
    apply not_elem_of_cons. split; [|by apply Hu]. by apply not_eq_sym, (indirect2_ne_sub L di n). }
  apply wp_bind. apply (wp_fold _ _ (fun l v L' => L' = L /\ exists a, 0 <= a <= a1 /\
    l = drop (Z.to_nat a) (take (Z.to_nat a1) w2) /\
    v = all_ids L di (156 + 128 * a) ++ pend2 di (156 + 128 * a))).
  { split; [done|]. exists 0. split_and!; [lia|lia|done|]. done. }
  { intros id l v L' [-> (a & Ha & Hl & ->)].
    assert (Hlt : a < a1).
    { apply (f_equal length) in Hl. rewrite length_drop, length_take, (proj1 Hw2) in Hl. simpl in Hl. lia. }
    assert (Hid : id = sub_id L di a /\ l = drop (Z.to_nat (a + 1)) (take (Z.to_nat a1) w2)).
    { replace (Z.to_nat (a + 1)) with (S (Z.to_nat a)) by lia.
      rewrite (drop_S _ (sub_id L di a)) in Hl; [by simplify_eq|].
      rewrite lookup_take_lt by lia. apply list_lookup_lookup_total_lt. rewrite (Hw _ Hin2). lia. }
    destruct Hid as [-> ->]. destruct (Hsub a ltac:(lia) ltac:(lia)) as [Hs1 Hs2].
    eapply wp_mono; [apply push_sub_spec; [by apply Hp|done|simpl; lia]|].
    intros v' L' _ _ [-> ->]. split; [done|]. exists (a + 1). split_and!; [lia|lia|done|].
    rewrite <- (all_ids_sub L di a 128) by (apply (Hw _ Hs1) || lia). unfold pend2.
    rewrite (proj2 (Z.eqb_neq (156 + 128 * (a + 1)) 156)), app_nil_r by lia. f_equal. lia. }
  intros v L' [-> (a & Ha & Hl & ->)]. assert (a = a1) as ->.
  { apply (f_equal length) in Hl. rewrite length_drop, length_take, (proj1 Hw2) in Hl. simpl in Hl. lia. }
  apply wp_bind. destruct (0 <? b1) eqn:Eb; bool_to_Prop.
  - destruct (Hsub a1 ltac:(lia) ltac:(lia)) as [Hs1 Hs2].
    apply wp_bind. eapply wp_res.
    { apply index_Ok. split; [lia|]. apply list_lookup_lookup_total_lt. rewrite (proj1 Hw2). lia. }
    change (w2 !!! Z.to_nat a1) with (sub_id L di a1).
    eapply wp_mono; [apply push_sub_spec; [by apply Hp|done|simpl; lia]|].
    intros v' L' _ _ [-> ->]. apply wp_ret. split; [done|]. unfold w2.
    rewrite set_words_same by (done || by apply Hp). apply wp_ret. apply Hfin; try done; [by rewrite Hld|].
    rewrite <- all_ids_sub by (apply (Hw _ Hs1) || lia).
    by assert (156 + 128 * a1 + b1 = n) as -> by (unfold a1, b1; lia).
  - apply wp_ret, wp_ret. split; [done|]. unfold w2. rewrite set_words_same by (done || by apply Hp).
    apply wp_ret. apply Hfin; try done; [by rewrite Hld|]. unfold pend2.
    rewrite (proj2 (Z.eqb_neq (156 + 128 * a1) 156)), app_nil_r by lia.
    by assert (156 + 128 * a1 = n) as -> by (unfold a1, b1 in *; lia).
Qed.

(** * The theorems *)

Lemma grown_inode_ok L H di n nb L' di' t :
  grown L di n nb [] L' di' t -> supply L H (all_ids L di n ++ nb) -> t <= 16540 ->
  inode_ok L' H di' t /\ all_ids L' di' t = all_ids L di n ++ nb.
Proof.
  intros [Hv Hle Hold Hids Hdom Hfr] [Hnd Hp Hu] Ht. rewrite app_nil_r in Hids.
  split; [|done]. split; rewrite ?Hids; [done|lia|done| |done].
  intros id Hid. apply elem_of_dom. rewrite Hdom. by apply Hp.
Qed.

(** Blocks that are not index blocks keep their contents, so the old bytes stay. *)
Lemma grown_fbyte L H di n nb L' di' t k :
  grown L di n nb [] L' di' t -> supply L H (all_ids L di n ++ nb) -> t <= 16540 ->
  0 <= k < 512 * n -> fbyte L' di' k = fbyte L di k.
Proof.
  intros Hg Hsu Ht Hk. destruct (grown_inode_ok L H di n nb L' di' t Hg Hsu Ht) as [Hok _].
  pose proof (g_le _ _ _ _ _ _ _ _ Hg) as Hle.
  assert (Hb : block_id L' di' (k / 512) = block_id L di (k / 512)).
  { pose proof (g_old _ _ _ _ _ _ _ _ Hg (k / 512) ltac:(lia)) as E. unfold group in E.
    by apply app_inj_tail in E as [_ ?]. }
  unfold fbyte. rewrite Hb, (g_frame _ _ _ _ _ _ _ _ Hg); [done|]. rewrite app_nil_r, <- Hb.
  intros Hm%meta_not_data; [|apply Hok]. apply Hm. exists (k / 512). split; [lia|done].
Qed.

Lemma blocks_num_needed_spec di new_size :
  0 <= size di <= new_size -> new_size <= MAX_SIZE ->
  blocks_num_needed di new_size = Ok (count (_data_blocks new_size) - count (data_blocks di)).
Proof.
  intros Hsz Hm. unfold blocks_num_needed. rewrite (proj2 (Z.leb_le _ _)) by lia.
  cbn [rassert mbind res_bind]. unfold data_blocks.
  rewrite !total_blocks_spec, !data_blocks_spec by lia.
  set (a := (size di + 511) / 512). set (b := (new_size + 511) / 512).
  assert (0 <= a <= b /\ b <= 16540) as [Hab Hb] by (unfold MAX_SIZE in *; lia).
  pose proof (count_mono a b Hab). rewrite wrap_small; [done|]. split; [lia|].
  unfold count. destruct (28 <? a) eqn:E1, (28 <? b) eqn:E2, (156 <? a) eqn:E3, (156 <? b) eqn:E4;
    bool_to_Prop; lia.
Qed.

(** Growing a file with exactly [blocks_num_needed] fresh blocks works at every
    size up to the largest a doubly indirect inode can have: [increase_size] never
    runs out of blocks or out of an index, appends the new blocks to those the
    inode had in the order given, keeps every byte the file had, and changes no
    block but index blocks of this inode. *)
Theorem increase_size_appends_blocks L H di new_size nb needed :
  in_file L H di -> size di <= new_size <= MAX_SIZE -> (length H < 15)%nat ->
  blocks_num_needed di new_size = Ok needed -> Z.of_nat (length nb) = needed -> Forall is_u32 nb ->
  NoDup (all_ids L di (data_blocks di) ++ nb) ->
  (forall id, id ∈ nb -> is_Some (L !! id) /\ id ∉ H) ->
  wp (increase_size di new_size nb) L H (fun di' L' =>
    in_file L' H di' /\ size di' = new_size /\ type_ di' = type_ di /\
    all_ids L' di' (data_blocks di') = all_ids L di (data_blocks di) ++ nb /\
    (forall k, 0 <= k < size di -> fbyte L' di' k = fbyte L di k) /\
    (forall id, id ∉ meta_ids L' di' (data_blocks di') -> L' !! id = L !! id)).
Proof.
  intros [Hsz [Hv Hn Hnd Hp Hu] _] Hnew HH Hneed Hlen Hu32 Hnd' Hfresh.
  rewrite blocks_num_needed_spec in Hneed by lia. injection Hneed as Hneed.
  assert (Hsu : supply L H (all_ids L di (data_blocks di) ++ nb)).
  { split; [done|..]; intros id [Hid|Hid]%elem_of_app.
    - apply elem_of_dom. by apply Hp.
    - apply elem_of_dom. by apply Hfresh.
    - by apply Hu.
    - by apply Hfresh. }
  assert (Ht : _data_blocks new_size <= 16540).
  { rewrite data_blocks_spec by lia. unfold MAX_SIZE in Hnew. lia. }
  eapply wp_mono; [apply (increase_size_grown L H di new_size nb); [done|lia|lia|lia|done|done|done]|].
  intros di' L' _ _ (Hs' & Hty & Hg).
  destruct (grown_inode_ok L H di _ nb L' di' _ Hg Hsu Ht) as [Hok Hids].
  assert (Hdb : data_blocks di' = _data_blocks new_size) by (unfold data_blocks; by rewrite Hs').
  rewrite Hdb. split_and!; [|done|done|done| |].
  - split; [lia|by rewrite Hdb|lia].
  - intros k Hk. eapply grown_fbyte; [done|done|done|]. unfold data_blocks.
    rewrite data_blocks_spec by done. lia.
  - intros id Hid. apply (g_frame _ _ _ _ _ _ _ _ Hg). by rewrite app_nil_r.
Qed.

Lemma increase_size_appends_blocks_witness :
  wp (increase_size (DiskInode_initialize File) 600 [0; 1]) demo_blocks []
    (fun di' L' => all_ids L' di' (data_blocks di') = [0; 1]).
Proof.
  eapply wp_mono.
  - apply (increase_size_appends_blocks demo_blocks [] (DiskInode_initialize File) 600 [0; 1] 2).
    + split; [by vm_compute| |simpl; lia]. split; [|by vm_compute|constructor|..].
      * split; [done|]. by repeat constructor.
      * intros id Hid. by apply elem_of_nil in Hid.
      * intros id Hid. by apply elem_of_nil in Hid.
    + by vm_compute.
    + simpl. lia.
    + by vm_compute.
    + done.
    + by repeat constructor.
    + by repeat constructor; set_solver.
    + intros id Hid. split; [|apply not_elem_of_nil].
      assert (id = 0 \/ id = 1) as [-> | ->] by set_solver; by eexists.
  - intros di' L' _ _ (_ & _ & _ & E & _). exact E.
Defined.

(** [clear_size] gives back every block the inode owns, data and index blocks,
    each exactly once and in the order they were acquired; their number is
    [total_blocks(size)], which is what [Inode::clear] asserts.  The inode is left
    with size 0, and no block changes. *)
Theorem clear_size_returns_all_blocks L H di :
  in_file L H di -> (length H < 15)%nat ->
  wp (clear_size di) L H (fun r L' =>
    r.1 = all_ids L di (data_blocks di) /\ NoDup r.1 /\
    Z.of_nat (length r.1) = total_blocks (size di) /\
    size r.2 = 0 /\ type_ r.2 = type_ di /\ valid_inode r.2 /\ L' = L).
Proof.
  intros [Hsz Hok _] HH. eapply wp_mono; [by apply clear_size_spec|].
  intros r L' _ _ (-> & -> & Hv & Hs & Ht). split_and!; try done; [apply Hok|].
  rewrite total_blocks_spec by done. unfold data_blocks. rewrite data_blocks_spec by done.
  apply length_all_ids. lia.
Qed.

Lemma clear_size_returns_all_blocks_witness :
  wp (clear_size demo_inode) demo_blocks [] (fun r L' => r.1 = [0; 1] /\ size r.2 = 0).
Proof.
  eapply wp_mono.
  - apply (clear_size_returns_all_blocks demo_blocks [] demo_inode).
    + apply demo_in_file; by eexists.
    + simpl. lia.
  - intros r L' _ _ (-> & _ & _ & Hs & _). split; [by vm_compute|done].
Defined.
