(* ===== verification/Efs.v ===== *)
(** The file system's disk management: easy-fs/src/efs.rs.

    [EasyFileSystem] is immutable once made; what it manages is on disk: block 0 is
    the super block, then come the inode bitmap, the inode area, the data bitmap
    and the data area.  Formatting ([create]) and mounting ([open]) compute the
    same regions, and the allocators hand out blocks of the data area. *)

From S2P Require Import Prelude BlockCache BlockLogic Bitmap Layout.

#[local] Ltac Zify.zify_post_hook ::= Z.to_euclidean_division_equations.
#[local] Arguments enc_words : simpl never.
#[local] Arguments dec_words : simpl never.

Record EasyFileSystem := mkEfs {
  inode_bitmap : Bitmap;
  data_bitmap : Bitmap;
  inode_area_start_block : Z;
  data_area_start_block : Z;
}.

(** Returns the (disk_id, block_offset); [u32] addition. *)
Definition get_inode_block_disk_id (efs : EasyFileSystem) (inode_block_id : Z) : Z * Z :=
  let inode_size := size_of DiskInode_layout in
  let inode_per_block := BLOCK_SZ / inode_size in
  (wrap 32 (inode_area_start_block efs + inode_block_id / as_u32 inode_per_block),
   umul (inode_block_id mod inode_per_block) inode_size).

Definition get_data_block_disk_id (efs : EasyFileSystem) (data_block_id : Z) : Z :=
  wrap 32 (data_area_start_block efs + data_block_id).

Definition alloc_inode (efs : EasyFileSystem) : io Z :=
  o ← alloc (inode_bitmap efs);
  i ← io_res (unwrap o);
  mret (as_u32 i).

Definition alloc_data (efs : EasyFileSystem) : io Z :=
  o ← alloc (data_bitmap efs);
  i ← io_res (unwrap o);
  mret (wrap 32 (as_u32 i + data_area_start_block efs)).

(** [get_block_cache(id, dev).lock().modify(0, |b: &mut DataBlock| b.fill(0))] *)
Definition zero_block (disk_id : Z) : io unit :=
  modify DataBlock disk_id 0 (fun data_block => mret (tt, replicate (length data_block) 0)).

Definition dealloc_data (efs : EasyFileSystem) (disk_id : Z) : io unit :=
  zero_block disk_id;;
  io_assert (data_area_start_block efs <=? disk_id);;
  dealloc (data_bitmap efs) (wrap 32 (disk_id - data_area_start_block efs)).

Definition create (total_blocks inode_bitmap_blocks : Z) : io EasyFileSystem :=
  let inode_bitmap := Bitmap_new 1 inode_bitmap_blocks in
  let inode_num := max_allocatable_blocks inode_bitmap in
  let inode_area_blocks :=
    usub (uadd (umul inode_num (size_of DiskInode_layout)) BLOCK_SZ) 1 / BLOCK_SZ in
  let inode_total_blocks := uadd inode_bitmap_blocks inode_area_blocks in
  let data_total_blocks := usub (usub total_blocks 1) inode_total_blocks in
  let data_bitmap_blocks := uadd data_total_blocks (umul BLOCK_SZ 8) / uadd (umul BLOCK_SZ 8) 1 in
  let data_area_blocks := usub data_total_blocks data_bitmap_blocks in
  let data_bitmap := Bitmap_new (uadd 1 inode_total_blocks) data_bitmap_blocks in
  io_fold (seqZ 0 total_blocks) (fun _ i => zero_block i) tt;;
  modify SuperBlock_layout 0 0 (fun _ =>
    mret (tt, SuperBlock_initialize total_blocks inode_bitmap_blocks (as_u32 inode_area_blocks)
                (as_u32 data_bitmap_blocks) (as_u32 data_area_blocks)));;
  let efs := mkEfs inode_bitmap data_bitmap (wrap 32 (1 + inode_bitmap_blocks))
    (as_u32 (uadd (uadd 1 inode_total_blocks) data_bitmap_blocks)) in
  root ← alloc_inode efs;
  io_assert (root =? 0);;
  let '(root_inode_disk_id, root_inode_block_offset) := get_inode_block_disk_id efs 0 in
  modify DiskInode_layout root_inode_disk_id root_inode_block_offset (fun _ =>
    mret (tt, DiskInode_initialize Directory));;
  io_sync;;
  mret efs.

Definition open : io EasyFileSystem :=
  read SuperBlock_layout 0 0 (fun super_block =>
    io_assert (is_valid super_block);;
    let inode_total_blocks :=
      wrap 32 (Layout.inode_bitmap_blocks super_block + inode_area_blocks super_block) in
    mret (mkEfs (Bitmap_new 1 (Layout.inode_bitmap_blocks super_block))
            (Bitmap_new (wrap 32 (1 + inode_total_blocks)) (data_bitmap_blocks super_block))
            (wrap 32 (1 + Layout.inode_bitmap_blocks super_block))
            (wrap 32 (wrap 32 (1 + inode_total_blocks) + data_bitmap_blocks super_block)))).

(** * The regions of a disk of [total] blocks with [k] inode bitmap blocks *)

Definition data_bitmap_len (total k : Z) : Z := (total - 1 - k * 1025 + 4096) / 4097.

Definition formatted (total k : Z) : EasyFileSystem :=
  mkEfs (mkBitmap 1 k) (mkBitmap (1 + k * 1025) (data_bitmap_len total k)) (1 + k)
    (1 + k * 1025 + data_bitmap_len total k).

(** At least one data block. *)
Definition fits (total k : Z) : Prop := 0 < k /\ 1 + k * 1025 + 2 <= total < 2 ^ 32.

Definition present (total : Z) (L : gmap Z (list Z)) : Prop :=
  forall id, 0 <= id < total -> is_Some (L !! id).

(** * Lemmas *)

Lemma geometry total k :
  fits total k ->
  let e := formatted total k in
  0 < blocks (data_bitmap e) /\
  start_disk_id (data_bitmap e) + blocks (data_bitmap e) = data_area_start_block e /\
  data_area_start_block e < total /\
  total - data_area_start_block e <= blocks (data_bitmap e) * 4096.
Proof.
  unfold fits, formatted, data_bitmap_len. cbn. intros [Hk Ht]. lia.
Qed.

Lemma zero_block_spec id b L H :
  L !! id = Some b -> id ∉ H -> (length H < 16)%nat ->
  wp (zero_block id) L H (fun _ L' => L' = <[id := replicate 512 0]> L).
Proof.
  intros Hb Hni HH. unfold zero_block. apply wp_disk_ok. intros HL.
  destruct (HL _ _ Hb) as [Hl _].
  eapply (wp_modify DataBlock); [apply DataBlock_ok|exact Hb|done|done|done|done|]. intros _.
  cbn [DataBlock size_of decode encode]. change BLOCK_SZ with 512. rewrite bytes_at_all by done.
  apply wp_ret. rewrite Hl. split.
  - split; [by rewrite length_replicate|]. apply Forall_replicate. unfold is_u8. lia.
  - rewrite splice_all by (done || by rewrite length_replicate). done.
Qed.

Lemma zero_all_spec total L :
  present total L -> 0 <= total ->
  wp (io_fold (seqZ 0 total) (fun _ i => zero_block i) tt) L [] (fun _ L' =>
    (forall id, 0 <= id < total -> L' !! id = Some (replicate 512 0)) /\
    (forall id, ~ 0 <= id < total -> L' !! id = L !! id)).
Proof.
  intros Hp Ht.
  apply (wp_fold _ _ (fun l _ L' => exists i, 0 <= i <= total /\ l = seqZ i (total - i) /\
    (forall id, 0 <= id < i -> L' !! id = Some (replicate 512 0)) /\
    (forall id, ~ 0 <= id < i -> L' !! id = L !! id))).
  - exists 0. split_and!; [lia|lia|by rewrite Z.sub_0_r|lia|done].
  - intros x l s L' (i & Hi & Hl & Hz & Ho). destruct (decide (i = total)) as [->|].
    { rewrite Z.sub_diag in Hl. done. }
    rewrite seqZ_cons in Hl by lia. injection Hl as -> ->.
    destruct (Hp i ltac:(lia)) as [b Hb]. rewrite <- (Ho i) in Hb by lia.
    eapply wp_mono; [apply (zero_block_spec i b); [done|apply not_elem_of_nil|simpl; lia]|].
    intros _ L2 _ _ ->. exists (i + 1). split_and!; [lia|lia| | |].
    + f_equal; lia.
    + intros id Hid. destruct (decide (id = i)) as [->|]; [apply lookup_insert_eq|].
      rewrite lookup_insert_ne by done. apply Hz. lia.
    + intros id Hid. rewrite lookup_insert_ne by lia. apply Ho. lia.
  - intros _ L' (i & Hi & Hl & Hz & Ho). assert (i = total) as ->; [|done].
    apply (f_equal length) in Hl. rewrite length_seqZ in Hl. simpl in Hl. lia.
Qed.

(** A word array decoded from zeroes is zero. *)
Lemma dec_words_zero k n m : dec_words k n (replicate m 0) = replicate n 0.
Proof.
  assert (Hd : forall j, dec_word (replicate j 0) = 0).
  { unfold dec_word. intros j. induction j as [|j IH]; [done|]. simpl. by rewrite IH. }
  revert m. induction n as [|n IH]; intros m; [done|].
  change (dec_word (take k (replicate m 0)) :: dec_words k n (drop k (replicate m 0)) =
    0 :: replicate n 0). rewrite take_replicate, drop_replicate, Hd, IH. done.
Qed.

Lemma bits_of_zero i : 0 <= i < 4096 -> bits_of (replicate 512 0) i = false.
Proof.
  intros Hi. unfold bits_of. rewrite dec_words_zero, lookup_total_replicate_2 by lia. apply Z.bits_0.
Qed.

Lemma bit_zero L bm i :
  L !! (start_disk_id bm + i / 4096) = Some (replicate 512 0) -> bit L bm i = false.
Proof. intros E. unfold bit. rewrite E. apply bits_of_zero. lia. Qed.

Lemma bit_same L L' bm i :
  L' !! (start_disk_id bm + i / 4096) = L !! (start_disk_id bm + i / 4096) -> bit L' bm i = bit L bm i.
Proof. intros E. unfold bit. by rewrite E. Qed.

Lemma zero_valid_super :
  valid_super (decode SuperBlock_layout (bytes_at 0 (size_of SuperBlock_layout) (replicate 512 0))).
Proof.
  apply (lo_valid _ _ SuperBlock_ok); [apply bytes_at_bytes, Forall_replicate; unfold is_u8; lia|].
  apply length_bytes_at; [lia|simpl; lia|]. simpl. lia.
Qed.

(** The machine computation of the regions. *)
Lemma create_regions total k :
  fits total k ->
  max_allocatable_blocks (Bitmap_new 1 k) = k * 4096 /\
  usub (uadd (umul (k * 4096) (size_of DiskInode_layout)) BLOCK_SZ) 1 / BLOCK_SZ = k * 1024 /\
  uadd k (k * 1024) = k * 1025 /\
  usub (usub total 1) (k * 1025) = total - 1 - k * 1025 /\
  uadd (total - 1 - k * 1025) (umul BLOCK_SZ 8) / uadd (umul BLOCK_SZ 8) 1 = data_bitmap_len total k /\
  uadd 1 (k * 1025) = 1 + k * 1025 /\
  as_u32 (uadd (1 + k * 1025) (data_bitmap_len total k)) = 1 + k * 1025 + data_bitmap_len total k /\
  wrap 32 (1 + k) = 1 + k /\
  as_u32 (k * 1024) = k * 1024 /\ as_u32 (data_bitmap_len total k) = data_bitmap_len total k.
Proof.
  intros [Hk Ht]. unfold max_allocatable_blocks, BLOCK_SZ, as_u32, data_bitmap_len. cbn [blocks Bitmap_new].
  change BLOCK_BITS with 4096. change (size_of DiskInode_layout) with 128.
  change (umul 512 8) with 4096. change (uadd 4096 1) with 4097.
  set (d := (total - 1 - k * 1025 + 4096) / 4097).
  assert (0 < d /\ 1 + k * 1025 + d < total) by lia.
  rewrite (umul_small k), (umul_small (k * 4096)), (uadd_small (k * 4096 * 128)), usub_small by lia.
  rewrite (uadd_small k), (usub_small total), (usub_small (total - 1)), (uadd_small (total - 1 - k * 1025)) by lia.
  rewrite (uadd_small 1), (uadd_small (1 + k * 1025)), !wrap_small by lia.
  split_and!; lia.
Qed.

Lemma get_inode_block_disk_id_spec efs i :
  0 <= i < 2 ^ 32 -> 0 <= inode_area_start_block efs ->
  inode_area_start_block efs + i / 4 < 2 ^ 32 ->
  get_inode_block_disk_id efs i = (inode_area_start_block efs + i / 4, i mod 4 * 128).
Proof.
  intros Hi Ha Hb. unfold get_inode_block_disk_id. change (size_of DiskInode_layout) with 128.
  change (BLOCK_SZ / 128) with 4. change (as_u32 4) with 4.
  rewrite wrap_small, umul_small by lia. done.
Qed.

(** Allocation from a bitmap none of whose first [i] bits is free. *)
Lemma alloc_first bm L H i :
  usable bm L H -> 0 <= i < blocks bm * 4096 -> bit L bm i = false ->
  (forall j, 0 <= j < i -> bit L bm j = true) ->
  wp (alloc bm) L H (fun o L' => o = Some i /\
    (forall j, 0 <= j -> bit L' bm j = (j =? i) || bit L bm j) /\ same_outside bm L L').
Proof.
  intros Hus Hi Hf Ht. eapply wp_mono; [by apply alloc_spec|]. intros o L' _ _ [Hpost Hout].
  destruct o as [x|].
  - destruct Hpost as (Hx & Hxf & Hxt & Hb). assert (x = i) as ->; [|done].
    destruct (Z.lt_trichotomy x i) as [Hlt|[->|Hgt]]; [|done|].
    + rewrite Ht in Hxf by lia. done.
    + rewrite Hxt in Hf by lia. done.
  - destruct Hpost as [Hall _]. rewrite Hall in Hf by lia. done.
Qed.

Definition super_of (total k : Z) : SuperBlock :=
  SuperBlock_initialize total k (k * 1024) (data_bitmap_len total k)
    (as_u32 (usub (total - 1 - k * 1025) (data_bitmap_len total k))).

Lemma super_of_valid total k : fits total k -> valid_super (super_of total k).
Proof.
  intros Hf. pose proof (geometry total k Hf) as (? & ? & ? & ?). destruct Hf as [Hk Ht].
  unfold formatted in *. cbn [blocks data_bitmap start_disk_id data_area_start_block] in *.
  unfold valid_super, SuperBlock_words, super_of, SuperBlock_initialize.
  cbn [magic total_blocks_ Layout.inode_bitmap_blocks inode_area_blocks data_bitmap_blocks data_area_blocks].
  repeat apply Forall_cons_2; [done|unfold is_u32; lia..| |done].
  apply (wrap_range 32). lia.
Qed.

Lemma DiskInode_initialize_valid t : valid_inode (DiskInode_initialize t).
Proof. split; [done|]. unfold is_u32. by repeat constructor. Qed.

(** What formatting leaves on the disk. *)
Record fresh_fs (total k : Z) (L : gmap Z (list Z)) : Prop := {
  ff_super : holds SuperBlock_layout L 0 0 (super_of total k);
  ff_inodes : forall j, 0 <= j < k * 4096 -> bit L (inode_bitmap (formatted total k)) j = (j =? 0);
  ff_data : forall j, 0 <= j < data_bitmap_len total k * 4096 ->
    bit L (data_bitmap (formatted total k)) j = false;
  ff_root : holds DiskInode_layout L (1 + k) 0 (DiskInode_initialize Directory);
  ff_zero : forall id, data_area_start_block (formatted total k) <= id < total ->
    L !! id = Some (replicate 512 0);
}.

Lemma create_spec total k L :
  fits total k -> present total L ->
  wp (create total k) L [] (fun e L' => e = formatted total k /\ fresh_fs total k L' /\
    (forall id, ~ 0 <= id < total -> L' !! id = L !! id)).
Proof.
  intros Hf Hp. destruct (create_regions total k Hf) as (R1 & R2 & R3 & R4 & R5 & R6 & R7 & R8 & R9 & R10).
  pose proof (geometry total k Hf) as (G1 & G2 & G3 & G4). pose proof Hf as [Hk Ht].
  unfold create. rewrite R1, R2, R3, R4, R5, R6, R7, R8, R9, R10. fold (super_of total k).
  change (mkEfs (Bitmap_new 1 k) _ _ _) with (formatted total k). set (e := formatted total k) in *.
  set (d := data_bitmap_len total k) in *. change (blocks (data_bitmap e)) with d in *.
  change (start_disk_id (data_bitmap e)) with (1 + k * 1025) in G2.
  apply wp_bind. eapply wp_mono; [apply zero_all_spec; [done|lia]|]. intros _ L1 HL1 _ [Hz1 Ho1].
  apply wp_bind. eapply (wp_modify SuperBlock_layout valid_super);
    [apply SuperBlock_ok|apply (Hz1 0); lia|apply not_elem_of_nil|simpl; lia|done|done|].
  intros _. apply wp_ret. split; [by apply super_of_valid|].
  set (b0 := splice 0 _ _). set (L2 := <[0 := b0]> L1).
  assert (Hz2 : forall id, 0 < id < total -> L2 !! id = Some (replicate 512 0)).
  { intros id Hid. unfold L2. rewrite lookup_insert_ne by lia. apply Hz1. lia. }
  unfold alloc_inode. apply wp_bind, wp_bind.
  eapply wp_mono; [apply (alloc_first (inode_bitmap e) L2 [] 0)|].
  { split; [done|cbn; lia|cbn; lia| | |simpl; lia].
    - intros id Hid. unfold in_region in Hid. cbn in Hid. rewrite Hz2 by lia. by eexists.
    - intros id _. apply not_elem_of_nil. }
  { cbn. lia. }
  { apply bit_zero. apply Hz2. cbn. lia. }
  { lia. }
  intros o L3 HL3 Hd3 (-> & Hb3 & Hs3). apply wp_bind. eapply wp_res; [done|]. apply wp_ret.
  apply wp_bind, wp_assert; [done|].
  rewrite get_inode_block_disk_id_spec by (cbn; lia). cbn beta iota.
  assert (H3 : forall id, 1 + k <= id < total -> L3 !! id = Some (replicate 512 0)).
  { intros id Hid. rewrite Hs3 by (unfold in_region; cbn; lia). apply Hz2. lia. }
  apply wp_bind. eapply (wp_modify DiskInode_layout valid_inode);
    [apply DiskInode_ok|apply H3; cbn; lia|apply not_elem_of_nil|simpl; lia|done|done|].
  intros _. apply wp_ret. split; [apply DiskInode_initialize_valid|].
  apply wp_bind, wp_sync, wp_ret. split; [done|].
  replace (inode_area_start_block e + 0 / 4) with (1 + k) by (cbn; lia).
  change (0 mod 4 * 128) with 0. set (b1 := splice 0 (encode DiskInode_layout _) _). split; [split|].
  - exists b0. split.
    + rewrite lookup_insert_ne, Hs3 by (unfold in_region; cbn; lia). apply lookup_insert_eq.
    + apply (decode_splice _ _ _ _ _ SuperBlock_ok); [by apply super_of_valid|done|done].
  - intros j Hj. rewrite (bit_same L3) by (apply lookup_insert_ne; cbn; lia).
    rewrite Hb3 by lia. rewrite (bit_zero L2), orb_false_r; [done|]. apply Hz2. cbn. lia.
  - intros j Hj. rewrite (bit_same L3) by (apply lookup_insert_ne; cbn; lia).
    apply bit_zero. apply H3. cbn. lia.
  - exists b1. split; [apply lookup_insert_eq|].
    apply (decode_splice _ _ _ _ _ DiskInode_ok); [apply DiskInode_initialize_valid|done|done].
  - intros id Hid. fold e in Hid. rewrite lookup_insert_ne by lia. apply H3. lia.
  - intros id Hid. rewrite lookup_insert_ne, Hs3 by (unfold in_region; cbn; lia).
    unfold L2. rewrite lookup_insert_ne by lia. by apply Ho1.
Qed.

Lemma open_spec total k L H :
  fits total k -> holds SuperBlock_layout L 0 0 (super_of total k) -> 0 ∉ H -> (length H < 16)%nat ->
  wp open L H (fun e L' => e = formatted total k /\ L' = L).
Proof.
  intros Hf (b & Hb & Hd) Hni HH. unfold open.
  pose proof (geometry total k Hf) as (G1 & G2 & G3 & G4). pose proof Hf as [Hk Ht].
  change (start_disk_id (data_bitmap _)) with (1 + k * 1025) in G2.
  change (blocks (data_bitmap _)) with (data_bitmap_len total k) in G1, G2.
  eapply (wp_read SuperBlock_layout valid_super); [apply SuperBlock_ok|done|done|done|done|done|].
  rewrite Hd. intros _. apply wp_bind, wp_assert; [done|]. apply wp_ret. split; [|done].
  unfold super_of, SuperBlock_initialize.
  cbn [magic total_blocks_ Layout.inode_bitmap_blocks inode_area_blocks data_bitmap_blocks data_area_blocks].
  rewrite (wrap_small 32 (k + k * 1024)) by lia.
  rewrite (wrap_small 32 (1 + (k + k * 1024))) by lia. rewrite (wrap_small 32 (1 + k)) by lia.
  rewrite wrap_small by lia. unfold formatted, Bitmap_new. do 2 f_equal; lia.
Qed.

(** ** The data area *)

(** The data bitmap is usable, and its bits number blocks below [2^32]. *)
Record data_area_ok (e : EasyFileSystem) (L : gmap Z (list Z)) (H : list Z) : Prop := {
  da_usable : usable (data_bitmap e) L H;
  da_after : start_disk_id (data_bitmap e) + blocks (data_bitmap e) <= data_area_start_block e;
  da_bound : data_area_start_block e + blocks (data_bitmap e) * 4096 < 2 ^ 32;
}.

Lemma alloc_data_spec e L H i :
  data_area_ok e L H -> 0 <= i < blocks (data_bitmap e) * 4096 -> bit L (data_bitmap e) i = false ->
  (forall j, 0 <= j < i -> bit L (data_bitmap e) j = true) ->
  wp (alloc_data e) L H (fun id L' => id = data_area_start_block e + i /\
    (forall j, 0 <= j -> bit L' (data_bitmap e) j = (j =? i) || bit L (data_bitmap e) j) /\
    same_outside (data_bitmap e) L L').
Proof.
  intros [Hus Haf Hbd] Hi Hf Ht. pose proof (us_start _ _ _ Hus). unfold alloc_data. apply wp_bind.
  eapply wp_mono; [by apply (alloc_first _ L H i)|]. intros o L' _ _ (-> & Hb & Hs).
  apply wp_bind. eapply wp_res; [done|]. apply wp_ret. split_and!; [|done|done].
  unfold as_u32. rewrite (wrap_small 32 i), wrap_small by lia. lia.
Qed.

Lemma dealloc_data_spec e L H id :
  data_area_ok e L H ->
  data_area_start_block e <= id < data_area_start_block e + blocks (data_bitmap e) * 4096 ->
  bit L (data_bitmap e) (id - data_area_start_block e) = true -> is_Some (L !! id) -> id ∉ H ->
  wp (dealloc_data e id) L H (fun _ L' =>
    (forall j, 0 <= j < blocks (data_bitmap e) * 4096 -> bit L' (data_bitmap e) j =
       negb (j =? id - data_area_start_block e) && bit L (data_bitmap e) j) /\
    L' !! id = Some (replicate 512 0) /\
    (forall id', ~ in_region (data_bitmap e) id' -> id' <> id -> L' !! id' = L !! id')).
Proof.
  intros [Hus Haf Hbd] Hid Hbit [b Hb] Hni. pose proof Hus as [Hst Hbl Hbb Hp Hul Hlk].
  unfold dealloc_data. apply wp_bind. eapply wp_mono; [by apply (zero_block_spec id b)|].
  intros _ L1 _ Hd1 ->. apply wp_bind, wp_assert; [apply Z.leb_le; lia|].
  rewrite wrap_small by lia. set (i := id - data_area_start_block e) in *.
  assert (Hbs : forall j, 0 <= j < blocks (data_bitmap e) * 4096 ->
    bit (<[id := replicate 512 0]> L) (data_bitmap e) j = bit L (data_bitmap e) j).
  { intros j Hj. apply bit_same, lookup_insert_ne. lia. }
  eapply wp_mono; [apply (dealloc_spec (data_bitmap e) _ H i)|].
  - by apply (usable_dom _ L).
  - lia.
  - rewrite Hbs by lia. done.
  - intros _ L2 _ _ [Hb2 Hs2]. split_and!.
    + intros j Hj. rewrite Hb2 by lia. by rewrite Hbs.
    + rewrite Hs2; [apply lookup_insert_eq|]. unfold in_region. lia.
    + intros id' Hr Hne. rewrite Hs2 by done. by apply lookup_insert_ne.
Qed.

(** * The theorems *)

(** Formatting a disk and mounting it agree: [create] followed by [open]
    gives the same [EasyFileSystem], for every disk size and number of inode
    bitmap blocks that leave room for a data block.  On the disk, inode 0 is an
    empty directory and the only inode in use, and no data block is in use. *)
Theorem create_then_open total k L :
  fits total k -> present total L ->
  wp (e ← create total k; e' ← open; mret (e, e')) L [] (fun r L' =>
    r = (formatted total k, formatted total k) /\ fresh_fs total k L' /\
    (forall id, ~ 0 <= id < total -> L' !! id = L !! id)).
Proof.
  intros Hf Hp. apply wp_bind. eapply wp_mono; [by apply create_spec|].
  intros e L1 _ _ (-> & Hff & Ho). apply wp_bind.
  eapply wp_mono; [apply (open_spec total k); [done|apply Hff|apply not_elem_of_nil|simpl; lia]|].
  intros e' L2 _ _ [-> ->]. apply wp_ret. done.
Qed.

(** A disk of [n] zero blocks. *)
Definition blank (n : Z) : gmap Z (list Z) :=
  list_to_map ((fun i => (i, replicate 512 0)) <$> seqZ 0 n).

Lemma blank_present n : present n (blank n).
Proof.
  intros i Hi. unfold blank. exists (replicate 512 0). apply elem_of_list_to_map_1.
  - rewrite <- list_fmap_compose. rewrite (list_fmap_ext _ id) by done. rewrite list_fmap_id. apply NoDup_seqZ.
  - apply list_elem_of_fmap. exists i. split; [done|]. apply elem_of_seqZ. lia.
Qed.

Lemma create_then_open_witness :
  wp (e ← create 1028 1; e' ← open; mret (e, e')) (blank 1028) [] (fun r L' =>
    r = (formatted 1028 1, formatted 1028 1)).
Proof.
  eapply wp_mono.
  - apply (create_then_open 1028 1 (blank 1028)).
    + unfold fits. lia.
    + apply blank_present.
  - intros r L' _ _ [-> _]. done.
Defined.

(** The data bitmap has more bits than the data area has blocks, and nothing
    else bounds it: on a full data area [alloc_data] does not fail but returns
    the block number [total_blocks], one past the end of the disk. *)
Theorem alloc_data_past_the_disk total k L H :
  fits total k -> usable (data_bitmap (formatted total k)) L H ->
  let e := formatted total k in
  let area := total - data_area_start_block e in
  area < blocks (data_bitmap e) * 4096 ->
  data_area_start_block e + blocks (data_bitmap e) * 4096 < 2 ^ 32 ->
  (forall j, 0 <= j < area -> bit L (data_bitmap e) j = true) ->
  bit L (data_bitmap e) area = false ->
  wp (alloc_data e) L H (fun id _ => id = total).
Proof.
  intros Hf Hus e area Harea Hbd Hfull Hfree. pose proof (geometry total k Hf) as (G1 & G2 & G3 & G4).
  eapply wp_mono; [apply (alloc_data_spec e L H area)|].
  - split; [done|fold e in G2; lia|done].
  - fold e in G3. lia.
  - done.
  - done.
  - intros id L' _ _ [-> _]. lia.
Qed.

(** The smallest disk: its one data block is taken. *)
Definition full_disk : gmap Z (list Z) := {[ 1026 := 1 :: replicate 511 0 ]}.

Lemma alloc_data_past_the_disk_witness :
  wp (alloc_data (formatted 1028 1)) full_disk [] (fun id _ => id = 1028).
Proof.
  apply (alloc_data_past_the_disk 1028 1 full_disk []).
  - unfold fits. lia.
  - split; [by vm_compute|by vm_compute|by vm_compute| | |simpl; lia].
    + intros id Hid. change (1026 <= id < 1026 + 1) in Hid. assert (id = 1026) as -> by lia. by eexists.
    + intros id _. apply not_elem_of_nil.
  - by vm_compute.
  - by vm_compute.
  - intros j Hj. change (0 <= j < 1) in Hj. assert (j = 0) as -> by lia. by vm_compute.
  - by vm_compute.
Defined.
