(* ===== verification/Vfs.v ===== *)
(** Files and directories: easy-fs/src/vfs.rs, and [root_inode] of efs.rs.

    An [Inode] is the place of a [DiskInode] on disk.  Every operation takes the
    lock on the file system for its whole duration and never takes it twice, so
    operations are atomic; the block locks they nest are those of the [io]
    programs. *)

From S2P Require Import Prelude BlockCache BlockLogic Bitmap Layout InodeGrowth Efs.

#[local] Ltac Zify.zify_post_hook ::= Z.to_euclidean_division_equations.
#[local] Arguments enc_words : simpl never.
#[local] Arguments dec_words : simpl never.

Record Inode := mkVInode {
  disk_id : Z;
  block_offset : Z;
}.

Section Ops.
Context (fs : EasyFileSystem).

Definition Inode_new (d off : Z) : Inode := mkVInode d off.

Definition root_inode : Inode :=
  let '(d, off) := get_inode_block_disk_id fs 0 in Inode_new d off.

Definition read_disk_inode {V} (self : Inode) (f : DiskInode -> io V) : io V :=
  read DiskInode_layout (disk_id self) (block_offset self) f.

Definition modify_disk_inode {V} (self : Inode) (f : DiskInode -> io (V * DiskInode)) : io V :=
  modify DiskInode_layout (disk_id self) (block_offset self) f.

(** [read_at(i * DIRENTRY_SZ, dir_entry.as_bytes_mut())] with the assertion on its
    result. *)
Definition read_entry (disk_inode : DiskInode) (i : Z) (e : DirEntry) : io DirEntry :=
  '(n, bs) ← Layout.read_at disk_inode (umul i DIRENTRY_SZ) (as_bytes e);
  io_assert (n =? DIRENTRY_SZ);;
  mret (DirEntry_of_bytes bs).

Fixpoint find_loop (name : list Z) (disk_inode : DiskInode) (e : DirEntry) (l : list Z)
  : io (option Z) :=
  match l with
  | [] => mret None
  | i :: l' =>
      e' ← read_entry disk_inode i e;
      nm ← io_res (Layout.name e');
      if decide (nm = name) then mret (Some (inode_id e')) else find_loop name disk_inode e' l'
  end.

Definition find_inode_id (name : list Z) (disk_inode : DiskInode) : io (option Z) :=
  io_assert (is_dir disk_inode);;
  let file_count := size disk_inode / DIRENTRY_SZ in
  find_loop name disk_inode DirEntry_zero_init (seqZ 0 file_count).

Definition find (self : Inode) (name : list Z) : io (option Inode) :=
  read_disk_inode self (fun disk_inode =>
    o ← find_inode_id name disk_inode;
    mret (match o with
          | Some inode_id =>
              let '(d, off) := get_inode_block_disk_id fs inode_id in Some (Inode_new d off)
          | None => None
          end)).

Definition ls (self : Inode) : io (list (list Z)) :=
  read_disk_inode self (fun disk_inode =>
    io_assert (is_dir disk_inode);;
    let file_count := size disk_inode / DIRENTRY_SZ in
    io_fold (seqZ 0 file_count) (fun v i =>
      e ← read_entry disk_inode i DirEntry_zero_init;
      nm ← io_res (Layout.name e);
      mret (vec_push v nm)) []).

Definition increase_size (new_size : Z) (disk_inode : DiskInode) : io DiskInode :=
  if new_size <? size disk_inode then mret disk_inode
  else
    blocks_needed ← io_res (blocks_num_needed disk_inode new_size);
    v ← io_fold (seqZ 0 blocks_needed) (fun v _ => id ← alloc_data fs; mret (vec_push v id)) [];
    Layout.increase_size disk_inode new_size v.

Definition create (self : Inode) (name : list Z) : io (option Inode) :=
  found ← modify_disk_inode self (fun disk_inode =>
    io_assert (is_dir disk_inode);;
    o ← find_inode_id name disk_inode;
    mret (o, disk_inode));
  match found with
  | Some _ => mret None
  | None =>
      new_inode_id ← alloc_inode fs;
      let '(new_inode_disk_id, new_inode_block_offset) := get_inode_block_disk_id fs new_inode_id in
      modify DiskInode_layout new_inode_disk_id new_inode_block_offset (fun _ =>
        mret (tt, DiskInode_initialize File));;
      modify_disk_inode self (fun disk_inode =>
        let file_count := size disk_inode / DIRENTRY_SZ in
        let new_size := umul (uadd file_count 1) DIRENTRY_SZ in
        disk_inode' ← increase_size (as_u32 new_size) disk_inode;
        dir_entry ← io_res (DirEntry_new name new_inode_id);
        Layout.write_at disk_inode' (umul file_count DIRENTRY_SZ) (as_bytes dir_entry);;
        mret (tt, disk_inode'));;
      io_sync;;
      mret (Some (Inode_new new_inode_disk_id new_inode_block_offset))
  end.

Definition clear (self : Inode) : io unit :=
  modify_disk_inode self (fun disk_inode =>
    let sz := size disk_inode in
    '(dealloc_data_blocks, disk_inode') ← clear_size disk_inode;
    io_assert (Z.of_nat (length dealloc_data_blocks) =? total_blocks sz);;
    io_fold dealloc_data_blocks (fun _ data_block => dealloc_data fs data_block) tt;;
    mret (tt, disk_inode'));;
  io_sync.

Definition read_at (self : Inode) (offset : Z) (buf : list Z) : io (Z * list Z) :=
  read_disk_inode self (fun disk_inode => Layout.read_at disk_inode offset buf).

Definition write_at (self : Inode) (offset : Z) (buf : list Z) : io Z :=
  sz ← modify_disk_inode self (fun disk_inode =>
    disk_inode' ← increase_size (as_u32 (uadd offset (Z.of_nat (length buf)))) disk_inode;
    n ← Layout.write_at disk_inode' offset buf;
    mret (n, disk_inode'));
  io_sync;;
  mret sz.
End Ops.

(** * Free blocks *)

Definition free_list (L : gmap Z (list Z)) (bm : Bitmap) (area : Z) : list Z :=
  filter (fun j => bit L bm j = false) (seqZ 0 area).

Lemma free_list_head L bm area i fl :
  free_list L bm area = i :: fl ->
  0 <= i < area /\ bit L bm i = false /\ (forall j, 0 <= j < i -> bit L bm j = true).
Proof.
  intros E. assert (Hi : i ∈ free_list L bm area) by (rewrite E; by left).
  unfold free_list in *. apply list_elem_of_filter in Hi as [Hf Hi%elem_of_seqZ].
  split_and!; [lia|lia|done|]. intros j Hj.
  replace area with (i + (area - i)) in E by lia. rewrite seqZ_app, filter_app in E by lia.
  destruct (filter _ (seqZ 0 i)) as [|y l] eqn:El.
  - destruct (bit L bm j) eqn:Ej; [done|]. exfalso.
    assert (j ∈ filter (fun j => bit L bm j = false) (seqZ 0 i)) as Hin.
    { apply list_elem_of_filter. split; [done|]. apply elem_of_seqZ. lia. }
    rewrite El in Hin. by apply elem_of_nil in Hin.
  - injection E as -> _. exfalso.
    assert (i ∈ filter (fun j => bit L bm j = false) (seqZ 0 i)) as Hin by (rewrite El; by left).
    apply list_elem_of_filter in Hin as [_ Hin%elem_of_seqZ]. lia.
Qed.

Lemma filter_ext_in (P1 P2 : Z -> Prop) `{!forall x, Decision (P1 x), !forall x, Decision (P2 x)} (l : list Z) :
  (forall x, x ∈ l -> P1 x <-> P2 x) -> filter P1 l = filter P2 l.
Proof.
  intros Hiff. induction l as [|a l IH]; [done|].
  rewrite !filter_cons, IH by (intros; apply Hiff; by right).
  specialize (Hiff a ltac:(by left)).
  repeat case_decide; naive_solver.
Qed.

(** Taking the first free block leaves the others free. *)
Lemma free_list_set L L' bm area i fl :
  free_list L bm area = i :: fl ->
  (forall j, 0 <= j < area -> bit L' bm j = (j =? i) || bit L bm j) ->
  free_list L' bm area = fl.
Proof.
  intros E Hb. assert (Hnd : NoDup (i :: fl)).
  { rewrite <- E. apply NoDup_filter, NoDup_seqZ. }
  apply NoDup_cons in Hnd as [Hni _].
  assert (free_list L' bm area = filter (fun j => j <> i) (free_list L bm area)) as ->.
  { unfold free_list. rewrite list_filter_filter. apply filter_ext_in.
    intros j Hj%elem_of_seqZ. rewrite Hb, orb_false_iff, Z.eqb_neq by lia. done. }
  rewrite E, filter_cons, decide_False by naive_solver. by apply filter_ne_not_in.
Qed.

Lemma free_list_same L L' bm area :
  (forall j, 0 <= j < area -> bit L' bm j = bit L bm j) -> free_list L' bm area = free_list L bm area.
Proof. intros Hb. apply filter_ext_in. intros j Hj%elem_of_seqZ. rewrite Hb by lia. done. Qed.

(** Releasing blocks makes the list longer. *)
Lemma free_list_mono L L' bm area :
  (forall j, 0 <= j < area -> bit L' bm j = true -> bit L bm j = true) ->
  (length (free_list L bm area) <= length (free_list L' bm area))%nat.
Proof.
  intros Hb. unfold free_list. assert (Hin : forall j, j ∈ seqZ 0 area -> bit L' bm j = true -> bit L bm j = true).
  { intros j Hj%elem_of_seqZ. apply Hb. lia. }
  revert Hin. induction (seqZ 0 area) as [|j l IH]; intros Hin; [done|]. rewrite !filter_cons.
  specialize (IH (fun i Hi => Hin i (list_elem_of_further _ _ _ Hi))).
  pose proof (Hin j (list_elem_of_here _ _)) as Hj. repeat case_decide; simpl in *; try lia.
  destruct (bit L' bm j) eqn:E; [|done]. rewrite Hj in *; done.
Qed.

Section Alloc.
Context (e : EasyFileSystem) (area : Z).
Context (Harea : 0 <= area <= blocks (data_bitmap e) * 4096).

Let bm := data_bitmap e.
Let base := data_area_start_block e.

(** The blocks handed out are the first free ones. *)
Lemma alloc_many L H (n : nat) :
  data_area_ok e L H -> (n <= length (free_list L bm area))%nat ->
  wp (io_fold (seqZ 0 (Z.of_nat n)) (fun v _ => id ← alloc_data e; mret (vec_push v id)) []) L H
    (fun v L' => v = (fun i => base + i) <$> take n (free_list L bm area) /\
       free_list L' bm area = drop n (free_list L bm area) /\
       (forall j, 0 <= j -> bit L' bm j = true <-> (bit L bm j = true \/ j ∈ take n (free_list L bm area))) /\
       same_outside bm L L').
Proof.
  intros Hda Hn. set (fl := free_list L bm area) in *.
  apply (wp_fold _ _ (fun l v L' => exists k, (k <= n)%nat /\ l = seqZ (Z.of_nat k) (Z.of_nat (n - k)) /\
    data_area_ok e L' H /\ v = (fun i => base + i) <$> take k fl /\
    free_list L' bm area = drop k fl /\
    (forall j, 0 <= j -> bit L' bm j = true <-> (bit L bm j = true \/ j ∈ take k fl)) /\
    same_outside bm L L')).
  - exists 0%nat. rewrite Nat.sub_0_r. split_and!; try done; [lia|]. intros j _. simpl. set_solver.
  - intros x l v L' (k & Hk & Hl & Hda' & -> & Hfl & Hb & Hs).
    assert (k < n)%nat.
    { apply (f_equal length) in Hl. rewrite length_seqZ in Hl. simpl in Hl. lia. }
    rewrite seqZ_cons in Hl by lia. injection Hl as -> ->.
    destruct (lookup_lt_is_Some_2 fl k) as [i Hi]; [lia|].
    rewrite (drop_S fl i k Hi) in Hfl. pose proof (free_list_head _ _ _ _ _ Hfl) as (Hir & Hif & Hit).
    apply wp_bind, wp_disk_ok. intros HL. eapply wp_mono;
      [apply (alloc_data_spec e L' H i); [done|lia|done|done]|].
    intros id L2 _ Hd2 (-> & Hb2 & Hs2). fold bm in Hb2, Hs2. apply wp_ret. exists (S k).
    assert (Htk : take (S k) fl = take k fl ++ [i]) by (by apply take_S_r).
    split_and!; [lia| | | | | |].
    + f_equal; lia.
    + destruct Hda' as [Hus Ha Hbd]. split; [|done|done]. by apply (usable_dom _ L').
    + rewrite Htk, fmap_app. done.
    + eapply free_list_set; [exact Hfl|]. intros j Hj. apply Hb2. lia.
    + intros j Hj. rewrite Hb2 by done. rewrite orb_true_iff, Z.eqb_eq, Hb, Htk by done.
      rewrite elem_of_app, list_elem_of_singleton. naive_solver.
    + intros id Hid. rewrite Hs2 by done. by apply Hs.
  - intros v L' (k & Hk & Hl & _ & -> & Hfl & Hb & Hs).
    assert (k = n) as ->; [|by fold fl].
    apply (f_equal length) in Hl. rewrite length_seqZ in Hl. simpl in Hl. lia.
Qed.
End Alloc.

(** * A file on disk *)

(** The inode is before the data bitmap; its blocks are in the data area and taken
    in the bitmap; every block of the data area exists. *)
Record file_ok (e : EasyFileSystem) (area : Z) (L : gmap Z (list Z)) (self : Inode) (di : DiskInode)
  : Prop := {
  fo_holds : holds DiskInode_layout L (disk_id self) (block_offset self) di;
  fo_offset : 0 <= block_offset self /\ block_offset self + 128 <= 512;
  fo_before : disk_id self < start_disk_id (data_bitmap e);
  fo_data : data_area_ok e L [disk_id self];
  fo_area : 0 <= area <= blocks (data_bitmap e) * 4096;
  fo_present : forall i, 0 <= i < area -> is_Some (L !! (data_area_start_block e + i));
  fo_inode : in_file L [disk_id self] di;
  fo_taken : forall id, id ∈ all_ids L di (data_blocks di) ->
    0 <= id - data_area_start_block e < area /\
    bit L (data_bitmap e) (id - data_area_start_block e) = true;
}.

Lemma holds_valid L self di e area : disk_ok L -> file_ok e area L self di -> valid_inode di.
Proof. intros _ Hf. apply (fo_inode _ _ _ _ _ Hf). Qed.

(** Blocks of the data area are not bitmap blocks. *)
Lemma data_not_bitmap e L H id :
  data_area_ok e L H -> data_area_start_block e <= id -> ~ in_region (data_bitmap e) id.
Proof. intros [_ Ha _] Hid. unfold in_region. lia. Qed.

(** Allocating blocks does not disturb the file. *)
Lemma file_frame e area L L1 self di :
  file_ok e area L self di -> dom L1 = dom L -> same_outside (data_bitmap e) L L1 ->
  in_file L1 [disk_id self] di /\
  all_ids L1 di (data_blocks di) = all_ids L di (data_blocks di) /\
  data_area_ok e L1 [disk_id self] /\
  (forall k, 0 <= k < 512 * data_blocks di -> fbyte L1 di k = fbyte L di k).
Proof.
  intros Hf Hd Hs. pose proof Hf as [Hh Ho Hbef Hda Har Hpr [Hsz Hok Hl] Htk].
  assert (Hmine : forall id, id ∈ all_ids L di (data_blocks di) -> L1 !! id = L !! id).
  { intros id Hid. apply Hs, (data_not_bitmap e L [disk_id self]); [done|].
    apply Htk in Hid as [? _]. lia. }
  assert (Hmeta : forall id, id ∈ meta_ids L di (data_blocks di) -> L1 !! id = L !! id).
  { intros id (i & Hi & Hid)%elem_of_meta_ids. apply Hmine. eapply group_in_all_ids; [exact Hi|].
    unfold group. apply elem_of_app. by left. }
  destruct (inode_ok_frame L L1 _ di _ Hok Hd Hmeta) as [Hok1 Hids]. split_and!.
  - by split.
  - done.
  - destruct Hda as [Hus Ha Hb]. split; [|done|done]. by apply (usable_dom _ L).
  - intros k Hk. unfold fbyte. rewrite (block_id_frame L L1 di (data_blocks di)) by (done || lia).
    rewrite Hmine; [done|]. apply block_id_in. lia.
Qed.

(** The first free blocks can be given to the file. *)
Lemma fresh_supply e area L L1 self di (n : nat) :
  file_ok e area L self di -> dom L1 = dom L ->
  all_ids L1 di (data_blocks di) = all_ids L di (data_blocks di) ->
  let fl := take n (free_list L (data_bitmap e) area) in
  let nb := (fun i => data_area_start_block e + i) <$> fl in
  supply L1 [disk_id self] (all_ids L1 di (data_blocks di) ++ nb) /\ Forall is_u32 nb /\
  (forall id, id ∈ nb -> 0 <= id - data_area_start_block e < area /\
     bit L (data_bitmap e) (id - data_area_start_block e) = false /\
     id - data_area_start_block e ∈ fl).
Proof.
  intros Hf Hd Hids fl nb. pose proof Hf as [Hh Ho Hbef Hda Har Hpr [Hsz Hok Hl] Htk].
  pose proof Hda as [Hus Ha Hb]. pose proof (us_start _ _ _ Hus) as Hst.
  pose proof (us_blocks _ _ _ Hus) as Hbl.
  assert (Hnb : forall id, id ∈ nb -> 0 <= id - data_area_start_block e < area /\
     bit L (data_bitmap e) (id - data_area_start_block e) = false /\
     id - data_area_start_block e ∈ fl).
  { intros id (i & -> & Hi)%list_elem_of_fmap.
    replace (data_area_start_block e + i - data_area_start_block e) with i by lia.
    pose proof Hi as (k & Hk & _)%elem_of_take. apply list_elem_of_lookup_2 in Hk.
    apply list_elem_of_filter in Hk as [? Hk%elem_of_seqZ]. split_and!; [lia|lia|done|done]. }
  rewrite Hids. split_and!; [split| |done].
  - apply NoDup_app. split_and!; [apply Hok| |].
    + intros id Hid1 Hid2. apply Htk in Hid1 as [_ H1]. apply Hnb in Hid2 as (_ & H2 & _). congruence.
    + apply NoDup_fmap_2; [intros x y ?; lia|]. eapply sublist_NoDup; [|apply sublist_take].
      apply NoDup_filter, NoDup_seqZ.
  - intros id [Hid|Hid]%elem_of_app; rewrite Hd; apply elem_of_dom.
    + by apply (io_present _ _ _ _ Hok).
    + apply Hnb in Hid as (Hr & _). replace id with (data_area_start_block e + (id - data_area_start_block e)) by lia.
      by apply Hpr.
  - intros id Hid ->%list_elem_of_singleton.
    apply elem_of_app in Hid as [Hid|Hid]; [apply Htk in Hid as [? _]|apply Hnb in Hid as (? & _)]; lia.
  - apply Forall_forall. intros id Hid%Hnb. unfold is_u32. lia.
Qed.

(** What growing a file on disk does: [L] and [di] before, [L'] and [di'] after. *)
Record file_grown (e : EasyFileSystem) (area : Z) (self : Inode) (L : gmap Z (list Z)) (di : DiskInode)
  (L' : gmap Z (list Z)) (di' : DiskInode) : Prop := {
  fg_inode : in_file L' [disk_id self] di';
  fg_data : data_area_ok e L' [disk_id self];
  fg_taken : forall id, id ∈ all_ids L' di' (data_blocks di') ->
    0 <= id - data_area_start_block e < area /\
    bit L' (data_bitmap e) (id - data_area_start_block e) = true;
  fg_origin : forall id, id ∈ all_ids L' di' (data_blocks di') ->
    id ∈ all_ids L di (data_blocks di) \/
    bit L (data_bitmap e) (id - data_area_start_block e) = false;
  fg_bytes : forall k, 0 <= k < size di -> fbyte L' di' k = fbyte L di k;
  fg_frame : forall id, ~ in_region (data_bitmap e) id ->
    id ∉ all_ids L' di' (data_blocks di') -> L' !! id = L !! id;
  fg_bits : forall j, 0 <= j < area -> bit L (data_bitmap e) j = true -> bit L' (data_bitmap e) j = true;
  fg_free : free_list L' (data_bitmap e) area =
    drop (Z.to_nat (count (data_blocks di') - count (data_blocks di))) (free_list L (data_bitmap e) area);
}.

Lemma vfs_increase_size_spec e area L self di new_size :
  file_ok e area L self di -> size di <= new_size <= MAX_SIZE ->
  count (_data_blocks new_size) - count (data_blocks di) <=
    Z.of_nat (length (free_list L (data_bitmap e) area)) ->
  wp (increase_size e new_size di) L [disk_id self] (fun di' L' =>
    size di' = new_size /\ type_ di' = type_ di /\ file_grown e area self L di L' di').
Proof.
  intros Hf Hnew Hfree. pose proof Hf as [Hh Ho Hbef Hda Har Hpr Hif Htk].
  set (n := data_blocks di) in *. set (t := _data_blocks new_size) in *.
  pose proof (if_size _ _ _ Hif) as Hsz. unfold increase_size.
  rewrite (proj2 (Z.ltb_ge _ _)) by lia. apply wp_bind.
  eapply wp_res; [apply blocks_num_needed_spec; lia|]. fold n t.
  assert (Hnt : 0 <= n <= t /\ t <= 16540).
  { unfold n, t, data_blocks. rewrite !data_blocks_spec by lia. unfold MAX_SIZE in *. lia. }
  pose proof (count_mono n t ltac:(lia)) as Hmono. set (need := count t - count n) in *.
  rewrite <- (Z2Nat.id need) at 1 by lia. apply wp_bind.
  eapply wp_mono; [apply (alloc_many e area Har L _ (Z.to_nat need) Hda); lia|].
  intros v L1 HL1 Hd1 (-> & Hfl & Hb & Hs).
  destruct (file_frame e area L L1 self di Hf Hd1 Hs) as (Hif1 & Hids1 & Hda1 & Hfb1).
  destruct (fresh_supply e area L L1 self di (Z.to_nat need) Hf Hd1 Hids1) as (Hsu & Hu & Hnb).
  cbv zeta in Hsu, Hu, Hnb. fold n in Hids1, Hsu. set (nb := _ <$> _) in *.
  assert (Hlen : Z.of_nat (length nb) = need).
  { unfold nb. rewrite length_fmap, length_take. lia. }
  eapply wp_mono; [apply (increase_size_grown L1 [disk_id self] di new_size nb);
    [apply Hif|lia|lia|done|done|done|simpl; lia]|].
  fold n t. intros di' L' _ _ (Hs' & Hty & Hg). split_and!; [done|done|].
  assert (Hdb : data_blocks di' = t) by (unfold data_blocks; by rewrite Hs').
  destruct (grown_inode_ok L1 _ di n nb L' di' t Hg Hsu ltac:(lia)) as [Hok' Hids'].
  assert (Hfr : forall id, id ∉ all_ids L' di' t -> L' !! id = L1 !! id).
  { intros id Hid. apply (g_frame _ _ _ _ _ _ _ _ Hg). rewrite app_nil_r.
    intros (i & Hi & Hm)%elem_of_meta_ids. apply Hid. eapply group_in_all_ids; [exact Hi|].
    unfold group. apply elem_of_app. by left. }
  assert (Horig : forall id, id ∈ all_ids L' di' t -> id ∈ all_ids L di n \/ id ∈ nb).
  { intros id Hid. rewrite Hids', Hids1 in Hid. by apply elem_of_app. }
  assert (Harea' : forall id, id ∈ all_ids L' di' t -> 0 <= id - data_area_start_block e < area).
  { intros id [Hid|Hid]%Horig; [by apply Htk|by apply Hnb]. }
  assert (Hbits : forall j, 0 <= j < area -> bit L' (data_bitmap e) j = bit L1 (data_bitmap e) j).
  { intros j Hj. apply bit_same, Hfr. intros Hin%Harea'. pose proof (da_after _ _ _ Hda). lia. }
  split; rewrite ?Hdb.
  - split; [lia|by rewrite Hdb|simpl; lia].
  - destruct Hda1 as [Hus Ha Hbd]. split; [|done|done].
    apply (usable_dom _ L1); [done|]. apply Hg.
  - intros id Hid. split; [by apply Harea'|].
    rewrite Hbits by (by apply Harea').
    apply Hb; [pose proof (Harea' id Hid); lia|]. apply Horig in Hid as [Hid|Hid]; [left|right].
    + by apply Htk.
    + by apply Hnb.
  - intros id [Hid|Hid]%Horig; [by left|]. right. by apply Hnb.
  - intros k Hk. rewrite (grown_fbyte L1 [disk_id self] di n nb L' di' t);
      [|done|done|lia|unfold n, data_blocks; rewrite data_blocks_spec by done; lia].
    apply Hfb1. unfold data_blocks. rewrite data_blocks_spec by done. lia.
  - intros id Hr Hid. rewrite Hfr by done. by apply Hs.
  - intros j Hj Hbit. rewrite Hbits by done. apply Hb; [lia|]. by left.
  - rewrite (free_list_same L1) by done. exact Hfl.
Qed.

Lemma file_grown_refl e area L self di : file_ok e area L self di -> file_grown e area self L di L di.
Proof.
  intros [Hh Ho Hbef Hda Har Hpr Hif Htk]. split; try done.
  - intros id Hid. by left.
  - by rewrite Z.sub_diag.
Qed.

(** [Inode::increase_size] does nothing when the file is larger already. *)
Lemma vfs_grow_spec e area L self di new_size :
  file_ok e area L self di -> new_size <= MAX_SIZE ->
  count (_data_blocks (Z.max (size di) new_size)) - count (data_blocks di) <=
    Z.of_nat (length (free_list L (data_bitmap e) area)) ->
  wp (increase_size e new_size di) L [disk_id self] (fun di' L' =>
    size di' = Z.max (size di) new_size /\ type_ di' = type_ di /\ file_grown e area self L di L' di').
Proof.
  intros Hf Hmax Hfree. destruct (decide (new_size < size di)).
  - unfold increase_size. rewrite (proj2 (Z.ltb_lt _ _)) by done. apply wp_ret.
    split_and!; [lia|done|by apply file_grown_refl].
  - eapply wp_mono; [apply (vfs_increase_size_spec e area L self di new_size); [done|lia|]|].
    + by rewrite Z.max_r in Hfree by lia.
    + intros di' L1 _ _ (Hs & Ht & Hg). split_and!; [lia|done|done].
Qed.

(** Storing the inode back in its block. *)
Lemma store_inode_ids L2 self di' b n :
  in_file L2 [disk_id self] di' -> n = data_blocks di' ->
  let L3 := <[disk_id self := b]> L2 in
  (forall id, id ∈ all_ids L2 di' n -> L3 !! id = L2 !! id) /\
  all_ids L3 di' n = all_ids L2 di' n /\
  (forall k, 0 <= k < 512 * n -> fbyte L3 di' k = fbyte L2 di' k).
Proof.
  intros [_ Hok _] -> L3.
  assert (Hsame : forall id, id ∈ all_ids L2 di' (data_blocks di') -> L3 !! id = L2 !! id).
  { intros id Hid. apply lookup_insert_ne. intros <-. apply (io_unlocked _ _ _ _ Hok _ Hid). by left. }
  assert (Hmeta : forall id, id ∈ meta_ids L2 di' (data_blocks di') -> L3 !! id = L2 !! id).
  { intros id (i & Hi & Hid)%elem_of_meta_ids. apply Hsame. eapply group_in_all_ids; [exact Hi|].
    unfold group. apply elem_of_app. by left. }
  split_and!; [done| |].
  - apply all_ids_ext. intros i Hi. by apply (group_frame L2 L3 di' (data_blocks di')).
  - intros k Hk. unfold fbyte. rewrite (block_id_frame L2 L3 di' (data_blocks di')) by (done || lia).
    rewrite Hsame; [done|]. apply block_id_in. lia.
Qed.

(** Two inodes at different places, with no block in common. *)
Definition disjoint_files (L : gmap Z (list Z)) (f1 : Inode) (d1 : DiskInode) (f2 : Inode) (d2 : DiskInode) : Prop :=
  (disk_id f1 <> disk_id f2 \/ block_offset f1 + 128 <= block_offset f2 \/
   block_offset f2 + 128 <= block_offset f1) /\
  (forall id, id ∈ all_ids L d1 (data_blocks d1) -> id ∉ all_ids L d2 (data_blocks d2)).

(** The other file is where it was and has the bytes it had. *)
Definition untouched (L L' : gmap Z (list Z)) (f : Inode) (d : DiskInode) : Prop :=
  holds DiskInode_layout L' (disk_id f) (block_offset f) d /\
  (forall id, id ∈ all_ids L d (data_blocks d) -> L' !! id = L !! id) /\
  (forall k, 0 <= k < 512 * data_blocks d -> fbyte L' d k = fbyte L d k) /\
  all_ids L' d (data_blocks d) = all_ids L d (data_blocks d).

Lemma other_untouched e area L L2 L3 self di di' f2 d2 b b3 :
  file_ok e area L self di -> file_ok e area L f2 d2 -> disjoint_files L self di f2 d2 ->
  (forall id, ~ in_region (data_bitmap e) id -> id <> disk_id self ->
     id ∉ all_ids L di (data_blocks di) ->
     (0 <= id - data_area_start_block e < area ->
        bit L (data_bitmap e) (id - data_area_start_block e) = true) -> L2 !! id = L !! id) ->
  L !! disk_id self = Some b -> length b = 512%nat ->
  valid_inode di' -> b3 = splice (block_offset self) (encode DiskInode_layout di') b ->
  L3 = <[disk_id self := b3]> L2 ->
  untouched L L3 f2 d2.
Proof.
  intros Hf1 Hf2 [Hplace Hdis] Hfr Hb Hbl Hv -> ->.
  pose proof Hf1 as [_ Ho1 Hbef1 Hda1 Har1 _ _ _].
  pose proof Hf2 as [(b2 & Hb2 & Hd2) Ho2 Hbef2 _ _ _ [Hsz2 Hok2 _] Htk2].
  pose proof (da_after _ _ _ Hda1) as Haf. pose proof (us_blocks _ _ _ (da_usable _ _ _ Hda1)) as Hbk.
  set (L3 := <[_ := _]> L2).
  assert (Hmine : forall id, id ∈ all_ids L d2 (data_blocks d2) -> L3 !! id = L !! id).
  { intros id Hid. pose proof (Htk2 id Hid) as [Hr Hbit].
    unfold L3. rewrite lookup_insert_ne by lia. apply Hfr; [unfold in_region; lia|lia| |done].
    intros Hin. by apply (Hdis id). }
  assert (Hmeta : forall id, id ∈ meta_ids L d2 (data_blocks d2) -> L3 !! id = L !! id).
  { intros id (i & Hi & Hid)%elem_of_meta_ids. apply Hmine. eapply group_in_all_ids; [exact Hi|].
    unfold group. apply elem_of_app. by left. }
  split_and!.
  - unfold L3. destruct (decide (disk_id f2 = disk_id self)) as [E|E].
    + exists (splice (block_offset self) (encode DiskInode_layout di') b).
      rewrite E, lookup_insert_eq. split; [done|]. rewrite E, Hb in Hb2. injection Hb2 as <-.
      pose proof (lo_len _ _ DiskInode_ok di' Hv) as Hle. change (size_of DiskInode_layout) with 128 in *.
      rewrite bytes_at_splice_ne by lia. done.
    + exists b2. rewrite lookup_insert_ne by done. split; [|done]. rewrite <- Hb2. apply Hfr.
      * unfold in_region. lia.
      * done.
      * intros Hin. apply (fo_taken _ _ _ _ _ Hf1) in Hin as [? _]. lia.
      * lia.
  - done.
  - intros k Hk. unfold fbyte. rewrite (block_id_frame L L3 d2 (data_blocks d2)) by (done || lia).
    rewrite Hmine; [done|]. apply block_id_in. lia.
  - apply all_ids_ext. intros i Hi. by apply (group_frame L L3 d2 (data_blocks d2)).
Qed.

(** A file that was left alone is still a file, if its blocks are still taken. *)
Lemma untouched_file_ok e area L L' f d :
  file_ok e area L f d -> untouched L L' f d -> dom L' = dom L ->
  (forall id, id ∈ all_ids L d (data_blocks d) -> bit L' (data_bitmap e) (id - data_area_start_block e) = true) ->
  file_ok e area L' f d.
Proof.
  intros [Hh Ho Hbef Hda Har Hpr [Hsz Hok Hl] Htk] (Hh' & Hsame & _ & Hids) Hd Hb. split; try done.
  - destruct Hda as [Hus Ha Hbd]. split; [|done|done]. by apply (usable_dom _ L).
  - intros i Hi. apply elem_of_dom. rewrite Hd. apply elem_of_dom. by apply Hpr.
  - split; [done| |done]. apply (inode_ok_frame L L'); [done|done|].
    intros id (i & Hi & Hid)%elem_of_meta_ids. apply Hsame. eapply group_in_all_ids; [exact Hi|].
    unfold group. apply elem_of_app. by left.
  - rewrite Hids. intros id Hid. split; [by apply Htk|by apply Hb].
Qed.

Record written_file (e : EasyFileSystem) (area : Z) (self : Inode) (off : Z) (buf : list Z)
  (L : gmap Z (list Z)) (di : DiskInode) (L' : gmap Z (list Z)) (di' : DiskInode) : Prop := {
  wf_file : file_ok e area L' self di';
  wf_size : size di' = Z.max (size di) (off + Z.of_nat (length buf));
  wf_type : type_ di' = type_ di;
  wf_new : forall k, off <= k < off + Z.of_nat (length buf) -> fbyte L' di' k = buf !!! Z.to_nat (k - off);
  wf_old : forall k, 0 <= k < size di -> ~ off <= k < off + Z.of_nat (length buf) ->
    fbyte L' di' k = fbyte L di k;
  wf_others : forall f2 d2, file_ok e area L f2 d2 -> disjoint_files L self di f2 d2 ->
    untouched L L' f2 d2 /\ file_ok e area L' f2 d2 /\ disjoint_files L' self di' f2 d2;
  wf_free : Z.of_nat (length (free_list L' (data_bitmap e) area)) =
    Z.of_nat (length (free_list L (data_bitmap e) area)) - (count (data_blocks di') - count (data_blocks di));
  wf_inodes : forall id, id < start_disk_id (data_bitmap e) -> id <> disk_id self -> L' !! id = L !! id;
}.

(** Writing into a file that was grown, and storing the inode. *)
Lemma write_store_spec e area L self di L1 di' off buf b :
  file_ok e area L self di -> file_grown e area self L di L1 di' ->
  size di' = Z.max (size di) (off + Z.of_nat (length buf)) -> type_ di' = type_ di -> dom L1 = dom L ->
  count (data_blocks di') - count (data_blocks di) <= Z.of_nat (length (free_list L (data_bitmap e) area)) ->
  L !! disk_id self = Some b -> length b = 512%nat -> bytes_ok buf -> buf <> [] -> 0 <= off ->
  wp (Layout.write_at di' off buf) L1 [disk_id self] (fun n L2 => n = Z.of_nat (length buf) /\
    written_file e area self off buf L di
      (<[disk_id self := splice (block_offset self) (encode DiskInode_layout di') b]> L2) di').
Proof.
  intros Hf [Hif1 Hda1 Htk1 Horg Hby1 Hfr1 Hbits1 Hfree1] Hs Hty Hd1 Hcnt Hb Hbl Hby Hne Hoff.
  pose proof Hf as [_ Ho Hbef Hda Har Hpr Hif Htk]. set (len := Z.of_nat (length buf)) in *.
  pose proof (if_size _ _ _ Hif) as Hsz.
  eapply wp_mono; [apply (write_at_spec L1 [disk_id self] di' off buf); [done|done|done|done|lia]|].
  intros n L2 HL2 Hd2 [-> Hw]. split; [done|].
  pose proof (written_in_file L1 L2 _ di' _ _ _ Hif1 Hd2 Hw) as Hif2.
  set (b3 := splice _ _ _). set (L3 := <[disk_id self := b3]> L2).
  destruct (store_inode_ids L2 self di' b3 (data_blocks di') Hif2 eq_refl) as (Hs3 & Hids3 & Hfb3).
  fold L3 in Hs3, Hids3, Hfb3.
  assert (Hids2 : all_ids L2 di' (data_blocks di') = all_ids L1 di' (data_blocks di')).
  { apply (inode_ok_frame L1 L2 [disk_id self]); [apply Hif1|done|].
    eapply written_meta; [apply Hif1|done]. }
  assert (Hsz' : size di' <= 512 * data_blocks di').
  { unfold data_blocks. rewrite data_blocks_spec by (apply Hif1). lia. }
  assert (Hd3 : dom L3 = dom L).
  { unfold L3. rewrite dom_insert_lookup_L, Hd2, Hd1; [done|]. apply elem_of_dom. rewrite Hd2, Hd1.
    by eapply elem_of_dom_2. }
  assert (Hbm : forall id, id < data_area_start_block e -> id <> disk_id self -> L3 !! id = L1 !! id).
  { intros id Hid Hne'. unfold L3. rewrite lookup_insert_ne by done.
    apply (wr_frame _ _ _ _ _ _ _ Hw). intros (i & Hi & E).
    pose proof (Htk1 id) as Ht. rewrite <- E in Ht. destruct Ht as [? _]; [by apply block_id_in|]. lia. }
  pose proof (da_after _ _ _ Hda) as Haf. pose proof (us_blocks _ _ _ (da_usable _ _ _ Hda)) as Hbk.
  assert (Hbit3 : forall j, 0 <= j < area -> bit L3 (data_bitmap e) j = bit L1 (data_bitmap e) j).
  { intros j Hj. apply bit_same, Hbm; lia. }
  split.
  - split; try done.
    + exists b3. split; [apply lookup_insert_eq|].
      apply (decode_splice _ _ _ _ _ DiskInode_ok); [apply Hif1|lia|]. change (size_of DiskInode_layout) with 128. lia.
    + destruct Hda as [Hus Ha' Hbd]. split; [|done|done]. by apply (usable_dom _ L).
    + intros i Hi. apply elem_of_dom. rewrite Hd3. apply elem_of_dom. by apply Hpr.
    + destruct Hif2 as [? Hok2 ?]. split; [done| |done].
      apply (inode_ok_frame L2 L3); [done|by rewrite Hd3, Hd2, Hd1|].
      intros id (i & Hi & Hid)%elem_of_meta_ids. apply Hs3. eapply group_in_all_ids; [exact Hi|].
      unfold group. apply elem_of_app. by left.
    + intros id Hid. rewrite Hids3, Hids2 in Hid. destruct (Htk1 id Hid) as [Hr Hbit]. split; [done|].
      by rewrite Hbit3.
  - done.
  - done.
  - intros k Hk. rewrite Hfb3, (wr_bytes _ _ _ _ _ _ _ Hw), decide_True by lia. done.
  - intros k Hk Hnk. rewrite Hfb3, (wr_bytes _ _ _ _ _ _ _ Hw), decide_False by lia. by apply Hby1.
  - intros f2 d2 Hf2 Hdis. assert (Hun : untouched L L3 f2 d2).
    { eapply (other_untouched e area L L2 L3 self di di' f2 d2 b b3);
        [done|done|done| |done|done|apply Hif1|done|done].
      intros id Hr Hne' Hni Hfree'.
      assert (Hni1 : id ∉ all_ids L1 di' (data_blocks di')).
      { intros Hin. destruct (Htk1 id Hin) as [Hrng _]. destruct (Horg id Hin) as [Hin'|Hbit]; [done|].
        rewrite Hfree' in Hbit by done. done. }
      rewrite (wr_frame _ _ _ _ _ _ _ Hw); [by apply Hfr1|].
      intros (i & Hi & E). apply Hni1. rewrite <- E. by apply block_id_in. }
    split_and!; [done| |].
    + apply (untouched_file_ok e area L); [done|done|done|]. intros id Hid.
      destruct (fo_taken _ _ _ _ _ Hf2 id Hid) as [Hj Hbit]. rewrite Hbit3 by done. by apply Hbits1.
    + split; [apply Hdis|]. destruct Hun as (_ & _ & _ & ->). rewrite Hids3, Hids2. intros id Hin1 Hin2.
      destruct (Horg id Hin1) as [Hin|Hbit]; [by apply (proj2 Hdis id)|].
      apply (fo_taken _ _ _ _ _ Hf2) in Hin2 as [_ Hbit2]. congruence.
  - rewrite (free_list_same L1 L3) by done. rewrite Hfree1, length_drop.
    pose proof (count_mono (data_blocks di) (data_blocks di')) as Hm. revert Hm Hcnt. unfold data_blocks.
    rewrite !data_blocks_spec by (apply Hif1 || done). lia.
  - intros id Hid Hne'. rewrite Hbm by (done || lia). apply Hfr1; [unfold in_region; lia|].
    intros Hin. apply Htk1 in Hin as [? _]. lia.
Qed.

Lemma vfs_write_spec e area L self di off buf :
  file_ok e area L self di -> bytes_ok buf -> buf <> [] -> 0 <= off ->
  off + Z.of_nat (length buf) <= MAX_SIZE ->
  count (_data_blocks (Z.max (size di) (off + Z.of_nat (length buf)))) - count (data_blocks di) <=
    Z.of_nat (length (free_list L (data_bitmap e) area)) ->
  wp (write_at e self off buf) L [] (fun n L' => n = Z.of_nat (length buf) /\
    exists di', written_file e area self off buf L di L' di').
Proof.
  intros Hf Hby Hne Hoff Hmax Hfree.
  pose proof Hf as [(b & Hb & Hdec) Ho Hbef Hda Har Hpr Hif Htk]. set (len := Z.of_nat (length buf)) in *.
  pose proof (if_size _ _ _ Hif) as Hsz. pose proof Hmax as Hmax'. unfold MAX_SIZE in Hmax'.
  unfold write_at. rewrite uadd_small by lia. apply wp_bind, wp_disk_ok. intros HL.
  destruct (HL _ _ Hb) as [Hbl Hbb].
  eapply (wp_modify DiskInode_layout valid_inode);
    [apply DiskInode_ok|done|apply not_elem_of_nil|simpl; lia|lia|change (size_of DiskInode_layout) with 128; lia|].
  rewrite Hdec. intros _. unfold as_u32. rewrite wrap_small by lia. apply wp_bind.
  eapply wp_mono; [by apply (vfs_grow_spec e area L self di (off + len))|].
  intros di' L1 _ Hd1 (Hs & Hty & Hg). fold len. apply wp_bind.
  eapply wp_mono; [apply (write_store_spec e area L self di L1 di' off buf b); try done|].
  { unfold data_blocks in *. by rewrite Hs. }
  intros n L2 _ _ [-> Hw]. apply wp_ret. split; [apply Hg|].
  apply wp_bind, wp_sync, wp_ret. split; [done|]. by exists di'.
Qed.

(** * Clearing *)

Lemma dealloc_many e area L H ids :
  data_area_ok e L H -> 0 <= area <= blocks (data_bitmap e) * 4096 -> NoDup ids ->
  (forall id, id ∈ ids -> 0 <= id - data_area_start_block e < area /\
     bit L (data_bitmap e) (id - data_area_start_block e) = true /\ is_Some (L !! id) /\ id ∉ H) ->
  wp (io_fold ids (fun _ id => dealloc_data e id) tt) L H (fun _ L' =>
    (forall j, 0 <= j < blocks (data_bitmap e) * 4096 -> bit L' (data_bitmap e) j = true <->
       bit L (data_bitmap e) j = true /\ data_area_start_block e + j ∉ ids) /\
    (forall id, id ∈ ids -> L' !! id = Some (replicate 512 0)) /\
    (forall id, ~ in_region (data_bitmap e) id -> id ∉ ids -> L' !! id = L !! id)).
Proof.
  intros Hda Har. revert L Hda. induction ids as [|id ids IH]; intros L Hda Hnd Hids; cbn [io_fold].
  { apply wp_ret. split_and!; [|by intros ? ?%elem_of_nil|done]. intros j Hj.
    split; [intros ?; split; [done|apply not_elem_of_nil]|by intros [? _]]. }
  apply NoDup_cons in Hnd as [Hni Hnd]. destruct (Hids id ltac:(by left)) as (Hr & Hbit & Hp & Hul).
  pose proof Hda as [Hus Haf Hbd]. pose proof (us_blocks _ _ _ Hus) as Hbk.
  apply wp_bind. eapply wp_mono; [apply (dealloc_data_spec e L H id); [done|lia|done|done|done]|].
  intros [] L1 _ Hd1 (Hb1 & Hz1 & Hs1).
  eapply wp_mono; [apply IH|].
  - split; [|done|done]. by apply (usable_dom _ L).
  - done.
  - intros id' Hid'. destruct (Hids id' ltac:(by right)) as (Hr' & Hbit' & Hp' & Hul').
    split_and!; [lia|lia| | |done].
    + rewrite Hb1 by lia. rewrite Hbit', andb_true_r. apply negb_true_iff, Z.eqb_neq. intros E.
      apply Hni. by replace id with id' by lia.
    + apply elem_of_dom. rewrite Hd1. by apply elem_of_dom.
  - intros _ L2 _ _ (Hb2 & Hz2 & Hs2). split_and!.
    + intros j Hj. rewrite Hb2, Hb1 by lia. rewrite andb_true_iff, negb_true_iff, Z.eqb_neq, not_elem_of_cons.
      split; [intros [[? ?] ?]; split_and!; [done|lia|done]|].
      intros (? & ? & ?). split_and!; [lia|done|done].
    + intros id' [->|Hid']%elem_of_cons; [|by apply Hz2].
      destruct (decide (id ∈ ids)); [by apply Hz2|]. rewrite Hs2; [done| |done]. unfold in_region. lia.
    + intros id' Hreg [Hne Hni']%not_elem_of_cons. rewrite Hs2 by done. by apply Hs1.
Qed.

Record cleared_file (e : EasyFileSystem) (area : Z) (self : Inode)
  (L : gmap Z (list Z)) (di : DiskInode) (L' : gmap Z (list Z)) (di' : DiskInode) : Prop := {
  cf_file : file_ok e area L' self di';
  cf_size : size di' = 0;
  cf_type : type_ di' = type_ di;
  cf_bits : forall j, 0 <= j < blocks (data_bitmap e) * 4096 -> bit L' (data_bitmap e) j = true <->
    bit L (data_bitmap e) j = true /\ data_area_start_block e + j ∉ all_ids L di (data_blocks di);
  cf_zero : forall id, id ∈ all_ids L di (data_blocks di) -> L' !! id = Some (replicate 512 0);
  cf_others : forall f2 d2, file_ok e area L f2 d2 -> disjoint_files L self di f2 d2 ->
    untouched L L' f2 d2 /\ file_ok e area L' f2 d2;
  cf_dom : dom L' = dom L;
  cf_frame : forall id, ~ in_region (data_bitmap e) id -> id <> disk_id self ->
    id ∉ all_ids L di (data_blocks di) -> L' !! id = L !! id;
  cf_slots : forall b b', L !! disk_id self = Some b -> L' !! disk_id self = Some b' ->
    length b' = length b /\
    forall i : nat, ~ (block_offset self <= Z.of_nat i < block_offset self + 128) -> b' !! i = b !! i;
}.

Lemma vfs_clear_spec e area L self di :
  file_ok e area L self di ->
  wp (clear e self) L [] (fun _ L' => exists di', cleared_file e area self L di L' di').
Proof.
  intros Hf. pose proof Hf as [(b & Hb & Hdec) Ho Hbef Hda Har Hpr Hif Htk].
  pose proof Hif as [Hsz Hok _]. unfold clear. apply wp_bind, wp_disk_ok. intros HL.
  destruct (HL _ _ Hb) as [Hbl Hbb].
  eapply (wp_modify DiskInode_layout valid_inode);
    [apply DiskInode_ok|done|apply not_elem_of_nil|simpl; lia|lia|change (size_of DiskInode_layout) with 128; lia|].
  rewrite Hdec. intros _. apply wp_bind.
  eapply wp_mono; [apply (clear_size_spec L [disk_id self] di Hok); simpl; lia|].
  intros [v di'] L0 _ _ (Hv & -> & Hval & Hs' & Hty). simpl in Hv, Hval, Hs', Hty. subst v.
  assert (Hn : 0 <= data_blocks di) by apply Hok.
  apply wp_bind, wp_assert.
  { apply Z.eqb_eq. rewrite length_all_ids by done. rewrite total_blocks_spec by done.
    unfold data_blocks. by rewrite data_blocks_spec. }
  apply wp_bind. eapply wp_mono; [apply (dealloc_many e area L _ _ Hda Har); [apply Hok|]|].
  { intros id Hid. destruct (Htk id Hid). split_and!; [lia|lia|done|by apply Hok|by apply Hok]. }
  intros _ L2 _ Hd2 (Hbits & Hz & Hfr). apply wp_ret. split; [done|].
  apply wp_sync. exists di'. set (b3 := splice _ _ _). set (L3 := <[disk_id self := b3]> L2).
  assert (Hd3 : dom L3 = dom L).
  { unfold L3. rewrite dom_insert_lookup_L; [done|]. apply elem_of_dom. rewrite Hd2. by eapply elem_of_dom_2. }
  assert (Hdb' : data_blocks di' = 0) by (unfold data_blocks; by rewrite Hs').
  pose proof (da_after _ _ _ Hda) as Haf. pose proof (us_blocks _ _ _ (da_usable _ _ _ Hda)) as Hbk.
  pose proof (us_start _ _ _ (da_usable _ _ _ Hda)) as Hst.
  split.
  - split; try done.
    + exists b3. split; [apply lookup_insert_eq|].
      apply (decode_splice _ _ _ _ _ DiskInode_ok); [done|lia|]. change (size_of DiskInode_layout) with 128. lia.
    + destruct Hda as [Hus Ha' Hbd]. split; [|done|done]. by apply (usable_dom _ L).
    + intros i Hi. apply elem_of_dom. rewrite Hd3. apply elem_of_dom. by apply Hpr.
    + split; [rewrite Hs'; unfold MAX_SIZE; lia| |simpl; lia]. rewrite Hdb'.
      split; [done|lia|constructor|..]; by intros ? ?%elem_of_nil.
    + rewrite Hdb'. by intros ? ?%elem_of_nil.
  - done.
  - done.
  - intros j Hj. rewrite <- Hbits by done. rewrite (bit_same L2); [done|].
    apply lookup_insert_ne. lia.
  - intros id Hid. unfold L3. rewrite lookup_insert_ne; [by apply Hz|].
    pose proof (Htk id Hid) as [? _]. lia.
  - intros f2 d2 Hf2 Hdis. assert (Hun : untouched L L3 f2 d2).
    { eapply (other_untouched e area L L2 L3 self di di' f2 d2 b b3);
        [done|done|done| |done|done|done|done|done]. intros id Hr Hne' Hni _. by apply Hfr. }
    split; [done|]. apply (untouched_file_ok e area L); [done|done|done|]. intros id Hid.
    destruct (fo_taken _ _ _ _ _ Hf2 id Hid) as [Hj Hbit]. rewrite (bit_same L2) by (apply lookup_insert_ne; lia).
    apply Hbits; [lia|]. split; [done|]. replace (data_area_start_block e + (id - data_area_start_block e)) with id by lia.
    intros Hin. by apply (proj2 Hdis id).
  - exact Hd3.
  - intros id Hr Hne Hni. unfold L3. rewrite lookup_insert_ne by done. by apply Hfr.
  - intros b0 b' Hb0 Hb'. unfold L3 in Hb'. rewrite lookup_insert_eq in Hb'. assert (b' = b3) as -> by congruence.
    assert (b0 = b) as -> by congruence. pose proof (lo_len _ _ DiskInode_ok di' Hval) as El. change (Z.to_nat (size_of DiskInode_layout)) with 128%nat in El.
    split; [apply length_splice; lia|]. intros i Hi. unfold b3. rewrite lookup_splice by lia. by rewrite decide_False by lia.
Qed.

(** * Directories *)

(** The [i]-th entry of a directory, and the directory as names and inode ids. *)
Definition entry (L : gmap Z (list Z)) (di : DiskInode) (i : Z) : DirEntry :=
  DirEntry_of_bytes (fbytes L di (32 * i) 32).

Definition entry_name (e : DirEntry) : list Z :=
  match Layout.name e with Ok nm => nm | Panic _ => [] end.

Definition dir (L : gmap Z (list Z)) (di : DiskInode) : list (list Z * Z) :=
  (fun i => (entry_name (entry L di i), inode_id (entry L di i))) <$> seqZ 0 (size di / 32).

(** Every entry has a readable name. *)
Definition dir_ok (L : gmap Z (list Z)) (di : DiskInode) : Prop :=
  type_ di = Directory /\
  forall i, 0 <= i < size di / 32 -> exists nm, Layout.name (entry L di i) = Ok nm.

(** The inode id of the first entry with a name. *)
Fixpoint assoc (nm : list Z) (l : list (list Z * Z)) : option Z :=
  match l with
  | [] => None
  | (nm', id) :: l' => if decide (nm' = nm) then Some id else assoc nm l'
  end.

Lemma length_as_bytes e : length (name_ e) = 28%nat -> length (as_bytes e) = 32%nat.
Proof. intros H. unfold as_bytes. by rewrite length_app, length_enc_word, H. Qed.

Lemma read_entry_spec L H di i e :
  in_file L H di -> 0 <= i < size di / 32 -> length (name_ e) = 28%nat ->
  wp (read_entry di i e) L H (fun e' L' => e' = entry L di i /\ L' = L).
Proof.
  intros Hif Hi He. pose proof (if_size _ _ _ Hif) as Hsz. unfold MAX_SIZE in Hsz.
  unfold read_entry, DIRENTRY_SZ. rewrite umul_small by lia.
  pose proof (length_as_bytes e He) as Hl. apply wp_bind.
  eapply wp_mono; [apply (read_at_spec L H di (i * 32) (as_bytes e)); [done|lia|lia]|].
  intros r L' _ _ [-> ->]. rewrite Hl. replace (Z.max 0 (Z.min (Z.of_nat 32) (size di - i * 32))) with 32 by lia.
  apply wp_bind, wp_assert; [done|]. apply wp_ret. split; [|done].
  rewrite drop_ge, app_nil_r by (rewrite Hl; lia). unfold entry. do 2 f_equal. lia.
Qed.

Lemma length_entry_name L di i : length (name_ (entry L di i)) = 28%nat.
Proof. unfold entry, DirEntry_of_bytes. cbn [name_]. rewrite length_take, length_fbytes. lia. Qed.

Lemma find_loop_spec L H di nm k e :
  in_file L H di -> dir_ok L di -> 0 <= k <= size di / 32 -> length (name_ e) = 28%nat ->
  wp (find_loop nm di e (seqZ k (size di / 32 - k))) L H (fun o L' =>
    o = assoc nm ((fun i => (entry_name (entry L di i), inode_id (entry L di i))) <$>
                    seqZ k (size di / 32 - k)) /\ L' = L).
Proof.
  intros Hif [_ Hdir]. remember (Z.to_nat (size di / 32 - k)) as m eqn:Em.
  revert k e Em. induction m as [|m IH]; intros k e Em Hk He.
  - replace (size di / 32 - k) with 0 by lia. apply wp_ret. done.
  - rewrite seqZ_cons by lia. cbn [find_loop fmap list_fmap assoc].
    destruct (Hdir k ltac:(lia)) as [nm' Hnm]. apply wp_bind.
    eapply wp_mono; [apply read_entry_spec; [done|lia|done]|]. intros e' L' _ _ [-> ->].
    apply wp_bind. eapply wp_res; [exact Hnm|].
    assert (entry_name (entry L di k) = nm') as -> by (unfold entry_name; by rewrite Hnm).
    destruct (decide (nm' = nm)); [by apply wp_ret|].
    replace (Z.pred (size di / 32 - k)) with (size di / 32 - Z.succ k) by lia.
    apply IH; [lia|lia|apply length_entry_name].
Qed.

Lemma find_inode_id_spec L H di nm :
  in_file L H di -> dir_ok L di ->
  wp (find_inode_id nm di) L H (fun o L' => o = assoc nm (dir L di) /\ L' = L).
Proof.
  intros Hif Hd. pose proof (if_size _ _ _ Hif) as Hsz. unfold find_inode_id.
  apply wp_bind, wp_assert; [apply bool_decide_eq_true_2, Hd|]. unfold DIRENTRY_SZ, dir.
  rewrite <- (Z.sub_0_r (size di / 32)). apply find_loop_spec; [done|done|lia|done].
Qed.

Lemma ls_loop_spec L H di :
  in_file L H di -> dir_ok L di ->
  wp (io_fold (seqZ 0 (size di / 32)) (fun v i =>
        e ← read_entry di i DirEntry_zero_init; nm ← io_res (Layout.name e); mret (vec_push v nm)) [])
    L H (fun v L' => v = (dir L di).*1 /\ L' = L).
Proof.
  intros Hif [_ Hdir]. pose proof (if_size _ _ _ Hif) as Hsz. set (c := size di / 32) in *.
  apply (wp_fold _ _ (fun l v L' => L' = L /\ exists k, 0 <= k <= c /\ l = seqZ k (c - k) /\
    v = (fun i => entry_name (entry L di i)) <$> seqZ 0 k)).
  - split; [done|]. exists 0. rewrite Z.sub_0_r. split_and!; [lia|lia|done|done].
  - intros i l v L' [-> (k & Hk & Hl & ->)]. destruct (decide (k = c)) as [->|].
    { rewrite Z.sub_diag in Hl. done. }
    rewrite seqZ_cons in Hl by lia. injection Hl as -> ->. apply wp_bind.
    eapply wp_mono; [apply read_entry_spec; [done|lia|done]|]. intros e' L' _ _ [-> ->].
    destruct (Hdir k ltac:(lia)) as [nm Hnm]. apply wp_bind. eapply wp_res; [exact Hnm|]. apply wp_ret.
    split; [done|]. exists (k + 1). split_and!; [lia|lia|f_equal; lia|].
    rewrite seqZ_app, fmap_app by lia. unfold vec_push. f_equal. simpl. rewrite !Z.add_0_l. unfold entry_name.
    by rewrite Hnm.
  - intros v L' [-> (k & Hk & Hl & ->)]. split; [|done].
    assert (k = c) as -> by (apply (f_equal length) in Hl; rewrite length_seqZ in Hl; simpl in Hl; lia).
    unfold dir. by rewrite <- list_fmap_compose.
Qed.

(** Reading the inode of a file under its lock. *)
Lemma read_disk_inode_spec {V} e area L self di (f : DiskInode -> io V) (Q : V -> gmap Z (list Z) -> Prop) :
  file_ok e area L self di -> wp (f di) L [disk_id self] Q -> wp (read_disk_inode self f) L [] Q.
Proof.
  intros [(b & Hb & Hdec) Ho _ _ _ _ _ _] Hf. unfold read_disk_inode.
  eapply (wp_read DiskInode_layout valid_inode);
    [apply DiskInode_ok|done|apply not_elem_of_nil|simpl; lia|lia
    |change (size_of DiskInode_layout) with 128; lia|]. by rewrite Hdec.
Qed.

Lemma find_spec e area L self di nm :
  file_ok e area L self di -> dir_ok L di ->
  wp (find e self nm) L [] (fun o L' => o = match assoc nm (dir L di) with
      | Some id => let '(d, off) := get_inode_block_disk_id e id in Some (Inode_new d off)
      | None => None
      end /\ L' = L).
Proof.
  intros Hf Hdir. eapply read_disk_inode_spec; [done|]. apply wp_bind.
  eapply wp_mono; [apply (find_inode_id_spec L [disk_id self] di nm); [apply Hf|done]|].
  intros o L1 _ _ [-> ->]. by apply wp_ret.
Qed.

Lemma ls_spec e area L self di :
  file_ok e area L self di -> dir_ok L di ->
  wp (ls self) L [] (fun v L' => v = (dir L di).*1 /\ L' = L).
Proof.
  intros Hf Hdir. eapply read_disk_inode_spec; [done|].
  apply wp_bind, wp_assert; [apply bool_decide_eq_true_2, Hdir|].
  apply (ls_loop_spec L [disk_id self] di); [apply Hf|done].
Qed.

Lemma vfs_read_spec e area L self di off buf :
  file_ok e area L self di -> 0 <= off -> off + Z.of_nat (length buf) < 2 ^ 64 ->
  let n := Z.max 0 (Z.min (Z.of_nat (length buf)) (size di - off)) in
  wp (read_at self off buf) L [] (fun r L' => r = (n, fbytes L di off n ++ drop (Z.to_nat n) buf) /\ L' = L).
Proof.
  intros Hf Hoff Hlen n. eapply read_disk_inode_spec; [done|].
  apply (read_at_spec L [disk_id self] di off buf); [apply Hf|done|done].
Qed.

(** * The theorems *)

(** The blank disk as an image file. *)
Lemma lookup_blank n i :
  blank n !! i = if decide (0 <= i < n) then Some (replicate 512 0) else None.
Proof.
  case_decide as Hi.
  - destruct (blank_present n i Hi) as [b Hb]. rewrite Hb. f_equal. unfold blank in Hb.
    apply elem_of_list_to_map_2, list_elem_of_fmap in Hb as (? & E & _). by simplify_eq.
  - unfold blank. apply not_elem_of_list_to_map_1. rewrite <- list_fmap_compose.
    intros (j & -> & Hj%elem_of_seqZ)%list_elem_of_fmap. simpl in Hi. lia.
Qed.

Lemma blank_disk_ok n : disk_ok (blank n).
Proof.
  intros i b Hb. rewrite lookup_blank in Hb. case_decide; [|done].
  assert (b = replicate 512 0) as -> by congruence.
  split; [apply length_replicate|]. apply Forall_replicate. unfold is_u8. lia.
Qed.

Lemma blank_image n : 0 <= n < 2 ^ 55 -> BlockFile.image n (replicate (Z.to_nat (512 * n)) 0) (blank n).
Proof.
  intros Hn. split_and!; [lia|lia|rewrite length_replicate; lia| |].
  - intros i Hi. rewrite lookup_blank, decide_True by done. f_equal. unfold bytes_at.
    rewrite drop_replicate, take_replicate. f_equal. lia.
  - intros i Hi. by rewrite lookup_blank, decide_False.
Qed.

Lemma blank_rep n : 0 <= n < 2 ^ 55 ->
  rep (HD := BlockFile_laws n) (BlockCacheManager_new (replicate (Z.to_nat (512 * n)) 0)) (blank n) [].
Proof.
  intros Hn. apply new_rep; [by apply blank_image|]. intros i b Hb. by eapply blank_disk_ok.
Qed.

(** A disk of four blocks: an inode block, a data bitmap and two data blocks. *)
Definition tiny_fs : EasyFileSystem := mkEfs (mkBitmap 0 0) (mkBitmap 1 1) 0 2.
Definition tiny_file : Inode := mkVInode 0 128.
Definition tiny_inode : DiskInode := DiskInode_initialize File.

Lemma tiny_file_ok : file_ok tiny_fs 2 (blank 4) tiny_file tiny_inode.
Proof.
  split.
  - exists (replicate 512 0). split; [by rewrite lookup_blank|by vm_compute].
  - cbn. lia.
  - cbn. lia.
  - split; [|by vm_compute|by vm_compute]. split; [done|done|done| | |simpl; lia].
    + intros i Hi. unfold in_region in Hi. cbn in Hi. rewrite lookup_blank, decide_True by lia. by eexists.
    + intros i Hi. unfold in_region in Hi. cbn in Hi. intros ->%list_elem_of_singleton. cbn in Hi. lia.
  - cbn. lia.
  - intros i Hi. rewrite lookup_blank, decide_True by (cbn; lia). by eexists.
  - split; [by vm_compute| |simpl; lia].
    split; [apply DiskInode_initialize_valid|by vm_compute|constructor|..]; by intros ? ?%elem_of_nil.
  - by intros ? ?%elem_of_nil.
Qed.

Section Device.
Context {D : Type} {BD : BlockDevice D} {HD : BlockDeviceLaws D}.

(** The whole stack, from [Inode::write_at] through the inode's index, the
    allocator, the block cache and the device: writing [buf] at any offset of a
    file, growing it when needed, and reading the range back gives [buf]; the
    file's size is the larger of the old one and the end of the range, its other
    bytes are unchanged, and so is every other file on the disk.  This holds on
    any device, provided the data area has the free blocks that
    [blocks_num_needed] asks for. *)
Theorem file_write_read_roundtrip (s : store D) e area L self di off buf dst :
  rep s L [] -> disk_ok L -> file_ok e area L self di ->
  bytes_ok buf -> buf <> [] -> 0 <= off -> off + Z.of_nat (length buf) <= MAX_SIZE ->
  length dst = length buf ->
  count (_data_blocks (Z.max (size di) (off + Z.of_nat (length buf)))) - count (data_blocks di) <=
    Z.of_nat (length (free_list L (data_bitmap e) area)) ->
  exists s' L' di',
    crun (n ← write_at e self off buf; r ← read_at self off dst; mret (n, r)) s =
      Ok ((Z.of_nat (length buf), (Z.of_nat (length buf), buf)), s') /\
    rep s' L' [] /\ written_file e area self off buf L di L' di'.
Proof.
  intros Hrep HL Hf Hby Hne Hoff Hmax Hdst Hfree. set (len := Z.of_nat (length buf)) in *.
  assert (Hwp : wp (n ← write_at e self off buf; r ← read_at self off dst; mret (n, r)) L []
    (fun r L' => r = (len, (len, buf)) /\ exists di', written_file e area self off buf L di L' di')).
  { apply wp_bind. eapply wp_mono; [by apply (vfs_write_spec e area L self di off buf)|].
    intros n L1 HL1 _ [-> [di' Hw]]. fold len. apply wp_bind.
    unfold MAX_SIZE in Hmax.
    eapply wp_mono; [apply (vfs_read_spec e area L1 self di' off dst); [apply Hw|done|lia]|].
    intros r L2 _ _ [-> ->]. apply wp_ret. split; [|by exists di'].
    pose proof (wf_size _ _ _ _ _ _ _ _ _ Hw) as Hs. fold len in Hs.
    assert (Hlen : 0 < len) by (unfold len; destruct buf; [done|simpl; lia]).
    rewrite Hdst. fold len. replace (Z.max 0 (Z.min len (size di' - off))) with len by lia.
    rewrite drop_ge, app_nil_r by lia. do 2 f_equal. apply list_eq. intros i.
    destruct (decide (i < length buf)%nat).
    - rewrite lookup_fbytes by lia. rewrite (wf_new _ _ _ _ _ _ _ _ _ Hw) by lia.
      replace (Z.to_nat (off + Z.of_nat i - off)) with i by lia.
      symmetry. by apply list_lookup_lookup_total_lt.
    - rewrite !lookup_ge_None_2; [done|lia|rewrite length_fbytes; lia]. }
  destruct (wp_crun _ s L [] _ Hwp HL Hrep) as (r & s' & L' & E & Hrep' & -> & di' & Hw).
  by exists s', L', di'.
Qed.

(** C30: [Inode::clear] leaves an empty file of the same type: every block it had, data
    and index blocks, is zeroed and free again in the data bitmap, and its assertion on
    the number of freed blocks never fails.  It touches nothing else: no other bit of the
    data bitmap changes; in the block of its inode the bytes of the other inodes keep
    their values; every block that is neither this one, nor one of its own, nor of the
    data bitmap (super block, inode bitmap, the other inode blocks, the data of other
    files) keeps its contents; and every other file is still well-formed, with the same
    inode and bytes. *)
Theorem clear_frees_everything (s : store D) e area L self di :
  rep s L [] -> disk_ok L -> file_ok e area L self di ->
  exists s' L' di', crun (clear e self) s = Ok (tt, s') /\ rep s' L' [] /\
    cleared_file e area self L di L' di'.
Proof.
  intros Hrep HL Hf. destruct (wp_crun _ s L [] _ (vfs_clear_spec e area L self di Hf) HL Hrep)
    as ([] & s' & L' & E & Hrep' & di' & Hc). by exists s', L', di'.
Qed.

(** On a directory whose entries have readable names, [find] returns the inode
    of the first entry with the name asked for, [None] when there is none, and
    [ls] returns the names in order; neither changes a block. *)
Theorem find_and_ls_read_the_directory (s : store D) e area L self di nm :
  rep s L [] -> disk_ok L -> file_ok e area L self di -> dir_ok L di ->
  exists s', crun (o ← find e self nm; v ← ls self; mret (o, v)) s =
      Ok ((match assoc nm (dir L di) with
           | Some id => let '(d, off) := get_inode_block_disk_id e id in Some (Inode_new d off)
           | None => None
           end, (dir L di).*1), s') /\ rep s' L [].
Proof.
  intros Hrep HL Hf Hdir.
  assert (Hwp : wp (o ← find e self nm; v ← ls self; mret (o, v)) L [] (fun r L' => r =
      (match assoc nm (dir L di) with
       | Some id => let '(d, off) := get_inode_block_disk_id e id in Some (Inode_new d off)
       | None => None
       end, (dir L di).*1) /\ L' = L)).
  { apply wp_bind. eapply wp_mono; [by eapply find_spec|]. intros o L1 _ _ [-> ->].
    apply wp_bind. eapply wp_mono; [by eapply ls_spec|]. intros v L1 _ _ [-> ->]. by apply wp_ret. }
  destruct (wp_crun _ s L [] _ Hwp HL Hrep) as (r & s' & L' & E & Hrep' & -> & ->). by exists s'.
Qed.
End Device.

Definition tiny_image : BlockFile.file := replicate (Z.to_nat (512 * 4)) 0.

Lemma file_write_read_roundtrip_witness :
  exists s' L' di',
    crun (n ← write_at tiny_fs tiny_file 510 [7; 8; 9]; r ← read_at tiny_file 510 [0; 0; 0]; mret (n, r))
      (BlockCacheManager_new tiny_image) = Ok ((3, (3, [7; 8; 9])), s') /\
    rep (HD := BlockFile_laws 4) s' L' [] /\
    written_file tiny_fs 2 tiny_file 510 [7; 8; 9] (blank 4) tiny_inode L' di'.
Proof.
  apply (file_write_read_roundtrip (HD := BlockFile_laws 4) (BlockCacheManager_new tiny_image)
    tiny_fs 2 (blank 4) tiny_file tiny_inode 510 [7; 8; 9] [0; 0; 0]).
  - apply blank_rep. lia.
  - apply blank_disk_ok.
  - apply tiny_file_ok.
  - by repeat constructor.
  - done.
  - lia.
  - by vm_compute.
  - done.
  - by vm_compute.
Defined.

(** A disk whose one inode, of 32 bytes, is alone in block 0 and has its data, an entry "a"
    that points to inode 5, in block 2. *)
Definition small_inode (ty : DiskInodeType) : DiskInode := mkInode 32 (2 :: replicate 27 0) 0 0 ty.
Definition small_blocks (ty : DiskInodeType) : gmap Z (list Z) :=
  <[0 := splice 0 (encode DiskInode_layout (small_inode ty)) (replicate 512 0)]>
    (<[1 := 1 :: replicate 511 0]>
      (<[2 := splice 0 (97 :: replicate 27 0 ++ [5; 0; 0; 0]) (replicate 512 0)]> (blank 4))).
Definition small_image (ty : DiskInodeType) : BlockFile.file :=
  splice 0 (encode DiskInode_layout (small_inode ty)) (replicate 512 0) ++ (1 :: replicate 511 0) ++
  splice 0 (97 :: replicate 27 0 ++ [5; 0; 0; 0]) (replicate 512 0) ++ replicate 512 0.

(** As a directory it has the entry "a". *)
Definition dir_inode : DiskInode := small_inode Directory.
Definition dir_blocks : gmap Z (list Z) := small_blocks Directory.
Definition dir_image : BlockFile.file := small_image Directory.
Definition dir_place : Inode := mkVInode 0 0.

Lemma small_blocks_cases ty i b : small_blocks ty !! i = Some b -> i = 0 \/ i = 1 \/ i = 2 \/ i = 3.
Proof.
  intros Hb. destruct (decide (0 <= i < 4)); [lia|]. unfold small_blocks in Hb.
  rewrite !lookup_insert_ne, lookup_blank, decide_False in Hb by lia. done.
Qed.

Lemma small_blocks_ok ty : disk_ok (small_blocks ty).
Proof.
  assert (Hb : forallb (fun b => (length b =? 512)%nat && forallb (fun x => (0 <=? x) && (x <? 256)) b)
    (snd <$> map_to_list (small_blocks ty)) = true) by (destruct ty; by vm_compute).
  rewrite forallb_forall in Hb. intros i b Hi.
  assert (Hmem : b ∈ (snd <$> map_to_list (small_blocks ty))).
  { apply list_elem_of_fmap. exists (i, b). split; [done|]. by apply elem_of_map_to_list. }
  apply list_elem_of_In in Hmem. pose proof (Hb b Hmem) as Hx.
  apply andb_prop in Hx as [Hl Hx]. split; [by apply Nat.eqb_eq|]. apply Forall_forall. intros x Hin.
  rewrite forallb_forall in Hx. specialize (Hx x). rewrite <- list_elem_of_In in Hx.
  specialize (Hx Hin). unfold is_u8. bool_to_Prop. lia.
Qed.

Lemma small_image_rep ty :
  rep (HD := BlockFile_laws 4) (BlockCacheManager_new (small_image ty)) (small_blocks ty) [].
Proof.
  apply new_rep; [|intros i b Hb; by eapply small_blocks_ok].
  split_and!; [lia|lia|destruct ty; by vm_compute| |].
  - intros i Hi. assert (i = 0 \/ i = 1 \/ i = 2 \/ i = 3) as [-> | [-> | [-> | ->]]] by lia; destruct ty; by vm_compute.
  - intros i Hi. destruct (small_blocks ty !! i) as [b|] eqn:Hb; [|done].
    apply small_blocks_cases in Hb. lia.
Qed.

Lemma small_file_ok ty : file_ok tiny_fs 2 (small_blocks ty) dir_place (small_inode ty).
Proof.
  assert (Hids : all_ids (small_blocks ty) (small_inode ty) (data_blocks (small_inode ty)) = [2]) by (destruct ty; by vm_compute).
  split.
  - destruct ty; eexists; (split; [by vm_compute|by vm_compute]).
  - cbn. lia.
  - cbn. lia.
  - split; [|by vm_compute|by vm_compute]. split; [done|done|done| | |simpl; lia].
    + intros i Hi. unfold in_region in Hi. cbn in Hi. assert (i = 1) as -> by lia. destruct ty; vm_compute; by eexists.
    + intros i Hi. unfold in_region in Hi. cbn in Hi. intros ->%list_elem_of_singleton. cbn in Hi. lia.
  - cbn. lia.
  - intros i Hi. assert (i = 0 \/ i = 1) as [-> | ->] by lia; destruct ty; vm_compute; by eexists.
  - split; [destruct ty; by vm_compute| |simpl; lia]. split; rewrite ?Hids.
    + split; [done|]. by repeat constructor.
    + destruct ty; by vm_compute.
    + apply NoDup_singleton.
    + intros i ->%list_elem_of_singleton. destruct ty; vm_compute; by eexists.
    + intros i ->%list_elem_of_singleton. by intros ?%list_elem_of_singleton.
  - rewrite Hids. intros i ->%list_elem_of_singleton. destruct ty; (split; [by vm_compute|by vm_compute]).
Qed.

Lemma dir_blocks_ok : disk_ok dir_blocks.
Proof. apply small_blocks_ok. Qed.
Lemma dir_image_rep : rep (HD := BlockFile_laws 4) (BlockCacheManager_new dir_image) dir_blocks [].
Proof. apply small_image_rep. Qed.
Lemma dir_file_ok : file_ok tiny_fs 2 dir_blocks dir_place dir_inode.
Proof. apply small_file_ok. Qed.

(** A file of 32 bytes is cleared: block 2, which was taken and not zero, is free and zero. *)
Lemma clear_frees_everything_witness :
  exists s' L' di', crun (clear tiny_fs dir_place) (BlockCacheManager_new (small_image File)) = Ok (tt, s') /\
    rep (HD := BlockFile_laws 4) s' L' [] /\ cleared_file tiny_fs 2 dir_place (small_blocks File) (small_inode File) L' di' /\
    bit (small_blocks File) (data_bitmap tiny_fs) 0 = true /\ bit L' (data_bitmap tiny_fs) 0 = false /\
    small_blocks File !! 2 <> Some (replicate 512 0) /\ L' !! 2 = Some (replicate 512 0).
Proof.
  destruct (clear_frees_everything (HD := BlockFile_laws 4) (BlockCacheManager_new (small_image File)) tiny_fs 2 (small_blocks File) dir_place
    (small_inode File) (small_image_rep File) (small_blocks_ok File) (small_file_ok File)) as (s' & L' & di' & E & Hr & Hc).
  assert (H2 : 2 ∈ all_ids (small_blocks File) (small_inode File) (data_blocks (small_inode File))) by (apply (bool_decide_unpack _); by vm_compute).
  exists s', L', di'. split; [exact E|]. split; [exact Hr|]. split; [exact Hc|]. split; [by vm_compute|]. split; [|split; [by vm_compute|by apply Hc]].
  apply not_true_iff_false. intros Hb. apply (cf_bits _ _ _ _ _ _ _ Hc) in Hb as [_ Hb]; [|cbn; lia]. by apply Hb.
Defined.

Lemma find_and_ls_read_the_directory_witness :
  exists s', crun (o ← find tiny_fs dir_place [97]; v ← ls dir_place; mret (o, v))
      (BlockCacheManager_new dir_image) = Ok ((Some (mkVInode 1 128), [[97]]), s') /\
    rep (HD := BlockFile_laws 4) s' dir_blocks [].
Proof.
  destruct (find_and_ls_read_the_directory (HD := BlockFile_laws 4) (BlockCacheManager_new dir_image)
    tiny_fs 2 dir_blocks dir_place dir_inode [97]) as (s' & E & Hr).
  - apply dir_image_rep.
  - apply dir_blocks_ok.
  - apply dir_file_ok.
  - split; [done|]. intros i Hi. change (0 <= i < 1) in Hi. assert (i = 0) as -> by lia.
    exists [97]. by vm_compute.
  - exists s'. split; [|exact Hr]. rewrite E. by vm_compute.
Defined.
