(* ===== verification/Directory.v ===== *)
(** Creating files: the specification of [Inode::create] of easy-fs/src/vfs.rs.

    [create] changes the disk in four steps, each a lemma here: it looks the name up
    under the lock of the directory, takes an inode from the inode bitmap, initializes
    the new inode, and appends an entry to the directory.  The first three touch only
    blocks before the data bitmap ([before_data]), which leaves every file alone whose
    inode is not overwritten. *)

From S2P Require Import Prelude BlockCache BlockLogic Bitmap Layout InodeGrowth Efs Vfs.

#[local] Ltac Zify.zify_post_hook ::= Z.to_euclidean_division_equations.
#[local] Arguments enc_words : simpl never.
#[local] Arguments dec_words : simpl never.

(** * Steps that stay before the data bitmap *)

Definition before_data (e : EasyFileSystem) (L L' : gmap Z (list Z)) : Prop :=
  dom L' = dom L /\ forall id, start_disk_id (data_bitmap e) <= id -> L' !! id = L !! id.

Lemma before_data_bits e L L' j : before_data e L L' -> 0 <= j -> bit L' (data_bitmap e) j = bit L (data_bitmap e) j.
Proof. intros [_ Hs] Hj. apply bit_same, Hs. lia. Qed.

Lemma before_data_trans e L1 L2 L3 : before_data e L1 L2 -> before_data e L2 L3 -> before_data e L1 L3.
Proof. intros [? H1] [? H2]. split; [congruence|]. intros id Hid. by rewrite H2, H1. Qed.

Lemma before_data_insert e L id b :
  id < start_disk_id (data_bitmap e) -> is_Some (L !! id) -> before_data e L (<[id := b]> L).
Proof.
  intros Hid Hp. split; [by apply dom_insert_lookup_L|]. intros i Hi. apply lookup_insert_ne. lia.
Qed.

(** A file survives such a step when its inode does. *)
Lemma before_data_file e area L L' f d :
  file_ok e area L f d -> before_data e L L' -> holds DiskInode_layout L' (disk_id f) (block_offset f) d ->
  untouched L L' f d /\ file_ok e area L' f d.
Proof.
  intros Hf Hbd Hh. pose proof Hf as [_ _ Hbef Hda Har _ [Hsz Hok _] Htk]. pose proof Hbd as [Hd Hs].
  pose proof (da_after _ _ _ Hda) as Haf. pose proof (us_blocks _ _ _ (da_usable _ _ _ Hda)) as Hbk.
  assert (Hmine : forall id, id ∈ all_ids L d (data_blocks d) -> L' !! id = L !! id).
  { intros id Hid. apply Hs. apply Htk in Hid as [? _]. lia. }
  assert (Hmeta : forall id, id ∈ meta_ids L d (data_blocks d) -> L' !! id = L !! id).
  { intros id (i & Hi & Hid)%elem_of_meta_ids. apply Hmine. eapply group_in_all_ids; [exact Hi|].
    unfold group. apply elem_of_app. by left. }
  assert (Hun : untouched L L' f d).
  { split_and!; [done|done| |].
    - intros k Hk. unfold fbyte. rewrite (block_id_frame L L' d (data_blocks d)) by (done || lia).
      rewrite Hmine; [done|]. apply block_id_in. lia.
    - apply all_ids_ext. intros i Hi. by apply (group_frame L L' d (data_blocks d)). }
  split; [done|]. apply (untouched_file_ok e area L); [done|done|done|].
  intros id Hid. destruct (Htk id Hid) as [Hj Hbit]. by rewrite (before_data_bits e L) by (done || lia).
Qed.

Lemma untouched_trans L1 L2 L3 f d :
  untouched L1 L2 f d -> untouched L2 L3 f d -> untouched L1 L3 f d.
Proof.
  intros (_ & Hs1 & Hb1 & Hi1) (Hh & Hs2 & Hb2 & Hi2). rewrite Hi1 in *. split_and!; [done| | |done].
  - intros id Hid. by rewrite Hs2, Hs1.
  - intros k Hk. by rewrite Hb2, Hb1.
Qed.

(** Inode slots that do not overlap. *)
Definition apart (f g : Inode) : Prop :=
  disk_id f <> disk_id g \/ block_offset f + 128 <= block_offset g \/ block_offset g + 128 <= block_offset f.

(** Storing an inode in one slot keeps the inode in another. *)
Lemma holds_store L f d g di b :
  holds DiskInode_layout L (disk_id f) (block_offset f) d -> apart g f ->
  0 <= block_offset f <= 384 -> 0 <= block_offset g <= 384 ->
  L !! disk_id g = Some b -> length b = 512%nat -> valid_inode di ->
  holds DiskInode_layout (<[disk_id g := splice (block_offset g) (encode DiskInode_layout di) b]> L)
    (disk_id f) (block_offset f) d.
Proof.
  intros (b2 & Hb2 & Hd2) Hap Hof Hog Hb Hbl Hv. destruct (decide (disk_id f = disk_id g)) as [E|E].
  - exists (splice (block_offset g) (encode DiskInode_layout di) b). rewrite E, lookup_insert_eq.
    split; [done|]. rewrite E, Hb in Hb2. injection Hb2 as <-.
    pose proof (lo_len _ _ DiskInode_ok di Hv) as Hle. change (size_of DiskInode_layout) with 128 in *.
    unfold apart in Hap. rewrite bytes_at_splice_ne by lia. done.
  - exists b2. by rewrite lookup_insert_ne.
Qed.

Lemma holds_stored L g di b :
  0 <= block_offset g <= 384 -> L !! disk_id g = Some b -> length b = 512%nat -> valid_inode di ->
  holds DiskInode_layout (<[disk_id g := splice (block_offset g) (encode DiskInode_layout di) b]> L)
    (disk_id g) (block_offset g) di.
Proof.
  intros Hog Hb Hbl Hv. eexists. split; [apply lookup_insert_eq|].
  apply (decode_splice _ _ _ _ _ DiskInode_ok); [done|lia|]. change (size_of DiskInode_layout) with 128. lia.
Qed.

(** * The directory *)

Lemma fbytes_same L L' d d' off n :
  (forall k, off <= k < off + n -> fbyte L' d' k = fbyte L d k) -> fbytes L' d' off n = fbytes L d off n.
Proof.
  intros Hk. apply list_eq. intros i. destruct (decide (Z.of_nat i < n)).
  - rewrite !lookup_fbytes by lia. by rewrite Hk by lia.
  - rewrite !lookup_ge_None_2; [done|rewrite length_fbytes; lia..].
Qed.

(** The entries of a directory are its bytes. *)
Lemma entries_same L L' d d' n :
  (forall k, 0 <= k < 32 * n -> fbyte L' d' k = fbyte L d k) ->
  forall i, 0 <= i < n -> entry L' d' i = entry L d i.
Proof. intros Hk i Hi. unfold entry. rewrite (fbytes_same L L' d d'); [done|]. intros. apply Hk. lia. Qed.

Lemma untouched_dir L L' f d :
  untouched L L' f d -> 0 <= size d <= MAX_SIZE -> dir_ok L d -> dir L' d = dir L d /\ dir_ok L' d.
Proof.
  intros (_ & _ & Hb & _) Hsz [Hty Hdir].
  assert (He : forall i, 0 <= i < size d / 32 -> entry L' d i = entry L d i).
  { apply entries_same. intros k Hk. apply Hb. unfold data_blocks. rewrite data_blocks_spec by done. lia. }
  split; [|split; [done|]].
  - unfold dir. apply list_fmap_ext. intros j i (-> & Hj)%lookup_seqZ. by rewrite He by lia.
  - intros i Hi. rewrite He by done. by apply Hdir.
Qed.

(** Appending the bytes of an entry to a directory. *)
Lemma written_entry e area self L di L' di' nm id ent :
  written_file e area self (size di) (as_bytes ent) L di L' di' ->
  0 <= size di -> (32 | size di) -> dir_ok L di -> length (as_bytes ent) = 32%nat ->
  Layout.name (DirEntry_of_bytes (as_bytes ent)) = Ok nm -> inode_id (DirEntry_of_bytes (as_bytes ent)) = id ->
  dir L' di' = dir L di ++ [(nm, id)] /\ dir_ok L' di'.
Proof.
  intros Hw H0 [c Hc] [Hty Hdir] Hlen Hnm Hid. pose proof (wf_size _ _ _ _ _ _ _ _ _ Hw) as Hs. rewrite Hlen in Hs.
  assert (He : forall i, 0 <= i < c -> entry L' di' i = entry L di i).
  { apply entries_same. intros k Hk. apply (wf_old _ _ _ _ _ _ _ _ _ Hw); lia. }
  assert (Hn : entry L' di' c = DirEntry_of_bytes (as_bytes ent)).
  { unfold entry. f_equal. apply list_eq. intros i. destruct (decide (i < 32)%nat).
    - rewrite lookup_fbytes by lia. rewrite (wf_new _ _ _ _ _ _ _ _ _ Hw) by lia.
      replace (Z.to_nat (32 * c + Z.of_nat i - size di)) with i by lia.
      symmetry. apply list_lookup_lookup_total_lt. lia.
    - rewrite !lookup_ge_None_2; [done|lia|rewrite length_fbytes; lia]. }
  assert (Ec : size di / 32 = c) by lia. assert (Ec' : size di' / 32 = c + 1) by lia.
  split; [|split].
  - unfold dir. rewrite Ec, Ec', seqZ_app, fmap_app by lia. f_equal.
    + apply list_fmap_ext. intros j i (-> & Hj)%lookup_seqZ. by rewrite He by lia.
    + rewrite Z.add_0_l, seqZ_cons by lia. cbn [fmap list_fmap]. change (seqZ (Z.succ c) (Z.pred 1)) with (@nil Z).
      cbn [fmap list_fmap]. rewrite Hn, Hid. unfold entry_name. by rewrite Hnm.
  - by rewrite (wf_type _ _ _ _ _ _ _ _ _ Hw).
  - intros i Hi. rewrite Ec' in Hi. destruct (decide (i = c)) as [->|].
    + rewrite Hn. by eexists.
    + rewrite He by lia. apply Hdir. lia.
Qed.

(** * [Inode::create] *)

(** Where inode [n] is. *)
Definition inode_slot (e : EasyFileSystem) (n : Z) : Inode :=
  mkVInode (inode_area_start_block e + n / 4) (n mod 4 * 128).

(** The inode bitmap, then the inode area, then the data bitmap; [n] is the first free
    inode, and its block exists. *)
Record inode_free (e : EasyFileSystem) (L : gmap Z (list Z)) (n : Z) : Prop := {
  if_usable : usable (inode_bitmap e) L [];
  if_range : 0 <= n < blocks (inode_bitmap e) * 4096;
  if_u32 : n < 2 ^ 32;
  if_bit : bit L (inode_bitmap e) n = false;
  if_first : forall j, 0 <= j < n -> bit L (inode_bitmap e) j = true;
  if_before : start_disk_id (inode_bitmap e) + blocks (inode_bitmap e) <= inode_area_start_block e;
  if_area : inode_area_start_block e + n / 4 < start_disk_id (data_bitmap e);
  if_present : is_Some (L !! (inode_area_start_block e + n / 4));
}.

Record created (e : EasyFileSystem) (area : Z) (self : Inode) (name : list Z) (n : Z)
  (L : gmap Z (list Z)) (di : DiskInode) (L' : gmap Z (list Z)) (di' : DiskInode) : Prop := {
  cr_dir_file : file_ok e area L' self di';
  cr_dir_ok : dir_ok L' di';
  cr_dir : dir L' di' = dir L di ++ [(name, n)];
  cr_file : file_ok e area L' (inode_slot e n) (DiskInode_initialize File);
  cr_apart : disjoint_files L' self di' (inode_slot e n) (DiskInode_initialize File);
  cr_others : forall f2 d2, file_ok e area L f2 d2 -> disjoint_files L self di f2 d2 ->
    apart (inode_slot e n) f2 -> inode_area_start_block e <= disk_id f2 ->
    untouched L L' f2 d2 /\ file_ok e area L' f2 d2 /\ disjoint_files L' self di' f2 d2;
  cr_size : size di' = size di + 32;
  cr_inodes : forall j, 0 <= j < blocks (inode_bitmap e) * 4096 ->
    bit L' (inode_bitmap e) j = (j =? n) || bit L (inode_bitmap e) j;
  cr_free : Z.of_nat (length (free_list L' (data_bitmap e) area)) =
    Z.of_nat (length (free_list L (data_bitmap e) area)) - (count (_data_blocks (size di + 32)) - count (data_blocks di));
  cr_before : forall id, id < start_disk_id (inode_bitmap e) -> L' !! id = L !! id;
}.

Lemma lookup_step_spec e area L self di nm :
  file_ok e area L self di -> dir_ok L di ->
  wp (modify_disk_inode self (fun disk_inode =>
        io_assert (is_dir disk_inode);; o ← find_inode_id nm disk_inode; mret (o, disk_inode))) L []
    (fun o L1 => o = assoc nm (dir L di) /\ exists b, L !! disk_id self = Some b /\ length b = 512%nat /\
       L1 = <[disk_id self := splice (block_offset self) (encode DiskInode_layout di) b]> L).
Proof.
  intros [(b & Hb & Hdec) Ho _ _ _ _ Hif _] Hdir. unfold modify_disk_inode. apply wp_disk_ok. intros HL.
  destruct (HL _ _ Hb) as [Hbl _].
  eapply (wp_modify DiskInode_layout valid_inode);
    [apply DiskInode_ok|done|apply not_elem_of_nil|simpl; lia|lia|change (size_of DiskInode_layout) with 128; lia|].
  rewrite Hdec. intros _. apply wp_bind, wp_assert; [apply bool_decide_eq_true_2, Hdir|]. apply wp_bind.
  eapply wp_mono; [by apply (find_inode_id_spec L [disk_id self] di nm)|]. intros o L1 _ _ [-> ->].
  apply wp_ret. split; [apply Hif|]. split; [done|]. by exists b.
Qed.

(** Appending an entry under the lock of the directory. *)
Lemma append_step_spec e area L self di nm n :
  file_ok e area L self di -> dir_ok L di -> (32 | size di) -> size di + 32 <= MAX_SIZE ->
  bytes_ok nm -> Forall (fun b => b <> 0) nm -> is_utf8 (length nm) nm = true ->
  Z.of_nat (length nm) <= NAME_LENGTH_LIMIT -> is_u32 n ->
  count (_data_blocks (size di + 32)) - count (data_blocks di) <=
    Z.of_nat (length (free_list L (data_bitmap e) area)) ->
  wp (modify_disk_inode self (fun disk_inode =>
        let file_count := size disk_inode / DIRENTRY_SZ in
        let new_size := umul (uadd file_count 1) DIRENTRY_SZ in
        disk_inode' ← increase_size e (as_u32 new_size) disk_inode;
        dir_entry ← io_res (DirEntry_new nm n);
        Layout.write_at disk_inode' (umul file_count DIRENTRY_SZ) (as_bytes dir_entry);;
        mret (tt, disk_inode'))) L []
    (fun _ L' => exists di' ent, written_file e area self (size di) (as_bytes ent) L di L' di' /\
       dir L' di' = dir L di ++ [(nm, n)] /\ dir_ok L' di' /\ size di' = size di + 32).
Proof.
  intros Hf Hdir Hdiv Hmax Hby Hnz Hutf Hlen Hn Hfree.
  pose proof Hf as [(b & Hb & Hdec) Ho _ _ _ _ Hif _]. pose proof (if_size _ _ _ Hif) as Hsz.
  destruct (proj1 (direntry_ok nm n Hby Hnz Hutf Hn) Hlen) as (ent & Hent & Hnm & Hl & Hnm2 & Hid2).
  unfold modify_disk_inode. apply wp_disk_ok. intros HL. destruct (HL _ _ Hb) as [Hbl _].
  eapply (wp_modify DiskInode_layout valid_inode);
    [apply DiskInode_ok|done|apply not_elem_of_nil|simpl; lia|lia|change (size_of DiskInode_layout) with 128; lia|].
  rewrite Hdec. intros _. cbv zeta. unfold DIRENTRY_SZ, MAX_SIZE in *.
  destruct Hdiv as [c Hc]. replace (size di / 32) with c by lia.
  rewrite uadd_small, !umul_small by lia. unfold as_u32. rewrite wrap_small by lia.
  replace ((c + 1) * 32) with (size di + 32) by lia. apply wp_bind.
  eapply wp_mono; [apply (vfs_grow_spec e area L self di (size di + 32)); [done|unfold MAX_SIZE; lia|]|].
  { by rewrite Z.max_r by lia. }
  intros di' L1 _ Hd1 (Hs & Hty & Hg). apply wp_bind. eapply wp_res; [exact Hent|]. rewrite <- Hc. apply wp_bind.
  assert (Hl' : length (as_bytes ent) = 32%nat) by lia.
  eapply wp_mono; [apply (write_store_spec e area L self di L1 di' (size di) (as_bytes ent) b); try done|].
  - rewrite Hs, Hl'. lia.
  - unfold data_blocks in *. rewrite Hs, Z.max_r by lia. done.
  - apply (as_bytes_ok nm n); [done|done|unfold NAME_LENGTH_LIMIT in Hlen; lia].
  - by destruct (as_bytes ent).
  - lia.
  - intros k L2 _ _ [_ Hw]. apply wp_ret. split; [apply Hg|]. exists di', ent. split; [done|].
    destruct (written_entry e area self L di _ di' nm n ent Hw) as [? ?]; try done; [lia|by exists c|].
    split_and!; [done|done|]. rewrite Hs. lia.
Qed.

(** A new inode is an empty file. *)
Lemma new_file_ok e area L f d n :
  file_ok e area L f d -> inode_area_start_block e + n / 4 < start_disk_id (data_bitmap e) ->
  holds DiskInode_layout L (disk_id (inode_slot e n)) (block_offset (inode_slot e n)) (DiskInode_initialize File) ->
  file_ok e area L (inode_slot e n) (DiskInode_initialize File).
Proof.
  intros [_ _ _ Hda Har Hpr _ _] Hb Hh. split; try done.
  - cbn [block_offset inode_slot]. lia.
  - destruct Hda as [[Hs Hbl Hbd Hp Hu Hlk] Ha Hbd']. split; [|done|done]. split; try done.
    intros id Hid ->%list_elem_of_singleton. unfold in_region in Hid. cbn [disk_id inode_slot] in *. lia.
  - split; [by vm_compute| |simpl; lia].
    split; [apply DiskInode_initialize_valid|by vm_compute|constructor|..]; by intros ? ?%elem_of_nil.
  - by intros ? ?%elem_of_nil.
Qed.

Lemma create_new_spec e area L self di nm n :
  file_ok e area L self di -> dir_ok L di -> (32 | size di) -> size di + 32 <= MAX_SIZE ->
  assoc nm (dir L di) = None -> inode_free e L n -> apart (inode_slot e n) self ->
  inode_area_start_block e <= disk_id self ->
  bytes_ok nm -> Forall (fun b => b <> 0) nm -> is_utf8 (length nm) nm = true ->
  Z.of_nat (length nm) <= NAME_LENGTH_LIMIT ->
  count (_data_blocks (size di + 32)) - count (data_blocks di) <=
    Z.of_nat (length (free_list L (data_bitmap e) area)) ->
  wp (create e self nm) L [] (fun o L' => o = Some (inode_slot e n) /\
    exists di', created e area self nm n L di L' di').
Proof.
  intros Hf Hdir Hdiv Hmax Hnone [Hus Hrng Hn32 Hbit Hfirst Hbef Harea Hpres] Hap Hself Hby Hnz Hutf Hlen Hfree.
  pose proof (fo_offset _ _ _ _ _ Hf) as Hof. pose proof (fo_before _ _ _ _ _ Hf) as Hfb.
  pose proof (if_size _ _ _ (fo_inode _ _ _ _ _ Hf)) as Hsz.
  pose proof (da_bound _ _ _ (fo_data _ _ _ _ _ Hf)) as Hbound.
  pose proof (da_after _ _ _ (fo_data _ _ _ _ _ Hf)) as Hafter.
  pose proof (us_blocks _ _ _ (da_usable _ _ _ (fo_data _ _ _ _ _ Hf))) as Hbk.
  pose proof (us_start _ _ _ Hus) as Hst. pose proof (us_bound _ _ _ Hus) as Hubd.
  set (f := inode_slot e n) in *. assert (Hofn : 0 <= block_offset f <= 384) by (cbn; lia).
  (* the name is not there *)
  unfold create. apply wp_bind. eapply wp_mono; [by apply (lookup_step_spec e area L self di nm)|].
  intros o L1 HL1 Hd1 [-> (b & Hb & Hbl & E1)]. rewrite Hnone.
  assert (Hv : valid_inode di) by apply Hf.
  assert (Hbd1 : before_data e L L1) by (subst L1; by apply before_data_insert).
  assert (Hk1 : forall g d, holds DiskInode_layout L (disk_id g) (block_offset g) d ->
     0 <= block_offset g <= 384 -> apart self g -> holds DiskInode_layout L1 (disk_id g) (block_offset g) d).
  { intros g d Hg Hog Hag. subst L1. apply holds_store; try done; lia. }
  assert (Hh1 : holds DiskInode_layout L1 (disk_id self) (block_offset self) di).
  { subst L1. apply holds_stored; try done; lia. }
  (* an inode is taken *)
  assert (Hbit1 : forall j, 0 <= j < blocks (inode_bitmap e) * 4096 -> bit L1 (inode_bitmap e) j = bit L (inode_bitmap e) j).
  { intros j Hj. apply bit_same. subst L1. apply lookup_insert_ne. lia. }
  unfold alloc_inode. apply wp_bind, wp_bind. eapply wp_mono; [apply (alloc_first (inode_bitmap e) L1 [] n)|].
  { by apply (usable_dom _ L). } { done. } { by rewrite Hbit1. }
  { intros j Hj. rewrite Hbit1 by lia. apply Hfirst. lia. }
  intros o L2 HL2 Hd2 (-> & Hb2i & Hs2). apply wp_bind. eapply wp_res; [done|]. apply wp_ret.
  unfold as_u32. rewrite wrap_small by lia. rewrite get_inode_block_disk_id_spec by lia. cbn beta iota.
  assert (Hs2' : forall id, inode_area_start_block e <= id -> L2 !! id = L1 !! id).
  { intros id Hid. apply Hs2. unfold in_region. lia. }
  assert (Hbd2 : before_data e L1 L2) by (split; [done|intros; apply Hs2'; lia]).
  (* and initialized *)
  assert (Hp2 : is_Some (L2 !! disk_id f)).
  { apply elem_of_dom. rewrite Hd2, Hd1. by apply elem_of_dom. }
  destruct Hp2 as [b2 Hb2]. destruct (HL2 _ _ Hb2) as [Hbl2 _].
  apply wp_bind. eapply (wp_modify DiskInode_layout valid_inode _ (block_offset f));
    [apply DiskInode_ok|exact Hb2|apply not_elem_of_nil|simpl; lia|lia|change (size_of DiskInode_layout) with 128; lia|].
  intros _. apply wp_ret. split; [apply DiskInode_initialize_valid|].
  set (L3 := <[_ := _]> L2).
  assert (Hbd3 : before_data e L2 L3) by (apply before_data_insert; [done|by eexists]).
  assert (Hk3 : forall g d, holds DiskInode_layout L1 (disk_id g) (block_offset g) d ->
     0 <= block_offset g <= 384 -> apart f g -> inode_area_start_block e <= disk_id g ->
     holds DiskInode_layout L3 (disk_id g) (block_offset g) d).
  { intros g d (b3 & Hb3 & Hd3) Hog Hag Hg. apply holds_store; try done; [|apply DiskInode_initialize_valid].
    exists b3. by rewrite Hs2'. }
  assert (Hbd : before_data e L L3) by (by eapply before_data_trans; [|eapply before_data_trans]).
  destruct (before_data_file e area L L3 self di Hf Hbd) as [Hun3 Hf3].
  { apply Hk3; try done; lia. }
  destruct (untouched_dir L L3 self di Hun3 Hsz Hdir) as [Edir Hdir3].
  (* the entry is appended *)
  apply wp_bind. eapply wp_mono; [apply (append_step_spec e area L3 self di nm n); try done|].
  { unfold is_u32. lia. }
  { rewrite (free_list_same L); [done|]. intros j Hj. apply before_data_bits; [done|lia]. }
  intros _ L4 _ _ (di' & ent & Hw & Hd4 & Hok4 & Hs4). apply wp_bind, wp_sync, wp_ret. split; [done|]. exists di'.
  assert (Hnew3 : file_ok e area L3 f (DiskInode_initialize File)).
  { apply (new_file_ok e area L3 self di); [done|done|].
    apply holds_stored; try done. apply DiskInode_initialize_valid. }
  assert (Efl : free_list L3 (data_bitmap e) area = free_list L (data_bitmap e) area).
  { apply free_list_same. intros j Hj. apply before_data_bits; [done|lia]. }
  assert (Hnap : disjoint_files L3 self di f (DiskInode_initialize File)).
  { split; [|by intros ? _ ?%elem_of_nil]. unfold apart in Hap. naive_solver lia. }
  destruct (wf_others _ _ _ _ _ _ _ _ _ Hw _ _ Hnew3 Hnap) as (_ & Hnew4 & Hnap4).
  split; [apply Hw|done|by rewrite Hd4, Edir|done|done| |done| | |].
  - intros f2 d2 Hf2 [Hap2 Hdis2] Hapn Hf2a. pose proof (fo_offset _ _ _ _ _ Hf2) as Hof2.
    destruct (before_data_file e area L L3 f2 d2 Hf2 Hbd) as [Hun2 Hf23].
    { apply Hk3; [apply Hk1|..]; try done; try lia. apply Hf2. }
    destruct (wf_others _ _ _ _ _ _ _ _ _ Hw f2 d2 Hf23) as (Hun4 & Hf4 & Hdis4).
    { split; [done|]. destruct Hun2 as (_ & _ & _ & ->). destruct Hun3 as (_ & _ & _ & ->). done. }
    split_and!; [by eapply untouched_trans|done|done].
  - intros j Hj. rewrite (bit_same L3) by (apply (wf_inodes _ _ _ _ _ _ _ _ _ Hw); lia).
    rewrite (bit_same L2) by (apply lookup_insert_ne; cbn; lia). by rewrite Hb2i, Hbit1 by lia.
  - rewrite (wf_free _ _ _ _ _ _ _ _ _ Hw), Efl. unfold data_blocks. by rewrite Hs4.
  - intros id Hid. pose proof (us_blocks _ _ _ Hus). rewrite (wf_inodes _ _ _ _ _ _ _ _ _ Hw) by lia. subst L3. rewrite lookup_insert_ne by (cbn; lia).
    rewrite Hs2 by (unfold in_region; lia). subst L1. apply lookup_insert_ne. lia.
Qed.

(** A name that exists is refused, and the directory is as it was. *)
Lemma create_existing_spec e area L self di nm id :
  file_ok e area L self di -> dir_ok L di -> assoc nm (dir L di) = Some id ->
  wp (create e self nm) L [] (fun o L' => o = None /\ file_ok e area L' self di /\ dir_ok L' di /\ dir L' di = dir L di).
Proof.
  intros Hf Hdir Ha. pose proof (fo_offset _ _ _ _ _ Hf) as Hof.
  pose proof (if_size _ _ _ (fo_inode _ _ _ _ _ Hf)) as Hsz.
  unfold create. apply wp_bind. eapply wp_mono; [by apply (lookup_step_spec e area L self di nm)|].
  intros o L1 _ _ [-> (b & Hb & Hbl & E1)]. rewrite Ha. apply wp_ret. split; [done|].
  destruct (before_data_file e area L L1 self di Hf) as [Hun Hf1]; subst L1.
  - apply before_data_insert; [apply Hf|by eexists].
  - apply holds_stored; try done; [lia|apply Hf].
  - destruct (untouched_dir _ _ _ _ Hun Hsz Hdir). done.
Qed.

Lemma assoc_snoc nm l id : assoc nm l = None -> assoc nm (l ++ [(nm, id)]) = Some id.
Proof.
  induction l as [|[nm' id'] l IH]; simpl; intros Hn; [by rewrite decide_True|].
  destruct (decide (nm' = nm)); [done|]. by apply IH.
Qed.

(** * The theorem *)

Section Device.
Context {D : Type} {BD : BlockDevice D} {HD : BlockDeviceLaws D}.

(** [Inode::create] of a name the directory does not have takes the first free
    inode, makes it an empty file and appends an entry to the directory: afterwards
    [find] returns the new inode and [ls] lists the new name after the old ones, and
    every other file is untouched.  When the name exists, it returns [None] and the
    directory is unchanged. *)
Theorem create_adds_file (s : store D) e area L self di nm n :
  rep s L [] -> disk_ok L -> file_ok e area L self di -> dir_ok L di -> (32 | size di) ->
  size di + 32 <= MAX_SIZE -> inode_free e L n -> apart (inode_slot e n) self ->
  inode_area_start_block e <= disk_id self ->
  bytes_ok nm -> Forall (fun b => b <> 0) nm -> is_utf8 (length nm) nm = true ->
  Z.of_nat (length nm) <= NAME_LENGTH_LIMIT ->
  count (_data_blocks (size di + 32)) - count (data_blocks di) <=
    Z.of_nat (length (free_list L (data_bitmap e) area)) ->
  match assoc nm (dir L di) with
  | None => exists s' L' di',
      crun (o ← create e self nm; o' ← find e self nm; v ← ls self; mret (o, o', v)) s =
        Ok ((Some (inode_slot e n), Some (inode_slot e n), (dir L di).*1 ++ [nm]), s') /\
      rep s' L' [] /\ created e area self nm n L di L' di'
  | Some _ => exists s' L', crun (create e self nm) s = Ok (None, s') /\ rep s' L' [] /\
      file_ok e area L' self di /\ dir L' di = dir L di
  end.
Proof.
  intros Hrep HL Hf Hdir Hdiv Hmax Hfree Hap Hself Hby Hnz Hutf Hlen Hblocks.
  destruct (assoc nm (dir L di)) as [id|] eqn:Ha.
  - destruct (wp_crun _ s L [] _ (create_existing_spec e area L self di nm id Hf Hdir Ha) HL Hrep)
      as (o & s' & L' & E & Hrep' & -> & Hf' & _ & Hd'). by exists s', L'.
  - assert (Hwp : wp (o ← create e self nm; o' ← find e self nm; v ← ls self; mret (o, o', v)) L [] (fun r L' =>
      r = (Some (inode_slot e n), Some (inode_slot e n), (dir L di).*1 ++ [nm]) /\
      exists di', created e area self nm n L di L' di')).
    { apply wp_bind. eapply wp_mono; [by apply (create_new_spec e area L self di nm n)|].
      intros o L1 _ _ [-> [di' Hc]]. pose proof Hc as [Hf1 Hok1 Hd1 _ _ _ _ _ _].
      apply wp_bind. eapply wp_mono; [by eapply find_spec|]. intros o' L2 _ _ [-> ->].
      apply wp_bind. eapply wp_mono; [by eapply ls_spec|]. intros v L2 _ _ [-> ->]. apply wp_ret.
      split; [|by exists di']. rewrite Hd1, assoc_snoc, fmap_app by done.
      destruct Hfree as [Hus Hr Hn _ _ Hbef Har _]. pose proof (us_start _ _ _ Hus). pose proof (us_blocks _ _ _ Hus).
      pose proof (da_bound _ _ _ (fo_data _ _ _ _ _ Hf)). pose proof (da_after _ _ _ (fo_data _ _ _ _ _ Hf)).
      pose proof (us_blocks _ _ _ (da_usable _ _ _ (fo_data _ _ _ _ _ Hf))).
      rewrite get_inode_block_disk_id_spec by lia. done. }
    destruct (wp_crun _ s L [] _ Hwp HL Hrep) as (r & s' & L' & E & Hrep' & -> & di' & Hc). by exists s', L', di'.
Qed.
End Device.

(** A disk of five blocks, with an empty root directory in inode 0. *)
Definition small_fs : EasyFileSystem := mkEfs (mkBitmap 0 1) (mkBitmap 2 1) 1 3.
Definition small_root : Inode := mkVInode 1 0.
Definition small_root_inode : DiskInode := DiskInode_initialize Directory.
Definition small_inode_block : list Z := splice 0 (encode DiskInode_layout small_root_inode) (replicate 512 0).
Definition small_blocks : gmap Z (list Z) :=
  <[0 := 1 :: replicate 511 0]> (<[1 := small_inode_block]> (blank 5)).
Definition small_image : BlockFile.file :=
  (1 :: replicate 511 0) ++ small_inode_block ++ replicate (3 * 512) 0.

Lemma small_present i : 0 <= i < 5 -> is_Some (small_blocks !! i).
Proof.
  intros Hi. assert (i = 0 \/ i = 1 \/ i = 2 \/ i = 3 \/ i = 4) as [-> | [-> | [-> | [-> | ->]]]] by lia;
    by vm_compute; eexists.
Qed.

Lemma small_rep : rep (HD := BlockFile_laws 5) (BlockCacheManager_new small_image) small_blocks [] /\ disk_ok small_blocks.
Proof.
  assert (Hz : forall b, b ∈ [1 :: replicate 511 0; small_inode_block; replicate 512 0] -> block_ok b).
  { intros b Hb. assert (Hc : (length b =? 512)%nat && forallb (fun x => (0 <=? x) && (x <? 256)) b = true).
    { rewrite !elem_of_cons, elem_of_nil in Hb. destruct Hb as [-> | [-> | [-> | []]]]; by vm_compute. }
    apply andb_prop in Hc as [Hl Hx]. split; [by apply Nat.eqb_eq|]. apply Forall_forall. intros x Hin.
    rewrite forallb_forall in Hx. specialize (Hx x). rewrite <- list_elem_of_In in Hx.
    specialize (Hx Hin). unfold is_u8. bool_to_Prop. lia. }
  assert (Hok : disk_ok small_blocks).
  { intros i b Hb. apply Hz. unfold small_blocks in Hb. rewrite !lookup_insert, lookup_blank in Hb.
    repeat case_decide; simplify_eq; set_solver. }
  split; [|done]. apply new_rep; [|intros i b Hb; by eapply Hok].
  split_and!; [lia|lia|by vm_compute| |].
  - intros i Hi. assert (i = 0 \/ i = 1 \/ i = 2 \/ i = 3 \/ i = 4) as [-> | [-> | [-> | [-> | ->]]]] by lia; by vm_compute.
  - intros i Hi. unfold small_blocks. rewrite !lookup_insert_ne, lookup_blank, decide_False by lia. done.
Qed.

Lemma small_root_ok : file_ok small_fs 2 small_blocks small_root small_root_inode.
Proof.
  split.
  - eexists. split; [by vm_compute|by vm_compute].
  - cbn. lia.
  - cbn. lia.
  - split; [|by vm_compute|by vm_compute]. split; [done|done|done| | |simpl; lia].
    + intros i Hi. unfold in_region in Hi. cbn in Hi. apply small_present. lia.
    + intros i Hi. unfold in_region in Hi. cbn in Hi. intros ->%list_elem_of_singleton. cbn in Hi. lia.
  - cbn. lia.
  - intros i Hi. apply small_present. cbn. lia.
  - split; [by vm_compute| |simpl; lia].
    split; [apply DiskInode_initialize_valid|by vm_compute|constructor|..]; by intros ? ?%elem_of_nil.
  - by intros ? ?%elem_of_nil.
Qed.

Lemma small_inode_free : inode_free small_fs small_blocks 1.
Proof.
  split; try (cbn; lia).
  - split; [done|done|done| | |simpl; lia].
    + intros i Hi. unfold in_region in Hi. cbn in Hi. apply small_present. lia.
    + intros. apply not_elem_of_nil.
  - by vm_compute.
  - intros j Hj. assert (j = 0) as -> by lia. by vm_compute.
  - apply small_present. cbn. lia.
Qed.

Lemma create_adds_file_witness :
  exists s' L' di',
    crun (o ← create small_fs small_root [102]; o' ← find small_fs small_root [102]; v ← ls small_root; mret (o, o', v))
      (BlockCacheManager_new small_image) =
      Ok ((Some (mkVInode 1 128), Some (mkVInode 1 128), [[102]]), s') /\
    rep (HD := BlockFile_laws 5) s' L' [] /\
    created small_fs 2 small_root [102] 1 small_blocks small_root_inode L' di'.
Proof.
  destruct small_rep as [Hr Hok].
  apply (create_adds_file (HD := BlockFile_laws 5) (BlockCacheManager_new small_image)
    small_fs 2 small_blocks small_root small_root_inode [102] 1).
  - exact Hr.
  - exact Hok.
  - apply small_root_ok.
  - split; [done|]. intros i Hi. change (0 <= i < 0) in Hi. lia.
  - by exists 0.
  - by vm_compute.
  - apply small_inode_free.
  - right. cbn. lia.
  - cbn. lia.
  - by repeat constructor.
  - by repeat constructor.
  - by vm_compute.
  - by vm_compute.
  - by vm_compute.
Defined.
