(* ===== verification/Files.v ===== *)
(** Kernel file objects: [OSInode], [OpenFlags] and [open_file] of os/src/fs/inode.rs,
    and [Stdin] and [Stdout] of os/src/fs/stdio.rs.

    An [OSInode] is an inode with an offset that reads and writes advance.  Its
    operations work on the contents of the slices of a [UserBuffer]; [OSInode_read]
    returns the contents the slices are left with.  They are [io] programs, so they
    run on the block cache over any device. *)

From S2P Require Import Prelude BlockCache BlockLogic Bitmap Layout Console InodeGrowth Efs Vfs Directory.

#[local] Ltac Zify.zify_post_hook ::= Z.to_euclidean_division_equations.
#[local] Arguments enc_words : simpl never.
#[local] Arguments dec_words : simpl never.

(** * [OSInode] *)

Record OSInode := mkOSInode {
  readable : bool;
  writable : bool;
  offset : Z;
  inode : Inode;
}.

Definition OSInode_new (r w : bool) (i : Inode) : OSInode := mkOSInode r w 0 i.

Definition set_offset (off : Z) (o : OSInode) : OSInode := mkOSInode (readable o) (writable o) off (inode o).

(** The [loop] of [read_all]; [buffer] keeps its contents between rounds. *)
Fixpoint read_all_loop (fuel : nat) (inner : OSInode) (buffer v : list Z) : io (list Z * OSInode) :=
  match fuel with
  | O => io_res (Panic OutOfFuel)
  | S fuel' =>
      '(len, buffer') ← Vfs.read_at (inode inner) (offset inner) buffer;
      if len =? 0 then mret (v, inner)
      else read_all_loop fuel' (set_offset (uadd (offset inner) len) inner) buffer'
             (v ++ take (Z.to_nat len) buffer')
  end.

(** Every round but the last reads at least one byte of a chunk, and all but the last
    two read a whole one. *)
Definition read_all_fuel : nat := Z.to_nat (MAX_SIZE / 512 + 2).

Definition read_all (self : OSInode) : io (list Z * OSInode) :=
  read_all_loop read_all_fuel self (replicate 512 0) [].

Fixpoint read_slices (bufs : list (list Z)) (inner : OSInode) (total_read_size : Z)
  : io (Z * list (list Z) * OSInode) :=
  match bufs with
  | [] => mret (total_read_size, [], inner)
  | slice :: rest =>
      '(read_size, slice') ← Vfs.read_at (inode inner) (offset inner) slice;
      if read_size =? 0 then mret (total_read_size, slice' :: rest, inner)
      else
        '(total, rest', inner') ← read_slices rest (set_offset (uadd (offset inner) read_size) inner)
                                    (uadd total_read_size read_size);
        mret (total, slice' :: rest', inner')
  end.

Definition OSInode_read (self : OSInode) (bufs : list (list Z)) : io (Z * list (list Z) * OSInode) :=
  read_slices bufs self 0.

Section Ops.
Context (fs : EasyFileSystem).

Fixpoint write_slices (bufs : list (list Z)) (inner : OSInode) (total_write_size : Z) : io (Z * OSInode) :=
  match bufs with
  | [] => mret (total_write_size, inner)
  | slice :: rest =>
      write_size ← Vfs.write_at fs (inode inner) (offset inner) slice;
      io_assert (write_size =? Z.of_nat (length slice));;
      write_slices rest (set_offset (uadd (offset inner) write_size) inner) (uadd total_write_size write_size)
  end.

Definition OSInode_write (self : OSInode) (bufs : list (list Z)) : io (Z * OSInode) :=
  write_slices bufs self 0.

(** * [OpenFlags] *)

Definition RDONLY : Z := 0.
Definition WRONLY : Z := Z.shiftl 1 0.
Definition RDWR : Z := Z.shiftl 1 1.
Definition CREATE : Z := Z.shiftl 1 9.
Definition TRUNC : Z := Z.shiftl 1 10.

Definition OpenFlags_from_bits (b : Z) : option Z :=
  if Z.land b (Z.lor WRONLY (Z.lor RDWR (Z.lor CREATE TRUNC))) =? b then Some b else None.
Definition flag_contains (flags f : Z) : bool := Z.land flags f =? f.

Definition read_write (flags : Z) : bool * bool :=
  if flags =? 0 then (true, false)
  else if flag_contains flags WRONLY then (false, true)
  else (true, true).

Definition open_file (ROOT_INODE : Inode) (name : list Z) (flags : Z) : io (option OSInode) :=
  let '(r, w) := read_write flags in
  if flag_contains flags CREATE then
    o ← find fs ROOT_INODE name;
    match o with
    | Some inode => clear fs inode;; mret (Some (OSInode_new r w inode))
    | None =>
        o' ← create fs ROOT_INODE name;
        mret (OSInode_new r w <$> o')
    end
  else
    o ← find fs ROOT_INODE name;
    match o with
    | Some inode =>
        (if flag_contains flags TRUNC then clear fs inode else mret tt);;
        mret (Some (OSInode_new r w inode))
    | None => mret None
    end.
End Ops.

(** * [Stdin] and [Stdout] *)

(** One round of the loop of [Stdin::read], with the character [console_getchar]
    returned: [None] when the task is suspended, else the contents of the slices
    with the character stored through the first. *)
Definition Stdin_read (c : Z) (bufs : list (list Z)) : res (option (Z * list (list Z))) :=
  _ ← rassert (Z.of_nat (length (concat bufs)) =? 1);
  if c =? 0 then Ok None
  else
    b0 ← index bufs 0;
    bufs' ← index_set bufs 0 (<[0%nat := c]> b0);
    Ok (Some (1, bufs')).

(** What is printed, slice by slice: [print!] sends one byte per character ([Console]). *)
Fixpoint Stdout_print (bufs : list (list Z)) (console : list Z) : res (list Z) :=
  match bufs with
  | [] => Ok console
  | buffer :: rest => s ← from_utf8 buffer; Stdout_print rest (console ++ put_bytes s)
  end.

Definition Stdout_write (bufs : list (list Z)) (console : list Z) : res (Z * list Z) :=
  console' ← Stdout_print bufs console;
  Ok (Z.of_nat (length (concat bufs)), console').

(** * Lemmas *)

(** Reading whole files, 512 bytes at a time. *)
Lemma read_all_loop_spec e area L o di fuel buffer v :
  file_ok e area L (inode o) di -> 0 <= offset o -> offset o + 512 < 2 ^ 64 -> length buffer = 512%nat ->
  Z.max 0 (size di - offset o) <= 512 * (Z.of_nat fuel - 1) ->
  wp (read_all_loop fuel o buffer v) L [] (fun r L' =>
    r = (v ++ fbytes L di (offset o) (Z.max 0 (size di - offset o)), set_offset (Z.max (offset o) (size di)) o) /\
    L' = L).
Proof.
  revert o buffer v. induction fuel as [|fuel IH]; intros o buffer v Hf Ho Ho' Hb Hm; [|cbn [read_all_loop]].
  { lia. }
  pose proof (if_size _ _ _ (fo_inode _ _ _ _ _ Hf)) as Hsz. unfold MAX_SIZE in Hsz.
  apply wp_bind. eapply wp_mono; [apply (vfs_read_spec e area L (inode o) di (offset o) buffer); [done|done|lia]|].
  intros r L' _ _ [-> ->]. cbv zeta. rewrite Hb. set (n := Z.max 0 (Z.min (Z.of_nat 512) (size di - offset o))).
  destruct (n =? 0) eqn:En; bool_to_Prop.
  - apply wp_ret. split; [|done]. rewrite (Z.max_l 0) by lia. rewrite Z.max_l by lia. cbn.
    rewrite app_nil_r. by destruct o.
  - rewrite uadd_small by lia. rewrite take_app_length' by (rewrite length_fbytes; lia).
    eapply wp_mono; [apply IH|].
    + done.
    + cbn. lia.
    + cbn. lia.
    + rewrite length_app, length_fbytes, length_drop. lia.
    + cbn. lia.
    + intros r L' _ _ [-> ->]. split; [|done]. cbn [offset set_offset inode readable writable].
      rewrite <- app_assoc. f_equal.
      * f_equal. rewrite <- fbytes_add by lia. f_equal. lia.
      * unfold set_offset. cbn. f_equal. lia.
Qed.

Lemma read_all_spec e area L o di :
  file_ok e area L (inode o) di -> 0 <= offset o < 2 ^ 63 ->
  wp (read_all o) L [] (fun r L' =>
    r = (fbytes L di (offset o) (Z.max 0 (size di - offset o)), set_offset (Z.max (offset o) (size di)) o) /\ L' = L).
Proof.
  intros Hf Ho. pose proof (if_size _ _ _ (fo_inode _ _ _ _ _ Hf)) as Hsz. unfold read_all.
  eapply wp_mono; [apply (read_all_loop_spec e area L o di); [done|lia|lia|done|]|done].
  unfold read_all_fuel. rewrite Z2Nat.id by (unfold MAX_SIZE; lia). unfold MAX_SIZE in *. lia.
Qed.

(** Reading into the slices of a user buffer. *)
Lemma read_slices_spec e area L di bufs o total :
  file_ok e area L (inode o) di -> 0 <= offset o -> 0 <= total ->
  Forall (fun b => b <> []) bufs ->
  offset o + Z.of_nat (length (concat bufs)) < 2 ^ 64 -> total + Z.of_nat (length (concat bufs)) < 2 ^ 64 ->
  let n := Z.max 0 (Z.min (Z.of_nat (length (concat bufs))) (size di - offset o)) in
  wp (read_slices bufs o total) L [] (fun '(t, bufs', o') L' =>
    t = total + n /\ concat bufs' = fbytes L di (offset o) n ++ drop (Z.to_nat n) (concat bufs) /\
    length <$> bufs' = length <$> bufs /\ o' = set_offset (offset o + n) o /\ L' = L).
Proof.
  intros Hf. revert o total Hf. induction bufs as [|b bufs IH]; intros o total Hf Ho Ht Hne Hlen Htot n.
  { cbn [read_slices]. apply wp_ret. assert (n = 0) as -> by (subst n; simpl; lia). cbn.
    rewrite !Z.add_0_r. split_and!; try done. by destruct o. }
  apply Forall_cons in Hne as [Hb Hne]. cbn [read_slices].
  assert (Hn : n = Z.max 0 (Z.min (Z.of_nat (length b) + Z.of_nat (length (concat bufs))) (size di - offset o))).
  { subst n. cbn [concat]. rewrite length_app. lia. }
  clearbody n. cbn [concat] in *. rewrite length_app in *.
  assert (Hlb : 0 < Z.of_nat (length b)) by (destruct b; [done|simpl; lia]).
  apply wp_bind. eapply wp_mono; [apply (vfs_read_spec e area L (inode o) di (offset o) b); [done|done|lia]|].
  intros r L' _ _ [-> ->]. cbv zeta. set (k := Z.max 0 (Z.min (Z.of_nat (length b)) (size di - offset o))).
  destruct (k =? 0) eqn:Ek; bool_to_Prop.
  - apply wp_ret. assert (n = 0) as -> by lia. rewrite Ek. cbn. rewrite !Z.add_0_r. split_and!; try done. by destruct o.
  - rewrite !uadd_small by lia. apply wp_bind. eapply wp_mono; [apply (IH (set_offset (offset o + k) o) (total + k))|].
    + done.
    + cbn. lia.
    + lia.
    + done.
    + cbn. lia.
    + lia.
    + intros [[t bufs'] o'] L' _ _ (-> & Hc & Hl & -> & ->). apply wp_ret. cbn [offset set_offset] in *.
      set (m := Z.max 0 (Z.min (Z.of_nat (length (concat bufs))) (size di - (offset o + k)))) in *.
      assert (n = k + m) as -> by lia. split_and!; [lia| | |unfold set_offset; cbn; f_equal; lia|done].
      * cbn [concat]. rewrite Hc. rewrite (fbytes_add L di (offset o) k m) by lia. rewrite <- !app_assoc. f_equal.
        destruct (decide (k = Z.of_nat (length b))) as [E|E].
        -- rewrite (drop_ge b) by lia. cbn [app]. rewrite (drop_app_ge b) by lia. do 2 f_equal. lia.
        -- assert (Hm : m = 0) by lia. assert (Hkb : (Z.to_nat k <= length b)%nat) by lia.
           rewrite Hm, Z.add_0_r, (drop_app_le b) by done. done.
      * cbn. rewrite Hl. f_equal. rewrite length_app, length_fbytes, length_drop. lia.
Qed.

(** What was written is what the file has. *)
Lemma written_fbytes e area self off bs L di L' di' :
  written_file e area self off bs L di L' di' -> fbytes L' di' off (Z.of_nat (length bs)) = bs.
Proof.
  intros Hwf. unfold fbytes. apply list_eq. intros k. rewrite list_lookup_fmap. destruct (decide (k < length bs)%nat) as [Hk|Hk].
  - rewrite lookup_seqZ_lt by lia. cbn. rewrite (wf_new _ _ _ _ _ _ _ _ _ Hwf) by lia.
    rewrite list_lookup_lookup_total_lt by lia. do 2 f_equal. lia.
  - by rewrite lookup_seqZ_ge, lookup_ge_None_2 by lia.
Qed.

(** Two writes in a row are one write. *)
Lemma written_app e area self off b1 b2 L di L1 d1 L2 d2 :
  0 <= off -> 0 <= size di ->
  written_file e area self off b1 L di L1 d1 ->
  written_file e area self (off + Z.of_nat (length b1)) b2 L1 d1 L2 d2 ->
  written_file e area self off (b1 ++ b2) L di L2 d2.
Proof.
  intros Ho Hsz [Hf1 Hs1 Ht1 Hn1 Ho1 Hot1 Hfr1 Hi1] [Hf2 Hs2 Ht2 Hn2 Ho2 Hot2 Hfr2 Hi2].
  split; try done; rewrite ?length_app.
  - lia.
  - by rewrite Ht2.
  - intros k Hk. destruct (decide (k < off + Z.of_nat (length b1))).
    + rewrite Ho2, Hn1, lookup_total_app_l by lia. done.
    + rewrite Hn2, lookup_total_app_r by lia. f_equal. lia.
  - intros k Hk Hnk. rewrite Ho2, Ho1 by lia. done.
  - intros f2 d Hf Hd. destruct (Hot1 f2 d Hf Hd) as (Hu1 & Hf' & Hd').
    destruct (Hot2 f2 d Hf' Hd') as (Hu2 & Hf'' & Hd''). split_and!; [by eapply untouched_trans|done|done].
  - lia.
  - intros id Hid Hne. by rewrite Hi2, Hi1.
Qed.

Lemma write_slices_spec e area bufs o total L di :
  file_ok e area L (inode o) di -> 0 <= offset o -> 0 <= total -> bufs <> [] ->
  Forall (fun b => b <> []) bufs -> Forall bytes_ok bufs ->
  offset o + Z.of_nat (length (concat bufs)) <= MAX_SIZE -> total + Z.of_nat (length (concat bufs)) < 2 ^ 64 ->
  count (_data_blocks (Z.max (size di) (offset o + Z.of_nat (length (concat bufs))))) - count (data_blocks di) <=
    Z.of_nat (length (free_list L (data_bitmap e) area)) ->
  wp (write_slices e bufs o total) L [] (fun r L' =>
    r = (total + Z.of_nat (length (concat bufs)), set_offset (offset o + Z.of_nat (length (concat bufs))) o) /\
    exists di', written_file e area (inode o) (offset o) (concat bufs) L di L' di').
Proof.
  revert o total L di. induction bufs as [|b bufs IH]; intros o total L di Hf Ho Ht Hnil Hne Hby Hmax Htot Hfree; [done|].
  apply Forall_cons in Hne as [Hb Hne]. apply Forall_cons in Hby as [Hbb Hby].
  pose proof (if_size _ _ _ (fo_inode _ _ _ _ _ Hf)) as Hsz.
  assert (HM : MAX_SIZE < 2 ^ 60) by done.
  cbn [write_slices concat] in *. rewrite length_app, Nat2Z.inj_add in *. set (l1 := Z.of_nat (length b)) in *.
  set (l2 := Z.of_nat (length (concat bufs))) in *.
  assert (Hmono : forall x y, 0 <= x <= y -> y <= MAX_SIZE -> count (_data_blocks x) <= count (_data_blocks y)).
  { intros x y Hx Hy. rewrite !data_blocks_spec by lia. apply count_mono. lia. }
  apply wp_bind. eapply wp_mono; [apply (vfs_write_spec e area L (inode o) di (offset o) b); try done; try lia|].
  { fold l1. pose proof (Hmono (Z.max (size di) (offset o + l1)) (Z.max (size di) (offset o + (l1 + l2))) ltac:(lia) ltac:(lia)). lia. }
  intros n L1 _ _ [-> [d1 Hw]]. apply wp_bind, wp_assert; [by apply Z.eqb_eq|]. fold l1. rewrite !uadd_small by lia.
  destruct bufs as [|b2 bufs].
  { cbn [write_slices]. apply wp_ret. cbn [concat] in *. subst l2. cbn [length] in *. rewrite !Z.add_0_r, app_nil_r.
    split; [done|]. by exists d1. }
  pose proof (wf_size _ _ _ _ _ _ _ _ _ Hw) as Hs1. pose proof (wf_free _ _ _ _ _ _ _ _ _ Hw) as Hf1. fold l1 in Hs1.
  eapply wp_mono; [apply (IH (set_offset (offset o + l1) o) (total + l1) L1 d1); try done; cbn [offset set_offset inode]; fold l2|].
  - apply Hw.
  - lia.
  - lia.
  - lia.
  - lia.
  - rewrite Hf1. unfold data_blocks in *. rewrite Hs1.
    replace (Z.max (Z.max (size di) (offset o + l1)) (offset o + l1 + l2)) with (Z.max (size di) (offset o + (l1 + l2))) by lia.
    lia.
  - intros r L2 _ _ [-> [d2 Hw2]]. cbn [offset set_offset inode] in *. split.
    + f_equal; [lia|]. unfold set_offset. cbn. f_equal. lia.
    + exists d2. apply (written_app e area (inode o) (offset o) b _ L di L1 d1); try done. lia.
Qed.

(** * Opening files *)

(** The root directory of a volume. *)
Record volume (e : EasyFileSystem) (area : Z) (L : gmap Z (list Z)) (root : Inode) (di : DiskInode) : Prop := {
  vo_file : file_ok e area L root di;
  vo_dir : dir_ok L di;
  vo_entries : (32 | size di);
  vo_room : size di + 32 <= MAX_SIZE;
  vo_place : inode_area_start_block e <= disk_id root;
}.

Definition good_name (nm : list Z) : Prop :=
  bytes_ok nm /\ Forall (fun b => b <> 0) nm /\ is_utf8 (length nm) nm = true /\
  Z.of_nat (length nm) <= NAME_LENGTH_LIMIT.

(** What opening [nm] for creation needs: an existing file that is not the root, or a
    free inode. *)
Definition can_create (e : EasyFileSystem) (area : Z) (L : gmap Z (list Z)) (root : Inode) (di : DiskInode)
  (nm : list Z) : Prop :=
  match assoc nm (dir L di) with
  | Some id => exists d, file_ok e area L (inode_slot e id) d /\ disjoint_files L (inode_slot e id) d root di /\ is_u32 id
  | None => exists n, inode_free e L n /\ apart (inode_slot e n) root
  end.

(** An opened file: [f] is the inode the directory has for [nm]. *)
Record opened (e : EasyFileSystem) (area : Z) (root : Inode) (nm : list Z) (f : Inode)
  (L : gmap Z (list Z)) (d di : DiskInode) : Prop := {
  op_file : file_ok e area L f d;
  op_root : file_ok e area L root di;
  op_dir : dir_ok L di;
  op_apart : disjoint_files L f d root di;
  op_find : exists id, assoc nm (dir L di) = Some id /\ f = inode_slot e id /\ is_u32 id;
}.

(** The first part of the disk is far from the end of the [u32] block numbers. *)
Lemma slot_id e area L f d id :
  file_ok e area L f d -> f = inode_slot e id -> is_u32 id -> 0 <= inode_area_start_block e ->
  get_inode_block_disk_id e id = (disk_id f, block_offset f).
Proof.
  intros Hf -> Hid Ha. unfold is_u32 in Hid. pose proof (fo_before _ _ _ _ _ Hf) as Hb. cbn [disk_id inode_slot] in Hb.
  pose proof (da_bound _ _ _ (fo_data _ _ _ _ _ Hf)). pose proof (da_after _ _ _ (fo_data _ _ _ _ _ Hf)).
  pose proof (us_blocks _ _ _ (da_usable _ _ _ (fo_data _ _ _ _ _ Hf))).
  rewrite get_inode_block_disk_id_spec by lia. done.
Qed.

Lemma open_create_spec e area L root di nm flags :
  volume e area L root di -> good_name nm -> can_create e area L root di nm ->
  0 <= inode_area_start_block e -> flag_contains flags CREATE = true ->
  count (_data_blocks (size di + 32)) - count (data_blocks di) <= Z.of_nat (length (free_list L (data_bitmap e) area)) ->
  wp (open_file e root nm flags) L [] (fun o L1 => exists f d1 di1,
    o = Some (OSInode_new (read_write flags).1 (read_write flags).2 f) /\ opened e area root nm f L1 d1 di1 /\
    size d1 = 0 /\
    Z.of_nat (length (free_list L (data_bitmap e) area)) - (count (_data_blocks (size di + 32)) - count (data_blocks di)) <=
      Z.of_nat (length (free_list L1 (data_bitmap e) area))).
Proof.
  intros [Hf Hdir Hdiv Hroom Hplace] (Hby & Hnz & Hutf & Hlen) Hcan Ha Hfl Hfree. unfold open_file.
  destruct (read_write flags) as [r w]. rewrite Hfl. cbn [fst snd].
  apply wp_bind. eapply wp_mono; [by eapply find_spec|]. intros o L0 _ _ [-> ->].
  unfold can_create in Hcan. destruct (assoc nm (dir L di)) as [id|] eqn:Eas.
  - destruct Hcan as (d & Hfd & Hdis & Hid). rewrite (slot_id e area L (inode_slot e id) d id) by done.
    apply wp_bind. eapply wp_mono; [by apply (vfs_clear_spec e area L (inode_slot e id) d)|].
    intros _ L1 _ _ [d1 Hc]. apply wp_ret. exists (inode_slot e id), d1, di. split; [done|].
    destruct (cf_others _ _ _ _ _ _ _ Hc root di Hf Hdis) as [Hun Hf1].
    destruct (untouched_dir _ _ _ _ Hun (if_size _ _ _ (fo_inode _ _ _ _ _ Hf)) Hdir) as [Ed Hd1].
    pose proof (cf_size _ _ _ _ _ _ _ Hc) as Hs1. split_and!; [|done|].
    + split; [apply Hc|done|done| |].
      * split; [apply Hdis|]. assert (data_blocks d1 = 0) as -> by (unfold data_blocks; by rewrite Hs1).
        by intros ? ?%elem_of_nil.
      * exists id. by rewrite Ed.
    + pose proof (free_list_mono L L1 (data_bitmap e) area) as Hm.
      assert (length (free_list L (data_bitmap e) area) <= length (free_list L1 (data_bitmap e) area))%nat.
      { apply Hm. intros j Hj Hb. apply (cf_bits _ _ _ _ _ _ _ Hc) in Hb as [? _]; [done|].
        pose proof (fo_area _ _ _ _ _ Hf). lia. }
      pose proof (if_size _ _ _ (fo_inode _ _ _ _ _ Hf)).
      assert (count (data_blocks di) <= count (_data_blocks (size di + 32))); [|lia].
      unfold data_blocks. rewrite !data_blocks_spec by lia. apply count_mono. lia.
  - destruct Hcan as (n & Hn & Hap). apply wp_bind.
    eapply wp_mono; [by apply (create_new_spec e area L root di nm n)|].
    intros o L1 _ _ [-> [di1 [Hf1 Hd1 Ed Hnew _ _ _ _ Hcf _]]]. apply wp_ret.
    exists (inode_slot e n), (DiskInode_initialize File), di1. split; [done|]. split_and!; [|done|].
    + split; [done|done|done| |].
      * split; [exact Hap|]. by intros ? ?%elem_of_nil.
      * exists n. rewrite Ed, assoc_snoc by done. split_and!; [done|done|].
        pose proof (if_range _ _ _ Hn). pose proof (if_u32 _ _ _ Hn). unfold is_u32. lia.
    + lia.
Qed.

(** Opening a file that exists, for reading. *)
Lemma open_rdonly_spec e area L root di nm f d :
  opened e area root nm f L d di -> 0 <= inode_area_start_block e ->
  wp (open_file e root nm RDONLY) L [] (fun o L1 => o = Some (OSInode_new true false f) /\ L1 = L).
Proof.
  intros [Hf Hr Hd _ (id & Ea & Ef & Hid)] Ha. unfold open_file.
  change (read_write RDONLY) with (true, false). change (flag_contains RDONLY CREATE) with false.
  change (flag_contains RDONLY TRUNC) with false. cbn iota. apply wp_bind.
  eapply wp_mono; [by eapply find_spec|]. intros o L0 _ _ [-> ->]. rewrite Ea, (slot_id e area L f d id) by done.
  apply wp_bind, wp_ret, wp_ret. by destruct f.
Qed.

(** Writing to the opened file keeps the directory. *)
Lemma opened_written e area root nm f L d di bs L' d' :
  opened e area root nm f L d di -> written_file e area f 0 bs L d L' d' ->
  opened e area root nm f L' d' di.
Proof.
  intros [Hf Hr Hd Hap (id & Ea & Ef & Hid)] Hw.
  destruct (wf_others _ _ _ _ _ _ _ _ _ Hw root di Hr Hap) as (Hun & Hr' & Hap').
  destruct (untouched_dir _ _ _ _ Hun (if_size _ _ _ (fo_inode _ _ _ _ _ Hr)) Hd) as [Ed Hd'].
  split; [apply Hw|done|done|done|]. exists id. by rewrite Ed.
Qed.

(** Printing slice by slice. *)
Lemma stdout_print_ok bufs console :
  Forall (fun b => is_utf8 (length b) b = true) bufs -> Stdout_print bufs console = Ok (console ++ concat (put_bytes <$> bufs)).
Proof.
  intros H. revert console. induction H as [|b bufs Hb _ IH]; intros c; cbn [Stdout_print concat fmap list_fmap]; [by rewrite app_nil_r|].
  unfold from_utf8. rewrite Hb. cbn [mbind res_bind]. by rewrite IH, <- app_assoc.
Qed.

Lemma stdout_print_bad bufs console :
  Exists (fun b => is_utf8 (length b) b = false) bufs -> Stdout_print bufs console = Panic UnwrapNone.
Proof.
  intros H. revert console. induction H as [b bufs Hb|b bufs _ IH]; intros c; cbn [Stdout_print]; unfold from_utf8;
    [by rewrite Hb|]. destruct (is_utf8 (length b) b); cbn [mbind res_bind]; [apply IH|done].
Qed.

(** * The theorems *)

(** Save under a name, open the name again and read it all. *)
Definition save_and_load (e : EasyFileSystem) (root : Inode) (nm : list Z) (bufs : list (list Z))
  : io (option (Z * list Z)) :=
  o ← open_file e root nm (Z.lor WRONLY CREATE);
  match o with
  | Some w =>
      '(n, _) ← OSInode_write e w bufs;
      o' ← open_file e root nm RDONLY;
      match o' with
      | Some r => '(data, _) ← read_all r; mret (Some (n, data))
      | None => mret None
      end
  | None => mret None
  end.

Section Device.
Context {D : Type} {BD : BlockDevice D} {HD : BlockDeviceLaws D}.

(** C7: What a program saves is what it loads: opening a name with [CREATE], whether or
    not the file existed, writing a user buffer of any number of slices to it, opening
    the name again for reading and reading the whole file gives exactly the bytes
    written, through the file objects, the directory, the inode index, the block
    bitmap, the cache and any device with enough free blocks. *)
Theorem save_and_load_roundtrip (s : store D) e area L root di nm bufs :
  rep s L [] -> disk_ok L -> volume e area L root di -> good_name nm -> can_create e area L root di nm ->
  0 <= inode_area_start_block e -> bufs <> [] -> Forall (fun b => b <> []) bufs -> Forall bytes_ok bufs ->
  Z.of_nat (length (concat bufs)) <= MAX_SIZE ->
  count (_data_blocks (size di + 32)) - count (data_blocks di) +
    count (_data_blocks (Z.of_nat (length (concat bufs)))) <= Z.of_nat (length (free_list L (data_bitmap e) area)) ->
  exists s' L', crun (save_and_load e root nm bufs) s =
      Ok (Some (Z.of_nat (length (concat bufs)), concat bufs), s') /\ rep s' L' [].
Proof.
  intros Hrep HL Hvo Hnm Hcan Ha Hnil Hne Hby Hmax Hfree. set (len := Z.of_nat (length (concat bufs))) in *.
  assert (Hc0 : 0 <= count (_data_blocks len)).
  { rewrite data_blocks_spec by lia. apply (count_mono 0). lia. }
  assert (Hwp : wp (save_and_load e root nm bufs) L [] (fun r _ => r = Some (len, concat bufs))).
  { unfold save_and_load. apply wp_bind.
    eapply wp_mono; [apply (open_create_spec e area L root di nm); try done; lia|].
    intros o L1 _ _ (f & d1 & di1 & -> & Hop & Hs1 & Hfree1).
    change (read_write (Z.lor WRONLY CREATE)) with (false, true). cbn [fst snd].
    assert (Hdb : data_blocks d1 = 0) by (unfold data_blocks; by rewrite Hs1).
    apply wp_bind. eapply wp_mono; [apply (write_slices_spec e area bufs (OSInode_new false true f) 0 L1 d1); try done|].
    { apply Hop. }
    { fold len. unfold MAX_SIZE in Hmax. lia. }
    { cbn [offset OSInode_new]. fold len. rewrite Hdb, Hs1. rewrite Z.max_r by lia. change (count 0) with 0.
      rewrite Z.add_0_l. lia. }
    intros r L2 _ _ [-> [d2 Hw]]. cbn [inode offset OSInode_new] in Hw. fold len.
    pose proof (opened_written _ _ _ _ _ _ _ _ _ _ _ Hop Hw) as Hop2. apply wp_bind.
    eapply wp_mono; [by eapply open_rdonly_spec|]. intros o L3 _ _ [-> ->]. apply wp_bind.
    eapply wp_mono; [apply (read_all_spec e area L2 (OSInode_new true false f) d2); [apply Hop2|done]|].
    intros r L3 _ _ [-> ->]. apply wp_ret. cbn [offset OSInode_new inode].
    pose proof (wf_size _ _ _ _ _ _ _ _ _ Hw) as Hs2. fold len in Hs2.
    replace (Z.max 0 (size d2 - 0)) with len by lia. do 3 f_equal. apply list_eq. intros i.
    destruct (decide (i < length (concat bufs))%nat).
    - rewrite lookup_fbytes by lia. rewrite (wf_new _ _ _ _ _ _ _ _ _ Hw) by lia.
      replace (Z.to_nat (0 + Z.of_nat i - 0)) with i by lia. symmetry. by apply list_lookup_lookup_total_lt.
    - rewrite !lookup_ge_None_2; [done|lia|rewrite length_fbytes; lia]. }
  destruct (wp_crun _ s L [] _ Hwp HL Hrep) as (r & s' & L' & E & Hrep' & ->). by exists s', L'.
Qed.

(** [OSInode::read] on a user buffer of several slices fills them in order with the
    bytes of the file from the handle's offset on, returns how many there were, which
    is less than the size of the buffer only at the end of the file, and advances the
    offset by that number; the rest of the buffer and the disk are unchanged.  So
    consecutive reads of a handle give consecutive parts of the file. *)
Theorem os_inode_read_advances (s : store D) e area L di o bufs :
  rep s L [] -> disk_ok L -> file_ok e area L (inode o) di -> 0 <= offset o -> Forall (fun b => b <> []) bufs ->
  offset o + Z.of_nat (length (concat bufs)) < 2 ^ 64 ->
  let n := Z.max 0 (Z.min (Z.of_nat (length (concat bufs))) (size di - offset o)) in
  exists s' bufs', crun (OSInode_read o bufs) s = Ok ((n, bufs', set_offset (offset o + n) o), s') /\
    rep s' L [] /\ length <$> bufs' = length <$> bufs /\
    concat bufs' = fbytes L di (offset o) n ++ drop (Z.to_nat n) (concat bufs).
Proof.
  intros Hrep HL Hf Ho Hne Hlen n.
  destruct (wp_crun _ s L [] _ (read_slices_spec e area L di bufs o 0 Hf Ho ltac:(lia) Hne Hlen ltac:(lia)) HL Hrep)
    as ([[t bufs'] o'] & s' & L' & E & Hrep' & -> & Hc & Hl & -> & ->). by exists s', bufs'.
Qed.
End Device.

(** [Stdout::write] validates each slice of the user buffer by itself: it prints the characters of the
    buffer and returns its length when every slice is valid UTF-8, and panics the
    kernel otherwise.  In particular it panics on valid text whose only multi-byte
    character is split between two slices, which happens whenever it crosses a page
    boundary of user memory. *)
Theorem stdout_write_validates_slices bufs console :
  (Forall (fun b => is_utf8 (length b) b = true) bufs ->
     Stdout_write bufs console = Ok (Z.of_nat (length (concat bufs)), console ++ concat (put_bytes <$> bufs))) /\
  (Exists (fun b => is_utf8 (length b) b = false) bufs -> Stdout_write bufs console = Panic UnwrapNone) /\
  (forall c1 c2, between 194 223 c1 = true -> cont c2 = true ->
     is_utf8 2 [c1; c2] = true /\ Stdout_write [[c1]; [c2]] console = Panic UnwrapNone).
Proof.
  split_and!.
  - intros H. unfold Stdout_write. by rewrite stdout_print_ok.
  - intros H. unfold Stdout_write. by rewrite stdout_print_bad.
  - intros c1 c2 H1 H2. unfold between in H1. bool_to_Prop.
    assert (H3 : between 0 127 c1 = false).
    { unfold between. apply andb_false_iff. right. apply Z.leb_gt. lia. }
    assert (H4 : between 194 223 c1 = true) by (unfold between; apply andb_true_iff; split; apply Z.leb_le; lia).
    split.
    + cbn [is_utf8]. by rewrite H3, H4, H2.
    + unfold Stdout_write. cbn [Stdout_print]. unfold from_utf8. cbn [is_utf8 length]. by rewrite H3, H4.
Qed.

(** * Witnesses *)

Lemma small_volume : volume small_fs 2 small_blocks small_root small_root_inode.
Proof.
  split; [apply small_root_ok| |by exists 0|by vm_compute|done].
  split; [done|]. intros i Hi. change (0 <= i < 0) in Hi. lia.
Qed.

Lemma save_and_load_roundtrip_witness :
  exists s' L', crun (save_and_load small_fs small_root [102] [[1; 2]; [3]]) (BlockCacheManager_new small_image) =
      Ok (Some (3, [1; 2; 3]), s') /\ rep (HD := BlockFile_laws 5) s' L' [].
Proof.
  destruct small_rep as [Hr Hok].
  apply (save_and_load_roundtrip (HD := BlockFile_laws 5) (BlockCacheManager_new small_image)
    small_fs 2 small_blocks small_root small_root_inode [102] [[1; 2]; [3]]).
  - exact Hr.
  - exact Hok.
  - apply small_volume.
  - split_and!; [by repeat constructor|by repeat constructor|by vm_compute|by vm_compute].
  - exists 1. split; [apply small_inode_free|]. right. cbn. lia.
  - done.
  - done.
  - by repeat constructor.
  - by repeat constructor.
  - by vm_compute.
  - by vm_compute.
Defined.

Lemma os_inode_read_advances_witness :
  exists s' bufs', crun (OSInode_read (mkOSInode true false 30 dir_place) [[9]; [9; 9]]) (BlockCacheManager_new dir_image) =
      Ok ((2, bufs', mkOSInode true false 32 dir_place), s') /\
    rep (HD := BlockFile_laws 4) s' dir_blocks [] /\ length <$> bufs' = [1%nat; 2%nat] /\
    concat bufs' = fbytes dir_blocks dir_inode 30 2 ++ [9].
Proof.
  apply (os_inode_read_advances (HD := BlockFile_laws 4) (BlockCacheManager_new dir_image) tiny_fs 2 dir_blocks
    dir_inode (mkOSInode true false 30 dir_place) [[9]; [9; 9]]).
  - apply dir_image_rep.
  - apply dir_blocks_ok.
  - apply dir_file_ok.
  - cbn. lia.
  - by repeat constructor.
  - by vm_compute.
Defined.
