(* ===== verification/Pack.v ===== *)
(** The disk image packer, easy-fs-fuse/src/main.rs: [easy_fs_pack] formats an image and
    stores every application under its name.  The files of the host are a parameter. *)

From S2P Require Import Prelude BlockCache BlockLogic Bitmap Layout InodeGrowth Efs Vfs Directory Files.

#[local] Ltac Zify.zify_post_hook ::= Z.to_euclidean_division_equations.
#[local] Arguments enc_words : simpl never.
#[local] Arguments dec_words : simpl never.

(** [name_with_ext.drain(name_with_ext.find('.').unwrap()..name_with_ext.len())] *)
Definition DOT : Z := 46.
Definition app_name (name_with_ext : list Z) : res (list Z) :=
  i ← unwrap (find_index (fun c => c =? DOT) name_with_ext);
  Ok (take i name_with_ext).

Fixpoint app_names (entries : list (list Z)) : res (list (list Z)) :=
  match entries with
  | [] => Ok []
  | x :: l => nm ← app_name x; rest ← app_names l; Ok (nm :: rest)
  end.

Section pack.
(** What the host has at [target_path + app]. *)
Context (host_file : list Z -> list Z).

(** One round of [for app in apps]. *)
Definition pack_app (efs : EasyFileSystem) (root : Inode) (app : list Z) : io unit :=
  let all_data := host_file app in
  o ← Vfs.create efs root app;
  inode ← io_res (unwrap o);
  Vfs.write_at efs inode 0 all_data;;
  mret tt.

Definition pack_apps (efs : EasyFileSystem) (root : Inode) (apps : list (list Z)) : io unit :=
  io_fold apps (fun _ app => pack_app efs root app) tt.

(** [entries] is [read_dir(src_path)]; the image has [total] blocks.  The result is what
    the packer prints. *)
Definition easy_fs_pack (total : Z) (entries : list (list Z)) : io (list (list Z)) :=
  efs ← Efs.create (as_u32 total) 1;
  let root := root_inode efs in
  apps ← io_res (app_names entries);
  pack_apps efs root apps;;
  ls root.
End pack.

(** ** The image after some applications *)

Record stored := mkApp { a_name : list Z; a_data : list Z; a_inode : DiskInode }.
Definition used (fs : list stored) : Z := foldr (fun x n => count (data_blocks (a_inode x)) + n) 0 fs.
Definition slot (e : EasyFileSystem) (k : nat) : Inode := inode_slot e (Z.of_nat k + 1).

(** Inode 0 is the root directory; application [k] has inode [k + 1]. *)
Record packed (e : EasyFileSystem) (area total : Z) (L : gmap Z (list Z)) (di : DiskInode) (fs : list stored) : Prop := {
  pk_present : present total L;
  pk_root : file_ok e area L (inode_slot e 0) di;
  pk_dir_ok : dir_ok L di;
  pk_size : size di = 32 * Z.of_nat (length fs);
  pk_dir : dir L di = imap (fun k x => (a_name x, Z.of_nat k + 1)) fs;
  pk_bits j : 0 <= j < blocks (inode_bitmap e) * 4096 -> bit L (inode_bitmap e) j = (j <=? Z.of_nat (length fs));
  pk_file k x : fs !! k = Some x -> file_ok e area L (slot e k) (a_inode x) /\
    size (a_inode x) = Z.of_nat (length (a_data x)) /\ fbytes L (a_inode x) 0 (Z.of_nat (length (a_data x))) = a_data x /\
    disjoint_files L (inode_slot e 0) di (slot e k) (a_inode x);
  pk_pair k l x y : k <> l -> fs !! k = Some x -> fs !! l = Some y -> disjoint_files L (slot e k) (a_inode x) (slot e l) (a_inode y);
  pk_free : Z.of_nat (length (free_list L (data_bitmap e) area)) = area - count (data_blocks di) - used fs;
}.

Lemma slots_apart e i j : 0 <= i -> 0 <= j -> i <> j -> apart (inode_slot e i) (inode_slot e j).
Proof. intros Hi Hj Hne. unfold apart, inode_slot. cbn. lia. Qed.

Lemma disjoint_sym L f1 d1 f2 d2 : disjoint_files L f1 d1 f2 d2 -> disjoint_files L f2 d2 f1 d1.
Proof. intros [Hp Hd]. split; [naive_solver|]. intros id H1 H2. by apply (Hd id). Qed.

Lemma disjoint_untouched L L' f1 d1 f2 d2 :
  disjoint_files L f1 d1 f2 d2 -> untouched L L' f1 d1 -> untouched L L' f2 d2 -> disjoint_files L' f1 d1 f2 d2.
Proof. intros [Hp Hd] (_ & _ & _ & E1) (_ & _ & _ & E2). split; [done|]. by rewrite E1, E2. Qed.

(** A new inode shares no block with any file. *)
Lemma empty_disjoint L f g d : apart f g -> disjoint_files L f (DiskInode_initialize File) g d.
Proof. intros Ha. split; [exact Ha|]. by intros ? ?%elem_of_nil. Qed.

Lemma untouched_bytes L L' f d n : untouched L L' f d -> 0 <= size d <= MAX_SIZE -> n <= size d -> fbytes L' d 0 n = fbytes L d 0 n.
Proof.
  intros (_ & _ & Hb & _) Hs Hn. apply fbytes_same. intros k Hk. apply Hb. unfold data_blocks. rewrite data_blocks_spec by done. lia.
Qed.

Lemma assoc_imap nm (fs : list stored) i : (forall x, x ∈ fs -> a_name x <> nm) -> assoc nm (imap (fun k x => (a_name x, Z.of_nat (i + k) + 1)) fs) = None.
Proof.
  revert i. induction fs as [|x fs IH]; intros i Hno; [done|]. cbn. rewrite decide_False by (apply Hno; by left).
  rewrite <- (IH (S i)) by (intros y Hy; apply Hno; by right). f_equal. apply imap_ext. intros k y _. cbn. do 2 f_equal. lia.
Qed.

Lemma used_snoc fs x : used (fs ++ [x]) = used fs + count (data_blocks (a_inode x)).
Proof. induction fs as [|y fs IH]; [cbn; lia|]. unfold used in *. cbn. rewrite IH. lia. Qed.

Section formatted.
Context (total k area : Z).
Hypothesis Hfits : fits total k.
Hypothesis Hsmall : total <= 2 ^ 30.
#[local] Abbreviation e := (formatted total k).
#[local] Abbreviation root := (inode_slot e 0).

(** The next inode is free. *)
Lemma packed_inode_free L di fs : packed e area total L di fs -> Z.of_nat (length fs) + 1 < k * 4096 -> inode_free e L (Z.of_nat (length fs) + 1).
Proof using Hfits Hsmall.
  intros Hp Hn. pose proof (geometry total k Hfits) as (G1 & G2 & G3 & G4). pose proof Hfits as [Hk Ht]. cbn in G1, G2, G3, G4.
  assert (Hbit : forall j, 0 <= j < k * 4096 -> bit L (inode_bitmap e) j = (j <=? Z.of_nat (length fs))) by (intros j Hj; by apply Hp).
  assert (Hpres : forall id, 0 <= id < total -> is_Some (L !! id)) by apply (pk_present _ _ _ _ _ _ Hp).
  split; try (cbn; lia).
  - split; cbn; [lia..| |intros; apply not_elem_of_nil|simpl; lia]. intros id Hid. apply Hpres. unfold in_region in Hid. cbn in Hid. lia.
  - rewrite Hbit by lia. lia.
  - intros j Hj. rewrite Hbit by lia. lia.
  - apply Hpres. cbn. lia.
Qed.

Lemma present_dom L L' : dom L' = dom L -> present total L -> present total L'.
Proof. intros Hd Hp id Hid. apply elem_of_dom. rewrite Hd. apply elem_of_dom. by apply Hp. Qed.

(** The room one more application needs. *)
Definition room (fs : list stored) (data : list Z) : Prop :=
  Z.of_nat (length fs) + 1 < k * 4096 /\ 32 * (Z.of_nat (length fs) + 1) <= MAX_SIZE /\
  count (_data_blocks (32 * (Z.of_nat (length fs) + 1))) + used fs + count (_data_blocks (Z.of_nat (length data))) <= area.

(** [create] keeps the applications there are. *)
Lemma created_packed L di fs nm L1 di1 :
  packed e area total L di fs -> created e area root nm (Z.of_nat (length fs) + 1) L di L1 di1 ->
  forall j x, fs !! j = Some x -> untouched L L1 (slot e j) (a_inode x) /\ file_ok e area L1 (slot e j) (a_inode x) /\
    disjoint_files L1 root di1 (slot e j) (a_inode x).
Proof using Type.
  intros Hp Hc j x Hj. destruct (pk_file _ _ _ _ _ _ Hp j x Hj) as (Hf & _ & _ & Hd). pose proof (lookup_lt_Some _ _ _ Hj).
  apply (cr_others _ _ _ _ _ _ _ _ _ Hc); [done|done|apply slots_apart; lia|unfold slot; cbn; lia].
Qed.

(** The applications there are survive the two steps that store the next one. *)
Lemma stored_survives L di fs nm L1 di1 data L2 d :
  packed e area total L di fs -> created e area root nm (Z.of_nat (length fs) + 1) L di L1 di1 ->
  written_file e area (slot e (length fs)) 0 data L1 (DiskInode_initialize File) L2 d ->
  file_ok e area L2 root di1 /\ untouched L1 L2 root di1 /\ disjoint_files L2 root di1 (slot e (length fs)) d /\
  forall j x, fs !! j = Some x -> untouched L L2 (slot e j) (a_inode x) /\ file_ok e area L2 (slot e j) (a_inode x) /\
    disjoint_files L2 root di1 (slot e j) (a_inode x) /\ disjoint_files L2 (slot e (length fs)) d (slot e j) (a_inode x).
Proof using Type.
  intros Hp Hc Hw. set (f := slot e (length fs)) in *.
  destruct (wf_others _ _ _ _ _ _ _ _ _ Hw root di1 (cr_dir_file _ _ _ _ _ _ _ _ _ Hc) (disjoint_sym _ _ _ _ _ (cr_apart _ _ _ _ _ _ _ _ _ Hc))) as (Hur & Hfr & Hdr).
  split_and!; [done|done|by apply disjoint_sym|]. intros j x Hj. pose proof (lookup_lt_Some _ _ _ Hj).
  destruct (created_packed L di fs nm L1 di1 Hp Hc j x Hj) as (Hu1 & Hf1 & Hd1).
  destruct (wf_others _ _ _ _ _ _ _ _ _ Hw (slot e j) (a_inode x) Hf1) as (Hu2 & Hf2 & Hd2).
  { apply empty_disjoint, slots_apart; lia. }
  split_and!; [by eapply untouched_trans|done|by eapply disjoint_untouched|done].
Qed.

(** The record of the directory and the files after one more. *)
Lemma packed_snoc L di fs nm L1 di1 data L2 d :
  packed e area total L di fs -> created e area root nm (Z.of_nat (length fs) + 1) L di L1 di1 ->
  written_file e area (slot e (length fs)) 0 data L1 (DiskInode_initialize File) L2 d ->
  dom L2 = dom L -> packed e area total L2 di1 (fs ++ [mkApp nm data d]).
Proof using Hfits.
  intros Hp Hc Hw Hdom. destruct (stored_survives L di fs nm L1 di1 data L2 d Hp Hc Hw) as (Hfr & Hur & Hdn & Hold).
  destruct (untouched_dir _ _ _ _ Hur (if_size _ _ _ (fo_inode _ _ _ _ _ Hfr)) (cr_dir_ok _ _ _ _ _ _ _ _ _ Hc)) as [Edir Hdir2].
  pose proof (geometry total k Hfits) as (G1 & G2 & G3 & G4). pose proof Hfits as [Hk Ht]. cbn in G1, G2, G3, G4.
  split.
  - by apply (present_dom L), Hp.
  - done.
  - done.
  - rewrite (cr_size _ _ _ _ _ _ _ _ _ Hc), (pk_size _ _ _ _ _ _ Hp), length_app. cbn. lia.
  - rewrite Edir, (cr_dir _ _ _ _ _ _ _ _ _ Hc), (pk_dir _ _ _ _ _ _ Hp), imap_app. f_equal. cbn. by rewrite Nat.add_0_r.
  - intros j Hj. rewrite (bit_same L1).
    + rewrite (cr_inodes _ _ _ _ _ _ _ _ _ Hc), (pk_bits _ _ _ _ _ _ Hp), length_app by done. cbn [length]. apply eq_bool_prop_intro. rewrite orb_True, !Is_true_true, Z.eqb_eq, !Z.leb_le. lia.
    + apply (wf_inodes _ _ _ _ _ _ _ _ _ Hw); cbn in *; lia.
  - intros j x Hj. apply lookup_snoc_Some in Hj as [[_ Hj]|[-> <-]].
    + destruct (Hold j x Hj) as (Hu & Hf & Hd & _). destruct (pk_file _ _ _ _ _ _ Hp j x Hj) as (_ & Hs & Hb & _). split_and!; try done.
      rewrite (untouched_bytes L L2 (slot e j)); [done|done|apply Hf|lia].
    + cbn. split_and!; [apply Hw| |by eapply written_fbytes|done].
      rewrite (wf_size _ _ _ _ _ _ _ _ _ Hw). change (size (DiskInode_initialize File)) with 0. lia.
  - intros i j x y Hne Hi Hj. apply lookup_snoc_Some in Hi as [[_ Hi]|[-> <-]], Hj as [[_ Hj]|[-> <-]]; [| | |done].
    + eapply disjoint_untouched; [by apply (pk_pair _ _ _ _ _ _ Hp i j)|by apply Hold..].
    + by apply disjoint_sym, Hold.
    + by apply Hold.
  - rewrite used_snoc, (wf_free _ _ _ _ _ _ _ _ _ Hw), (cr_free _ _ _ _ _ _ _ _ _ Hc), (pk_free _ _ _ _ _ _ Hp).
    rewrite <- (cr_size _ _ _ _ _ _ _ _ _ Hc). change (count (data_blocks (DiskInode_initialize File))) with 0. unfold data_blocks. cbn. lia.
Qed.

Lemma pack_app_spec host L di fs nm :
  packed e area total L di fs -> good_name nm -> (forall x, x ∈ fs -> a_name x <> nm) ->
  bytes_ok (host nm) -> host nm <> [] -> Z.of_nat (length (host nm)) <= MAX_SIZE -> room fs (host nm) ->
  wp (pack_app host e root nm) L [] (fun _ L' => L' !! 0 = L !! 0 /\ exists di' d, packed e area total L' di' (fs ++ [mkApp nm (host nm) d])).
Proof using Hfits Hsmall.
  intros Hp (Hby & Hnz & Hutf & Hlen) Hnew Hdb Hdne Hdmax (Hr1 & Hr2 & Hr3). set (m := Z.of_nat (length fs)) in *. set (data := host nm) in *.
  pose proof (packed_inode_free L di fs Hp Hr1) as Hfree. fold m in Hfree.
  pose proof (pk_size _ _ _ _ _ _ Hp) as Hsz. fold m in Hsz. pose proof (pk_free _ _ _ _ _ _ Hp) as Hfl.
  assert (Hd1 : 0 <= count (_data_blocks (Z.of_nat (length data)))).
  { rewrite data_blocks_spec by lia. apply (count_mono 0). lia. }
  unfold pack_app. fold data. apply wp_bind. eapply wp_mono.
  { apply (create_new_spec e area L root di nm (m + 1)); try done; [apply Hp|apply Hp|exists m; lia|lia| |apply slots_apart; lia|cbn; lia|].
    - rewrite (pk_dir _ _ _ _ _ _ Hp). by apply (assoc_imap nm fs 0).
    - rewrite Hfl, Hsz. replace (32 * m + 32) with (32 * (m + 1)) by lia. lia. }
  intros o L1 HL1 Hdom1 [-> [di1 Hc]]. apply wp_bind. eapply wp_res; [done|]. set (f := inode_slot e (m + 1)) in *.
  pose proof (cr_size _ _ _ _ _ _ _ _ _ Hc) as Hs1. pose proof (cr_free _ _ _ _ _ _ _ _ _ Hc) as Hf1.
  apply wp_bind. eapply wp_mono.
  { apply (vfs_write_spec e area L1 f (DiskInode_initialize File) 0 data); try done; [apply Hc|].
    change (size (DiskInode_initialize File)) with 0. change (count (data_blocks (DiskInode_initialize File))) with 0.
    rewrite Z.add_0_l, Z.max_r by lia. rewrite Hf1, Hfl, Hsz. replace (32 * m + 32) with (32 * (m + 1)) by lia. lia. }
  intros n L2 HL2 Hdom2 [_ [d Hw]]. apply wp_ret. split; [|exists di1, d].
  2: by apply (packed_snoc L di fs nm L1 di1 data L2 d); [..|by rewrite Hdom2].
  pose proof Hfits as [Hk _]. rewrite (wf_inodes _ _ _ _ _ _ _ _ _ Hw) by (cbn; lia). apply (cr_before _ _ _ _ _ _ _ _ _ Hc). cbn. lia.
Qed.
End formatted.

(** ** What is on the device when a program ends *)

Section Durable.
Context {D : Type} {BD : BlockDevice D} {HD : BlockDeviceLaws D}.

(** No cached block waits to be written. *)
Definition clean (s : store D) : Prop := Forall (fun p => modified p.2 = false) (queue s).

Definition keeps_clean {A} (p : io A) : Prop := forall s a s', clean s -> crun p s = Ok (a, s') -> clean s'.
Definition leaves_clean {A} (p : io A) : Prop := forall s a s', crun p s = Ok (a, s') -> clean s'.

Lemma crun_bind {A B} (m : io A) (k : A -> io B) (s : store D) :
  crun (m ≫= k) s = match crun m s with Ok (a, s') => crun (k a) s' | Panic f => Panic f end.
Proof.
  unfold mbind, io_bind. revert s. induction m as [a|f|id c IH|id upd c IH|c IH]; intros s; cbn [io_bind_ crun]; try done.
  - destruct (acquire id s) as [[b s']|f]; [apply IH|done].
  - destruct (release id upd s) as [[b s']|f]; [apply IH|done].
  - destruct (block_cache_sync_all s) as [[b s']|f]; [apply IH|done].
Qed.

(** An empty queue over the device, or one with no block to write, is the disk. *)
Lemma clean_durable s L : rep s L [] -> clean s -> dev_rep (dev s) L.
Proof.
  intros [_ _ _ _ (M & Hd & Hco)] Hc. assert (M = L) as <-; [|done].
  apply map_eq. intros id. destruct Hco as [_ Hdom _ Hin Hout]. destruct (L !! id) as [b|] eqn:EL.
  - destruct (decide (id ∈ (queue s).*1)) as [((id' & c) & -> & Hq)%list_elem_of_fmap|]; [|by apply Hout].
    destruct (Hin _ _ Hq) as (_ & HL & Hm). cbn in EL. rewrite <- EL, HL. apply Hm.
    unfold clean in Hc. rewrite Forall_forall in Hc. by apply (Hc _ Hq).
  - apply not_elem_of_dom. rewrite Hdom. by apply not_elem_of_dom.
Qed.

Lemma leaves_keeps {A} (p : io A) : leaves_clean p -> keeps_clean p.
Proof. intros H s a s' _. apply H. Qed.

Lemma clean_ret {A} (a : A) : keeps_clean (mret a).
Proof. intros s x s' Hc [= _ <-]. done. Qed.

Lemma clean_res {A} (r : res A) : keeps_clean (io_res r).
Proof. destruct r; [apply clean_ret|]. by intros s a s' _ [=]. Qed.

Lemma clean_bind {A B} (m : io A) (k : A -> io B) : keeps_clean m -> (forall a, keeps_clean (k a)) -> keeps_clean (m ≫= k).
Proof. intros Hm Hk s b s' Hc. rewrite crun_bind. destruct (crun m s) as [[a s1]|f] eqn:E; [|done]. apply Hk. by apply (Hm s a). Qed.

Lemma leaves_bind {A B} (m : io A) (k : A -> io B) : leaves_clean m -> (forall a, keeps_clean (k a)) -> leaves_clean (m ≫= k).
Proof. intros Hm Hk s b s'. rewrite crun_bind. destruct (crun m s) as [[a s1]|f] eqn:E; [|done]. apply Hk. by apply (Hm s a). Qed.

Lemma leaves_bind_r {A B} (m : io A) (k : A -> io B) : (forall a, leaves_clean (k a)) -> leaves_clean (m ≫= k).
Proof. intros Hk s b s'. rewrite crun_bind. destruct (crun m s) as [[a s1]|f]; [apply Hk|done]. Qed.

Lemma clean_fold {A S} (l : list A) (body : S -> A -> io S) s : (forall s x, keeps_clean (body s x)) -> keeps_clean (io_fold l body s).
Proof. intros Hb. revert s. induction l as [|x l IH]; intros s; cbn [io_fold]; [apply clean_ret|]. apply clean_bind; [apply Hb|apply IH]. Qed.

Lemma sync_clean d c c' d' : sync (D := D) d c = Ok (c', d') -> modified c' = false.
Proof. unfold sync. destruct (modified c) eqn:Em; [|by intros [= <- _]]. destruct (write_block _ _ _); [|done]. by intros [= <- _]. Qed.

Lemma leaves_sync {A} (a : A) : leaves_clean (io_sync;; mret a).
Proof.
  intros s x s'. cbn [io_sync mbind io_bind io_bind_ crun]. unfold block_cache_sync_all.
  assert (H : forall H q d q' d', sync_loop (D := D) H q d = Ok (q', d') -> Forall (fun p => modified p.2 = false) q').
  { intros H q. induction q as [|[id c] q IH]; intros d q' d'; cbn [sync_loop]; [by intros [= <- _]|].
    case_decide; [done|]. destruct (sync d c) as [[c' d1]|] eqn:Es; [|done]. cbn [mbind res_bind].
    destruct (sync_loop H q d1) as [[q'' d2]|] eqn:El; [|done]. intros [= <- _]. constructor; [by eapply sync_clean|by eapply IH]. }
  destruct (sync_loop _ _ _) as [[q d]|] eqn:E; [|done]. intros [= _ <-]. by apply H in E.
Qed.

Lemma clean_read {T V} (l : layout T) id off (f : T -> io V) : (forall t, keeps_clean (f t)) -> keeps_clean (read l id off f).
Proof.
  intros Hf s v s' Hc. unfold read. cbn [crun]. destruct (acquire id s) as [[b s1]|] eqn:Ea; [|done].
  assert (Hc1 : clean s1).
  { revert Ea. unfold acquire, get_block_cache. destruct (find_index _ _) as [i|].
    - cbn [mbind res_bind]. case_decide; [done|]. destruct (index _ _); [|done]. by intros [= _ <-].
    - destruct (evict s) as [s0|] eqn:Ee; [|done]. cbn [mbind res_bind]. unfold BlockCache_new. destruct (read_block _ _ _); [|done].
      cbn [mbind res_bind]. case_decide; [done|]. destruct (index _ _); [|done]. intros [= _ <-].
      apply Forall_app. split; [|by constructor]. revert Ee. unfold evict. case_match; [|by intros [= <-]].
      destruct (find_index _ _); [|done]. destruct (index _ _); [|done]. cbn [mbind res_bind]. destruct (drop_cache _ _); [|done].
      intros [= <-]. by apply Forall_delete. }
  apply clean_bind; [apply clean_res| |done]. intros t. apply clean_bind; [apply Hf|]. clear. intros v s a s' Hc. cbn [crun].
  unfold release. destruct (find_index _ _) as [i|] eqn:Ei; [|done]. cbn [unwrap mbind res_bind]. intros [= _ <-].
  unfold clean in *. cbn [queue]. by apply Forall_alter.
Qed.
End Durable.

Section Durable_ops.
Context {D : Type} {BD : BlockDevice D} {HD : BlockDeviceLaws D}.

Lemma clean_get_disk_id di i : keeps_clean (get_disk_id di i).
Proof.
  assert (H : forall b j, keeps_clean (read_indirect b j)) by (intros; apply clean_read; intros; apply clean_res).
  unfold get_disk_id. case_match; [apply clean_res|]. case_match; [apply H|]. apply clean_bind; [apply H|intros; apply H].
Qed.

Lemma clean_read_loop fuel di end_ cur p buf : keeps_clean (read_loop fuel di end_ cur p buf).
Proof.
  revert cur p buf. induction fuel as [|fuel IH]; intros cur p buf; cbn [read_loop]; [by intros s a s' _ [=]|].
  apply clean_bind; [apply clean_res|]. intros _. apply clean_bind; [apply clean_get_disk_id|]. intros id.
  apply clean_bind; [apply clean_read; intros; apply clean_res|]. intros b. case_match; [apply clean_ret|apply IH].
Qed.

Lemma clean_ls f : keeps_clean (ls f).
Proof.
  apply clean_read. intros di. apply clean_bind; [apply clean_res|]. intros _. apply clean_fold. intros v i.
  apply clean_bind; [|intros e; apply clean_bind; [apply clean_res|intros; apply clean_ret]].
  apply clean_bind; [unfold Layout.read_at; case_match; [apply clean_ret|apply clean_read_loop]|]. intros [n bs].
  apply clean_bind; [apply clean_res|]. intros; apply clean_ret.
Qed.

(** The packer leaves nothing in the cache. *)
Lemma pack_leaves_clean host total entries : leaves_clean (easy_fs_pack host total entries).
Proof.
  unfold easy_fs_pack. apply leaves_bind.
  - unfold Efs.create. do 4 (apply leaves_bind_r; intros ?). destruct (get_inode_block_disk_id _ _) as [d o].
    apply leaves_bind_r. intros _. apply leaves_sync.
  - intros efs. apply clean_bind; [apply clean_res|]. intros apps. apply clean_bind; [|intros; apply clean_ls].
    apply clean_fold. intros _ app. apply leaves_keeps. apply leaves_bind_r. intros o. apply leaves_bind_r. intros i.
    apply leaves_bind; [|intros; apply clean_ret]. apply leaves_bind_r. intros sz. apply leaves_sync.
Qed.
End Durable_ops.

(** ** The packer *)

(** The blocks the applications need. *)
Definition need (data : list Z) : Z := count (_data_blocks (Z.of_nat (length data))).
Definition total_need (host : list Z -> list Z) (apps : list (list Z)) : Z := foldr (fun a n => need (host a) + n) 0 apps.

Lemma need_nonneg data : Z.of_nat (length data) <= MAX_SIZE -> 0 <= need data.
Proof. intros H. unfold need. rewrite data_blocks_spec by lia. apply (count_mono 0). lia. Qed.

Lemma total_need_app host l1 l2 : total_need host (l1 ++ l2) = total_need host l1 + total_need host l2.
Proof. induction l1 as [|a l1 IH]; [done|]. unfold total_need in *. cbn. rewrite IH. lia. Qed.

Lemma total_need_nonneg host l : Forall (fun a => Z.of_nat (length (host a)) <= MAX_SIZE) l -> 0 <= total_need host l.
Proof. induction 1 as [|a l Ha _ IH]; [done|]. unfold total_need in *. cbn. pose proof (need_nonneg (host a) Ha). lia. Qed.

(** A file that can be stored. *)
Definition good_app (host : list Z -> list Z) (a : list Z) : Prop :=
  good_name a /\ bytes_ok (host a) /\ host a <> [] /\ Z.of_nat (length (host a)) <= MAX_SIZE.

(** The applications stored are the first of the list. *)
Definition stored_as (host : list Z -> list Z) (apps : list (list Z)) (fs : list stored) : Prop :=
  a_name <$> fs = apps /\ Forall (fun x => a_data x = host (a_name x)) fs.

Lemma used_need e area total L di fs host apps :
  packed e area total L di fs -> stored_as host apps fs -> used fs = total_need host apps.
Proof.
  intros Hp [<- Hd]. assert (Hs : Forall (fun x => size (a_inode x) = Z.of_nat (length (a_data x))) fs).
  { apply Forall_lookup. intros j x Hj. by apply (pk_file _ _ _ _ _ _ Hp j x). }
  clear Hp. induction fs as [|x fs IH]; [done|]. apply Forall_cons in Hs as [Hx Hs], Hd as [Hy Hd].
  unfold used, total_need in *. cbn. rewrite IH by done. unfold need, data_blocks. by rewrite Hx, <- Hy.
Qed.

Section image.
Context (total : Z) (host : list Z -> list Z).
Hypothesis Hfits : fits total 1.
Hypothesis Hsmall : total <= 2 ^ 30.
#[local] Abbreviation e := (formatted total 1).
#[local] Abbreviation root := (inode_slot e 0).
#[local] Abbreviation area := (total - data_area_start_block e).

(** The formatted image has no application. *)
Lemma formatted_packed L : disk_ok L -> present total L -> fresh_fs total 1 L -> packed e area total L (DiskInode_initialize Directory) [].
Proof using Hfits Hsmall.
  intros HL Hp [Hsup Hin Hda Hroot Hz]. pose proof (geometry total 1 Hfits) as (G1 & G2 & G3 & G4). pose proof Hfits as [_ Ht].
  assert (HG : data_area_start_block e + blocks (data_bitmap e) * 4096 < 2 ^ 32).
  { unfold formatted, data_bitmap_len in *. cbn in *. lia. }
  assert (Hdl : start_disk_id (data_bitmap e) = 1026) by done.
  split; try done.
  - split; try done.
    + split; [|lia|done]. split; [lia|lia|lia| | |simpl; lia].
      * intros id Hid. apply Hp. unfold in_region in Hid. lia.
      * intros id Hid ->%list_elem_of_singleton. unfold in_region in Hid. cbn in Hid. lia.
    + lia.
    + intros i Hi. apply Hp. lia.
    + split; [by vm_compute| |simpl; lia].
      split; [apply DiskInode_initialize_valid|by vm_compute|constructor|..]; by intros ? ?%elem_of_nil.
    + by intros ? ?%elem_of_nil.
  - split; [done|]. intros i Hi. cbn in Hi. lia.
  - intros j Hj. rewrite Hin by done. cbn [length]. apply eq_bool_prop_intro. rewrite !Is_true_true, Z.eqb_eq, Z.leb_le. lia.
  - assert (Hall : free_list L (data_bitmap e) area = seqZ 0 area).
    { unfold free_list. assert (Hb : Forall (fun j => bit L (data_bitmap e) j = false) (seqZ 0 area)).
      { apply Forall_forall. intros j Hj%elem_of_seqZ. apply Hda. change (blocks (data_bitmap e)) with (data_bitmap_len total 1) in G4. lia. }
      induction Hb as [|j l Hj _ IH]; [done|]. by rewrite filter_cons_True, IH. }
    rewrite Hall, length_seqZ. change (count (data_blocks (DiskInode_initialize Directory))) with 0. cbn [used foldr]. lia.
Qed.

(** [for app in apps] *)
Lemma pack_apps_spec L apps :
  packed e area total L (DiskInode_initialize Directory) [] ->
  NoDup apps -> Forall (good_app host) apps -> Z.of_nat (length apps) < 4096 ->
  count (_data_blocks (32 * Z.of_nat (length apps))) + total_need host apps <= area ->
  wp (pack_apps host e root apps) L [] (fun _ L' => L' !! 0 = L !! 0 /\ exists di fs, packed e area total L' di fs /\ stored_as host apps fs).
Proof using Hfits Hsmall.
  intros H0 Hnd Hgood Hlen Hneed.
  apply (wp_fold _ _ (fun l _ L' => L' !! 0 = L !! 0 /\ exists done_ di fs, apps = done_ ++ l /\ packed e area total L' di fs /\ stored_as host done_ fs)).
  - split; [done|]. exists [], (DiskInode_initialize Directory), []. split_and!; done.
  - intros a l _ L1 [E0 (dn & di & fs & -> & Hp & Hst)]. pose proof (used_need _ _ _ _ _ _ _ _ Hp Hst) as Hu.
    apply Forall_app in Hgood as [Hg1 Hg2]. apply Forall_cons in Hg2 as [(Ha & Hb & Hne & Hm) Hg2].
    assert (Hn : 0 <= total_need host l).
    { apply total_need_nonneg. eapply Forall_impl; [done|]. intros x Hx. apply Hx. }
    pose proof Hst as [Hst1 Hst2]. assert (Hlf : length fs = length dn) by (by rewrite <- Hst1, length_fmap).
    rewrite total_need_app in Hneed. rewrite length_app in Hneed, Hlen. cbn [length total_need foldr] in Hneed, Hlen.
    eapply wp_mono; [apply (pack_app_spec total 1 area Hfits Hsmall host L1 di fs a)|]; try done.
    + intros x Hx Heq. apply NoDup_app in Hnd as (_ & Hd & _). apply (Hd a); [|by left]. rewrite <- Hst1, <- Heq. by apply list_elem_of_fmap_2.
    + unfold room. rewrite Hlf, Hu. split_and!; [lia|unfold MAX_SIZE; lia|]. fold (need (host a)). fold (total_need host l) in Hneed.
      assert (count (_data_blocks (32 * (Z.of_nat (length dn) + 1))) <= count (_data_blocks (32 * Z.of_nat (length dn + S (length l))))); [|lia].
      rewrite !data_blocks_spec by (unfold MAX_SIZE; lia). apply count_mono. lia.
    + intros _ L2 _ _ [E2 (di2 & d & Hp2)]. split; [by rewrite E2|]. exists (dn ++ [a]), di2, (fs ++ [mkApp a (host a) d]).
      rewrite <- app_assoc. split_and!; [done|done|]. split; [by rewrite fmap_app, Hst1|]. apply Forall_app. split; [done|by constructor].
  - intros _ L1 [E0 (dn & di & fs & -> & Hp & Hst)]. split; [done|]. exists di, fs. by rewrite app_nil_r.
Qed.
End image.

(** What the kernel does with the image: [ROOT_INODE], then [open_file] and [read_all]. *)
Definition ROOT_INODE : io (EasyFileSystem * Inode) :=
  efs ← Efs.open;
  mret (efs, root_inode efs).

Definition load_app (name : list Z) : io (option (list Z)) :=
  '(efs, root) ← ROOT_INODE;
  o ← open_file efs root name RDONLY;
  match o with
  | Some r => '(data, _) ← read_all r; mret (Some data)
  | None => mret None
  end.

Lemma assoc_imap_some (fs : list stored) i (j : nat) x :
  NoDup (a_name <$> fs) -> fs !! j = Some x -> assoc (a_name x) (imap (fun k y => (a_name y, Z.of_nat (i + k) + 1)) fs) = Some (Z.of_nat (i + j) + 1).
Proof.
  revert i j. induction fs as [|y fs IH]; intros i j Hnd Hj; [done|]. cbn in Hnd. apply NoDup_cons in Hnd as [Hni Hnd]. destruct j as [|j].
  - injection Hj as ->. cbn. by rewrite decide_True.
  - cbn in Hj. cbn. rewrite decide_False.
    + rewrite <- Nat.add_succ_comm, <- (IH (S i) j Hnd Hj). f_equal. apply imap_ext. intros k z _. cbn. do 2 f_equal. lia.
    + intros Heq. apply Hni. rewrite Heq. apply list_elem_of_fmap_2. by apply list_elem_of_lookup_2 in Hj.
Qed.

Section boot.
Context (total : Z) (host : list Z -> list Z).
Hypothesis Hfits : fits total 1.
#[local] Abbreviation e := (formatted total 1).
#[local] Abbreviation root := (inode_slot e 0).

Lemma formatted_root : root_inode e = root.
Proof using Hfits. pose proof Hfits as [_ Ht]. unfold root_inode. rewrite get_inode_block_disk_id_spec by (cbn; lia). done. Qed.

(** Every stored application loads, and nothing else does. *)
Lemma load_spec L area di fs apps nm :
  holds SuperBlock_layout L 0 0 (super_of total 1) -> packed e area total L di fs -> stored_as host apps fs -> NoDup apps ->
  Z.of_nat (length apps) < 4096 ->
  wp (load_app nm) L [] (fun r _ => r = if bool_decide (nm ∈ apps) then Some (host nm) else None).
Proof using Hfits.
  intros Hsup Hp [Hnames Hdata] Hnd Hlen. unfold load_app, ROOT_INODE. apply wp_bind, wp_bind.
  eapply wp_mono; [apply (open_spec total 1); [done|done|apply not_elem_of_nil|simpl; lia]|].
  intros e' L' _ _ [-> ->]. apply wp_ret. rewrite formatted_root. pose proof (pk_root _ _ _ _ _ _ Hp) as Hr. case_bool_decide as Hin.
  - rewrite <- Hnames in Hin. apply list_elem_of_fmap in Hin as (x & -> & Hx). apply list_elem_of_lookup in Hx as [j Hj].
    destruct (pk_file _ _ _ _ _ _ Hp j x Hj) as (Hf & Hs & Hb & Hd).
    apply wp_bind. eapply wp_mono; [apply (open_rdonly_spec e area L root di (a_name x) (slot e j) (a_inode x)); [|done]|].
    + split; [done|done|apply Hp|by apply disjoint_sym|]. exists (Z.of_nat j + 1). split_and!; [|done|].
      * rewrite (pk_dir _ _ _ _ _ _ Hp). apply (assoc_imap_some fs 0); [by rewrite Hnames|done].
      * apply lookup_lt_Some in Hj. rewrite <- Hnames, length_fmap in Hlen. unfold is_u32. lia.
    + intros o L1 _ _ [-> ->]. apply wp_bind. eapply wp_mono; [by apply (read_all_spec e area L (OSInode_new true false (slot e j)) (a_inode x))|].
      intros r L1 _ _ [-> ->]. apply wp_ret. cbn [OSInode_new offset]. f_equal. rewrite Hs, Z.sub_0_r, Z.max_r, Hb by lia.
      rewrite Forall_forall in Hdata. apply Hdata. by eapply list_elem_of_lookup_2.
  - apply wp_bind. eapply (wp_mono _ _ _ (fun o L1 => o = None /\ L1 = L)); [|intros o L1 _ _ [-> ->]; by apply wp_ret].
    unfold open_file. change (read_write RDONLY) with (true, false). change (flag_contains RDONLY CREATE) with false.
    cbn iota. apply wp_bind. eapply wp_mono; [eapply (find_spec e area L root di nm); [done|apply Hp]|]. intros o L0 _ _ [-> ->].
    rewrite (pk_dir _ _ _ _ _ _ Hp). assert (Hno : assoc nm (imap (fun k x => (a_name x, Z.of_nat k + 1)) fs) = None); [|rewrite Hno; by apply wp_ret].
    apply (assoc_imap nm fs 0). intros x Hx Heq. apply Hin. rewrite <- Hnames, <- Heq. by apply list_elem_of_fmap_2.
Qed.
End boot.

Section Device.
Context {D : Type} {BD : BlockDevice D} {HD : BlockDeviceLaws D}.

(** C8: The image the packer makes is the image the kernel boots from: on any device of
    [total] blocks, whatever it held, [easy_fs_pack] formats the disk, stores every
    application under the name of its source without the extension and prints exactly
    those names; and when the packer has ended and a kernel with an empty cache mounts
    the device alone, opening a name and reading it all gives the bytes of the host file
    for every application, and finds nothing under any other name.  It suffices that the
    names are distinct and fit a directory entry, that the files are not empty and fit
    an inode, and that the blocks of the files and of the directory fit the data area. *)
Theorem packed_image_loads (s : store D) L total host entries apps :
  rep s L [] -> disk_ok L -> present total L -> fits total 1 -> total <= 2 ^ 30 ->
  app_names entries = Ok apps -> NoDup apps -> Forall (good_app host) apps -> Z.of_nat (length apps) < 4096 ->
  count (_data_blocks (32 * Z.of_nat (length apps))) + total_need host apps <= total - data_area_start_block (formatted total 1) ->
  exists s', crun (easy_fs_pack host total entries) s = Ok (apps, s') /\
    forall nm, exists s'', crun (load_app nm) (BlockCacheManager_new (dev s')) =
      Ok (if bool_decide (nm ∈ apps) then Some (host nm) else None, s'').
Proof.
  intros Hrep HL Hpres Hfits Hsmall Happs Hnd Hgood Hlen Hneed. pose proof Hfits as [_ Ht].
  assert (Hwp : wp (easy_fs_pack host total entries) L [] (fun r L' => r = apps /\ disk_ok L' /\
    holds SuperBlock_layout L' 0 0 (super_of total 1) /\
    exists di fs, packed (formatted total 1) (total - data_area_start_block (formatted total 1)) total L' di fs /\ stored_as host apps fs)).
  { unfold easy_fs_pack. apply wp_bind. unfold as_u32. rewrite wrap_small by lia. eapply wp_mono; [by apply (create_spec total 1)|].
    intros e L1 HL1 Hd1 (-> & Hff & _). rewrite formatted_root by done. apply wp_bind. eapply wp_res; [done|]. apply wp_bind.
    eapply wp_mono; [apply (pack_apps_spec total host Hfits Hsmall L1 apps); try done|].
    { apply formatted_packed; try done. by apply (present_dom total L). }
    intros _ L2 HL2 _ [E0 (di & fs & Hp & Hst)]. eapply wp_mono; [eapply ls_spec; apply Hp|]. intros r L3 HL3 _ [-> ->].
    split_and!; [|done| |by exists di, fs].
    - rewrite (pk_dir _ _ _ _ _ _ Hp). destruct Hst as [<- _]. rewrite fmap_imap. apply list_eq. intros i.
      rewrite list_lookup_imap, list_lookup_fmap. by destruct (fs !! i).
    - destruct (ff_super _ _ _ Hff) as (b & Hb & Hdec). exists b. by rewrite E0. }
  destruct (wp_crun _ s L [] _ Hwp HL Hrep) as (r & s' & L' & E & Hrep' & -> & HL' & Hsup & di & fs & Hp & Hst).
  exists s'. split; [done|]. intros nm.
  assert (Hboot : rep (BlockCacheManager_new (dev s')) L' []).
  { apply new_rep; [|intros i b Hb; by apply (HL' _ _ Hb)]. apply clean_durable; [done|]. by eapply pack_leaves_clean. }
  pose proof (load_spec total host Hfits L' _ di fs apps nm Hsup Hp Hst Hnd Hlen) as Hload.
  destruct (wp_crun _ _ L' [] _ Hload HL' Hboot) as (r & s'' & L'' & E' & _ & ->). by exists s''.
Qed.
End Device.

(** ** Witness: two programs packed on a blank disk *)

Definition demo_host (nm : list Z) : list Z := match nm with [97] => [1; 2; 3] | _ => [7] end.

Lemma packed_image_loads_witness :
  exists s', crun (D := BlockFile.file) (easy_fs_pack demo_host 1100 [[97; 46; 114; 115]; [98; 46; 99]])
      (BlockCacheManager_new (replicate (Z.to_nat (512 * 1100)) 0)) = Ok ([[97]; [98]], s') /\
    exists s'', crun (load_app [97]) (BlockCacheManager_new (dev s')) = Ok (Some [1; 2; 3], s'').
Proof.
  destruct (packed_image_loads (HD := BlockFile_laws 1100) (BlockCacheManager_new (replicate (Z.to_nat (512 * 1100)) 0)) (blank 1100) 1100 demo_host
    [[97; 46; 114; 115]; [98; 46; 99]] [[97]; [98]]) as (s' & E & Hload).
  - apply blank_rep. lia.
  - apply blank_disk_ok.
  - apply blank_present.
  - unfold fits. lia.
  - lia.
  - reflexivity.
  - apply (bool_decide_unpack _). by vm_compute.
  - repeat constructor; cbn; lia || done.
  - cbn. lia.
  - by vm_compute.
  - exists s'. split; [exact E|]. destruct (Hload [97]) as [s'' E']. exists s''. exact E'.
Defined.
