(* ===== verification/Buddy.v ===== *)
(** The kernel heap: buddy-allocator/src/lib.rs and buddy-allocator/src/linked_list.rs.

    Free blocks of [2^class] bytes are kept in one singly linked list per class,
    threaded through the free blocks themselves: the first word of a free block is
    the address of the next one.  [heap] is those words and the 32 list heads, and
    the operations are the pointer manipulations of the source.  [rep] relates them
    to lists of addresses; [heap_ok] is the invariant that makes the allocator correct:
    every byte of the heap is in exactly one block, free or handed out. *)

From S2P Require Import Prelude.

#[local] Ltac Zify.zify_post_hook ::= Z.to_euclidean_division_equations.

(** ** Linked lists

    A [LinkedList] is a head pointer; [words] is the memory the nodes live in.
    Null is 0. *)

Record heap := mkHeap {
  heads : list Z;
  words : gmap Z Z;
}.

Definition word (h : heap) (p : Z) : Z := default 0 (words h !! p).
Definition store (p v : Z) (h : heap) : heap := mkHeap (heads h) (<[p := v]> (words h)).
Definition set_head (c p : Z) (h : heap) : heap := mkHeap (<[Z.to_nat c := p]> (heads h)) (words h).

Definition LinkedList_new : Z := 0.

Definition is_empty (c : Z) : ST heap bool := fun h =>
  hd ← index (heads h) c; Ok (hd =? 0, h).

Definition push (c item : Z) : ST heap unit := fun h =>
  hd ← index (heads h) c;
  Ok (tt, set_head c item (store item hd h)).

Definition pop (c : Z) : ST heap (option Z) := fun h =>
  hd ← index (heads h) c;
  if hd =? 0 then Ok (None, h) else Ok (Some hd, set_head c (word h hd) h).

(** A [ListNode]: [cur], and [prev], the cell that points to it: the head of list
    [c] or the word of the node before. *)
Inductive cell := HeadCell (c : Z) | NodeCell (p : Z).
Record ListNode := mkNode { cur : Z; prev : cell }.

(** [ListNode::pop] *)
Definition node_pop (n : ListNode) (h : heap) : heap :=
  match prev n with
  | HeadCell c => set_head c (word h (cur n)) h
  | NodeCell p => store p (word h (cur n)) h
  end.

(** [IterMut::next] and [iter_mut().find(|block| block.value() == target)] *)
Record IterMut := mkIterMut { it_cur : Z; it_prev : cell }.

Definition next (it : IterMut) (h : heap) : option (ListNode * IterMut) :=
  if it_cur it =? 0 then None
  else Some (mkNode (it_cur it) (it_prev it),
             mkIterMut (word h (it_cur it)) (NodeCell (it_cur it))).

Fixpoint find_node (fuel : nat) (target : Z) (it : IterMut) (h : heap) : res (option ListNode) :=
  match fuel with
  | O => Panic OutOfFuel
  | S fuel' =>
      match next it h with
      | None => Ok None
      | Some (n, it') => if cur n =? target then Ok (Some n) else find_node fuel' target it' h
      end
  end.

Definition iter_mut (c : Z) (h : heap) : res IterMut :=
  hd ← index (heads h) c; Ok (mkIterMut hd (HeadCell c)).

(** A list that visits more nodes than there are words ever written is cyclic. *)
Definition find_fuel (h : heap) : nat := S (size (words h)).

(** ** Powers of two *)

Definition next_power_of_two (n : Z) : Z := wrap 64 (2 ^ Z.log2_up n).

Definition prev_power_of_two (num : Z) : Z :=
  let next_power := next_power_of_two num in
  if num =? next_power then next_power else ushr next_power 1.

Fixpoint trailing_zeros_loop (n : nat) (w : Z) : Z :=
  match n with
  | O => 0
  | S n' => if Z.odd w then 0 else 1 + trailing_zeros_loop n' (Z.shiftr w 1)
  end.
Definition trailing_zeros (w : Z) : Z := trailing_zeros_loop 64 w.

(** ** [BuddyAllocator] *)

Definition empty : heap := mkHeap (replicate 32 LinkedList_new) ∅.

Definition size_of_usize : Z := 8.

Fixpoint init_loop (fuel : nat) (start end_ : Z) : ST heap unit :=
  if start <? end_ then
    match fuel with
    | O => panic OutOfFuel
    | S fuel' =>
        let lowbit := Z.land start (uadd (unot start) 1) in
        let size := Z.min lowbit (prev_power_of_two (usub end_ start)) in
        push (trailing_zeros size) start;;
        init_loop fuel' (uadd start size) end_
    end
  else mret tt.

(** Every round takes at least 8 bytes. *)
Definition init_fuel (start end_ : Z) : nat := Z.to_nat ((end_ - start) / 8).

Definition init (start size : Z) : ST heap unit :=
  let mask := uadd (unot size_of_usize) 1 in
  let start := Z.land (usub (uadd start size_of_usize) 1) mask in
  let end_ := Z.land (uadd start size) mask in
  lift (rassert (start <=? end_));;
  init_loop (init_fuel start end_) start end_.

Record Layout := mkLayout { l_size : Z; l_align : Z }.

Definition block_size (layout : Layout) : Z :=
  Z.max (next_power_of_two (l_size layout)) (Z.max (l_align layout) size_of_usize).

(** [(class..self.free_list.len()).find(|i| !self.free_list[*i].is_empty())] *)
Fixpoint first_nonempty (classes : list Z) : ST heap (option Z) :=
  match classes with
  | [] => mret None
  | i :: rest =>
      e ← is_empty i;
      if e : bool then first_nonempty rest else mret (Some i)
  end.

(** [for j in (class + 1..=i).rev() { ... }] *)
Definition split_body (j : Z) : ST heap unit :=
  o ← pop j;
  block ← lift (unwrap o);
  push (usub j 1) block;;
  push (usub j 1) (uadd block (ushl 1 (usub j 1))).

Definition alloc (layout : Layout) : ST heap (option Z) :=
  let class := trailing_zeros (block_size layout) in
  o ← first_nonempty (seqZ class (32 - class));
  match o with
  | Some i =>
      st_for (reverse (seqZ (class + 1) (i - class))) split_body;;
      r ← pop class;
      p ← lift (unwrap r);
      mret (if p =? 0 then None else Some p)
  | None => mret None
  end.

Fixpoint merge_loop (fuel : nat) (ptr class : Z) : ST heap unit :=
  if class <? 32 then
    match fuel with
    | O => panic OutOfFuel
    | S fuel' => fun h =>
        let buddy := Z.lxor ptr (ushl 1 class) in
        it ← iter_mut class h;
        o ← find_node (find_fuel h) buddy it h;
        match o with
        | Some block =>
            (pop class;;
             let ptr := Z.min ptr buddy in
             push (class + 1) ptr;;
             merge_loop fuel' ptr (class + 1)) (node_pop block h)
        | None => Ok (tt, h)
        end
    end
  else mret tt.

Definition dealloc (ptr : Z) (layout : Layout) : ST heap unit :=
  let class := trailing_zeros (block_size layout) in
  push class ptr;;
  merge_loop 33 ptr class.

(** [GlobalAlloc for LockedBuddyAllocator]: null when the allocation fails. *)
Definition global_alloc (layout : Layout) : ST heap Z :=
  o ← alloc layout; mret (default 0 o).
Definition global_dealloc (ptr : Z) (layout : Layout) : ST heap unit := dealloc ptr layout.

(** * The lists in memory *)

Fixpoint list_at (h : heap) (p : Z) (l : list Z) : Prop :=
  match l with
  | [] => p = 0
  | x :: l' => p = x /\ x <> 0 /\ is_Some (words h !! x) /\ list_at h (word h x) l'
  end.

Record rep (h : heap) (fl : list (list Z)) : Prop := {
  rep_len : length (heads h) = 32%nat;
  rep_len' : length fl = 32%nat;
  rep_lists : forall c l, fl !! c = Some l -> list_at h (heads h !!! c) l;
  rep_nodup : NoDup (concat fl);
}.

Lemma list_at_ext h h' p l :
  list_at h p l -> (forall x, x ∈ l -> words h' !! x = words h !! x) -> list_at h' p l.
Proof.
  revert p. induction l as [|x l IH]; intros p Hl He; simpl in *; [done|].
  destruct Hl as (-> & Hx & Hs & Hl). pose proof (He x ltac:(by left)) as Ex.
  split_and!; [done|done|by rewrite Ex|]. unfold word. rewrite Ex. apply IH; [done|].
  intros y Hy. apply He. by right.
Qed.

Lemma concat_take_drop (fl : list (list Z)) c l :
  fl !! c = Some l -> concat fl = concat (take c fl) ++ l ++ concat (drop (S c) fl).
Proof. intros H. rewrite <- (take_drop_middle fl c l H) at 1. by rewrite concat_app. Qed.

Lemma concat_insert (fl : list (list Z)) c l l' :
  fl !! c = Some l -> concat (<[c := l']> fl) = concat (take c fl) ++ l' ++ concat (drop (S c) fl).
Proof.
  intros H. rewrite insert_take_drop by (by eapply lookup_lt_Some). by rewrite concat_app.
Qed.

Lemma elem_of_lists (fl : list (list Z)) c l x : fl !! c = Some l -> x ∈ l -> x ∈ concat fl.
Proof.
  intros H Hx. rewrite (concat_take_drop fl c l H), !elem_of_app. right. by left.
Qed.

Lemma rep_index h fl c :
  rep h fl -> 0 <= c < 32 -> index (heads h) c = Ok (heads h !!! Z.to_nat c).
Proof.
  intros [Hl _ _ _] Hc. apply index_Ok. split; [lia|]. apply list_lookup_lookup_total_lt. lia.
Qed.

(** Replacing one list: the others are untouched where the memory is. *)
Lemma rep_update h h' fl c l l' :
  rep h fl -> (c < 32)%nat -> fl !! c = Some l ->
  length (heads h') = 32%nat -> (forall d, d <> c -> heads h' !!! d = heads h !!! d) ->
  (forall d ld x, d <> c -> fl !! d = Some ld -> x ∈ ld -> words h' !! x = words h !! x) ->
  list_at h' (heads h' !!! c) l' -> NoDup (concat (<[c := l']> fl)) ->
  rep h' (<[c := l']> fl).
Proof.
  intros [Hl Hl' Hls Hnd] Hc Hfl Hh' Hheads Hwords Hat Hnd'. split; [done| | |done].
  - by rewrite length_insert.
  - intros d ld Hd. destruct (decide (d = c)) as [->|Hne].
    + rewrite list_lookup_insert_eq in Hd by lia. by simplify_eq.
    + rewrite list_lookup_insert_ne in Hd by done. rewrite Hheads by done.
      eapply list_at_ext; [by apply Hls|]. intros x Hx. by eapply Hwords.
Qed.

Lemma push_spec h fl c l x :
  rep h fl -> 0 <= c < 32 -> fl !! Z.to_nat c = Some l -> x <> 0 -> x ∉ concat fl ->
  exists h', push c x h = Ok (tt, h') /\ rep h' (<[Z.to_nat c := x :: l]> fl).
Proof.
  intros Hr Hc Hfl Hx Hni. pose proof Hr as [Hl Hl' Hls Hnd]. unfold push.
  rewrite (rep_index h fl c Hr Hc). cbn [mbind res_bind]. eexists. split; [done|].
  apply (rep_update h _ fl (Z.to_nat c) l); [done|lia|done|..]; cbn [set_head store heads words].
  - by rewrite length_insert.
  - intros d Hd. by rewrite list_lookup_total_insert_ne.
  - intros d ld y _ Hd Hy. apply lookup_insert_ne. intros <-. apply Hni. by eapply elem_of_lists.
  - rewrite list_lookup_total_insert_eq by lia. cbn [list_at]. split_and!; [done|done| |].
    + cbn [words set_head store]. rewrite lookup_insert_eq. by eexists.
    + unfold word. cbn [words set_head store]. rewrite lookup_insert_eq. cbn [default].
      eapply list_at_ext; [by apply Hls|]. intros y Hy. cbn [words set_head store]. apply lookup_insert_ne. intros <-.
      apply Hni. by eapply elem_of_lists.
  - rewrite (concat_insert fl _ l) by done. rewrite (concat_take_drop fl _ l Hfl) in Hnd, Hni.
    cbn [app]. rewrite <- Permutation_middle. by apply NoDup_cons.
Qed.

Lemma pop_spec h fl c x l :
  rep h fl -> 0 <= c < 32 -> fl !! Z.to_nat c = Some (x :: l) ->
  exists h', pop c h = Ok (Some x, h') /\ rep h' (<[Z.to_nat c := l]> fl).
Proof.
  intros Hr Hc Hfl. pose proof Hr as [Hl Hl' Hls Hnd]. unfold pop.
  rewrite (rep_index h fl c Hr Hc). cbn [mbind res_bind].
  pose proof (Hls _ _ Hfl) as (Hh & Hx & Hs & Hat). rewrite Hh, (proj2 (Z.eqb_neq x 0)) by done.
  eexists. split; [done|].
  apply (rep_update h _ fl (Z.to_nat c) (x :: l)); [done|lia|done|..]; cbn [set_head heads words].
  - by rewrite length_insert.
  - intros d Hd. by rewrite list_lookup_total_insert_ne.
  - done.
  - rewrite list_lookup_total_insert_eq by lia. eapply list_at_ext; [exact Hat|done].
  - rewrite (concat_insert fl _ _ _ Hfl). rewrite (concat_take_drop fl _ _ Hfl) in Hnd.
    simpl in Hnd. rewrite <- Permutation_middle in Hnd. by apply NoDup_cons in Hnd as [_ ?].
Qed.

Lemma pop_empty h fl c :
  rep h fl -> 0 <= c < 32 -> fl !! Z.to_nat c = Some [] -> pop c h = Ok (None, h).
Proof.
  intros Hr Hc Hfl. unfold pop. rewrite (rep_index h fl c Hr Hc). cbn [mbind res_bind].
  pose proof (rep_lists _ _ Hr _ _ Hfl) as Hat. simpl in Hat. by rewrite Hat.
Qed.

Lemma is_empty_spec h fl c l :
  rep h fl -> 0 <= c < 32 -> fl !! Z.to_nat c = Some l ->
  is_empty c h = Ok (bool_decide (l = []), h).
Proof.
  intros Hr Hc Hfl. unfold is_empty. rewrite (rep_index h fl c Hr Hc). cbn [mbind res_bind].
  pose proof (rep_lists _ _ Hr _ _ Hfl) as Hat. destruct l as [|x l]; simpl in Hat.
  - by rewrite Hat.
  - destruct Hat as (-> & Hx & _). by rewrite (proj2 (Z.eqb_neq x 0)).
Qed.

(** The cell that points to the node after [l1]. *)
Definition cell_after (start : cell) (l1 : list Z) : cell :=
  match last l1 with Some y => NodeCell y | None => start end.

Lemma find_node_spec h fuel target p start l :
  list_at h p l -> (length l < fuel)%nat ->
  (target ∉ l /\ find_node fuel target (mkIterMut p start) h = Ok None) \/
  (exists l1 l2, l = l1 ++ target :: l2 /\
     find_node fuel target (mkIterMut p start) h = Ok (Some (mkNode target (cell_after start l1)))).
Proof.
  revert p start l. induction fuel as [|fuel IH]; intros p start l Hat Hf; [lia|].
  cbn [find_node]. unfold next. cbn [it_cur it_prev]. destruct l as [|x l]; simpl in Hat.
  - subst p. left. split; [apply not_elem_of_nil|done].
  - destruct Hat as (-> & Hx & Hs & Hat). rewrite (proj2 (Z.eqb_neq x 0)) by done. cbn [cur].
    destruct (x =? target) eqn:E; bool_to_Prop.
    + subst x. right. exists [], l. done.
    + simpl in Hf. destruct (IH (word h x) (NodeCell x) l Hat ltac:(lia)) as [[Hni Hf']|(l1 & l2 & -> & Hf')].
      * left. split; [|done]. by apply not_elem_of_cons.
      * right. exists (x :: l1), l2. split; [done|]. rewrite Hf'. do 3 f_equal. unfold cell_after.
        destruct l1 as [|y l1]; [done|]. rewrite last_cons_cons. by destruct (last (y :: l1)) eqn:El; [|apply last_None in El].
Qed.

Lemma word_store_eq h y v : word (store y v h) y = v.
Proof. unfold word. cbn [store words]. by rewrite lookup_insert_eq. Qed.

Lemma word_store_ne h y v x : y <> x -> word (store y v h) x = word h x.
Proof. intros. unfold word. cbn [store words]. by rewrite lookup_insert_ne. Qed.

Lemma list_at_unlink h p l1 y b l2 :
  list_at h p (l1 ++ y :: b :: l2) -> NoDup (l1 ++ y :: b :: l2) ->
  list_at (store y (word h b) h) p (l1 ++ y :: l2).
Proof.
  revert p. induction l1 as [|x l1 IH]; intros p Hat Hnd.
  - cbn [app list_at] in *. destruct Hat as (-> & Hy & Hs & Hb & Hb0 & Hbs & Hat).
    apply NoDup_cons in Hnd as [Hny _]. split_and!; [done|done| |].
    + cbn [store words]. rewrite lookup_insert_eq. by eexists.
    + rewrite word_store_eq. eapply list_at_ext; [exact Hat|]. intros z Hz. cbn [store words]. apply lookup_insert_ne. intros <-.
      apply Hny. by right.
  - cbn [app list_at] in *. destruct Hat as (-> & Hx & Hs & Hat). apply NoDup_cons in Hnd as [Hnx Hnd].
    assert (Hxy : y <> x) by (intros ->; apply Hnx, elem_of_app; right; by left).
    split_and!; [done|done| |].
    + cbn [store words]. by rewrite lookup_insert_ne.
    + rewrite word_store_ne by done. by apply IH.
Qed.

Lemma node_pop_spec h fl c l1 b l2 :
  rep h fl -> 0 <= c < 32 -> fl !! Z.to_nat c = Some (l1 ++ b :: l2) ->
  rep (node_pop (mkNode b (cell_after (HeadCell c) l1)) h) (<[Z.to_nat c := l1 ++ l2]> fl).
Proof.
  intros Hr Hc Hfl. pose proof Hr as [Hl Hl' Hls Hnd]. pose proof (Hls _ _ Hfl) as Hat.
  pose proof Hnd as Hnd0. rewrite (concat_take_drop fl _ _ Hfl) in Hnd0.
  apply NoDup_app in Hnd0 as (Hnd1 & Hd1 & Hnd2). apply NoDup_app in Hnd2 as (Hndl & Hd2 & Hnd3).
  assert (Hnd' : NoDup (concat (<[Z.to_nat c := l1 ++ l2]> fl))).
  { rewrite (concat_insert fl _ _ _ Hfl). rewrite (concat_take_drop fl _ _ Hfl) in Hnd.
    eapply sublist_NoDup; [exact Hnd|]. apply sublist_app; [done|]. apply sublist_app; [|done].
    apply sublist_app; [done|]. by apply sublist_cons. }
  destruct (last l1) as [y|] eqn:El; cycle 1.
  - apply last_None in El as ->. unfold cell_after. simpl in *. unfold node_pop. simpl.
    destruct Hat as (Hh & Hb & Hs & Hat).
    apply (rep_update h _ fl (Z.to_nat c) (b :: l2)); [done|lia|done|..|done]; cbn [set_head heads words].
    + by rewrite length_insert.
    + intros d Hd. by rewrite list_lookup_total_insert_ne.
    + done.
    + rewrite list_lookup_total_insert_eq by lia. eapply list_at_ext; [exact Hat|done].
  - apply last_Some in El as [l1' ->]. unfold cell_after. rewrite last_snoc. unfold node_pop. simpl.
    rewrite <- app_assoc in *. cbn [app] in *.
    apply (rep_update h _ fl (Z.to_nat c) (l1' ++ y :: b :: l2)); [done|lia|done|..|done];
      cbn [store heads words].
    + done.
    + done.
    + intros d ld x Hne Hd Hx. apply lookup_insert_ne. intros <-.
      assert (Hy : y ∈ l1' ++ y :: b :: l2) by (apply elem_of_app; right; by left).
      destruct (decide (d < Z.to_nat c)%nat) as [Hlt|Hge].
      * apply (Hd1 y); [|rewrite !elem_of_app, !elem_of_cons; tauto].
        apply (elem_of_lists _ d ld); [|done]. by rewrite lookup_take_lt.
      * apply (Hd2 y Hy). apply (elem_of_lists _ (d - S (Z.to_nat c)) ld); [|done].
        rewrite lookup_drop. rewrite <- Hd. f_equal. lia.
    + by apply list_at_unlink.
Qed.

(** * Blocks *)

(** The free blocks, with their classes; [c] is the class of the first list. *)
Fixpoint blocks (c : Z) (fl : list (list Z)) : list (Z * Z) :=
  match fl with
  | [] => []
  | l :: fl' => ((fun a => (c, a)) <$> l) ++ blocks (c + 1) fl'
  end.

(** How many of the blocks contain the byte [x]. *)
Fixpoint cnt (x : Z) (bs : list (Z * Z)) : Z :=
  match bs with
  | [] => 0
  | (c, a) :: bs' => (if decide (a <= x < a + 2 ^ c) then 1 else 0) + cnt x bs'
  end.

Lemma cnt_app x bs1 bs2 : cnt x (bs1 ++ bs2) = cnt x bs1 + cnt x bs2.
Proof. induction bs1 as [|[c a] bs1 IH]; [done|]. simpl. lia. Qed.

Lemma cnt_nonneg x bs : 0 <= cnt x bs.
Proof. induction bs as [|[c a] bs IH]; simpl; [lia|]. case_decide; lia. Qed.

Lemma cnt_pos x bs c a : (c, a) ∈ bs -> a <= x < a + 2 ^ c -> 1 <= cnt x bs.
Proof.
  induction bs as [|[c' a'] bs IH]; intros Hin Hx; [by apply elem_of_nil in Hin|]. simpl.
  pose proof (cnt_nonneg x bs). apply elem_of_cons in Hin as [[= -> ->]|Hin].
  - rewrite decide_True by done. lia.
  - specialize (IH Hin Hx). case_decide; lia.
Qed.

Lemma blocks_app k fl1 fl2 : blocks k (fl1 ++ fl2) = blocks k fl1 ++ blocks (k + Z.of_nat (length fl1)) fl2.
Proof.
  revert k. induction fl1 as [|l fl1 IH]; intros k; simpl.
  - by rewrite Z.add_0_r.
  - rewrite IH, <- app_assoc. do 3 f_equal. lia.
Qed.

(** The blocks when list [c] is [l], with that list set apart. *)
Lemma blocks_split fl c l :
  fl !! c = Some l ->
  blocks 0 fl = blocks 0 (take c fl) ++ ((fun a => (Z.of_nat c, a)) <$> l) ++
                blocks (Z.of_nat c + 1) (drop (S c) fl).
Proof.
  intros H. rewrite <- (take_drop_middle fl c l H) at 1. rewrite blocks_app. simpl.
  rewrite length_take_le by (apply lookup_lt_Some in H; lia). done.
Qed.

Lemma blocks_insert fl c l l' :
  fl !! c = Some l ->
  blocks 0 (<[c := l']> fl) = blocks 0 (take c fl) ++ ((fun a => (Z.of_nat c, a)) <$> l') ++
                blocks (Z.of_nat c + 1) (drop (S c) fl).
Proof.
  intros H. pose proof (lookup_lt_Some _ _ _ H) as Hlt.
  rewrite insert_take_drop by done. rewrite blocks_app. simpl.
  rewrite length_take_le by lia. done.
Qed.

Lemma elem_of_blocks fl c a : (c, a) ∈ blocks 0 fl <-> exists l, 0 <= c /\ fl !! Z.to_nat c = Some l /\ a ∈ l.
Proof.
  assert (H : forall k, 0 <= k -> (c, a) ∈ blocks k fl <->
    exists l, k <= c /\ fl !! Z.to_nat (c - k) = Some l /\ a ∈ l).
  { induction fl as [|l fl IH]; intros k Hk; simpl.
    - split; [by intros ?%elem_of_nil|]. by intros (l & _ & ? & _).
    - rewrite elem_of_app, IH, list_elem_of_fmap by lia. split.
      + intros [(a' & [= -> ->] & Ha)|(l' & Hc & Hl & Ha)].
        * exists l. replace (Z.to_nat (k - k)) with 0%nat by lia. done.
        * exists l'. replace (Z.to_nat (c - k)) with (S (Z.to_nat (c - (k + 1)))) by lia.
          split_and!; [lia|done|done].
      + intros (l' & Hc & Hl & Ha). destruct (decide (c = k)) as [->|].
        * left. replace (Z.to_nat (k - k)) with 0%nat in Hl by lia. simpl in Hl. simplify_eq.
          exists a. done.
        * right. exists l'. replace (Z.to_nat (c - k)) with (S (Z.to_nat (c - (k + 1)))) in Hl by lia.
          split_and!; [lia|done|done]. }
  rewrite (H 0) by lia. by rewrite Z.sub_0_r.
Qed.

#[global] Instance cnt_Permutation x : Proper (Permutation ==> eq) (cnt x).
Proof.
  intros bs1 bs2 H. induction H as [|[c a] l1 l2 _ IH|[c a] [c' a'] l|l1 l2 l3 _ IH1 _ IH2]; simpl; lia.
Qed.

(** * The invariant *)

Section Tiling.
Context (lo hi : Z) (Hlo : 0 < lo) (Hhi : hi < 2 ^ 64).

(** The blocks are aligned to their sizes and tile [lo, hi): every byte of it is in
    exactly one of them. *)
Record tiling (bs : list (Z * Z)) : Prop := {
  ti_class : forall c a, (c, a) ∈ bs -> 3 <= c < 32 /\ (2 ^ c | a);
  ti_cnt : forall x, cnt x bs = if decide (lo <= x < hi) then 1 else 0;
}.

#[global] Instance tiling_Permutation : Proper (Permutation ==> iff) tiling.
Proof.
  intros bs1 bs2 H. split; intros [Hc Hn]; split.
  - intros c a Hin. apply Hc. by rewrite H.
  - intros x. by rewrite <- H.
  - intros c a Hin. apply Hc. by rewrite <- H.
  - intros x. by rewrite H.
Qed.

Lemma tiling_range bs c a : tiling bs -> (c, a) ∈ bs -> lo <= a /\ a + 2 ^ c <= hi /\ 3 <= c < 32 /\ 0 < 2 ^ c.
Proof.
  intros [Hc Hn] Hin. destruct (Hc c a Hin) as [Hr _].
  assert (0 < 2 ^ c) by (apply Z.pow_pos_nonneg; lia).
  pose proof (cnt_pos a bs c a Hin ltac:(lia)) as H1. rewrite Hn in H1.
  pose proof (cnt_pos (a + 2 ^ c - 1) bs c a Hin ltac:(lia)) as H2. rewrite Hn in H2.
  repeat case_decide; lia.
Qed.

Lemma tiling_disjoint bs1 bs2 c1 a1 c2 a2 :
  tiling (bs1 ++ bs2) -> (c1, a1) ∈ bs1 -> (c2, a2) ∈ bs2 -> a1 + 2 ^ c1 <= a2 \/ a2 + 2 ^ c2 <= a1.
Proof.
  intros Ht H1 H2. destruct (decide (a1 + 2 ^ c1 <= a2 \/ a2 + 2 ^ c2 <= a1)) as [|Hn]; [done|]. exfalso.
  pose proof (tiling_range _ c1 a1 Ht ltac:(apply elem_of_app; by left)) as (? & ? & ? & ?).
  pose proof (tiling_range _ c2 a2 Ht ltac:(apply elem_of_app; by right)) as (? & ? & ? & ?).
  pose proof (cnt_pos (Z.max a1 a2) bs1 c1 a1 H1 ltac:(lia)).
  pose proof (cnt_pos (Z.max a1 a2) bs2 c2 a2 H2 ltac:(lia)).
  pose proof (ti_cnt _ Ht (Z.max a1 a2)) as Hc. rewrite cnt_app in Hc. case_decide; lia.
Qed.

Lemma tiling_split c a bs :
  tiling ((c + 1, a) :: bs) -> 3 <= c -> tiling ((c, a) :: (c, a + 2 ^ c) :: bs).
Proof.
  intros [Hc Hn] H3. destruct (Hc (c + 1) a ltac:(by left)) as [Hr [q ->]].
  assert (H2 : 2 ^ (c + 1) = 2 * 2 ^ c) by (rewrite Z.pow_add_r by lia; lia).
  assert (0 < 2 ^ c) by (apply Z.pow_pos_nonneg; lia). split.
  - intros c' a' [[= -> ->]|[[= -> ->]|Hin]%elem_of_cons]%elem_of_cons.
    + split; [lia|]. exists (q * 2). lia.
    + split; [lia|]. exists (q * 2 + 1). lia.
    + apply Hc. by right.
  - intros x. rewrite <- Hn. simpl. rewrite H2. repeat case_decide; lia.
Qed.

Lemma tiling_merge c a bs :
  tiling ((c, a) :: (c, a + 2 ^ c) :: bs) -> (2 ^ (c + 1) | a) -> c + 1 < 32 ->
  tiling ((c + 1, a) :: bs).
Proof.
  intros [Hc Hn] Hd H32. destruct (Hc c a ltac:(by left)) as [Hr _].
  assert (H2 : 2 ^ (c + 1) = 2 * 2 ^ c) by (rewrite Z.pow_add_r by lia; lia).
  assert (0 < 2 ^ c) by (apply Z.pow_pos_nonneg; lia). split.
  - intros c' a' [[= -> ->]|Hin]%elem_of_cons; [split; [lia|done]|]. apply Hc. by do 2 right.
  - intros x. rewrite <- Hn. simpl. rewrite H2. repeat case_decide; lia.
Qed.

(** ** Moving blocks between the lists and their users *)

Lemma take_block fl c l1 a l2 live :
  fl !! c = Some (l1 ++ a :: l2) ->
  blocks 0 fl ++ live ≡ₚ blocks 0 (<[c := l1 ++ l2]> fl) ++ (Z.of_nat c, a) :: live.
Proof.
  intros H. rewrite (blocks_split fl c _ H), (blocks_insert fl c _ (l1 ++ l2) H).
  rewrite !fmap_app, fmap_cons. rewrite <- !app_assoc. simpl. solve_Permutation.
Qed.

Lemma give_block fl c l a live :
  fl !! c = Some l ->
  blocks 0 fl ++ (Z.of_nat c, a) :: live ≡ₚ blocks 0 (<[c := a :: l]> fl) ++ live.
Proof.
  intros H. rewrite (blocks_split fl c _ H), (blocks_insert fl c _ (a :: l) H).
  rewrite fmap_cons. rewrite <- !app_assoc. simpl. solve_Permutation.
Qed.

Lemma free_list_lookup (fl : list (list Z)) (c : Z) : length fl = 32%nat -> 0 <= c < 32 -> exists l, fl !! Z.to_nat c = Some l.
Proof. intros Hl Hc. apply lookup_lt_is_Some_2. lia. Qed.

(** [push] gives a block to the allocator. *)
Lemma push_tiling h fl c a live :
  rep h fl -> tiling (blocks 0 fl ++ (c, a) :: live) ->
  exists h' l, fl !! Z.to_nat c = Some l /\ push c a h = Ok (tt, h') /\
    rep h' (<[Z.to_nat c := a :: l]> fl) /\ tiling (blocks 0 (<[Z.to_nat c := a :: l]> fl) ++ live).
Proof.
  intros Hr Ht. pose proof (tiling_range _ c a Ht ltac:(apply elem_of_app; right; by left)) as (Ha & ? & Hc & ?).
  destruct (free_list_lookup fl c (rep_len' _ _ Hr) ltac:(lia)) as [l Hl].
  assert (Hni : a ∉ concat fl).
  { intros Hin. apply list_elem_of_In, in_concat in Hin as (l' & Hl' & Hin).
    apply list_elem_of_In in Hl', Hin. apply list_elem_of_lookup in Hl' as [d Hd].
    assert ((Z.of_nat d, a) ∈ blocks 0 fl) as Hb.
    { apply elem_of_blocks. exists l'. rewrite Nat2Z.id. split_and!; [lia|done|done]. }
    pose proof (tiling_range _ _ _ Ht (proj2 (elem_of_app _ _ _) (or_introl Hb))).
    pose proof (tiling_disjoint _ _ _ _ c a Ht Hb ltac:(by left)). lia. }
  destruct (push_spec h fl c l a Hr ltac:(lia) Hl ltac:(lia) Hni) as (h' & E & Hr').
  exists h', l. split_and!; [done|done|done|].
  rewrite <- (give_block fl (Z.to_nat c) l a live Hl), Z2Nat.id by lia. done.
Qed.

(** [pop] takes one. *)
Lemma pop_tiling h fl c a l live :
  rep h fl -> tiling (blocks 0 fl ++ live) -> 0 <= c < 32 -> fl !! Z.to_nat c = Some (a :: l) ->
  exists h', pop c h = Ok (Some a, h') /\ rep h' (<[Z.to_nat c := l]> fl) /\
    tiling (blocks 0 (<[Z.to_nat c := l]> fl) ++ (c, a) :: live).
Proof.
  intros Hr Ht Hc Hl. destruct (pop_spec h fl c a l Hr Hc Hl) as (h' & E & Hr').
  exists h'. split_and!; [done|done|].
  rewrite (take_block fl (Z.to_nat c) [] a l live Hl), Z2Nat.id in Ht by lia. done.
Qed.

(** ** Splitting *)

Lemma pow2_range c : 3 <= c < 32 -> 0 < 2 ^ c < 2 ^ 32.
Proof. intros. split; [apply Z.pow_pos_nonneg; lia|apply Z.pow_lt_mono_r; lia]. Qed.

Lemma split_body_spec h fl c a l live :
  rep h fl -> tiling (blocks 0 fl ++ live) -> 3 <= c -> c + 1 < 32 ->
  fl !! Z.to_nat (c + 1) = Some (a :: l) ->
  exists h' fl' x l', split_body (c + 1) h = Ok (tt, h') /\ rep h' fl' /\
    tiling (blocks 0 fl' ++ live) /\ fl' !! Z.to_nat c = Some (x :: l').
Proof.
  intros Hr Ht H3 H32 Hfl. destruct (pop_tiling h fl (c + 1) a l live Hr Ht ltac:(lia) Hfl) as (h1 & E1 & Hr1 & Ht1).
  pose proof (pow2_range c ltac:(lia)) as Hp.
  assert (H2 : 2 ^ (c + 1) = 2 * 2 ^ c) by (rewrite Z.pow_add_r by lia; lia).
  pose proof (tiling_range _ (c + 1) a Ht1 ltac:(apply elem_of_app; right; by left)) as (? & ? & _ & _).
  rewrite <- Permutation_middle in Ht1. apply tiling_split in Ht1; [|lia].
  rewrite (Permutation_middle _ live), Permutation_middle in Ht1.
  destruct (push_tiling h1 _ c a _ Hr1 Ht1) as (h2 & l2 & Hl2 & E2 & Hr2 & Ht2).
  destruct (push_tiling h2 _ c (a + 2 ^ c) live Hr2 Ht2) as (h3 & l3 & Hl3 & E3 & Hr3 & Ht3).
  eexists h3, _, _, _. split_and!; [|exact Hr3|exact Ht3|].
  - unfold split_body. st_step_by E1. st_step. rewrite usub_small by lia.
    replace (c + 1 - 1) with c by lia. st_step_by E2.
    rewrite (ushl_small 1), uadd_small by lia. rewrite Z.mul_1_l. exact E3.
  - apply list_lookup_insert_eq. by eapply lookup_lt_Some.
Qed.

Lemma split_loop_spec n class h fl a l live :
  rep h fl -> tiling (blocks 0 fl ++ live) -> 3 <= class -> class + Z.of_nat n < 32 ->
  fl !! Z.to_nat (class + Z.of_nat n) = Some (a :: l) ->
  exists h' fl' x l', st_for (reverse (seqZ (class + 1) (Z.of_nat n))) split_body h = Ok (tt, h') /\
    rep h' fl' /\ tiling (blocks 0 fl' ++ live) /\ fl' !! Z.to_nat class = Some (x :: l').
Proof.
  revert h fl a l. induction n as [|n IH]; intros h fl a l Hr Ht H3 H32 Hfl.
  - rewrite Z.add_0_r in Hfl. exists h, fl, a, l. done.
  - rewrite seqZ_S. rewrite reverse_snoc. cbn [st_for].
    replace (class + 1 + Z.of_nat n) with (class + Z.of_nat n + 1) by lia.
    replace (class + Z.of_nat (S n)) with (class + Z.of_nat n + 1) in Hfl by lia.
    destruct (split_body_spec h fl (class + Z.of_nat n) a l live Hr Ht ltac:(lia) ltac:(lia) Hfl)
      as (h1 & fl1 & x & l1 & E & Hr1 & Ht1 & Hl1).
    st_step_by E. apply (IH h1 fl1 x l1); [done|done|lia|lia|done].
Qed.

Lemma first_nonempty_spec h fl n c :
  rep h fl -> 0 <= c -> Z.of_nat n = Z.max 0 (32 - c) ->
  (first_nonempty (seqZ c (Z.of_nat n)) h = Ok (None, h) /\
     forall d l, c <= d -> fl !! Z.to_nat d = Some l -> l = []) \/
  (exists i a l, c <= i < 32 /\ first_nonempty (seqZ c (Z.of_nat n)) h = Ok (Some i, h) /\
     fl !! Z.to_nat i = Some (a :: l) /\
     forall d l, c <= d < i -> fl !! Z.to_nat d = Some l -> l = []).
Proof.
  revert c. induction n as [|n IH]; intros c Hr Hc Hn.
  - left. split; [done|]. intros d l Hd Hl. apply lookup_lt_Some in Hl.
    rewrite (rep_len' _ _ Hr) in Hl. lia.
  - rewrite Nat2Z.inj_succ, seqZ_cons by lia. rewrite Z.pred_succ. cbn [first_nonempty].
    destruct (free_list_lookup fl c (rep_len' _ _ Hr) ltac:(lia)) as [l Hl].
    rewrite (st_bind_run _ _ _ _ _ (is_empty_spec h fl c l Hr ltac:(lia) Hl)).
    destruct l as [|a l].
    + rewrite bool_decide_true by done. unfold Z.succ.
      destruct (IH (c + 1) Hr ltac:(lia) ltac:(lia)) as [[E Hno]|(i & a & l & Hi & E & Hfl & Hno)].
      * left. split; [done|]. intros d l Hd Hld. destruct (decide (d = c)) as [->|]; [by simplify_eq|].
        apply (Hno d); [lia|done].
      * right. exists i, a, l. split_and!; [lia|lia|done|done|]. intros d l' Hd Hld.
        destruct (decide (d = c)) as [->|]; [by simplify_eq|]. apply (Hno d); [lia|done].
    + rewrite bool_decide_false by done. right. exists c, a, l. split_and!; [lia|lia|done|done|]. lia.
Qed.

(** ** Merging *)

(** The buddy of an aligned block is its neighbour in the block of the next class. *)
Lemma buddy_spec c a :
  0 <= c -> (2 ^ c | a) ->
  let b := Z.lxor a (2 ^ c) in
  (2 ^ (c + 1) | Z.min a b) /\ Z.max a b = Z.min a b + 2 ^ c.
Proof.
  intros Hc [q ->] b. assert (0 < 2 ^ c) by (apply Z.pow_pos_nonneg; lia).
  assert (H2 : 2 ^ (c + 1) = 2 * 2 ^ c) by (rewrite Z.pow_add_r by lia; lia).
  assert (Hb : b = Z.lxor q 1 * 2 ^ c).
  { unfold b. rewrite <- !Z.shiftl_mul_pow2 by done. rewrite Z.shiftl_lxor.
    by rewrite (Z.shiftl_mul_pow2 1), Z.mul_1_l by done. }
  assert (Hx : Z.lxor q 1 = if Z.odd q then q - 1 else q + 1).
  { apply Z.bits_inj'. intros n Hn. rewrite Z.lxor_spec. destruct (decide (n = 0)) as [->|Hn0].
    - rewrite !Z.bit0_odd. destruct (Z.odd q) eqn:Eo.
      + rewrite Z.odd_sub, Eo. done.
      + rewrite Z.odd_add, Eo. done.
    - rewrite (testbit_above 1 1) by lia. rewrite xorb_false_r.
      destruct (Z.odd q) eqn:Eo.
      + apply Zodd_bool_iff, Zodd_ex in Eo as [m ->].
        replace n with (Z.succ (n - 1)) by lia. replace (2 * m + 1 - 1) with (2 * m) by lia.
        by rewrite Z.testbit_odd_succ, Z.testbit_even_succ by lia.
      + assert (Eo' : Z.even q = true) by (by rewrite <- Z.negb_odd, Eo).
        apply Zeven_bool_iff, Zeven_ex in Eo' as [m ->].
        replace n with (Z.succ (n - 1)) by lia.
        by rewrite Z.testbit_odd_succ, Z.testbit_even_succ by lia. }
  destruct (Z.odd q) eqn:Eo.
  - apply Zodd_bool_iff, Zodd_ex in Eo as [m ->]. rewrite Hb, Hx.
    replace (Z.min ((2 * m + 1) * 2 ^ c) ((2 * m + 1 - 1) * 2 ^ c)) with (m * 2 ^ (c + 1)) by lia.
    split; [by exists m|lia].
  - assert (Eo' : Z.even q = true) by (by rewrite <- Z.negb_odd, Eo).
    apply Zeven_bool_iff, Zeven_ex in Eo' as [m ->]. rewrite Hb, Hx.
    replace (Z.min (2 * m * 2 ^ c) ((2 * m + 1) * 2 ^ c)) with (m * 2 ^ (c + 1)) by lia.
    split; [by exists m|lia].
Qed.

Lemma list_at_dom h p l : list_at h p l -> forall x, x ∈ l -> x ∈ dom (words h).
Proof.
  revert p. induction l as [|y l IH]; intros p Hat x Hx; [by apply elem_of_nil in Hx|].
  destruct Hat as (_ & _ & Hs & Hat). apply elem_of_cons in Hx as [->|Hx].
  - by apply elem_of_dom.
  - by eapply IH.
Qed.

Lemma find_fuel_enough h fl c l :
  rep h fl -> fl !! c = Some l -> (length l < find_fuel h)%nat.
Proof.
  intros [_ _ Hls Hnd] Hl. pose proof (list_at_dom _ _ _ (Hls _ _ Hl)) as Hd.
  rewrite (concat_take_drop fl c l Hl) in Hnd. apply NoDup_app in Hnd as (_ & _ & Hnd).
  apply NoDup_app in Hnd as (Hnd & _ & _). unfold find_fuel.
  rewrite <- (size_list_to_set (C := gset Z) l Hnd), <- size_dom.
  apply Nat.lt_succ_r, subseteq_size. intros x Hx. apply Hd. by apply elem_of_list_to_set in Hx.
Qed.

Context (Hsize : hi - lo < 2 ^ 32).

Lemma merge_loop_spec fuel h fl ptr class l live :
  rep h fl -> tiling (blocks 0 fl ++ live) -> 3 <= class < 32 -> 33 <= class + Z.of_nat fuel ->
  fl !! Z.to_nat class = Some (ptr :: l) ->
  exists h' fl', merge_loop fuel ptr class h = Ok (tt, h') /\ rep h' fl' /\ tiling (blocks 0 fl' ++ live).
Proof.
  revert h fl ptr class l. induction fuel as [|fuel IH]; intros h fl ptr class l Hr Ht Hc Hf Hfl; [lia|].
  cbn [merge_loop]. rewrite (proj2 (Z.ltb_lt class 32)) by lia.
  pose proof (pow2_range class ltac:(lia)) as Hp.
  rewrite ushl_small by lia. rewrite Z.mul_1_l.
  unfold iter_mut. rewrite (rep_index h fl class Hr ltac:(lia)). cbn [mbind res_bind].
  destruct (find_node_spec h (find_fuel h) (Z.lxor ptr (2 ^ class)) _ (HeadCell class) _
    (rep_lists _ _ Hr _ _ Hfl) (find_fuel_enough h fl _ _ Hr Hfl)) as [[Hni ->]|(l1 & l2 & El & ->)].
  { by exists h, fl. }
  set (buddy := Z.lxor ptr (2 ^ class)) in *. cbn [mbind res_bind].
  assert (Hin : (class, ptr) ∈ blocks 0 fl ++ live).
  { apply elem_of_app. left. apply elem_of_blocks. exists (ptr :: l). split_and!; [lia|done|by left]. }
  destruct (buddy_spec class ptr ltac:(lia) (proj2 (ti_class _ Ht _ _ Hin))) as [Hdiv Hmax].
  fold buddy in Hdiv, Hmax.
  destruct l1 as [|y l1]; cbn [app] in El; [injection El as Eb _; lia|]. injection El as <- ->.
  pose proof (node_pop_spec h fl class (ptr :: l1) buddy l2 Hr ltac:(lia) Hfl) as Hr1.
  rewrite (take_block fl _ (ptr :: l1) buddy l2 live Hfl), Z2Nat.id in Ht by lia.
  set (fl1 := <[Z.to_nat class := (ptr :: l1) ++ l2]> fl) in *.
  assert (Hl1 : fl1 !! Z.to_nat class = Some (ptr :: (l1 ++ l2))).
  { unfold fl1. apply list_lookup_insert_eq. by eapply lookup_lt_Some. }
  destruct (pop_tiling _ fl1 class ptr _ _ Hr1 Ht ltac:(lia) Hl1) as (h2 & E2 & Hr2 & Ht2).
  assert (Ht3 : tiling ((class, Z.min ptr buddy) :: (class, Z.min ptr buddy + 2 ^ class) ::
                        blocks 0 (<[Z.to_nat class := l1 ++ l2]> fl1) ++ live)).
  { rewrite <- Hmax. rewrite <- !Permutation_middle in Ht2.
    destruct (decide (ptr <= buddy)).
    - by rewrite Z.min_l, Z.max_r by lia.
    - rewrite Z.min_r, Z.max_l by lia. by rewrite (Permutation_swap (class, buddy) (class, ptr)) in Ht2. }
  assert (H31 : class + 1 < 32).
  { pose proof (tiling_range _ _ _ Ht3 ltac:(by left)) as (? & _ & _).
    pose proof (tiling_range _ _ _ Ht3 ltac:(right; by left)) as (_ & ? & _).
    destruct (decide (class = 31)) as [->|]; lia. }
  apply tiling_merge in Ht3; [|done|lia]. rewrite Permutation_middle in Ht3.
  destruct (push_tiling h2 _ (class + 1) _ live Hr2 Ht3) as (h3 & l3 & Hl3 & E3 & Hr3 & Ht4).
  st_step_by E2. st_step_by E3. eapply IH; [exact Hr3|exact Ht4|lia|lia|].
  apply list_lookup_insert_eq. by eapply lookup_lt_Some.
Qed.
End Tiling.

(** The state of the allocator: the lists hold blocks that, with the [live] ones
    handed out, tile the heap. *)
Definition heap_ok (lo hi : Z) (h : heap) (live : list (Z * Z)) : Prop :=
  exists fl, rep h fl /\ tiling lo hi (blocks 0 fl ++ live).

(** What [core::alloc::Layout] guarantees: a power of two alignment, and a size
    that fits [isize]. *)
Definition layout_ok (l : Layout) : Prop :=
  0 <= l_size l < 2 ^ 63 /\ exists k, 0 <= k < 63 /\ l_align l = 2 ^ k.

Definition class_of (l : Layout) : Z := trailing_zeros (block_size l).

(** ** Arithmetic of the sizes *)

Lemma trailing_zeros_loop_pow2 n k : 0 <= k < Z.of_nat n -> trailing_zeros_loop n (2 ^ k) = k.
Proof.
  revert k. induction n as [|n IH]; intros k Hk; [lia|]. cbn [trailing_zeros_loop].
  destruct (decide (k = 0)) as [->|Hk0]; [done|].
  replace k with (Z.succ (k - 1)) by lia. rewrite Z.pow_succ_r by lia.
  rewrite Z.odd_mul, andb_false_l. rewrite Z.shiftr_div_pow2 by lia.
  change (2 ^ 1) with 2. rewrite Z.mul_comm, Z.div_mul by lia. rewrite IH by lia. lia.
Qed.

Lemma trailing_zeros_pow2 k : 0 <= k < 64 -> trailing_zeros (2 ^ k) = k.
Proof. intros. apply trailing_zeros_loop_pow2. lia. Qed.

Lemma max_pow2 a b : 0 <= a -> 0 <= b -> Z.max (2 ^ a) (2 ^ b) = 2 ^ Z.max a b.
Proof.
  intros. destruct (decide (a <= b)).
  - pose proof (Z.pow_le_mono_r 2 a b ltac:(lia) ltac:(lia)). rewrite !Z.max_r by lia. done.
  - pose proof (Z.pow_le_mono_r 2 b a ltac:(lia) ltac:(lia)). rewrite !Z.max_l by lia. done.
Qed.

Lemma min_pow2 a b : 0 <= a -> 0 <= b -> Z.min (2 ^ a) (2 ^ b) = 2 ^ Z.min a b.
Proof.
  intros. destruct (decide (a <= b)).
  - pose proof (Z.pow_le_mono_r 2 a b ltac:(lia) ltac:(lia)). rewrite !Z.min_l by lia. done.
  - pose proof (Z.pow_le_mono_r 2 b a ltac:(lia) ltac:(lia)). rewrite !Z.min_r by lia. done.
Qed.

Lemma next_power_of_two_spec n : 0 <= n <= 2 ^ 63 -> next_power_of_two n = 2 ^ Z.log2_up n /\ 0 <= Z.log2_up n <= 63.
Proof.
  intros Hn. pose proof (Z.log2_up_nonneg n).
  assert (Z.log2_up n <= 63) by (rewrite <- (Z.log2_up_pow2 63) by lia; apply Z.log2_up_le_mono; lia).
  split; [|lia]. apply wrap_small. split; [apply Z.pow_nonneg; lia|apply Z.pow_lt_mono_r; lia].
Qed.

Lemma class_of_spec l :
  layout_ok l -> block_size l = 2 ^ class_of l /\ 3 <= class_of l < 64 /\
    l_size l <= 2 ^ class_of l /\ (l_align l | 2 ^ class_of l).
Proof.
  intros (Hs & k & Hk & Ha). destruct (next_power_of_two_spec (l_size l) ltac:(lia)) as [E Hl].
  assert (Hb : block_size l = 2 ^ Z.max (Z.log2_up (l_size l)) (Z.max k 3)).
  { unfold block_size. rewrite E, Ha. change size_of_usize with (2 ^ 3).
    rewrite !max_pow2 by lia. done. }
  assert (Hc : class_of l = Z.max (Z.log2_up (l_size l)) (Z.max k 3)).
  { unfold class_of. rewrite Hb. apply trailing_zeros_pow2. lia. }
  rewrite Hb, <- Hc. split_and!; [done|lia|lia| |].
  - destruct (decide (l_size l = 0)) as [->|]; [apply Z.pow_nonneg; lia|].
    etrans; [|apply (Z.pow_le_mono_r 2 (Z.log2_up (l_size l))); lia].
    destruct (decide (l_size l = 1)) as [->|]; [done|]. apply Z.log2_up_spec. lia.
  - rewrite Ha. exists (2 ^ (class_of l - k)). rewrite <- Z.pow_add_r by lia. f_equal. lia.
Qed.

Lemma prev_power_of_two_spec n : 0 < n <= 2 ^ 63 -> prev_power_of_two n = 2 ^ Z.log2 n.
Proof.
  intros Hn. unfold prev_power_of_two. destruct (next_power_of_two_spec n ltac:(lia)) as [-> Hl].
  destruct (n =? 2 ^ Z.log2_up n) eqn:E; bool_to_Prop.
  - rewrite E at 2. by rewrite Z.log2_pow2 by lia.
  - rewrite ushr_div by lia. destruct (decide (n = 1)) as [->|]; [done|].
    assert (Hu : Z.log2_up n = Z.succ (Z.log2 n)).
    { pose proof (Z.le_log2_log2_up n). pose proof (Z.le_log2_up_succ_log2 n).
      destruct (decide (Z.log2_up n = Z.log2 n)) as [Eq|]; [|lia]. exfalso. apply E.
      pose proof (Z.log2_spec n ltac:(lia)). pose proof (Z.log2_up_spec n ltac:(lia)). rewrite Eq in *. lia. }
    rewrite Hu, Z.pow_succ_r by apply Z.log2_nonneg.
    change (2 ^ 1) with 2. by rewrite Z.mul_comm, Z.div_mul.
Qed.

Lemma odd_part s : 0 < s -> exists v m, 0 <= v /\ 0 <= m /\ s = (2 * m + 1) * 2 ^ v.
Proof.
  intros Hs. assert (H : forall n s, 0 < s <= Z.of_nat n -> exists v m, 0 <= v /\ 0 <= m /\ s = (2 * m + 1) * 2 ^ v).
  { clear. induction n as [|n IH]; intros s Hs; [lia|]. destruct (Z.odd s) eqn:Eo.
    - apply Zodd_bool_iff, Zodd_ex in Eo as [m ->]. exists 0, m. split_and!; lia.
    - assert (Eo' : Z.even s = true) by (by rewrite <- Z.negb_odd, Eo).
      apply Zeven_bool_iff, Zeven_ex in Eo' as [q ->].
      destruct (IH q ltac:(lia)) as (v & m & Hv & Hm & ->). exists (Z.succ v), m.
      rewrite Z.pow_succ_r by lia. split_and!; lia. }
  apply (H (Z.to_nat s)). lia.
Qed.

Lemma land_complement k n : 0 <= n -> 0 <= k < 2 ^ n -> Z.land k (2 ^ n - 1 - k) = 0.
Proof.
  intros Hn Hk. replace (2 ^ n - 1 - k) with (Z.ldiff (Z.ones n) k).
  { by rewrite Z.land_comm, Z.land_ldiff. }
  rewrite <- Z.sub_nocarry_ldiff.
  - rewrite Z.ones_equiv. lia.
  - apply Z.bits_inj'. intros i Hi. rewrite Z.ldiff_spec, Z.bits_0. destruct (decide (i < n)).
    + by rewrite Z.ones_spec_low, andb_false_r by lia.
    + by rewrite (testbit_above k n) by lia.
Qed.

Lemma land_odd a b : Z.land (2 * a + 1) (2 * b + 1) = 2 * Z.land a b + 1.
Proof.
  apply Z.bits_inj'. intros i Hi. rewrite Z.land_spec. destruct (decide (i = 0)) as [->|].
  - by rewrite !Z.testbit_odd_0.
  - replace i with (Z.succ (i - 1)) by lia. by rewrite !Z.testbit_odd_succ, Z.land_spec by lia.
Qed.

(** [s & (!s + 1)] is the largest power of two that divides [s]. *)
Lemma lowbit_spec s v m :
  0 <= v -> 0 <= m -> s = (2 * m + 1) * 2 ^ v -> s < 2 ^ 64 ->
  v < 64 /\ Z.land s (uadd (unot s) 1) = 2 ^ v.
Proof.
  intros Hv Hm Hs H64. assert (0 < 2 ^ v) by (apply Z.pow_pos_nonneg; lia).
  assert (Hv64 : v < 64). { apply (Z.pow_lt_mono_r_iff 2); nia. } split; [done|].
  unfold unot, usize_max. rewrite uadd_small by nia. replace (2 ^ 64 - 1 - s + 1) with (2 ^ 64 - s) by lia.
  assert (E64 : 2 ^ 64 = 2 * 2 ^ (63 - v) * 2 ^ v).
  { rewrite <- Z.mul_assoc, <- Z.pow_add_r by lia. replace (63 - v + v) with 63 by lia. done. }
  replace (2 ^ 64 - s) with ((2 * (2 ^ (63 - v) - 1 - m) + 1) * 2 ^ v) by lia.
  rewrite Hs, <- !Z.shiftl_mul_pow2 by done. rewrite <- Z.shiftl_land, land_odd, land_complement by nia.
  by rewrite Z.shiftl_mul_pow2, Z.mul_1_l by done.
Qed.

Lemma land_mask8 x : 0 <= x < 2 ^ 64 -> Z.land x (uadd (unot size_of_usize) 1) = x / 8 * 8.
Proof.
  intros Hx. change (uadd (unot size_of_usize) 1) with (Z.shiftl (2 ^ 61 - 1) 3).
  change (x / 8 * 8) with (x / 8 * 2 ^ 3). rewrite <- Z.shiftl_mul_pow2 by lia.
  apply Z.bits_inj'. intros i Hi. rewrite Z.land_spec, !Z.shiftl_spec by done.
  replace (x / 8) with (Z.shiftr x 3) by (by rewrite Z.shiftr_div_pow2).
  replace (2 ^ 61 - 1) with (Z.ones 61) by done. rewrite Z.testbit_ones by lia.
  destruct (decide (i < 3)).
  - rewrite !(Z.testbit_neg_r _ (i - 3)) by lia.
    rewrite (proj2 (Z.leb_gt 0 (i - 3))) by lia. by rewrite andb_false_r.
  - rewrite Z.shiftr_spec by lia. replace (i - 3 + 3) with i by lia.
    rewrite (proj2 (Z.leb_le 0 (i - 3))) by lia. simpl. destruct (Z.ltb_spec (i - 3) 61).
    + by rewrite andb_true_r.
    + rewrite andb_false_r, (testbit_above x 64) by lia. done.
Qed.

(** ** [init] *)

Lemma tiling_extend lo s c bs :
  lo <= s -> tiling lo s bs -> 3 <= c < 32 -> (2 ^ c | s) -> tiling lo (s + 2 ^ c) ((c, s) :: bs).
Proof.
  intros Hlo [Hc Hn] H3 Hd. assert (0 < 2 ^ c) by (apply Z.pow_pos_nonneg; lia). split.
  - intros c' a [[= -> ->]|Hin]%elem_of_cons; [done|by apply Hc].
  - intros x. simpl. rewrite Hn. repeat case_decide; lia.
Qed.

Lemma init_loop_spec fuel lo s e h fl :
  0 < lo <= s -> s <= e < 2 ^ 64 -> e - lo < 2 ^ 32 -> (8 | s) -> (8 | e) -> e - s <= 8 * Z.of_nat fuel ->
  rep h fl -> tiling lo s (blocks 0 fl) ->
  exists h', init_loop fuel s e h = Ok (tt, h') /\ heap_ok lo e h' [] /\
    forall a, a ∈ dom (words h') -> a ∈ dom (words h) \/ (s <= a < e /\ (8 | a)).
Proof.
  revert s h fl. induction fuel as [|fuel IH]; intros s h fl Hlo Hs Hsz Ds De Hf Hr Ht.
  - cbn [init_loop]. rewrite (proj2 (Z.ltb_ge s e)) by lia. exists h. split_and!; [done| |auto].
    exists fl. rewrite app_nil_r. by replace e with s by lia.
  - cbn [init_loop]. destruct (s <? e) eqn:E; bool_to_Prop; cycle 1.
    { exists h. split_and!; [done| |auto]. exists fl. rewrite app_nil_r. by replace e with s by lia. }
    destruct (odd_part s ltac:(lia)) as (v & m & Hv & Hm & Es).
    destruct (lowbit_spec s v m Hv Hm Es ltac:(lia)) as [Hv64 ->].
    rewrite usub_small, prev_power_of_two_spec by lia.
    assert (H8 : 8 <= e - s). { destruct Ds as [q Hq], De as [q' Hq']. lia. }
    assert (Hv3 : 3 <= v).
    { destruct (decide (3 <= v)) as [|Hn]; [done|exfalso]. destruct Ds as [q Hq].
      assert (v = 0 \/ v = 1 \/ v = 2) as [-> | [-> | ->]] by lia; lia. }
    assert (H3 : 3 <= Z.log2 (e - s) < 32).
    { split; [change 3 with (Z.log2 8); apply Z.log2_le_mono; lia|apply Z.log2_lt_pow2; lia]. }
    rewrite min_pow2, trailing_zeros_pow2 by lia. set (c := Z.min v (Z.log2 (e - s))).
    assert (Dc : (2 ^ c | s)).
    { rewrite Es. exists ((2 * m + 1) * 2 ^ (v - c)). rewrite <- Z.mul_assoc, <- Z.pow_add_r by lia.
      do 2 f_equal. lia. }
    assert (Hc : 8 <= 2 ^ c <= e - s).
    { split; [change 8 with (2 ^ 3); apply Z.pow_le_mono_r; lia|].
      etrans; [apply (Z.pow_le_mono_r 2 c (Z.log2 (e - s))); lia|]. apply Z.log2_spec. lia. }
    pose proof (tiling_extend lo s c _ ltac:(lia) Ht ltac:(lia) Dc) as Ht'.
    rewrite <- (app_nil_r (blocks 0 fl)), Permutation_middle in Ht'.
    destruct (push_tiling lo (s + 2 ^ c) ltac:(lia) h fl c s [] Hr Ht') as (h1 & l & Hl & E1 & Hr1 & Ht1).
    st_step_by E1. rewrite uadd_small by lia. rewrite app_nil_r in Ht1.
    destruct (IH (s + 2 ^ c) h1 (<[Z.to_nat c := s :: l]> fl) ltac:(lia) ltac:(lia) Hsz) as (h2 & E2 & Hok2 & Hd2); [|done|lia|exact Hr1|exact Ht1|].
    { apply Z.divide_add_r; [done|]. exists (2 ^ (c - 3)). change 8 with (2 ^ 3).
      rewrite <- Z.pow_add_r by lia. f_equal. lia. }
    exists h2. split_and!; [done|done|]. intros a Ha. destruct (Hd2 a Ha) as [Ha1|[? ?]]; [|right; split; [lia|done]].
    unfold push in E1. destruct (index _ _); cbn in E1; [|done]. injection E1 as <-. cbn in Ha1. rewrite dom_insert in Ha1.
    apply elem_of_union in Ha1 as [->%elem_of_singleton|]; [right; split; [lia|done]|by left].
Qed.

Lemma empty_rep : rep empty (replicate 32 []).
Proof.
  split; [done|done| |].
  - intros c l Hl. apply lookup_replicate in Hl as [-> Hc]. cbn [list_at].
    change (heads empty) with (replicate 32 0). by rewrite lookup_total_replicate_2.
  - apply NoDup_nil_2.
Qed.

(** [init] writes words of the heap only. *)
Lemma init_words start size :
  0 < start -> 0 <= size < 2 ^ 32 -> start + size + 8 < 2 ^ 64 ->
  let lo := (start + 7) / 8 * 8 in
  let hi := (lo + size) / 8 * 8 in
  exists h, init start size empty = Ok (tt, h) /\ heap_ok lo hi h [] /\ forall a, a ∈ dom (words h) -> lo <= a < hi /\ (8 | a).
Proof.
  intros Hst Hsz Hov lo hi. unfold init. cbv zeta.
  rewrite (uadd_small start) by (unfold size_of_usize; lia).
  rewrite usub_small by (unfold size_of_usize; lia).
  replace (start + size_of_usize - 1) with (start + 7) by (unfold size_of_usize; lia).
  rewrite land_mask8 by lia. fold lo.
  assert (start <= lo <= start + 7) by (unfold lo; lia).
  rewrite (uadd_small lo), land_mask8 by lia. fold hi.
  assert (lo <= hi <= lo + size) by (unfold hi, lo; lia).
  rewrite (proj2 (Z.leb_le lo hi)) by lia. st_step.
  destruct (init_loop_spec (init_fuel lo hi) lo lo hi empty (replicate 32 [])) as (h & E & Hok & Hd);
    [lia|lia|lia|by eexists|by eexists| |exact empty_rep| |].
  - unfold init_fuel. rewrite Z2Nat.id by (apply Z.div_pos; lia). unfold hi, lo. lia.
  - split; [|].
    + intros c a Hin. apply elem_of_blocks in Hin as (l & _ & Hl & Ha).
      apply lookup_replicate in Hl as [-> _]. by apply elem_of_nil in Ha.
    + intros x. simpl. case_decide; lia.
  - exists h. split_and!; [done|done|]. intros a Ha. destruct (Hd a Ha) as [Ha'|]; [cbn in Ha'; set_solver|done].
Qed.

Lemma init_spec start size :
  0 < start -> 0 <= size < 2 ^ 32 -> start + size + 8 < 2 ^ 64 ->
  let lo := (start + 7) / 8 * 8 in
  let hi := (lo + size) / 8 * 8 in
  exists h, init start size empty = Ok (tt, h) /\ heap_ok lo hi h [].
Proof. intros H1 H2 H3. destruct (init_words start size H1 H2 H3) as (h & E & Hok & _). eauto. Qed.

(** ** The allocator *)

Section Allocator.
Context (lo hi : Z) (Hlo : 0 < lo) (Hhi : hi < 2 ^ 64) (Hsize : hi - lo < 2 ^ 32).

Lemma find_class h fl class :
  rep h fl -> 0 <= class ->
  (first_nonempty (seqZ class (32 - class)) h = Ok (None, h) /\
     forall c a, (c, a) ∈ blocks 0 fl -> c < class) \/
  (exists i a l, class <= i < 32 /\ first_nonempty (seqZ class (32 - class)) h = Ok (Some i, h) /\
     fl !! Z.to_nat i = Some (a :: l)).
Proof.
  intros Hr Hc.
  replace (seqZ class (32 - class)) with (seqZ class (Z.of_nat (Z.to_nat (32 - class))))
    by (unfold seqZ; do 2 f_equal; lia).
  destruct (first_nonempty_spec h fl (Z.to_nat (32 - class)) class Hr Hc ltac:(lia))
    as [[E Hno]|(i & a & l & Hi & E & Hfl & _)]; [left|right; by exists i, a, l].
  split; [done|]. intros c a Hin. apply elem_of_blocks in Hin as (l & Hc0 & Hlk & Ha).
  destruct (decide (c < class)); [done|]. rewrite (Hno c l ltac:(lia) Hlk) in Ha. by apply elem_of_nil in Ha.
Qed.

Lemma buddy_alloc_spec h live layout :
  layout_ok layout -> heap_ok lo hi h live ->
  exists r h', alloc layout h = Ok (r, h') /\
    match r with
    | Some p => heap_ok lo hi h' ((class_of layout, p) :: live)
    | None => h' = h /\ forall fl c a, rep h fl -> (c, a) ∈ blocks 0 fl -> c < class_of layout
    end.
Proof.
  intros Hl (fl & Hr & Ht). destruct (class_of_spec layout Hl) as (_ & Hc & _ & _).
  unfold alloc. fold (class_of layout). set (class := class_of layout) in *.
  destruct (find_class h fl class Hr ltac:(lia)) as [[E _]|(i & a & l & Hi & E & Hfl)].
  { exists None, h. st_step_by E. split_and!; [done|done|]. intros fl' c a Hr'.
    destruct (find_class h fl' class Hr' ltac:(lia)) as [[_ Hno]|(? & ? & ? & _ & E' & _)]; [by eapply Hno|].
    by rewrite E in E'. }
  st_step_by E.
  replace i with (class + Z.of_nat (Z.to_nat (i - class))) in Hfl by lia.
  destruct (split_loop_spec lo hi Hlo Hhi (Z.to_nat (i - class)) class h fl a l live Hr Ht ltac:(lia) ltac:(lia) Hfl)
    as (h1 & fl1 & x & l1 & E1 & Hr1 & Ht1 & Hl1). rewrite Z2Nat.id in E1 by lia.
  destruct (pop_tiling lo hi h1 fl1 class x l1 live Hr1 Ht1 ltac:(lia) Hl1) as (h2 & E2 & Hr2 & Ht2).
  pose proof (tiling_range lo hi _ class x Ht2 ltac:(apply elem_of_app; right; by left)).
  exists (Some x), h2. st_step_by E1. st_step_by E2. st_step.
  rewrite (proj2 (Z.eqb_neq x 0)) by lia. split; [done|]. by eexists.
Qed.

Lemma buddy_dealloc_spec h live layout p :
  layout_ok layout -> heap_ok lo hi h ((class_of layout, p) :: live) ->
  exists h', dealloc p layout h = Ok (tt, h') /\ heap_ok lo hi h' live.
Proof.
  intros Hl (fl & Hr & Ht).
  pose proof (tiling_range lo hi _ _ _ Ht ltac:(apply elem_of_app; right; by left)) as (_ & _ & Hc & _).
  destruct (push_tiling lo hi Hlo h fl _ p live Hr Ht) as (h1 & l & Hlk & E1 & Hr1 & Ht1).
  destruct (merge_loop_spec lo hi Hlo Hsize 33 h1 _ p (class_of layout) l live Hr1 Ht1 Hc ltac:(lia))
    as (h2 & fl2 & E2 & Hr2 & Ht2).
  { apply list_lookup_insert_eq. by eapply lookup_lt_Some. }
  exists h2. split; [|by exists fl2]. unfold dealloc. fold (class_of layout). st_step_by E1. exact E2.
Qed.
End Allocator.

(** A client that allocates and frees: frees name a block it holds. *)
Inductive heap_op := OpAlloc (l : Layout) | OpDealloc (n : nat).

(** [held] is the blocks it holds, with the layouts they were allocated for. *)
Definition run_op (o : heap_op) (held : list (Layout * Z)) : ST heap (list (Layout * Z)) :=
  match o with
  | OpAlloc l => p ← global_alloc l; mret (if p =? 0 then held else (l, p) :: held)
  | OpDealloc n =>
      match held !! n with
      | Some (l, p) => global_dealloc p l;; mret (delete n held)
      | None => mret held
      end
  end.

Fixpoint run_ops (os : list heap_op) (held : list (Layout * Z)) : ST heap (list (Layout * Z)) :=
  match os with
  | [] => mret held
  | o :: os' => held' ← run_op o held; run_ops os' held'
  end.

Definition held_blocks (hs : list (Layout * Z)) : list (Z * Z) := (fun '(l, p) => (class_of l, p)) <$> hs.
Definition op_ok (o : heap_op) : Prop := match o with OpAlloc l => layout_ok l | OpDealloc _ => True end.

Lemma run_ops_spec lo hi os h hs :
  0 < lo -> hi < 2 ^ 64 -> hi - lo < 2 ^ 32 -> Forall op_ok os ->
  Forall (fun '(l, _) => layout_ok l) hs -> heap_ok lo hi h (held_blocks hs) ->
  exists hs' h', run_ops os hs h = Ok (hs', h') /\
    Forall (fun '(l, _) => layout_ok l) hs' /\ heap_ok lo hi h' (held_blocks hs').
Proof.
  intros Hlo Hhi Hsz Hos. revert h hs. induction Hos as [|o os Ho Hos IH]; intros h hs Hl Hok.
  { by exists hs, h. }
  cbn [run_ops]. destruct o as [l|n]; cbn [run_op].
  - destruct (buddy_alloc_spec lo hi Hlo Hhi h _ l Ho Hok) as ([p|] & h1 & E & Hr).
    + assert (Hp : p <> 0).
      { destruct Hr as (fl & _ & Ht).
        pose proof (tiling_range lo hi _ _ _ Ht ltac:(apply elem_of_app; right; by left)). lia. }
      destruct (IH h1 ((l, p) :: hs) ltac:(by constructor) Hr) as (hs' & h' & E' & H').
      exists hs', h'. split; [|done].
      unfold global_alloc, mbind, st_bind. rewrite E. cbn. by rewrite (proj2 (Z.eqb_neq p 0)).
    + destruct Hr as [-> _]. destruct (IH h hs Hl Hok) as (hs' & h' & E' & H').
      exists hs', h'. split; [|done]. unfold global_alloc, mbind, st_bind. by rewrite E.
  - destruct (hs !! n) as [[l p]|] eqn:En.
    + assert (Hp : held_blocks hs ≡ₚ (class_of l, p) :: held_blocks (delete n hs)).
      { unfold held_blocks. by rewrite (delete_Permutation hs n (l, p) En) at 1. }
      assert (Hl' : layout_ok l) by (by apply (Forall_lookup_1 _ _ _ _ Hl En)).
      destruct Hok as (fl & Hr & Ht). rewrite Hp in Ht.
      destruct (buddy_dealloc_spec lo hi Hlo Hsz h (held_blocks (delete n hs)) l p Hl' ltac:(by exists fl)) as (h1 & E & Hok).
      destruct (IH h1 (delete n hs) ltac:(by apply Forall_delete) Hok) as (hs' & h' & E' & H').
      exists hs', h'. split; [|done]. unfold global_dealloc, mbind, st_bind. by rewrite E.
    + destruct (IH h hs Hl Hok) as (hs' & h' & E' & H'). by exists hs', h'.
Qed.

(** What a holder of blocks may rely on. *)
Lemma held_disjoint lo hi h hs :
  Forall (fun '(l, _) => layout_ok l) hs -> heap_ok lo hi h (held_blocks hs) ->
  forall i l p, hs !! i = Some (l, p) ->
    (l_align l | p) /\ lo <= p /\ p + l_size l <= hi /\
    forall j l' p', j <> i -> hs !! j = Some (l', p') -> p + l_size l <= p' \/ p' + l_size l' <= p.
Proof.
  intros Hl (fl & _ & Ht) i l p Hi.
  assert (Hin : forall j l p, hs !! j = Some (l, p) -> (class_of l, p) ∈ held_blocks hs).
  { intros j l' p' Hj. apply list_elem_of_fmap. exists (l', p'). split; [done|by eapply list_elem_of_lookup_2]. }
  assert (Hsz : forall j l p, hs !! j = Some (l, p) -> l_size l <= 2 ^ class_of l /\ (l_align l | 2 ^ class_of l)).
  { intros j l' p' Hj. apply class_of_spec. by apply (Forall_lookup_1 _ _ _ _ Hl Hj). }
  pose proof (tiling_range lo hi _ _ _ Ht (proj2 (elem_of_app _ _ _) (or_intror (Hin _ _ _ Hi)))) as (? & ? & _ & _).
  pose proof (ti_class lo hi _ Ht _ _ (proj2 (elem_of_app _ _ _) (or_intror (Hin _ _ _ Hi)))) as [_ Hd].
  destruct (Hsz i l p Hi) as [? Ha]. split_and!; [by etrans|lia|lia|].
  intros j l' p' Hne Hj. destruct (Hsz j l' p' Hj) as [? _].
  assert (Hp : held_blocks hs ≡ₚ (class_of l, p) :: held_blocks (delete i hs)).
  { unfold held_blocks. by rewrite (delete_Permutation hs i (l, p) Hi) at 1. }
  rewrite Hp in Ht. rewrite <- Permutation_middle in Ht.
  assert (Hin' : (class_of l', p') ∈ blocks 0 fl ++ held_blocks (delete i hs)).
  { apply elem_of_app. right. apply list_elem_of_fmap. exists (l', p'). split; [done|].
    destruct (decide (j < i)%nat).
    - apply (list_elem_of_lookup_2 _ j). by rewrite list_lookup_delete_lt by lia.
    - apply (list_elem_of_lookup_2 _ (j - 1)). rewrite list_lookup_delete_ge by lia.
      by replace (S (j - 1)) with j by lia. }
  pose proof (tiling_disjoint lo hi [(class_of l, p)] _ _ _ _ _ Ht ltac:(by left) Hin'). lia.
Qed.

(** ** Claims *)

(** C29: after [init], any sequence of allocations and releases through the global
    allocator runs without a panic, and at every point the blocks held are aligned and
    large enough for their layouts and do not overlap; every byte of the heap [lo, hi) is in
    exactly one block, free or held.  When [start] is a multiple of 8 the heap and the blocks
    lie inside [start, start + size), as the comment of [init] says; for another [start] the
    heap begins at the next multiple of 8 and is still [size] bytes long, so that a block can
    end up to 7 bytes after [start + size] (and does: [init_overruns_unaligned_range]). *)
Theorem heap_session_safe start size os :
  0 < start -> 0 <= size < 2 ^ 32 -> start + size + 8 < 2 ^ 64 -> Forall op_ok os ->
  let lo := (start + 7) / 8 * 8 in
  let hi := (lo + size) / 8 * 8 in
  exists h0 hs h, init start size empty = Ok (tt, h0) /\ run_ops os [] h0 = Ok (hs, h) /\
    heap_ok lo hi h (held_blocks hs) /\
    ((8 | start) -> lo = start /\ hi <= start + size) /\ start <= lo < start + 8 /\ hi < start + size + 8 /\
    forall i l p, hs !! i = Some (l, p) ->
      (l_align l | p) /\ lo <= p /\ p + l_size l <= hi /\
      ((8 | start) -> start <= p /\ p + l_size l <= start + size) /\
      forall j l' p', j <> i -> hs !! j = Some (l', p') -> p + l_size l <= p' \/ p' + l_size l' <= p.
Proof.
  intros Hst Hsz Hov Hos lo hi. destruct (init_spec start size Hst Hsz Hov) as (h0 & E0 & Hok).
  fold lo in Hok. fold hi in Hok.
  destruct (run_ops_spec lo hi os h0 [] ltac:(unfold lo; lia) ltac:(unfold hi, lo; lia)
    ltac:(unfold hi, lo; lia) Hos ltac:(constructor) Hok) as (hs & h & E & Hl & Hok').
  assert (Hal : (8 | start) -> lo = start /\ hi <= start + size) by (intros [q Hq]; unfold hi, lo; lia).
  assert (Hlo : start <= lo < start + 8) by (unfold lo; lia). assert (Hhi : hi <= lo + size) by (unfold hi; lia).
  exists h0, hs, h. split_and!; [done|done|done|done|lia|lia|lia|].
  intros i l p Hi. destruct (held_disjoint lo hi h hs Hl Hok' i l p Hi) as (H1 & H2 & H3 & H4). split_and!; [done|done|done| |done].
  intros Ha. destruct (Hal Ha). lia.
Qed.

Definition session_ops : list heap_op :=
  [OpAlloc (mkLayout 24 8); OpAlloc (mkLayout 100 64); OpDealloc 1%nat; OpAlloc (mkLayout 9 1)].

Lemma layout_ok_example s k : 0 <= s < 2 ^ 63 -> 0 <= k < 63 -> layout_ok (mkLayout s (2 ^ k)).
Proof. intros. split; [done|]. by exists k. Qed.

Lemma heap_session_safe_witness :
  exists h0 hs h, init 4096 1000 empty = Ok (tt, h0) /\ run_ops session_ops [] h0 = Ok (hs, h) /\
    forall i l p, hs !! i = Some (l, p) -> (l_align l | p) /\ 4096 <= p /\ p + l_size l <= 4096 + 1000.
Proof.
  destruct (heap_session_safe 4096 1000 session_ops) as (h0 & hs & h & E0 & E & _ & _ & _ & _ & Hb); [lia|lia|lia| |].
  - repeat constructor; apply layout_ok_example with (k := 3) || apply layout_ok_example with (k := 6) ||
      apply layout_ok_example with (k := 0); lia.
  - exists h0, hs, h. split; [exact E0|]. split; [exact E|]. intros i l p Hi. destruct (Hb i l p Hi) as (Ha & _ & _ & Hr & _).
    destruct (Hr ltac:(exists 512; lia)) as [H1 H2]. split; [exact Ha|]. split; [exact H1|exact H2].
Defined.

(** An allocation fails only when no free block is large enough, and then changes
    nothing; when it succeeds, releasing the block restores a well-formed heap with the
    same blocks held. *)
Theorem alloc_complete lo hi h live layout :
  0 < lo -> hi < 2 ^ 64 -> hi - lo < 2 ^ 32 -> layout_ok layout -> heap_ok lo hi h live ->
  exists r h', alloc layout h = Ok (r, h') /\
    match r with
    | None => h' = h /\ forall fl c a, rep h fl -> (c, a) ∈ blocks 0 fl -> 2 ^ c < block_size layout
    | Some p => heap_ok lo hi h' ((class_of layout, p) :: live) /\
        exists h'', dealloc p layout h' = Ok (tt, h'') /\ heap_ok lo hi h'' live
    end.
Proof.
  intros Hlo Hhi Hsz Hl Hok. destruct (buddy_alloc_spec lo hi Hlo Hhi h live layout Hl Hok) as (r & h' & E & Hr).
  exists r, h'. split; [done|]. destruct r as [p|].
  - split; [done|]. by apply (buddy_dealloc_spec lo hi Hlo Hsz h' live layout p).
  - destruct Hr as [-> Hno]. split; [done|]. intros fl c a Hrep Hin.
    destruct (class_of_spec layout Hl) as (-> & Hc & _). apply Z.pow_lt_mono_r; [lia|lia|].
    by eapply Hno.
Qed.

Lemma alloc_complete_witness :
  exists h r h', init 4096 1024 empty = Ok (tt, h) /\ alloc (mkLayout 24 8) h = Ok (r, h') /\
    match r with
    | None => h' = h /\ forall fl c a, rep h fl -> (c, a) ∈ blocks 0 fl -> 2 ^ c < block_size (mkLayout 24 8)
    | Some p => heap_ok 4096 5120 h' ((class_of (mkLayout 24 8), p) :: []) /\
        exists h'', dealloc p (mkLayout 24 8) h' = Ok (tt, h'') /\ heap_ok 4096 5120 h'' []
    end.
Proof.
  destruct (init_spec 4096 1024 ltac:(lia) ltac:(lia) ltac:(lia)) as (h & E & Hok).
  destruct (alloc_complete 4096 5120 h [] (mkLayout 24 8) ltac:(lia) ltac:(lia) ltac:(lia)
    (layout_ok_example 24 3 ltac:(lia) ltac:(lia)) Hok) as (r & h' & Ea & H).
  exists h, r, h'. split; [exact E|]. split; [exact Ea|exact H].
Defined.

(** The heap that [init] builds from a range whose start is not a multiple of the
    word size reaches past the end of the range: the end is computed from the start
    after it was rounded up, so the byte just after [start, start + size) is in a free
    block. *)
Theorem init_overruns_unaligned_range start size :
  0 < start -> 0 < size < 2 ^ 32 -> start + size + 8 < 2 ^ 64 -> (8 | size) -> ~ (8 | start) ->
  exists h fl c a, init start size empty = Ok (tt, h) /\ rep h fl /\
    (c, a) ∈ blocks 0 fl /\ a <= start + size < a + 2 ^ c.
Proof.
  intros Hst Hsz Hov [q Hq] Hna. destruct (init_spec start size Hst ltac:(lia) Hov) as (h & E & fl & Hr & Ht).
  rewrite app_nil_r in Ht. set (lo := (start + 7) / 8 * 8) in *.
  assert (Hlo : start < lo).
  { assert (start mod 8 <> 0) by (intros H0; apply Hna, Z.mod_divide; lia). unfold lo. lia. }
  pose proof (ti_cnt _ _ _ Ht (start + size)) as Hc. rewrite decide_True in Hc by (unfold lo in *; lia).
  assert (Hex : forall bs, cnt (start + size) bs = 1 -> exists c a, (c, a) ∈ bs /\ a <= start + size < a + 2 ^ c).
  { induction bs as [|[c a] bs IH]; simpl; [lia|]. case_decide as Hd.
    - intros _. exists c, a. split; [by left|done].
    - intros Hb. destruct (IH ltac:(lia)) as (c' & a' & Hin & Hr'). exists c', a'. split; [by right|done]. }
  destruct (Hex _ Hc) as (c & a & Hin & Hr'). by exists h, fl, c, a.
Qed.

Lemma init_overruns_unaligned_range_witness :
  exists h fl c a, init 4097 64 empty = Ok (tt, h) /\ rep h fl /\
    (c, a) ∈ blocks 0 fl /\ a <= 4097 + 64 < a + 2 ^ c.
Proof.
  apply (init_overruns_unaligned_range 4097 64); [lia|lia|lia|by exists 8|].
  intros [q Hq]. lia.
Defined.
