(* ===== verification/Switch.v ===== *)
(** The context switch: os/src/task/scheduler/switch.S, thread/context.rs, and the calls of
    [__switch] in [run_tasks] and [schedule] (scheduler/processor.rs).

    [hart] has the registers and the contexts in memory.  [transfer] is what the switches
    mean: every task goes on where it called [schedule], and the idle loop where it called
    [__switch].  This is what [Sched] assumes when it keeps a suspension point per task. *)

From S2P Require Import Prelude.

(** [#[repr(C)]]: 14 words. *)
Record TaskContext := mkContext { sp : Z; ra : Z; s : list Z }.

Definition zero_init : TaskContext := mkContext 0 0 (replicate 12 0).
Definition goto_trap_return (trap_return kernel_stack_top : Z) : TaskContext := mkContext kernel_stack_top trap_return (replicate 12 0).

(** The registers that calls keep, and the program counter. *)
Record cpu := mkCpu { c_pc : Z; c_sp : Z; c_ra : Z; c_s : list Z }.

(** [__switch] with [r] as the registers of the caller: the context it saves and the
    registers after [ret]. *)
Definition SAVE_SREG (r : cpu) (from : list Z) (id : nat) : list Z := <[id := c_s r !!! id]> from.
Definition LOAD_SREG (to : TaskContext) (regs : list Z) (id : nat) : list Z := <[id := s to !!! id]> regs.
Definition switch (from to : TaskContext) (r : cpu) : TaskContext * cpu :=
  (mkContext (c_sp r) (c_ra r) (foldl (SAVE_SREG r) (s from) (seq 0 12)),
   mkCpu (ra to) (sp to) (ra to) (foldl (LOAD_SREG to) (c_s r) (seq 0 12))).

Section hart.
Context (trap_return : Z).

(** [task_cx] has the contexts of the tasks; [current] is the task that runs, none in the
    idle loop. *)
Record hart := mkHart { regs : cpu; current : option nat; idle_task_cx : TaskContext; task_cx : gmap nat TaskContext }.

(** What happens on the hart: a task is created; the idle loop has fetched task [t] and calls
    [__switch]; the task calls [schedule]; it calls [schedule] for the last time, with a
    context nobody uses.  [r] are the registers at the call. *)
Inductive event := Create (t : nat) (kernel_stack_top : Z) | Run (t : nat) (r : cpu) | Schedule (r : cpu) | Exit (r : cpu).

Definition step (h : hart) (e : event) : option hart :=
  match e, current h with
  | Create t top, _ => Some (mkHart (regs h) (current h) (idle_task_cx h) (<[t := goto_trap_return trap_return top]> (task_cx h)))
  | Run t r, None =>
      next ← task_cx h !! t;
      let '(idle, r') := switch (idle_task_cx h) next r in
      Some (mkHart r' (Some t) idle (task_cx h))
  | Schedule r, Some t =>
      cx ← task_cx h !! t;
      let '(cx', r') := switch cx (idle_task_cx h) r in
      Some (mkHart r' None (idle_task_cx h) (<[t := cx']> (task_cx h)))
  | Exit r, Some t =>
      let '(_, r') := switch zero_init (idle_task_cx h) r in
      Some (mkHart r' None (idle_task_cx h) (delete t (task_cx h)))
  | _, _ => None
  end.

Definition boot (r : cpu) : hart := mkHart r None zero_init ∅.

(** ** What it means *)

Inductive kont := Fresh (kernel_stack_top : Z) | Suspended (r : cpu).

(** A new task starts at [trap_return] on its kernel stack; another goes on with the
    registers of its call, after it. *)
Definition resumed (c : kont) : cpu :=
  match c with
  | Fresh top => mkCpu trap_return top trap_return (replicate 12 0)
  | Suspended r => mkCpu (c_ra r) (c_sp r) (c_ra r) (c_s r)
  end.

Record tasks := mkTasks { t_regs : cpu; t_current : option nat; t_idle : kont; t_konts : gmap nat kont }.

Definition transfer (h : tasks) (e : event) : option tasks :=
  match e, t_current h with
  | Create t top, _ => Some (mkTasks (t_regs h) (t_current h) (t_idle h) (<[t := Fresh top]> (t_konts h)))
  | Run t r, None => c ← t_konts h !! t; Some (mkTasks (resumed c) (Some t) (Suspended r) (t_konts h))
  | Schedule r, Some t => _ ← t_konts h !! t; Some (mkTasks (resumed (t_idle h)) None (t_idle h) (<[t := Suspended r]> (t_konts h)))
  | Exit r, Some t => Some (mkTasks (resumed (t_idle h)) None (t_idle h) (delete t (t_konts h)))
  | _, _ => None
  end.

Definition started (r : cpu) : tasks := mkTasks r None (Suspended (mkCpu 0 0 0 (replicate 12 0))) ∅.

(** ** The switch implements it *)

(** The registers of an event: twelve in [s]. *)
Definition event_ok (e : event) : Prop := match e with Create _ _ => True | Run _ r | Schedule r | Exit r => length (c_s r) = 12%nat end.

Definition saved (c : kont) : TaskContext :=
  match c with Fresh top => goto_trap_return trap_return top | Suspended r => mkContext (c_sp r) (c_ra r) (c_s r) end.
Definition kont_ok (c : kont) : Prop := match c with Fresh _ => True | Suspended r => length (c_s r) = 12%nat end.

Lemma copy_all (src dst : list Z) : length src = 12%nat -> length dst = 12%nat -> foldl (fun l i => <[i := src !!! i]> l) dst (seq 0 12) = src.
Proof.
  intros Hs Hd. do 12 (destruct src as [|? src]; [done|]). destruct src; [|done]. do 12 (destruct dst as [|? dst]; [done|]). by destruct dst.
Qed.

Lemma length_saved c : kont_ok c -> length (s (saved c)) = 12%nat.
Proof. by destruct c. Qed.

Lemma switch_spec from c r :
  kont_ok c -> length (s from) = 12%nat -> length (c_s r) = 12%nat -> switch from (saved c) r = (saved (Suspended r), resumed c).
Proof.
  intros Hc Hf Hr. pose proof (length_saved c Hc) as Hl. unfold switch, SAVE_SREG, LOAD_SREG. rewrite !copy_all by done. by destruct c.
Qed.

Record implements (h : hart) (a : tasks) : Prop := {
  im_regs : regs h = t_regs a;
  im_current : current h = t_current a;
  im_idle : idle_task_cx h = saved (t_idle a) /\ kont_ok (t_idle a);
  im_tasks : task_cx h = saved <$> t_konts a;
  im_konts t c : t_konts a !! t = Some c -> kont_ok c;
}.

Lemma step_transfer h a e :
  implements h a -> event_ok e ->
  match step h e, transfer a e with Some h', Some a' => implements h' a' | None, None => True | _, _ => False end.
Proof.
  intros [Hr Hc [Hi Hik] Ht Hk] He. unfold step, transfer. rewrite Hc.
  assert (Hlook : forall t, task_cx h !! t = saved <$> t_konts a !! t) by (intros t; by rewrite Ht, lookup_fmap).
  destruct e as [t top|t r|r|r].
  - split; cbn; [done|done|done|by rewrite Ht, fmap_insert|]. intros t' c'. destruct (decide (t = t')) as [<-|Hne].
    + rewrite lookup_insert_eq. by intros [= <-].
    + rewrite lookup_insert_ne by done. apply Hk.
  - destruct (t_current a); [done|]. rewrite Hlook. destruct (t_konts a !! t) as [c|] eqn:Ec; [|done]. cbn [fmap option_fmap option_map mbind option_bind].
    rewrite switch_spec; [|by eapply Hk|rewrite Hi; by apply length_saved|done]. split; cbn; done.
  - destruct (t_current a) as [t|]; [|done]. rewrite Hlook. destruct (t_konts a !! t) as [c|] eqn:Ec; [|done]. cbn [fmap option_fmap option_map mbind option_bind].
    rewrite Hi, switch_spec; [|done|apply length_saved; by eapply Hk|done]. split; cbn; [done|done|done|by rewrite Ht, fmap_insert|].
    intros t' c'. destruct (decide (t = t')) as [<-|Hne]; [rewrite lookup_insert_eq; by intros [= <-]|rewrite lookup_insert_ne by done; apply Hk].
  - destruct (t_current a) as [t|]; [|done]. rewrite Hi, switch_spec; [|done|done|done]. split; cbn; [done|done|done|by rewrite Ht, fmap_delete|].
    intros t' c' [_ H]%lookup_delete_Some. by eapply Hk.
Qed.

Fixpoint steps (h : hart) (l : list event) : option hart := match l with [] => Some h | e :: l' => h' ← step h e; steps h' l' end.
Fixpoint transfers (h : tasks) (l : list event) : option tasks := match l with [] => Some h | e :: l' => h' ← transfer h e; transfers h' l' end.
End hart.

(** C21: The context switch loses nothing.  From boot, through any sequence of new tasks,
    dispatches by the idle loop, calls of [schedule] and exits, with whatever registers: the
    hart with [__switch] can do exactly what the tasks with their continuations can, and always
    has the registers they have; so every task goes on with the stack pointer, return address
    and saved registers of its own call, a new one at [trap_return] on its kernel stack, and
    the idle loop after the switch it made. *)
Theorem switch_refines_transfer trap_return r l :
  Forall event_ok l ->
  match steps trap_return (boot r) l, transfers trap_return (started r) l with
  | Some h, Some a => regs h = t_regs a /\ current h = t_current a /\ idle_task_cx h = saved trap_return (t_idle a) /\
      task_cx h = saved trap_return <$> t_konts a
  | None, None => True
  | _, _ => False
  end.
Proof.
  intros Hl. assert (Hs : implements trap_return (boot r) (started r)).
  { split; cbn; [done|done|done|by rewrite fmap_empty|]. intros t c. by rewrite lookup_empty. }
  revert Hs. generalize (boot r) (started r). induction Hl as [|e l He Hl IH]; intros h a Hs; cbn [steps transfers].
  - destruct Hs as [H1 H2 [H3 _] H4 _]. done.
  - pose proof (step_transfer trap_return h a e Hs He) as H. destruct (step trap_return h e) as [h'|], (transfer trap_return a e) as [a'|]; try done.
    by apply IH.
Qed.

(** A task runs, yields with 7 as its return address, and runs again. *)
Lemma switch_refines_transfer_witness :
  exists h, steps 4096 (boot (mkCpu 1 2 3 (replicate 12 4)))
    [Create 0 8192; Run 0 (mkCpu 5 6 60 (replicate 12 9)); Schedule (mkCpu 50 8000 7 (replicate 12 70)); Run 0 (mkCpu 61 6 60 (replicate 12 9))] = Some h /\
    c_pc (regs h) = 7 /\ c_sp (regs h) = 8000 /\ c_s (regs h) = replicate 12 70.
Proof.
  set (l := [Create 0 8192; Run 0 (mkCpu 5 6 60 (replicate 12 9)); Schedule (mkCpu 50 8000 7 (replicate 12 70)); Run 0 (mkCpu 61 6 60 (replicate 12 9))]).
  pose proof (switch_refines_transfer 4096 (mkCpu 1 2 3 (replicate 12 4)) l ltac:(by repeat constructor)) as H.
  destruct (steps 4096 (boot (mkCpu 1 2 3 (replicate 12 4))) l) as [h|]; [|by vm_compute in H].
  destruct (transfers 4096 (started (mkCpu 1 2 3 (replicate 12 4))) l) as [a|] eqn:Ea; [|by vm_compute in Ea].
  destruct H as (H & _). vm_compute in Ea. injection Ea as <-. exists h. split; [done|]. rewrite H. done.
Defined.
