(* ===== verification/Sched.v ===== *)
(** The scheduler and the blocking synchronization primitives: os/src/task/scheduler,
    the parts of os/src/task/mod.rs that switch tasks, os/src/sync, os/src/timer and
    os/src/syscall/sync.rs.

    A task is a number, an [Arc] of a shared object is its index in a list of objects.
    The kernel runs with interrupts off, so a kernel path is atomic up to the point
    where it calls [schedule]; [kont] names the points where a path can be suspended,
    and [resume] is what the task does when it is switched back to.  An operation
    returns [true] when it returned to its caller and [false] when it switched away.

    [step] is the system: tasks calling the primitives, the idle loop dispatching,
    timer interrupts and exits of threads and of whole processes, in any order.  It logs what the tasks observe. *)

From Stdlib Require Import Sorting.Sorted.
From S2P Require Import Prelude.

Inductive TaskStatus := Ready | Running | Blocked.
#[global] Instance TaskStatus_eq_dec : EqDecision TaskStatus.
Proof. solve_decision. Defined.

(** The places where a kernel path is left through [schedule]. *)
Inductive kont :=
| KStart                 (* a new task, [TaskContext::goto_trap_return] *)
| KYield                 (* the end of [sys_yield], or of a timer interrupt *)
| KSleep                 (* the end of [sys_sleep] *)
| KSpin (m : nat)        (* [MutexSpin::lock], before the next round *)
| KLocked (m : nat)      (* the end of [MutexBlocking::lock] *)
| KDown (s : nat)        (* the end of [Semaphore::down] *)
| KWait (m : nat).       (* [Condvar::wait], before [mutex.lock()] *)
#[global] Instance kont_eq_dec : EqDecision kont.
Proof. solve_decision. Defined.

(** [TimerCondVar] *)
Record TimerCondVar := mkTimer { expire_ms : Z; timer_task : nat }.

(** [dyn Mutex]: [MutexSpin] or [MutexBlocking] *)
Inductive Mutex :=
| MutexSpin (locked : bool)
| MutexBlocking (locked : bool) (waiter_queue : list nat).

Record Semaphore := mkSem { count : Z; sem_queue : list nat }.

Definition MutexSpin_new : Mutex := MutexSpin false.
Definition MutexBlocking_new : Mutex := MutexBlocking false [].
Definition Semaphore_new (res_count : Z) : Semaphore := mkSem (as_isize res_count) [].
(** A [Condvar] is its queue. *)
Definition Condvar_new : list nat := [].

(** The tables of a process ([ProcessControlBlockInner]). *)
Record proc_tables := mkTables {
  mutex_list : list (option nat);
  semaphore_list : list (option nat);
  condvar_list : list (option nat);
}.
Definition no_tables : proc_tables := mkTables [] [] [].

Record kernel := mkKernel {
  current : option nat;                 (* [Processor::current] *)
  ready_queue : list nat;               (* [TaskManager::ready_queue] *)
  status : gmap nat TaskStatus;         (* [TaskControlBlockInner::status] *)
  konts : gmap nat kont;                (* where [task_cx] points to *)
  timers : list TimerCondVar;           (* [TIMERS] *)
  mutexes : list Mutex;
  semaphores : list Semaphore;
  condvars : list (list nat);
  process_of : gmap nat nat;            (* [TaskControlBlock::process] *)
  tables : gmap nat proc_tables;
}.

Definition set_current v k := mkKernel v (ready_queue k) (status k) (konts k) (timers k) (mutexes k) (semaphores k) (condvars k) (process_of k) (tables k).
Definition set_ready v k := mkKernel (current k) v (status k) (konts k) (timers k) (mutexes k) (semaphores k) (condvars k) (process_of k) (tables k).
Definition set_status t v k := mkKernel (current k) (ready_queue k) (<[t := v]> (status k)) (konts k) (timers k) (mutexes k) (semaphores k) (condvars k) (process_of k) (tables k).
Definition set_kont t v k := mkKernel (current k) (ready_queue k) (status k) (<[t := v]> (konts k)) (timers k) (mutexes k) (semaphores k) (condvars k) (process_of k) (tables k).
Definition set_timers v k := mkKernel (current k) (ready_queue k) (status k) (konts k) v (mutexes k) (semaphores k) (condvars k) (process_of k) (tables k).
Definition set_mutexes v k := mkKernel (current k) (ready_queue k) (status k) (konts k) (timers k) v (semaphores k) (condvars k) (process_of k) (tables k).
Definition set_semaphores v k := mkKernel (current k) (ready_queue k) (status k) (konts k) (timers k) (mutexes k) v (condvars k) (process_of k) (tables k).
Definition set_condvars v k := mkKernel (current k) (ready_queue k) (status k) (konts k) (timers k) (mutexes k) (semaphores k) v (process_of k) (tables k).
Definition set_tables p v k := mkKernel (current k) (ready_queue k) (status k) (konts k) (timers k) (mutexes k) (semaphores k) (condvars k) (process_of k) (<[p := v]> (tables k)).

Definition modify (f : kernel -> kernel) : ST kernel unit := fun k => Ok (tt, f k).
Definition gets {A} (f : kernel -> A) : ST kernel A := fun k => Ok (f k, k).
Definition reads {A} (f : kernel -> res A) : ST kernel A := fun k => lift (f k) k.

(** ** [TaskManager] *)

Definition add_task (t : nat) : ST kernel unit := modify (fun k => set_ready (ready_queue k ++ [t]) k).

Definition fetch_task : ST kernel (option nat) := fun k =>
  match pop_front (ready_queue k) with
  | Some (t, q) => Ok (Some t, set_ready q k)
  | None => Ok (None, k)
  end.

Definition remove_task (t : nat) : ST kernel unit := modify (fun k =>
  match find_index (fun t' => bool_decide (t' = t)) (ready_queue k) with
  | Some i => set_ready (delete i (ready_queue k)) k
  | None => k
  end).

Definition wakeup_task (t : nat) : ST kernel unit :=
  modify (set_status t Ready);; add_task t.

(** ** [Processor] *)

Definition take_current_task : ST kernel (option nat) := fun k => Ok (current k, set_current None k).
Definition current_task : ST kernel nat := reads (fun k => unwrap (current k)).
Definition current_process : ST kernel nat :=
  t ← current_task; reads (fun k => unwrap (process_of k !! t)).

(** [__switch] to the idle loop: the task continues at [c]. *)
Definition schedule (t : nat) (c : kont) : ST kernel unit := modify (set_kont t c).

Definition suspend_current_and_run_next (c : kont) : ST kernel unit :=
  o ← take_current_task;
  t ← lift (unwrap o);
  modify (set_status t Ready);;
  add_task t;;
  schedule t c.

Definition block_current_and_run_next (c : kont) : ST kernel unit :=
  o ← take_current_task;
  t ← lift (unwrap o);
  modify (set_status t Blocked);;
  schedule t c.

(** One round of the idle loop; [None] is [shutdown]. *)
Definition run_tasks_round : ST kernel (option nat) :=
  o ← fetch_task;
  match o with
  | Some t =>
      modify (set_status t Running);;
      modify (set_current (Some t));;
      mret (Some t)
  | None => mret None
  end.

(** ** Timers

    [TIMERS] is a [BinaryHeap] under the reversed order, so that [peek] is a timer
    that expires first. *)

Fixpoint peek (ts : list TimerCondVar) : option TimerCondVar :=
  match ts with
  | [] => None
  | x :: ts' =>
      match peek ts' with
      | Some y => if expire_ms y <? expire_ms x then Some y else Some x
      | None => Some x
      end
  end.

Fixpoint heap_pop (ts : list TimerCondVar) : option (TimerCondVar * list TimerCondVar) :=
  match ts with
  | [] => None
  | x :: ts' =>
      match heap_pop ts' with
      | Some (y, rest) => if expire_ms y <? expire_ms x then Some (y, x :: rest) else Some (x, ts')
      | None => Some (x, ts')
      end
  end.

Definition CLOCK_FREQ : Z := 12500000.
Definition MSEC_PER_SEC : Z := 1000.
Definition get_time_ms (get_time : Z) : Z := get_time / (CLOCK_FREQ / MSEC_PER_SEC).

Definition add_timer (expire : Z) (t : nat) : ST kernel unit :=
  modify (fun k => set_timers (mkTimer expire t :: timers k) k).

Definition remove_timer (t : nat) : ST kernel unit :=
  modify (fun k => set_timers (filter (fun x => timer_task x <> t) (timers k)) k).

(** [while let Some(timer) = timers.peek()]; a round removes a timer. *)
Fixpoint check_timer_loop (fuel : nat) (current_ms : Z) : ST kernel unit := fun k =>
  match peek (timers k) with
  | Some timer =>
      if expire_ms timer <=? current_ms then
        match fuel with
        | O => Panic OutOfFuel
        | S fuel' =>
            (wakeup_task (timer_task timer);;
             modify (fun k => match heap_pop (timers k) with
                              | Some (_, rest) => set_timers rest k
                              | None => k
                              end);;
             check_timer_loop fuel' current_ms) k
        end
      else Ok (tt, k)
  | None => Ok (tt, k)
  end.

Definition check_timer (get_time : Z) : ST kernel unit := fun k =>
  check_timer_loop (length (timers k)) (get_time_ms get_time) k.

(** [remove_inactive_task] of os/src/task/mod.rs *)
Definition remove_inactive_task (t : nat) : ST kernel unit := remove_task t;; remove_timer t.

(** The tasks of process [p], and what happens to them when it exits: those that are ready
    or asleep are removed, and the tables of the process are cleared. *)
Definition tasks_of (p : nat) (k : kernel) : list nat :=
  (map_to_list (filter (fun x => x.2 = p) (process_of k))).*1.

Fixpoint remove_inactive_tasks (ts : list nat) : ST kernel unit :=
  match ts with
  | [] => mret tt
  | t :: ts' => remove_inactive_task t;; remove_inactive_tasks ts'
  end.

Definition end_process (p : nat) : ST kernel unit :=
  ts ← gets (tasks_of p);
  remove_inactive_tasks ts;;
  modify (set_tables p no_tables).

(** [exit_current_and_run_next]; [whole] is [tid == 0 || killed].  The part for memory, files and the process tree is in
    [Process]. *)
Definition exit_task (whole : bool) : ST kernel unit :=
  o ← take_current_task;
  t ← lift (unwrap o);
  p ← reads (fun k => unwrap (process_of k !! t));
  if whole then end_process p else mret tt.

(** ** Synchronization objects

    [Arc] values always point to an object; an index out of range would be a dangling
    reference. *)

Definition object {A} (l : list A) (i : nat) : res A :=
  match l !! i with Some a => Ok a | None => Panic UndefinedBehaviour end.

Definition set_mutex (m : nat) (x : Mutex) : ST kernel unit :=
  modify (fun k => set_mutexes (<[m := x]> (mutexes k)) k).
Definition set_semaphore (s : nat) (x : Semaphore) : ST kernel unit :=
  modify (fun k => set_semaphores (<[s := x]> (semaphores k)) k).
Definition set_condvar (c : nat) (x : list nat) : ST kernel unit :=
  modify (fun k => set_condvars (<[c := x]> (condvars k)) k).

(** One round of the loop of [MutexSpin::lock]. *)
Definition MutexSpin_lock (m : nat) (locked : bool) : ST kernel bool :=
  if locked then
    suspend_current_and_run_next (KSpin m);; mret false
  else
    set_mutex m (MutexSpin true);; mret true.

Definition MutexSpin_unlock (m : nat) : ST kernel unit := set_mutex m (MutexSpin false).

Definition MutexBlocking_lock (m : nat) (locked : bool) (waiter_queue : list nat) : ST kernel bool :=
  if locked then
    t ← current_task;
    set_mutex m (MutexBlocking locked (waiter_queue ++ [t]));;
    block_current_and_run_next (KLocked m);;
    mret false
  else
    set_mutex m (MutexBlocking true waiter_queue);; mret true.

Definition MutexBlocking_unlock (m : nat) (locked : bool) (waiter_queue : list nat) : ST kernel unit :=
  lift (rassert locked);;
  match pop_front waiter_queue with
  | Some (waiter, rest) =>
      set_mutex m (MutexBlocking locked rest);;
      wakeup_task waiter
  | None => set_mutex m (MutexBlocking false waiter_queue)
  end.

Definition lock (m : nat) : ST kernel bool := fun k =>
  x ← object (mutexes k) m;
  match x with
  | MutexSpin locked => MutexSpin_lock m locked k
  | MutexBlocking locked q => MutexBlocking_lock m locked q k
  end.

Definition unlock (m : nat) : ST kernel unit := fun k =>
  x ← object (mutexes k) m;
  match x with
  | MutexSpin _ => MutexSpin_unlock m k
  | MutexBlocking locked q => MutexBlocking_unlock m locked q k
  end.

Definition up (s : nat) : ST kernel unit := fun k =>
  x ← object (semaphores k) s;
  (let count' := as_isize (count x + 1) in
   if count' <=? 0 then
     match pop_front (sem_queue x) with
     | Some (t, rest) => set_semaphore s (mkSem count' rest);; wakeup_task t
     | None => set_semaphore s (mkSem count' (sem_queue x))
     end
   else set_semaphore s (mkSem count' (sem_queue x))) k.

Definition down (s : nat) : ST kernel bool := fun k =>
  x ← object (semaphores k) s;
  (let count' := as_isize (count x - 1) in
   if count' <? 0 then
     t ← current_task;
     set_semaphore s (mkSem count' (sem_queue x ++ [t]));;
     block_current_and_run_next (KDown s);;
     mret false
   else
     set_semaphore s (mkSem count' (sem_queue x));; mret true) k.

Definition signal (c : nat) : ST kernel unit := fun k =>
  q ← object (condvars k) c;
  match pop_front q with
  | Some (t, rest) => (set_condvar c rest;; wakeup_task t) k
  | None => Ok (tt, k)
  end.

Definition wait (c m : nat) : ST kernel bool :=
  unlock m;;
  q ← reads (fun k => object (condvars k) c);
  t ← current_task;
  set_condvar c (q ++ [t]);;
  block_current_and_run_next (KWait m);;
  mret false.

(** What a task does when the idle loop switches to it. *)
Definition resume (c : kont) : ST kernel bool :=
  match c with
  | KSpin m | KWait m => lock m
  | KStart | KYield | KSleep | KLocked _ | KDown _ => mret true
  end.

(** ** os/src/syscall/sync.rs

    The result is [None] while the call has not returned. *)

Definition returns (b : bool) : option Z := if b then Some 0 else None.

Definition sys_sleep (get_time sleep_ms : Z) : ST kernel (option Z) :=
  let expire := uadd (get_time_ms get_time) sleep_ms in
  t ← current_task;
  add_timer expire t;;
  block_current_and_run_next KSleep;;
  mret None.

Definition sys_yield : ST kernel (option Z) := suspend_current_and_run_next KYield;; mret None.

(** [if let Some((id, _)) = list.iter().enumerate().find(|(_, m)| m.is_none())
     { list[id] = Some(x); id } else { list.push(Some(x)); list.len() - 1 }] *)
Definition alloc_slot (l : list (option nat)) (x : nat) : Z * list (option nat) :=
  match find_index (fun o => bool_decide (o = None)) l with
  | Some i => (Z.of_nat i, <[i := Some x]> l)
  | None => (Z.of_nat (length (l ++ [Some x])) - 1, l ++ [Some x])
  end.

Definition tables_of (p : nat) : ST kernel proc_tables :=
  gets (fun k => default no_tables (tables k !! p)).

Definition sys_mutex_create (blocking : bool) : ST kernel (option Z) :=
  p ← current_process;
  m ← gets (fun k => length (mutexes k));
  modify (fun k => set_mutexes (mutexes k ++ [if blocking then MutexBlocking_new else MutexSpin_new]) k);;
  ts ← tables_of p;
  let '(id, l) := alloc_slot (mutex_list ts) m in
  modify (set_tables p (mkTables l (semaphore_list ts) (condvar_list ts)));;
  mret (Some id).

Definition sys_semaphore_create (res_count : Z) : ST kernel (option Z) :=
  p ← current_process;
  s ← gets (fun k => length (semaphores k));
  modify (fun k => set_semaphores (semaphores k ++ [Semaphore_new res_count]) k);;
  ts ← tables_of p;
  let '(id, l) := alloc_slot (semaphore_list ts) s in
  modify (set_tables p (mkTables (mutex_list ts) l (condvar_list ts)));;
  mret (Some id).

Definition sys_condvar_create : ST kernel (option Z) :=
  p ← current_process;
  c ← gets (fun k => length (condvars k));
  modify (fun k => set_condvars (condvars k ++ [Condvar_new]) k);;
  ts ← tables_of p;
  let '(id, l) := alloc_slot (condvar_list ts) c in
  modify (set_tables p (mkTables (mutex_list ts) (semaphore_list ts) l));;
  mret (Some id).

(** [process_inner.mutex_list[id].as_ref().unwrap().clone()] *)
Definition get_object (f : proc_tables -> list (option nat)) (id : Z) : ST kernel nat :=
  p ← current_process;
  ts ← tables_of p;
  o ← lift (index (f ts) id);
  lift (unwrap o).

Definition sys_mutex_lock (mutex_id : Z) : ST kernel (option Z) :=
  m ← get_object mutex_list mutex_id; b ← lock m; mret (returns b).
Definition sys_mutex_unlock (mutex_id : Z) : ST kernel (option Z) :=
  m ← get_object mutex_list mutex_id; unlock m;; mret (Some 0).
Definition sys_semaphore_up (sem_id : Z) : ST kernel (option Z) :=
  s ← get_object semaphore_list sem_id; up s;; mret (Some 0).
Definition sys_semaphore_down (sem_id : Z) : ST kernel (option Z) :=
  s ← get_object semaphore_list sem_id; b ← down s; mret (returns b).
Definition sys_condvar_signal (condvar_id : Z) : ST kernel (option Z) :=
  c ← get_object condvar_list condvar_id; signal c;; mret (Some 0).
Definition sys_condvar_wait (condvar_id mutex_id : Z) : ST kernel (option Z) :=
  c ← get_object condvar_list condvar_id;
  m ← get_object mutex_list mutex_id;
  b ← wait c m; mret (returns b).

(** * The system *)

(** What a task can ask for. *)
Inductive call :=
| CLock (m : nat) | CUnlock (m : nat)
| CUp (s : nat) | CDown (s : nat)
| CSignal (c : nat) | CWait (c m : nat)
| CSleep (get_time ms : Z) | CYield
| CNewMutex (blocking : bool) | CNewSemaphore (n : Z) | CNewCondvar.

Definition do_call (c : call) : ST kernel bool :=
  match c with
  | CLock m => lock m
  | CUnlock m => unlock m;; mret true
  | CUp s => up s;; mret true
  | CDown s => down s
  | CSignal c => signal c;; mret true
  | CWait c m => wait c m
  | CSleep now ms => sys_sleep now ms;; mret false
  | CYield => sys_yield;; mret false
  | CNewMutex b => sys_mutex_create b;; mret true
  | CNewSemaphore n => sys_semaphore_create n;; mret true
  | CNewCondvar => sys_condvar_create;; mret true
  end.

(** What can be observed from outside the kernel, the latest event first. *)
Inductive event :=
| Dispatched (t : nat)
| Locked (t m : nat)             (* [lock] or [wait] returned to [t] *)
| Unlocked (t m : nat)           (* [t] called [unlock] or [wait] *)
| Downed (t s : nat)             (* [down] returned to [t] *)
| Upped (s : nat)                (* [up] was called *)
| Created (s : nat) (n : Z)      (* a semaphore was created with [n] units *)
| Perished (t : nat) (c : kont). (* the process of [t] exited when [t] was ready at [c] *)

Definition before_call (t : nat) (c : call) (k : kernel) : list event :=
  match c with
  | CUnlock m | CWait _ m => [Unlocked t m]
  | CUp s => [Upped s]
  | CNewSemaphore n => [Created (length (semaphores k)) n]
  | _ => []
  end.

Definition after_call (t : nat) (c : call) : list event :=
  match c with
  | CLock m => [Locked t m]
  | CDown s => [Downed t s]
  | _ => []
  end.

Definition after_resume (t : nat) (c : kont) : list event :=
  match c with
  | KSpin m | KLocked m | KWait m => [Locked t m]
  | KDown s => [Downed t s]
  | _ => []
  end.

(** The ready tasks that perish with process [p]. *)
Definition perish (p : nat) (k : kernel) : list event :=
  (fun t => Perished t (default KStart (konts k !! t))) <$> filter (fun t => process_of k !! t = Some p) (ready_queue k).

(** The tasks inside the critical section of [m]: those whose [lock] or [wait]
    returned and that have not called [unlock] or [wait] since, and those that perished
    when the mutex had been handed to them. *)
Fixpoint holders (m : nat) (log : list event) : list nat :=
  match log with
  | [] => []
  | Locked t m' :: log' => if decide (m' = m) then t :: holders m log' else holders m log'
  | Unlocked t m' :: log' =>
      if decide (m' = m) then filter (fun t' => t' <> t) (holders m log') else holders m log'
  | Perished t (KLocked m') :: log' => if decide (m' = m) then t :: holders m log' else holders m log'
  | _ :: log' => holders m log'
  end.

(** The units a semaphore was ever given, and those that [down] has taken: it returned, or
    its task perished with the unit. *)
Fixpoint units (s : nat) (log : list event) : Z :=
  match log with
  | [] => 0
  | Upped s' :: log' => (if decide (s' = s) then 1 else 0) + units s log'
  | Created s' n :: log' => (if decide (s' = s) then n else 0) + units s log'
  | _ :: log' => units s log'
  end.

Fixpoint taken (s : nat) (log : list event) : Z :=
  match log with
  | [] => 0
  | Downed _ s' :: log' => (if decide (s' = s) then 1 else 0) + taken s log'
  | Perished _ (KDown s') :: log' => (if decide (s' = s) then 1 else 0) + taken s log'
  | _ :: log' => taken s log'
  end.

(** Where a task waits. *)
Inductive tag := TMutex (m : nat) | TSem (s : nat) | TCond (c : nat) | TTimer.
#[global] Instance tag_eq_dec : EqDecision tag.
Proof. solve_decision. Defined.

Definition mutex_queue (x : Mutex) : list nat :=
  match x with MutexSpin _ => [] | MutexBlocking _ q => q end.

Fixpoint queues (f : nat -> tag) (i : nat) (ls : list (list nat)) : list (nat * tag) :=
  match ls with
  | [] => []
  | l :: ls' => ((fun t => (t, f i)) <$> l) ++ queues f (S i) ls'
  end.

Definition blocked (k : kernel) : list (nat * tag) :=
  queues TMutex 0 (mutex_queue <$> mutexes k) ++ queues TSem 0 (sem_queue <$> semaphores k) ++
  queues TCond 0 (condvars k) ++ ((fun x => (timer_task x, TTimer)) <$> timers k).

(** Every place where the kernel keeps a live task. *)
Definition places (k : kernel) : list nat :=
  option_list (current k) ++ ready_queue k ++ (blocked k).*1.

Definition limit : Z := 2 ^ 62.

(** The discipline of the callers: they unlock (or wait with) a mutex they hold, and
    the units of a semaphore stay in range. *)
Definition allowed (t : nat) (c : call) (log : list event) : Prop :=
  match c with
  | CUnlock m | CWait _ m => t ∈ holders m log
  | CUp s => units s log + 1 < limit
  | CNewSemaphore n => 0 <= n < limit
  | _ => True
  end.

Definition world : Type := kernel * list event.

Definition spawn (t p : nat) (k : kernel) : kernel :=
  mkKernel (current k) (ready_queue k ++ [t]) (<[t := Ready]> (status k)) (<[t := KStart]> (konts k))
    (timers k) (mutexes k) (semaphores k) (condvars k) (<[t := p]> (process_of k)) (tables k).

Inductive step : world -> world -> Prop :=
| step_call k log t c b k' :
    current k = Some t -> allowed t c log -> do_call c k = Ok (b, k') ->
    step (k, log) (k', (if b then after_call t c else []) ++ before_call t c k ++ log)
| step_dispatch k log t k1 c b k2 :
    current k = None -> run_tasks_round k = Ok (Some t, k1) -> konts k1 !! t = Some c ->
    resume c k1 = Ok (b, k2) ->
    step (k, log) (k2, (if b then after_resume t c else []) ++ Dispatched t :: log)
| step_tick k log t now k' :
    current k = Some t -> (check_timer now;; suspend_current_and_run_next KYield) k = Ok (tt, k') ->
    step (k, log) (k', log)
| step_spawn k log t p :
    t ∉ places k -> Z.of_nat (length (places k)) + 1 < limit ->
    step (k, log) (spawn t p k, log)
| step_exit k log t p (whole : bool) k' :
    current k = Some t -> process_of k !! t = Some p -> exit_task whole k = Ok (tt, k') ->
    step (k, log) (k', (if whole then perish p k else []) ++ log).

Definition boot : world := (mkKernel None [] ∅ ∅ [] [] [] [] ∅ ∅, []).
Definition reachable (w : world) : Prop := rtc step boot w.

(** * Lemmas *)

Lemma queues_insert f i ls j q q' :
  ls !! j = Some q ->
  exists rest, queues f i ls ≡ₚ ((fun t => (t, f (i + j)%nat)) <$> q) ++ rest /\
    queues f i (<[j := q']> ls) ≡ₚ ((fun t => (t, f (i + j)%nat)) <$> q') ++ rest.
Proof.
  revert i j. induction ls as [|l ls IH]; intros i j Hj; [done|]. destruct j as [|j]; simpl in *.
  - simplify_eq. exists (queues f (S i) ls). by rewrite Nat.add_0_r.
  - destruct (IH (S i) j Hj) as (rest & E1 & E2).
    exists (((fun t => (t, f i)) <$> l) ++ rest). rewrite E1, E2.
    replace (i + S j)%nat with (S i + j)%nat by lia. split; solve_Permutation.
Qed.

Lemma queues_snoc_nil f i ls : queues f i (ls ++ [[]]) = queues f i ls.
Proof. revert i. induction ls as [|l ls IH]; intros i; simpl; [done|]. by rewrite IH. Qed.

(** One queue, popped at the front or pushed at the back. *)
Lemma queues_pop f ls j t q :
  ls !! j = Some (t :: q) -> queues f 0 ls ≡ₚ (t, f j) :: queues f 0 (<[j := q]> ls).
Proof.
  intros Hj. destruct (queues_insert f 0 ls j _ q Hj) as (rest & -> & ->). by rewrite fmap_cons.
Qed.

Lemma queues_push f ls j t q :
  ls !! j = Some q -> queues f 0 (<[j := q ++ [t]]> ls) ≡ₚ (t, f j) :: queues f 0 ls.
Proof.
  intros Hj. destruct (queues_insert f 0 ls j _ (q ++ [t]) Hj) as (rest & -> & ->).
  rewrite fmap_app. simpl. solve_Permutation.
Qed.

Lemma queues_elem f ls j q t : ls !! j = Some q -> t ∈ q -> (t, f j) ∈ queues f 0 ls.
Proof.
  intros Hj Ht. destruct (queues_insert f 0 ls j _ q Hj) as (rest & -> & _).
  apply elem_of_app. left. apply list_elem_of_fmap. by exists t.
Qed.

(** ** The primitives, run *)

Definition woken (t : nat) (k : kernel) : kernel :=
  set_ready (ready_queue k ++ [t]) (set_status t Ready k).
Definition suspended (t : nat) (c : kont) (k : kernel) : kernel :=
  set_kont t c (set_ready (ready_queue k ++ [t]) (set_status t Ready (set_current None k))).
Definition parked (t : nat) (c : kont) (k : kernel) : kernel :=
  set_kont t c (set_status t Blocked (set_current None k)).

Lemma wakeup_run t k : wakeup_task t k = Ok (tt, woken t k).
Proof. done. Qed.

Lemma current_run t k : current k = Some t -> current_task k = Ok (t, k).
Proof. intros H. unfold current_task, reads. by rewrite H. Qed.

Lemma suspend_run t c k : current k = Some t -> suspend_current_and_run_next c k = Ok (tt, suspended t c k).
Proof.
  intros H. unfold suspend_current_and_run_next, take_current_task, mbind, st_bind. by rewrite H.
Qed.

Lemma block_run t c k : current k = Some t -> block_current_and_run_next c k = Ok (tt, parked t c k).
Proof.
  intros H. unfold block_current_and_run_next, take_current_task, mbind, st_bind. by rewrite H.
Qed.

Lemma lock_run t m x k :
  current k = Some t -> mutexes k !! m = Some x ->
  lock m k = Ok match x with
    | MutexSpin true => (false, suspended t (KSpin m) k)
    | MutexSpin false => (true, set_mutexes (<[m := MutexSpin true]> (mutexes k)) k)
    | MutexBlocking true q =>
        (false, parked t (KLocked m) (set_mutexes (<[m := MutexBlocking true (q ++ [t])]> (mutexes k)) k))
    | MutexBlocking false q => (true, set_mutexes (<[m := MutexBlocking true q]> (mutexes k)) k)
    end.
Proof.
  intros Hc Hm. unfold lock, object. rewrite Hm. cbn [mbind res_bind].
  destruct x as [[]|[] q]; cbn [MutexSpin_lock MutexBlocking_lock]; [| done | | done].
  - by rewrite (st_bind_run _ _ _ _ _ (suspend_run t _ k Hc)).
  - rewrite (st_bind_run _ _ _ _ _ (current_run t k Hc)). unfold set_mutex, modify. st_step.
    by erewrite st_bind_run by (by apply block_run).
Qed.

Lemma unlock_run m x k :
  mutexes k !! m = Some x ->
  unlock m k = match x with
    | MutexSpin _ => Ok (tt, set_mutexes (<[m := MutexSpin false]> (mutexes k)) k)
    | MutexBlocking true (w :: q) =>
        Ok (tt, woken w (set_mutexes (<[m := MutexBlocking true q]> (mutexes k)) k))
    | MutexBlocking true [] => Ok (tt, set_mutexes (<[m := MutexBlocking false []]> (mutexes k)) k)
    | MutexBlocking false _ => Panic AssertFailed
    end.
Proof. intros Hm. unfold unlock, object. rewrite Hm. by destruct x as [[]|[] [|w q]]. Qed.

Lemma up_run s x k :
  semaphores k !! s = Some x ->
  up s k = Ok (tt, let c := as_isize (count x + 1) in
    if c <=? 0 then
      match sem_queue x with
      | w :: q => woken w (set_semaphores (<[s := mkSem c q]> (semaphores k)) k)
      | [] => set_semaphores (<[s := mkSem c []]> (semaphores k)) k
      end
    else set_semaphores (<[s := mkSem c (sem_queue x)]> (semaphores k)) k).
Proof.
  intros Hs. unfold up, object. rewrite Hs. cbn [mbind res_bind]. cbv zeta. case_match; [|done].
  by destruct (sem_queue x).
Qed.

Lemma down_run t s x k :
  current k = Some t -> semaphores k !! s = Some x ->
  down s k = Ok (let c := as_isize (count x - 1) in
    if c <? 0 then
      (false, parked t (KDown s) (set_semaphores (<[s := mkSem c (sem_queue x ++ [t])]> (semaphores k)) k))
    else (true, set_semaphores (<[s := mkSem c (sem_queue x)]> (semaphores k)) k)).
Proof.
  intros Hc Hs. unfold down, object. rewrite Hs. cbn [mbind res_bind]. cbv zeta. case_match; [|done].
  rewrite (st_bind_run _ _ _ _ _ (current_run t k Hc)). unfold set_semaphore, modify. st_step.
  by erewrite st_bind_run by (by apply block_run).
Qed.

Lemma signal_run c q k :
  condvars k !! c = Some q ->
  signal c k = Ok (tt, match q with
    | w :: q => woken w (set_condvars (<[c := q]> (condvars k)) k)
    | [] => k
    end).
Proof. intros Hc. unfold signal, object. rewrite Hc. by destruct q. Qed.

(** [wait], after its [unlock] left the kernel in [k]. *)
Lemma wait_run t c m q k0 k :
  unlock m k0 = Ok (tt, k) -> current k = Some t -> condvars k !! c = Some q ->
  wait c m k0 = Ok (false, parked t (KWait m) (set_condvars (<[c := q ++ [t]]> (condvars k)) k)).
Proof.
  intros Hu Hc Hq. unfold wait. st_step_by Hu.
  assert (E : reads (fun k => object (condvars k) c) k = Ok (q, k)) by (unfold reads, object; by rewrite Hq).
  st_step_by E. rewrite (st_bind_run _ _ _ _ _ (current_run t k Hc)).
  unfold set_condvar, modify. st_step. by erewrite st_bind_run by (by apply block_run).
Qed.

Lemma sleep_run t now ms k :
  current k = Some t ->
  sys_sleep now ms k =
  Ok (None, parked t KSleep (set_timers (mkTimer (uadd (get_time_ms now) ms) t :: timers k) k)).
Proof.
  intros Hc. unfold sys_sleep. rewrite (st_bind_run _ _ _ _ _ (current_run t k Hc)).
  unfold add_timer, modify. st_step. by erewrite st_bind_run by (by apply block_run).
Qed.

Lemma yield_run t k : current k = Some t -> sys_yield k = Ok (None, suspended t KYield k).
Proof. intros Hc. unfold sys_yield. by rewrite (st_bind_run _ _ _ _ _ (suspend_run t _ k Hc)). Qed.

Lemma dispatch_run k t k1 :
  run_tasks_round k = Ok (Some t, k1) ->
  exists q, ready_queue k = t :: q /\ k1 = set_current (Some t) (set_status t Running (set_ready q k)).
Proof.
  unfold run_tasks_round, fetch_task, mbind, st_bind. destruct (ready_queue k) as [|u q]; simpl; [done|].
  intros [= <- <-]. by exists q.
Qed.

(** ** Timers *)

Lemma heap_pop_spec ts :
  match peek ts with
  | None => ts = []
  | Some y => exists rest, heap_pop ts = Some (y, rest) /\ ts ≡ₚ y :: rest /\
      Forall (fun x => expire_ms y <= expire_ms x) ts
  end.
Proof.
  induction ts as [|x ts IH]; simpl; [done|]. destruct (peek ts) as [y|].
  - destruct IH as (rest & -> & Hp & Hmin). destruct (expire_ms y <? expire_ms x) eqn:E; bool_to_Prop.
    + exists (x :: rest). split_and!; [done|rewrite Hp; solve_Permutation|]. constructor; [lia|done].
    + exists ts. split_and!; [done|done|]. constructor; [lia|]. eapply Forall_impl; [exact Hmin|].
      simpl. lia.
  - subst ts. exists []. split_and!; [done|done|]. by repeat constructor.
Qed.

(** ** The invariant *)

Definition kont_matches (g : tag) (o : option kont) : Prop :=
  match g with
  | TMutex m => o = Some (KLocked m)
  | TSem s => o = Some (KDown s)
  | TCond _ => exists m, o = Some (KWait m)
  | TTimer => o = Some KSleep
  end.

(** The continuations of a call that was granted what it waited for. *)
Definition grant (c : kont) : Prop :=
  match c with KLocked _ | KDown _ => True | _ => False end.
#[global] Instance grant_dec c : Decision (grant c).
Proof. destruct c; [right; tauto|right; tauto|right; tauto|right; tauto|left; exact I|left; exact I|right; tauto]. Defined.

(** The tasks that were granted [c] and have not run yet. *)
Definition handed (c : kont) (k : kernel) : Z :=
  Z.of_nat (length (filter (fun t => konts k !! t = Some c) (ready_queue k))).

Definition one (P : Prop) `{Decision P} : Z := if decide P then 1 else 0.

Record core (k : kernel) : Prop := {
  core_nodup : NoDup (places k);
  core_blocked : forall t g, (t, g) ∈ blocked k -> kont_matches g (konts k !! t);
  core_ready : forall t, t ∈ ready_queue k -> is_Some (konts k !! t);
  core_size : Z.of_nat (length (places k)) < limit;
}.

Definition mutex_law (o : option Mutex) (held handed : Z) : Prop :=
  match o with
  | None => held = 0 /\ handed = 0
  | Some (MutexSpin l) => held = Z.b2z l /\ handed = 0
  | Some (MutexBlocking l q) => held + handed = Z.b2z l /\ (l = false -> q = [])
  end.

Definition sem_law (o : option Semaphore) (units taken handed : Z) : Prop :=
  match o with
  | None => units = 0 /\ taken = 0 /\ handed = 0
  | Some x => 0 <= units < limit /\ count x + taken + handed + Z.of_nat (length (sem_queue x)) = units /\
      Z.of_nat (length (sem_queue x)) = Z.max 0 (- count x)
  end.

Definition held (m : nat) (log : list event) : Z := Z.of_nat (length (holders m log)).

Record inv (w : world) : Prop := {
  inv_core : core (fst w);
  inv_mutex : forall m, mutex_law (mutexes (fst w) !! m) (held m (snd w)) (handed (KLocked m) (fst w));
  inv_sem : forall s, sem_law (semaphores (fst w) !! s) (units s (snd w)) (taken s (snd w)) (handed (KDown s) (fst w));
}.

Lemma handed_nonneg c k : 0 <= handed c k.
Proof. unfold handed. lia. Qed.
Lemma held_nonneg m log : 0 <= held m log.
Proof. unfold held. lia. Qed.
Lemma taken_nonneg s log : 0 <= taken s log.
Proof. induction log as [|[] log IH]; simpl; repeat case_match; lia. Qed.

Lemma NoDup_perm_l (l1 l2 : list nat) : l1 ≡ₚ l2 -> NoDup l1 -> NoDup l2.
Proof. intros H. by rewrite H. Qed.

Lemma filter_ext_elem (P Q : nat -> Prop) `{!forall x, Decision (P x)} `{!forall x, Decision (Q x)} (l : list nat) :
  (forall x, x ∈ l -> P x <-> Q x) -> filter P l = filter Q l.
Proof.
  induction l as [|x l IH]; intros He; [done|]. rewrite !filter_cons.
  rewrite IH by (intros; apply He; by right). pose proof (He x ltac:(by left)).
  repeat case_decide; tauto.
Qed.

(** A waiting task becomes ready. *)
Lemma move_wake k k' t g :
  core k -> current k' = current k -> ready_queue k' = ready_queue k ++ [t] -> konts k' = konts k ->
  blocked k ≡ₚ (t, g) :: blocked k' ->
  core k' /\ places k' ≡ₚ places k /\ kont_matches g (konts k !! t) /\
  forall c, handed c k' = handed c k + one (konts k !! t = Some c).
Proof.
  intros [Hnd Hb Hr Hs] Hc Hq Hk Hbl.
  assert (Hp : places k' ≡ₚ places k).
  { unfold places. rewrite Hc, Hq, Hbl. simpl. solve_Permutation. }
  assert (Hg : kont_matches g (konts k !! t)) by (apply Hb; rewrite Hbl; by left).
  split; [|split; [done|split; [done|]]].
  - split.
    + by rewrite Hp.
    + intros u g' Hin. rewrite Hk. apply Hb. rewrite Hbl. by right.
    + intros u. rewrite Hq, Hk, elem_of_app, list_elem_of_singleton. intros [Hu| ->]; [by apply Hr|].
      destruct g; simpl in Hg; [by eexists..|destruct Hg; by eexists|by eexists].
    + by rewrite Hp.
  - intros c. unfold handed. rewrite Hk, Hq, filter_app, length_app. unfold one.
    rewrite filter_cons, filter_nil. case_decide; simpl; lia.
Qed.

(** The running task starts to wait. *)
Lemma move_block k k' t g c :
  core k -> current k = Some t -> current k' = None -> ready_queue k' = ready_queue k ->
  konts k' = <[t := c]> (konts k) -> blocked k' ≡ₚ (t, g) :: blocked k -> kont_matches g (Some c) ->
  core k' /\ places k' ≡ₚ places k /\ forall c', handed c' k' = handed c' k.
Proof.
  intros [Hnd Hb Hr Hs] Ht Hc Hq Hk Hbl Hg.
  assert (Hp : places k' ≡ₚ places k).
  { unfold places. rewrite Hc, Hq, Hbl, Ht. simpl. solve_Permutation. }
  assert (Hne : forall u, u ∈ ready_queue k ++ (blocked k).*1 -> t <> u).
  { intros u Hu <-. unfold places in Hnd. rewrite Ht in Hnd. by apply NoDup_cons in Hnd as [? _]. }
  split; [|split; [done|]].
  - split.
    + by rewrite Hp.
    + intros u g'. rewrite Hbl, Hk, elem_of_cons. intros [[= -> ->]|Hin].
      * by rewrite lookup_insert_eq.
      * rewrite lookup_insert_ne; [by apply Hb|]. apply Hne, elem_of_app. right.
        apply list_elem_of_fmap. by exists (u, g').
    + intros u. rewrite Hq, Hk. intros Hu. destruct (decide (t = u)) as [->|].
      * rewrite lookup_insert_eq. by eexists.
      * rewrite lookup_insert_ne by done. by apply Hr.
    + by rewrite Hp.
  - intros c'. unfold handed. rewrite Hk, Hq. do 2 f_equal. apply filter_ext_elem.
    intros u Hu. rewrite lookup_insert_ne; [done|]. apply Hne, elem_of_app. by left.
Qed.

(** The running task goes to the back of the ready queue. *)
Lemma move_suspend k k' t c :
  core k -> current k = Some t -> current k' = None -> ready_queue k' = ready_queue k ++ [t] ->
  konts k' = <[t := c]> (konts k) -> blocked k' = blocked k -> ~ grant c ->
  core k' /\ places k' ≡ₚ places k /\ forall c', grant c' -> handed c' k' = handed c' k.
Proof.
  intros [Hnd Hb Hr Hs] Ht Hc Hq Hk Hbl Hg.
  assert (Hp : places k' ≡ₚ places k).
  { unfold places. rewrite Hc, Hq, Hbl, Ht. simpl. solve_Permutation. }
  assert (Hne : forall u, u ∈ ready_queue k ++ (blocked k).*1 -> t <> u).
  { intros u Hu <-. unfold places in Hnd. rewrite Ht in Hnd. by apply NoDup_cons in Hnd as [? _]. }
  split; [|split; [done|]].
  - split.
    + by rewrite Hp.
    + intros u g'. rewrite Hbl, Hk. intros Hin. rewrite lookup_insert_ne; [by apply Hb|].
      apply Hne, elem_of_app. right. apply list_elem_of_fmap. by exists (u, g').
    + intros u. rewrite Hq, Hk. intros Hu. destruct (decide (t = u)) as [->|].
      * rewrite lookup_insert_eq. by eexists.
      * rewrite lookup_insert_ne by done. apply Hr.
        apply elem_of_app in Hu as [Hu|Hu]; [done|]. by apply list_elem_of_singleton in Hu as ->.
    + by rewrite Hp.
  - intros c' Hg'. unfold handed. rewrite Hk, Hq, filter_app, length_app, filter_cons, filter_nil.
    rewrite decide_False by (rewrite lookup_insert_eq; intros [= ->]; done). simpl.
    rewrite Nat.add_0_r. do 2 f_equal. apply filter_ext_elem.
    intros u Hu. rewrite lookup_insert_ne; [done|]. apply Hne, elem_of_app. by left.
Qed.

(** The first ready task starts to run. *)
Lemma move_dispatch k k' t q c :
  core k -> current k = None -> ready_queue k = t :: q -> current k' = Some t -> ready_queue k' = q ->
  konts k' = konts k -> blocked k' = blocked k -> konts k !! t = Some c ->
  core k' /\ places k' ≡ₚ places k /\ forall c', handed c' k' = handed c' k - one (c = c').
Proof.
  intros [Hnd Hb Hr Hs] Ht Hq Hc Hq' Hk Hbl Hkt.
  assert (Hp : places k' ≡ₚ places k). { unfold places. by rewrite Hc, Hq', Hbl, Ht, Hq. }
  split; [|split; [done|]].
  - split; [by rewrite Hp|by rewrite Hbl, Hk| |by rewrite Hp].
    intros u. rewrite Hq', Hk. intros Hu. apply Hr. rewrite Hq. by right.
  - intros c'. unfold handed, one. rewrite Hk, Hq', Hq, filter_cons.
    destruct (decide (c = c')) as [->|Hne].
    + rewrite decide_True by done. simpl. lia.
    + rewrite decide_False by (rewrite Hkt; congruence). lia.
Qed.

(** Nothing moves. *)
Lemma move_none k k' :
  core k -> current k' = current k -> ready_queue k' = ready_queue k -> konts k' = konts k ->
  blocked k' = blocked k ->
  core k' /\ places k' = places k /\ forall c, handed c k' = handed c k.
Proof.
  intros [Hnd Hb Hr Hs] Hc Hq Hk Hbl.
  assert (Hp : places k' = places k). { unfold places. by rewrite Hc, Hq, Hbl. }
  split; [|split; [done|]].
  - split; [by rewrite Hp|by rewrite Hbl, Hk|by rewrite Hq, Hk|by rewrite Hp].
  - intros c. unfold handed. by rewrite Hq, Hk.
Qed.

(** ** How the queues of the objects change [blocked] *)

Lemma blocked_mutex_same k m x x' :
  mutexes k !! m = Some x -> mutex_queue x' = mutex_queue x ->
  blocked (set_mutexes (<[m := x']> (mutexes k)) k) = blocked k.
Proof.
  intros Hm Hq. unfold blocked. cbn. rewrite list_fmap_insert, Hq, list_insert_id; [done|].
  by rewrite list_lookup_fmap, Hm.
Qed.

Lemma blocked_mutex_push k m x x' t :
  mutexes k !! m = Some x -> mutex_queue x' = mutex_queue x ++ [t] ->
  blocked (set_mutexes (<[m := x']> (mutexes k)) k) ≡ₚ (t, TMutex m) :: blocked k.
Proof.
  intros Hm Hq. unfold blocked. cbn. rewrite list_fmap_insert, Hq.
  by rewrite queues_push by (by rewrite list_lookup_fmap, Hm).
Qed.

Lemma blocked_mutex_pop k m x x' t :
  mutexes k !! m = Some x -> mutex_queue x = t :: mutex_queue x' ->
  blocked k ≡ₚ (t, TMutex m) :: blocked (set_mutexes (<[m := x']> (mutexes k)) k).
Proof.
  intros Hm Hq. unfold blocked. cbn. rewrite list_fmap_insert.
  rewrite (queues_pop TMutex _ m t (mutex_queue x')) by (by rewrite list_lookup_fmap, Hm; simpl; rewrite Hq).
  done.
Qed.

Lemma blocked_sem_same k s x x' :
  semaphores k !! s = Some x -> sem_queue x' = sem_queue x ->
  blocked (set_semaphores (<[s := x']> (semaphores k)) k) = blocked k.
Proof.
  intros Hm Hq. unfold blocked. cbn. rewrite list_fmap_insert, Hq, list_insert_id; [done|].
  by rewrite list_lookup_fmap, Hm.
Qed.

Lemma blocked_sem_push k s x x' t :
  semaphores k !! s = Some x -> sem_queue x' = sem_queue x ++ [t] ->
  blocked (set_semaphores (<[s := x']> (semaphores k)) k) ≡ₚ (t, TSem s) :: blocked k.
Proof.
  intros Hm Hq. unfold blocked. cbn. rewrite list_fmap_insert, Hq.
  rewrite (queues_push TSem) by (by rewrite list_lookup_fmap, Hm). simpl. solve_Permutation.
Qed.

Lemma blocked_sem_pop k s x x' t :
  semaphores k !! s = Some x -> sem_queue x = t :: sem_queue x' ->
  blocked k ≡ₚ (t, TSem s) :: blocked (set_semaphores (<[s := x']> (semaphores k)) k).
Proof.
  intros Hm Hq. unfold blocked. cbn. rewrite list_fmap_insert.
  rewrite (queues_pop TSem _ s t (sem_queue x')) by (by rewrite list_lookup_fmap, Hm; simpl; rewrite Hq).
  simpl. solve_Permutation.
Qed.

Lemma blocked_cond_push k c q t :
  condvars k !! c = Some q ->
  blocked (set_condvars (<[c := q ++ [t]]> (condvars k)) k) ≡ₚ (t, TCond c) :: blocked k.
Proof.
  intros Hc. unfold blocked. cbn. rewrite (queues_push TCond _ c t q) by done. solve_Permutation.
Qed.

Lemma blocked_cond_pop k c t q :
  condvars k !! c = Some (t :: q) ->
  blocked k ≡ₚ (t, TCond c) :: blocked (set_condvars (<[c := q]> (condvars k)) k).
Proof.
  intros Hc. unfold blocked. cbn. rewrite (queues_pop TCond _ c t q) at 1 by done. solve_Permutation.
Qed.

(** ** Every operation keeps the invariant *)

Lemma mutex_law_insert (ms : list Mutex) m x x' (h h' g g' : nat -> Z) :
  (forall n, mutex_law (ms !! n) (h n) (g n)) -> ms !! m = Some x ->
  (forall n, n <> m -> h' n = h n /\ g' n = g n) ->
  mutex_law (Some x') (h' m) (g' m) ->
  forall n, mutex_law (<[m := x']> ms !! n) (h' n) (g' n).
Proof.
  intros Hl Hm Hne Hx n. destruct (decide (n = m)) as [->|Hn].
  - by rewrite list_lookup_insert_eq by (by eapply lookup_lt_Some).
  - rewrite list_lookup_insert_ne by done. destruct (Hne n Hn) as [-> ->]. apply Hl.
Qed.

Lemma sem_law_insert (ss : list Semaphore) s x x' (u u' d d' g g' : nat -> Z) :
  (forall n, sem_law (ss !! n) (u n) (d n) (g n)) -> ss !! s = Some x ->
  (forall n, n <> s -> u' n = u n /\ d' n = d n /\ g' n = g n) ->
  sem_law (Some x') (u' s) (d' s) (g' s) ->
  forall n, sem_law (<[s := x']> ss !! n) (u' n) (d' n) (g' n).
Proof.
  intros Hl Hs Hne Hx n. destruct (decide (n = s)) as [->|Hn].
  - by rewrite list_lookup_insert_eq by (by eapply lookup_lt_Some).
  - rewrite list_lookup_insert_ne by done. destruct (Hne n Hn) as (-> & -> & ->). apply Hl.
Qed.

Lemma held_locked t m n log : held n (Locked t m :: log) = held n log + one (m = n).
Proof. unfold held, one. simpl. case_decide; simpl; lia. Qed.

Lemma held_unlocked_ne t m n log : m <> n -> held n (Unlocked t m :: log) = held n log.
Proof. intros. unfold held. simpl. by rewrite decide_False. Qed.

Lemma held_unlocked t m log : t ∈ holders m log -> held m log <= 1 -> held m log = 1 /\ held m (Unlocked t m :: log) = 0.
Proof.
  unfold held. cbn [holders]. rewrite decide_True by done. intros Hin Hle.
  destruct (holders m log) as [|u [|v l]]; [by apply elem_of_nil in Hin| |simpl in Hle; lia].
  apply list_elem_of_singleton in Hin as ->. split; [done|].
  rewrite filter_cons, filter_nil, decide_False by tauto. done.
Qed.

Lemma one_ne (a b : nat) : a <> b -> one (a = b) = 0.
Proof. intros. unfold one. by rewrite decide_False. Qed.
Lemma one_eq (a : nat) : one (a = a) = 1.
Proof. unfold one. by rewrite decide_True. Qed.
Lemma one_kont (c c' : kont) : one (Some c = Some c') = one (c = c').
Proof. unfold one. destruct (decide (c = c')) as [->|]; case_decide; congruence. Qed.
Lemma one_kont_ne (c c' : kont) : c <> c' -> one (c = c') = 0.
Proof. intros. unfold one. by rewrite decide_False. Qed.
Lemma one_locked m n : one (KLocked m = KLocked n) = one (m = n).
Proof. unfold one. repeat case_decide; naive_solver. Qed.
Lemma one_down m n : one (KDown m = KDown n) = one (m = n).
Proof. unfold one. repeat case_decide; naive_solver. Qed.

(** An operation that moves tasks but changes no object and no observation. *)
Lemma inv_frame k k' log log' :
  inv (k, log) -> core k' -> mutexes k' = mutexes k -> semaphores k' = semaphores k ->
  (forall m, held m log' = held m log) -> (forall s, units s log' = units s log) ->
  (forall s, taken s log' = taken s log) -> (forall c, grant c -> handed c k' = handed c k) ->
  inv (k', log').
Proof.
  intros [_ Hm Hs] Hc Em Es Hh Hu Ht Hg. split; [done|..]; cbn [fst snd] in *.
  - intros m. rewrite Em, Hh, (Hg (KLocked m) I). apply Hm.
  - intros s. rewrite Es, Hu, Ht, (Hg (KDown s) I). apply Hs.
Qed.

(** A mutex changes. *)
Lemma inv_mutex_change k k' log log' m x x' :
  inv (k, log) -> core k' -> mutexes k !! m = Some x -> mutexes k' = <[m := x']> (mutexes k) ->
  semaphores k' = semaphores k ->
  (forall n, n <> m -> held n log' = held n log) -> (forall s, units s log' = units s log) ->
  (forall s, taken s log' = taken s log) ->
  (forall c, grant c -> c <> KLocked m -> handed c k' = handed c k) ->
  mutex_law (Some x') (held m log') (handed (KLocked m) k') ->
  inv (k', log').
Proof.
  intros [_ Hm Hs] Hc Hx Em Es Hh Hu Ht Hg Hl. split; [done|..]; cbn [fst snd] in *.
  - intros n. rewrite Em. revert n. eapply mutex_law_insert; [exact Hm|done| |done].
    intros n Hn. split; [by apply Hh|]. apply Hg; [done|congruence].
  - intros s. rewrite Es, Hu, Ht, (Hg (KDown s) I) by done. apply Hs.
Qed.

(** A semaphore changes. *)
Lemma inv_sem_change k k' log log' s x x' :
  inv (k, log) -> core k' -> semaphores k !! s = Some x -> semaphores k' = <[s := x']> (semaphores k) ->
  mutexes k' = mutexes k ->
  (forall m, held m log' = held m log) -> (forall n, n <> s -> units n log' = units n log) ->
  (forall n, n <> s -> taken n log' = taken n log) ->
  (forall c, grant c -> c <> KDown s -> handed c k' = handed c k) ->
  sem_law (Some x') (units s log') (taken s log') (handed (KDown s) k') ->
  inv (k', log').
Proof.
  intros [_ Hm Hs] Hc Hx Em Es Hh Hu Ht Hg Hl. split; [done|..]; cbn [fst snd] in *.
  - intros m. rewrite Es, Hh, (Hg (KLocked m) I) by done. apply Hm.
  - intros n. rewrite Em. revert n. eapply sem_law_insert; [exact Hs|done| |done].
    intros n Hn. split_and!; [by apply Hu|by apply Ht|]. apply Hg; [done|congruence].
Qed.

Definition keeps (k : kernel) (w' : world) : Prop := inv w' /\ places (fst w') ≡ₚ places k.

Lemma lock_inv k log t m b k' :
  inv (k, log) -> current k = Some t -> lock m k = Ok (b, k') ->
  keeps k (k', (if b then [Locked t m] else []) ++ log).
Proof.
  intros Hi Ht. pose proof (inv_core _ Hi) as Hc. pose proof (inv_mutex _ Hi m) as Hl. cbn [fst snd] in *.
  destruct (mutexes k !! m) as [x|] eqn:Hx; [|by unfold lock, object; rewrite Hx].
  rewrite (lock_run t m x k Ht Hx). pose proof (held_nonneg m log). pose proof (handed_nonneg (KLocked m) k).
  assert (Htake : forall x', mutex_queue x' = mutex_queue x -> x' = MutexSpin true \/ x' = MutexBlocking true (mutex_queue x) ->
    held m log = 0 -> handed (KLocked m) k = 0 ->
    keeps k (set_mutexes (<[m := x']> (mutexes k)) k, Locked t m :: log)).
  { intros x' Hq Hx' Hh Hg.
    destruct (move_none k (set_mutexes (<[m := x']> (mutexes k)) k) Hc eq_refl eq_refl eq_refl
      (blocked_mutex_same k m x x' Hx Hq)) as (Hc' & Hp & Hg').
    split; [|by cbn [fst]; rewrite Hp].
    eapply (inv_mutex_change k _ log _ m x x'); [done|done|done|done|done| |done|done|by intros|].
    - intros n Hn. rewrite held_locked, one_ne by congruence. lia.
    - rewrite held_locked, one_eq, Hg', Hh, Hg. destruct Hx' as [-> | ->]; by split. }
  destruct x as [[]|[] q]; cbn [mutex_law] in Hl; intros [= <- <-]; cbn [app].
  - destruct (move_suspend k (suspended t (KSpin m) k) t (KSpin m) Hc Ht) as (Hc' & Hp & Hg); try done; [tauto|].
    split; [|done]. by eapply inv_frame.
  - apply Htake; [done|by left|destruct Hl; simpl in *; lia|tauto].
  - destruct (move_block k (parked t (KLocked m) (set_mutexes (<[m := MutexBlocking true (q ++ [t])]> (mutexes k)) k))
      t (TMutex m) (KLocked m) Hc Ht) as (Hc' & Hp & Hg); [done|done|done| |done|].
    { exact (blocked_mutex_push k m (MutexBlocking true q) (MutexBlocking true (q ++ [t])) t Hx eq_refl). }
    split; [|done]. eapply (inv_mutex_change k _ log log m); [done|done|done|done|done|done|done|done|by intros|].
    rewrite Hg. simpl. simpl in Hl. split; [lia|done].
  - simpl in Hl. destruct Hl as [Hl Hq]. specialize (Hq eq_refl) as ->. apply Htake; [done|by right|lia|lia].
Qed.

Lemma held_le_1 k log m : inv (k, log) -> held m log <= 1.
Proof.
  intros Hi. pose proof (inv_mutex _ Hi m) as Hl. cbn [fst snd] in Hl.
  pose proof (handed_nonneg (KLocked m) k).
  destruct (mutexes k !! m) as [[[]|[] q]|]; simpl in Hl; lia.
Qed.

Lemma unlock_inv k log t m :
  inv (k, log) -> t ∈ holders m log ->
  exists k', unlock m k = Ok (tt, k') /\ keeps k (k', Unlocked t m :: log) /\
    current k' = current k /\ condvars k' = condvars k.
Proof.
  intros Hi Hin. pose proof (inv_core _ Hi) as Hc. pose proof (inv_mutex _ Hi m) as Hl. cbn [fst snd] in *.
  destruct (held_unlocked t m log Hin (held_le_1 k log m Hi)) as [H1 H0].
  pose proof (handed_nonneg (KLocked m) k).
  assert (Hne : forall n, n <> m -> held n (Unlocked t m :: log) = held n log)
    by (intros; by apply held_unlocked_ne).
  assert (Hrel : forall x x', mutexes k !! m = Some x -> mutex_queue x' = mutex_queue x ->
    mutex_law (Some x') 0 (handed (KLocked m) k) ->
    keeps k (set_mutexes (<[m := x']> (mutexes k)) k, Unlocked t m :: log)).
  { intros x x' Hx Hq Hlaw.
    destruct (move_none k (set_mutexes (<[m := x']> (mutexes k)) k) Hc eq_refl eq_refl eq_refl
      (blocked_mutex_same k m x x' Hx Hq)) as (Hc' & Hp & Hg').
    split; [|by cbn [fst]; rewrite Hp].
    eapply (inv_mutex_change k _ log _ m x x'); [done|done|done|done|done|done|done|done|by intros|].
    by rewrite H0, Hg'. }
  destruct (mutexes k !! m) as [x|] eqn:Hx; [|simpl in Hl; lia].
  rewrite (unlock_run m x k Hx). destruct x as [l|[] [|w q]]; cbn [mutex_law Z.b2z] in Hl.
  - eexists. split_and!; [done| |done|done]. apply (Hrel (MutexSpin l)); [done|done|]. simpl. tauto.
  - eexists. split_and!; [done| |done|done]. apply (Hrel (MutexBlocking true [])); [done|done|]. simpl. split; [lia|done].
  - eexists. split_and!; [done| |done|done].
    set (k1 := set_mutexes (<[m := MutexBlocking true q]> (mutexes k)) k).
    destruct (move_wake k (woken w k1) w (TMutex m) Hc eq_refl eq_refl eq_refl
      (blocked_mutex_pop k m (MutexBlocking true (w :: q)) (MutexBlocking true q) w Hx eq_refl)) as (Hc' & Hp & Hk & Hg).
    cbn [kont_matches] in Hk. split; [|done].
    eapply (inv_mutex_change k _ log _ m); [done|done|done|done|done|done|done|done| |].
    + intros c _ Hn. rewrite Hg, Hk, one_kont, one_kont_ne by congruence. lia.
    + rewrite Hg, Hk, one_kont, one_locked, one_eq, H0. simpl. split; [lia|done].
  - simpl in Hl. lia.
  - simpl in Hl. lia.
Qed.

Lemma as_isize_small z : - 2 ^ 63 <= z < 2 ^ 63 -> as_isize z = z.
Proof.
  intros Hz. unfold as_isize, as_signed, wrap. change (64 - 1) with 63.
  destruct (decide (0 <= z)).
  - rewrite Z.mod_small by lia. by rewrite (proj2 (Z.ltb_lt z (2 ^ 63))) by lia.
  - rewrite <- (Z.mod_unique z (2 ^ 64) (-1) (z + 2 ^ 64)) by lia.
    rewrite (proj2 (Z.ltb_ge (z + 2 ^ 64) (2 ^ 63))) by lia. lia.
Qed.

Lemma sem_queue_size k s x :
  core k -> semaphores k !! s = Some x -> Z.of_nat (length (sem_queue x)) < limit.
Proof.
  intros Hc Hs. pose proof (core_size _ Hc) as Hsz. unfold places, blocked in Hsz.
  destruct (queues_insert TSem 0 (sem_queue <$> semaphores k) s (sem_queue x) [] ) as (rest & Hq & _).
  { by rewrite list_lookup_fmap, Hs. }
  apply Permutation_length in Hq. rewrite length_app, length_fmap in Hq.
  rewrite !length_app, length_fmap, !length_app, Hq in Hsz. lia.
Qed.

Lemma sem_count_range k log s x :
  inv (k, log) -> semaphores k !! s = Some x -> - limit < count x < limit.
Proof.
  intros Hi Hs. pose proof (sem_queue_size k s x (inv_core _ Hi) Hs). pose proof (inv_sem _ Hi s) as Hl.
  cbn [fst snd] in *. rewrite Hs in Hl. destruct Hl as (Hu & Hsum & Hq).
  pose proof (taken_nonneg s log). pose proof (handed_nonneg (KDown s) k). lia.
Qed.

Lemma up_inv k log s k' :
  inv (k, log) -> units s log + 1 < limit -> up s k = Ok (tt, k') -> keeps k (k', Upped s :: log).
Proof.
  intros Hi Hlim. pose proof (inv_core _ Hi) as Hc. pose proof (inv_sem _ Hi s) as Hl. cbn [fst snd] in *.
  destruct (semaphores k !! s) as [x|] eqn:Hx; [|by unfold up, object; rewrite Hx].
  pose proof (sem_count_range k log s x Hi Hx) as Hr. unfold limit in *.
  rewrite (up_run s x k Hx), as_isize_small by lia. cbv zeta. destruct Hl as (Hu & Hsum & Hq).
  assert (Hne : forall n, n <> s -> units n (Upped s :: log) = units n log).
  { intros n Hn. simpl. by rewrite decide_False by congruence. }
  assert (Heq : units s (Upped s :: log) = units s log + 1) by (simpl; rewrite decide_True by done; lia).
  assert (Hadd : sem_queue x = [] -> keeps k
    (set_semaphores (<[s := mkSem (count x + 1) (sem_queue x)]> (semaphores k)) k, Upped s :: log)).
  { intros Hnil. destruct (move_none k (set_semaphores (<[s := mkSem (count x + 1) (sem_queue x)]> (semaphores k)) k) Hc
      eq_refl eq_refl eq_refl (blocked_sem_same k s x (mkSem (count x + 1) (sem_queue x)) Hx eq_refl)) as (Hc' & Hp & Hg).
    split; [|by cbn [fst]; rewrite Hp].
    eapply (inv_sem_change k _ log _ s); [done|done|done|done|done|done|done|done|by intros|].
    rewrite Hnil in *. rewrite Heq, Hg. simpl in *. unfold limit. lia. }
  destruct (count x + 1 <=? 0) eqn:E; bool_to_Prop.
  - destruct (sem_queue x) as [|w q] eqn:Eq; [simpl in Hq; lia|]. intros [= <-].
    set (k1 := set_semaphores (<[s := mkSem (count x + 1) q]> (semaphores k)) k).
    destruct (move_wake k (woken w k1) w (TSem s) Hc eq_refl eq_refl eq_refl
      (blocked_sem_pop k s x (mkSem (count x + 1) q) w Hx Eq)) as (Hc' & Hp & Hk & Hg).
    cbn [kont_matches] in Hk. split; [|done].
    eapply (inv_sem_change k _ log _ s); [done|done|done|done|done|done|done|done| |].
    + intros c _ Hn. rewrite Hg, Hk, one_kont, one_kont_ne by congruence. lia.
    + rewrite Heq, Hg, Hk, one_kont, one_down, one_eq. simpl in *. unfold limit. lia.
  - intros [= <-]. apply Hadd. destruct (sem_queue x); [done|simpl in Hq; lia].
Qed.

Lemma down_inv k log t s b k' :
  inv (k, log) -> current k = Some t -> down s k = Ok (b, k') ->
  keeps k (k', (if b then [Downed t s] else []) ++ log).
Proof.
  intros Hi Ht. pose proof (inv_core _ Hi) as Hc. pose proof (inv_sem _ Hi s) as Hl. cbn [fst snd] in *.
  destruct (semaphores k !! s) as [x|] eqn:Hx; [|by unfold down, object; rewrite Hx].
  pose proof (sem_count_range k log s x Hi Hx) as Hr. unfold limit in *.
  rewrite (down_run t s x k Ht Hx), as_isize_small by lia. cbv zeta. destruct Hl as (Hu & Hsum & Hq).
  destruct (count x - 1 <? 0) eqn:E; bool_to_Prop; intros [= <- <-]; cbn [app].
  - destruct (move_block k (parked t (KDown s) (set_semaphores (<[s := mkSem (count x - 1) (sem_queue x ++ [t])]> (semaphores k)) k))
      t (TSem s) (KDown s) Hc Ht) as (Hc' & Hp & Hg); [done|done|done| |done|].
    { exact (blocked_sem_push k s x (mkSem (count x - 1) (sem_queue x ++ [t])) t Hx eq_refl). }
    split; [|done]. eapply (inv_sem_change k _ log log s); [done|done|done|done|done|done|done|done|by intros|].
    rewrite Hg. cbn [sem_law count sem_queue]. rewrite length_app. cbn [length]. unfold limit in *. lia.
  - destruct (move_none k (set_semaphores (<[s := mkSem (count x - 1) (sem_queue x)]> (semaphores k)) k) Hc
      eq_refl eq_refl eq_refl (blocked_sem_same k s x (mkSem (count x - 1) (sem_queue x)) Hx eq_refl)) as (Hc' & Hp & Hg).
    split; [|by cbn [fst]; rewrite Hp].
    eapply (inv_sem_change k _ log _ s); [done|done|done|done|done|done|done| |by intros|].
    + intros n Hn. simpl. by rewrite decide_False by congruence.
    + rewrite Hg. simpl. rewrite decide_True by done. unfold limit in *. lia.
Qed.

Lemma signal_inv k log c k' : inv (k, log) -> signal c k = Ok (tt, k') -> keeps k (k', log).
Proof.
  intros Hi. destruct (condvars k !! c) as [[|w q]|] eqn:Hq.
  - rewrite (signal_run c _ k Hq). intros [= <-]. by split.
  - rewrite (signal_run c _ k Hq). intros [= <-].
    set (k1 := set_condvars (<[c := q]> (condvars k)) k).
    destruct (move_wake k (woken w k1) w (TCond c) (inv_core _ Hi) eq_refl eq_refl eq_refl
      (blocked_cond_pop k c w q Hq)) as (Hc' & Hp & (m & Hk) & Hg).
    split; [|done]. eapply inv_frame; [done|done|done|done|done|done|done|].
    intros c' Hg'. rewrite Hg. cbn [fst]. rewrite Hk, one_kont, one_kont_ne; [lia|]. by intros <-.
  - unfold signal, object. by rewrite Hq.
Qed.

Lemma wait_inv k log t c m b k' :
  inv (k, log) -> current k = Some t -> t ∈ holders m log -> wait c m k = Ok (b, k') ->
  b = false /\ keeps k (k', Unlocked t m :: log).
Proof.
  intros Hi Ht Hin. destruct (unlock_inv k log t m Hi Hin) as (k1 & Hu & [Hi1 Hp1] & Hc1 & Hv1).
  rewrite Ht in Hc1. destruct (condvars k !! c) as [q|] eqn:Hq; cycle 1.
  { unfold wait. rewrite (st_bind_run _ _ _ _ _ Hu). unfold reads at 1, mbind, st_bind, object.
    by rewrite Hv1, Hq. }
  rewrite <- Hv1 in Hq. rewrite (wait_run t c m q k k1 Hu Hc1 Hq). intros [= <- <-]. split; [done|].
  destruct (move_block k1 (parked t (KWait m) (set_condvars (<[c := q ++ [t]]> (condvars k1)) k1))
    t (TCond c) (KWait m) (inv_core _ Hi1) Hc1) as (Hc' & Hp & Hg); [done|done|done| |by exists m|].
  { exact (blocked_cond_push k1 c q t Hq). }
  split; [|by cbn [fst]; rewrite Hp]. by eapply inv_frame.
Qed.

Lemma sleep_inv k log t now ms o k' :
  inv (k, log) -> current k = Some t -> sys_sleep now ms k = Ok (o, k') -> keeps k (k', log).
Proof.
  intros Hi Ht. rewrite (sleep_run t now ms k Ht). intros [= _ <-].
  destruct (move_block k (parked t KSleep (set_timers (mkTimer (uadd (get_time_ms now) ms) t :: timers k) k))
    t TTimer KSleep (inv_core _ Hi) Ht) as (Hc' & Hp & Hg); [done|done|done| |done|].
  { unfold blocked. cbn. solve_Permutation. }
  split; [|done]. by eapply inv_frame.
Qed.

Lemma suspend_inv k log t c k' :
  inv (k, log) -> current k = Some t -> ~ grant c -> suspend_current_and_run_next c k = Ok (tt, k') ->
  keeps k (k', log).
Proof.
  intros Hi Ht Hg. rewrite (suspend_run t c k Ht). intros [= <-].
  destruct (move_suspend k (suspended t c k) t c (inv_core _ Hi) Ht) as (Hc' & Hp & Hg'); try done.
  split; [|done]. by eapply inv_frame.
Qed.

Lemma yield_inv k log t o k' :
  inv (k, log) -> current k = Some t -> sys_yield k = Ok (o, k') -> keeps k (k', log).
Proof.
  intros Hi Ht E. unfold sys_yield in E. mon_inv. destruct x. eapply suspend_inv; [done|done| |done]. tauto.
Qed.

Lemma lookup_snoc_cases {A} (l : list A) (a : A) n :
  (l ++ [a]) !! n = l !! n \/ (n = length l /\ (l ++ [a]) !! n = Some a /\ l !! n = None).
Proof.
  destruct (decide (n < length l)%nat) as [Hl|Hl].
  - left. by apply lookup_app_l.
  - destruct (decide (n = length l)) as [->|Hn].
    + right. split; [done|]. rewrite lookup_app_r, Nat.sub_diag by lia. split; [done|].
      apply lookup_ge_None. lia.
    + left. rewrite !lookup_ge_None_2; [done|lia|]. rewrite length_app. simpl. lia.
Qed.

Lemma blocked_new_mutex k x : mutex_queue x = [] -> blocked (set_mutexes (mutexes k ++ [x]) k) = blocked k.
Proof. intros Hq. unfold blocked. cbn. rewrite fmap_app. cbn. by rewrite Hq, queues_snoc_nil. Qed.

Lemma blocked_new_sem k x : sem_queue x = [] -> blocked (set_semaphores (semaphores k ++ [x]) k) = blocked k.
Proof. intros Hq. unfold blocked. cbn. rewrite fmap_app. cbn. by rewrite Hq, queues_snoc_nil. Qed.

Lemma current_process_state k p k' : current_process k = Ok (p, k') -> k' = k.
Proof. unfold current_process, current_task, reads. intros E. mon_inv. done. Qed.

Lemma tables_inv k log p v : inv (k, log) -> keeps k (set_tables p v k, log).
Proof. intros [[] Hm Hs]. by split; [split|]. Qed.

Lemma keeps_tables k w p v : keeps k w -> keeps k (set_tables p v (fst w), snd w).
Proof.
  intros [Hi Hp]. destruct w as [k' log]. cbn [fst snd] in *.
  destruct (tables_inv k' log p v Hi) as [Hi' Hp']. split; [done|]. cbn [fst] in *. by rewrite Hp'.
Qed.

Lemma mutex_create_inv k log b o k' :
  inv (k, log) -> sys_mutex_create b k = Ok (o, k') -> keeps k (k', log).
Proof.
  intros Hi E. unfold sys_mutex_create in E. apply st_bind_Ok in E as (p & k0 & Ep & E).
  apply current_process_state in Ep as ->. unfold gets, modify, tables_of, gets, mbind, st_bind in E.
  cbn in E. case_match. simplify_eq/=. mon_inv.
  apply (keeps_tables k (set_mutexes _ k, log)).
  set (x := if b then MutexBlocking_new else MutexSpin_new).
  assert (Hq : mutex_queue x = []) by (unfold x; by destruct b).
  destruct (move_none k (set_mutexes (mutexes k ++ [x]) k) (inv_core _ Hi) eq_refl eq_refl eq_refl
    (blocked_new_mutex k x Hq)) as (Hc' & Hp & Hg).
  split; [|by cbn [fst]; rewrite Hp]. destruct Hi as [_ Hm Hs]. split; [done|..]; cbn [fst snd] in *; [|done].
  intros m. pose proof (Hm m) as Hl. rewrite Hg. cbn [mutexes set_mutexes].
  destruct (lookup_snoc_cases (mutexes k) x m) as [->|(-> & -> & E)]; [done|].
  rewrite E in Hl. destruct Hl as [-> ->]. unfold x. by destruct b; split.
Qed.

Lemma condvar_create_inv k log o k' :
  inv (k, log) -> sys_condvar_create k = Ok (o, k') -> keeps k (k', log).
Proof.
  intros Hi E. unfold sys_condvar_create in E. apply st_bind_Ok in E as (p & k0 & Ep & E).
  apply current_process_state in Ep as ->. unfold gets, modify, tables_of, gets, mbind, st_bind in E.
  cbn in E. case_match. simplify_eq/=. mon_inv.
  apply (keeps_tables k (set_condvars _ k, log)). unfold Condvar_new.
  destruct (move_none k (set_condvars (condvars k ++ [[]]) k) (inv_core _ Hi) eq_refl eq_refl eq_refl)
    as (Hc' & Hp & Hg); [unfold blocked; cbn; by rewrite queues_snoc_nil|].
  split; [|by cbn [fst]; rewrite Hp]. by eapply inv_frame.
Qed.

Lemma semaphore_create_inv k log n o k' :
  inv (k, log) -> 0 <= n < limit -> sys_semaphore_create n k = Ok (o, k') ->
  keeps k (k', Created (length (semaphores k)) n :: log).
Proof.
  intros Hi Hn E. unfold sys_semaphore_create in E. apply st_bind_Ok in E as (p & k0 & Ep & E).
  apply current_process_state in Ep as ->. unfold gets, modify, tables_of, gets, mbind, st_bind in E.
  cbn in E. case_match. simplify_eq/=. mon_inv.
  apply (keeps_tables k (set_semaphores _ k, _)). unfold Semaphore_new.
  rewrite as_isize_small by (unfold limit in Hn; lia).
  destruct (move_none k (set_semaphores (semaphores k ++ [mkSem n []]) k) (inv_core _ Hi) eq_refl eq_refl eq_refl
    (blocked_new_sem k (mkSem n []) eq_refl)) as (Hc' & Hp & Hg).
  split; [|by cbn [fst]; rewrite Hp]. destruct Hi as [_ Hm Hs]. split; [done|..]; cbn [fst snd] in *; [done|].
  intros s. pose proof (Hs s) as Hl. rewrite Hg. cbn [semaphores set_semaphores taken units].
  destruct (lookup_snoc_cases (semaphores k) (mkSem n []) s) as [E|(-> & -> & E)].
  - rewrite E. case_decide as Hd; [|done]. subst s.
    rewrite lookup_app_r, Nat.sub_diag in E by lia. simpl in E.
    by rewrite lookup_ge_None_2 in E by lia.
  - rewrite E in Hl. destruct Hl as (Hu & Htk & Hh). rewrite decide_True, Hu, Htk, Hh by done.
    cbn [sem_law count sem_queue length]. lia.
Qed.

(** ** Timers *)

Lemma wake_timer k y rest :
  core k -> timers k ≡ₚ y :: rest ->
  core (set_timers rest (woken (timer_task y) k)) /\
  places (set_timers rest (woken (timer_task y) k)) ≡ₚ places k /\
  forall c, grant c -> handed c (set_timers rest (woken (timer_task y) k)) = handed c k.
Proof.
  intros Hc Hp.
  destruct (move_wake k (set_timers rest (woken (timer_task y) k)) (timer_task y) TTimer Hc eq_refl eq_refl eq_refl)
    as (Hc' & Hp' & Hk & Hg).
  { unfold blocked. cbn. rewrite Hp. cbn. solve_Permutation. }
  split_and!; [done|done|]. intros c Hgr. rewrite Hg. cbn [kont_matches] in Hk.
  rewrite Hk, one_kont, one_kont_ne; [lia|]. by intros <-.
Qed.

(** The loop wakes the tasks whose time has come, in order, and no other. *)
Lemma check_timer_loop_spec fuel now k :
  (length (timers k) <= fuel)%nat ->
  exists due k', check_timer_loop fuel now k = Ok (tt, k') /\
    timers k ≡ₚ due ++ timers k' /\ Forall (fun x => expire_ms x <= now) due /\
    Forall (fun x => now < expire_ms x) (timers k') /\
    StronglySorted (fun x y => expire_ms x <= expire_ms y) due /\
    ready_queue k' = ready_queue k ++ (timer_task <$> due) /\ current k' = current k /\
    mutexes k' = mutexes k /\ semaphores k' = semaphores k /\ condvars k' = condvars k /\
    (core k -> core k' /\ places k' ≡ₚ places k /\ forall c, grant c -> handed c k' = handed c k).
Proof.
  revert k. induction fuel as [|fuel IH]; intros k Hf; cbn [check_timer_loop]; pose proof (heap_pop_spec (timers k)) as Hpop.
  - destruct (timers k) as [|] eqn:Et; [|simpl in Hf; lia]. cbn. exists [], k. rewrite Et. split_and!; try done; [constructor|cbn; by rewrite app_nil_r].
  - destruct (peek (timers k)) as [y|]; cycle 1.
    { exists [], k. rewrite Hpop. split_and!; try done; [constructor|cbn; by rewrite app_nil_r]. }
    destruct Hpop as (rest & Epop & Hperm & Hmin). destruct (expire_ms y <=? now) eqn:E; bool_to_Prop; cycle 1.
    { exists [], k. split_and!; try done; [|constructor|cbn; by rewrite app_nil_r].
      eapply Forall_impl; [exact Hmin|]. simpl. lia. }
    set (k1 := set_timers rest (woken (timer_task y) k)).
    destruct (IH k1) as (due & k' & E' & Hp & Hd & Hn & Hss & Hr & Hcur & Hm & Hs & Hc & Hcore).
    { apply Permutation_length in Hperm. simpl in *. lia. }
    exists (y :: due), k'. split_and!; [|rewrite Hperm; simpl; by rewrite <- Hp| by constructor|done| | |done..|].
    + rewrite (st_bind_run _ _ _ _ _ (wakeup_run _ k)). unfold modify.
      st_step. cbn [timers woken set_ready set_status]. rewrite Epop. exact E'.
    + constructor; [done|]. apply Forall_forall. intros x Hx. rewrite Forall_forall in Hmin. apply Hmin.
      rewrite Hperm. right. change rest with (timers k1). rewrite Hp. apply elem_of_app. by left.
    + rewrite Hr. cbn. by rewrite <- app_assoc.
    + intros Hk. destruct (wake_timer k y rest Hk Hperm) as (Hk1 & Hp1 & Hg1).
      destruct (Hcore Hk1) as (Hk' & Hp' & Hg'). split_and!; [done|by rewrite Hp'|].
      intros c Hgr. rewrite Hg' by done. by apply Hg1.
Qed.

(** ** Steps *)

Lemma do_call_inv k log t c b k' :
  inv (k, log) -> current k = Some t -> allowed t c log -> do_call c k = Ok (b, k') ->
  keeps k (k', (if b then after_call t c else []) ++ before_call t c k ++ log).
Proof.
  intros Hi Ht Ha E. destruct c; cbn [do_call allowed after_call before_call] in *.
  - by apply (lock_inv k log t m).
  - destruct (unlock_inv k log t m Hi Ha) as (k1 & Hu & Hk & _ & _).
    rewrite (st_bind_run _ _ _ _ _ Hu) in E. by injection E as <- <-.
  - apply st_bind_Ok in E as ([] & k1 & Hu & E). injection E as <- <-. by apply (up_inv k log s).
  - by apply (down_inv k log t s).
  - apply st_bind_Ok in E as ([] & k1 & Hu & E). injection E as <- <-. by apply (signal_inv k log c).
  - by destruct (wait_inv k log t c m b k' Hi Ht Ha E) as [-> ?].
  - apply st_bind_Ok in E as (o & k1 & Hu & E). injection E as <- <-. by apply (sleep_inv k log t get_time ms o).
  - apply st_bind_Ok in E as (o & k1 & Hu & E). injection E as <- <-. by apply (yield_inv k log t o).
  - apply st_bind_Ok in E as (o & k1 & Hu & E). injection E as <- <-. by apply (mutex_create_inv k log blocking o).
  - apply st_bind_Ok in E as (o & k1 & Hu & E). injection E as <- <-. by apply (semaphore_create_inv k log n o).
  - apply st_bind_Ok in E as (o & k1 & Hu & E). injection E as <- <-. by apply (condvar_create_inv k log o).
Qed.

Lemma handed_pos c k t q : ready_queue k = t :: q -> konts k !! t = Some c -> 0 < handed c k.
Proof. intros Hq Hk. unfold handed. rewrite Hq, filter_cons, decide_True by done. simpl. lia. Qed.

(** A dispatched task whose wait was granted returns with what it waited for. *)
Lemma granted_inv k log t q c :
  inv (k, log) -> current k = None -> ready_queue k = t :: q -> konts k !! t = Some c ->
  keeps k (set_current (Some t) (set_status t Running (set_ready q k)),
    (if decide (grant c) then after_resume t c else []) ++ Dispatched t :: log).
Proof.
  intros Hi Hcur Hq Hk.
  destruct (move_dispatch k (set_current (Some t) (set_status t Running (set_ready q k))) t q c
    (inv_core _ Hi) Hcur Hq) as (Hc & Hp & Hg); try done.
  split; [|done]. destruct (decide (grant c)) as [Hgr|Hgr]; cycle 1.
  { eapply inv_frame; [done|done|done|done|done|done|done|]. intros c' Hc'. rewrite Hg.
    rewrite one_kont_ne; [lia|]. by intros <-. }
  destruct Hi as [_ Hm Hs]. cbn [fst snd] in *. split; [done|..]; cbn [fst snd mutexes semaphores set_current set_status set_ready].
  - intros n. specialize (Hm n). rewrite Hg. destruct c; try done; cbn [after_resume app].
    + rewrite held_locked, one_locked. unfold held in *. cbn [holders].
      pose proof (handed_nonneg (KLocked n) k).
      destruct (mutexes k !! n) as [[l|l q']|] eqn:En; cbn [mutex_law] in *; [| |].
      * destruct (decide (m = n)) as [->|Hn]; [|rewrite one_ne by done; lia]. exfalso.
        pose proof (handed_pos (KLocked n) k t q Hq Hk). lia.
      * destruct Hm as [Hm Hl]. split; [lia|done].
      * destruct (decide (m = n)) as [->|Hn]; [|rewrite one_ne by done; lia]. exfalso.
        pose proof (handed_pos (KLocked n) k t q Hq Hk). lia.
    + rewrite one_kont_ne, Z.sub_0_r by done. exact Hm.
  - intros n. specialize (Hs n). rewrite Hg. destruct c; try done; cbn [after_resume app units taken].
    + rewrite one_kont_ne, Z.sub_0_r by done. exact Hs.
    + rewrite one_down. unfold one. destruct (decide (s = n)) as [->|]; [|by rewrite Z.sub_0_r].
      destruct (semaphores k !! n) as [x|] eqn:En; cbn [sem_law] in *; [lia|]. exfalso.
      pose proof (handed_pos (KDown n) k t q Hq Hk). lia.
Qed.

Lemma spawn_inv k log t p :
  inv (k, log) -> t ∉ places k -> Z.of_nat (length (places k)) + 1 < limit ->
  inv (spawn t p k, log) /\ places (spawn t p k) ≡ₚ t :: places k.
Proof.
  intros Hi Hn Hl. pose proof (inv_core _ Hi) as [Hnd Hb Hr Hsz]. cbn [fst] in *.
  assert (Hp : places (spawn t p k) ≡ₚ t :: places k).
  { unfold places, spawn, blocked. cbn. solve_Permutation. }
  assert (Hne : forall u, u ∈ places k -> t <> u) by (by intros u Hu <-).
  split; [|done]. apply (inv_frame k _ log log); [done| |done|done|done|done|done|].
  - split.
    + rewrite Hp. by constructor.
    + intros u g Hin. cbn [konts spawn]. rewrite lookup_insert_ne; [by apply Hb|].
      apply Hne. unfold places. rewrite !elem_of_app. right. right. apply list_elem_of_fmap. by exists (u, g).
    + intros u. cbn [ready_queue konts spawn]. rewrite elem_of_app, list_elem_of_singleton.
      destruct (decide (t = u)) as [->|]; [rewrite lookup_insert_eq; by eexists|].
      rewrite lookup_insert_ne by done. intros [Hu|Hu]; [by apply Hr|congruence].
    + rewrite Hp. cbn [length]. lia.
  - intros c Hg. unfold handed. cbn [ready_queue konts spawn].
    rewrite filter_app, length_app, filter_cons, filter_nil.
    rewrite decide_False by (rewrite lookup_insert_eq; by intros [= <-]). cbn [length]. rewrite Nat.add_0_r.
    do 2 f_equal. apply filter_ext_elem. intros u Hu. rewrite lookup_insert_ne; [done|].
    apply Hne. unfold places. rewrite !elem_of_app. by right; left.
Qed.

Lemma exit_inv k log t :
  inv (k, log) -> current k = Some t ->
  inv (set_current None k, log) /\ places k = t :: places (set_current None k).
Proof.
  intros Hi Ht. pose proof (inv_core _ Hi) as [Hnd Hb Hr Hsz]. cbn [fst] in *.
  assert (Hp : places k = t :: places (set_current None k)) by (unfold places; by rewrite Ht).
  split; [|done]. apply (inv_frame k _ log log); [done| |done|done|done|done|done|by intros].
  rewrite Hp in Hnd, Hsz. apply NoDup_cons in Hnd as [_ Hnd]. split; [done|done|done|]. cbn [length] in Hsz. lia.
Qed.

(** *** The exit of a process *)

Lemma elem_of_tasks_of t p k : t ∈ tasks_of p k <-> process_of k !! t = Some p.
Proof.
  unfold tasks_of. rewrite list_elem_of_fmap. split.
  - intros ([t' p'] & -> & Hin). apply elem_of_map_to_list, map_lookup_filter_Some in Hin as [Hin Hp]. cbn in *. by subst.
  - intros Ht. exists (t, p). split; [done|]. by apply elem_of_map_to_list, map_lookup_filter_Some.
Qed.

Lemma filter_keep {A} (P : A -> Prop) `{!forall x, Decision (P x)} (l : list A) : Forall P l -> filter P l = l.
Proof. induction 1 as [|x l Hx _ IH]; [done|]. by rewrite filter_cons, decide_True, IH. Qed.

Lemma filter_same {A} (P Q : A -> Prop) `{!forall x, Decision (P x)} `{!forall x, Decision (Q x)} (l : list A) :
  (forall x, x ∈ l -> P x <-> Q x) -> filter P l = filter Q l.
Proof.
  induction l as [|x l IH]; intros HPQ; [done|]. rewrite !filter_cons, IH by (intros y Hy; apply HPQ; by right).
  specialize (HPQ x ltac:(by left)). repeat case_decide; tauto.
Qed.

Lemma remove_first (t : nat) l : NoDup l ->
  match find_index (fun t' => bool_decide (t' = t)) l with Some i => delete i l | None => l end = filter (fun t' => t' <> t) l.
Proof.
  induction l as [|x l IH]; [done|]. intros [Hx Hnd]%NoDup_cons. cbn [find_index]. rewrite filter_cons. destruct (decide (x = t)) as [->|Hne].
  - rewrite bool_decide_eq_true_2, decide_False by (done || tauto). cbn. rewrite filter_keep; [done|]. apply Forall_forall. by intros y Hy ->.
  - rewrite bool_decide_eq_false_2, decide_True by done. specialize (IH Hnd). destruct (find_index _ l); cbn; by rewrite <- IH.
Qed.

(** What it leaves. *)
Definition without (P : nat -> Prop) `{forall t, Decision (P t)} (k : kernel) : kernel :=
  set_timers (filter (fun x => ~ P (timer_task x)) (timers k)) (set_ready (filter (fun t => ~ P t) (ready_queue k)) k).

Lemma remove_inactive_run ts : forall k, NoDup (ready_queue k) ->
  remove_inactive_tasks ts k = Ok (tt, without (fun t => t ∈ ts) k).
Proof.
  induction ts as [|t ts IH]; intros k Hnd; cbn [remove_inactive_tasks].
  - unfold without. rewrite !filter_keep by (apply Forall_forall; intros ? _; apply not_elem_of_nil). by destruct k.
  - unfold remove_inactive_task, remove_task, remove_timer, modify, mbind, st_bind. cbn [fst snd].
    assert (E : match find_index (fun t' => bool_decide (t' = t)) (ready_queue k) with Some i => set_ready (delete i (ready_queue k)) k | None => k end =
      set_ready (filter (fun t' => t' <> t) (ready_queue k)) k).
    { rewrite <- (remove_first t _ Hnd). destruct (find_index _ _); [done|by destruct k]. }
    rewrite E, IH; [|cbn; by apply NoDup_filter]. unfold without, set_timers, set_ready. cbn. rewrite !list_filter_filter.
    do 3 f_equal; apply filter_same; intros x _; rewrite not_elem_of_cons; tauto.
Qed.

(** [perishing p k t]: a task of [p]. *)
Definition perishing (p : nat) (k : kernel) (t : nat) : Prop := process_of k !! t = Some p.
#[export] Instance perishing_dec p k t : Decision (perishing p k t).
Proof. unfold perishing. apply _. Defined.

Definition ended (p : nat) (k : kernel) : kernel := set_tables p no_tables (without (perishing p k) (set_current None k)).

Lemma exit_run t p (whole : bool) k :
  current k = Some t -> process_of k !! t = Some p -> NoDup (ready_queue k) ->
  exit_task whole k = Ok (tt, if whole then ended p k else set_current None k).
Proof.
  intros Ht Hp Hnd. unfold exit_task, take_current_task, reads, mbind, st_bind. rewrite Ht. cbn. rewrite Hp. cbn. destruct whole; [|done].
  unfold end_process, gets, mbind, st_bind. cbn. rewrite remove_inactive_run by done. unfold ended, without, set_timers, set_ready, set_tables, modify. cbn.
  do 3 f_equal; apply filter_same; intros x _; by rewrite elem_of_tasks_of.
Qed.

Lemma exit_task_Ok t p (whole : bool) k k' :
  core k -> current k = Some t -> process_of k !! t = Some p -> exit_task whole k = Ok (tt, k') -> k' = if whole then ended p k else set_current None k.
Proof.
  intros Hc Ht Hp. rewrite (exit_run t p whole k Ht Hp); [by intros [= <-]|]. pose proof (core_nodup _ Hc) as Hnd. unfold places in Hnd.
  apply NoDup_app in Hnd as (_ & _ & Hnd). by apply NoDup_app in Hnd as [Hnd _].
Qed.

(** The places of the tasks that are gone. *)
Definition gone (p : nat) (k : kernel) : list nat :=
  filter (perishing p k) (ready_queue k) ++ filter (perishing p k) (timer_task <$> timers k).

Lemma filter_partition {A} (P : A -> Prop) `{!forall x, Decision (P x)} (l : list A) : l ≡ₚ filter P l ++ filter (fun x => ~ P x) l.
Proof.
  induction l as [|x l IH]; [done|]. rewrite !filter_cons. destruct (decide (P x)).
  - rewrite decide_False by tauto. cbn. by rewrite <- IH.
  - rewrite decide_True by done. rewrite <- Permutation_middle. by rewrite <- IH.
Qed.

Lemma filter_fmap {A B} (f : A -> B) (P : B -> Prop) `{!forall x, Decision (P x)} (l : list A) : filter P (f <$> l) = f <$> filter (fun x => P (f x)) l.
Proof. induction l as [|x l IH]; [done|]. rewrite fmap_cons, !filter_cons. case_decide; rewrite ?fmap_cons; by rewrite IH. Qed.

Lemma ended_places t p k : current k = Some t -> places k ≡ₚ t :: gone p k ++ places (ended p k).
Proof.
  intros Ht. unfold places, gone. rewrite Ht. cbn [option_list current ready_queue ended set_tables without set_timers set_ready set_current app].
  unfold blocked. cbn [ended set_tables without set_timers set_ready set_current mutexes semaphores condvars timers]. rewrite !fmap_app.
  rewrite <- !list_fmap_compose. change (fst ∘ (fun x : TimerCondVar => (timer_task x, TTimer))) with timer_task.
  rewrite (filter_partition (perishing p k) (ready_queue k)) at 1. rewrite (filter_partition (perishing p k) (timer_task <$> timers k)) at 1.
  rewrite (filter_fmap timer_task (fun x => ~ perishing p k x)). solve_Permutation.
Qed.

(** The mutexes and units that were handed to the perished are theirs for ever. *)
Lemma perish_holders m p k log :
  (forall t, t ∈ ready_queue k -> is_Some (konts k !! t)) ->
  held m (perish p k ++ log) + handed (KLocked m) (ended p k) = held m log + handed (KLocked m) k.
Proof.
  intros Hr. unfold held, handed, perish. cbn [ready_queue konts ended set_tables without set_timers set_ready set_current].
  induction (ready_queue k) as [|t q IH]; [done|]. specialize (IH ltac:(intros u Hu; apply Hr; by right)).
  destruct (Hr t ltac:(by left)) as [c Hc]. rewrite !filter_cons. change (process_of k !! t = Some p) with (perishing p k t).
  destruct (decide (perishing p k t)).
  - rewrite (decide_False (P := ~ _)) by tauto. rewrite fmap_cons, Hc. cbn [app default from_option id].
    destruct (decide (Some c = Some (KLocked m))) as [[= ->]|Hne]; cbn [holders length id].
    + rewrite decide_True by done. cbn [length]. lia.
    + destruct c; try exact IH. rewrite decide_False by congruence. exact IH.
  - rewrite (decide_True (P := ~ _)) by done. rewrite filter_cons, Hc. destruct (decide (Some c = Some (KLocked m))); cbn [length]; lia.
Qed.

Lemma perish_taken s p k log :
  (forall t, t ∈ ready_queue k -> is_Some (konts k !! t)) ->
  units s (perish p k ++ log) = units s log /\
  taken s (perish p k ++ log) + handed (KDown s) (ended p k) = taken s log + handed (KDown s) k.
Proof.
  intros Hr. unfold handed, perish. cbn [ready_queue konts ended set_tables without set_timers set_ready set_current].
  induction (ready_queue k) as [|t q IH]; [done|]. specialize (IH ltac:(intros u Hu; apply Hr; by right)) as [IHu IH].
  destruct (Hr t ltac:(by left)) as [c Hc]. rewrite !filter_cons. change (process_of k !! t = Some p) with (perishing p k t).
  destruct (decide (perishing p k t)).
  - rewrite (decide_False (P := ~ _)) by tauto. rewrite fmap_cons, Hc. cbn [app default from_option id]. split; [exact IHu|].
    destruct (decide (Some c = Some (KDown s))) as [[= ->]|Hne]; cbn [taken length id].
    + rewrite decide_True by done. lia.
    + destruct c; try exact IH. rewrite decide_False by congruence. exact IH.
  - rewrite (decide_True (P := ~ _)) by done. rewrite filter_cons, Hc. split; [exact IHu|]. destruct (decide (Some c = Some (KDown s))); cbn [length]; lia.
Qed.

Lemma ended_handed c p k : handed c (ended p k) <= handed c k.
Proof.
  unfold handed. cbn [ready_queue konts ended set_tables without set_timers set_ready set_current]. apply inj_le, submseteq_length, sublist_submseteq.
  induction (ready_queue k) as [|t q IH]; [done|]. rewrite !(filter_cons (fun t => konts k !! t = Some c)), filter_cons.
  destruct (decide (~ perishing p k t)); [rewrite filter_cons|]; repeat case_decide; try done; by constructor.
Qed.

Lemma mutex_law_lost o a b a' b' : mutex_law o a b -> a' + b' = a + b -> 0 <= b' <= b -> mutex_law o a' b'.
Proof. unfold mutex_law. intros H E Hb. destruct o as [[l|l q]|]; destruct H as [H1 H2]; (split; [lia|done || lia]). Qed.

Lemma sem_law_lost o u a b a' b' : sem_law o u a b -> a' + b' = a + b -> 0 <= b' <= b -> sem_law o u a' b'.
Proof. unfold sem_law. intros H E Hb. destruct o as [x|]; destruct H as (H1 & H2 & H3); split_and!; lia. Qed.

Lemma ended_blocked p k t g : (t, g) ∈ blocked (ended p k) <-> (t, g) ∈ blocked k /\ (g = TTimer -> ~ perishing p k t).
Proof.
  unfold blocked. cbn [ended set_tables without set_timers set_ready set_current mutexes semaphores condvars timers]. rewrite !elem_of_app.
  assert (Hq : forall f i ls, (t, g) ∈ queues f i ls -> (forall j, f j <> TTimer) -> g <> TTimer).
  { intros f i ls. revert i. induction ls as [|l ls IH]; intros i; cbn; [by intros ?%elem_of_nil|]. rewrite elem_of_app, list_elem_of_fmap.
    intros [(t' & [= <- ->] & _)|Hin] Hf; [apply Hf|by eapply IH]. }
  assert (Ht : (t, g) ∈ (fun x => (timer_task x, TTimer)) <$> filter (fun x => ~ perishing p k (timer_task x)) (timers k) <->
    (t, g) ∈ ((fun x => (timer_task x, TTimer)) <$> timers k) /\ ~ perishing p k t).
  { rewrite !list_elem_of_fmap. setoid_rewrite list_elem_of_filter. naive_solver. }
  rewrite Ht. assert (Hg : (t, g) ∈ ((fun x => (timer_task x, TTimer)) <$> timers k) -> g = TTimer) by (rewrite list_elem_of_fmap; naive_solver).
  split.
  - intros [H|[H|[H|[H Hn]]]]; (split; [tauto|]); [intros Hg'; by destruct (Hq _ _ _ H ltac:(done))..|done].
  - intros [[H|[H|[H|H]]] Hn]; auto 7.
Qed.

Lemma ended_inv k log t p :
  inv (k, log) -> current k = Some t -> inv (ended p k, perish p k ++ log).
Proof.
  intros Hi Ht. pose proof (inv_core _ Hi) as [Hnd Hb Hr Hsz]. pose proof (inv_mutex _ Hi) as Hm. pose proof (inv_sem _ Hi) as Hs. cbn [fst snd] in *.
  pose proof (ended_places t p k Ht) as Hp. split; cbn [fst snd].
  - split.
    + rewrite Hp in Hnd. apply NoDup_cons in Hnd as [_ Hnd]. by apply NoDup_app in Hnd as (_ & _ & Hnd).
    + intros u g [Hin _]%ended_blocked. by apply Hb.
    + intros u Hu. cbn in Hu. apply list_elem_of_filter in Hu as [_ Hu]. by apply Hr.
    + rewrite Hp in Hsz. cbn [length] in Hsz. rewrite length_app in Hsz. lia.
  - intros m. eapply mutex_law_lost; [apply Hm|by apply perish_holders|]. split; [apply handed_nonneg|apply ended_handed].
  - intros s. destruct (perish_taken s p k log Hr) as [-> Htk]. eapply sem_law_lost; [apply Hs|exact Htk|]. split; [apply handed_nonneg|apply ended_handed].
Qed.

Lemma exit_task_inv k log t p (whole : bool) k' :
  inv (k, log) -> current k = Some t -> process_of k !! t = Some p -> exit_task whole k = Ok (tt, k') ->
  inv (k', (if whole then perish p k else []) ++ log) /\
  (if whole then places k ≡ₚ t :: gone p k ++ places k' else places k = t :: places k').
Proof.
  intros Hi Ht Hp E. apply (exit_task_Ok t p) in E as ->; [|apply (inv_core _ Hi)|done|done]. destruct whole.
  - split; [by eapply ended_inv|by apply ended_places].
  - by apply exit_inv.
Qed.

(** What a step does to the places: it moves tasks, or a task is new, or the current one
    exits, alone or with its process. *)
Definition rearranged (k k' : kernel) : Prop :=
  places k' ≡ₚ places k \/
  (exists t, t ∉ places k /\ places k' ≡ₚ t :: places k) \/
  (exists t, current k = Some t /\ places k = t :: places k') \/
  (exists t p, current k = Some t /\ process_of k !! t = Some p /\ places k ≡ₚ t :: gone p k ++ places k' /\
     forall t', t' ∈ places k' -> process_of k !! t' = Some p -> exists g, (t', g) ∈ blocked k' /\ g <> TTimer).

Lemma ended_rest p k t : t ∈ places (ended p k) -> process_of k !! t = Some p -> exists g, (t, g) ∈ blocked (ended p k) /\ g <> TTimer.
Proof.
  intros Hin Hp. unfold places in Hin. rewrite !elem_of_app in Hin. destruct Hin as [Hin|[Hin|Hin]].
  - by apply elem_of_nil in Hin.
  - cbn in Hin. by apply list_elem_of_filter in Hin as [Hin _].
  - apply list_elem_of_fmap in Hin as ([t' g] & -> & Hin). exists g. split; [done|]. apply ended_blocked in Hin as [_ Hn]. intros ->. by apply Hn.
Qed.

Lemma ended_elem k t p t' : current k = Some t -> t' ∈ places (ended p k) -> t' ∈ places k.
Proof. intros Ht Hin. rewrite (ended_places t p k Ht). right. apply elem_of_app. by right. Qed.

Lemma ended_survives k t p t' : current k = Some t -> t' <> t -> process_of k !! t' <> Some p -> t' ∈ places k -> t' ∈ places (ended p k).
Proof.
  intros Ht Hne Hp Hin. rewrite (ended_places t p k Ht) in Hin. apply elem_of_cons in Hin as [->|Hin]; [done|]. apply elem_of_app in Hin as [Hin|]; [|done].
  unfold gone in Hin. rewrite elem_of_app, !list_elem_of_filter in Hin. unfold perishing in Hin. tauto.
Qed.

Lemma ended_leaves k log t p : inv (k, log) -> current k = Some t -> t ∉ places (ended p k).
Proof.
  intros Hi Ht. pose proof (core_nodup _ (inv_core _ Hi)) as Hnd. cbn [fst] in Hnd. rewrite (ended_places t p k Ht) in Hnd.
  apply NoDup_cons in Hnd as [Hnd _]. rewrite elem_of_app in Hnd. tauto.
Qed.

Lemma step_keeps w w' : inv w -> step w w' -> inv w' /\ rearranged (fst w) (fst w').
Proof.
  intros Hi Hs. destruct Hs as [k log t c b k' Ht Ha E|k log t k1 c b k2 Hcur Hr Hk E|k log t now k' Ht E|k log t p Hn Hl|k log t p whole k' Ht Hp E].
  - destruct (do_call_inv k log t c b k' Hi Ht Ha E). by split; [|left].
  - apply dispatch_run in Hr as (q & Hq & ->). cbn [konts set_current set_status set_ready] in Hk.
    destruct (granted_inv k log t q c Hi Hcur Hq Hk) as [Hi1 Hp1].
    set (k1 := set_current (Some t) (set_status t Running (set_ready q k))) in *.
    destruct c; cbn [resume after_resume] in *; cbn [decide] in Hi1; simplify_eq/=;
      try (by injection E as <- <-; split; [|left]).
    + destruct (lock_inv k1 _ t m b k2 Hi1 eq_refl E) as [Hi2 Hp2]. split; [done|left].
      cbn [fst] in *. by rewrite Hp2.
    + destruct (lock_inv k1 _ t m b k2 Hi1 eq_refl E) as [Hi2 Hp2]. split; [done|left].
      cbn [fst] in *. by rewrite Hp2.
  - apply st_bind_Ok in E as ([] & k1 & E1 & E2).
    destruct (check_timer_loop_spec (length (timers k)) (get_time_ms now) k ltac:(lia))
      as (due & k1' & E' & _ & _ & _ & _ & _ & Hcur & Hm & Hs & _ & Hcore).
    unfold check_timer in E1. rewrite E' in E1. injection E1 as <-.
    destruct (Hcore (inv_core _ Hi)) as (Hc & Hp & Hg).
    assert (Hi1 : inv (k1', log)) by (by eapply inv_frame).
    rewrite Ht in Hcur. destruct (suspend_inv k1' log t KYield k' Hi1 Hcur ltac:(tauto) E2) as [Hi2 Hp2].
    split; [done|left]. cbn [fst] in *. by rewrite Hp2.
  - destruct (spawn_inv k log t p Hi Hn Hl) as [Hi' Hp]. split; [done|]. right. left. by exists t.
  - destruct (exit_task_inv k log t p whole k' Hi Ht Hp E) as [Hi' Hpl]. split; [done|]. right. right.
    apply (exit_task_Ok t p) in E as ->; [|apply (inv_core _ Hi)|done|done]. destruct whole; [right|left; by exists t].
    exists t, p. split_and!; [done|done|done|apply ended_rest].
Qed.

Lemma boot_inv : inv boot.
Proof.
  split; [split|..]; cbn; [by apply NoDup_nil_2|by intros ? ? ?%elem_of_nil|by intros ? ?%elem_of_nil|
    unfold limit; lia|done|done].
Qed.

Lemma steps_inv w w' : rtc step w w' -> inv w -> inv w'.
Proof. induction 1 as [|w1 w2 w3 Hs _ IH]; [done|]. intros Hi. apply IH. by apply (step_keeps w1 w2). Qed.

Lemma reachable_inv w : reachable w -> inv w.
Proof. intros Hr. by apply (steps_inv boot w Hr boot_inv). Qed.

(** ** Claims *)

(** A run: two threads of process 0 share a mutex and a semaphore.  Task 1 takes both
    and yields, task 2 blocks on the mutex. *)
Definition run_call (t : nat) (c : call) (w : world) : res world :=
  '(b, k') ← do_call c (fst w);
  Ok (k', (if b : bool then after_call t c else []) ++ before_call t c (fst w) ++ snd w).

Definition run_dispatch (w : world) : res world :=
  '(o, k1) ← run_tasks_round (fst w);
  t ← unwrap o;
  c ← unwrap (konts k1 !! t);
  '(b, k2) ← resume c k1;
  Ok (k2, (if b : bool then after_resume t c else []) ++ Dispatched t :: snd w).

Lemma run_call_step w t c w' :
  current (fst w) = Some t -> allowed t c (snd w) -> run_call t c w = Ok w' -> step w w'.
Proof.
  destruct w as [k log]. cbn [fst snd]. unfold run_call. cbn [fst snd].
  intros Ht Ha E. apply res_bind_Ok in E as ([b k'] & E & E'). simplify_eq. by apply step_call.
Qed.

Lemma run_dispatch_step w w' : current (fst w) = None -> run_dispatch w = Ok w' -> step w w'.
Proof.
  destruct w as [k log]. cbn [fst snd]. unfold run_dispatch. cbn [fst snd]. intros Ht E.
  apply res_bind_Ok in E as ([o k1] & E1 & E). apply res_bind_Ok in E as (t & Eo & E).
  apply unwrap_Ok in Eo as ->. apply res_bind_Ok in E as (c & Ec & E). apply unwrap_Ok in Ec.
  apply res_bind_Ok in E as ([b k2] & E2 & E). simplify_eq. by eapply step_dispatch.
Qed.

Definition demo_start : world := (spawn 2 0 (spawn 1 0 (fst boot)), []).

Definition demo : res world :=
  w ← run_dispatch demo_start;
  w ← run_call 1 (CNewMutex true) w;
  w ← run_call 1 (CNewSemaphore 1) w;
  w ← run_call 1 (CLock 0) w;
  w ← run_call 1 (CDown 0) w;
  w ← run_call 1 CYield w;
  w ← run_dispatch w;
  run_call 2 (CLock 0) w.

Definition world_of (r : res world) : world := match r with Ok w => w | Panic _ => boot end.
Definition demo_end : world := Eval vm_compute in world_of demo.

Lemma demo_reachable : reachable demo_end.
Proof.
  unfold reachable. eapply rtc_l; [apply (step_spawn _ _ 1 0); [apply not_elem_of_nil|done]|].
  eapply rtc_l; [apply (step_spawn _ _ 2 0); [by apply not_elem_of_cons; split; [|apply not_elem_of_nil]|done]|].
  eapply rtc_l; [apply run_dispatch_step; [done|vm_compute; reflexivity]|].
  eapply rtc_l; [apply (run_call_step _ 1 (CNewMutex true)); [done|done|vm_compute; reflexivity]|].
  eapply rtc_l; [apply (run_call_step _ 1 (CNewSemaphore 1)); [done|done|vm_compute; reflexivity]|].
  eapply rtc_l; [apply (run_call_step _ 1 (CLock 0)); [done|done|vm_compute; reflexivity]|].
  eapply rtc_l; [apply (run_call_step _ 1 (CDown 0)); [done|done|vm_compute; reflexivity]|].
  eapply rtc_l; [apply (run_call_step _ 1 CYield); [done|done|vm_compute; reflexivity]|].
  eapply rtc_l; [apply run_dispatch_step; [done|vm_compute; reflexivity]|].
  apply rtc_once. apply (run_call_step _ 2 (CLock 0)); [done|done|vm_compute; reflexivity].
Qed.

(** C9: mutual exclusion, for spinning and blocking mutexes, under any interleaving of
    calls, switches, timer interrupts, new threads and exits: at most one task is
    between the return of [lock] (or of a [wait] on a condition variable, which
    re-acquires the mutex) and its next [unlock] or [wait], provided that tasks unlock
    only what they hold. *)
Theorem mutual_exclusion k log m :
  reachable (k, log) -> (length (holders m log) <= 1)%nat.
Proof. intros Hr. pose proof (held_le_1 k log m (reachable_inv _ Hr)). unfold held in *. lia. Qed.

Lemma mutual_exclusion_witness :
  holders 0 (snd demo_end) = [1%nat] /\ (length (holders 0 (snd demo_end)) <= 1)%nat.
Proof. split; [done|]. apply (mutual_exclusion (fst demo_end)). apply demo_reachable. Defined.

(** A semaphore never lets more [down]s return than the units it was given, and no
    task waits while a unit is available: when a task is in the queue, every unit was
    taken or is on its way to a task that was woken. *)
Theorem semaphore_units k log s x :
  reachable (k, log) -> semaphores k !! s = Some x ->
  taken s log <= units s log /\
  (sem_queue x <> [] -> taken s log + handed (KDown s) k = units s log).
Proof.
  intros Hr Hs. pose proof (inv_sem _ (reachable_inv _ Hr) s) as Hl. cbn [fst snd] in Hl. rewrite Hs in Hl.
  destruct Hl as (Hu & Hsum & Hq). pose proof (handed_nonneg (KDown s) k). split; [lia|].
  intros Hne. assert (length (sem_queue x) <> 0%nat) by (by destruct (sem_queue x)). lia.
Qed.

Lemma semaphore_units_witness :
  taken 0 (snd demo_end) <= units 0 (snd demo_end) /\
  (sem_queue (mkSem 0 []) <> [] -> taken 0 (snd demo_end) + handed (KDown 0) (fst demo_end) = units 0 (snd demo_end)).
Proof. apply (semaphore_units (fst demo_end)); [apply demo_reachable|reflexivity]. Defined.


Definition demo_next : world := Eval vm_compute in world_of (run_dispatch demo_end).

Lemma demo_next_step : step demo_end demo_next.
Proof. apply run_dispatch_step; [done|vm_compute; reflexivity]. Qed.

Lemma demo_next_reachable : reachable demo_next.
Proof. eapply rtc_r; [apply demo_reachable|apply demo_next_step]. Qed.




(** A call that keeps the discipline never panics: the objects it names exist, and
    [unlock] and [wait] are called with a mutex the task holds. *)
Theorem calls_do_not_panic k log t c :
  reachable (k, log) -> current k = Some t -> is_Some (process_of k !! t) -> allowed t c log ->
  match c with
  | CLock m | CUnlock m => (m < length (mutexes k))%nat
  | CUp s | CDown s => (s < length (semaphores k))%nat
  | CSignal c => (c < length (condvars k))%nat
  | CWait c m => (c < length (condvars k))%nat
  | _ => True
  end ->
  exists b k', do_call c k = Ok (b, k').
Proof.
  intros Hr Ht [p Hp] Ha Hex. pose proof (reachable_inv _ Hr) as Hi.
  assert (Ecp : current_process k = Ok (p, k)).
  { unfold current_process. rewrite (st_bind_run _ _ _ _ _ (current_run t k Ht)). unfold reads. by rewrite Hp. }
  destruct c; cbn [do_call allowed] in *.
  - apply lookup_lt_is_Some_2 in Hex as [x Hx]. rewrite (lock_run t m x k Ht Hx). by destruct x as [[]|[]]; eexists _, _.
  - destruct (unlock_inv k log t m Hi Ha) as (k1 & E & _). rewrite (st_bind_run _ _ _ _ _ E). by eexists _, _.
  - apply lookup_lt_is_Some_2 in Hex as [x Hx]. rewrite (st_bind_run _ _ _ _ _ (up_run s x k Hx)). by eexists _, _.
  - apply lookup_lt_is_Some_2 in Hex as [x Hx]. rewrite (down_run t s x k Ht Hx). cbv zeta. case_match; by eexists _, _.
  - apply lookup_lt_is_Some_2 in Hex as [q Hq]. rewrite (st_bind_run _ _ _ _ _ (signal_run c q k Hq)). by eexists _, _.
  - destruct (unlock_inv k log t m Hi Ha) as (k1 & E & _ & Hc & Hv).
    apply lookup_lt_is_Some_2 in Hex as [q Hq]. rewrite <- Hv in Hq. rewrite Ht in Hc.
    rewrite (wait_run t c m q k k1 E Hc Hq). by eexists _, _.
  - rewrite (st_bind_run _ _ _ _ _ (sleep_run t get_time ms k Ht)). by eexists _, _.
  - rewrite (st_bind_run _ _ _ _ _ (yield_run t k Ht)). by eexists _, _.
  - unfold sys_mutex_create, mbind, st_bind. rewrite Ecp. cbn -[alloc_slot].
    destruct (alloc_slot _ _) as [id l]. by eexists _, _.
  - unfold sys_semaphore_create, mbind, st_bind. rewrite Ecp. cbn -[alloc_slot].
    destruct (alloc_slot _ _) as [id l]. by eexists _, _.
  - unfold sys_condvar_create, mbind, st_bind. rewrite Ecp. cbn -[alloc_slot].
    destruct (alloc_slot _ _) as [id l]. by eexists _, _.
Qed.

Lemma calls_do_not_panic_witness :
  exists b k', do_call (CUnlock 0) (fst demo_next) = Ok (b, k').
Proof.
  apply (calls_do_not_panic (fst demo_next) (snd demo_next) 1 (CUnlock 0));
    [apply demo_next_reachable|reflexivity|by exists 0%nat|by apply list_elem_of_singleton|].
  simpl. lia.
Defined.

(** ** Round robin *)

(** The tasks dispatched between two logs, the latest first. *)
Fixpoint dispatched (log : list event) : list nat :=
  match log with
  | [] => []
  | Dispatched t :: log' => t :: dispatched log'
  | _ :: log' => dispatched log'
  end.

(** The ready tasks that perished with their process. *)
Fixpoint perished (log : list event) : list nat :=
  match log with
  | [] => []
  | Perished t _ :: log' => t :: perished log'
  | _ :: log' => perished log'
  end.

(** Operations only append to the ready queue. *)
Definition appends (k k' : kernel) : Prop := exists l, ready_queue k' = ready_queue k ++ l.

Lemma appends_refl k k' : ready_queue k' = ready_queue k -> appends k k'.
Proof. intros H. exists []. by rewrite app_nil_r. Qed.

Lemma appends_one k k' t : ready_queue k' = ready_queue k ++ [t] -> appends k k'.
Proof. intros H. by exists [t]. Qed.

Lemma appends_trans k1 k2 k3 : appends k1 k2 -> appends k2 k3 -> appends k1 k3.
Proof. intros [l1 H1] [l2 H2]. exists (l1 ++ l2). by rewrite H2, H1, app_assoc. Qed.

Lemma lock_appends k t m b k' : current k = Some t -> lock m k = Ok (b, k') -> appends k k'.
Proof.
  intros Ht E. destruct (mutexes k !! m) as [x|] eqn:Hx; [|by unfold lock, object in E; rewrite Hx in E].
  rewrite (lock_run t m x k Ht Hx) in E. destruct x as [[]|[] q]; simplify_eq/=.
  - by eapply appends_one.
  - by apply appends_refl.
  - by apply appends_refl.
  - by apply appends_refl.
Qed.

Lemma unlock_appends k m k' :
  unlock m k = Ok (tt, k') -> appends k k' /\ current k' = current k /\ condvars k' = condvars k.
Proof.
  intros E. destruct (mutexes k !! m) as [x|] eqn:Hx; [|by unfold unlock, object in E; rewrite Hx in E].
  rewrite (unlock_run m x k Hx) in E. destruct x as [l|[] [|w q]]; simplify_eq/=; (split; [|done]).
  - by apply appends_refl.
  - by apply appends_refl.
  - by eapply appends_one.
Qed.

Lemma wait_appends k t c m b k' : current k = Some t -> wait c m k = Ok (b, k') -> appends k k'.
Proof.
  intros Ht E. unfold wait in E. apply st_bind_Ok in E as ([] & k1 & Eu & E).
  destruct (unlock_appends k m k1 Eu) as (Ha & Hc & Hv). rewrite Ht in Hc.
  destruct (condvars k1 !! c) as [q|] eqn:Hq; cycle 1.
  { unfold reads at 1, object, mbind, st_bind in E. by rewrite Hq in E. }
  assert (E' : wait c m k = Ok (b, k')) by (unfold wait; by rewrite (st_bind_run _ _ _ _ _ Eu)).
  rewrite (wait_run t c m q k k1 Eu Hc Hq) in E'. simplify_eq. exact Ha.
Qed.

Lemma create_appends {k} {p : ST kernel (option Z)} {b k'} :
  (forall o k1, p k = Ok (o, k1) -> ready_queue k1 = ready_queue k) ->
  (p;; mret true) k = Ok (b, k') -> appends k k'.
Proof. intros H E. apply st_bind_Ok in E as (o & k1 & E & E'). injection E' as <- <-. by eapply appends_refl, H. Qed.

Lemma mutex_create_ready b k o k1 : sys_mutex_create b k = Ok (o, k1) -> ready_queue k1 = ready_queue k.
Proof.
  intros E. unfold sys_mutex_create in E. apply st_bind_Ok in E as (p & k0 & Ep & E).
  apply current_process_state in Ep as ->. unfold gets, modify, tables_of, gets, mbind, st_bind in E.
  cbn -[alloc_slot] in E. destruct (alloc_slot _ _). by injection E as <- <-.
Qed.

Lemma semaphore_create_ready n k o k1 : sys_semaphore_create n k = Ok (o, k1) -> ready_queue k1 = ready_queue k.
Proof.
  intros E. unfold sys_semaphore_create in E. apply st_bind_Ok in E as (p & k0 & Ep & E).
  apply current_process_state in Ep as ->. unfold gets, modify, tables_of, gets, mbind, st_bind in E.
  cbn -[alloc_slot] in E. destruct (alloc_slot _ _). by injection E as <- <-.
Qed.

Lemma condvar_create_ready k o k1 : sys_condvar_create k = Ok (o, k1) -> ready_queue k1 = ready_queue k.
Proof.
  intros E. unfold sys_condvar_create in E. apply st_bind_Ok in E as (p & k0 & Ep & E).
  apply current_process_state in Ep as ->. unfold gets, modify, tables_of, gets, mbind, st_bind in E.
  cbn -[alloc_slot] in E. destruct (alloc_slot _ _). by injection E as <- <-.
Qed.

Lemma do_call_appends k t c b k' : current k = Some t -> do_call c k = Ok (b, k') -> appends k k'.
Proof.
  intros Ht E. destruct c; cbn [do_call] in E.
  - by eapply lock_appends.
  - apply st_bind_Ok in E as ([] & k1 & E & E'). injection E' as <- <-. by apply (unlock_appends k m).
  - apply st_bind_Ok in E as ([] & k1 & E & E'). injection E' as <- <-.
    destruct (semaphores k !! s) as [x|] eqn:Hx; [|by unfold up, object in E; rewrite Hx in E].
    rewrite (up_run s x k Hx) in E. injection E as <-. cbv zeta.
    destruct (as_isize (count x + 1) <=? 0); [|by apply appends_refl].
    destruct (sem_queue x); [by apply appends_refl|by eapply appends_one].
  - destruct (semaphores k !! s) as [x|] eqn:Hx; [|by unfold down, object in E; rewrite Hx in E].
    rewrite (down_run t s x k Ht Hx) in E. cbv zeta in E.
    destruct (as_isize (count x - 1) <? 0); injection E as <- <-; by apply appends_refl.
  - apply st_bind_Ok in E as ([] & k1 & E & E'). injection E' as <- <-.
    destruct (condvars k !! c) as [q|] eqn:Hq; [|by unfold signal, object in E; rewrite Hq in E].
    rewrite (signal_run c q k Hq) in E. injection E as <-. destruct q; [by apply appends_refl|by eapply appends_one].
  - by eapply wait_appends.
  - rewrite (st_bind_run _ _ _ _ _ (sleep_run t get_time ms k Ht)) in E. injection E as <- <-. by apply appends_refl.
  - rewrite (st_bind_run _ _ _ _ _ (yield_run t k Ht)) in E. injection E as <- <-. by eapply appends_one.
  - exact (create_appends (mutex_create_ready blocking k) E).
  - exact (create_appends (semaphore_create_ready n k) E).
  - exact (create_appends (condvar_create_ready k) E).
Qed.

Lemma resume_appends k t c b k' : current k = Some t -> resume c k = Ok (b, k') -> appends k k'.
Proof.
  intros Ht E. destruct c; cbn [resume] in E; try (injection E as <- <-; by apply appends_refl);
    by eapply lock_appends.
Qed.

Lemma perish_events p k : dispatched (perish p k) = [] /\ perished (perish p k) = filter (perishing p k) (ready_queue k).
Proof.
  unfold perish. change (fun t => process_of k !! t = Some p) with (perishing p k).
  induction (filter (perishing p k) (ready_queue k)) as [|t l [IH1 IH2]]; [done|]. rewrite fmap_cons. cbn [dispatched perished]. by rewrite IH2.
Qed.

(** The current task keeps the queue, a dispatch takes its head, the exit of a process takes
    out its tasks. *)
Lemma step_queue k log k' log' :
  inv (k, log) -> step (k, log) (k', log') ->
  exists new, log' = new ++ log /\
    ((dispatched new = [] /\ perished new = [] /\ appends k k') \/
     (exists t q l, dispatched new = [t] /\ perished new = [] /\ ready_queue k = t :: q /\ ready_queue k' = q ++ l) \/
     (exists p, dispatched new = [] /\ perished new = filter (perishing p k) (ready_queue k) /\
        ready_queue k' = filter (fun t => ~ perishing p k t) (ready_queue k))).
Proof.
  intros Hi. inversion 1 as [? ? t c b ? Ht Ha E|? ? t k1 c b ? Hcur Hr Hk E|? ? t now ? Ht E|? ? t p|? ? t p whole ? Ht Hp E]; subst.
  - exists ((if b then after_call t c else []) ++ before_call t c k). split; [by rewrite app_assoc|]. left.
    split_and!; [by destruct b, c|by destruct b, c|]. by eapply do_call_appends.
  - exists ((if b then after_resume t c else []) ++ [Dispatched t]). split; [by rewrite <- app_assoc|]. right. left.
    apply dispatch_run in Hr as (q & Hq & ->).
    assert (appends (set_current (Some t) (set_status t Running (set_ready q k))) k') as [l Hl]
      by (by eapply (resume_appends _ t)).
    exists t, q, l. split_and!; [by destruct b, c|by destruct b, c|done|done].
  - exists []. split; [done|]. left. split_and!; [done|done|]. apply st_bind_Ok in E as ([] & k1 & E1 & E2).
    destruct (check_timer_loop_spec (length (timers k)) (get_time_ms now) k ltac:(lia))
      as (due & k1' & E' & _ & _ & _ & _ & Hq & Hcur & _). unfold check_timer in E1. rewrite E' in E1.
    injection E1 as <-. rewrite Ht in Hcur. rewrite (suspend_run t KYield k1' Hcur) in E2. injection E2 as <-.
    eapply appends_trans; [by eexists|]. by eapply appends_one.
  - exists []. split; [done|]. left. split_and!; [done|done|]. by eapply appends_one.
  - apply (exit_task_Ok t p) in E as ->; [|apply (inv_core _ Hi)|done|done]. exists (if whole then perish p k else []). split; [done|]. destruct whole.
    + right. right. exists p. destruct (perish_events p k) as [H1 H2]. done.
    + left. split_and!; [done|done|]. by apply appends_refl.
Qed.

Lemma dispatched_app l1 l2 : dispatched (l1 ++ l2) = dispatched l1 ++ dispatched l2.
Proof. induction l1 as [|[] l1 IH]; simpl; [done|by rewrite IH|done..]. Qed.
Lemma perished_app l1 l2 : perished (l1 ++ l2) = perished l1 ++ perished l2.
Proof. induction l1 as [|[] l1 IH]; simpl; rewrite ?IH; done. Qed.

Lemma filter_position (P : nat -> Prop) `{!forall x, Decision (P x)} (l : list nat) : forall i t, l !! i = Some t ->
  t ∈ filter P l \/ exists j, filter (fun x => ~ P x) l !! j = Some t /\ (j <= i)%nat /\ (i <= j + length (filter P l))%nat.
Proof.
  induction l as [|x l IH]; intros i t Hi; [done|]. rewrite !filter_cons. destruct i as [|i]; cbn in Hi.
  - injection Hi as ->. destruct (decide (P t)) as [Hp|Hp].
    + left. by left.
    + right. exists 0%nat. rewrite decide_True by done. split_and!; [done|lia|lia].
  - destruct (IH i t Hi) as [Hin|(j & Hj & H1 & H2)]; [left; case_decide; [by right|done]|right].
    destruct (decide (P x)) as [Hp|Hp].
    + rewrite decide_False by tauto. exists j. cbn. split_and!; [done|lia|lia].
    + rewrite decide_True by done. exists (S j). cbn. split_and!; [done|lia|lia].
Qed.

(** Where a ready task is after some steps: run, perished, or nearer to the head by the
    number of dispatches. *)
Definition advanced (i : nat) (t : nat) (new : list event) (q : list nat) : Prop :=
  t ∈ dispatched new \/ t ∈ perished new \/
  exists j, q !! j = Some t /\ (j + length (dispatched new) <= i <= j + length (dispatched new) + length (perished new))%nat.

Lemma steps_queue w w' i t :
  inv w -> rtc step w w' -> ready_queue (fst w) !! i = Some t ->
  exists new, snd w' = new ++ snd w /\ advanced i t new (ready_queue (fst w')).
Proof.
  intros Hi Hr. revert i Hi. induction Hr as [w|[k1 log1] [k2 log2] w3 Hs Hr IH]; intros i Hinv Hi; cbn [fst snd] in *.
  { exists []. split; [done|]. right. right. exists i. cbn. split; [done|lia]. }
  assert (Hinv2 : inv (k2, log2)) by (by eapply step_keeps).
  assert (Hlater : forall new1, log2 = new1 ++ log1 -> (t ∈ dispatched new1 \/ t ∈ perished new1) \/ (exists j, ready_queue k2 !! j = Some t /\
      (j + length (dispatched new1) <= i <= j + length (dispatched new1) + length (perished new1))%nat) ->
    exists new, snd w3 = new ++ log1 /\ advanced i t new (ready_queue (fst w3))).
  { intros new1 -> [Hend|(j & Hj & Hle)].
    - assert (Hlog : exists new, snd w3 = new ++ new1 ++ log1).
      { clear -Hr Hinv2. remember (k2, new1 ++ log1) as w eqn:Ew. assert (E : new1 ++ log1 = snd w) by (by subst). rewrite E. assert (Hv : inv w) by (by subst). clear -Hr Hv.
        induction Hr as [w|[ka la] [kb lb] wc Hs _ IH]; [by exists []|]. destruct (step_queue _ _ _ _ Hv Hs) as (n1 & -> & _).
        destruct IH as [n2 ->]; [by eapply step_keeps|]. exists (n2 ++ n1). cbn. by rewrite app_assoc. }
      destruct Hlog as [new ->]. exists (new ++ new1). split; [by rewrite app_assoc|]. unfold advanced. rewrite dispatched_app, perished_app, !elem_of_app. tauto.
    - destruct (IH j Hinv2 Hj) as (new & -> & Ha). exists (new ++ new1). cbn [snd]. split; [by rewrite app_assoc|].
      unfold advanced in *. rewrite dispatched_app, perished_app, !elem_of_app, !length_app. destruct Ha as [Ha|[Ha|(j' & Hj' & Hle')]]; [tauto|tauto|].
      right. right. exists j'. split; [done|lia]. }
  destruct (step_queue _ _ _ _ Hinv Hs) as (new1 & -> & [(Hd & Hp & [l Hl])|[(u & q & l & Hd & Hp & Hq & Hl)|(p & Hd & Hp & Hq)]]); apply (Hlater new1 eq_refl); rewrite Hd, Hp.
  - right. exists i. rewrite Hl. split; [by apply lookup_app_l_Some|cbn; lia].
  - rewrite Hq in Hi. destruct i as [|i]; cbn in Hi; [injection Hi as ->; left; left; by left|].
    right. exists i. rewrite Hl. split; [by apply lookup_app_l_Some|cbn; lia].
  - destruct (filter_position (perishing p k1) _ i t Hi) as [Hin|(j & Hj & Hle)]; [by left; right|]. right. exists j. rewrite Hq. split; [done|cbn; lia].
Qed.

(** C36: round robin: whatever the tasks do, a ready task at position [i] of the ready
    queue moves forward by one with every dispatch, so that it is run after at most [i]
    other dispatches; it is never overtaken or forgotten.  The one exception is the exit of
    a process: its ready tasks perish, and those behind them move forward by as many. *)
Theorem round_robin k log k' new i t :
  reachable (k, log) -> rtc step (k, log) (k', new ++ log) -> ready_queue k !! i = Some t ->
  t ∈ dispatched new \/ t ∈ perished new \/
  exists j, ready_queue k' !! j = Some t /\
    (j + length (dispatched new) <= i <= j + length (dispatched new) + length (perished new))%nat.
Proof.
  intros Hk Hr Hi. destruct (steps_queue _ _ i t (reachable_inv _ Hk) Hr Hi) as (new' & E & H). cbn [fst snd] in *.
  apply app_inv_tail in E as <-. exact H.
Qed.

(** Tasks 1 and 2 of process 0 and task 3 of process 1: the dispatch of task 1, and then the
    exit of process 0, with which task 2 perishes. *)
Definition queue3 : world := (spawn 3 1 (spawn 2 0 (spawn 1 0 (fst boot))), []).
Definition queue3_run : world := Eval vm_compute in world_of (run_dispatch queue3).
Definition queue3_end : world :=
  Eval vm_compute in match exit_task true (fst queue3_run) with Ok (_, k) => (k, perish 0 (fst queue3_run) ++ snd queue3_run) | Panic _ => boot end.

Lemma queue3_reachable : reachable queue3.
Proof.
  eapply rtc_l; [apply (step_spawn _ _ 1 0); [apply not_elem_of_nil|done]|].
  eapply rtc_l; [apply (step_spawn _ _ 2 0); [cbn; set_solver|done]|].
  eapply rtc_l; [apply (step_spawn _ _ 3 1); [cbn; set_solver|done]|]. apply rtc_refl.
Qed.

Lemma queue3_steps : rtc step queue3 queue3_end.
Proof.
  eapply rtc_l; [apply (run_dispatch_step _ queue3_run); reflexivity|].
  eapply rtc_l; [apply (step_exit (fst queue3_run) (snd queue3_run) 1 0 true); reflexivity|]. apply rtc_refl.
Qed.

Lemma round_robin_witness :
  3%nat ∈ dispatched (snd queue3_end) \/ 3%nat ∈ perished (snd queue3_end) \/
  exists j, ready_queue (fst queue3_end) !! j = Some 3%nat /\
    (j + length (dispatched (snd queue3_end)) <= 2 <= j + length (dispatched (snd queue3_end)) + length (perished (snd queue3_end)))%nat.
Proof.
  apply (round_robin (fst queue3) [] (fst queue3_end) (snd queue3_end) 2 3); [apply queue3_reachable| |reflexivity].
  rewrite app_nil_r. exact queue3_steps.
Defined.

(** A timer interrupt wakes exactly the tasks whose sleep is over, the earliest
    first, and leaves the other timers alone; the loop always ends. *)
Theorem check_timer_wakes_due now k :
  exists due k', check_timer now k = Ok (tt, k') /\ timers k ≡ₚ due ++ timers k' /\
    Forall (fun x => expire_ms x <= get_time_ms now) due /\
    Forall (fun x => get_time_ms now < expire_ms x) (timers k') /\
    StronglySorted (fun x y => expire_ms x <= expire_ms y) due /\
    ready_queue k' = ready_queue k ++ (timer_task <$> due).
Proof.
  destruct (check_timer_loop_spec (length (timers k)) (get_time_ms now) k ltac:(lia))
    as (due & k' & E & Hp & Hd & Hn & Hss & Hq & _). exists due, k'. split_and!; done.
Qed.
