(* ===== verification/Boot.v ===== *)
(** Machine mode: [rust_boot] of os/src/main.rs, [init] of os/src/timer/mod.rs and the timer
    trap of os/src/timer/timer_trap.S.

    A hart has the general registers, the control registers that the code writes, and memory
    as 64-bit words; [tick] is the timer interrupt as the hart takes it, under the conditions
    that the control registers set.  The addresses that the linker gives are parameters. *)

From S2P Require Import Prelude Sched.

(** ** The hart *)

(** The fields of [mstatus], [mie] and the privilege level are kept as registers of their
    own; 0, 1 and 3 are the user, supervisor and machine levels. *)
Inductive csr :=
| PRIV | MPP | MIE | MPIE | MIE_MTIMER | MEPC | SATP | MEDELEG | MIDELEG | PMPADDR0 | PMPCFG0 | MTVEC | MSCRATCH | SIP.
#[export] Instance csr_eq_dec : EqDecision csr.
Proof. solve_decision. Defined.

Record hart := mkHart { gpr : nat -> Z; csrs : csr -> Z; words : Z -> Z; hpc : Z }.

Definition update {A B} `{EqDecision A} (f : A -> B) (a : A) (b : B) : A -> B := fun a' => if decide (a' = a) then b else f a'.

Lemma update_eq {A B} `{EqDecision A} (f : A -> B) a b : update f a b a = b.
Proof. unfold update. by rewrite decide_True. Qed.
Lemma update_ne {A B} `{EqDecision A} (f : A -> B) a b a' : a' <> a -> update f a b a' = f a'.
Proof. intros Hne. unfold update. by rewrite decide_False. Qed.

Definition write_csr (c : csr) (v : Z) (h : hart) : hart := mkHart (gpr h) (update (csrs h) c v) (words h) (hpc h).
Definition write_gpr (r : nat) (v : Z) (h : hart) : hart := mkHart (update (gpr h) r v) (csrs h) (words h) (hpc h).
Definition write_volatile (a v : Z) (h : hart) : hart := mkHart (gpr h) (csrs h) (update (words h) a v) (hpc h).
Definition set_hpc (a : Z) (h : hart) : hart := mkHart (gpr h) (csrs h) (words h) a.

Definition sp : nat := 2.
Definition t0 : nat := 5.
Definition t1 : nat := 6.
Definition t2 : nat := 7.

(** [csrrw sp, mscratch, sp], [sd r, off(base)], [ld r, off(base)] *)
Definition csrrw_sp (h : hart) : hart := write_gpr sp (csrs h MSCRATCH) (write_csr MSCRATCH (gpr h sp) h).
Definition sd (r base : nat) (off : Z) (h : hart) : hart := write_volatile (gpr h base + off) (gpr h r) h.
Definition ld (r base : nat) (off : Z) (h : hart) : hart := write_gpr r (words h (gpr h base + off)) h.

(** Reads after writes, one layer at a time. *)
Lemma gpr_write_csr c v h : gpr (write_csr c v h) = gpr h.
Proof. done. Qed.
Lemma gpr_write_volatile a v h : gpr (write_volatile a v h) = gpr h.
Proof. done. Qed.
Lemma csrs_write_gpr r v h : csrs (write_gpr r v h) = csrs h.
Proof. done. Qed.
Lemma csrs_write_volatile a v h : csrs (write_volatile a v h) = csrs h.
Proof. done. Qed.
Lemma words_write_csr c v h : words (write_csr c v h) = words h.
Proof. done. Qed.
Lemma words_write_gpr r v h : words (write_gpr r v h) = words h.
Proof. done. Qed.
Lemma hpc_write_csr c v h : hpc (write_csr c v h) = hpc h.
Proof. done. Qed.
Lemma hpc_write_gpr r v h : hpc (write_gpr r v h) = hpc h.
Proof. done. Qed.
Lemma hpc_write_volatile a v h : hpc (write_volatile a v h) = hpc h.
Proof. done. Qed.
Lemma gpr_set_hpc a h : gpr (set_hpc a h) = gpr h.
Proof. done. Qed.
Lemma csrs_set_hpc a h : csrs (set_hpc a h) = csrs h.
Proof. done. Qed.
Lemma words_set_hpc a h : words (set_hpc a h) = words h.
Proof. done. Qed.
Lemma hpc_set_hpc a h : hpc (set_hpc a h) = a.
Proof. done. Qed.
Lemma gpr_write_eq r v h : gpr (write_gpr r v h) r = v.
Proof. apply update_eq. Qed.
Lemma gpr_write_ne r v h r' : r' <> r -> gpr (write_gpr r v h) r' = gpr h r'.
Proof. apply update_ne. Qed.
Lemma csrs_write_eq c v h : csrs (write_csr c v h) c = v.
Proof. apply update_eq. Qed.
Lemma csrs_write_ne c v h c' : c' <> c -> csrs (write_csr c v h) c' = csrs h c'.
Proof. apply update_ne. Qed.
Lemma words_write_eq a v h : words (write_volatile a v h) a = v.
Proof. apply update_eq. Qed.
Lemma words_write_ne a v h a' : a' <> a -> words (write_volatile a v h) a' = words h a'.
Proof. apply update_ne. Qed.

Create Rewrite HintDb hart.
#[export] Hint Rewrite gpr_write_csr gpr_write_volatile csrs_write_gpr csrs_write_volatile words_write_csr words_write_gpr hpc_write_csr hpc_write_gpr
  hpc_write_volatile gpr_set_hpc csrs_set_hpc words_set_hpc hpc_set_hpc gpr_write_eq csrs_write_eq words_write_eq : hart.

Ltac updates :=
  repeat (autorewrite with hart;
    first [rewrite gpr_write_ne by first [discriminate | lia | congruence] | rewrite csrs_write_ne by first [discriminate | congruence] | rewrite words_write_ne by first [lia | congruence]]);
  autorewrite with hart.

(** The bits of [mideleg] for interrupts of the machine level are read-only zero; the others
    that there are are 1, 5 and 9. *)
Definition write_mideleg (v : Z) (h : hart) : hart := write_csr MIDELEG (Z.land v 0x222) h.

(** An interrupt taken in machine mode, and the return from it. *)
Definition enter_trap (h : hart) : hart :=
  set_hpc (csrs h MTVEC)
    (write_csr PRIV 3 (write_csr MPP (csrs h PRIV) (write_csr MIE 0 (write_csr MPIE (csrs h MIE) (write_csr MEPC (hpc h) h))))).
Definition mret (h : hart) : hart :=
  set_hpc (csrs h MEPC) (write_csr PRIV (csrs h MPP) (write_csr MIE (csrs h MPIE) (write_csr MPIE 1 (write_csr MPP 0 h)))).

(** ** timer/mod.rs and timer_trap.S *)

Definition VIRT_CLINT : Z := 0x2000000.
Definition MTIME : Z := VIRT_CLINT + 0xbff8.
Definition MTIMECMP : Z := VIRT_CLINT + 0x4000.
Definition TICKS_PER_SEC : Z := 100.
Definition get_time (h : hart) : Z := words h MTIME.

Section boot.
Context (TIMER_SCRATCH timer_trap_entry rust_main : Z).

Definition init (h : hart) : hart :=
  let h := write_volatile (TIMER_SCRATCH + 3 * 8) MTIMECMP h in
  let h := write_volatile (TIMER_SCRATCH + 4 * 8) (CLOCK_FREQ / TICKS_PER_SEC) h in
  let h := write_csr MTVEC timer_trap_entry h in
  let h := write_csr MSCRATCH TIMER_SCRATCH h in
  let h := write_csr MIE 1 h in
  let h := write_csr MIE_MTIMER 1 h in
  write_volatile MTIMECMP (uadd (get_time h) (CLOCK_FREQ / TICKS_PER_SEC)) h.

(** Exchange the stack pointer for the scratch area and save three registers there. *)
Definition save_regs (h : hart) : hart :=
  let h := csrrw_sp h in
  let h := sd t0 sp (0 * 8) h in
  let h := sd t1 sp (1 * 8) h in
  sd t2 sp (2 * 8) h.

(** The next trigger time, and a software interrupt for the supervisor. *)
Definition rearm (h : hart) : hart :=
  let h := ld t0 sp (3 * 8) h in
  let h := ld t1 sp (4 * 8) h in
  let h := ld t2 t0 0 h in
  let h := write_gpr t2 (uadd (gpr h t2) (gpr h t1)) h in
  let h := sd t2 t0 0 h in
  let h := write_gpr t0 2 h in
  write_csr SIP (gpr h t0) h.

Definition restore_regs (h : hart) : hart :=
  let h := ld t0 sp (0 * 8) h in
  let h := ld t1 sp (1 * 8) h in
  let h := ld t2 sp (2 * 8) h in
  csrrw_sp h.

Definition timer_trap (h : hart) : hart := mret (restore_regs (rearm (save_regs h))).

(** ** main.rs *)

Definition rust_boot (h : hart) : hart :=
  let h := write_csr MPP 1 h in
  let h := write_csr MEPC rust_main h in
  let h := write_csr SATP 0 h in
  let h := write_csr MEDELEG 0xffff h in
  let h := write_mideleg 0xffff h in
  let h := write_csr PMPADDR0 0x3fffffffffffff h in
  let h := write_csr PMPCFG0 0xf h in
  let h := init h in
  mret h.

(** ** The timer trap *)

(** The machine timer interrupt (7) is pending once the time has reached the trigger time,
    and is taken in machine mode if it is enabled and not delegated: always from a lower
    level, and from machine mode itself when [mstatus] says so. *)
Definition timer_due (h : hart) : bool := words h MTIMECMP <=? get_time h.
Definition takes_timer (h : hart) : bool :=
  timer_due h && (csrs h MIE_MTIMER =? 1) && negb (Z.testbit (csrs h MIDELEG) 7) && ((csrs h PRIV <? 3) || (csrs h MIE =? 1)).

(** The interrupt, if it is taken now, from the code it interrupts back to it.  [None]: it is
    not taken, or what [mtvec] points to is not the timer trap. *)
Definition tick (h : hart) : option hart :=
  if takes_timer h then
    let h := enter_trap h in
    if hpc h =? timer_trap_entry then Some (timer_trap h) else None
  else None.

(** [trap_handler] on the software interrupt: [csrw sip, sip ^ 2]. *)
Definition acknowledge (h : hart) : hart := write_csr SIP (Z.lxor (csrs h SIP) 2) h.

(** The scratch words are in memory, above the devices. *)
Context (Hram : 0x80000000 <= TIMER_SCRATCH).

Record armed (h : hart) : Prop := {
  ar_vec : csrs h MTVEC = timer_trap_entry;
  ar_scratch : csrs h MSCRATCH = TIMER_SCRATCH;
  ar_cmp : words h (TIMER_SCRATCH + 24) = MTIMECMP;
  ar_interval : words h (TIMER_SCRATCH + 32) = CLOCK_FREQ / TICKS_PER_SEC;
  ar_enabled : csrs h MIE_MTIMER = 1;
  ar_kept : Z.testbit (csrs h MIDELEG) 7 = false;
  ar_level : 0 <= csrs h PRIV <= 1;
}.

(** The trap is taken exactly when it is due. *)
Lemma armed_tick h : armed h -> tick h = if timer_due h then Some (timer_trap (enter_trap h)) else None.
Proof.
  intros [Hv _ _ _ He Hk Hl]. unfold tick, takes_timer. rewrite He, Hk, (proj2 (Z.ltb_lt _ _)) by lia. cbn [negb orb]. rewrite !andb_true_r.
  destruct (timer_due h); [|done]. change (hpc (enter_trap h)) with (csrs h MTVEC). by rewrite Hv, Z.eqb_refl.
Qed.

Lemma save_regs_effect h :
  csrs h MSCRATCH = TIMER_SCRATCH ->
  let h' := save_regs h in
  gpr h' sp = TIMER_SCRATCH /\ (forall r, r <> sp -> gpr h' r = gpr h r) /\
  csrs h' MSCRATCH = gpr h sp /\ (forall c, c <> MSCRATCH -> csrs h' c = csrs h c) /\ hpc h' = hpc h /\
  words h' TIMER_SCRATCH = gpr h t0 /\ words h' (TIMER_SCRATCH + 8) = gpr h t1 /\ words h' (TIMER_SCRATCH + 16) = gpr h t2 /\
  (forall a, a <> TIMER_SCRATCH -> a <> TIMER_SCRATCH + 8 -> a <> TIMER_SCRATCH + 16 -> words h' a = words h a).
Proof.
  intros Hs h'. unfold h', save_regs, sd. change (0 * 8) with 0. change (1 * 8) with 8. change (2 * 8) with 16.
  unfold csrrw_sp. updates. rewrite Hs, Z.add_0_r. split_and!; intros; updates; done.
Qed.

Lemma rearm_effect h :
  gpr h sp = TIMER_SCRATCH -> words h (TIMER_SCRATCH + 24) = MTIMECMP ->
  let h' := rearm h in
  (forall r, r <> t0 -> r <> t1 -> r <> t2 -> gpr h' r = gpr h r) /\
  csrs h' SIP = 2 /\ (forall c, c <> SIP -> csrs h' c = csrs h c) /\ hpc h' = hpc h /\
  words h' MTIMECMP = uadd (words h MTIMECMP) (words h (TIMER_SCRATCH + 32)) /\ (forall a, a <> MTIMECMP -> words h' a = words h a).
Proof.
  intros Hsp Hcmp h'. unfold h', rearm, ld, sd. change (3 * 8) with 24. change (4 * 8) with 32. updates. rewrite Hsp, Hcmp, !Z.add_0_r.
  split_and!; intros; updates; done.
Qed.

Lemma restore_regs_effect h :
  gpr h sp = TIMER_SCRATCH ->
  let h' := restore_regs h in
  gpr h' t0 = words h TIMER_SCRATCH /\ gpr h' t1 = words h (TIMER_SCRATCH + 8) /\ gpr h' t2 = words h (TIMER_SCRATCH + 16) /\
  gpr h' sp = csrs h MSCRATCH /\ (forall r, r <> t0 -> r <> t1 -> r <> t2 -> r <> sp -> gpr h' r = gpr h r) /\
  csrs h' MSCRATCH = TIMER_SCRATCH /\ (forall c, c <> MSCRATCH -> csrs h' c = csrs h c) /\ hpc h' = hpc h /\ words h' = words h.
Proof.
  intros Hsp h'. unfold h', restore_regs, ld. change (0 * 8) with 0. change (1 * 8) with 8. change (2 * 8) with 16.
  unfold csrrw_sp. updates. rewrite Hsp, Z.add_0_r. split_and!; intros; updates; done.
Qed.

(** The interrupted code does not notice the trap. *)
Lemma trap_effect h :
  armed h ->
  let h' := timer_trap (enter_trap h) in
  armed h' /\ (forall r, gpr h' r = gpr h r) /\ hpc h' = hpc h /\ csrs h' SIP = 2 /\ csrs h' MPIE = 1 /\
  (forall c, c <> SIP -> c <> MPP -> c <> MPIE -> c <> MEPC -> csrs h' c = csrs h c) /\
  words h' MTIMECMP = uadd (words h MTIMECMP) (CLOCK_FREQ / TICKS_PER_SEC) /\
  (forall a, a <> MTIMECMP -> a <> TIMER_SCRATCH -> a <> TIMER_SCRATCH + 8 -> a <> TIMER_SCRATCH + 16 -> words h' a = words h a).
Proof.
  intros [Hv Hs Hc Hi He Hk Hl] h'. unfold h', timer_trap. set (h0 := enter_trap h).
  assert (Hfar : MTIMECMP < 0x80000000) by (unfold MTIMECMP, VIRT_CLINT; lia).
  assert (Hs0 : csrs h0 MSCRATCH = TIMER_SCRATCH) by (unfold h0, enter_trap; updates; done).
  destruct (save_regs_effect h0 Hs0) as (A1 & A2 & A3 & A4 & A5 & A6 & A7 & A8 & A9). set (h1 := save_regs h0) in *.
  destruct (rearm_effect h1 A1) as (B1 & B2 & B3 & B4 & B5 & B6); [by rewrite A9 by lia|]. set (h2 := rearm h1) in *.
  destruct (restore_regs_effect h2) as (C1 & C2 & C3 & C4 & C5 & C6 & C7 & C8 & C9); [by rewrite B1|]. set (h3 := restore_regs h2) in *. clearbody h3 h2 h1.
  assert (Hw : forall a, a <> MTIMECMP -> a <> TIMER_SCRATCH -> a <> TIMER_SCRATCH + 8 -> a <> TIMER_SCRATCH + 16 -> words (mret h3) a = words h a).
  { intros a H0 H1 H2 H3. change (words (mret h3) a) with (words h3 a). rewrite C9, B6, A9 by done. done. }
  assert (Hcs : forall c, c <> SIP -> c <> MSCRATCH -> csrs h3 c = csrs h0 c) by (intros c H1 H2; rewrite C7, B3, A4 by done; done).
  split_and!.
  - split; [| |rewrite Hw by lia; done|rewrite Hw by lia; done|..]; unfold mret; updates; rewrite ?Hcs by done; unfold h0, enter_trap; updates; done.
  - intros r. change (gpr (mret h3) r) with (gpr h3 r). destruct (decide (r = t0)) as [->|N0]; [rewrite C1, B6, A6 by lia; done|].
    destruct (decide (r = t1)) as [->|N1]; [rewrite C2, B6, A7 by lia; done|]. destruct (decide (r = t2)) as [->|N2]; [rewrite C3, B6, A8 by lia; done|].
    destruct (decide (r = sp)) as [->|N3]; [rewrite C4, B3, A3 by done; done|]. rewrite C5, B1, A2 by done. done.
  - unfold mret. updates. rewrite Hcs by done. unfold h0, enter_trap. updates. done.
  - unfold mret. updates. by rewrite C7, B2.
  - unfold mret. updates. done.
  - intros c H1 H2 H3 H4. unfold mret. destruct (decide (c = PRIV)) as [->|N0]; [updates; rewrite Hcs by done; unfold h0, enter_trap; updates; done|].
    destruct (decide (c = MIE)) as [->|N1]; [updates; rewrite Hcs by done; unfold h0, enter_trap; updates; done|]. updates.
    destruct (decide (c = MSCRATCH)) as [->|N2]; [congruence|]. rewrite Hcs by done. unfold h0, enter_trap. updates. done.
  - change (words (mret h3) MTIMECMP) with (words h3 MTIMECMP). rewrite C9, B5, (A9 MTIMECMP), A9 by lia. change (words h0) with (words h). by rewrite Hi.
  - exact Hw.
Qed.

Lemma boot_effect h :
  let h' := rust_boot h in
  armed h' /\ hpc h' = rust_main /\ csrs h' PRIV = 1 /\ csrs h' SATP = 0 /\ csrs h' MEDELEG = 0xffff /\ 
  words h' MTIMECMP = uadd (get_time h) (CLOCK_FREQ / TICKS_PER_SEC).
Proof.
  assert (Hfar : MTIMECMP < 0x80000000 /\ MTIME < 0x80000000) by (unfold MTIME, MTIMECMP, VIRT_CLINT; lia).
  intros h'. unfold h', rust_boot, init, write_mideleg, mret, get_time. change (3 * 8) with 24. change (4 * 8) with 32.
  split_and!; [split|..]; updates; done.
Qed.

(** ** Runs *)

(** What the supervisor and the programs do between two traps: anything but the machine's
    control registers, its words of memory and the trigger time.  The time goes on. *)
Definition supervises (h h' : hart) : Prop :=
  (forall c, c <> PRIV -> c <> SATP -> c <> SIP -> csrs h' c = csrs h c) /\ 0 <= csrs h' PRIV <= 1 /\
  words h' (TIMER_SCRATCH + 24) = words h (TIMER_SCRATCH + 24) /\ words h' (TIMER_SCRATCH + 32) = words h (TIMER_SCRATCH + 32) /\
  words h' MTIMECMP = words h MTIMECMP.

(** [runs n h h']: from [h] to [h'] with [n] timer traps. *)
Inductive runs : nat -> hart -> hart -> Prop :=
| runs_refl h : runs 0 h h
| runs_on n h h1 h2 : runs n h h1 -> supervises h1 h2 -> runs n h h2
| runs_tick n h h1 h2 : runs n h h1 -> tick h1 = Some h2 -> runs (S n) h h2.

Lemma runs_armed n h h' :
  runs n h h' -> armed h -> 0 <= words h MTIMECMP < 2 ^ 64 ->
  armed h' /\ words h' MTIMECMP = wrap 64 (words h MTIMECMP + Z.of_nat n * (CLOCK_FREQ / TICKS_PER_SEC)).
Proof.
  intros Hr Ha Hw. induction Hr as [h|n h h1 h2 _ IH Hs|n h h1 h2 _ IH Ht].
  - split; [done|]. unfold wrap. rewrite Z.mod_small; lia.
  - destruct (IH Ha Hw) as [[A1 A2 A3 A4 A5 A6 A7] Hw1]. destruct Hs as (Hc & Hp & H1 & H2 & H3). split; [|by rewrite H3].
    split; [by rewrite Hc|by rewrite Hc|congruence|congruence|by rewrite Hc|by rewrite Hc|done].
  - destruct (IH Ha Hw) as [Ha1 Hw1]. rewrite (armed_tick h1 Ha1) in Ht. destruct (timer_due h1); [|done]. injection Ht as <-.
    destruct (trap_effect h1 Ha1) as (Ha2 & _ & _ & _ & _ & _ & Hc & _). split; [done|].
    rewrite Hc, Hw1. unfold uadd, wrap. rewrite Zplus_mod_idemp_l. f_equal. lia.
Qed.
End boot.

(** C22: The clock of the machine.  [rust_boot] leaves machine mode for [rust_main] in
    supervisor mode, without a page table and with the exceptions delegated, and the timer
    armed: after any number [n] of timer traps, with any code in between that leaves the
    machine's control registers, the scratch words of the trap and the trigger time alone,
    the interrupt is taken as soon as the time has reached the trigger time and goes to the
    timer trap, and not before.  The trigger time is that of the boot plus [n + 1] intervals
    of 10 ms, so no time is lost however late a trap is taken.  The trap restores every
    register, the program counter, the privilege level and the address space of the code it
    interrupts, raises the software interrupt of the supervisor, which [trap_handler] clears,
    and writes memory only in its scratch area. *)
Theorem timer_traps_regular TIMER_SCRATCH timer_trap_entry rust_main h n h' :
  0x80000000 <= TIMER_SCRATCH ->
  let h0 := rust_boot TIMER_SCRATCH timer_trap_entry rust_main h in
  runs TIMER_SCRATCH timer_trap_entry n h0 h' ->
  (hpc h0 = rust_main /\ csrs h0 PRIV = 1 /\ csrs h0 SATP = 0 /\ csrs h0 MEDELEG = 0xffff) /\
  words h' MTIMECMP = wrap 64 (get_time h + (Z.of_nat n + 1) * 125000) /\
  (get_time h' < words h' MTIMECMP -> tick timer_trap_entry h' = None) /\
  (words h' MTIMECMP <= get_time h' -> exists h'', tick timer_trap_entry h' = Some h'' /\
     (forall r, gpr h'' r = gpr h' r) /\ hpc h'' = hpc h' /\ csrs h'' PRIV = csrs h' PRIV /\ csrs h'' SATP = csrs h' SATP /\
     csrs h'' SIP = 2 /\ csrs (acknowledge h'') SIP = 0 /\
     (forall a, a <> MTIMECMP -> a <> TIMER_SCRATCH -> a <> TIMER_SCRATCH + 8 -> a <> TIMER_SCRATCH + 16 -> words h'' a = words h' a)).
Proof.
  intros Hram h0 Hr. destruct (boot_effect TIMER_SCRATCH timer_trap_entry rust_main Hram h) as (Ha & Hpc & Hp & Hsa & Hme & Hw).
  destruct (runs_armed TIMER_SCRATCH timer_trap_entry Hram n _ h' Hr Ha) as [Ha' Hw'].
  { unfold h0. rewrite Hw. unfold uadd. apply wrap_range. lia. }
  pose proof (armed_tick TIMER_SCRATCH timer_trap_entry h' Ha') as Ht. unfold timer_due in Ht.
  split_and!; [exact Hpc|exact Hp|exact Hsa|exact Hme| | |].
  - rewrite Hw'. unfold h0. rewrite Hw. unfold uadd, wrap. rewrite Zplus_mod_idemp_l. f_equal. change (CLOCK_FREQ / TICKS_PER_SEC) with 125000. lia.
  - intros Hlt. by rewrite Ht, (proj2 (Z.leb_gt _ _)).
  - intros Hle. rewrite (proj2 (Z.leb_le _ _) Hle) in Ht. eexists. split; [exact Ht|].
    destruct (trap_effect TIMER_SCRATCH timer_trap_entry Hram h' Ha') as (_ & Hg & Hpc' & Hsip & _ & Hcs & _ & Hmem).
    split_and!; [exact Hg|exact Hpc'|by apply Hcs|by apply Hcs|exact Hsip| |exact Hmem]. unfold acknowledge. rewrite csrs_write_eq, Hsip. done.
Qed.

(** ** A run *)

Definition reset : hart := mkHart (fun r => Z.of_nat r) (fun c => if decide (c = PRIV) then 3 else 0) (fun a => if decide (a = MTIME) then 7 else 0) 0x80000000.

(** The time goes on to [t]. *)
Definition at_time (t : Z) (h : hart) : hart := write_volatile MTIME t h.

Lemma at_time_supervises TIMER_SCRATCH t h : 0x80000000 <= TIMER_SCRATCH -> 0 <= csrs h PRIV <= 1 -> supervises TIMER_SCRATCH h (at_time t h).
Proof. intros Hr Hp. assert (Hfar : MTIME < 0x80000000) by (unfold MTIME, VIRT_CLINT; lia). unfold at_time. split_and!; [done|updates; lia|updates; lia|updates; done..]. Qed.

Lemma timer_traps_regular_witness :
  let h1 := at_time 125007 (rust_boot 0x80010000 0x80001000 0x80000100 reset) in
  words h1 MTIMECMP = 125007 /\ exists h2, tick 0x80001000 h1 = Some h2 /\ gpr h2 5 = gpr h1 5%nat /\ hpc h2 = 0x80000100 /\ csrs h2 SIP = 2.
Proof.
  intros h1. destruct (timer_traps_regular 0x80010000 0x80001000 0x80000100 reset 0 h1) as ((Hpc0 & _) & Hw & _ & Hdue).
  - lia.
  - eapply runs_on; [apply runs_refl|]. apply at_time_supervises; [lia|]. split; by vm_compute.
  - assert (Hw1 : words h1 MTIMECMP = 125007) by (rewrite Hw; reflexivity). split; [exact Hw1|].
    destruct Hdue as (h2 & E & Hg & Hpc & _ & _ & Hsip & _); [rewrite Hw1; by vm_compute|]. exists h2. split_and!; [exact E|apply Hg|rewrite Hpc; exact Hpc0|exact Hsip].
Defined.
