(* ===== verification/KernelThreads.v ===== *)
(** User threads on the scheduler of [Sched]: a program is a function from a program point
    to what the thread does there, a memory access or a system call, and [ustep] runs the
    threads of a program on the kernel, with timer interrupts at any point and the tasks of
    other processes in between.  A call returns to its thread when the kernel says so: at
    once, or when the task is dispatched again and its kernel path runs to the end.

    The lemmas show that the kernel keeps, for every thread of the program, the continuation
    of the call it is in, and that the invariant of [Sched] holds as long as the calls of the
    program are allowed. *)

From S2P Require Import Prelude Sched.

Section threads.
Context {P M : Type}.

Inductive op :=
| Compute (m : M) (p : P)
| Call (c : call) (p : P)
| Exit.

Context (code : P -> M -> op).

(** Where the next thread that the main thread creates will start, and the memory then. *)
Context (born : M -> option (P * M)).

(** What a thread is doing: [Waits c p] when the call [c] has not returned; it goes on at
    [p]. *)
Inductive mode := Runs | Waits (c : call) (p : P) | Ended.
Record thread := mkThread { point : P; doing : mode }.

Definition settle (th : thread) : thread :=
  match doing th with
  | Waits _ p => mkThread p Runs
  | _ => th
  end.

Record uworld := mkU { kw : world; threads : gmap nat thread; memory : M }.

(** The synchronization objects of the program; other processes do not have them. *)
Context (our_mutex our_sem our_cond : nat -> Prop).

Definition foreign (c : call) : Prop :=
  match c with
  | CLock m | CUnlock m => ~ our_mutex m
  | CUp s | CDown s => ~ our_sem s
  | CSignal v => ~ our_cond v
  | CWait v m => ~ our_cond v /\ ~ our_mutex m
  | _ => True
  end.

Inductive ustep : uworld -> uworld -> Prop :=
| u_compute k log T m t p m' p' :
    current k = Some t -> T !! t = Some (mkThread p Runs) -> code p m = Compute m' p' ->
    ustep (mkU (k, log) T m) (mkU (k, log) (<[t := mkThread p' Runs]> T) m')
| u_call k log T m t p c p' b k' :
    current k = Some t -> T !! t = Some (mkThread p Runs) -> code p m = Call c p' -> do_call c k = Ok (b, k') ->
    ustep (mkU (k, log) T m)
      (mkU (k', (if b : bool then after_call t c else []) ++ before_call t c k ++ log)
         (<[t := if b then mkThread p' Runs else mkThread p (Waits c p')]> T) m)
| u_exit k log T m t p :
    current k = Some t -> T !! t = Some (mkThread p Runs) -> code p m = Exit ->
    ustep (mkU (k, log) T m) (mkU (set_current None k, log) (<[t := mkThread p Ended]> T) m)
| u_dispatch k log T m t k1 c b k2 :
    current k = None -> run_tasks_round k = Ok (Some t, k1) -> konts k1 !! t = Some c -> resume c k1 = Ok (b, k2) ->
    ustep (mkU (k, log) T m)
      (mkU (k2, (if b : bool then after_resume t c else []) ++ Dispatched t :: log) (if b then alter settle t T else T) m)
| u_tick k log T m t now k' :
    current k = Some t -> (check_timer now;; suspend_current_and_run_next KYield) k = Ok (tt, k') ->
    ustep (mkU (k, log) T m) (mkU (k', log) T m)
| u_other_call k log T m t c b k' :
    current k = Some t -> T !! t = None -> foreign c -> allowed t c log -> do_call c k = Ok (b, k') ->
    ustep (mkU (k, log) T m) (mkU (k', (if b : bool then after_call t c else []) ++ before_call t c k ++ log) T m)
| u_other_spawn k log T m t p :
    t ∉ places k -> T !! t = None -> Z.of_nat (length (places k)) + 1 < limit ->
    ustep (mkU (k, log) T m) (mkU (spawn t p k, log) T m)
| u_create k log T m main t q p m' :
    current k = Some main -> T !! main = None -> born m = Some (p, m') -> t ∉ places k -> T !! t = None -> Z.of_nat (length (places k)) + 1 < limit ->
    ustep (mkU (k, log) T m) (mkU (spawn t q k, log) (<[t := mkThread p Runs]> T) m')
| u_other_exit k log T m t p (whole : bool) k' :
    current k = Some t -> T !! t = None -> process_of k !! t = Some p -> (whole = true -> forall t', process_of k !! t' = Some p -> T !! t' = None) ->
    exit_task whole k = Ok (tt, k') -> ustep (mkU (k, log) T m) (mkU (k', (if whole then perish p k else []) ++ log) T m).

(** A call of a task outside the program. *)
Lemma other_call_step w t c kw' :
  current (fst (kw w)) = Some t -> threads w !! t = None -> foreign c -> allowed t c (snd (kw w)) -> run_call t c (kw w) = Ok kw' ->
  ustep w (mkU kw' (threads w) (memory w)).
Proof.
  destruct w as [[k log] T m]. cbn [kw threads memory fst snd]. intros Ht Hn Hf Ha E. unfold run_call in E. apply res_bind_Ok in E as ([b k'] & Ed & [= <-]).
  by apply (u_other_call k log T m t c b k').
Qed.

(** ** What the kernel keeps for the threads *)

(** Where the kernel path of a call can be suspended. *)
Definition suspends (c : call) (kc : kont) : Prop :=
  match c with
  | CLock m => kc = KSpin m \/ kc = KLocked m
  | CDown s => kc = KDown s
  | CWait _ m => kc = KWait m \/ kc = KSpin m \/ kc = KLocked m
  | CSleep _ _ => kc = KSleep
  | CYield => kc = KYield
  | _ => False
  end.

(** What is logged when it returns. *)
Definition returned (t : nat) (c : call) : list event :=
  match c with
  | CLock m | CWait _ m => [Locked t m]
  | CDown s => [Downed t s]
  | _ => []
  end.

Definition tracks (k : kernel) (t : nat) (th : thread) : Prop :=
  match doing th with
  | Runs => t ∈ places k /\ (current k = Some t \/ konts k !! t = Some KStart \/ konts k !! t = Some KYield)
  | Waits c _ => t ∈ places k /\ current k <> Some t /\ exists kc, konts k !! t = Some kc /\ suspends c kc
  | Ended => t ∉ places k
  end.

(** The threads and the invariant of the kernel. *)
Definition foreign_kont (kc : kont) : Prop :=
  match kc with
  | KSpin m | KLocked m | KWait m => ~ our_mutex m
  | KDown s => ~ our_sem s
  | _ => True
  end.

Record good (w : uworld) : Prop := {
  go_inv : inv (kw w);
  go_track t th : threads w !! t = Some th -> tracks (fst (kw w)) t th;
  go_other t kc : threads w !! t = None -> t ∈ places (fst (kw w)) -> konts (fst (kw w)) !! t = Some kc ->
    current (fst (kw w)) = Some t \/ foreign_kont kc;
  go_sem s : our_sem s -> is_Some (semaphores (fst (kw w)) !! s);
}.

(** A call that returns leaves the continuations alone; one that does not leaves its own. *)
Definition frame (t : nat) (b : bool) (k k' : kernel) (Q : kont -> Prop) : Prop :=
  (forall t', t' <> t -> konts k' !! t' = konts k !! t') /\
  if b then current k' = Some t else current k' = None /\ exists kc, konts k' !! t = Some kc /\ Q kc.

Lemma lock_frame t m k b k' :
  current k = Some t -> lock m k = Ok (b, k') -> frame t b k k' (fun kc => kc = KSpin m \/ kc = KLocked m).
Proof.
  intros Ht E. destruct (mutexes k !! m) as [x|] eqn:Hm; [|unfold lock, object in E; by rewrite Hm in E].
  rewrite (lock_run t m x k Ht Hm) in E. destruct x as [[]|[] q]; injection E as <- <-; (split; [try done|]).
  - intros t' Hne. cbn. by rewrite lookup_insert_ne.
  - split; [done|]. exists (KSpin m). cbn. rewrite lookup_insert_eq. auto.
  - done.
  - intros t' Hne. cbn. by rewrite lookup_insert_ne.
  - split; [done|]. exists (KLocked m). cbn. rewrite lookup_insert_eq. auto.
  - done.
Qed.

Lemma unlock_frame m k k' : unlock m k = Ok (tt, k') -> konts k' = konts k /\ current k' = current k.
Proof.
  intros E. destruct (mutexes k !! m) as [x|] eqn:Hm; [|unfold unlock, object in E; by rewrite Hm in E].
  rewrite (unlock_run m x k Hm) in E. destruct x as [[]|[] [|w q]]; by injection E as <- || done.
Qed.

Lemma up_frame s k k' : up s k = Ok (tt, k') -> konts k' = konts k /\ current k' = current k.
Proof.
  intros E. destruct (semaphores k !! s) as [x|] eqn:Hs; [|unfold up, object in E; by rewrite Hs in E].
  rewrite (up_run s x k Hs) in E. injection E as <-. cbv zeta. repeat case_match; done.
Qed.

Lemma down_frame t s k b k' : current k = Some t -> down s k = Ok (b, k') -> frame t b k k' (fun kc => kc = KDown s).
Proof.
  intros Ht E. destruct (semaphores k !! s) as [x|] eqn:Hs; [|unfold down, object in E; by rewrite Hs in E].
  rewrite (down_run t s x k Ht Hs) in E. cbv zeta in E. case_match; injection E as <- <-; (split; [try done|]).
  - intros t' Hne. cbn. by rewrite lookup_insert_ne.
  - split; [done|]. exists (KDown s). cbn. by rewrite lookup_insert_eq.
  - done.
Qed.

Lemma signal_frame c k k' : signal c k = Ok (tt, k') -> konts k' = konts k /\ current k' = current k.
Proof.
  intros E. destruct (condvars k !! c) as [q|] eqn:Hc; [|unfold signal, object in E; by rewrite Hc in E].
  rewrite (signal_run c q k Hc) in E. destruct q; by injection E as <-.
Qed.

Lemma wait_frame t c m k b k' :
  current k = Some t -> wait c m k = Ok (b, k') -> b = false /\ frame t b k k' (fun kc => kc = KWait m).
Proof.
  intros Ht E. pose proof E as E0. unfold wait in E0. apply st_bind_Ok in E0 as ([] & k1 & Hu & E1).
  destruct (unlock_frame m k k1 Hu) as [Hk1 Hc1]. rewrite Ht in Hc1. apply st_bind_Ok in E1 as (q & k2 & Hq & _).
  unfold reads, object in Hq. destruct (condvars k1 !! c) as [q'|] eqn:Eq; [|done].
  rewrite (wait_run t c m q' k k1 Hu Hc1 Eq) in E. injection E as <- <-. split; [done|]. split.
  - intros t' Hne. cbn. by rewrite lookup_insert_ne, Hk1.
  - split; [done|]. exists (KWait m). cbn. by rewrite lookup_insert_eq.
Qed.

Lemma create_frame (p : ST kernel (option Z)) k o k' :
  (exists b, p = sys_mutex_create b) \/ (exists n, p = sys_semaphore_create n) \/ p = sys_condvar_create ->
  p k = Ok (o, k') -> konts k' = konts k /\ current k' = current k.
Proof.
  intros Hp E. destruct Hp as [[b ->]|[[n ->]| ->]]; unfold sys_mutex_create, sys_semaphore_create, sys_condvar_create in E;
    apply st_bind_Ok in E as (q & k1 & Hq & E); apply current_process_state in Hq as ->;
    cbn in E; unfold mbind, st_bind, gets, modify, tables_of in E; cbn in E; destruct (alloc_slot _ _); by injection E as _ <-.
Qed.

Lemma do_call_frame t c k b k' : current k = Some t -> do_call c k = Ok (b, k') -> frame t b k k' (suspends c).
Proof.
  assert (Hid : forall k k', current k = Some t -> konts k' = konts k /\ current k' = current k -> frame t true k k' (suspends c)).
  { intros k0 k1 H0 [Hk Hc]. split; [by rewrite Hk|by rewrite Hc]. }
  intros Ht E. destruct c; cbn [do_call] in E.
  - by apply lock_frame.
  - apply st_bind_Ok in E as ([] & k1 & Hu & E). injection E as <- <-. apply Hid; [done|by eapply unlock_frame].
  - apply st_bind_Ok in E as ([] & k1 & Hu & E). injection E as <- <-. apply Hid; [done|by eapply up_frame].
  - by apply down_frame.
  - apply st_bind_Ok in E as ([] & k1 & Hu & E). injection E as <- <-. apply Hid; [done|by eapply signal_frame].
  - destruct (wait_frame t c m k b k' Ht E) as [-> [Hf (Hc & kc & Hk & ->)]]. split; [done|]. split; [done|]. exists (KWait m). split; [done|by left].
  - rewrite (st_bind_run _ _ _ _ _ (sleep_run t get_time ms k Ht)) in E. injection E as <- <-. split.
    + intros t' Hne. cbn. by rewrite lookup_insert_ne.
    + split; [done|]. exists KSleep. cbn. by rewrite lookup_insert_eq.
  - rewrite (st_bind_run _ _ _ _ _ (yield_run t k Ht)) in E. injection E as <- <-. split.
    + intros t' Hne. cbn. by rewrite lookup_insert_ne.
    + split; [done|]. exists KYield. cbn. by rewrite lookup_insert_eq.
  - apply st_bind_Ok in E as (o & k1 & Hu & E). injection E as <- <-. apply Hid; [done|]. eapply create_frame; [|exact Hu]. eauto.
  - apply st_bind_Ok in E as (o & k1 & Hu & E). injection E as <- <-. apply Hid; [done|]. eapply create_frame; [|exact Hu]. eauto.
  - apply st_bind_Ok in E as (o & k1 & Hu & E). injection E as <- <-. apply Hid; [done|]. eapply create_frame; [|exact Hu]. eauto.
Qed.

Lemma resume_frame t kc k b k' : current k = Some t -> resume kc k = Ok (b, k') ->
  frame t b k k' (fun kc' => exists m, (kc = KSpin m \/ kc = KWait m) /\ (kc' = KSpin m \/ kc' = KLocked m)).
Proof.
  intros Ht E. destruct kc; cbn [resume] in E; try (injection E as <- <-; by split).
  all: destruct (lock_frame t m k b k' Ht E) as [Hf Hb]; (split; [done|]); destruct b; [done|]; destruct Hb as (Hc & kc & Hk & Hq).
  all: split; [done|]; exists kc; split; [done|]; exists m; auto.
Qed.

(** ** The program and the rest of the system *)

(** The log has changed only where other processes are concerned. *)
Definition quiet (log log' : list event) : Prop :=
  (forall s, our_sem s -> units s log' = units s log /\ taken s log' = taken s log) /\
  (forall m, our_mutex m -> holders m log' = holders m log).

(** The queue of a condition variable, and what a call of task [t] does to it. *)
Definition cond_queue (k : kernel) (v : nat) : list nat := default [] (condvars k !! v).

Definition cond_after (t : nat) (c : call) (v : nat) (q : list nat) : list nat :=
  match c with
  | CSignal v' => if decide (v' = v) then tail q else q
  | CWait v' _ => if decide (v' = v) then q ++ [t] else q
  | _ => q
  end.

(** Other processes leave our condition variables alone, and our threads where they are. *)
Definition calm (T : gmap nat thread) (k k' : kernel) : Prop :=
  (forall v, our_cond v -> cond_queue k' v = cond_queue k v) /\
  (forall v t, is_Some (T !! t) -> t ∈ cond_queue k' v -> t ∈ cond_queue k v).

(** What a step is for the program. *)
Inductive effect : uworld -> uworld -> Prop :=
| e_compute w t p m' p' :
    threads w !! t = Some (mkThread p Runs) -> code p (memory w) = Compute m' p' ->
    effect w (mkU (kw w) (<[t := mkThread p' Runs]> (threads w)) m')
| e_call w t p c p' k' (b : bool) :
    threads w !! t = Some (mkThread p Runs) -> code p (memory w) = Call c p' -> (b = false -> exists kc, suspends c kc) ->
    (forall v m, c = CWait v m -> b = false) -> (forall v, cond_queue k' v = cond_after t c v (cond_queue (fst (kw w)) v)) ->
    effect w (mkU (k', (if b then after_call t c else []) ++ before_call t c (fst (kw w)) ++ snd (kw w))
                (<[t := if b then mkThread p' Runs else mkThread p (Waits c p')]> (threads w)) (memory w))
| e_return w t p c p' k' :
    threads w !! t = Some (mkThread p (Waits c p')) ->
    (forall v, cond_queue k' v = cond_queue (fst (kw w)) v /\ t ∉ cond_queue (fst (kw w)) v) ->
    effect w (mkU (k', returned t c ++ Dispatched t :: snd (kw w)) (<[t := mkThread p' Runs]> (threads w)) (memory w))
| e_exit w t p k' :
    threads w !! t = Some (mkThread p Runs) -> code p (memory w) = Exit -> condvars k' = condvars (fst (kw w)) ->
    effect w (mkU (k', snd (kw w)) (<[t := mkThread p Ended]> (threads w)) (memory w))
| e_create w t p k' m' :
    threads w !! t = None -> born (memory w) = Some (p, m') ->
    (forall v, cond_queue k' v = cond_queue (fst (kw w)) v /\ t ∉ cond_queue (fst (kw w)) v) ->
    effect w (mkU (k', snd (kw w)) (<[t := mkThread p Runs]> (threads w)) m')
| e_other w k' log' :
    quiet (snd (kw w)) log' -> calm (threads w) (fst (kw w)) k' -> effect w (mkU (k', log') (threads w) (memory w)).

Lemma quiet_refl log : quiet log log.
Proof. by split. Qed.

Lemma quiet_dispatched t log : quiet log (Dispatched t :: log).
Proof. by split. Qed.

Lemma calm_refl T k k' : condvars k' = condvars k -> calm T k k'.
Proof. intros E. unfold calm, cond_queue. by rewrite E. Qed.

(** *** Condition variables *)

Lemma cond_queue_insert k k' v q v' :
  is_Some (condvars k !! v) -> condvars k' = <[v := q]> (condvars k) -> cond_queue k' v' = if decide (v = v') then q else cond_queue k v'.
Proof.
  intros Hv E. unfold cond_queue. rewrite E. case_decide as Hd; [subst v'|].
  - rewrite list_lookup_insert_eq; [done|]. by apply lookup_lt_is_Some.
  - by rewrite list_lookup_insert_ne.
Qed.

(** A task in the queue of a condition variable is nowhere else. *)
Lemma cond_queue_blocked k v t : t ∈ cond_queue k v -> (t, TCond v) ∈ blocked k.
Proof.
  unfold cond_queue. destruct (condvars k !! v) as [q|] eqn:E; cbn; [|by intros ?%elem_of_nil]. intros Ht. unfold blocked. rewrite !elem_of_app.
  right. right. left. by eapply queues_elem.
Qed.

Lemma cond_queue_only k v t : core k -> t ∈ cond_queue k v -> t ∈ places k /\ current k <> Some t /\ t ∉ ready_queue k.
Proof.
  intros Hc Ht. apply cond_queue_blocked in Ht. assert (Hb : t ∈ (blocked k).*1) by (apply list_elem_of_fmap; by exists (t, TCond v)).
  pose proof (core_nodup _ Hc) as Hnd. unfold places in *. apply NoDup_app in Hnd as (_ & Hd1 & Hnd). apply NoDup_app in Hnd as (_ & Hd2 & _). split_and!.
  - rewrite !elem_of_app. auto.
  - intros E. apply (Hd1 t); [rewrite E; by left|]. apply elem_of_app. by right.
  - intros Hr. by apply (Hd2 t Hr).
Qed.

Lemma cond_queue_nodup k v : core k -> NoDup (cond_queue k v).
Proof.
  intros Hc. unfold cond_queue. destruct (condvars k !! v) as [q|] eqn:E; cbn; [|constructor].
  pose proof (core_nodup _ Hc) as Hnd. unfold places, blocked in Hnd. rewrite !fmap_app in Hnd.
  apply NoDup_app in Hnd as (_ & _ & Hnd). apply NoDup_app in Hnd as (_ & _ & Hnd). apply NoDup_app in Hnd as (_ & _ & Hnd).
  apply NoDup_app in Hnd as (_ & _ & Hnd). apply NoDup_app in Hnd as (Hnd & _ & _).
  destruct (queues_insert TCond 0 (condvars k) v q q E) as (rest & Hq & _). rewrite Hq, fmap_app, <- list_fmap_compose in Hnd.
  apply NoDup_app in Hnd as (Hnd & _ & _). by rewrite list_fmap_id in Hnd.
Qed.

Lemma lock_condvars m k b k' t : current k = Some t -> lock m k = Ok (b, k') -> condvars k' = condvars k.
Proof.
  intros Ht E. destruct (mutexes k !! m) as [x|] eqn:Hm; [|unfold lock, object in E; by rewrite Hm in E].
  rewrite (lock_run t m x k Ht Hm) in E. destruct x as [[]|[] q]; by injection E as <- <-.
Qed.

Lemma unlock_condvars m k k' : unlock m k = Ok (tt, k') -> condvars k' = condvars k.
Proof.
  intros E. destruct (mutexes k !! m) as [x|] eqn:Hm; [|unfold unlock, object in E; by rewrite Hm in E].
  rewrite (unlock_run m x k Hm) in E. destruct x as [[]|[] [|w q]]; by injection E as <- || done.
Qed.

Lemma cond_queue_same k k' v : condvars k' = condvars k -> cond_queue k' v = cond_queue k v.
Proof. unfold cond_queue. by intros ->. Qed.

Lemma do_call_conds t c k b k' v :
  current k = Some t -> do_call c k = Ok (b, k') -> cond_queue k' v = cond_after t c v (cond_queue k v).
Proof.
  intros Ht E. destruct c; cbn [do_call cond_after] in *.
  - by eapply cond_queue_same, lock_condvars.
  - apply st_bind_Ok in E as ([] & k1 & Hu & E). injection E as _ <-. by eapply cond_queue_same, unlock_condvars.
  - apply st_bind_Ok in E as ([] & k1 & Hu & E). injection E as _ <-. apply cond_queue_same.
    destruct (semaphores k !! s) as [x|] eqn:Hs; [|unfold up, object in Hu; by rewrite Hs in Hu].
    rewrite (up_run s x k Hs) in Hu. injection Hu as <-. cbv zeta. repeat case_match; done.
  - apply cond_queue_same. destruct (semaphores k !! s) as [x|] eqn:Hs; [|unfold down, object in E; by rewrite Hs in E].
    rewrite (down_run t s x k Ht Hs) in E. cbv zeta in E. case_match; by injection E as _ <-.
  - apply st_bind_Ok in E as ([] & k1 & Hu & E). injection E as _ <-.
    destruct (condvars k !! c) as [q|] eqn:Hc; [|unfold signal, object in Hu; by rewrite Hc in Hu]. rewrite (signal_run c q k Hc) in Hu. injection Hu as <-.
    destruct q as [|x q].
    + case_decide; [subst|done]. unfold cond_queue. by rewrite Hc.
    + rewrite (cond_queue_insert k _ c q v); [|by rewrite Hc|done]. case_decide; [subst|done]. unfold cond_queue. by rewrite Hc.
  - pose proof E as E0. unfold wait in E0. apply st_bind_Ok in E0 as ([] & k1 & Hu & E1). destruct (unlock_frame m k k1 Hu) as [Hk1 Hc1].
    rewrite Ht in Hc1. apply st_bind_Ok in E1 as (q & k2 & Hq & _). unfold reads, object in Hq. destruct (condvars k1 !! c) as [q'|] eqn:Eq; [|done].
    rewrite (wait_run t c m q' k k1 Hu Hc1 Eq) in E. injection E as _ <-. rewrite <- (cond_queue_same k k1 v (unlock_condvars m k k1 Hu)).
    rewrite (cond_queue_insert k1 _ c (q' ++ [t]) v); [|by rewrite Eq|done]. case_decide; [subst|done]. unfold cond_queue. by rewrite Eq.
  - rewrite (st_bind_run _ _ _ _ _ (sleep_run t get_time ms k Ht)) in E. by injection E as _ <-.
  - rewrite (st_bind_run _ _ _ _ _ (yield_run t k Ht)) in E. by injection E as _ <-.
  - apply st_bind_Ok in E as (o & k1 & Hu & E). injection E as _ <-. unfold sys_mutex_create in Hu.
    apply st_bind_Ok in Hu as (q & k2 & Hq & Hu). apply current_process_state in Hq as ->. unfold mbind, st_bind, gets, modify, tables_of in Hu.
    cbn in Hu. destruct (alloc_slot _ _). by injection Hu as _ <-.
  - apply st_bind_Ok in E as (o & k1 & Hu & E). injection E as _ <-. unfold sys_semaphore_create in Hu.
    apply st_bind_Ok in Hu as (q & k2 & Hq & Hu). apply current_process_state in Hq as ->. unfold mbind, st_bind, gets, modify, tables_of in Hu.
    cbn in Hu. destruct (alloc_slot _ _). by injection Hu as _ <-.
  - apply st_bind_Ok in E as (o & k1 & Hu & E). injection E as _ <-. unfold sys_condvar_create in Hu.
    apply st_bind_Ok in Hu as (q & k2 & Hq & Hu). apply current_process_state in Hq as ->. unfold mbind, st_bind, gets, modify, tables_of in Hu.
    cbn in Hu. destruct (alloc_slot _ _). injection Hu as _ <-. unfold cond_queue. cbn.
    destruct (decide (v < length (condvars k))%nat) as [Hl|Hl]; [by rewrite lookup_app_l|].
    rewrite lookup_app_r by lia. rewrite (lookup_ge_None_2 (condvars k)) by lia. by destruct (v - length (condvars k))%nat.
Qed.

Lemma resume_condvars t kc k b k' : current k = Some t -> resume kc k = Ok (b, k') -> condvars k' = condvars k.
Proof. intros Ht E. destruct kc; cbn [resume] in E; try (by injection E as _ <-); by eapply lock_condvars. Qed.

(** Calls of other processes do not concern our objects. *)
Lemma foreign_calm T t c k b k' : foreign c -> T !! t = None -> current k = Some t -> do_call c k = Ok (b, k') -> calm T k k'.
Proof.
  intros Hf Hn Ht E. split.
  - intros v Hv. rewrite (do_call_conds t c k b k' v Ht E). destruct c; cbn in *; try done; rewrite decide_False; try done; intros ->; tauto.
  - intros v t' Ht' Hin. rewrite (do_call_conds t c k b k' v Ht E) in Hin. destruct c; cbn in Hin; try done; case_decide; try done.
    + by destruct (cond_queue k v); [|right].
    + apply elem_of_app in Hin as [|Hin%list_elem_of_singleton]; [done|]. subst t'. rewrite Hn in Ht'. by destruct Ht'.
Qed.

Lemma foreign_quiet t c k log (b : bool) :
  foreign c -> (forall s, our_sem s -> is_Some (semaphores k !! s)) ->
  quiet log ((if b then after_call t c else []) ++ before_call t c k ++ log).
Proof.
  intros Hf Hs. destruct c; cbn in Hf |- *; destruct b; cbn; try done; (split; [intros s' Hs'|intros m' Hm']); cbn;
    try (rewrite decide_False by (intros ->; naive_solver); done); try done.
  all: rewrite decide_False; [done|]; intros <-; destruct (Hs _ Hs') as [x Hx]; apply lookup_lt_Some in Hx; lia.
Qed.

Lemma foreign_resume t kc log (b : bool) : foreign_kont kc -> quiet log ((if b then after_resume t kc else []) ++ Dispatched t :: log).
Proof.
  intros Hf. destruct kc; cbn in Hf |- *; destruct b; cbn; try apply quiet_dispatched; (split; [intros s' Hs'|intros m' Hm']); cbn; try done;
    rewrite decide_False by (intros ->; done); done.
Qed.

(** Objects stay. *)
Lemma insert_exists {A} (l : list A) i j x : is_Some (l !! j) -> is_Some (<[i := x]> l !! j).
Proof. rewrite !lookup_lt_is_Some, length_insert. done. Qed.

Definition grows (k k' : kernel) : Prop :=
  (length (mutexes k) <= length (mutexes k'))%nat /\ (length (semaphores k) <= length (semaphores k'))%nat.

Lemma lock_grows t m k b k' : current k = Some t -> lock m k = Ok (b, k') -> grows k k'.
Proof.
  intros Ht E. destruct (mutexes k !! m) as [x|] eqn:Hm; [|unfold lock, object in E; by rewrite Hm in E].
  rewrite (lock_run t m x k Ht Hm) in E. unfold grows. destruct x as [[]|[] q]; injection E as <- <-; cbn; rewrite ?length_insert; lia.
Qed.

Lemma unlock_grows m k k' : unlock m k = Ok (tt, k') -> grows k k'.
Proof.
  intros E. destruct (mutexes k !! m) as [x|] eqn:Hm; [|unfold unlock, object in E; by rewrite Hm in E].
  rewrite (unlock_run m x k Hm) in E. unfold grows.
  destruct x as [[]|[] [|w q]]; try done; injection E as <-; cbn; rewrite ?length_insert; lia.
Qed.

Lemma do_call_grows t c k b k' : current k = Some t -> do_call c k = Ok (b, k') -> grows k k'.
Proof.
  intros Ht E. destruct c; cbn [do_call] in E.
  - by eapply lock_grows.
  - apply st_bind_Ok in E as ([] & k1 & Hu & E). injection E as <- <-. by eapply unlock_grows.
  - apply st_bind_Ok in E as ([] & k1 & Hu & E). injection E as <- <-.
    destruct (semaphores k !! s) as [x|] eqn:Hs; [|unfold up, object in Hu; by rewrite Hs in Hu].
    rewrite (up_run s x k Hs) in Hu. injection Hu as <-. cbv zeta. unfold grows. repeat case_match; cbn; rewrite ?length_insert; lia.
  - destruct (semaphores k !! s) as [x|] eqn:Hs; [|unfold down, object in E; by rewrite Hs in E].
    rewrite (down_run t s x k Ht Hs) in E. cbv zeta in E. unfold grows. case_match; injection E as <- <-; cbn; rewrite ?length_insert; lia.
  - apply st_bind_Ok in E as ([] & k1 & Hu & E). injection E as <- <-.
    destruct (condvars k !! c) as [q|] eqn:Hc; [|unfold signal, object in Hu; by rewrite Hc in Hu].
    rewrite (signal_run c q k Hc) in Hu. unfold grows. destruct q; injection Hu as <-; cbn; lia.
  - pose proof E as E0. unfold wait in E0. apply st_bind_Ok in E0 as ([] & k1 & Hu & E1). destruct (unlock_frame m k k1 Hu) as [Hk1 Hc1].
    rewrite Ht in Hc1. apply st_bind_Ok in E1 as (q & k2 & Hq & _). unfold reads, object in Hq. destruct (condvars k1 !! c) as [q'|] eqn:Eq; [|done].
    rewrite (wait_run t c m q' k k1 Hu Hc1 Eq) in E. injection E as <- <-. exact (unlock_grows m k k1 Hu).
  - rewrite (st_bind_run _ _ _ _ _ (sleep_run t get_time ms k Ht)) in E. injection E as <- <-. unfold grows. cbn. lia.
  - rewrite (st_bind_run _ _ _ _ _ (yield_run t k Ht)) in E. injection E as <- <-. unfold grows. cbn. lia.
  - apply st_bind_Ok in E as (o & k1 & Hu & E). injection E as <- <-. unfold sys_mutex_create in Hu.
    apply st_bind_Ok in Hu as (q & k2 & Hq & Hu). apply current_process_state in Hq as ->. unfold mbind, st_bind, gets, modify, tables_of in Hu.
    cbn in Hu. destruct (alloc_slot _ _). injection Hu as _ <-. unfold grows. cbn. rewrite length_app. lia.
  - apply st_bind_Ok in E as (o & k1 & Hu & E). injection E as <- <-. unfold sys_semaphore_create in Hu.
    apply st_bind_Ok in Hu as (q & k2 & Hq & Hu). apply current_process_state in Hq as ->. unfold mbind, st_bind, gets, modify, tables_of in Hu.
    cbn in Hu. destruct (alloc_slot _ _). injection Hu as _ <-. unfold grows. cbn. rewrite length_app. lia.
  - apply st_bind_Ok in E as (o & k1 & Hu & E). injection E as <- <-. unfold sys_condvar_create in Hu.
    apply st_bind_Ok in Hu as (q & k2 & Hq & Hu). apply current_process_state in Hq as ->. unfold mbind, st_bind, gets, modify, tables_of in Hu.
    cbn in Hu. destruct (alloc_slot _ _). injection Hu as _ <-. unfold grows. cbn. lia.
Qed.

Lemma resume_grows t kc k b k' : current k = Some t -> resume kc k = Ok (b, k') -> grows k k'.
Proof.
  intros Ht E. destruct kc; cbn [resume] in E; try (injection E as <- <-; unfold grows; lia); by eapply lock_grows.
Qed.

(** The other threads of the program, and the tasks of other processes, are where they
    were. *)
Record moved (t : nat) (b : bool) (k k' : kernel) : Prop := {
  mv_before : current k = Some t \/ current k = None;
  mv_after : current k' = if b then Some t else None;
  mv_konts t' : t' <> t -> konts k' !! t' = konts k !! t';
  mv_grows : grows k k';
  mv_places t' : t' <> t -> t' ∈ places k' <-> t' ∈ places k;
}.

Lemma current_place k t : current k = Some t -> t ∈ places k.
Proof. intros Ht. unfold places. rewrite Ht. by left. Qed.

Lemma track_other t t' th (b : bool) k k' : moved t b k k' -> t' <> t -> tracks k t' th -> tracks k' t' th.
Proof.
  intros [Hb Ha Hk _ Hpl] Hne. unfold tracks. destruct (doing th); rewrite ?(Hk t' Hne), (Hpl t' Hne).
  - intros [Hin [Hc|Hr]]; (split; [done|]); [|by right]. destruct Hb; congruence.
  - intros (Hin & _ & Hw). split_and!; [done| |done]. rewrite Ha. destruct b; congruence.
  - done.
Qed.

Lemma grows_exists k k' : grows k k' ->
  (forall m, is_Some (mutexes k !! m) -> is_Some (mutexes k' !! m)) /\ (forall s, is_Some (semaphores k !! s) -> is_Some (semaphores k' !! s)).
Proof. intros [H1 H2]. split; intros i; rewrite !lookup_lt_is_Some; lia. Qed.

(** A step of the kernel made for task [t]. *)
Lemma good_step w k' log' T' m' t (b : bool) :
  good w -> inv (k', log') -> moved t b (fst (kw w)) k' ->
  (forall t', t' <> t -> T' !! t' = threads w !! t') ->
  (forall th, T' !! t = Some th -> tracks k' t th) ->
  (T' !! t = None -> b = false -> t ∈ places k' -> forall kc, konts k' !! t = Some kc -> foreign_kont kc) ->
  good (mkU (k', log') T' m').
Proof.
  intros [Hi Htr Hot Hs] Hi' Hmv HT Hme Hmo. destruct (grows_exists _ _ (mv_grows _ _ _ _ Hmv)) as [_ Gs].
  split; cbn [kw threads fst]; [done| | |intros s Hs'; apply Gs; auto].
  - intros t' th Hth. destruct (decide (t' = t)) as [->|Hne]; [by apply Hme|]. rewrite HT in Hth by done.
    eapply track_other; [exact Hmv|done|by apply Htr].
  - intros t' kc Hn Hp Hk. destruct (decide (t' = t)) as [->|Hne].
    + destruct b; [left; by rewrite (mv_after _ _ _ _ Hmv)|right; by eapply Hmo].
    + right. rewrite HT in Hn by done. rewrite (mv_konts _ _ _ _ Hmv) in Hk by done.
      destruct (Hot t' kc Hn (proj1 (mv_places _ _ _ _ Hmv t' Hne) Hp) Hk) as [Hc|]; [|done]. destruct (mv_before _ _ _ _ Hmv); congruence.
Qed.

Lemma frame_moved t (b : bool) k k' Q : current k = Some t -> frame t b k k' Q -> grows k k' -> places k' ≡ₚ places k -> moved t b k k'.
Proof.
  intros Ht [Hk Hb] Hg Hp. split; [by left| |done|done|by intros t' _; rewrite Hp]. destruct b; [done|apply Hb].
Qed.

(** A task that is waiting or has ended is not the current one. *)
Lemma current_runs w t th : good w -> current (fst (kw w)) = Some t -> threads w !! t = Some th -> doing th = Runs.
Proof.
  intros Hg Ht Hth. pose proof (go_track _ Hg t th Hth) as Htr. unfold tracks in Htr. destruct (doing th); [done|by destruct Htr as (_ & ? & _)|].
  destruct Htr. unfold places. rewrite Ht. by left.
Qed.

Lemma check_timer_konts fuel now k u k' : check_timer_loop fuel now k = Ok (u, k') -> konts k' = konts k.
Proof.
  revert k. induction fuel as [|fuel IH]; intros k E; cbn [check_timer_loop] in E; destruct (peek (timers k)) as [y|]; try (by injection E as _ <-).
  - case_match; [done|]. by injection E as _ <-.
  - case_match; [|by injection E as _ <-]. rewrite (st_bind_run _ _ _ _ _ (wakeup_run _ k)) in E. unfold modify in E.
    apply st_bind_Ok in E as ([] & k1 & E1 & E). injection E1 as <-. rewrite (IH _ E). by case_match; [case_match|].
Qed.

(** The calls of the program are within the discipline of [Sched]. *)
Definition disciplined (w : uworld) : Prop :=
  forall t p c p', current (fst (kw w)) = Some t -> threads w !! t = Some (mkThread p Runs) -> code p (memory w) = Call c p' ->
    allowed t c (snd (kw w)).

Lemma compute_good k log T m t p m' p' :
  good (mkU (k, log) T m) -> current k = Some t -> T !! t = Some (mkThread p Runs) ->
  good (mkU (k, log) (<[t := mkThread p' Runs]> T) m').
Proof.
  intros Hg Ht Hth. apply (good_step (mkU (k, log) T m) k log _ m' t true); [done|apply Hg| |..].
  - split; cbn; [by left|done|done|unfold grows; lia|done].
  - intros t' Hne. by rewrite lookup_insert_ne.
  - intros th. rewrite lookup_insert_eq. intros [= <-]. split; [by apply current_place|by left].
  - by rewrite lookup_insert_eq.
Qed.

Lemma call_good k log T m t p c p' (b : bool) k' :
  good (mkU (k, log) T m) -> current k = Some t -> T !! t = Some (mkThread p Runs) -> allowed t c log -> do_call c k = Ok (b, k') ->
  good (mkU (k', (if b then after_call t c else []) ++ before_call t c k ++ log)
          (<[t := if b then mkThread p' Runs else mkThread p (Waits c p')]> T) m).
Proof.
  intros Hg Ht Hth Ha E. destruct (do_call_inv k log t c b k' (go_inv _ Hg) Ht Ha E) as [Hi Hp].
  pose proof (do_call_frame t c k b k' Ht E) as Hf.
  apply (good_step (mkU (k, log) T m) k' _ _ m t b); [done|done| |..].
  - by eapply frame_moved; [|exact Hf|eapply do_call_grows|].
  - intros t' Hne. by rewrite lookup_insert_ne.
  - intros th. rewrite lookup_insert_eq. intros [= <-]. destruct b; unfold tracks; cbn [doing]; destruct Hf as [_ Hf]; [split; [by apply current_place|by left]|].
    destruct Hf as (Hc & kc & Hk & Hq). split_and!; [cbn [fst] in Hp; rewrite Hp; by apply current_place|by rewrite Hc|eauto].
  - by rewrite lookup_insert_eq.
Qed.

(** The current task leaves. *)
Lemma exit_good k log T T' m t :
  good (mkU (k, log) T m) -> current k = Some t -> (forall t', t' <> t -> T' !! t' = T !! t') ->
  (forall th, T' !! t = Some th -> doing th = Ended) -> good (mkU (set_current None k, log) T' m).
Proof.
  intros Hg Ht HT Hme. destruct (exit_inv k log t (go_inv _ Hg) Ht) as [Hi Hp].
  assert (Hout : t ∉ places (set_current None k)).
  { pose proof (core_nodup _ (inv_core _ (go_inv _ Hg))) as Hnd. cbn [kw fst] in Hnd. rewrite Hp in Hnd. by apply NoDup_cons in Hnd as [Hn _]. }
  apply (good_step (mkU (k, log) T m) (set_current None k) log T' m t false); [done|done| |done| |].
  - split; cbn [kw fst]; [by left|done|done|unfold grows; cbn; lia|]. intros t' Hne. rewrite Hp, elem_of_cons. naive_solver.
  - intros th Hth. unfold tracks. by rewrite (Hme th Hth).
  - intros _ _ Hin. done.
Qed.

(** Another process exits. *)
Lemma ended_good k log T m t p :
  good (mkU (k, log) T m) -> current k = Some t -> T !! t = None -> (forall t', process_of k !! t' = Some p -> T !! t' = None) ->
  good (mkU (ended p k, perish p k ++ log) T m).
Proof.
  intros Hg Ht Hn Hown. pose proof (ended_leaves k log t p (go_inv _ Hg) Ht) as Hout. split; cbn [kw threads fst].
  - eapply ended_inv; [apply (go_inv _ Hg)|done].
  - intros t' th Hth. assert (Hne : t' <> t) by congruence. assert (Hnp : process_of k !! t' <> Some p) by (intros Hp; by rewrite (Hown t' Hp) in Hth).
    pose proof (go_track _ Hg t' th Hth) as Htr. unfold tracks in *. cbn [kw fst] in Htr. destruct (doing th).
    + destruct Htr as [Hin Hk]. split; [by apply (ended_survives k t)|]. right. destruct Hk as [Hc|Hk]; [congruence|exact Hk].
    + destruct Htr as (Hin & _ & Hk). split_and!; [by apply (ended_survives k t)|done|exact Hk].
    + intros Hin. by apply Htr, (ended_elem k t p).
  - intros t' kc HT Hin Hkc. right. destruct (go_other _ Hg t' kc HT (ended_elem k t p t' Ht Hin) Hkc) as [Hc|]; [|done]. cbn [kw fst] in Hc. congruence.
  - apply (go_sem _ Hg).
Qed.

Lemma perish_quiet k log T m t p :
  good (mkU (k, log) T m) -> current k = Some t -> (forall t', process_of k !! t' = Some p -> T !! t' = None) -> quiet log (perish p k ++ log).
Proof.
  intros Hg Ht Hown. assert (Hf : forall t', t' ∈ filter (fun t => process_of k !! t = Some p) (ready_queue k) -> foreign_kont (default KStart (konts k !! t'))).
  { intros t' [Hp Hin]%list_elem_of_filter. destruct (konts k !! t') as [kc|] eqn:Hk; [|done]. cbn.
    pose proof (core_nodup _ (inv_core _ (go_inv _ Hg))) as Hnd. unfold places in Hnd. cbn [kw fst] in Hnd. rewrite Ht in Hnd. cbn in Hnd. apply NoDup_cons in Hnd as [Hnd _].
    destruct (go_other _ Hg t' kc (Hown t' Hp)) as [Hc|]; [unfold places; rewrite !elem_of_app; auto|done| |done].
    cbn [kw fst] in Hc. rewrite Ht in Hc. injection Hc as <-. destruct Hnd. apply elem_of_app. by left. }
  unfold perish. induction (filter _ (ready_queue k)) as [|t' l IH]; [apply quiet_refl|]. rewrite fmap_cons. cbn [app].
  destruct IH as [IHs IHm]; [intros t1 H1; apply Hf; by right|]. specialize (Hf t' ltac:(by left)). split.
  - intros s Hs. destruct (IHs s Hs) as [<- <-]. cbn. destruct (default KStart (konts k !! t')); try done. cbn in Hf. by rewrite decide_False by (by intros ->).
  - intros m0 Hm. rewrite <- (IHm m0 Hm). cbn. destruct (default KStart (konts k !! t')); try done. cbn in Hf. by rewrite decide_False by (by intros ->).
Qed.

Lemma dispatch_places k log t k1 c b k2 :
  inv (k, log) -> current k = None -> run_tasks_round k = Ok (Some t, k1) -> konts k1 !! t = Some c -> resume c k1 = Ok (b, k2) ->
  places k2 ≡ₚ places k.
Proof.
  intros Hi Hcur Hr Hk E. apply dispatch_run in Hr as (q & Hq & ->). cbn [konts set_current set_status set_ready] in Hk.
  destruct (granted_inv k log t q c Hi Hcur Hq Hk) as [Hi1 Hp1]. set (k1 := set_current (Some t) (set_status t Running (set_ready q k))) in *.
  destruct c; cbn [resume] in E; try (by injection E as _ <-).
  all: destruct (lock_inv k1 _ t m b k2 Hi1 eq_refl E) as [_ Hp2]; cbn [fst] in *; by rewrite Hp2.
Qed.

(** ** The objects that tasks wait for exist *)

Definition refers (k : kernel) (kc : kont) : Prop :=
  match kc with
  | KSpin m | KLocked m | KWait m => is_Some (mutexes k !! m)
  | KDown s => is_Some (semaphores k !! s)
  | _ => True
  end.

Definition known (k : kernel) : Prop :=
  forall t kc, t ∈ places k -> current k <> Some t -> konts k !! t = Some kc -> refers k kc.

Lemma refers_grows k k' kc : grows k k' -> refers k kc -> refers k' kc.
Proof. intros Hg. destruct (grows_exists k k' Hg) as [Hm Hs]. destruct kc; cbn; auto. Qed.

Lemma do_call_refers c (k : kernel) b k' kc : do_call c k = Ok (b, k') -> suspends c kc -> refers k kc.
Proof.
  intros E Hs. assert (Hlock : forall m b k', lock m k = Ok (b, k') -> is_Some (mutexes k !! m)).
  { intros m b' k1 El. unfold lock, object in El. by destruct (mutexes k !! m). }
  destruct c; cbn [do_call suspends] in E, Hs; try done.
  - destruct Hs as [-> | ->]; by eapply Hlock.
  - subst kc. cbn. unfold down, object in E. by destruct (semaphores k !! s).
  - unfold wait in E. apply st_bind_Ok in E as ([] & k1 & Hu & _). assert (Hm : is_Some (mutexes k !! m)); [|by destruct Hs as [-> |[-> | ->]]].
    unfold unlock, object in Hu. by destruct (mutexes k !! m).
  - by subst kc.
  - by subst kc.
Qed.

(** A step made for task [t]. *)
Lemma known_moved t (b : bool) k k' :
  known k -> moved t b k k' -> (b = false -> t ∈ places k' -> forall kc, konts k' !! t = Some kc -> refers k' kc) -> known k'.
Proof.
  intros Hk Hm Ht t' kc Hin Hcur Hkc. destruct (decide (t' = t)) as [->|Hne].
  - destruct b; [|by apply Ht]. by rewrite (mv_after _ _ _ _ Hm) in Hcur.
  - eapply refers_grows; [apply (mv_grows _ _ _ _ Hm)|]. rewrite (mv_konts _ _ _ _ Hm) in Hkc by done. apply (Hk t'); [by apply (mv_places _ _ _ _ Hm)| |done].
    destruct (mv_before _ _ _ _ Hm); congruence.
Qed.

Lemma known_step w w' : inv w -> known (fst w) -> step w w' -> known (fst w').
Proof.
  clear code born our_mutex our_sem our_cond P M. intros Hi Hk Hs. destruct Hs as [k log t c b k' Ht Ha E|k log t k1 c b k2 Hcur Hr Hc E|k log t now k' Ht E|k log t p Hn Hl|k log t p whole k' Ht Hp E]; cbn [fst] in *.
  - destruct (do_call_inv k log t c b k' Hi Ht Ha E) as [_ Hp]. pose proof (do_call_frame t c k b k' Ht E) as Hf. pose proof (do_call_grows t c k b k' Ht E) as Hg.
    eapply known_moved; [done|by eapply frame_moved|]. intros -> _ kc Hkc. destruct Hf as [_ (_ & kc' & Hk' & Hsu)]. rewrite Hk' in Hkc. injection Hkc as <-.
    eapply refers_grows; [exact Hg|]. by eapply do_call_refers.
  - pose proof (dispatch_places k log t k1 c b k2 Hi Hcur Hr Hc E) as Hp2. destruct (dispatch_run k t k1 Hr) as (q & Hq & Hk1).
    assert (Hc1 : current k1 = Some t) by (by subst k1). assert (Hks : konts k1 = konts k) by (by subst k1). rewrite Hks in Hc.
    pose proof (resume_frame t c k1 b k2 Hc1 E) as [Hf Hb]. pose proof (resume_grows t c k1 b k2 Hc1 E) as Hgr.
    assert (Hin : t ∈ places k) by (unfold places; rewrite Hq; apply elem_of_app; right; by left).
    assert (Hmv : moved t b k k2).
    { split; [by right|destruct b; [done|apply Hb]|intros t' Hne; by rewrite Hf, Hks|subst k1; exact Hgr|]. intros t' _. by rewrite Hp2. }
    eapply known_moved; [done|done|]. intros -> _ kc Hkc. destruct Hb as (_ & kc' & Hk2 & m & Hcm & Hkm). rewrite Hk2 in Hkc. injection Hkc as <-.
    eapply refers_grows; [apply (mv_grows _ _ _ _ Hmv)|]. pose proof (Hk t c Hin ltac:(congruence) Hc) as Hrf.
    destruct Hcm as [-> | ->], Hkm as [-> | ->]; exact Hrf.
  - pose proof E as E0. apply st_bind_Ok in E as ([] & k1 & E1 & E2).
    destruct (check_timer_loop_spec (length (timers k)) (get_time_ms now) k ltac:(lia)) as (due & k1' & E' & _ & _ & _ & _ & _ & Hcur & Hm & Hs & _ & Hcore).
    unfold check_timer in E1. rewrite E' in E1. injection E1 as <-. pose proof (check_timer_konts _ _ _ _ _ E') as Hk1.
    destruct (Hcore (inv_core _ Hi)) as (Hco & Hp & Hfr). rewrite Ht in Hcur. rewrite (suspend_run t KYield k1' Hcur) in E2. injection E2 as <-.
    assert (Hi1 : inv (k1', log)) by (eapply inv_frame; [exact Hi|done..]).
    destruct (suspend_inv k1' log t KYield _ Hi1 Hcur ltac:(tauto) (suspend_run t KYield k1' Hcur)) as [_ Hp2]. cbn [fst] in Hp2.
    eapply (known_moved t false); [exact Hk| |].
    + split; [by left|done| |unfold grows; cbn; rewrite Hm, Hs; lia|intros t' _; by rewrite Hp2, Hp]. intros t' Hne. cbn. by rewrite lookup_insert_ne, Hk1.
    + intros _ _ kc. cbn. rewrite lookup_insert_eq. by intros [= <-].
  - destruct (spawn_inv k log t p Hi Hn Hl) as [_ Hp]. intros t' kc Hin Hcur Hkc. cbn in Hkc, Hcur. destruct (decide (t' = t)) as [->|Hne].
    + rewrite lookup_insert_eq in Hkc. by injection Hkc as <-.
    + rewrite lookup_insert_ne in Hkc by done. cbn [fst] in Hp. rewrite Hp in Hin. apply elem_of_cons in Hin as [->|Hin]; [done|]. by apply (Hk t').
  - apply (exit_task_Ok t p) in E as ->; [|apply (inv_core _ Hi)|done|done]. destruct whole.
    + pose proof (ended_leaves k log t p Hi Ht) as Hout. intros t' kc Hin _ Hkc. apply (Hk t'); [by apply (ended_elem k t p)|congruence|done].
    + destruct (exit_inv k log t Hi Ht) as [_ Hpl]. intros t' kc Hin _ Hkc. apply (Hk t'); [rewrite Hpl; by right| |done].
      pose proof (core_nodup _ (inv_core _ Hi)) as Hnd. cbn [fst] in Hnd. rewrite Hpl in Hnd. apply NoDup_cons in Hnd as [Hnd _]. congruence.
Qed.

Lemma reachable_known w : reachable w -> inv w /\ known (fst w).
Proof.
  intros Hr. apply (rtc_ind_r (R := step) (fun w => inv w /\ known (fst w)) boot); [|intros w1 w2 _ Hs [Hi Hk]; split; [by eapply step_keeps|by eapply known_step]|done].
  split; [by apply reachable_inv, rtc_refl|]. intros t kc Hin. by apply elem_of_nil in Hin.
Qed.

(** What a continuation means for a thread of the program. *)
Lemma suspended_return t c kc : suspends c kc -> after_resume t kc = returned t c.
Proof. destruct c; cbn; try done; naive_solver. Qed.

Lemma suspends_again c kc kc' : suspends c kc -> (exists m, (kc = KSpin m \/ kc = KWait m) /\ (kc' = KSpin m \/ kc' = KLocked m)) -> suspends c kc'.
Proof. destruct c; cbn; try done; naive_solver. Qed.

Lemma dispatch_good k log T m t k1 c (b : bool) k2 :
  good (mkU (k, log) T m) -> current k = None -> run_tasks_round k = Ok (Some t, k1) -> konts k1 !! t = Some c -> resume c k1 = Ok (b, k2) ->
  let w' := mkU (k2, (if b then after_resume t c else []) ++ Dispatched t :: log) (if b then alter settle t T else T) m in
  good w' /\ effect (mkU (k, log) T m) w'.
Proof.
  intros Hg Hcur Hrun Hk E w'.
  destruct (step_keeps (k, log) _ (go_inv _ Hg) (step_dispatch k log t k1 c b k2 Hcur Hrun Hk E)) as [Hi _].
  pose proof (dispatch_places k log t k1 c b k2 (go_inv _ Hg) Hcur Hrun Hk E) as Hp2.
  destruct (dispatch_run k t k1 Hrun) as (q & Hq & Hk1).
  assert (Hc1 : current k1 = Some t) by (by subst k1). assert (Hks : konts k1 = konts k) by (by subst k1). rewrite Hks in Hk.
  pose proof (resume_frame t c k1 b k2 Hc1 E) as [Hf Hb]. pose proof (resume_grows t c k1 b k2 Hc1 E) as Hgr.
  assert (Hin : t ∈ places k) by (unfold places; rewrite Hq; apply elem_of_app; right; by left).
  assert (Hmv : moved t b k k2).
  { split; [by right|destruct b; [done|apply Hb]|intros t' Hne; by rewrite Hf, Hks|subst k1; exact Hgr|]. intros t' _. by rewrite Hp2. }
  assert (HT' : forall t', t' <> t -> (if b then alter settle t T else T) !! t' = T !! t').
  { intros t' Hne. destruct b; [|done]. by rewrite lookup_alter_ne. }
  assert (Hcv : condvars k2 = condvars k) by (rewrite (resume_condvars t c k1 b k2 Hc1 E); by subst k1).
  pose proof (go_track _ Hg t) as Htr. pose proof (go_other _ Hg t c) as Hot. cbn [threads kw fst] in Htr, Hot.
  assert (Hkind : (T !! t = None /\ foreign_kont c) \/ (exists p, T !! t = Some (mkThread p Runs) /\ b = true /\ after_resume t c = []) \/
    exists p c0 p', T !! t = Some (mkThread p (Waits c0 p')) /\ suspends c0 c).
  { destruct (T !! t) as [[p md]|] eqn:Et.
    - specialize (Htr _ eq_refl). unfold tracks in Htr. cbn [doing] in Htr. destruct md as [|c0 p'|].
      + right. left. exists p. destruct Htr as [_ [|[Hs|Hs]]]; [congruence|..]; rewrite Hk in Hs; injection Hs as ->; cbn in E; by injection E as <- <-.
      + right. right. destruct Htr as (_ & _ & kc & Hkc & Hs). rewrite Hk in Hkc. injection Hkc as <-. by exists p, c0, p'.
      + done.
    - left. split; [done|]. destruct (Hot eq_refl Hin Hk) as [|]; [congruence|done]. }
  split.
  - apply (good_step (mkU (k, log) T m) k2 _ _ m t b); [done|done|done|done|..].
    + intros th Hth. destruct Hkind as [[Hn _]|[(p & Ht & -> & _)|(p & c0 & p' & Ht & Hs)]].
      * destruct b; [rewrite lookup_alter_eq, Hn in Hth; done|congruence].
      * rewrite lookup_alter_eq, Ht in Hth. injection Hth as <-. split; [by apply current_place|by left].
      * destruct b.
        -- rewrite lookup_alter_eq, Ht in Hth. injection Hth as <-. split; [by apply current_place|by left].
        -- rewrite Ht in Hth. injection Hth as <-. unfold tracks. cbn [doing]. destruct Hb as (Hc2 & kc' & Hk2 & Hq2). split_and!; [by rewrite Hp2|by rewrite Hc2|].
           exists kc'. split; [done|]. by eapply suspends_again.
    + intros Hn -> _ kc Hkc. destruct Hkind as [[_ Hfk]|[(p & Ht & _)|(p & c0 & p' & Ht & _)]]; [|congruence|congruence].
      destruct Hb as (_ & kc' & Hk2 & m0 & Hc & Hkc'). rewrite Hk2 in Hkc. injection Hkc as <-.
      destruct Hc as [-> | ->], Hkc' as [-> | ->]; exact Hfk.
  - destruct Hkind as [[Hn Hfk]|[(p & Ht & -> & Har)|(p & c0 & p' & Ht & Hs)]].
    + assert (ET : (if b then alter settle t T else T) = T).
      { destruct b; [|done]. apply map_eq. intros i. destruct (decide (i = t)) as [->|]; [by rewrite lookup_alter_eq, Hn|by rewrite lookup_alter_ne]. }
      unfold w'. rewrite ET. apply (e_other (mkU (k, log) T m)); [cbn; by apply foreign_resume|by apply calm_refl].
    + unfold w'. rewrite Har. assert (ET : alter settle t T = T).
      { apply map_eq. intros i. destruct (decide (i = t)) as [->|]; [by rewrite lookup_alter_eq, Ht|by rewrite lookup_alter_ne]. }
      rewrite ET. apply (e_other (mkU (k, log) T m)); [apply quiet_dispatched|by apply calm_refl].
    + unfold w'. destruct b.
      * assert (ET : alter settle t T = <[t := mkThread p' Runs]> T).
        { apply map_eq. intros i. destruct (decide (i = t)) as [->|]; [by rewrite lookup_alter_eq, Ht, lookup_insert_eq|by rewrite lookup_alter_ne, lookup_insert_ne]. }
        rewrite ET, (suspended_return t c0 c Hs). apply (e_return (mkU (k, log) T m) t p c0 p' k2); [done|]. intros v.
        split; [by apply cond_queue_same|]. intros Hv. cbn [kw fst] in Hv. destruct (cond_queue_only k v t (inv_core _ (go_inv _ Hg)) Hv) as (_ & _ & Hnr).
        apply Hnr. rewrite Hq. by left.
      * apply (e_other (mkU (k, log) T m)); [apply quiet_dispatched|by apply calm_refl].
Qed.

Lemma tick_good k log T m t now k' :
  good (mkU (k, log) T m) -> current k = Some t -> (check_timer now;; suspend_current_and_run_next KYield) k = Ok (tt, k') ->
  good (mkU (k', log) T m).
Proof.
  intros Hg Ht E. destruct (step_keeps (k, log) (k', log) (go_inv _ Hg) (step_tick k log t now k' Ht E)) as [Hi _].
  apply st_bind_Ok in E as ([] & k1 & E1 & E2).
  destruct (check_timer_loop_spec (length (timers k)) (get_time_ms now) k ltac:(lia)) as (due & k1' & E' & _ & _ & _ & _ & _ & Hcur & Hm & Hs & _ & Hcore).
  unfold check_timer in E1. rewrite E' in E1. injection E1 as <-. pose proof (check_timer_konts _ _ _ _ _ E') as Hk1.
  destruct (Hcore (inv_core _ (go_inv _ Hg))) as (_ & Hp & _). rewrite Ht in Hcur. rewrite (suspend_run t KYield k1' Hcur) in E2. injection E2 as <-.
  assert (Hi1 : inv (k1', log)) by (destruct (Hcore (inv_core _ (go_inv _ Hg))) as (? & ? & ?); eapply inv_frame; [apply (go_inv _ Hg)|..]; done).
  destruct (suspend_inv k1' log t KYield _ Hi1 Hcur ltac:(tauto) (suspend_run t KYield k1' Hcur)) as [_ Hp2]. cbn [fst] in Hp2.
  apply (good_step (mkU (k, log) T m) _ log T m t false); [done|done| |done|..].
  - split; cbn [kw fst]; [by left|done| |unfold grows; cbn; rewrite Hm, Hs; lia|].
    + intros t' Hne. cbn. by rewrite lookup_insert_ne, Hk1.
    + intros t' _. by rewrite Hp2, Hp.
  - intros th Hth. unfold tracks. rewrite (current_runs (mkU (k, log) T m) t th Hg Ht Hth). split.
    + rewrite Hp2, Hp. by apply current_place.
    + right. right. cbn. by rewrite lookup_insert_eq.
  - intros _ _ _ kc. cbn. rewrite lookup_insert_eq. by intros [= <-].
Qed.

Lemma tick_condvars k t now k' :
  current k = Some t -> (check_timer now;; suspend_current_and_run_next KYield) k = Ok (tt, k') -> condvars k' = condvars k.
Proof.
  intros Ht E. apply st_bind_Ok in E as ([] & k1 & E1 & E2).
  destruct (check_timer_loop_spec (length (timers k)) (get_time_ms now) k ltac:(lia)) as (due & k1' & E' & _ & _ & _ & _ & _ & Hcur & _ & _ & Hc & _).
  unfold check_timer in E1. rewrite E' in E1. injection E1 as <-. rewrite Ht in Hcur. rewrite (suspend_run t KYield k1' Hcur) in E2. by injection E2 as <-.
Qed.

(** A new task, of the program or of another process. *)
Lemma spawn_good k log T T' m m' t q :
  good (mkU (k, log) T m) -> t ∉ places k -> T !! t = None -> Z.of_nat (length (places k)) + 1 < limit ->
  (forall t', t' <> t -> T' !! t' = T !! t') -> (forall th, T' !! t = Some th -> doing th = Runs) -> good (mkU (spawn t q k, log) T' m').
Proof.
  intros Hg Hn HT Hl Hoth Hme. destruct (spawn_inv k log t q (go_inv _ Hg) Hn Hl) as [Hi Hp].
  destruct Hg as [Hi0 Htr Hot Hs]. cbn [kw fst threads] in *. split; cbn [kw fst threads]; [done| | |done].
  - intros t' th Hth. destruct (decide (t' = t)) as [->|Hne].
    + unfold tracks. rewrite (Hme th Hth), Hp. split; [by left|]. right. left. cbn. by rewrite lookup_insert_eq.
    + rewrite Hoth in Hth by done. specialize (Htr t' th Hth). unfold tracks in *. destruct (doing th).
      * rewrite Hp. split; [right; apply Htr|]. cbn. rewrite lookup_insert_ne by done. apply Htr.
      * rewrite Hp. split; [right; apply Htr|]. cbn. rewrite lookup_insert_ne by done. apply Htr.
      * rewrite Hp. intros [->|]%elem_of_cons; done.
  - intros t' kc HT' Hin Hkc. cbn in Hkc. destruct (decide (t' = t)) as [->|Hne].
    + rewrite lookup_insert_eq in Hkc. injection Hkc as <-. by right.
    + rewrite Hoth in HT' by done. rewrite lookup_insert_ne in Hkc by done. apply (Hot t' kc HT'); [|done]. rewrite Hp in Hin.
      by apply elem_of_cons in Hin as [->|].
Qed.

(** Every step keeps the kernel and the threads in order, and is one of the effects. *)
Lemma ustep_effect w w' : good w -> disciplined w -> ustep w w' -> good w' /\ effect w w'.
Proof.
  intros Hg Hd Hs.
  destruct Hs as [k log T m t p m' p' Ht Hth Hc|k log T m t p c p' b k' Ht Hth Hc E|k log T m t p Ht Hth Hc|k log T m t k1 c b k2 Hcur Hr Hk E
    |k log T m t now k' Ht E|k log T m t c b k' Ht Hn Hf Ha E|k log T m t p Hn HT Hl|k log T m main t q p m' Ht Hmain Hborn Hn HT Hl|k log T m t p whole k' Ht Hn Hp Hown E].
  - split; [by eapply compute_good|by apply (e_compute (mkU (k, log) T m) t p)].
  - split; [eapply call_good; try done; by eapply (Hd t p c p')|apply (e_call (mkU (k, log) T m) t p c p' k' b); [done|done| |by intros v m0 ->; eapply wait_frame|intros v; by eapply do_call_conds]].
    intros ->. destruct (do_call_frame t c k false k' Ht E) as [_ (_ & kc & _ & Hsu)]. by exists kc.
  - split; [|by apply (e_exit (mkU (k, log) T m) t p)]. apply (exit_good k log T _ m t); [done|done| |].
    + intros t' Hne. by rewrite lookup_insert_ne.
    + intros th. rewrite lookup_insert_eq. by intros [= <-].
  - by eapply dispatch_good.
  - split; [by eapply tick_good|]. apply (e_other (mkU (k, log) T m)); [apply quiet_refl|]. apply calm_refl. by eapply tick_condvars.
  - destruct (do_call_inv k log t c b k' (go_inv _ Hg) Ht Ha E) as [Hi Hp]. pose proof (do_call_frame t c k b k' Ht E) as Hfr.
    split; [|apply (e_other (mkU (k, log) T m)); [apply foreign_quiet; [done|apply Hg]|by eapply foreign_calm]].
    apply (good_step (mkU (k, log) T m) k' _ T m t b); [done|done| |done|by intros th; rewrite Hn|].
    + by eapply frame_moved; [|exact Hfr|eapply do_call_grows|].
    + intros _ -> _ kc Hkc. destruct Hfr as [_ (_ & kc' & Hk' & Hsu)]. rewrite Hk' in Hkc. injection Hkc as <-.
      destruct c; cbn in Hf, Hsu; try done; naive_solver.
  - split; [|apply (e_other (mkU (k, log) T m)); [apply quiet_refl|by apply calm_refl]]. apply (spawn_good k log T T m m t p); try done. intros th. by rewrite HT.
  - split; [|apply (e_create (mkU (k, log) T m) t p); [done|done|]; intros v; (split; [done|]); intros Hv; by apply (cond_queue_only k v t (inv_core _ (go_inv _ Hg))) in Hv as [? _]]. apply (spawn_good k log T _ m m' t q); try done.
    + intros t' Hne. by rewrite lookup_insert_ne.
    + intros th. rewrite lookup_insert_eq. by intros [= <-].
  - apply (exit_task_Ok t p) in E as ->; [|apply (inv_core _ (go_inv _ Hg))|done|done]. destruct whole.
    + specialize (Hown eq_refl). split; [by eapply ended_good|]. apply (e_other (mkU (k, log) T m)); [by eapply perish_quiet|by apply calm_refl].
    + split; [|apply (e_other (mkU (k, log) T m)); [apply quiet_refl|by apply calm_refl]]. apply (exit_good k log T T m t); [done|done|done|]. intros th. by rewrite Hn.
Qed.

(** ** Threads that cannot go on *)

Lemma queues_queue f ls i t g : (t, g) ∈ queues f i ls -> exists j q, ls !! j = Some q /\ t ∈ q /\ g = f (i + j)%nat.
Proof.
  revert i. induction ls as [|l ls IH]; intros i; cbn [queues]; [by intros ?%elem_of_nil|]. rewrite elem_of_app. intros [H|H].
  - apply list_elem_of_fmap in H as (t' & [= -> ->] & Ht). exists 0%nat, l. by rewrite Nat.add_0_r.
  - destruct (IH (S i) H) as (j & q & Hj & Ht & ->). exists (S j), q. split_and!; [done|done|]. f_equal. lia.
Qed.

(** A task that is neither running nor ready waits somewhere. *)
Lemma blocked_somewhere k t :
  core k -> t ∈ places k -> current k <> Some t -> t ∉ ready_queue k -> exists g, (t, g) ∈ blocked k /\ kont_matches g (konts k !! t).
Proof.
  intros Hc Hin Hcur Hr. unfold places in Hin. rewrite !elem_of_app in Hin. destruct Hin as [Hin|[Hin|Hin]]; [|done|].
  - destruct (current k); [|by apply elem_of_nil in Hin]. apply list_elem_of_singleton in Hin. by subst.
  - apply list_elem_of_fmap in Hin as ([t' g] & -> & Hg). exists g. split; [done|]. exact (core_blocked _ Hc _ _ Hg).
Qed.

Lemma blocked_queue k t g :
  (t, g) ∈ blocked k ->
  match g with
  | TMutex m => exists x, mutexes k !! m = Some x /\ t ∈ mutex_queue x
  | TSem s => exists x, semaphores k !! s = Some x /\ t ∈ sem_queue x
  | TCond c => exists q, condvars k !! c = Some q /\ t ∈ q
  | TTimer => t ∈ timer_task <$> timers k
  end.
Proof.
  unfold blocked. rewrite !elem_of_app. intros [Hg|[Hg|[Hg|Hg]]].
  - apply queues_queue in Hg as (j & q & Hj & Ht & ->). rewrite list_lookup_fmap in Hj. destruct (mutexes k !! j) as [x|] eqn:Ex; [|done].
    injection Hj as <-. cbn. by exists x.
  - apply queues_queue in Hg as (j & q & Hj & Ht & ->). rewrite list_lookup_fmap in Hj. destruct (semaphores k !! j) as [x|] eqn:Ex; [|done].
    injection Hj as <-. cbn. by exists x.
  - apply queues_queue in Hg as (j & q & Hj & Ht & ->). cbn. by exists q.
  - apply list_elem_of_fmap in Hg as (x & [= -> ->] & Hx). apply list_elem_of_fmap. by exists x.
Qed.

(** A task whose [down] has not returned is in the queue of the semaphore or was granted it. *)
Lemma down_waits k t s :
  core k -> t ∈ places k -> current k <> Some t -> t ∉ ready_queue k -> konts k !! t = Some (KDown s) ->
  exists x, semaphores k !! s = Some x /\ t ∈ sem_queue x.
Proof.
  intros Hc Hin Hcur Hr Hk. destruct (blocked_somewhere k t Hc Hin Hcur Hr) as (g & Hg & Hm). rewrite Hk in Hm. apply blocked_queue in Hg.
  destruct g; cbn in Hm; [done| |by destruct Hm|done]. by injection Hm as ->.
Qed.

(** Creating a semaphore. *)
Lemma new_semaphore t n k log w' :
  inv (k, log) -> current k = Some t -> 0 <= n < limit -> run_call t (CNewSemaphore n) (k, log) = Ok w' ->
  inv w' /\ snd w' = Created (length (semaphores k)) n :: log /\ length (semaphores (fst w')) = S (length (semaphores k)) /\
  current (fst w') = Some t /\ konts (fst w') = konts k /\ places (fst w') ≡ₚ places k.
Proof.
  intros Hi Ht Hn E. unfold run_call in E. apply res_bind_Ok in E as ([b k'] & E & E'). injection E' as <-. cbn [fst snd] in *.
  destruct (do_call_inv k log t (CNewSemaphore n) b k' Hi Ht Hn E) as [Hi' Hp]. cbn [do_call] in E. apply st_bind_Ok in E as (o & k1 & Hu & E).
  injection E as <- <-. cbn [fst snd app] in *.
  assert (Hp' : (exists b, sys_semaphore_create n = sys_mutex_create b) \/ (exists n', sys_semaphore_create n = sys_semaphore_create n') \/ sys_semaphore_create n = sys_condvar_create) by eauto.
  destruct (create_frame _ k o k1 Hp' Hu) as [Hk Hc]. split_and!; [done|done| |by rewrite Hc|done|done].
  unfold sys_semaphore_create in Hu. apply st_bind_Ok in Hu as (q & k2 & Hq & Hu). apply current_process_state in Hq as ->.
  unfold mbind, st_bind, gets, modify, tables_of in Hu. cbn in Hu. destruct (alloc_slot _ _). injection Hu as _ <-. cbn. rewrite length_app. cbn. lia.
Qed.

(** No thread of the program is running or ready. *)
Definition stalled (w : uworld) : Prop :=
  forall t th, threads w !! t = Some th -> current (fst (kw w)) <> Some t /\ t ∉ ready_queue (fst (kw w)).

(** Nothing of the program was granted to a task that has not run yet. *)
Lemma none_handed w kc : good w -> stalled w -> ~ foreign_kont kc -> handed kc (fst (kw w)) = 0.
Proof.
  intros Hg Hst Hf. unfold handed. destruct (filter _ (ready_queue (fst (kw w)))) as [|t' l] eqn:Ef; [done|]. exfalso.
  assert (Hin : t' ∈ filter (fun t => konts (fst (kw w)) !! t = Some kc) (ready_queue (fst (kw w)))) by (rewrite Ef; by left).
  apply list_elem_of_filter in Hin as [Hk' Hr']. destruct (threads w !! t') as [th|] eqn:Et'; [by destruct (Hst t' th Et')|].
  assert (Hp' : t' ∈ places (fst (kw w))) by (unfold places; rewrite !elem_of_app; auto).
  destruct (go_other _ Hg t' _ Et' Hp' Hk') as [Hc|]; [|done].
  pose proof (core_nodup _ (inv_core _ (go_inv _ Hg))) as Hnd. unfold places in Hnd. rewrite Hc in Hnd. cbn in Hnd.
  apply NoDup_cons in Hnd as [Hnd _]. apply Hnd. apply elem_of_app. by left.
Qed.

(** A semaphore on which a thread waits has no unit left then. *)
Lemma stalled_down w t p s p' :
  good w -> stalled w -> our_sem s -> threads w !! t = Some (mkThread p (Waits (CDown s) p')) ->
  taken s (snd (kw w)) = units s (snd (kw w)).
Proof.
  intros Hg Hst Hs Ht. pose proof (go_track _ Hg t _ Ht) as (Hin & Hcur & kc & Hk & ->). destruct (Hst t _ Ht) as [_ Hr].
  destruct (down_waits _ t s (inv_core _ (go_inv _ Hg)) Hin Hcur Hr Hk) as (x & Hx & Hq).
  pose proof (inv_sem _ (go_inv _ Hg) s) as Hl. rewrite Hx in Hl. destruct Hl as (_ & Hsum & Hlen).
  assert (Hn : length (sem_queue x) <> 0%nat) by (destruct (sem_queue x); [by apply elem_of_nil in Hq|done]).
  pose proof (none_handed w (KDown s) Hg Hst (fun Hf => Hf Hs)) as Hh. clear -Hsum Hlen Hn Hh. lia.
Qed.

(** A mutex has one holder at most. *)
Lemma mutex_holder w m : good w -> (length (holders m (snd (kw w))) <= 1)%nat.
Proof.
  intros Hg. pose proof (inv_mutex _ (go_inv _ Hg) m) as Hl. pose proof (handed_nonneg (KLocked m) (fst (kw w))) as Hh.
  unfold mutex_law, held in Hl. destruct (mutexes _ !! m) as [[l|l q]|]; [destruct l|destruct l|]; cbn in Hl; clear -Hl Hh; lia.
Qed.

(** A holder can unlock. *)
Lemma unlock_succeeds w m x t :
  good w -> mutexes (fst (kw w)) !! m = Some x -> t ∈ holders m (snd (kw w)) ->
  exists b k', do_call (CUnlock m) (fst (kw w)) = Ok (b, k').
Proof.
  intros Hg Hx Ht. pose proof (inv_mutex _ (go_inv _ Hg) m) as Hl. rewrite Hx in Hl.
  assert (Hh : 1 <= held m (snd (kw w))) by (unfold held; destruct (holders m (snd (kw w))); [by apply elem_of_nil in Ht|cbn; lia]).
  pose proof (handed_nonneg (KLocked m) (fst (kw w))) as Hn. pose proof (unlock_run m x _ Hx) as Hu. cbn [do_call].
  destruct x as [l|l q]; [|destruct l; [destruct q|clear -Hl Hh Hn; cbn in Hl; lia]]; rewrite (st_bind_run _ _ _ _ _ Hu); by eexists _, _.
Qed.

(** A mutex for which a thread waits has a holder then. *)
Lemma queued_holder w t m m' x :
  good w -> stalled w -> our_mutex m -> mutexes (fst (kw w)) !! m' = Some x -> t ∈ mutex_queue x -> m' = m -> exists t', t' ∈ holders m (snd (kw w)).
Proof.
  intros Hg Hst Hm Hx Hq ->. pose proof (inv_mutex _ (go_inv _ Hg) m) as Hl. rewrite Hx in Hl.
  pose proof (none_handed w (KLocked m) Hg Hst (fun Hf => Hf Hm)) as Hh. destruct x as [l|l q]; cbn in Hq; [by apply elem_of_nil in Hq|].
  destruct Hl as [Hheld Hl]. destruct l; [|rewrite (Hl eq_refl) in Hq; by apply elem_of_nil in Hq]. cbn in Hheld. unfold held in Hheld.
  destruct (holders m (snd (kw w))) as [|t' hs]; [clear -Hheld Hh; cbn in Hheld; lia|]. exists t'. by left.
Qed.

Lemma stalled_lock w t p m p' :
  good w -> stalled w -> our_mutex m -> threads w !! t = Some (mkThread p (Waits (CLock m) p')) ->
  exists t', t' ∈ holders m (snd (kw w)).
Proof.
  intros Hg Hst Hm Ht. pose proof (go_track _ Hg t _ Ht) as (Hin & Hcur & kc & Hk & Hsus). destruct (Hst t _ Ht) as [_ Hr].
  destruct (blocked_somewhere _ t (inv_core _ (go_inv _ Hg)) Hin Hcur Hr) as (g & Hb & Hkm). rewrite Hk in Hkm. apply blocked_queue in Hb.
  destruct g as [m'|s|c|]; cbn in Hkm.
  - injection Hkm as ->. destruct Hsus as [[=]|[= ->]]. destruct Hb as (x & Hx & Hq). by eapply queued_holder.
  - injection Hkm as ->. by destruct Hsus.
  - destruct Hkm as [m' [= ->]]. by destruct Hsus.
  - injection Hkm as ->. by destruct Hsus.
Qed.

(** A thread in [condvar_wait] sleeps in a queue then, or waits for the mutex. *)
Lemma stalled_wait w t p v m p' :
  good w -> stalled w -> our_mutex m -> threads w !! t = Some (mkThread p (Waits (CWait v m) p')) ->
  (exists t', t' ∈ holders m (snd (kw w))) \/ exists c, t ∈ cond_queue (fst (kw w)) c.
Proof.
  intros Hg Hst Hm Ht. pose proof (go_track _ Hg t _ Ht) as (Hin & Hcur & kc & Hk & Hsus). destruct (Hst t _ Ht) as [_ Hr].
  destruct (blocked_somewhere _ t (inv_core _ (go_inv _ Hg)) Hin Hcur Hr) as (g & Hb & Hkm). rewrite Hk in Hkm. apply blocked_queue in Hb.
  destruct g as [m'|s|c|]; cbn in Hkm.
  - injection Hkm as ->. destruct Hsus as [[=]|[[=]|[= ->]]]. destruct Hb as (x & Hx & Hq). left. by eapply queued_holder.
  - injection Hkm as ->. by destruct Hsus as [|[|]].
  - right. exists c. destruct Hb as (q & Hq & Htq). unfold cond_queue. by rewrite Hq.
  - injection Hkm as ->. by destruct Hsus as [|[|]].
Qed.

(** A thread in [sleep] has a timer then. *)
Lemma stalled_sleep w t p now ms p' :
  good w -> stalled w -> threads w !! t = Some (mkThread p (Waits (CSleep now ms) p')) -> t ∈ timer_task <$> timers (fst (kw w)).
Proof.
  intros Hg Hst Ht. pose proof (go_track _ Hg t _ Ht) as (Hin & Hcur & kc & Hk & ->). destruct (Hst t _ Ht) as [_ Hr].
  destruct (blocked_somewhere _ t (inv_core _ (go_inv _ Hg)) Hin Hcur Hr) as (g & Hb & Hkm). rewrite Hk in Hkm. apply blocked_queue in Hb.
  destruct g; cbn in Hkm; try done. by destruct Hkm.
Qed.

(** No thread is in [yield_] then. *)
Lemma stalled_yield w t p p' : good w -> stalled w -> threads w !! t = Some (mkThread p (Waits CYield p')) -> False.
Proof.
  intros Hg Hst Ht. pose proof (go_track _ Hg t _ Ht) as (Hin & Hcur & kc & Hk & ->). destruct (Hst t _ Ht) as [_ Hr].
  destruct (blocked_somewhere _ t (inv_core _ (go_inv _ Hg)) Hin Hcur Hr) as (g & _ & Hm). rewrite Hk in Hm. destruct g; cbn in Hm; try done; by destruct Hm.
Qed.

(** And no thread can have returned to the program. *)
Lemma stalled_not_running w t p : good w -> stalled w -> threads w !! t = Some (mkThread p Runs) -> False.
Proof.
  intros Hg Hst Ht. destruct (Hst t _ Ht) as [Hcur Hr]. pose proof (go_track _ Hg t _ Ht) as [Hin [|Hk]]; [done|].
  destruct (blocked_somewhere _ t (inv_core _ (go_inv _ Hg)) Hin Hcur Hr) as (g & _ & Hm).
  destruct g; cbn in Hm; destruct Hk as [Hk|Hk]; rewrite Hk in Hm; try done; by destruct Hm.
Qed.

(** ** Running a program *)

(** What happens next: the current thread goes on, the idle loop dispatches, the timer
    interrupts, or the main thread creates a thread. *)
Inductive act := Go | Dispatch | Tick (now : Z) | Create (t q : nat).

Definition next (a : act) (w : uworld) : res uworld :=
  let k := fst (kw w) in let log := snd (kw w) in
  match a with
  | Go =>
      t ← unwrap (current k);
      th ← unwrap (threads w !! t);
      match doing th with
      | Runs =>
          match code (point th) (memory w) with
          | Compute m' p' => Ok (mkU (k, log) (<[t := mkThread p' Runs]> (threads w)) m')
          | Call c p' =>
              '(b, k') ← do_call c k;
              Ok (mkU (k', (if b : bool then after_call t c else []) ++ before_call t c k ++ log)
                    (<[t := if b then mkThread p' Runs else mkThread (point th) (Waits c p')]> (threads w)) (memory w))
          | Exit => Ok (mkU (set_current None k, log) (<[t := mkThread (point th) Ended]> (threads w)) (memory w))
          end
      | _ => Panic PanicCall
      end
  | Dispatch =>
      _ ← rassert (bool_decide (current k = None));
      '(o, k1) ← run_tasks_round k;
      t ← unwrap o;
      c ← unwrap (konts k1 !! t);
      '(b, k2) ← resume c k1;
      Ok (mkU (k2, (if b : bool then after_resume t c else []) ++ Dispatched t :: log) (if b then alter settle t (threads w) else threads w) (memory w))
  | Tick now =>
      _ ← unwrap (current k);
      '(_, k') ← (check_timer now;; suspend_current_and_run_next KYield) k;
      Ok (mkU (k', log) (threads w) (memory w))
  | Create t q =>
      main ← unwrap (current k);
      _ ← rassert (bool_decide (threads w !! main = None /\ t ∉ places k /\ threads w !! t = None /\ Z.of_nat (length (places k)) + 1 < limit));
      '(p, m') ← unwrap (born (memory w));
      Ok (mkU (spawn t q k, log) (<[t := mkThread p Runs]> (threads w)) m')
  end.

Fixpoint play (l : list act) (w : uworld) : res uworld :=
  match l with
  | [] => Ok w
  | a :: l' => w' ← next a w; play l' w'
  end.

Lemma next_ustep a w w' : next a w = Ok w' -> ustep w w'.
Proof.
  destruct w as [[k log] T m]. unfold next. cbn [kw fst snd threads memory]. destruct a as [| |now|t' q].
  - intros E. apply res_bind_Ok in E as (t & Et & E). apply unwrap_Ok in Et. apply res_bind_Ok in E as ([p md] & Eth & E). apply unwrap_Ok in Eth.
    cbn [doing point] in E. destruct md; [|done|done]. destruct (code p m) as [m' p'|c p'|] eqn:Ec.
    + injection E as <-. by apply (u_compute k log T m t p).
    + apply res_bind_Ok in E as ([b k'] & Ed & E). injection E as <-. by apply (u_call k log T m t p c p' b k').
    + injection E as <-. by apply (u_exit k log T m t p).
  - intros E. apply res_bind_Ok in E as ([] & Ec & E). apply rassert_Ok in Ec as [Ec _]. apply bool_decide_eq_true in Ec.
    apply res_bind_Ok in E as ([o k1] & Er & E). apply res_bind_Ok in E as (t & Et & E). apply unwrap_Ok in Et as ->.
    apply res_bind_Ok in E as (c & Ek & E). apply unwrap_Ok in Ek. apply res_bind_Ok in E as ([b k2] & Eb & E). injection E as <-.
    by apply (u_dispatch k log T m t k1 c b k2).
  - intros E. apply res_bind_Ok in E as (t & Et & E). apply unwrap_Ok in Et. apply res_bind_Ok in E as ([[] k'] & Ek & E). injection E as <-.
    by apply (u_tick k log T m t now k').
  - intros E. apply res_bind_Ok in E as (t & Et & E). apply unwrap_Ok in Et. apply res_bind_Ok in E as ([] & Ec & E). apply rassert_Ok in Ec as [Ec _].
    apply bool_decide_eq_true in Ec as (H1 & H2 & H3 & H4). apply res_bind_Ok in E as ([p m'] & Eb & E). apply unwrap_Ok in Eb. injection E as <-.
    by apply (u_create k log T m t t' q p m').
Qed.

Lemma play_usteps l : forall w w', play l w = Ok w' -> rtc ustep w w'.
Proof.
  induction l as [|a l IH]; intros w w' E; cbn [play] in E; [injection E as <-; apply rtc_refl|].
  apply res_bind_Ok in E as (w1 & E1 & E). eapply rtc_l; [by eapply next_ustep|by apply IH].
Qed.
End threads.
Arguments op P M : clear implicits.
Arguments thread P : clear implicits.
Arguments uworld P M : clear implicits.

(** What the events of a step of [t] do to the holders of a mutex. *)
Inductive taking := Keeps | Takes (m : nat) | Drops (m : nat).
Definition holds_after (x : taking) (t m : nat) (log : list event) (t' : nat) : Prop :=
  match x with
  | Keeps => t' ∈ holders m log
  | Takes m' => t' ∈ holders m log \/ (m' = m /\ t' = t)
  | Drops m' => t' ∈ holders m log /\ ~ (m' = m /\ t' = t)
  end.

Definition takes (x : taking) (t : nat) (log log' : list event) : Prop := forall m t', t' ∈ holders m log' <-> holds_after x t m log t'.

Lemma takes_locked t m log : takes (Takes m) t log (Locked t m :: log).
Proof. intros m' t'. cbn. case_decide as E; [rewrite elem_of_cons|]; naive_solver. Qed.
Lemma takes_unlocked t m log : takes (Drops m) t log (Unlocked t m :: log).
Proof. intros m' t'. cbn. case_decide as E; [rewrite list_elem_of_filter|]; naive_solver. Qed.

(** ** Sums over the threads *)

Section sums.
Context {P : Type}.
Implicit Types (f g : P -> Z) (T : gmap nat (thread P)).

Definition total f T : Z := map_fold (fun _ th n => f (point th) + n) 0 T.

Lemma total_delete f T t th : T !! t = Some th -> total f T = f (point th) + total f (delete t T).
Proof. intros Ht. unfold total. apply (map_fold_delete_L (fun _ th n => f (point th) + n)); [|done]. intros. lia. Qed.

Lemma total_update f T t th th' : T !! t = Some th -> total f (<[t := th']> T) = total f T - f (point th) + f (point th').
Proof.
  intros Ht. rewrite (total_delete f (<[t := th']> T) t th') by (by rewrite lookup_insert_eq). rewrite (total_delete f T t th Ht).
  rewrite delete_insert_eq. lia.
Qed.

Lemma total_new f T t th : T !! t = None -> total f (<[t := th]> T) = total f T + f (point th).
Proof. intros Ht. rewrite (total_delete f _ t th) by (by rewrite lookup_insert_eq). rewrite delete_insert_id by done. lia. Qed.

Lemma total_le f g T : (forall t th, T !! t = Some th -> f (point th) <= g (point th)) -> total f T <= total g T.
Proof.
  unfold total. induction T as [|t th T Hn Hfirst IH] using map_first_key_ind; [done|]. intros H.
  rewrite !map_fold_insert_L by (done || intros; lia). assert (f (point th) <= g (point th)) by (apply (H t); by rewrite lookup_insert_eq).
  assert (map_fold (fun _ th n => f (point th) + n) 0 T <= map_fold (fun _ th n => g (point th) + n) 0 T); [|lia].
  apply IH. intros t' th' Ht'. apply (H t'). rewrite lookup_insert_ne; [done|]. intros ->. congruence.
Qed.

Lemma total_nonneg f T : (forall t th, T !! t = Some th -> 0 <= f (point th)) -> 0 <= total f T.
Proof.
  intros H. transitivity (total (fun _ => 0) T); [|by apply total_le]. unfold total.
  induction T as [|t th T Hn Hfirst IH] using map_first_key_ind; [done|]. rewrite map_fold_insert_L by (done || intros; lia). rewrite Z.add_0_l.
  apply IH. intros t' th' Ht'. apply (H t'). rewrite lookup_insert_ne; [done|]. intros ->. congruence.
Qed.

Lemma total_le_but f g T t th :
  T !! t = Some th -> (forall t' th', T !! t' = Some th' -> f (point th') <= g (point th')) ->
  total f T - f (point th) <= total g T - g (point th).
Proof.
  intros Ht H. rewrite (total_delete f T t th Ht), (total_delete g T t th Ht). assert (total f (delete t T) <= total g (delete t T)); [|lia].
  apply total_le. intros t' th' Ht'. apply lookup_delete_Some in Ht' as [_ Ht']. by apply (H t').
Qed.

Lemma total_add f g T : total (fun p => f p + g p) T = total f T + total g T.
Proof.
  unfold total. induction T as [|t th T Hn Hfirst IH] using map_first_key_ind; [done|].
  rewrite !map_fold_insert_L by (done || intros; lia). rewrite IH. lia.
Qed.

Lemma total_const n T : total (fun _ => n) T = n * Z.of_nat (size T).
Proof.
  unfold total. induction T as [|t th T Hn Hfirst IH] using map_first_key_ind; [rewrite map_fold_empty, map_size_empty; lia|].
  rewrite map_fold_insert_L by (done || intros; lia). rewrite map_size_insert_None by done. rewrite IH. lia.
Qed.

Lemma total_ext f g T : (forall t th, T !! t = Some th -> f (point th) = g (point th)) -> total f T = total g T.
Proof. intros H. apply Z.le_antisymm; apply total_le; intros t th Ht; rewrite (H t th Ht); lia. Qed.
End sums.
