(* ===== verification/SemBuffer.v ===== *)
(** The bounded buffer of user/src/bin/mpsc_sem.rs on the semaphores of the kernel.

    The semaphores are objects of [Sched]; their numbers are parameters, as the table of the
    process gives them.  [written] is a record of the values stored in the buffer that the
    program does not have. *)

From S2P Require Import Prelude Sched KernelThreads.

Section mpsc.
Context (SEM_MUTEX SEM_EMPTY SEM_AVAIL : nat).
Context (BUFFER_SIZE NUMBER_PER_PRODUCER PRODUCER_COUNT : nat).

(** Between the accesses of a round: before the first [down], before the [down] of the mutex,
    before the load of the index, before the access to the buffer, before the index is loaded
    again, before it is stored, before the [up] of the mutex, before the last [up]. *)
Inductive stage := BeforeFirst | BeforeMutex | BeforeLoad | BeforeAccess | BeforeReload | BeforeStore | BeforeUp | BeforeLast.
#[export] Instance stage_eq_dec : EqDecision stage.
Proof. solve_decision. Defined.
Inductive role := Producer (id : nat) | Consumer.
#[export] Instance role_eq_dec : EqDecision role.
Proof. solve_decision. Defined.
Record location := mkLoc { who : role; iter : nat; reg : nat; at_ : stage }.

(** [pending] has the threads that [main] has not created yet. *)
Record shared := mkShared {
  BUFFER : list nat; FRONT : nat; TAIL : nat;
  printed : list nat; written : list nat;
  pending : list role;
}.

Definition set_buffer (b : list nat) (o : list nat) (m : shared) : shared :=
  mkShared b (FRONT m) (TAIL m) (printed m) o (pending m).
Definition set_tail (i : nat) (m : shared) : shared :=
  mkShared (BUFFER m) (FRONT m) i (printed m) (written m) (pending m).
Definition set_front (i : nat) (m : shared) : shared :=
  mkShared (BUFFER m) i (TAIL m) (printed m) (written m) (pending m).
Definition print (x : nat) (m : shared) : shared :=
  mkShared (BUFFER m) (FRONT m) (TAIL m) (printed m ++ [x]) (written m) (pending m).

Definition producer (id iter reg : nat) (s : stage) (m : shared) : op location shared :=
  let goto := mkLoc (Producer id) iter in
  match s with
  | BeforeFirst => if (iter <? NUMBER_PER_PRODUCER)%nat then Call (CDown SEM_EMPTY) (goto reg BeforeMutex) else Exit
  | BeforeMutex => Call (CDown SEM_MUTEX) (goto reg BeforeLoad)
  | BeforeLoad => Compute m (goto (TAIL m) BeforeAccess)
  | BeforeAccess => Compute (set_buffer (<[reg := id]> (BUFFER m)) (written m ++ [id]) m) (goto reg BeforeReload)
  | BeforeReload => Compute m (goto (TAIL m) BeforeStore)
  | BeforeStore => Compute (set_tail ((reg + 1) mod BUFFER_SIZE) m) (goto reg BeforeUp)
  | BeforeUp => Call (CUp SEM_MUTEX) (goto reg BeforeLast)
  | BeforeLast => Call (CUp SEM_AVAIL) (mkLoc (Producer id) (S iter) reg BeforeFirst)
  end.

Definition consumer (iter reg : nat) (s : stage) (m : shared) : op location shared :=
  let goto := mkLoc Consumer iter in
  match s with
  | BeforeFirst =>
      if (iter <? PRODUCER_COUNT * NUMBER_PER_PRODUCER)%nat then Call (CDown SEM_AVAIL) (goto reg BeforeMutex) else Exit
  | BeforeMutex => Call (CDown SEM_MUTEX) (goto reg BeforeLoad)
  | BeforeLoad => Compute m (goto (FRONT m) BeforeAccess)
  | BeforeAccess => Compute (print (BUFFER m !!! reg) m) (goto reg BeforeReload)
  | BeforeReload => Compute m (goto (FRONT m) BeforeStore)
  | BeforeStore => Compute (set_front ((reg + 1) mod BUFFER_SIZE) m) (goto reg BeforeUp)
  | BeforeUp => Call (CUp SEM_MUTEX) (goto reg BeforeLast)
  | BeforeLast => Call (CUp SEM_EMPTY) (mkLoc Consumer (S iter) reg BeforeFirst)
  end.

Definition code (p : location) (m : shared) : op location shared :=
  match who p with
  | Producer id => producer id (iter p) (reg p) (at_ p) m
  | Consumer => consumer (iter p) (reg p) (at_ p) m
  end.

(** [thread_create] in the loop of [main]. *)
Definition born (m : shared) : option (location * shared) :=
  match pending m with
  | [] => None
  | r :: rest => Some (mkLoc r 0 0 BeforeFirst, mkShared (BUFFER m) (FRONT m) (TAIL m) (printed m) (written m) rest)
  end.

Definition our_sem (s : nat) : Prop := s = SEM_MUTEX \/ s = SEM_EMPTY \/ s = SEM_AVAIL.
#[local] Abbreviation none := (fun _ : nat => False).
#[local] Abbreviation ustep := (ustep code born none our_sem none).
#[local] Abbreviation good := (good none our_sem (P := location) (M := shared)).
#[local] Abbreviation effect := (effect code born none our_sem).

(** The threads [main] creates. *)
Definition crew : list role := (Producer <$> seq 0 PRODUCER_COUNT) ++ [Consumer].

(** After [main] has created the semaphores. *)
Record started (w : uworld location shared) : Prop := {
  st_good : good w;
  st_threads : threads w = ∅;
  st_mutex : units SEM_MUTEX (snd (kw w)) = 1 /\ taken SEM_MUTEX (snd (kw w)) = 0;
  st_empty : units SEM_EMPTY (snd (kw w)) = Z.of_nat BUFFER_SIZE /\ taken SEM_EMPTY (snd (kw w)) = 0;
  st_avail : units SEM_AVAIL (snd (kw w)) = 0 /\ taken SEM_AVAIL (snd (kw w)) = 0;
  st_memory : memory w = mkShared (replicate BUFFER_SIZE 0%nat) 0 0 [] [] crew;
}.

(** ** Counting *)

Definition step_of (s : stage) : nat :=
  match s with
  | BeforeFirst => 0 | BeforeMutex => 1 | BeforeLoad => 2 | BeforeAccess => 3 | BeforeReload => 4 | BeforeStore => 5 | BeforeUp => 6 | BeforeLast => 7
  end.

(** How often the thread has passed statement [n] of its round, from 1 to 8. *)
Definition passed (n : nat) (p : location) : Z := Z.of_nat (iter p) + (if (n <=? step_of (at_ p))%nat then 1 else 0).

(** The same for all threads with a role in [sel]. *)
Definition some_of (sel : role -> bool) (f : location -> Z) (p : location) : Z := if sel (who p) then f p else 0.
Definition count (sel : role -> bool) (n : nat) (T : gmap nat (thread location)) : Z := total (some_of sel (passed n)) T.

Definition all (r : role) : bool := true.
Definition producers (r : role) : bool := match r with Producer _ => true | Consumer => false end.
Definition consumers (r : role) : bool := negb (producers r).
Definition only (id : nat) (r : role) : bool := bool_decide (r = Producer id).

Lemma only_consumer id : only id Consumer = false.
Proof. by apply bool_decide_false. Qed.
Lemma only_producer id id' : only id (Producer id') = bool_decide (id = id').
Proof. unfold only. apply bool_decide_ext. split; [by intros [= ->]|by intros ->]. Qed.

Definition rounds (r : role) : Z :=
  Z.of_nat (match r with Producer _ => NUMBER_PER_PRODUCER | Consumer => PRODUCER_COUNT * NUMBER_PER_PRODUCER end).

(** The next statement, with [i] as the register. *)
Definition onward (i : nat) (p : location) : location :=
  match at_ p with
  | BeforeFirst => mkLoc (who p) (iter p) i BeforeMutex
  | BeforeMutex => mkLoc (who p) (iter p) i BeforeLoad
  | BeforeLoad => mkLoc (who p) (iter p) i BeforeAccess
  | BeforeAccess => mkLoc (who p) (iter p) i BeforeReload
  | BeforeReload => mkLoc (who p) (iter p) i BeforeStore
  | BeforeStore => mkLoc (who p) (iter p) i BeforeUp
  | BeforeUp => mkLoc (who p) (iter p) i BeforeLast
  | BeforeLast => mkLoc (who p) (S (iter p)) i BeforeFirst
  end.

Lemma who_onward i p : who (onward i p) = who p.
Proof. unfold onward. by destruct (at_ p). Qed.

Lemma passed_onward i n p : (1 <= n <= 8)%nat -> passed n (onward i p) = passed n p + if (n =? S (step_of (at_ p)))%nat then 1 else 0.
Proof. intros Hn. unfold passed, onward. destruct p as [r j g []]; cbn [iter at_ who step_of]; destruct n as [|[|[|[|[|[|[|[|[|n]]]]]]]]]; cbn; lia. Qed.

Lemma passed_mono n m p : (n <= m)%nat -> passed m p <= passed n p.
Proof.
  intros Hn. unfold passed. destruct (Nat.leb_spec m (step_of (at_ p))), (Nat.leb_spec n (step_of (at_ p))); lia.
Qed.

Lemma passed_nonneg n p : 0 <= passed n p.
Proof. unfold passed. case_match; lia. Qed.

(** Statement [n] is behind [p] in this round and statement [m] is not. *)
Lemma passed_between n m p : (n <= step_of (at_ p))%nat -> (step_of (at_ p) < m)%nat -> passed n p = passed m p + 1.
Proof. intros H1 H2. unfold passed. rewrite leb_correct, leb_correct_conv by lia. lia. Qed.

(** The call at a statement. *)
Definition call_of (r : role) (s : stage) : option call :=
  match s with
  | BeforeFirst => Some (CDown (if producers r then SEM_EMPTY else SEM_AVAIL))
  | BeforeMutex => Some (CDown SEM_MUTEX)
  | BeforeLoad | BeforeAccess | BeforeReload | BeforeStore => None
  | BeforeUp => Some (CUp SEM_MUTEX)
  | BeforeLast => Some (CUp (if producers r then SEM_AVAIL else SEM_EMPTY))
  end.

Lemma code_call p m c p' :
  code p m = Call c p' ->
  p' = onward (reg p) p /\ call_of (who p) (at_ p) = Some c /\ (at_ p = BeforeFirst -> Z.of_nat (iter p) < rounds (who p)) /\ forall m', code p m' = Call c p'.
Proof.
  unfold code, onward, rounds. destruct p as [[id|] i g s]; cbn [who iter reg at_]; destruct s; cbn -[Nat.ltb Nat.mul]; try done;
    try (match goal with |- context [(?a <? ?b)%nat] => destruct (Nat.ltb_spec a b) end; [|done]); intros [= <- <-]; split_and!; done || lia.
Qed.

(** The index of the thread. *)
Definition index_of (r : role) (m : shared) : nat := if producers r then TAIL m else FRONT m.

Lemma code_compute p m m' p' :
  code p m = Compute m' p' ->
  p' = onward (reg p') p /\ pending m' = pending m /\ (2 <= step_of (at_ p) < 6)%nat /\
  (at_ p' = BeforeAccess \/ at_ p' = BeforeStore -> reg p' = index_of (who p) m').
Proof.
  unfold code, onward. destruct p as [[id|] i g []]; cbn; try done; try (by case_match); intros [= <- <-]; cbn; split_and!; try done; try lia; naive_solver.
Qed.

Lemma count_onward i sel n T t th md :
  T !! t = Some th -> (1 <= n <= 8)%nat ->
  count sel n (<[t := mkThread (onward i (point th)) md]> T) =
  count sel n T + if sel (who (point th)) && (n =? S (step_of (at_ (point th))))%nat then 1 else 0.
Proof.
  intros Ht Hn. unfold count. rewrite (total_update _ T t th _ Ht). cbn [point]. unfold some_of. rewrite who_onward, (passed_onward i n _ Hn).
  destruct (sel _); cbn; lia.
Qed.

(** A change that leaves the thread where it is. *)
Lemma total_stays f T t th md : T !! t = Some th -> total f (<[t := mkThread (point th) md]> T) = total (P := location) f T.
Proof. intros Ht. rewrite (total_update _ T t th _ Ht). cbn. lia. Qed.

Lemma count_falls sel n m T : (n <= m)%nat -> count sel m T <= count sel n T.
Proof. intros H. apply total_le. intros t th _. unfold some_of. case_match; [by apply passed_mono|lia]. Qed.

Lemma count_nonneg sel n T : 0 <= count sel n T.
Proof. apply total_nonneg. intros t th _. unfold some_of. case_match; [apply passed_nonneg|lia]. Qed.

(** One thread has passed [n] and not [m]. *)
Lemma count_gap sel n m T t th :
  T !! t = Some th -> sel (who (point th)) = true -> (n <= step_of (at_ (point th)))%nat -> (step_of (at_ (point th)) < m)%nat ->
  count sel m T + 1 <= count sel n T.
Proof.
  intros Ht Hs H1 H2. pose proof (total_le_but (some_of sel (passed m)) (some_of sel (passed n)) T t th Ht) as H.
  assert (E : forall k, some_of sel (passed k) (point th) = passed k (point th)) by (intros k; unfold some_of; by rewrite Hs).
  rewrite !E, (passed_between n m) in H by done. unfold count.
  assert (Hle : forall t' th', T !! t' = Some th' -> some_of sel (passed m) (point th') <= some_of sel (passed n) (point th')).
  { intros t' th' _. unfold some_of. case_match; [|lia]. apply passed_mono. lia. }
  specialize (H Hle). lia.
Qed.

(** With one thread in the critical section before its access, none is between the access
    and the store of the index. *)
Lemma count_exclusive sel T t th :
  T !! t = Some th -> at_ (point th) = BeforeAccess -> count all 2 T <= 1 + count all 7 T -> count sel 4 T = count sel 6 T.
Proof.
  intros Ht Ha Hm. pose proof (count_falls sel 4 6 T ltac:(lia)) as Hge.
  pose proof (total_le_but (fun p => some_of sel (passed 4) p + some_of all (passed 7) p) (fun p => some_of sel (passed 6) p + some_of all (passed 2) p) T t th Ht) as H.
  cbv beta in H. rewrite !total_add in H. fold (count sel 4 T) (count all 7 T) (count sel 6 T) (count all 2 T) in H.
  assert (Hle : forall t' th', T !! t' = Some th' ->
    some_of sel (passed 4) (point th') + some_of all (passed 7) (point th') <= some_of sel (passed 6) (point th') + some_of all (passed 2) (point th')).
  { intros t' th' _. unfold some_of, all, passed. destruct (sel _), (at_ (point th')); cbn; lia. }
  specialize (H Hle).
  assert (E : some_of sel (passed 6) (point th) + some_of all (passed 2) (point th) = some_of sel (passed 4) (point th) + some_of all (passed 7) (point th) + 1).
  { unfold some_of, all, passed. rewrite Ha. destruct (sel _); cbn; lia. }
  lia.
Qed.

(** Two threads are not in the critical section at once. *)
Lemma one_inside T t t' th th' :
  T !! t = Some th -> T !! t' = Some th' -> t' <> t -> (2 <= step_of (at_ (point th)) < 7)%nat -> count all 2 T <= 1 + count all 7 T ->
  ~ (2 <= step_of (at_ (point th')) < 7)%nat.
Proof.
  intros Ht Ht' Hne Hin Hm Hin'. unfold count in Hm. rewrite !(total_delete _ T t th Ht) in Hm.
  assert (Hd : delete t T !! t' = Some th') by (by rewrite lookup_delete_ne).
  pose proof (count_gap all 2 7 (delete t T) t' th' Hd eq_refl ltac:(lia) ltac:(lia)) as G. unfold count in G.
  unfold some_of at 1 3 in Hm. cbn [all] in Hm. rewrite (passed_between 2 7 (point th)) in Hm by lia. lia.
Qed.

(** ** Who the threads are *)

Definition sum_of (g : role -> Z) (l : list role) : Z := foldr (fun r n => g r + n) 0 l.

Lemma sum_app g l l' : sum_of g (l ++ l') = sum_of g l + sum_of g l'.
Proof. unfold sum_of. induction l as [|r l IH]; [done|]. cbn [app foldr]. rewrite IH. lia. Qed.

Lemma sum_nonneg g l : (forall r, 0 <= g r) -> 0 <= sum_of g l.
Proof. intros Hg. unfold sum_of. induction l as [|r l IH]; [done|]. cbn [foldr]. specialize (Hg r). lia. Qed.

Lemma sum_producers (g : role -> Z) l : sum_of g (Producer <$> l) = foldr (fun id n => g (Producer id) + n) 0 l.
Proof. unfold sum_of. induction l as [|id l IH]; [done|]. rewrite fmap_cons. cbn [foldr]. by rewrite IH. Qed.

Lemma sum_same (g : nat -> Z) a i n : (forall id, g id = a) -> foldr (fun id n => g id + n) 0 (seq i n) = Z.of_nat n * a.
Proof. intros Hg. revert i. induction n as [|n IH]; intros i; [done|]. cbn [seq foldr]. rewrite IH, Hg. lia. Qed.

Lemma sum_rounds : sum_of rounds crew = 2 * Z.of_nat (PRODUCER_COUNT * NUMBER_PER_PRODUCER).
Proof. unfold crew. rewrite sum_app, sum_producers, (sum_same (fun id => rounds (Producer id)) (Z.of_nat NUMBER_PER_PRODUCER)) by done. cbn. unfold rounds. lia. Qed.

(** ** The buffer *)

(** [w] values written, [r] printed, the indices moved [tl] and [fr] times, and [ids id]
    values written by producer [id]. *)
Record buffer_holds (m : shared) (w r tl fr : Z) (ids : nat -> Z) : Prop := {
  bh_written : Z.of_nat (length (written m)) = w;
  bh_printed : Z.of_nat (length (printed m)) = r;
  bh_tail : Z.of_nat (TAIL m) = tl mod Z.of_nat BUFFER_SIZE;
  bh_front : Z.of_nat (FRONT m) = fr mod Z.of_nat BUFFER_SIZE;
  bh_size : length (BUFFER m) = BUFFER_SIZE;
  bh_order : printed m = take (length (printed m)) (written m);
  bh_room : r <= w <= r + Z.of_nat BUFFER_SIZE;
  bh_slots j x : (length (printed m) <= j)%nat -> written m !! j = Some x -> BUFFER m !! (j mod BUFFER_SIZE)%nat = Some x;
  bh_ids id : Z.of_nat (length (filter (fun x => x = id) (written m))) = ids id;
}.

Context (Hsize : (0 < BUFFER_SIZE)%nat).

Lemma buffer_ext m w r tl fr ids w' r' tl' fr' ids' :
  buffer_holds m w r tl fr ids -> w' = w -> r' = r -> tl' = tl -> fr' = fr -> (forall id, ids' id = ids id) ->
  buffer_holds m w' r' tl' fr' ids'.
Proof. intros [] -> -> -> -> Hi. split; try done. intros id. by rewrite Hi. Qed.

Lemma mod_of_nat j : Z.of_nat (j mod BUFFER_SIZE) = Z.of_nat j mod Z.of_nat BUFFER_SIZE.
Proof. by rewrite Nat2Z.inj_mod. Qed.

Lemma index_moves i x : Z.of_nat i = x mod Z.of_nat BUFFER_SIZE -> Z.of_nat ((i + 1) mod BUFFER_SIZE) = (x + 1) mod Z.of_nat BUFFER_SIZE.
Proof. intros E. rewrite mod_of_nat, Nat2Z.inj_add, E. change (Z.of_nat 1) with 1. rewrite Z.add_mod_idemp_l by lia. done. Qed.

Lemma stores m w r fr ids id :
  buffer_holds m w r w fr ids -> w + 1 <= r + Z.of_nat BUFFER_SIZE ->
  buffer_holds (set_buffer (<[TAIL m := id]> (BUFFER m)) (written m ++ [id]) m) (w + 1) r w fr
    (fun i => ids i + if decide (i = id) then 1 else 0).
Proof.
  intros [Hw Hr Ht Hf Hs Ho Hroom Hsl Hi] Hfree. split; cbn [set_buffer print BUFFER FRONT TAIL printed written]; try done.
  - rewrite length_app. cbn. lia.
  - by rewrite length_insert.
  - rewrite take_app_le by lia. done.
  - lia.
  - assert (Htail : TAIL m = (length (written m) mod BUFFER_SIZE)%nat) by (apply Nat2Z.inj; rewrite mod_of_nat, Ht, Hw; done).
    assert (Hlt : (TAIL m < BUFFER_SIZE)%nat) by (rewrite Htail; apply Nat.mod_upper_bound; lia).
    intros j x Hj Hx. apply lookup_snoc_Some in Hx as [[Hl Hx]|[-> <-]].
    + rewrite list_lookup_insert_ne; [by apply Hsl|]. rewrite Htail. intros E. apply (f_equal Z.of_nat) in E. rewrite !mod_of_nat in E.
      assert (0 < Z.of_nat (length (written m)) - Z.of_nat j < Z.of_nat BUFFER_SIZE) by lia.
      assert (Ez : (Z.of_nat (length (written m)) - Z.of_nat j) mod Z.of_nat BUFFER_SIZE = 0) by (rewrite Zminus_mod, E, Z.sub_diag; by apply Z.mod_0_l; lia).
      rewrite Z.mod_small in Ez by lia. lia.
    + rewrite <- Htail. apply list_lookup_insert_eq. lia.
  - intros i. rewrite filter_app, length_app, Nat2Z.inj_add, Hi. f_equal. cbn [filter list_filter]. destruct (decide (id = i)) as [->|Hne]; cbn.
    + by rewrite decide_True.
    + by rewrite decide_False by congruence.
Qed.

Lemma prints m w r tl ids :
  buffer_holds m w r tl r ids -> r + 1 <= w ->
  buffer_holds (print (BUFFER m !!! FRONT m) m) w (r + 1) tl r ids.
Proof.
  intros [Hw Hr Ht Hf Hs Ho Hroom Hsl Hi] Havail. split; cbn [set_buffer print BUFFER FRONT TAIL printed written]; try done.
  - rewrite length_app. cbn. lia.
  - assert (Hfr : FRONT m = (length (printed m) mod BUFFER_SIZE)%nat) by (apply Nat2Z.inj; rewrite mod_of_nat, Hf, Hr; done).
    destruct (lookup_lt_is_Some_2 (written m) (length (printed m))) as [x Hx]; [lia|].
    assert (Hslot : BUFFER m !! FRONT m = Some x) by (rewrite Hfr; by apply Hsl).
    rewrite (list_lookup_total_correct _ _ _ Hslot), length_app. cbn [length]. rewrite Nat.add_1_r, (take_S_r _ _ x Hx). by rewrite <- Ho.
  - lia.
  - intros j x. rewrite length_app. cbn. intros Hj. apply Hsl. lia.
Qed.

Lemma moves_tail m w r tl fr ids :
  buffer_holds m w r tl fr ids ->
  buffer_holds (set_tail ((TAIL m + 1) mod BUFFER_SIZE) m) w r (tl + 1) fr ids.
Proof. intros []. split; try done. cbn [set_tail TAIL]. by apply index_moves. Qed.

Lemma moves_front m w r tl fr ids :
  buffer_holds m w r tl fr ids ->
  buffer_holds (set_front ((FRONT m + 1) mod BUFFER_SIZE) m) w r tl (fr + 1) ids.
Proof. intros []. split; try done. cbn [set_front FRONT]. by apply index_moves. Qed.

(** ** The invariant *)

Definition placed (m : shared) (th : thread location) : Prop :=
  Z.of_nat (iter (point th)) <= rounds (who (point th)) /\
  (at_ (point th) <> BeforeFirst -> Z.of_nat (iter (point th)) < rounds (who (point th))) /\
  (at_ (point th) = BeforeAccess \/ at_ (point th) = BeforeStore -> reg (point th) = index_of (who (point th)) m) /\
  match doing th with
  | Runs => True
  | Waits c p' => code (point th) m = Call c p' /\ (at_ (point th) = BeforeFirst \/ at_ (point th) = BeforeMutex)
  | Ended => at_ (point th) = BeforeFirst /\ Z.of_nat (iter (point th)) = rounds (who (point th))
  end.

Record counted (log : list event) (T : gmap nat (thread location)) : Prop := {
  co_mutex : units SEM_MUTEX log = 1 + count all 7 T /\ taken SEM_MUTEX log = count all 2 T;
  co_empty : units SEM_EMPTY log = Z.of_nat BUFFER_SIZE + count consumers 8 T /\ taken SEM_EMPTY log = count producers 1 T;
  co_avail : units SEM_AVAIL log = count producers 8 T /\ taken SEM_AVAIL log = count consumers 1 T;
}.

Record buffered (w : uworld location shared) : Prop := {
  bu_good : good w;
  bu_place t th : threads w !! t = Some th -> placed (memory w) th;
  bu_roles g : total (fun p => g (who p)) (threads w) + sum_of g (pending (memory w)) = sum_of g crew;
  bu_counts : counted (snd (kw w)) (threads w);
  bu_memory : buffer_holds (memory w) (count producers 4 (threads w)) (count consumers 4 (threads w))
    (count producers 6 (threads w)) (count consumers 6 (threads w)) (fun id => count (only id) 4 (threads w));
}.

Context (Hdistinct : SEM_MUTEX <> SEM_EMPTY /\ SEM_MUTEX <> SEM_AVAIL /\ SEM_EMPTY <> SEM_AVAIL).
Context (Hlimit : 2 + Z.of_nat BUFFER_SIZE + 2 * Z.of_nat (PRODUCER_COUNT * NUMBER_PER_PRODUCER) < limit).

Lemma started_buffered w : started w -> buffered w.
Proof.
  intros [Hg HT Hm He Ha Hmem]. assert (H0 : forall n sel, count sel n (threads w) = 0) by (intros; by rewrite HT). split.
  - done.
  - intros t th. by rewrite HT, lookup_empty.
  - intros g. by rewrite HT, Hmem.
  - split; rewrite !H0; lia.
  - rewrite Hmem. apply (buffer_ext _ 0 0 0 0 (fun _ => 0)); [|by rewrite H0..|by intros id; rewrite H0].
    split; cbn; try done; try lia. by rewrite length_replicate.
Qed.

(** No more than the rounds. *)
Definition due (sel : role -> bool) (r : role) : Z := if sel r then rounds r else 0.

Lemma due_nonneg sel r : 0 <= due sel r.
Proof. unfold due, rounds. case_match; lia. Qed.

Lemma passed_due sel n m th : placed m th -> (1 <= n)%nat -> some_of sel (passed n) (point th) <= due sel (who (point th)).
Proof.
  intros (Hi & Hj & _) Hn. unfold some_of, due, passed. destruct (sel _); [|lia]. destruct (decide (at_ (point th) = BeforeFirst)) as [E|Hne].
  - rewrite E. destruct n; [lia|]. cbn. lia.
  - specialize (Hj Hne). case_match; lia.
Qed.

Lemma count_due w sel n : buffered w -> (1 <= n)%nat -> count sel n (threads w) <= sum_of (due sel) crew.
Proof.
  intros Hb Hn. rewrite <- (bu_roles _ Hb). pose proof (sum_nonneg (due sel) (pending (memory w)) (due_nonneg sel)) as Hnn.
  enough (count sel n (threads w) <= total (fun p => due sel (who p)) (threads w)) by lia.
  apply total_le. intros t th Ht. eapply passed_due; [by eapply bu_place|done].
Qed.

Lemma count_bound w sel n : buffered w -> (1 <= n)%nat -> count sel n (threads w) <= 2 * Z.of_nat (PRODUCER_COUNT * NUMBER_PER_PRODUCER).
Proof.
  intros Hb Hn. transitivity (sum_of (due sel) crew); [by apply count_due|]. rewrite <- sum_rounds. unfold sum_of.
  induction crew as [|r l IH]; [done|]. cbn [foldr]. unfold due, rounds in *. case_match; lia.
Qed.

Lemma buffered_disciplined w : buffered w -> disciplined code w.
Proof.
  intros Hb t p c p' _ _ Hc. pose proof (count_bound w all 7 Hb ltac:(lia)). pose proof (count_bound w consumers 8 Hb ltac:(lia)).
  pose proof (count_bound w producers 8 Hb ltac:(lia)). destruct (bu_counts _ Hb) as [[Hm _] [He _] [Ha _]].
  unfold code in Hc. destruct p as [[id|] i g []]; cbn in Hc; repeat case_match; try done; injection Hc as <- <-; cbn; try done; lia.
Qed.

(** What has been given is at least what was taken. *)
Lemma within w s : buffered w -> our_sem s -> taken s (snd (kw w)) <= units s (snd (kw w)).
Proof.
  intros Hb Hs. pose proof (bu_good _ Hb) as Hg. destruct (go_sem _ _ _ Hg s Hs) as [x Hx]. pose proof (inv_sem _ (go_inv _ _ _ Hg) s) as Hl. rewrite Hx in Hl.
  destruct Hl as (_ & Hsum & Hq). pose proof (handed_nonneg (KDown s) (fst (kw w))). lia.
Qed.

(** The placement of a thread that moves on. *)
Lemma placed_onward m m' th i :
  placed m th -> (at_ (point th) = BeforeFirst -> Z.of_nat (iter (point th)) < rounds (who (point th))) ->
  (at_ (onward i (point th)) = BeforeAccess \/ at_ (onward i (point th)) = BeforeStore -> i = index_of (who (point th)) m') ->
  placed m' (mkThread (onward i (point th)) Runs).
Proof.
  intros (H1 & H2 & _) H3 Hi. unfold placed. cbn [point doing]. rewrite who_onward.
  assert (Z.of_nat (iter (point th)) < rounds (who (point th))) by (destruct (decide (at_ (point th) = BeforeFirst)); auto).
  unfold onward in *. destruct (at_ (point th)); cbn [who iter at_ reg] in *; split_and!; try done; lia.
Qed.

(** The other threads, when the indices are what they were or they are not in the critical
    section. *)
Lemma placed_memory m m' th :
  placed m th -> (TAIL m' = TAIL m /\ FRONT m' = FRONT m) \/ ~ (2 <= step_of (at_ (point th)) < 7)%nat -> placed m' th.
Proof.
  intros (H1 & H2 & H3 & H4) Hm. split_and!; [done|done| |].
  - intros Ha. destruct Hm as [[E1 E2]|Hm]; [|exfalso; apply Hm; destruct Ha as [-> | ->]; cbn; lia]. rewrite H3 by done. unfold index_of. by rewrite E1, E2.
  - destruct (doing th); [done| |done]. destruct H4 as [Hc Ha]. split; [|done]. by apply (code_call _ m).
Qed.

(** ** Every step keeps it *)

(** A thread changes what it is doing, not where it is. *)
Lemma stays w k' log' t th md :
  buffered w -> good (mkU (k', log') (<[t := mkThread (point th) md]> (threads w)) (memory w)) -> threads w !! t = Some th ->
  placed (memory w) (mkThread (point th) md) -> (forall s, our_sem s -> units s log' = units s (snd (kw w)) /\ taken s log' = taken s (snd (kw w))) ->
  buffered (mkU (k', log') (<[t := mkThread (point th) md]> (threads w)) (memory w)).
Proof.
  intros [_ Hp Hr [Hm He Ha] Hmem] Hg Ht Hpl Hlog. unfold count in *. split; cbn [kw threads memory snd].
  - done.
  - intros t' th'. destruct (decide (t = t')) as [<-|Hne]; [rewrite lookup_insert_eq; by intros [= <-]|]. rewrite lookup_insert_ne by done. apply Hp.
  - intros g. by rewrite total_stays.
  - destruct (Hlog SEM_MUTEX) as [Eu0 Et0]; [by left|]. destruct (Hlog SEM_EMPTY) as [Eu1 Et1]; [by right; left|]. destruct (Hlog SEM_AVAIL) as [Eu2 Et2]; [by right; right|].
    split; unfold count; rewrite !total_stays by done; by rewrite ?Eu0, ?Et0, ?Eu1, ?Et1, ?Eu2, ?Et2.
  - unfold count. eapply buffer_ext; [exact Hmem|..]; intros; by rewrite total_stays.
Qed.

(** A thread moves on. *)
Lemma moves w k' log' t th i m' :
  buffered w -> good (mkU (k', log') (<[t := mkThread (onward i (point th)) Runs]> (threads w)) m') -> threads w !! t = Some th ->
  (at_ (point th) = BeforeFirst -> Z.of_nat (iter (point th)) < rounds (who (point th))) -> pending m' = pending (memory w) ->
  (at_ (onward i (point th)) = BeforeAccess \/ at_ (onward i (point th)) = BeforeStore -> i = index_of (who (point th)) m') ->
  (forall t' th', t' <> t -> threads w !! t' = Some th' ->
     (TAIL m' = TAIL (memory w) /\ FRONT m' = FRONT (memory w)) \/ ~ (2 <= step_of (at_ (point th')) < 7)%nat) ->
  let T' := <[t := mkThread (onward i (point th)) Runs]> (threads w) in
  counted log' T' ->
  buffer_holds m' (count producers 4 T') (count consumers 4 T') (count producers 6 T') (count consumers 6 T') (fun id => count (only id) 4 T') ->
  buffered (mkU (k', log') T' m').
Proof.
  intros Hb Hg Ht Hf Hpe Hi Hoth T' Hc Hm. split; cbn [kw threads memory snd]; [done| | |done|done].
  - intros t' th'. unfold T'. destruct (decide (t = t')) as [<-|Hne].
    + rewrite lookup_insert_eq. intros [= <-]. eapply placed_onward; [by eapply bu_place|done|done].
    + rewrite lookup_insert_ne by done. intros Ht'. eapply placed_memory; [by eapply bu_place|by eapply Hoth].
  - intros g. unfold T'. rewrite (total_update _ _ t th) by done. cbn [point]. rewrite who_onward, Hpe, <- (bu_roles _ Hb g). lia.
Qed.

Definition gives (s : nat) (c : call) : Z := match c with CUp s' => if decide (s' = s) then 1 else 0 | _ => 0 end.
Definition takes (s : nat) (c : call) : Z := match c with CDown s' => if decide (s' = s) then 1 else 0 | _ => 0 end.

(** A call returns. *)
Lemma passes w k' log' t th c p' :
  buffered w -> good (mkU (k', log') (<[t := mkThread p' Runs]> (threads w)) (memory w)) -> threads w !! t = Some th ->
  code (point th) (memory w) = Call c p' ->
  (forall s, our_sem s -> units s log' = units s (snd (kw w)) + gives s c /\ taken s log' = taken s (snd (kw w)) + takes s c) ->
  buffered (mkU (k', log') (<[t := mkThread p' Runs]> (threads w)) (memory w)).
Proof.
  intros Hb Hg Ht Hc Hlog. destruct (code_call _ _ _ _ Hc) as (-> & Hcall & Hfirst & _). pose proof (bu_counts _ Hb) as [[Hm1 Hm2] [He1 He2] [Ha1 Ha2]].
  pose proof (Hlog SEM_MUTEX (or_introl eq_refl)) as [L1 L2]. pose proof (Hlog SEM_EMPTY (or_intror (or_introl eq_refl))) as [L3 L4].
  pose proof (Hlog SEM_AVAIL (or_intror (or_intror eq_refl))) as [L5 L6]. destruct Hdistinct as (D1 & D2 & D3). clear Hlog.
  apply moves; [done|done|done|done|done| |by left|..].
  - intros [E|E]; unfold onward in E; destruct th as [[r i g []] md]; done.
  - split; rewrite !(count_onward _ _ _ _ t th) by (done || lia); destruct th as [[[id|] i g []] md]; cbn in Hcall |- *; try done;
      injection Hcall as <-; cbn in L1, L2, L3, L4, L5, L6; repeat case_decide; (congruence || lia).
  - assert (Hst : step_of (at_ (point th)) <> 3%nat /\ step_of (at_ (point th)) <> 5%nat).
    { destruct th as [[[id|] i g []] md]; cbn in Hcall |- *; done. }
    assert (Hsame : forall sel n, n = 4%nat \/ n = 6%nat -> count sel n (<[t := mkThread (onward (reg (point th)) (point th)) Runs]> (threads w)) = count sel n (threads w)).
    { intros sel n Hn. rewrite (count_onward _ _ _ _ t th) by (done || lia). rewrite (proj2 (Nat.eqb_neq _ _)) by lia. rewrite andb_false_r. lia. }
    eapply buffer_ext; [exact (bu_memory _ Hb)|..]; intros; apply Hsame; auto.
Qed.

(** A memory access. *)
Lemma accesses w t th m' p' :
  buffered w -> good (mkU (kw w) (<[t := mkThread p' Runs]> (threads w)) m') -> threads w !! t = Some th ->
  code (point th) (memory w) = Compute m' p' ->
  buffered (mkU (kw w) (<[t := mkThread p' Runs]> (threads w)) m').
Proof.
  intros Hb Hg Ht Hc. destruct (code_compute _ _ _ _ Hc) as (Ep & Hpe & Hin & Hreg). pose proof (bu_memory _ Hb) as Hm.
  pose proof (bu_counts _ Hb) as [[Hm1 Hm2] [He1 He2] [Ha1 Ha2]].
  pose proof (within w SEM_MUTEX Hb (or_introl eq_refl)) as W1. pose proof (within w SEM_EMPTY Hb (or_intror (or_introl eq_refl))) as W2.
  pose proof (within w SEM_AVAIL Hb (or_intror (or_intror eq_refl))) as W3. rewrite Hm1, Hm2 in W1. rewrite He1, He2 in W2. rewrite Ha1, Ha2 in W3.
  destruct (bu_place _ Hb t th Ht) as (_ & _ & Hidx & _). set (i := reg p') in *. clearbody i. subst p'.
  destruct (kw w) as [k log] eqn:Ekw. cbn [snd] in *. set (T := threads w) in *.
  apply moves; [done|done|done| |done|done| |..].
  - intros Hat. rewrite Hat in Hin. cbn in Hin. lia.
  - intros t' th' Hne Ht'. right. eapply one_inside; [exact Ht|done|done|lia|done].
  - fold T. split; rewrite !(count_onward _ _ _ _ t th) by (done || lia); destruct th as [[[id|] j g []] md]; cbn in Hin |- *; lia.
  - fold T. assert (Hon : forall sel n, (1 <= n <= 8)%nat -> _) by exact (fun sel n => count_onward i sel n T t th Runs Ht).
    destruct th as [[[id|] j g []] md]; cbn in Hin; try lia; cbn in Hc, Hidx; injection Hc as <- <-; cbn [point who at_ step_of] in Hon.
    + eapply buffer_ext; [exact Hm|..]; intros; rewrite Hon by lia; cbn; rewrite ?andb_false_r; lia.
    + pose proof (Hidx (or_introl eq_refl)) as Eg. cbn [index_of producers] in Eg. rewrite Eg in Hon |- *.
      pose proof (count_exclusive producers T t _ Ht eq_refl ltac:(lia)) as E. rewrite <- E in Hm.
      pose proof (count_gap producers 1 4 T t _ Ht eq_refl ltac:(cbn; lia) ltac:(cbn; lia)) as G.
      pose proof (count_falls consumers 4 8 T ltac:(lia)) as G2.
      eapply buffer_ext; [apply (stores _ _ _ _ _ id Hm); lia|..]; intros; rewrite Hon by lia; cbn; try lia.
      rewrite only_producer, andb_true_r. case_bool_decide; case_decide; done.
    + eapply buffer_ext; [exact Hm|..]; intros; rewrite Hon by lia; cbn; rewrite ?andb_false_r; lia.
    + pose proof (Hidx (or_intror eq_refl)) as Eg. cbn [index_of producers] in Eg. rewrite Eg in Hon |- *.
      eapply buffer_ext; [apply (moves_tail _ _ _ _ _ _ Hm)|..]; intros; rewrite Hon by lia; cbn; rewrite ?andb_false_r; lia.
    + eapply buffer_ext; [exact Hm|..]; intros; rewrite Hon by lia; cbn; rewrite ?andb_false_r; lia.
    + pose proof (Hidx (or_introl eq_refl)) as Eg. cbn [index_of producers] in Eg. rewrite Eg in Hon |- *.
      pose proof (count_exclusive consumers T t _ Ht eq_refl ltac:(lia)) as E. rewrite <- E in Hm.
      pose proof (count_gap consumers 1 4 T t _ Ht eq_refl ltac:(cbn; lia) ltac:(cbn; lia)) as G.
      pose proof (count_falls producers 4 8 T ltac:(lia)) as G2.
      eapply buffer_ext; [apply (prints _ _ _ _ _ Hm); lia|..]; intros; rewrite Hon by lia; cbn; rewrite ?only_consumer; cbn; lia.
    + eapply buffer_ext; [exact Hm|..]; intros; rewrite Hon by lia; cbn; rewrite ?andb_false_r; lia.
    + pose proof (Hidx (or_intror eq_refl)) as Eg. cbn [index_of producers] in Eg. rewrite Eg in Hon |- *.
      eapply buffer_ext; [apply (moves_front _ _ _ _ _ _ Hm)|..]; intros; rewrite Hon by lia; cbn; rewrite ?only_consumer; cbn; lia.
Qed.

Lemma code_exit p m : code p m = Exit -> at_ p = BeforeFirst /\ rounds (who p) <= Z.of_nat (iter p).
Proof.
  unfold code, rounds. destruct p as [[id|] i g []]; cbn -[Nat.ltb Nat.mul]; try done;
    match goal with |- context [(?a <? ?b)%nat] => destruct (Nat.ltb_spec a b) end; try done; intros _; split; done || lia.
Qed.

(** The log of a call of the program. *)
Lemma call_logged p m c p' k t log s :
  code p m = Call c p' ->
  units s (after_call t c ++ before_call t c k ++ log) = units s log + gives s c /\
  taken s (after_call t c ++ before_call t c k ++ log) = taken s log + takes s c.
Proof.
  intros Hc. destruct (code_call _ _ _ _ Hc) as (_ & Hcall & _). destruct (at_ p); cbn in Hcall; try done; injection Hcall as <-; cbn; lia.
Qed.

(** [main] creates a thread. *)
Lemma creates w k' t p m' :
  buffered w -> good (mkU (k', snd (kw w)) (<[t := mkThread p Runs]> (threads w)) m') -> threads w !! t = None -> born (memory w) = Some (p, m') ->
  buffered (mkU (k', snd (kw w)) (<[t := mkThread p Runs]> (threads w)) m').
Proof.
  intros Hb Hg Ht Hbo. unfold born in Hbo. destruct (pending (memory w)) as [|r rest] eqn:Epe; [done|]. injection Hbo as <- <-.
  assert (Hc : forall sel n, (1 <= n)%nat -> count sel n (<[t := mkThread (mkLoc r 0 0 BeforeFirst) Runs]> (threads w)) = count sel n (threads w)).
  { intros sel n Hn. unfold count. rewrite total_new by done. unfold some_of, passed. cbn. destruct n; [lia|]. cbn. case_match; lia. }
  destruct Hb as [_ Hp Hr [Hm He Ha] Hmem]. split; cbn [kw snd threads memory pending].
  - done.
  - intros t' th'. destruct (decide (t = t')) as [<-|Hne].
    + rewrite lookup_insert_eq. intros [= <-]. unfold placed, rounds. cbn. split_and!; [lia|done|naive_solver|done].
    + rewrite lookup_insert_ne by done. intros Ht'. eapply placed_memory; [by eapply Hp|by left].
  - intros g. rewrite total_new by done. cbn [point who]. rewrite <- (Hr g), Epe. unfold sum_of. cbn [foldr]. lia.
  - split; by rewrite !Hc by lia.
  - eapply buffer_ext; [|intros; apply Hc; lia..]. by destruct Hmem.
Qed.

Lemma buffered_step w w' : buffered w -> ustep w w' -> buffered w'.
Proof.
  intros Hb Hs. destruct (ustep_effect _ _ _ _ _ w w' (bu_good _ Hb) (buffered_disciplined w Hb) Hs) as [Hg He]. clear Hs.
  destruct He as [w t p m' p' Ht Hc|w t p c p' k' b Ht Hc Hsus|w t p c p' k' Ht|w t p k' Ht Hc|w t p k' m' Ht Hbo|w k' log' Hq].
  - by apply (accesses w t (mkThread p Runs)).
  - destruct b.
    + apply (passes w _ _ t (mkThread p Runs) c); try done. intros s _. by eapply call_logged.
    + destruct (Hsus eq_refl) as [kc Hkc]. destruct (code_call _ _ _ _ Hc) as (_ & Hcall & _). apply (stays w _ _ t (mkThread p Runs)); try done.
      * destruct (bu_place _ Hb t _ Ht) as (H1 & H2 & H3 & _). split_and!; [done|done|done|]. split; [done|]. cbn [point].
        destruct (at_ p); cbn in Hcall; try done; auto; injection Hcall as <-; by cbn in Hkc.
      * intros s _. destruct (at_ p); cbn in Hcall; try done; injection Hcall as <-; done.
  - destruct (bu_place _ Hb t _ Ht) as (H1 & H2 & _ & Hc & Hat). cbn [point] in *. apply (passes w _ _ t (mkThread p (Waits c p')) c); try done.
    intros s _. destruct (code_call _ _ _ _ Hc) as (_ & Hcall & _). destruct Hat as [E|E]; rewrite E in Hcall; injection Hcall as <-; cbn; lia.
  - apply (stays w _ _ t (mkThread p Runs)); try done. destruct (code_exit _ _ Hc) as [Ha Hr]. destruct (bu_place _ Hb t _ Ht) as (H1 & H2 & H3 & _).
    cbn [point] in *. split_and!; [done|done|done|]. split; [done|]. cbn [point]. lia.
  - by apply (creates w k' t p m').
  - destruct Hq as [Hq _]. destruct Hb as [_ Hp Hr [Hm He Ha] Hmem]. split; try done. cbn [kw snd threads].
    destruct (Hq SEM_MUTEX) as [Eu0 Et0]; [by left|]. destruct (Hq SEM_EMPTY) as [Eu1 Et1]; [by right; left|]. destruct (Hq SEM_AVAIL) as [Eu2 Et2]; [by right; right|].
    split; by rewrite ?Eu0, ?Et0, ?Eu1, ?Et1, ?Eu2, ?Et2.
Qed.

Lemma buffered_steps w w' : buffered w -> rtc ustep w w' -> buffered w'.
Proof. intros Hb Hs. induction Hs as [|w w1 w' Hs _ IH]; [done|]. apply IH. by eapply buffered_step. Qed.

(** ** No deadlock *)

Definition ended (T : gmap nat (thread location)) : Prop := forall t th, T !! t = Some th -> doing th = Ended.

(** All threads at the start of a round: every statement was passed equally often. *)
Lemma count_rest sel n m T :
  (forall t th, T !! t = Some th -> at_ (point th) = BeforeFirst) -> (1 <= n)%nat -> (1 <= m)%nat -> count sel n T = count sel m T.
Proof.
  intros H Hn Hm. apply total_ext. intros t th Ht. unfold some_of, passed. rewrite (H t th Ht). destruct n, m; try lia. done.
Qed.

(** The threads with a role in [sel] have ended, and all have been created. *)
Lemma count_ended sel n w :
  buffered w -> pending (memory w) = [] -> (forall t th, threads w !! t = Some th -> sel (who (point th)) = true -> doing th = Ended) -> (1 <= n)%nat ->
  count sel n (threads w) = sum_of (due sel) crew.
Proof.
  intros Hb Hpe He Hn. rewrite <- (bu_roles _ Hb), Hpe. cbn [sum_of foldr]. rewrite Z.add_0_r. apply total_ext. intros t th Ht. destruct (bu_place _ Hb t th Ht) as (_ & _ & _ & H).
  unfold some_of, passed, due. destruct (sel (who (point th))) eqn:Es; [|done].
  rewrite (He t th Ht Es) in H. destruct H as [-> H]. destruct n; [lia|]. cbn. lia.
Qed.

(** One of them has not. *)
Lemma count_short sel w t th :
  buffered w -> threads w !! t = Some th -> sel (who (point th)) = true -> at_ (point th) = BeforeFirst ->
  Z.of_nat (iter (point th)) < rounds (who (point th)) -> count sel 1 (threads w) + 1 <= sum_of (due sel) crew.
Proof.
  intros Hb Ht Hs Ha Hi. rewrite <- (bu_roles _ Hb). pose proof (sum_nonneg (due sel) (pending (memory w)) (due_nonneg sel)) as Hnn.
  pose proof (total_le_but (some_of sel (passed 1)) (fun p => due sel (who p)) (threads w) t th Ht) as H.
  assert (E : some_of sel (passed 1) (point th) + 1 <= due sel (who (point th))).
  { unfold some_of, due, passed. rewrite Hs, Ha. cbn. lia. }
  unfold count. enough (total (some_of sel (passed 1)) (threads w) - some_of sel (passed 1) (point th) <=
    total (fun p => due sel (who p)) (threads w) - due sel (who (point th))) by lia.
  apply H. intros t' th' Ht'. eapply passed_due; [by eapply bu_place|lia].
Qed.

Lemma due_producers : sum_of (due producers) crew = Z.of_nat (PRODUCER_COUNT * NUMBER_PER_PRODUCER).
Proof.
  unfold crew. rewrite sum_app, sum_producers, (sum_same (fun id => due producers (Producer id)) (Z.of_nat NUMBER_PER_PRODUCER)) by done. unfold sum_of, due, rounds. cbn [foldr producers]. lia.
Qed.

Lemma due_consumers : sum_of (due consumers) crew = Z.of_nat (PRODUCER_COUNT * NUMBER_PER_PRODUCER).
Proof.
  unfold crew. rewrite sum_app, sum_producers, (sum_same (fun id => due consumers (Producer id)) 0) by done. unfold sum_of, due, rounds. cbn [foldr consumers producers negb]. lia.
Qed.

(** Where the threads are when none can go on. *)
Lemma stalled_at w t th :
  buffered w -> stalled w -> threads w !! t = Some th ->
  (doing th = Ended /\ at_ (point th) = BeforeFirst) \/
  exists s, our_sem s /\ call_of (who (point th)) (at_ (point th)) = Some (CDown s) /\ taken s (snd (kw w)) = units s (snd (kw w)) /\
    (at_ (point th) = BeforeFirst -> Z.of_nat (iter (point th)) < rounds (who (point th))).
Proof.
  intros Hb Hst Ht. destruct (bu_place _ Hb t th Ht) as (_ & _ & _ & H). destruct th as [p md]. cbn [doing point] in *. destruct md as [|c p'|].
  - exfalso. eapply stalled_not_running; [by apply bu_good|done|done].
  - right. destruct H as [Hc Hat]. destruct (code_call _ _ _ _ Hc) as (_ & Hcall & Hi & _).
    assert (Hd : exists s, c = CDown s /\ our_sem s).
    { destruct Hat as [E|E]; rewrite E in Hcall; cbn in Hcall; injection Hcall as <-; eexists; (split; [done|]); unfold our_sem; try case_match; auto. }
    destruct Hd as (s & -> & Hs). exists s. split_and!; [done|done| |done]. eapply stalled_down; [by apply bu_good|done|done|done].
  - left. by destruct H.
Qed.

Lemma stalled_rest w : buffered w -> stalled w -> forall t th, threads w !! t = Some th -> at_ (point th) = BeforeFirst.
Proof.
  intros Hb Hst t th Ht. destruct (stalled_at w t th Hb Hst Ht) as [[_ H]|(s & Hs & Hcall & Hall & _)]; [done|].
  destruct (decide (at_ (point th) = BeforeFirst)) as [|Hne]; [done|]. exfalso.
  assert (s = SEM_MUTEX) as -> by (by destruct (at_ (point th)); cbn in Hcall; try done; injection Hcall as <-).
  destruct (bu_counts _ Hb) as [[H1 H2] _ _]. rewrite H1, H2 in Hall.
  assert (E : count all 2 (threads w) = count all 7 (threads w)); [|lia].
  apply total_ext. intros t' th' Ht'. unfold some_of, passed. destruct (stalled_at w t' th' Hb Hst Ht') as [[_ ->]|(s' & _ & Hc' & _)]; [done|].
  destruct (at_ (point th')); cbn in Hc'; done.
Qed.

(** A program that cannot go on is at its end. *)
Lemma stalled_ended w : buffered w -> pending (memory w) = [] -> stalled w -> ended (threads w).
Proof.
  intros Hb Hpe Hst. pose proof (stalled_rest w Hb Hst) as Hrest. destruct (bu_counts _ Hb) as [_ [He1 He2] [Ha1 Ha2]].
  rewrite (count_rest consumers 8 1 _ Hrest) in He1 by lia. rewrite (count_rest producers 8 1 _ Hrest) in Ha1 by lia.
  set (P := count producers 1 (threads w)) in *. set (C := count consumers 1 (threads w)) in *.
  assert (HP : P <= Z.of_nat (PRODUCER_COUNT * NUMBER_PER_PRODUCER)) by (rewrite <- due_producers; by apply count_due).
  assert (Hwait : forall t th, threads w !! t = Some th -> doing th <> Ended ->
    (producers (who (point th)) = true -> P = Z.of_nat BUFFER_SIZE + C) /\
    (consumers (who (point th)) = true -> C = P /\ C + 1 <= Z.of_nat (PRODUCER_COUNT * NUMBER_PER_PRODUCER))).
  { intros t th Ht Hne. destruct (stalled_at w t th Hb Hst Ht) as [[]|(s & _ & Hcall & Hall & Hi)]; [done|].
    pose proof (Hrest t th Ht) as Hat. specialize (Hi Hat). rewrite Hat in Hcall. cbn in Hcall. split; intros Hr.
    - rewrite Hr in Hcall. injection Hcall as <-. lia.
    - split; [|rewrite <- due_consumers; by eapply count_short].
      unfold consumers in Hr. apply negb_true_iff in Hr. rewrite Hr in Hcall. injection Hcall as <-. lia. }
  assert (Hcons : forall t th, threads w !! t = Some th -> producers (who (point th)) = true -> doing th = Ended).
  { intros t th Ht Hr. destruct (doing th) eqn:Ed; [| |done]; exfalso; destruct (Hwait t th Ht ltac:(congruence)) as [H _]; specialize (H Hr).
    all: assert (HC : C = Z.of_nat (PRODUCER_COUNT * NUMBER_PER_PRODUCER)); [|lia]. all: rewrite <- due_consumers; apply count_ended; [done|done| |lia].
    all: intros t' th' Ht' Hr'; destruct (doing th') eqn:Ed'; [| |done]; destruct (Hwait t' th' Ht' ltac:(congruence)) as [_ H']; specialize (H' Hr'); lia. }
  intros t th Ht. destruct (producers (who (point th))) eqn:Er; [by apply (Hcons t)|].
  destruct (doing th) eqn:Ed; [| |done]; exfalso; destruct (Hwait t th Ht ltac:(congruence)) as [_ H]; unfold consumers in H; rewrite Er in H; specialize (H eq_refl).
  all: assert (HP' : P = Z.of_nat (PRODUCER_COUNT * NUMBER_PER_PRODUCER)) by (rewrite <- due_producers; apply count_ended; [done|done|done|lia]); lia.
Qed.

(** ** What has been printed *)

Lemma sum_only id a i n :
  foldr (fun id' z => (if only id (Producer id') then a else 0) + z) 0 (seq i n) = if decide (i <= id < i + n)%nat then a else 0.
Proof.
  revert i. induction n as [|n IH]; intros i; cbn [seq foldr]; [by rewrite decide_False by lia|]. rewrite IH, only_producer.
  case_bool_decide; repeat case_decide; lia.
Qed.

Lemma due_only id : sum_of (due (only id)) crew = if decide (id < PRODUCER_COUNT)%nat then Z.of_nat NUMBER_PER_PRODUCER else 0.
Proof.
  unfold crew, due. rewrite sum_app, sum_producers, (sum_only id (Z.of_nat NUMBER_PER_PRODUCER)). unfold sum_of. cbn [foldr]. rewrite only_consumer.
  repeat case_decide; lia.
Qed.

Lemma unread_in_buffer w :
  buffered w ->
  let m := memory w in
  (FRONT m < length (BUFFER m))%nat /\ (TAIL m < length (BUFFER m))%nat /\
  exists unread, written m = printed m ++ unread /\ (length unread <= BUFFER_SIZE)%nat /\
    forall i x, unread !! i = Some x -> BUFFER m !! ((length (printed m) + i) mod BUFFER_SIZE)%nat = Some x.
Proof.
  intros Hb m. destruct (bu_memory _ Hb) as [Hw Hr Ht Hf Hs Ho Hroom Hsl _]. fold m in Hw, Hr, Ht, Hf, Hs, Ho, Hsl.
  pose proof (Z.mod_pos_bound (count producers 6 (threads w)) (Z.of_nat BUFFER_SIZE) ltac:(lia)) as B1.
  pose proof (Z.mod_pos_bound (count consumers 6 (threads w)) (Z.of_nat BUFFER_SIZE) ltac:(lia)) as B2. split_and!; [lia|lia|].
  exists (drop (length (printed m)) (written m)). split_and!.
  - rewrite Ho at 1. by rewrite take_drop.
  - rewrite length_drop. lia.
  - intros i x. rewrite lookup_drop. intros Hx. apply Hsl; [lia|done].
Qed.

Lemma all_printed w :
  buffered w -> pending (memory w) = [] -> ended (threads w) ->
  printed (memory w) = written (memory w) /\
  forall id, length (filter (fun x => x = id) (printed (memory w))) = if decide (id < PRODUCER_COUNT)%nat then NUMBER_PER_PRODUCER else 0%nat.
Proof.
  intros Hb Hpe He. assert (Hc : forall sel, count sel 4 (threads w) = sum_of (due sel) crew).
  { intros sel. apply count_ended; [done|done| |lia]. intros t th Ht _. by apply (He t). }
  destruct (bu_memory _ Hb) as [Hw Hr _ _ _ Ho _ _ Hi]. rewrite Hc, due_producers in Hw. rewrite Hc, due_consumers in Hr.
  assert (E : printed (memory w) = written (memory w)) by (rewrite Ho; apply take_ge; lia).
  split; [done|]. intros id. rewrite E. specialize (Hi id). rewrite Hc, due_only in Hi. case_decide; lia.
Qed.
End mpsc.

(** ** The program *)

(** The first lines of [main], on the kernel. *)
Definition create_semaphores (BUFFER_SIZE main : nat) (w : world) : res world :=
  w ← run_call main (CNewSemaphore 1) w;
  w ← run_call main (CNewSemaphore (Z.of_nat BUFFER_SIZE)) w;
  run_call main (CNewSemaphore 0) w.

(** The statics when the program starts. *)
Definition statics (BUFFER_SIZE PRODUCER_COUNT : nat) : shared :=
  mkShared (replicate BUFFER_SIZE 0%nat) 0 0 [] [] (crew PRODUCER_COUNT).

(** The steps of the program; its semaphores are the three objects from [s] on. *)
Definition mpsc_step (s BUFFER_SIZE NUMBER_PER_PRODUCER PRODUCER_COUNT : nat) : uworld location shared -> uworld location shared -> Prop :=
  ustep (code s (S s) (S (S s)) BUFFER_SIZE NUMBER_PER_PRODUCER PRODUCER_COUNT) born (fun _ => False) (our_sem s (S s) (S (S s))) (fun _ => False).

Lemma three_distinct (n : nat) : n <> S n /\ n <> S (S n) /\ S n <> S (S n).
Proof. lia. Qed.

Section run.
Context (BUFFER_SIZE NUMBER_PER_PRODUCER PRODUCER_COUNT : nat) (main : nat) (w0 w1 : world).
#[local] Abbreviation s := (length (semaphores (fst w0))).

Lemma create_started :
  inv w0 -> known (fst w0) -> current (fst w0) = Some main -> Z.of_nat BUFFER_SIZE < limit -> create_semaphores BUFFER_SIZE main w0 = Ok w1 ->
  started s (S s) (S (S s)) BUFFER_SIZE PRODUCER_COUNT (mkU w1 ∅ (statics BUFFER_SIZE PRODUCER_COUNT)).
Proof.
  intros Hi Hkn Hc Hl E. destruct w0 as [k0 log0]. cbn [fst] in *. unfold create_semaphores in E.
  apply res_bind_Ok in E as ([ka la] & Ea & E). apply res_bind_Ok in E as ([kb lb] & Eb & Ec).
  destruct (new_semaphore main 1 k0 log0 _ Hi Hc ltac:(unfold limit; lia) Ea) as (Hia & Ela & Hna & Hca & Hka & Hpa). cbn [fst snd] in *.
  destruct (new_semaphore main (Z.of_nat BUFFER_SIZE) ka la _ Hia Hca ltac:(lia) Eb) as (Hib & Elb & Hnb & Hcb & Hkb & Hpb). cbn [fst snd] in *.
  destruct (new_semaphore main 0 kb lb _ Hib Hcb ltac:(unfold limit; lia) Ec) as (Hi1 & El1 & Hn1 & Hc1 & Hk1 & Hp1). destruct w1 as [k1 log1]. cbn [fst snd] in *.
  rewrite Hnb, Hna in *. subst lb log1. rewrite Ela in *. set (s := length (semaphores k0)) in *.
  assert (H0 : forall i, (s <= i)%nat -> units i log0 = 0 /\ taken i log0 = 0).
  { intros i Hge. pose proof (inv_sem _ Hi i) as Hl0. cbn [fst snd] in Hl0. rewrite lookup_ge_None_2 in Hl0 by done. naive_solver. }
  split; cbn [kw threads memory snd fst units taken]; try done.
  - split; cbn [kw threads fst]; [done|by intros t th; rewrite lookup_empty| |].
    + intros t kc _ Hin Hk. destruct (decide (t = main)) as [->|Hne]; [by left|]. right. destruct kc; cbn; try tauto.
      rewrite Hp1, Hpb, Hpa in Hin. rewrite Hk1, Hkb, Hka in Hk. destruct (Hkn t _ Hin ltac:(congruence) Hk) as [x Hx].
      apply lookup_lt_Some in Hx. fold s in Hx. unfold our_sem. lia.
    + intros i Hs. apply lookup_lt_is_Some. unfold our_sem in Hs. lia.
  - destruct (H0 s ltac:(lia)) as [-> ->]. repeat case_decide; lia.
  - destruct (H0 (S s) ltac:(lia)) as [-> ->]. repeat case_decide; lia.
  - destruct (H0 (S (S s)) ltac:(lia)) as [-> ->]. repeat case_decide; lia.
Qed.

Lemma run_buffered w :
  (0 < BUFFER_SIZE)%nat -> 2 + Z.of_nat BUFFER_SIZE + 2 * Z.of_nat (PRODUCER_COUNT * NUMBER_PER_PRODUCER) < limit ->
  reachable w0 -> current (fst w0) = Some main -> create_semaphores BUFFER_SIZE main w0 = Ok w1 ->
  rtc (mpsc_step s BUFFER_SIZE NUMBER_PER_PRODUCER PRODUCER_COUNT) (mkU w1 ∅ (statics BUFFER_SIZE PRODUCER_COUNT)) w ->
  buffered s (S s) (S (S s)) BUFFER_SIZE NUMBER_PER_PRODUCER PRODUCER_COUNT w.
Proof.
  intros Hsize Hlim Hr Hc E Hrun.
  apply (buffered_steps s (S s) (S (S s)) BUFFER_SIZE NUMBER_PER_PRODUCER PRODUCER_COUNT Hsize ltac:(lia) Hlim _ _) with (2 := Hrun).
  apply started_buffered; [done|lia|done|]. apply create_started; [by apply reachable_inv|apply (proj2 (reachable_known _ Hr))|done|lia|done].
Qed.
End run.

(** C13: The buffer of mpsc_sem.rs is a queue.  In every interleaving of the producers, the
    consumer, the timer and the rest of the system, on the semaphores of the kernel: the
    indices are in the buffer, the values written are the values printed followed by those not
    yet read, which are at most [BUFFER_SIZE] and are in their slots.  When the threads have
    exited, every value written was printed, in order: [NUMBER_PER_PRODUCER] times the id of
    each producer and nothing else. *)
Theorem mpsc_delivers BUFFER_SIZE NUMBER_PER_PRODUCER PRODUCER_COUNT main w0 w1 w :
  (0 < BUFFER_SIZE)%nat -> 2 + Z.of_nat BUFFER_SIZE + 2 * Z.of_nat (PRODUCER_COUNT * NUMBER_PER_PRODUCER) < limit ->
  reachable w0 -> current (fst w0) = Some main -> create_semaphores BUFFER_SIZE main w0 = Ok w1 ->
  rtc (mpsc_step (length (semaphores (fst w0))) BUFFER_SIZE NUMBER_PER_PRODUCER PRODUCER_COUNT)
    (mkU w1 ∅ (statics BUFFER_SIZE PRODUCER_COUNT)) w ->
  let m := memory w in
  (FRONT m < length (BUFFER m))%nat /\ (TAIL m < length (BUFFER m))%nat /\
  (exists unread, written m = printed m ++ unread /\ (length unread <= BUFFER_SIZE)%nat /\
     forall i x, unread !! i = Some x -> BUFFER m !! ((length (printed m) + i) mod BUFFER_SIZE)%nat = Some x) /\
  (pending m = [] -> ended (threads w) -> printed m = written m /\
     forall id, length (filter (fun x => x = id) (printed m)) = if decide (id < PRODUCER_COUNT)%nat then NUMBER_PER_PRODUCER else 0%nat).
Proof.
  intros Hsize Hlim Hr Hc E Hrun m. pose proof (run_buffered _ _ _ main w0 w1 w Hsize Hlim Hr Hc E Hrun) as Hb.
  destruct (unread_in_buffer _ _ _ _ _ _ Hsize (three_distinct _) Hlim w Hb) as (H1 & H2 & H3).
  split_and!; [done|done|done|]. intros Hpe He. exact (all_printed _ _ _ _ _ _ Hsize (three_distinct _) Hlim w Hb Hpe He).
Qed.

(** C14: mpsc_sem.rs does not deadlock.  Whenever [main] has created its threads and one of
    them has not exited, at least one of them is running or ready. *)
Theorem mpsc_no_deadlock BUFFER_SIZE NUMBER_PER_PRODUCER PRODUCER_COUNT main w0 w1 w :
  (0 < BUFFER_SIZE)%nat -> 2 + Z.of_nat BUFFER_SIZE + 2 * Z.of_nat (PRODUCER_COUNT * NUMBER_PER_PRODUCER) < limit ->
  reachable w0 -> current (fst w0) = Some main -> create_semaphores BUFFER_SIZE main w0 = Ok w1 ->
  rtc (mpsc_step (length (semaphores (fst w0))) BUFFER_SIZE NUMBER_PER_PRODUCER PRODUCER_COUNT)
    (mkU w1 ∅ (statics BUFFER_SIZE PRODUCER_COUNT)) w ->
  pending (memory w) = [] ->
  ended (threads w) \/ exists t th, threads w !! t = Some th /\ (current (fst (kw w)) = Some t \/ t ∈ ready_queue (fst (kw w))).
Proof.
  intros Hsize Hlim Hr Hc E Hrun Hpe. pose proof (run_buffered _ _ _ main w0 w1 w Hsize Hlim Hr Hc E Hrun) as Hb.
  set (goes := fun x : nat * thread location => current (fst (kw w)) = Some x.1 \/ x.1 ∈ ready_queue (fst (kw w))).
  destruct (decide (Exists goes (map_to_list (threads w)))) as [Hex|Hno].
  - right. apply Exists_exists in Hex as ([t th] & Hin & Hg). apply elem_of_map_to_list in Hin. by exists t, th.
  - left. apply (stalled_ended _ _ _ _ _ _ Hsize (three_distinct _) Hlim w Hb Hpe). intros t th Ht.
    assert (Hn : ~ goes (t, th)) by (intros Hg; apply Hno, Exists_exists; exists (t, th); by rewrite elem_of_map_to_list).
    unfold goes in Hn. cbn [fst] in Hn. tauto.
Qed.

(** ** A run with two producers, two values each and a buffer of one *)

Module Demo.
Definition booted : world := (spawn 0 0 (fst boot), []).
Definition w0 : world := Eval vm_compute in world_of (run_dispatch booted).
Definition w1 : world := Eval vm_compute in world_of (create_semaphores 1 0 w0).
Definition start : uworld location shared := mkU w1 ∅ (statics 1 2).
#[local] Abbreviation go := (next (code 0 1 2 1 2 2) born).

(** The main thread creates its threads, every seventh step is a timer interrupt. *)
Definition choose (i : nat) (w : uworld location shared) : act :=
  match current (fst (kw w)) with
  | None => Dispatch
  | Some t =>
      if (i mod 7 =? 3)%nat then Tick 0
      else if bool_decide (is_Some (threads w !! t)) then Go
      else if bool_decide (pending (memory w) = []) then Tick 0 else Create (S (size (threads w))) 0
  end.

Fixpoint drive (n : nat) (w : uworld location shared) : list act :=
  match n with
  | O => []
  | S n' => let a := choose n w in match go a w with Ok w' => a :: drive n' w' | Panic _ => [] end
  end.

Definition acts : list act := Eval vm_compute in drive 160 start.
Definition after (n : nat) : uworld location shared :=
  match play (code 0 1 2 1 2 2) born (take n acts) start with Ok w => w | Panic _ => start end.
Definition middle : uworld location shared := Eval vm_compute in after 60.
Definition final : uworld location shared := Eval vm_compute in after 160.

Lemma w0_reachable : reachable w0.
Proof.
  unfold reachable. eapply rtc_l; [apply (step_spawn _ _ 0 0); [apply not_elem_of_nil|done]|].
  eapply rtc_l; [apply run_dispatch_step; [done|vm_compute; reflexivity]|]. apply rtc_refl.
Qed.

Lemma middle_run : rtc (mpsc_step 0 1 2 2) start middle.
Proof. apply (play_usteps _ _ _ _ _ (take 60 acts)). vm_compute. reflexivity. Qed.
Lemma final_run : rtc (mpsc_step 0 1 2 2) start final.
Proof. apply (play_usteps _ _ _ _ _ acts). vm_compute. reflexivity. Qed.
End Demo.

Lemma mpsc_delivers_witness :
  printed (memory Demo.final) = [0; 1; 0; 1]%nat /\ printed (memory Demo.final) = written (memory Demo.final) /\
  length (filter (fun x => x = 1%nat) (printed (memory Demo.final))) = 2%nat.
Proof.
  destruct (mpsc_delivers 1 2 2 0 Demo.w0 Demo.w1 Demo.final) as (_ & _ & _ & H).
  - lia.
  - unfold limit. lia.
  - apply Demo.w0_reachable.
  - reflexivity.
  - vm_compute. reflexivity.
  - apply Demo.final_run.
  - destruct H as [H1 H2]; [reflexivity| |].
    + intros t th Ht. assert (Hall : bool_decide (Forall (fun x => match doing x.2 with Ended => true | _ => false end = true) (map_to_list (threads Demo.final))) = true) by (vm_compute; reflexivity).
      apply bool_decide_eq_true in Hall. rewrite Forall_forall in Hall. specialize (Hall (t, th) (proj2 (elem_of_map_to_list _ _ _) Ht)). cbn in Hall. by destruct (doing th).
    + split_and!; [reflexivity|exact H1|exact (H2 1%nat)].
Defined.

Lemma mpsc_no_deadlock_witness :
  ended (threads Demo.middle) \/
  exists t th, threads Demo.middle !! t = Some th /\ (current (fst (kw Demo.middle)) = Some t \/ t ∈ ready_queue (fst (kw Demo.middle))).
Proof.
  apply (mpsc_no_deadlock 1 2 2 0 Demo.w0 Demo.w1 Demo.middle).
  - lia.
  - unfold limit. lia.
  - apply Demo.w0_reachable.
  - reflexivity.
  - vm_compute. reflexivity.
  - apply Demo.middle_run.
  - reflexivity.
Defined.
