(* ===== verification/Philosophers.v ===== *)
(** The dining philosophers of user/src/bin/phil_din_mutex.rs on the mutexes of the kernel.

    [fork i] is the object of [Sched] that is mutex [i] of the process.  [main] is one of the
    tasks outside the program: it makes the mutexes by calls and the philosophers by [born], in
    an order that is left open, and a philosopher that comes to [mutex_lock] before the mutex
    is there takes no step.  The times that the program records for its picture are not
    modelled; [clock] is the time at which a philosopher falls asleep and [ms] for how long. *)

From S2P Require Import Prelude Sched KernelThreads.

Section dining.
Context (N ROUND : nat) (clock ms : nat -> nat -> bool -> Z) (fork : nat -> nat).

(** Before the sleep of thinking, [mutex_lock(min)], [mutex_lock(max)], the sleep of eating,
    [mutex_unlock(max)], [mutex_unlock(min)]. *)
Inductive stage := Thinking | BeforeMin | BeforeMax | Eating | BeforeDropMax | BeforeDropMin.
#[export] Instance stage_eq_dec : EqDecision stage.
Proof. solve_decision. Defined.
Record location := mkLoc { id : nat; round : nat; at_ : stage }.

Definition left (id : nat) : nat := id.
Definition right (id : nat) : nat := if (id =? N - 1)%nat then 0 else S id.
Definition min (id : nat) : nat := if (left id <? right id)%nat then left id else right id.
Definition max (id : nat) : nat := left id + right id - min id.

(** The memory has the philosophers that [main] has not created yet. *)
Definition code (p : location) (m : list nat) : op location (list nat) :=
  let goto := mkLoc (id p) (round p) in
  match at_ p with
  | Thinking =>
      if (round p <? ROUND)%nat then Call (CSleep (clock (id p) (round p) false) (ms (id p) (round p) false)) (goto BeforeMin) else Exit
  | BeforeMin => Call (CLock (fork (min (id p)))) (goto BeforeMax)
  | BeforeMax => Call (CLock (fork (max (id p)))) (goto Eating)
  | Eating => Call (CSleep (clock (id p) (round p) true) (ms (id p) (round p) true)) (goto BeforeDropMax)
  | BeforeDropMax => Call (CUnlock (fork (max (id p)))) (goto BeforeDropMin)
  | BeforeDropMin => Call (CUnlock (fork (min (id p)))) (mkLoc (id p) (S (round p)) Thinking)
  end.

Definition born (m : list nat) : option (location * list nat) :=
  match m with [] => None | i :: rest => Some (mkLoc i 0 Thinking, rest) end.

Definition our_mutex (m : nat) : Prop := exists i, (i < N)%nat /\ m = fork i.
#[local] Abbreviation none := (fun _ : nat => False).
#[local] Abbreviation ustep := (ustep code born our_mutex none none).
#[local] Abbreviation good := (good our_mutex none (P := location) (M := list nat)).

Context (HN : (2 <= N)%nat) (Hfork : forall i j, (i < N)%nat -> (j < N)%nat -> fork i = fork j -> i = j).

Lemma min_max i : (i < N)%nat -> (min i < max i < N)%nat.
Proof.
  intros Hi. unfold max, min, left, right. destruct (Nat.eqb_spec i (N - 1)) as [->|Hne].
  - destruct (Nat.ltb_spec (N - 1) 0); lia.
  - destruct (Nat.ltb_spec i (S i)); lia.
Qed.

Lemma fork_ours i : (i < N)%nat -> our_mutex (fork (min i)) /\ our_mutex (fork (max i)).
Proof. intros Hi. pose proof (min_max i Hi). split; [exists (min i)|exists (max i)]; (split; [lia|done]). Qed.

Lemma forks_differ i : (i < N)%nat -> fork (min i) <> fork (max i).
Proof. intros Hi E. pose proof (min_max i Hi). apply Hfork in E; lia. Qed.

(** The forks a philosopher has. *)
Definition has (p : location) (m : nat) : Prop :=
  match at_ p with
  | Thinking | BeforeMin => False
  | BeforeMax | BeforeDropMin => m = fork (min (id p))
  | Eating | BeforeDropMax => m = fork (min (id p)) \/ m = fork (max (id p))
  end.

Definition seated (p : location) : Prop :=
  (id p < N)%nat /\ (if decide (at_ p = Thinking) then round p <= ROUND else round p < ROUND)%nat.

Definition placed (th : thread location) : Prop :=
  seated (point th) /\
  match doing th with
  | Runs => True
  | Waits c p' => code (point th) [] = Call c p' /\ (forall m, c <> CUnlock m)
  | Ended => at_ (point th) = Thinking /\ round (point th) = ROUND
  end.

Record dining (w : uworld location (list nat)) : Prop := {
  di_good : good w;
  di_place t th : threads w !! t = Some th -> placed th;
  di_forks m : our_mutex m -> forall t, t ∈ holders m (snd (kw w)) <-> exists th, threads w !! t = Some th /\ has (point th) m;
  di_pending : Forall (fun i => (i < N)%nat) (memory w);
}.

Lemma code_memory p m m' : code p m = code p m'.
Proof. done. Qed.

Lemma dining_disciplined w : dining w -> disciplined code w.
Proof.
  intros Hd t p c p' _ Ht Hc. destruct (di_place _ Hd t _ Ht) as [[Hi _] _]. cbn [point] in Hi. destruct (fork_ours _ Hi) as [Hmin Hmax].
  unfold code in Hc. destruct (at_ p) eqn:Ea; [case_match; [|done]|..]; injection Hc as <- <-; cbn [allowed]; try done.
  - apply (di_forks _ Hd _ Hmax). exists (mkThread p Runs). split; [done|]. unfold has. cbn [point]. rewrite Ea. auto.
  - apply (di_forks _ Hd _ Hmin). exists (mkThread p Runs). split; [done|]. unfold has. cbn [point]. by rewrite Ea.
Qed.

(** The holders after a step of thread [t] to [p']. *)
Lemma forks_insert w t th p' md log' m :
  dining w -> our_mutex m -> threads w !! t = Some th ->
  (forall t', t' ∈ holders m log' <-> (t' <> t /\ t' ∈ holders m (snd (kw w))) \/ (t' = t /\ has p' m)) ->
  forall t', t' ∈ holders m log' <-> exists th', <[t := mkThread p' md]> (threads w) !! t' = Some th' /\ has (point th') m.
Proof.
  intros Hd Hm Ht Hlog t'. rewrite Hlog. destruct (decide (t' = t)) as [->|Hne].
  - rewrite lookup_insert_eq. split; [intros [[? _]|[_ H]]; [done|]; eauto|]. intros (th' & [= <-] & H). auto.
  - rewrite lookup_insert_ne by done. rewrite (di_forks _ Hd m Hm). naive_solver.
Qed.

(** The events of a call that has returned. *)
Definition completed (t : nat) (c : call) : list event := match c with CLock m => [Locked t m] | CUnlock m => [Unlocked t m] | _ => [] end.

Definition gets (t : nat) (c : call) (m : nat) (had : Prop) : Prop :=
  match c with CLock m' => m' = m \/ had | CUnlock m' => m' <> m /\ had | _ => had end.

Lemma holders_completed t c m log t' :
  t' ∈ holders m (completed t c ++ log) <-> (t' <> t /\ t' ∈ holders m log) \/ (t' = t /\ gets t c m (t ∈ holders m log)).
Proof.
  destruct (decide (t' = t)) as [->|Hne]; destruct c; cbn [completed app holders gets]; try case_decide; rewrite ?elem_of_cons, ?list_elem_of_filter; naive_solver.
Qed.

Lemma has_onward p m0 c p' m : (id p < N)%nat -> code p m0 = Call c p' -> has p' m <-> gets 0 c m (has p m).
Proof.
  intros Hi Hc. pose proof (forks_differ _ Hi) as Hmm. unfold code in Hc. destruct p as [i r []]; cbn [id round at_] in *; [case_match; [|done]|..]; injection Hc as <- <-;
    unfold has, gets; cbn [id round at_]; clear -Hmm; intuition congruence.
Qed.

Lemma seated_onward p m c p' : seated p -> code p m = Call c p' -> seated p'.
Proof.
  intros [Hi Hr] Hc. unfold seated, code in *. destruct p as [i r []]; cbn [id round at_] in *; [destruct (Nat.ltb_spec r ROUND); [|done]|..];
    injection Hc as _ <-; cbn [id round at_]; (split; [done|]); repeat case_decide; done || lia.
Qed.

(** A call of the program returns. *)
Lemma returns w t th c p' k' log' :
  dining w -> good (mkU (k', log') (<[t := mkThread p' Runs]> (threads w)) (memory w)) -> threads w !! t = Some th ->
  code (point th) (memory w) = Call c p' -> (forall m, holders m log' = holders m (completed t c ++ snd (kw w))) ->
  dining (mkU (k', log') (<[t := mkThread p' Runs]> (threads w)) (memory w)).
Proof.
  intros Hd Hg Ht Hc Hlog. destruct (di_place _ Hd t th Ht) as [Hse _]. pose proof (proj1 Hse) as Hi. split; cbn [kw threads memory snd]; [done| | |apply Hd].
  - intros t' th'. destruct (decide (t = t')) as [<-|Hne]; [|rewrite lookup_insert_ne by done; apply Hd].
    rewrite lookup_insert_eq. intros [= <-]. split; [|done]. cbn [point]. by eapply seated_onward.
  - intros m Hm. eapply (forks_insert w t th); [done|done|done|]. intros t'. rewrite Hlog, holders_completed.
    assert (Hh : t ∈ holders m (snd (kw w)) <-> has (point th) m).
    { rewrite (di_forks _ Hd m Hm). split; [|by eauto]. intros (th' & Ht' & H). rewrite Ht in Ht'. by injection Ht' as <-. }
    pose proof (has_onward _ _ _ _ m Hi Hc) as Ho. rewrite Ho. destruct c; cbn [gets] in *; rewrite Hh; tauto.
Qed.

Lemma phil_stays w t th md k' log' :
  dining w -> good (mkU (k', log') (<[t := mkThread (point th) md]> (threads w)) (memory w)) -> threads w !! t = Some th ->
  placed (mkThread (point th) md) -> (forall m, our_mutex m -> holders m log' = holders m (snd (kw w))) ->
  dining (mkU (k', log') (<[t := mkThread (point th) md]> (threads w)) (memory w)).
Proof.
  intros Hd Hg Ht Hp Hlog. split; cbn [kw threads memory snd]; [done| | |apply Hd].
  - intros t' th'. destruct (decide (t = t')) as [<-|Hne]; [rewrite lookup_insert_eq; by intros [= <-]|rewrite lookup_insert_ne by done; apply Hd].
  - intros m Hm. eapply (forks_insert w t th); [done|done|done|]. intros t'. rewrite (Hlog m Hm). destruct (decide (t' = t)) as [->|Hne]; [|naive_solver].
    rewrite (di_forks _ Hd m Hm). split; [intros (th' & Ht' & H); rewrite Ht in Ht'; injection Ht' as <-; auto|]. intros [[? _]|[_ H]]; [done|by exists th].
Qed.

Lemma phil_call p m c p' : code p m = Call c p' -> (exists m', c = CLock m') \/ (exists m', c = CUnlock m') \/ exists a b, c = CSleep a b.
Proof. unfold code. destruct (at_ p); [case_match; [|done]|..]; intros [= <- <-]; eauto. Qed.

Lemma dining_step w w' : dining w -> ustep w w' -> dining w'.
Proof.
  intros Hd Hs. destruct (ustep_effect _ _ _ _ _ w w' (di_good _ Hd) (dining_disciplined w Hd) Hs) as [Hg He]. clear Hs.
  destruct He as [w t p m' p' Ht Hc|w t p c p' k' b Ht Hc Hsus _|w t p c p' k' Ht _|w t p k' Ht Hc _|w t p k' m' Ht Hbo _|w k' log' Hq _].
  - unfold code in Hc. destruct (at_ p); try done. by case_match.
  - destruct b.
    + apply (returns w t (mkThread p Runs) c); try done. intros m. destruct (phil_call _ _ _ _ Hc) as [[m' ->]|[[m' ->]|(x & y & ->)]]; done.
    + destruct (Hsus eq_refl) as [kc Hkc]. destruct (phil_call _ _ _ _ Hc) as [[m' ->]|[[m' ->]|(x & y & ->)]]; [|by cbn in Hkc|].
      all: apply (phil_stays w t (mkThread p Runs)); try done; (split; [apply (di_place _ Hd t _ Ht)|]); by split.
  - destruct (di_place _ Hd t _ Ht) as (Hi & Hc & Hu). cbn [point] in Hc. apply (returns w t (mkThread p (Waits c p')) c); try done.
    intros m. destruct (phil_call _ _ _ _ Hc) as [[m' ->]|[[m' ->]|(x & y & ->)]]; [done|by destruct (Hu m')|done].
  - apply (phil_stays w t (mkThread p Runs)); try done. split; [apply (di_place _ Hd t _ Ht)|]. cbn. destruct (di_place _ Hd t _ Ht) as [[_ Hr] _]. cbn [point] in Hr. unfold code in Hc. destruct (at_ p); [|done..]. destruct (Nat.ltb_spec (round p) ROUND); [done|]. case_decide; [|done]. split; [done|lia].
  - unfold born in Hbo. pose proof (di_pending _ Hd) as Hpe. destruct (memory w) as [|i rest] eqn:Em; [done|]. injection Hbo as <- <-.
    apply Forall_cons in Hpe as [Hi Hpe]. split; cbn [kw threads memory snd]; [done| | |done].
    + intros t' th'. destruct (decide (t = t')) as [<-|Hne]; [|rewrite lookup_insert_ne by done; apply Hd]. rewrite lookup_insert_eq. intros [= <-]. split; [|done]. split; [done|]. cbn [point at_ round]. rewrite decide_True by done. lia.
    + intros m Hm t'. rewrite (di_forks _ Hd m Hm). destruct (decide (t = t')) as [<-|Hne]; [|by rewrite lookup_insert_ne].
      rewrite lookup_insert_eq. split; intros (th' & Ht' & H); [congruence|]. by injection Ht' as <-.
  - destruct Hq as [_ Hq]. destruct Hd as [_ Hp Hf Hpe]. split; [done|done| |done]. cbn [kw snd threads]. intros m Hm. rewrite (Hq m Hm). by apply Hf.
Qed.

Lemma dining_steps w w' : dining w -> rtc ustep w w' -> dining w'.
Proof. intros Hd Hs. induction Hs as [|w w1 w' Hs _ IH]; [done|]. apply IH. by eapply dining_step. Qed.

(** ** No deadlock *)

(** A thread of the program is running, ready or asleep. *)
Definition alive (w : uworld location (list nat)) (t : nat) : Prop :=
  current (fst (kw w)) = Some t \/ t ∈ ready_queue (fst (kw w)) \/ t ∈ timer_task <$> timers (fst (kw w)).

(** Otherwise all that have not exited wait for a fork that another one has and that is
    smaller than the one this one waits for. *)
Lemma stuck_waits w t th :
  dining w -> (forall t th, threads w !! t = Some th -> ~ alive w t) -> threads w !! t = Some th -> doing th <> Ended ->
  exists m p' t' th', our_mutex m /\ doing th = Waits (CLock m) p' /\ threads w !! t' = Some th' /\ has (point th') m.
Proof.
  intros Hd Hno Ht Hne. assert (Hst : stalled w) by (intros t1 th1 Ht1; specialize (Hno t1 th1 Ht1); unfold alive in Hno; tauto).
  destruct (di_place _ Hd t th Ht) as [[Hi _] Hp]. destruct th as [p md]. cbn [doing point] in *. destruct md as [|c p'|]; [| |done].
  - exfalso. eapply stalled_not_running; [by apply di_good|done|done].
  - destruct Hp as [Hc Hu]. destruct (phil_call _ _ _ _ Hc) as [[m ->]|[[m ->]|(x & y & ->)]]; [|by destruct (Hu m)|].
    + assert (Hm : our_mutex m).
      { destruct (fork_ours _ Hi) as [H1 H2]. unfold code in Hc. destruct (at_ p); [by case_match| | |done..]; injection Hc as <- _; done. }
      destruct (stalled_lock _ _ w t p m p' (di_good _ Hd) Hst Hm Ht) as [t' Ht']. apply (di_forks _ Hd m Hm) in Ht' as (th' & Ht' & H).
      by exists m, p', t', th'.
    + exfalso. apply (Hno t _ Ht). right. right. eapply stalled_sleep; [by apply di_good|done|done].
Qed.

Lemma nobody_waits w n : dining w -> (forall t th, threads w !! t = Some th -> ~ alive w t) ->
  forall t th i p', (i < N)%nat -> (N - i <= n)%nat -> threads w !! t = Some th -> doing th = Waits (CLock (fork i)) p' -> False.
Proof.
  intros Hd Hno. induction n as [|n IH]; intros t th i p' Hi Hle Ht Hw; [lia|].
  destruct (stuck_waits w t th Hd Hno Ht) as (m0 & p0 & t' & th' & _ & Hw' & Ht' & Hhas); [by rewrite Hw|]. rewrite Hw in Hw'. injection Hw' as <- <-.
  destruct (di_place _ Hd t' th' Ht') as [[Hi' _] Hp].
  assert (Hne : doing th' <> Ended) by (intros E; rewrite E in Hp; destruct Hp as [Hp _]; unfold has in Hhas; by rewrite Hp in Hhas).
  destruct (stuck_waits w t' th' Hd Hno Ht' Hne) as (m' & p1 & _ & _ & Hm' & Hw' & _).
  pose proof (min_max _ Hi') as Hmm. rewrite Hw' in Hp. destruct Hp as [Hc _]. unfold has, code in *.
  destruct (at_ (point th')); [done|done|injection Hc as <- _|done..]. apply Hfork in Hhas; [|lia..].
  apply (IH t' th' (max (id (point th'))) p1); [lia|lia|done|done].
Qed.

Lemma not_stuck w : dining w -> (forall t th, threads w !! t = Some th -> ~ alive w t) -> forall t th, threads w !! t = Some th -> doing th = Ended.
Proof.
  intros Hd Hno t th Ht. destruct (doing th) eqn:Ed; [| |done]; exfalso.
  all: destruct (stuck_waits w t th Hd Hno Ht ltac:(congruence)) as (m & p1 & _ & _ & (i & Hi & ->) & Hw & _).
  all: by eapply (nobody_waits w _ Hd Hno t th i p1 Hi).
Qed.

(** ** Neighbours do not eat together *)

(** Between the second [mutex_lock] and the first [mutex_unlock]. *)
Definition eats (p : location) : Prop := at_ p = Eating \/ at_ p = BeforeDropMax.

Lemma eats_has p f : eats p -> f = left (id p) \/ f = right (id p) -> has p (fork f).
Proof.
  intros He Hf. assert (Hm : f = min (id p) \/ f = max (id p)).
  { unfold max, min in *. destruct (Nat.ltb_spec (left (id p)) (right (id p))); lia. }
  unfold has. destruct He as [-> | ->]; destruct Hm as [-> | ->]; auto.
Qed.

Lemma neighbours w t t' th th' m :
  dining w -> our_mutex m -> threads w !! t = Some th -> threads w !! t' = Some th' -> has (point th) m -> has (point th') m -> t = t'.
Proof.
  intros Hd Hm Ht Ht' H H'. pose proof (mutex_holder _ _ w m (di_good _ Hd)) as H1.
  assert (Hin : t ∈ holders m (snd (kw w))) by (apply (di_forks _ Hd m Hm); eauto).
  assert (Hin' : t' ∈ holders m (snd (kw w))) by (apply (di_forks _ Hd m Hm); eauto).
  destruct (holders m (snd (kw w))) as [|a [|b l]]; [by apply elem_of_nil in Hin| |cbn in H1; lia].
  apply list_elem_of_singleton in Hin, Hin'. by subst.
Qed.

Lemma eat_alone w t t' th th' :
  dining w -> threads w !! t = Some th -> threads w !! t' = Some th' -> eats (point th) -> eats (point th') ->
  id (point th') = id (point th) \/ id (point th') = right (id (point th)) -> t = t'.
Proof.
  intros Hd Ht Ht' He He' Hid. destruct (di_place _ Hd t th Ht) as [[Hi _] _]. destruct (di_place _ Hd t' th' Ht') as [[Hi' _] _].
  set (f := left (id (point th'))). assert (Hf : f = left (id (point th)) \/ f = right (id (point th))) by (unfold f, left in *; tauto).
  apply (neighbours w t t' th th' (fork f)); [done|by exists f|done|done|by apply eats_has|by apply eats_has; [..|left]].
Qed.

(** ** The calls do not panic *)

Lemma call_succeeds w t p c p' :
  dining w -> (forall i, (i < N)%nat -> is_Some (mutexes (fst (kw w)) !! fork i)) -> current (fst (kw w)) = Some t ->
  threads w !! t = Some (mkThread p Runs) -> code p (memory w) = Call c p' -> exists b k', do_call c (fst (kw w)) = Ok (b, k').
Proof.
  intros Hd Hall Hcur Ht Hc. pose proof (dining_disciplined w Hd t p c p' Hcur Ht Hc) as Ha. destruct (di_place _ Hd t _ Ht) as [[Hi _] _].
  assert (Hm : forall m, c = CLock m \/ c = CUnlock m -> exists x, mutexes (fst (kw w)) !! m = Some x).
  { pose proof (min_max _ Hi) as Hmm. cbn [point] in Hmm. intros m Hcm. unfold code in Hc. destruct (at_ p); [case_match; [|done]|..]; injection Hc as <- _;
      destruct Hcm as [[=]|[=]]; subst m; apply Hall; lia. }
  destruct (phil_call _ _ _ _ Hc) as [[m ->]|[[m ->]|(x & y & ->)]]; cbn [do_call allowed] in *.
  - destruct (Hm m ltac:(auto)) as [x Hx]. rewrite (lock_run t m x _ Hcur Hx). destruct x as [[]|[] q]; eauto.
  - destruct (Hm m ltac:(auto)) as [x Hx]. by apply (unlock_succeeds _ _ w m x t (di_good _ Hd)).
  - rewrite (st_bind_run _ _ _ _ _ (sleep_run t x y _ Hcur)). by eexists _, _.
Qed.
End dining.

(** ** The program *)

(** The steps of the program. *)
Definition phil_step (N ROUND : nat) (clock ms : nat -> nat -> bool -> Z) (fork : nat -> nat) : uworld location (list nat) -> uworld location (list nat) -> Prop :=
  ustep (code N ROUND clock ms fork) born (our_mutex N fork) (fun _ => False) (fun _ => False).

(** All forks are made after the program has started. *)
Lemma start_dining N ROUND clock ms fork w0 :
  reachable w0 -> (forall i, (i < N)%nat -> (length (mutexes (fst w0)) <= fork i)%nat) ->
  dining N ROUND clock ms fork (mkU w0 ∅ (seq 0 N)).
Proof.
  intros Hr Hnew. destruct (reachable_known w0 Hr) as [Hi Hk]. split; cbn [kw threads memory snd].
  - split; cbn [kw threads fst]; [done|by intros t th; rewrite lookup_empty| |done]. intros t kc _ Hin Hkc.
    destruct (decide (current (fst w0) = Some t)) as [|Hne]; [by left|]. right. specialize (Hk t kc Hin Hne Hkc).
    destruct kc; cbn in *; try tauto; intros (i & Hi' & ->); specialize (Hnew i Hi'); apply lookup_lt_is_Some in Hk; lia.
  - intros t th. by rewrite lookup_empty.
  - intros m (i & Hi' & ->) t. split; [|intros (th & Ht & _); by rewrite lookup_empty in Ht]. intros Hin. exfalso.
    pose proof (inv_mutex _ Hi (fork i)) as Hl. rewrite lookup_ge_None_2 in Hl by (by apply Hnew). destruct Hl as [Hl _]. unfold held in Hl.
    destruct (holders (fork i) (snd w0)); [by apply elem_of_nil in Hin|]. cbn in Hl. lia.
  - apply Forall_forall. intros i Hin. apply elem_of_seq in Hin. lia.
Qed.

(** The loop of [main], when nothing else runs in between: a mutex, then a philosopher, the
    task [t] of process [q]. *)
Section main.
Context (N ROUND : nat) (clock ms : nat -> nat -> bool -> Z) (fork : nat -> nat) (main q : nat).
#[local] Abbreviation next := (next (code N ROUND clock ms fork) born).

Fixpoint make_all (tids : list nat) (w : uworld location (list nat)) : res (uworld location (list nat)) :=
  match tids with
  | [] => Ok w
  | t :: tids' => kw' ← run_call main (CNewMutex true) (kw w); w' ← next (Create t q) (mkU kw' (threads w) (memory w)); make_all tids' w'
  end.

Lemma make_all_steps tids w w' :
  current (fst (kw w)) = Some main -> threads w !! main = None -> main ∉ tids -> make_all tids w = Ok w' -> rtc (phil_step N ROUND clock ms fork) w w'.
Proof.
  revert w. induction tids as [|t tids IH]; intros [[k log] T m] Hc Hn Hin E; cbn [make_all kw threads memory fst] in *; [by injection E as <-|].
  apply not_elem_of_cons in Hin as [Hne Hin]. apply res_bind_Ok in E as (kw' & E1 & E). apply res_bind_Ok in E as (w1 & E2 & E).
  unfold run_call in E1. apply res_bind_Ok in E1 as ([b k'] & Ed & [= <-]). cbn [fst snd] in Ed.
  pose proof (do_call_frame main (CNewMutex true) k b k' Hc Ed) as [_ Hb]. assert (Hc' : current k' = Some main).
  { destruct b; [done|]. destruct Hb as (_ & kc & _ & Hs). by cbn in Hs. }
  eapply rtc_l; [by apply (other_call_step _ _ _ _ _ (mkU (k, log) T m) main (CNewMutex true)); try done; unfold run_call; cbn [kw fst snd]; rewrite Ed|].
  pose proof (next_ustep _ _ (our_mutex N fork) (fun _ => False) (fun _ => False) _ _ _ E2) as Hs.
  eapply rtc_l; [exact Hs|]. unfold KernelThreads.next in E2. cbn [kw fst snd threads memory] in E2. rewrite Hc' in E2. cbn [unwrap] in E2.
  apply res_bind_Ok in E2 as (t0 & [= <-] & E2). apply res_bind_Ok in E2 as ([] & _ & E2). apply res_bind_Ok in E2 as ([p m'] & _ & [= <-]).
  apply IH; [done| |done|done]. cbn [threads]. by rewrite lookup_insert_ne.
Qed.
End main.

(** C15: The philosophers of phil_din_mutex.rs.  In every interleaving of the philosophers, of
    [main] making forks and philosophers, of timer interrupts and of the rest of the system:
    two neighbours never eat together; either all philosophers made so far have exited or one
    of them is running, ready or asleep, so no circle of them waits for forks; one that has
    exited went through all its rounds; and once all the forks are there, no call of a
    philosopher makes the kernel panic. *)
Theorem philosophers_dine N ROUND clock ms fork w0 w :
  (2 <= N)%nat -> (forall i j, (i < N)%nat -> (j < N)%nat -> fork i = fork j -> i = j) ->
  reachable w0 -> (forall i, (i < N)%nat -> (length (mutexes (fst w0)) <= fork i)%nat) ->
  rtc (phil_step N ROUND clock ms fork) (mkU w0 ∅ (seq 0 N)) w ->
  (forall t t' th th', threads w !! t = Some th -> threads w !! t' = Some th' -> t <> t' -> eats (point th) -> eats (point th') ->
     id (point th') <> id (point th) /\ id (point th') <> right N (id (point th))) /\
  ((forall t th, threads w !! t = Some th -> doing th = Ended) \/ exists t th, threads w !! t = Some th /\ alive w t) /\
  (forall t th, threads w !! t = Some th -> doing th = Ended -> round (point th) = ROUND) /\
  ((forall i, (i < N)%nat -> is_Some (mutexes (fst (kw w)) !! fork i)) ->
   forall t p c p', current (fst (kw w)) = Some t -> threads w !! t = Some (mkThread p Runs) ->
     code N ROUND clock ms fork p (memory w) = Call c p' -> exists b k', do_call c (fst (kw w)) = Ok (b, k')).
Proof.
  intros HN Hinj Hr Hnew Hrun. pose proof (dining_steps _ _ _ _ _ HN Hinj _ _ (start_dining N ROUND clock ms fork w0 Hr Hnew) Hrun) as Hd.
  split_and!.
  - intros t t' th th' Ht Ht' Hne He He'. split; intros E; apply Hne; by eapply (eat_alone N ROUND clock ms fork HN w t t' th th'); eauto.
  - destruct (decide (Exists (fun x : nat * thread location => alive w x.1) (map_to_list (threads w)))) as [Hex|Hno].
    + right. apply Exists_exists in Hex as ([t th] & Hin & Ha). apply elem_of_map_to_list in Hin. by exists t, th.
    + left. apply (not_stuck N ROUND clock ms fork HN Hinj w Hd). intros t th Ht Ha. apply Hno, Exists_exists. exists (t, th).
      by rewrite elem_of_map_to_list.
  - intros t th Ht He. destruct (di_place _ _ _ _ _ _ Hd t th Ht) as [_ Hp]. rewrite He in Hp. apply Hp.
  - intros Hall t p c p'. by apply (call_succeeds N ROUND clock ms fork HN).
Qed.

(** ** A run of the program as it is *)

Module Demo.
Definition N : nat := 5.
Definition ROUND : nat := 4.
Definition ARR : list (list Z) :=
  [[700; 800; 1000; 400; 500; 600; 200; 400];
   [300; 600; 200; 700; 1000; 100; 300; 600];
   [500; 200; 900; 200; 400; 600; 1200; 400];
   [500; 1000; 600; 500; 800; 600; 200; 900];
   [600; 100; 600; 600; 200; 500; 600; 200]].
Definition ms (id round : nat) (eating : bool) : Z := default 0 (row ← ARR !! id; row !! (2 * round + Nat.b2n eating)%nat).
#[local] Abbreviation go := (next (code N ROUND (fun _ _ _ => 0) ms (fun i => i)) born).

Definition w0 : world := Eval vm_compute in world_of (run_dispatch (spawn 0 0 (fst boot), [])).
Definition start : uworld location (list nat) := mkU w0 ∅ (seq 0 N).
Definition made : uworld location (list nat) := Eval vm_compute in
  match make_all N ROUND (fun _ _ _ => 0) ms (fun i => i) 0 0 [1; 2; 3; 4; 5]%nat start with Ok w => w | Panic _ => start end.

(** [main] waits; the timer interrupts it and every ninth step. *)
Definition choose (i : nat) (w : uworld location (list nat)) : act :=
  match current (fst (kw w)) with
  | None => Dispatch
  | Some t => if (i mod 9 =? 3)%nat || bool_decide (threads w !! t = None) then Tick (1000000 * Z.of_nat (1000 - i)) else Go
  end.

Fixpoint drive (n : nat) (w : uworld location (list nat)) : list act :=
  match n with
  | O => []
  | S n' => let a := choose n w in match go a w with Ok w' => a :: drive n' w' | Panic _ => [] end
  end.

Definition acts : list act := Eval vm_compute in take 281 (drive 1000 made).
Definition after (n : nat) : uworld location (list nat) :=
  match play (code N ROUND (fun _ _ _ => 0) ms (fun i => i)) born (take n acts) made with Ok w => w | Panic _ => start end.
Definition middle : uworld location (list nat) := Eval vm_compute in after 110.
Definition final : uworld location (list nat) := Eval vm_compute in after 281.

Lemma dine_booted : reachable w0.
Proof.
  unfold reachable. eapply rtc_l; [apply (step_spawn _ _ 0 0); [apply not_elem_of_nil|done]|].
  eapply rtc_l; [apply run_dispatch_step; [done|vm_compute; reflexivity]|]. apply rtc_refl.
Qed.

Lemma dine_made_run : rtc (phil_step N ROUND (fun _ _ _ => 0) ms (fun i => i)) start made.
Proof. apply (make_all_steps _ _ _ _ _ 0 0 [1; 2; 3; 4; 5]%nat); [reflexivity|reflexivity|set_solver|vm_compute; reflexivity]. Qed.

Lemma dine_middle_run : rtc (phil_step N ROUND (fun _ _ _ => 0) ms (fun i => i)) start middle.
Proof. transitivity made; [exact dine_made_run|]. apply (play_usteps _ _ _ _ _ (take 110 acts)). vm_compute. reflexivity. Qed.

(** The whole run ends. *)
Lemma dine_final_run : rtc (phil_step N ROUND (fun _ _ _ => 0) ms (fun i => i)) start final /\
  (fun x => (id (point (snd x)), round (point (snd x)))) <$> map_to_list (threads final) = [(3, 4); (1, 4); (4, 4); (2, 4); (0, 4)]%nat.
Proof.
  split; [|vm_compute; reflexivity]. transitivity made; [exact dine_made_run|]. apply (play_usteps _ _ _ _ _ acts). vm_compute. reflexivity.
Qed.
End Demo.

Lemma philosophers_dine_witness :
  (exists th th', threads Demo.middle !! 2%nat = Some th /\ threads Demo.middle !! 4%nat = Some th' /\ eats (point th) /\ eats (point th') /\
     id (point th') <> right Demo.N (id (point th))) /\
  ((forall t th, threads Demo.middle !! t = Some th -> doing th = Ended) \/ exists t th, threads Demo.middle !! t = Some th /\ alive Demo.middle t).
Proof.
  destruct (philosophers_dine Demo.N Demo.ROUND (fun _ _ _ => 0) Demo.ms (fun i => i) Demo.w0 Demo.middle) as (Heat & Halive & _).
  - unfold Demo.N. lia.
  - intros i j _ _ E. exact E.
  - apply Demo.dine_booted.
  - intros i _. cbn. lia.
  - apply Demo.dine_middle_run.
  - split; [|exact Halive]. eexists _, _. split_and!; [vm_compute; reflexivity|vm_compute; reflexivity|by left|by left|].
    apply (Heat 2%nat 4%nat); [vm_compute; reflexivity|vm_compute; reflexivity|lia|by left|by left].
Defined.
