(* ===== verification/Barrier.v ===== *)
(** The barriers of user/src/bin/barrier_condvar.rs on the mutexes and condition variables of
    the kernel.

    [Gate] is what one barrier is: which threads are where, who sleeps on the condition
    variable, and how many have come.  The program is then run on the kernel
    ([KernelThreads]), and every step of it is, for each of its barriers, a step of a gate or
    none at all. *)

From Stdlib Require Import Sorting.Sorted.
From S2P Require Import Prelude Sched KernelThreads.

(** ** One barrier *)

Module Gate.

(** Before [block]; after [mutex_lock]; after the increment; before [condvar_wait]; in it;
    before [condvar_signal]; before [mutex_unlock]; after [block]. *)
Inductive status := Before | Early | Counted | Going | Asleep | Signalling | Leaving | Past.
#[export] Instance status_eq_dec : EqDecision status.
Proof. solve_decision. Defined.

Definition has_come (s : status) : bool := match s with Before | Early => false | _ => true end.

(** Through the gate, or about to be. *)
Definition through (s : status) : bool := match s with Signalling | Leaving | Past => true | _ => false end.

Record gate := mkGate { st : gmap nat status; queue : list nat; count : nat }.

Definition come (S : gmap nat status) : nat := size (filter (fun x => has_come x.2 = true) S).

(** Whoever wakes the next sleeper. *)
Definition token (g : gate) (t : nat) : Prop :=
  st g !! t = Some Counted \/ st g !! t = Some Signalling \/ (st g !! t = Some Asleep /\ t ∉ queue g).

Record ok (N : nat) (g : gate) : Prop := {
  ok_size : (size (st g) <= N)%nat;
  ok_count : count g = come (st g);
  ok_queue t : t ∈ queue g -> st g !! t = Some Asleep;
  ok_nodup : NoDup (queue g);
  ok_closed : count g <> N -> forall t s, st g !! t = Some s -> through s = false /\ (s = Asleep -> t ∈ queue g);
  ok_going t : st g !! t = Some Going -> count g <> N;
  ok_token : count g = N -> queue g = [] \/ exists t, token g t;
}.

Lemma come_insert S t b : come (<[t := b]> S) = (come (delete t S) + Nat.b2n (has_come b))%nat.
Proof.
  rewrite <- insert_delete_eq. unfold come. rewrite map_filter_insert. cbn [snd].
  assert (Hn : filter (fun x : nat * status => has_come x.2 = true) (delete t S) !! t = None) by (rewrite map_lookup_filter, lookup_delete_eq; done).
  destruct (has_come b); cbn [Nat.b2n]; case_decide; try done.
  - rewrite map_size_insert_None by done. lia.
  - rewrite delete_delete_eq. lia.
Qed.

Lemma come_update S t a b :
  S !! t = Some a -> (come (<[t := b]> S) + Nat.b2n (has_come a) = come S + Nat.b2n (has_come b))%nat.
Proof. intros Ht. rewrite <- (insert_id S t a Ht) at 2. rewrite !come_insert. lia. Qed.

Lemma come_new S t : S !! t = None -> come (<[t := Before]> S) = come S.
Proof. intros Ht. unfold come. rewrite map_filter_insert. cbn. by rewrite delete_id. Qed.

Lemma come_le S : (come S <= size S)%nat.
Proof. unfold come. apply map_size_filter. Qed.

(** A thread that has not come yet leaves room. *)
Lemma not_full N g t s : ok N g -> st g !! t = Some s -> has_come s = false -> (count g < N)%nat.
Proof.
  intros Ho Ht Hs. rewrite (ok_count _ _ Ho). pose proof (come_update (st g) t s Past Ht) as E. rewrite Hs in E. cbn in E.
  pose proof (come_le (<[t := Past]> (st g))) as Hl. rewrite map_size_insert_Some in Hl by done. pose proof (ok_size _ _ Ho). lia.
Qed.

(** The steps, by thread [t]. *)
Inductive move (N : nat) (t : nat) : gate -> gate -> Prop :=
| m_new S q n : S !! t = None -> (size S < N)%nat -> move N t (mkGate S q n) (mkGate (<[t := Before]> S) q n)
| m_enter S q n : S !! t = Some Before -> move N t (mkGate S q n) (mkGate (<[t := Early]> S) q n)
| m_count S q n : S !! t = Some Early -> (forall t', S !! t' <> Some Going) -> move N t (mkGate S q n) (mkGate (<[t := Counted]> S) q (Datatypes.S n))
| m_last S q n : S !! t = Some Counted -> n = N -> move N t (mkGate S q n) (mkGate (<[t := Signalling]> S) q n)
| m_more S q n : S !! t = Some Counted -> n <> N -> move N t (mkGate S q n) (mkGate (<[t := Going]> S) q n)
| m_sleep S q n : S !! t = Some Going -> move N t (mkGate S q n) (mkGate (<[t := Asleep]> S) (q ++ [t]) n)
| m_wake S q n : S !! t = Some Asleep -> t ∉ q -> move N t (mkGate S q n) (mkGate (<[t := Signalling]> S) q n)
| m_signal S q n : S !! t = Some Signalling -> move N t (mkGate S q n) (mkGate (<[t := Leaving]> S) (tail q) n)
| m_leave S q n : S !! t = Some Leaving -> move N t (mkGate S q n) (mkGate (<[t := Past]> S) q n).

(** A step that changes where [t] is and nothing else. *)
Lemma ok_status N S q n t a b :
  ok N (mkGate S q n) -> S !! t = Some a -> has_come a = has_come b -> t ∉ q -> (n <> N -> through b = false /\ b <> Asleep) -> (b = Going -> n <> N) ->
  (n = N -> a = Counted \/ a = Signalling \/ a = Asleep -> b = Signalling) -> ok N (mkGate (<[t := b]> S) q n).
Proof.
  intros [Hsz Hcnt Hq Hnd Hcl Hgo Htk] Ht Hcome Htq Hthr Hgoing Htok. cbn [st queue count] in *. split; cbn [st queue count].
  - by rewrite map_size_insert_Some.
  - pose proof (come_update S t a b Ht) as E. rewrite Hcome in E. lia.
  - intros t' Hin. rewrite lookup_insert_ne by (intros ->; done). by apply Hq.
  - done.
  - intros Hn t' s. destruct (decide (t = t')) as [<-|Hne]; [|rewrite lookup_insert_ne by done; by apply Hcl].
    rewrite lookup_insert_eq. intros [= <-]. destruct (Hthr Hn). by split.
  - intros t'. destruct (decide (t = t')) as [<-|Hne]; [|rewrite lookup_insert_ne by done; apply Hgo]. rewrite lookup_insert_eq. intros [= ->]. auto.
  - intros Hn. destruct (Htk Hn) as [|[t' Hto]]; [by left|right]. unfold token in *. cbn [st queue] in *. destruct (decide (t = t')) as [<-|Hne].
    + exists t. rewrite lookup_insert_eq. rewrite Ht in Hto. assert (E : b = Signalling) by (apply (Htok Hn); naive_solver). subst b. auto.
    + exists t'. by rewrite lookup_insert_ne.
Qed.

Lemma not_queued N S q n t a : ok N (mkGate S q n) -> S !! t = Some a -> a <> Asleep -> t ∉ q.
Proof. intros Ho Ht Ha Hin. apply (ok_queue _ _ Ho) in Hin. cbn in Hin. congruence. Qed.

Lemma move_ok N t g g' : ok N g -> move N t g g' -> ok N g'.
Proof.
  intros Ho Hm. destruct Hm as [S q n Ht Hs|S q n Ht|S q n Ht Hex|S q n Ht Hn|S q n Ht Hn|S q n Ht|S q n Ht Hq|S q n Ht|S q n Ht].
  - destruct Ho as [Hsz Hcnt Hq Hnd Hcl Hgo Htk]. cbn [st queue count] in *. split; cbn [st queue count]; [|by rewrite come_new| |done| | |].
    + rewrite map_size_insert_None by done. lia.
    + intros t' Hin. apply Hq in Hin. rewrite lookup_insert_ne; [done|congruence].
    + intros Hn t' s. destruct (decide (t = t')) as [<-|Hne]; [rewrite lookup_insert_eq; by intros [= <-]|rewrite lookup_insert_ne by done; by apply Hcl].
    + intros t'. destruct (decide (t = t')) as [<-|Hne]; [by rewrite lookup_insert_eq|rewrite lookup_insert_ne by done; apply Hgo].
    + intros Hn. destruct (Htk Hn) as [|[t' Hto]]; [by left|right]. exists t'. unfold token in *. cbn [st queue] in *.
      destruct (decide (t = t')) as [<-|Hne]; [rewrite Ht in Hto; naive_solver|by rewrite lookup_insert_ne].
  - eapply ok_status; try done; [by eapply not_queued|naive_solver].
  - pose proof (not_full N _ t Early Ho Ht eq_refl) as Hlt. destruct Ho as [Hsz Hcnt Hq Hnd Hcl Hgo Htk]. cbn [st queue count] in *.
    split; cbn [st queue count].
    + by rewrite map_size_insert_Some.
    + pose proof (come_update S t Early Counted Ht) as E. cbn in E. lia.
    + intros t' Hin. rewrite lookup_insert_ne; [by apply Hq|]. intros ->. apply Hq in Hin. congruence.
    + done.
    + intros Hn t' s. destruct (decide (t = t')) as [<-|Hne]; [rewrite lookup_insert_eq; by intros [= <-]|rewrite lookup_insert_ne by done; apply Hcl; lia].
    + intros t'. destruct (decide (t = t')) as [<-|Hne]; [by rewrite lookup_insert_eq|rewrite lookup_insert_ne by done]. intros Hg. by apply Hex in Hg.
    + intros _. right. exists t. left. cbn. by rewrite lookup_insert_eq.
  - eapply ok_status; try done. by eapply not_queued.
  - eapply ok_status; try done. by eapply not_queued.
  - pose proof (ok_going _ _ Ho t Ht) as Hn. pose proof (not_queued N S q n t Going Ho Ht ltac:(done)) as Htq.
    destruct Ho as [Hsz Hcnt Hq Hnd Hcl Hgo Htk]. cbn [st queue count] in *. split; cbn [st queue count].
    + by rewrite map_size_insert_Some.
    + pose proof (come_update S t Going Asleep Ht) as E. cbn in E. lia.
    + intros t' [Hin|Hin%list_elem_of_singleton]%elem_of_app; [|subst; by rewrite lookup_insert_eq]. rewrite lookup_insert_ne; [by apply Hq|]. intros ->. done.
    + apply NoDup_app. split_and!; [done| |by apply NoDup_singleton]. intros x Hx ->%list_elem_of_singleton. done.
    + intros _ t' s. destruct (decide (t = t')) as [<-|Hne]; [rewrite lookup_insert_eq; intros [= <-]; split; [done|]; intros _; apply elem_of_app; right; by left|].
      rewrite lookup_insert_ne by done. intros Hs. destruct (Hcl Hn t' s Hs) as [H1 H2]. split; [done|]. intros Ha. apply elem_of_app. auto.
    + intros t'. destruct (decide (t = t')) as [<-|Hne]; [by rewrite lookup_insert_eq|rewrite lookup_insert_ne by done; apply Hgo].
    + done.
  - assert (Hn : n = N) by (destruct (decide (n = N)) as [|Hn]; [done|]; exfalso; by apply Hq, (ok_closed _ _ Ho Hn t Asleep Ht)).
    eapply ok_status; try done.
  - assert (Hn : n = N) by (destruct (decide (n = N)) as [|Hn]; [done|]; by destruct (ok_closed _ _ Ho Hn t Signalling Ht)).
    pose proof (not_queued N S q n t Signalling Ho Ht ltac:(done)) as Htq.
    destruct Ho as [Hsz Hcnt Hq Hnd Hcl Hgo Htk]. cbn [st queue count] in *.
    assert (Htl : forall t', t' ∈ tail q -> t' ∈ q) by (intros t' Hin; destruct q; [done|by right]). split; cbn [st queue count]; try done.
    + by rewrite map_size_insert_Some.
    + pose proof (come_update S t Signalling Leaving Ht) as E. cbn in E. lia.
    + intros t' Hin%Htl. rewrite lookup_insert_ne; [by apply Hq|]. intros ->. done.
    + destruct q; [done|]. by apply NoDup_cons in Hnd as [_ Hnd].
    + intros t'. destruct (decide (t = t')) as [<-|Hne]; [by rewrite lookup_insert_eq|rewrite lookup_insert_ne by done; apply Hgo].
    + intros _. destruct q as [|x q]; [by left|]. right. exists x. right. right. cbn [st queue tail]. apply NoDup_cons in Hnd as [Hx _]. split; [|done].
      rewrite lookup_insert_ne; [apply Hq; by left|]. intros ->. apply Htq. by left.
  - assert (Hn : n = N) by (destruct (decide (n = N)) as [|Hn]; [done|]; by destruct (ok_closed _ _ Ho Hn t Leaving Ht)).
    eapply ok_status; try done; [by eapply not_queued|naive_solver].
Qed.
End Gate.

(** ** The program *)

Inductive stage := Printing | BeforeLoad | BeforeStore | BeforeTest | BeforeSignal | BeforeWait | BeforePass | BeforeUnlock.
#[export] Instance stage_eq_dec : EqDecision stage.
Proof. solve_decision. Defined.

(** The segment between two barriers ([0] prints a, [1] prints b, [2] prints c), how much of
    it was printed, and the value of [*count] in a register. *)
Record location := mkLoc { seg : nat; round : nat; reg : nat; at_ : stage }.

(** The counts of the barriers, what was printed, and how many threads [main] will still
    create. *)
Record shared := mkShared { counts : list nat; output : list nat; pending : nat }.

Definition set_count (j n : nat) (m : shared) : shared := mkShared (<[j := n]> (counts m)) (output m) (pending m).
Definition print (letter : nat) (m : shared) : shared := mkShared (counts m) (output m ++ [letter]) (pending m).

Section barrier.
Context (B THREAD_NUM PRINTS : nat) (mutex_id condvar_id : nat -> nat).

Definition code (p : location) (m : shared) : op location shared :=
  let goto := mkLoc (seg p) (round p) in
  match at_ p with
  | Printing =>
      if (round p <? PRINTS)%nat then Compute (print (seg p) m) (mkLoc (seg p) (S (round p)) 0 Printing)
      else if (seg p <? B)%nat then Call (CLock (mutex_id (seg p))) (goto 0%nat BeforeLoad)
      else Exit
  | BeforeLoad => Compute m (goto (counts m !!! seg p) BeforeStore)
  | BeforeStore => Compute (set_count (seg p) (reg p + 1) m) (goto 0%nat BeforeTest)
  | BeforeTest => Compute m (goto 0%nat (if (counts m !!! seg p =? THREAD_NUM)%nat then BeforeSignal else BeforeWait))
  | BeforeSignal => Call (CSignal (condvar_id (seg p))) (goto 0%nat BeforeUnlock)
  | BeforeWait => Call (CWait (condvar_id (seg p)) (mutex_id (seg p))) (goto 0%nat BeforePass)
  | BeforePass => Call (CSignal (condvar_id (seg p))) (goto 0%nat BeforeUnlock)
  | BeforeUnlock => Call (CUnlock (mutex_id (seg p))) (mkLoc (S (seg p)) 0 0 Printing)
  end.

Definition born (m : shared) : option (location * shared) :=
  match pending m with O => None | S n => Some (mkLoc 0 0 0 Printing, mkShared (counts m) (output m) n) end.

Definition our_mutex (m : nat) : Prop := exists j, (j < B)%nat /\ m = mutex_id j.
Definition our_cond (c : nat) : Prop := exists j, (j < B)%nat /\ c = condvar_id j.
#[local] Abbreviation none := (fun _ : nat => False).
#[local] Abbreviation ustep := (ustep code born our_mutex none our_cond).
#[local] Abbreviation good := (good our_mutex none (P := location) (M := shared)).

Context (Hmutex : forall i j, (i < B)%nat -> (j < B)%nat -> mutex_id i = mutex_id j -> i = j).
Context (Hcond : forall i j, (i < B)%nat -> (j < B)%nat -> condvar_id i = condvar_id j -> i = j).

(** Where a thread is with respect to barrier [j]. *)
Definition status_of (j : nat) (th : thread location) : Gate.status :=
  let p := point th in
  if (j <? seg p)%nat then Gate.Past
  else if (seg p <? j)%nat then Gate.Before
  else match at_ p with
    | Printing => Gate.Before
    | BeforeLoad | BeforeStore => Gate.Early
    | BeforeTest => Gate.Counted
    | BeforeWait => match doing th with Runs => Gate.Going | _ => Gate.Asleep end
    | BeforeSignal | BeforePass => Gate.Signalling
    | BeforeUnlock => Gate.Leaving
    end.

Definition gate_of (j : nat) (w : uworld location shared) : Gate.gate :=
  Gate.mkGate (status_of j <$> threads w) (cond_queue (fst (kw w)) (condvar_id j)) (counts (memory w) !!! j).

(** It has the mutex of barrier [j]. *)
Definition inside (s : Gate.status) : bool :=
  match s with Gate.Early | Gate.Counted | Gate.Going | Gate.Signalling | Gate.Leaving => true | _ => false end.

Definition placed (th : thread location) : Prop :=
  let p := point th in
  (seg p <= B)%nat /\ (if decide (at_ p = Printing) then round p <= PRINTS else seg p < B)%nat /\
  match doing th with
  | Runs => True
  | Waits c p' => code p (mkShared [] [] 0) = Call c p' /\ (at_ p = Printing \/ at_ p = BeforeWait)
  | Ended => seg p = B /\ at_ p = Printing /\ round p = PRINTS
  end.

Record barred (w : uworld location shared) : Prop := {
  ba_good : good w;
  ba_place t th : threads w !! t = Some th -> placed th;
  ba_holders j : (j < B)%nat -> forall t, t ∈ holders (mutex_id j) (snd (kw w)) <-> exists th, threads w !! t = Some th /\ inside (status_of j th) = true;
  ba_reg t th : threads w !! t = Some th -> at_ (point th) = BeforeStore -> reg (point th) = counts (memory w) !!! seg (point th);
  ba_len : length (counts (memory w)) = B;
  ba_crew : (size (threads w) + pending (memory w) = THREAD_NUM)%nat;
  ba_gate j : (j < B)%nat -> Gate.ok THREAD_NUM (gate_of j w);
  ba_queue c t th : t ∈ cond_queue (fst (kw w)) c -> threads w !! t = Some th ->
    exists j, (j < B)%nat /\ c = condvar_id j /\ status_of j th = Gate.Asleep;
}.

(** ** The mutexes of the barriers exclude *)

Lemma one_in_gate w j t t' th th' :
  barred w -> (j < B)%nat -> threads w !! t = Some th -> threads w !! t' = Some th' ->
  inside (status_of j th) = true -> inside (status_of j th') = true -> t = t'.
Proof.
  intros Hb Hj Ht Ht' H H'. pose proof (mutex_holder _ _ w (mutex_id j) (ba_good _ Hb)) as H1.
  assert (Hin : t ∈ holders (mutex_id j) (snd (kw w))) by (apply (ba_holders _ Hb j Hj); eauto).
  assert (Hin' : t' ∈ holders (mutex_id j) (snd (kw w))) by (apply (ba_holders _ Hb j Hj); eauto).
  destruct (holders (mutex_id j) (snd (kw w))) as [|a [|b l]]; [by apply elem_of_nil in Hin| |cbn in H1; lia].
  apply list_elem_of_singleton in Hin, Hin'. by subst.
Qed.

(** ** Steps *)

Lemma status_other j th : j <> seg (point th) -> inside (status_of j th) = false.
Proof. intros Hj. unfold status_of. destruct (Nat.ltb_spec j (seg (point th))), (Nat.ltb_spec (seg (point th)) j); try done; lia. Qed.

(** A step of a thread of the program. *)
Lemma thread_step w k' log' m' t th th' x :
  barred w -> good (mkU (k', log') (<[t := th']> (threads w)) m') -> threads w !! t = Some th -> placed th' ->
  takes x t (snd (kw w)) log' ->
  (forall j, (j < B)%nat -> inside (status_of j th') = true <->
     match x with Keeps => inside (status_of j th) = true | Takes m => inside (status_of j th) = true \/ m = mutex_id j | Drops m => inside (status_of j th) = true /\ m <> mutex_id j end) ->
  (forall t' th0, <[t := th']> (threads w) !! t' = Some th0 -> at_ (point th0) = BeforeStore -> reg (point th0) = counts m' !!! seg (point th0)) ->
  length (counts m') = B -> pending m' = pending (memory w) ->
  (forall j, (j < B)%nat -> Gate.ok THREAD_NUM (gate_of j (mkU (k', log') (<[t := th']> (threads w)) m'))) ->
  (forall c t' th0, t' ∈ cond_queue k' c -> <[t := th']> (threads w) !! t' = Some th0 -> exists j, (j < B)%nat /\ c = condvar_id j /\ status_of j th0 = Gate.Asleep) ->
  barred (mkU (k', log') (<[t := th']> (threads w)) m').
Proof.
  intros Hb Hg Ht Hp Hx Hin Hreg Hlen Hpe Hgate Hq. split; cbn [kw threads memory fst snd]; try done.
  - intros t' th0. destruct (decide (t = t')) as [<-|Hne]; [rewrite lookup_insert_eq; by intros [= <-]|rewrite lookup_insert_ne by done; apply Hb].
  - intros j Hj t'. rewrite (Hx (mutex_id j) t'). specialize (Hin j Hj).
    assert (Hold : t' ∈ holders (mutex_id j) (snd (kw w)) <-> exists th0, threads w !! t' = Some th0 /\ inside (status_of j th0) = true) by apply (ba_holders _ Hb j Hj).
    destruct (decide (t = t')) as [<-|Hne].
    + rewrite lookup_insert_eq. assert (Hold' : t ∈ holders (mutex_id j) (snd (kw w)) <-> inside (status_of j th) = true) by (rewrite Hold; naive_solver).
      unfold holds_after. destruct x; rewrite Hold'; naive_solver.
    + rewrite lookup_insert_ne by done. rewrite <- Hold. unfold holds_after. destruct x; naive_solver.
  - rewrite map_size_insert_Some by done. rewrite Hpe. apply Hb.
Qed.

(** The gates that a step does not concern. *)
Lemma gate_kept w k' log' m' t th th' j :
  barred w -> (j < B)%nat -> threads w !! t = Some th -> status_of j th' = status_of j th ->
  cond_queue k' (condvar_id j) = cond_queue (fst (kw w)) (condvar_id j) -> counts m' !!! j = counts (memory w) !!! j ->
  Gate.ok THREAD_NUM (gate_of j (mkU (k', log') (<[t := th']> (threads w)) m')).
Proof.
  intros Hb Hj Ht Hs Hq Hc. pose proof (ba_gate _ Hb j Hj) as Ho. unfold gate_of in *. cbn [threads kw fst memory]. rewrite fmap_insert, Hs, Hq, Hc.
  rewrite insert_id; [done|]. by rewrite lookup_fmap, Ht.
Qed.

(** The gate that it concerns. *)
Lemma gate_moved w k' log' m' t th th' j :
  barred w -> (j < B)%nat -> threads w !! t = Some th ->
  Gate.move THREAD_NUM t (gate_of j w) (Gate.mkGate (<[t := status_of j th']> (status_of j <$> threads w)) (cond_queue k' (condvar_id j)) (counts m' !!! j)) ->
  Gate.ok THREAD_NUM (gate_of j (mkU (k', log') (<[t := th']> (threads w)) m')).
Proof.
  intros Hb Hj Ht Hm. unfold gate_of. cbn [threads kw fst memory]. rewrite fmap_insert. eapply Gate.move_ok; [by apply (ba_gate _ Hb j Hj)|exact Hm].
Qed.

Lemma status_at (T : gmap nat (thread location)) t th j s : T !! t = Some th -> status_of j th = s -> (status_of j <$> T) !! t = Some s.
Proof. intros Ht <-. by rewrite lookup_fmap, Ht. Qed.

(** The queues after a step of [t]. *)
Lemma queue_step w k' t th th' :
  barred w -> threads w !! t = Some th -> (forall c, t ∉ cond_queue (fst (kw w)) c) ->
  (forall c t', t' ∈ cond_queue k' c -> t' ∈ cond_queue (fst (kw w)) c \/ (t' = t /\ exists j, (j < B)%nat /\ c = condvar_id j /\ status_of j th' = Gate.Asleep)) ->
  forall c t' th0, t' ∈ cond_queue k' c -> <[t := th']> (threads w) !! t' = Some th0 -> exists j, (j < B)%nat /\ c = condvar_id j /\ status_of j th0 = Gate.Asleep.
Proof.
  intros Hb Ht Hout Hq c t' th0 Hin Hth. destruct (Hq c t' Hin) as [Hold|[-> Hj]].
  - assert (Hne : t <> t') by (intros ->; by apply (Hout c)). rewrite lookup_insert_ne in Hth by done. by apply (ba_queue _ Hb c t').
  - rewrite lookup_insert_eq in Hth. by injection Hth as <-.
Qed.

Lemma status_runs j p : status_of j (mkThread p Runs) <> Gate.Asleep.
Proof. unfold status_of. cbn. repeat case_match; done. Qed.

Lemma running_not_queued w t p : barred w -> threads w !! t = Some (mkThread p Runs) -> forall c, t ∉ cond_queue (fst (kw w)) c.
Proof. intros Hb Ht c Hin. destruct (ba_queue _ Hb c t _ Hin Ht) as (j & _ & _ & Hs). by apply status_runs in Hs. Qed.

Lemma reg_step w t th' m' :
  barred w -> (forall j, (j < B)%nat -> counts m' !!! j = counts (memory w) !!! j) ->
  (at_ (point th') = BeforeStore -> reg (point th') = counts m' !!! seg (point th')) ->
  forall t' th0, <[t := th']> (threads w) !! t' = Some th0 -> at_ (point th0) = BeforeStore -> reg (point th0) = counts m' !!! seg (point th0).
Proof.
  intros Hb Hm Ht t' th0. destruct (decide (t = t')) as [<-|Hne]; [rewrite lookup_insert_eq; intros [= <-]; auto|rewrite lookup_insert_ne by done].
  intros Hth Ha. rewrite Hm; [by apply (ba_reg _ Hb t')|]. destruct (ba_place _ Hb t' th0 Hth) as (_ & Hs & _). by rewrite decide_False in Hs by congruence.
Qed.

(** Steps that no gate notices. *)
Lemma unnoticed w k' log' m' t th th' :
  barred w -> good (mkU (k', log') (<[t := th']> (threads w)) m') -> threads w !! t = Some th -> placed th' ->
  (forall m, holders m log' = holders m (snd (kw w))) -> (forall j, (j < B)%nat -> status_of j th' = status_of j th) ->
  (at_ (point th') = BeforeStore -> reg (point th') = counts m' !!! seg (point th')) ->
  counts m' = counts (memory w) -> pending m' = pending (memory w) ->
  (forall c, cond_queue k' c = cond_queue (fst (kw w)) c) -> (forall c, t ∉ cond_queue (fst (kw w)) c) ->
  barred (mkU (k', log') (<[t := th']> (threads w)) m').
Proof.
  intros Hb Hg Ht Hp Hlog Hs Hr Hc Hpe Hq Hout. apply (thread_step w k' log' m' t th th' Keeps); try done.
  - intros m t'. by rewrite Hlog.
  - intros j Hj. by rewrite (Hs j Hj).
  - apply reg_step; [done|by rewrite Hc|done].
  - rewrite Hc. apply Hb.
  - intros j Hj. eapply gate_kept; try done; [by apply Hs|by rewrite Hc].
  - eapply queue_step; try done. intros c t'. rewrite Hq. auto.
Qed.

(** Steps that only the gate of the segment notices. *)
Lemma noticed w k' log' t p th' x :
  let j0 := seg p in
  barred w -> good (mkU (k', log') (<[t := th']> (threads w)) (memory w)) -> (j0 < B)%nat ->
  forall th, threads w !! t = Some th -> point th = p -> placed th' -> takes x t (snd (kw w)) log' ->
  (forall j, j <> j0 -> status_of j th' = status_of j th) ->
  (match x with
   | Keeps => inside (status_of j0 th') = inside (status_of j0 th)
   | Takes m => m = mutex_id j0 /\ inside (status_of j0 th') = true
   | Drops m => m = mutex_id j0 /\ inside (status_of j0 th') = false
   end) ->
  at_ (point th') <> BeforeStore -> (forall c, t ∉ cond_queue (fst (kw w)) c) ->
  (forall c t', t' ∈ cond_queue k' c -> t' ∈ cond_queue (fst (kw w)) c \/ (t' = t /\ c = condvar_id j0 /\ status_of j0 th' = Gate.Asleep)) ->
  (forall c, c <> condvar_id j0 -> cond_queue k' c = cond_queue (fst (kw w)) c) ->
  Gate.move THREAD_NUM t (gate_of j0 w)
    (Gate.mkGate (<[t := status_of j0 th']> (status_of j0 <$> threads w)) (cond_queue k' (condvar_id j0)) (counts (memory w) !!! j0)) ->
  barred (mkU (k', log') (<[t := th']> (threads w)) (memory w)).
Proof.
  intros j0 Hb Hg Hj0 th Ht <- Hp Hx Hoth Hin Hr Hout Hq Hqo Hmv. apply (thread_step w k' log' (memory w) t th th' x); try done.
  - intros j Hj. destruct (decide (j = j0)) as [->|Hne].
    + destruct x as [|m|m]; [by rewrite Hin|destruct Hin as [-> Hin]; rewrite Hin; tauto|destruct Hin as [-> Hin]; rewrite Hin]. split; [done|tauto].
    + rewrite (Hoth j Hne), (status_other j th Hne). destruct x as [|m|m]; [done| |]; destruct Hin as [-> _]; split; try done.
      * intros [|E]; [done|]. by apply Hmutex in E.
      * by intros [? _].
  - apply reg_step; [done|done|done].
  - apply Hb.
  - intros j Hj. destruct (decide (j = j0)) as [->|Hne]; [by eapply gate_moved|]. eapply gate_kept; try done; [by apply Hoth|].
    apply Hqo. intros E. by apply Hcond in E.
  - eapply queue_step; try done. intros c t' Hc. destruct (Hq c t' Hc) as [|(-> & -> & Hs)]; [by left|right]. split; [done|]. by exists j0.
Qed.

(** The status of a thread in its segment. *)
Lemma status_in j p md :
  seg p = j -> status_of j (mkThread p md) =
  match at_ p with
  | Printing => Gate.Before
  | BeforeLoad | BeforeStore => Gate.Early
  | BeforeTest => Gate.Counted
  | BeforeWait => match md with Runs => Gate.Going | _ => Gate.Asleep end
  | BeforeSignal | BeforePass => Gate.Signalling
  | BeforeUnlock => Gate.Leaving
  end.
Proof. intros <-. unfold status_of. cbn [point doing]. by rewrite Nat.ltb_irrefl. Qed.

Lemma status_elsewhere j p p' md md' : seg p' = seg p -> j <> seg p -> status_of j (mkThread p' md') = status_of j (mkThread p md).
Proof.
  intros E Hj. unfold status_of. cbn [point doing]. rewrite E. destruct (Nat.ltb_spec j (seg p)), (Nat.ltb_spec (seg p) j); try done; lia.
Qed.

Lemma status_onward j p p' md md' : seg p' = S (seg p) -> at_ p' = Printing -> j <> seg p -> status_of j (mkThread p' md') = status_of j (mkThread p md).
Proof.
  intros E Ha Hj. unfold status_of. cbn [point doing]. rewrite E, Ha.
  destruct (Nat.ltb_spec j (seg p)), (Nat.ltb_spec (seg p) j), (Nat.ltb_spec j (S (seg p))), (Nat.ltb_spec (S (seg p)) j); try done; lia.
Qed.

Lemma status_same p p' md md' :
  seg p' = seg p -> status_of (seg p) (mkThread p' md') = status_of (seg p) (mkThread p md) -> forall j, status_of j (mkThread p' md') = status_of j (mkThread p md).
Proof. intros E Hs j. destruct (decide (j = seg p)) as [->|Hj]; [done|by apply status_elsewhere]. Qed.

Lemma in_segment w t th : barred w -> threads w !! t = Some th -> at_ (point th) <> Printing -> (seg (point th) < B)%nat.
Proof. intros Hb Ht Ha. destruct (ba_place _ Hb t th Ht) as (_ & Hs & _). by rewrite decide_False in Hs. Qed.

(** [count] is read, incremented and tested. *)
Lemma compute_step w t p m' p' :
  barred w -> good (mkU (kw w) (<[t := mkThread p' Runs]> (threads w)) m') -> threads w !! t = Some (mkThread p Runs) ->
  code p (memory w) = Compute m' p' -> barred (mkU (kw w) (<[t := mkThread p' Runs]> (threads w)) m').
Proof.
  intros Hb Hg Ht Hc. pose proof (ba_place _ Hb t _ Ht) as (Hsg & Hpl & _). cbn [point] in *. pose proof (running_not_queued w t p Hb Ht) as Hout.
  destruct w as [[k log] T m]. cbn [kw threads memory fst snd] in *. pose proof (in_segment _ t _ Hb Ht) as Hseg. cbn [point] in Hseg.
  unfold code in Hc. destruct (at_ p) eqn:Ea; try done.
  - destruct (Nat.ltb_spec (round p) PRINTS) as [Hr|Hr]; [|by destruct (seg p <? B)%nat]. injection Hc as <- <-.
    eapply (unnoticed (mkU (k, log) T m)); try done. intros j _. apply status_same; [done|]. by rewrite !status_in, Ea.
  - injection Hc as <- <-. specialize (Hseg ltac:(done)). eapply (unnoticed (mkU (k, log) T m)); try done.
    intros j _. apply status_same; [done|]. by rewrite !status_in, Ea.
  - injection Hc as <- <-. specialize (Hseg ltac:(done)). set (p' := mkLoc (seg p) (round p) 0 BeforeTest) in *.
    assert (Hreg : reg p = counts m !!! seg p) by (by apply (ba_reg _ Hb t _ Ht)).
    assert (Hex : forall t' th0, t' <> t -> T !! t' = Some th0 -> inside (status_of (seg p) th0) = true -> False).
    { intros t' th0 Hne Ht' Hi. apply Hne. eapply (one_in_gate _ (seg p)); try done. by rewrite status_in, Ea. }
    assert (Hco : forall j, j <> seg p -> <[seg p := (reg p + 1)%nat]> (counts m) !!! j = counts m !!! j) by (intros j Hj; by apply list_lookup_total_insert_ne).
    apply (thread_step (mkU (k, log) T m) k log _ t (mkThread p Runs) (mkThread p' Runs) Keeps); try done.
    + intros j Hj. destruct (decide (j = seg p)) as [->|Hne]; [|by rewrite (status_elsewhere j p p' Runs Runs)]. by rewrite !status_in, Ea.
    + intros t' th0 Hth Ha. cbn [counts set_count]. destruct (decide (t = t')) as [<-|Hne]; [rewrite lookup_insert_eq in Hth; by injection Hth as <-|].
      rewrite lookup_insert_ne in Hth by done. rewrite Hco; [by apply (ba_reg _ Hb t')|]. intros E. apply (Hex t' th0); try done. rewrite <- E.
      destruct th0 as [p0 md0]. cbn [point] in *. by rewrite status_in, Ha.
    + cbn. rewrite length_insert. apply Hb.
    + intros j Hj. destruct (decide (j = seg p)) as [->|Hne]; [|by eapply gate_kept; [..|apply Hco]; try done; apply status_elsewhere].
      eapply gate_moved; try done. rewrite (status_in (seg p) p') by done. cbn [counts set_count]. rewrite list_lookup_total_insert_eq by (pose proof (ba_len _ Hb) as Hlen; cbn in Hlen; lia).
      rewrite Hreg, Nat.add_1_r. apply Gate.m_count.
      * apply (status_at T t _ _ _ Ht). by rewrite status_in, Ea.
      * intros t' Ht'. cbn [threads] in Ht'. rewrite lookup_fmap in Ht'. destruct (T !! t') as [th0|] eqn:E; [|done]. injection Ht' as Hs.
        apply (Hex t' th0); [|done|by rewrite Hs]. intros ->. rewrite Ht in E. injection E as <-. by rewrite status_in, Ea in Hs.
    + eapply queue_step; try done. auto.
  - injection Hc as <- <-. specialize (Hseg ltac:(done)). set (p' := mkLoc _ _ _ _) in *.
    assert (Hsame : forall j, j <> seg p -> status_of j (mkThread p' Runs) = status_of j (mkThread p Runs)) by (intros j Hj; by apply status_elsewhere).
    assert (Hst : status_of (seg p) (mkThread p Runs) = Gate.Counted) by (by rewrite status_in, Ea).
    eapply (noticed (mkU (k, log) T m) k log t p (mkThread p' Runs) Keeps Hb Hg Hseg _ Ht eq_refl); try done.
    + split_and!; [done| |done]. cbn [point]. unfold p'. cbn. by destruct (_ =? _)%nat.
    + rewrite Hst, (status_in (seg p) p') by done. unfold p'. cbn. by destruct (_ =? _)%nat.
    + unfold p'. cbn. by destruct (_ =? _)%nat.
    + auto.
    + rewrite (status_in (seg p) p') by done. unfold p'. cbn [at_ seg]. destruct (Nat.eqb_spec (counts m !!! seg p) THREAD_NUM) as [E|E].
      * apply Gate.m_last; [by apply (status_at T t _ _ _ Ht)|done].
      * apply Gate.m_more; [by apply (status_at T t _ _ _ Ht)|done].
Qed.

Lemma barred_disciplined w : barred w -> disciplined code w.
Proof.
  intros Hb t p c p' _ Ht Hc. pose proof (in_segment w t _ Hb Ht) as Hseg. cbn [point] in Hseg.
  assert (Hin : at_ p <> Printing -> t ∈ holders (mutex_id (seg p)) (snd (kw w))).
  { intros Ha. apply (ba_holders _ Hb _ (Hseg Ha)). exists (mkThread p Runs). split; [done|]. rewrite status_in by done. by destruct (at_ p). }
  unfold code in Hc. destruct (at_ p) eqn:Ea; try done; [destruct (round p <? PRINTS)%nat; [done|]; destruct (seg p <? B)%nat; [|done]|..];
    injection Hc as <- <-; cbn [allowed]; try done; apply Hin; auto.
Qed.

(** [mutex_lock] returns. *)
Lemma lock_returns w k' log' t p md p' :
  barred w -> good (mkU (k', log') (<[t := mkThread p' Runs]> (threads w)) (memory w)) -> threads w !! t = Some (mkThread p md) ->
  at_ p = Printing -> (seg p < B)%nat -> p' = mkLoc (seg p) (round p) 0 BeforeLoad -> takes (Takes (mutex_id (seg p))) t (snd (kw w)) log' ->
  (forall c, cond_queue k' c = cond_queue (fst (kw w)) c) -> (forall c, t ∉ cond_queue (fst (kw w)) c) ->
  barred (mkU (k', log') (<[t := mkThread p' Runs]> (threads w)) (memory w)).
Proof.
  intros Hb Hg Ht Ha Hj -> Hx Hq Hout. eapply (noticed w k' log' t p _ (Takes (mutex_id (seg p))) Hb Hg Hj _ Ht eq_refl); try done.
  - split_and!; [cbn; lia|done|done].
  - intros j Hne. by apply status_elsewhere.
  - by rewrite status_in.
  - intros c t'. rewrite Hq. auto.
  - rewrite (status_in (seg p) (mkLoc _ _ _ _)) by done. cbn [at_]. rewrite Hq. apply Gate.m_enter. apply (status_at _ t _ _ _ Ht). by rewrite status_in, Ha.
Qed.

(** [condvar_signal] returns. *)
Lemma signal_returns w k' log' t p p' :
  barred w -> good (mkU (k', log') (<[t := mkThread p' Runs]> (threads w)) (memory w)) -> threads w !! t = Some (mkThread p Runs) ->
  at_ p = BeforeSignal \/ at_ p = BeforePass -> p' = mkLoc (seg p) (round p) 0 BeforeUnlock -> takes Keeps t (snd (kw w)) log' ->
  (forall c, cond_queue k' c = cond_after t (CSignal (condvar_id (seg p))) c (cond_queue (fst (kw w)) c)) ->
  barred (mkU (k', log') (<[t := mkThread p' Runs]> (threads w)) (memory w)).
Proof.
  intros Hb Hg Ht Ha -> Hx Hq. pose proof (in_segment w t _ Hb Ht) as Hseg. cbn [point] in Hseg. specialize (Hseg ltac:(by destruct Ha as [-> | ->])).
  assert (Hst : status_of (seg p) (mkThread p Runs) = Gate.Signalling) by (rewrite status_in by done; by destruct Ha as [-> | ->]).
  eapply (noticed w k' log' t p _ Keeps Hb Hg Hseg _ Ht eq_refl); try done.
  - split_and!; [cbn; lia|done|done].
  - intros j Hne. by apply status_elsewhere.
  - by rewrite Hst, status_in.
  - by apply running_not_queued with p.
  - intros c t'. rewrite Hq. cbn. case_decide; [|auto]. intros Hin. left. by destruct (cond_queue _ c); [|right].
  - intros c Hne. rewrite Hq. cbn. by rewrite decide_False.
  - rewrite (status_in (seg p) (mkLoc _ _ _ _)) by done. cbn [at_]. rewrite Hq. cbn [cond_after]. rewrite decide_True by done. apply Gate.m_signal. by apply (status_at _ t _ _ _ Ht).
Qed.

Lemma unlock_returns w k' log' t p :
  let p' := mkLoc (S (seg p)) 0 0 Printing in
  barred w -> good (mkU (k', log') (<[t := mkThread p' Runs]> (threads w)) (memory w)) -> threads w !! t = Some (mkThread p Runs) ->
  at_ p = BeforeUnlock -> takes (Drops (mutex_id (seg p))) t (snd (kw w)) log' -> (forall c, cond_queue k' c = cond_queue (fst (kw w)) c) ->
  barred (mkU (k', log') (<[t := mkThread p' Runs]> (threads w)) (memory w)).
Proof.
  intros p' Hb Hg Ht Ha Hx Hq. pose proof (in_segment w t _ Hb Ht) as Hseg. cbn [point] in Hseg. specialize (Hseg ltac:(by rewrite Ha)).
  assert (Hpast : status_of (seg p) (mkThread p' Runs) = Gate.Past).
  { unfold status_of. cbn [point seg p']. by rewrite (proj2 (Nat.ltb_lt (seg p) (S (seg p)))) by lia. }
  eapply (noticed w k' log' t p _ (Drops (mutex_id (seg p))) Hb Hg Hseg _ Ht eq_refl); try done.
  - split_and!; [cbn; lia|cbn [point at_ round p']; rewrite decide_True by done; lia|done].
  - intros j Hne. by apply status_onward.
  - by rewrite Hpast.
  - by apply running_not_queued with p.
  - intros c t'. rewrite Hq. auto.
  - rewrite Hpast, Hq. apply Gate.m_leave. apply (status_at _ t _ _ _ Ht). by rewrite status_in, Ha.
Qed.

Lemma wait_sleeps w k' log' t p p' :
  let c := CWait (condvar_id (seg p)) (mutex_id (seg p)) in
  barred w -> good (mkU (k', log') (<[t := mkThread p (Waits c p')]> (threads w)) (memory w)) -> threads w !! t = Some (mkThread p Runs) ->
  at_ p = BeforeWait -> p' = mkLoc (seg p) (round p) 0 BeforePass -> takes (Drops (mutex_id (seg p))) t (snd (kw w)) log' ->
  (forall v, cond_queue k' v = cond_after t c v (cond_queue (fst (kw w)) v)) ->
  barred (mkU (k', log') (<[t := mkThread p (Waits c p')]> (threads w)) (memory w)).
Proof.
  intros c Hb Hg Ht Ha -> Hx Hq. pose proof (in_segment w t _ Hb Ht) as Hseg. cbn [point] in Hseg. specialize (Hseg ltac:(by rewrite Ha)).
  eapply (noticed w k' log' t p _ (Drops (mutex_id (seg p))) Hb Hg Hseg _ Ht eq_refl); try done.
  - split_and!; [cbn; lia|cbn [point]; rewrite decide_False by (by rewrite Ha); done|]. cbn [doing point]. unfold code. rewrite Ha. auto.
  - intros j Hne. by apply status_elsewhere.
  - by rewrite status_in, Ha.
  - cbn [point]. by rewrite Ha.
  - by apply running_not_queued with p.
  - intros v t'. rewrite Hq. cbn. case_decide as E; [|auto]. intros [|Hin%list_elem_of_singleton]%elem_of_app; [by left|right]. split_and!; [done|done|]. by rewrite status_in, Ha.
  - intros v Hne. rewrite Hq. cbn. by rewrite decide_False.
  - rewrite (status_in (seg p) p) by done. rewrite Ha, Hq. cbn [cond_after c]. rewrite decide_True by done. apply Gate.m_sleep. apply (status_at _ t _ _ _ Ht). by rewrite status_in, Ha.
Qed.

Lemma wait_returns w k' log' t p c p' :
  barred w -> good (mkU (k', log') (<[t := mkThread p' Runs]> (threads w)) (memory w)) -> threads w !! t = Some (mkThread p (Waits c p')) ->
  at_ p = BeforeWait -> p' = mkLoc (seg p) (round p) 0 BeforePass -> takes (Takes (mutex_id (seg p))) t (snd (kw w)) log' ->
  (forall v, cond_queue k' v = cond_queue (fst (kw w)) v) -> (forall v, t ∉ cond_queue (fst (kw w)) v) ->
  barred (mkU (k', log') (<[t := mkThread p' Runs]> (threads w)) (memory w)).
Proof.
  intros Hb Hg Ht Ha -> Hx Hq Hout. pose proof (in_segment w t _ Hb Ht) as Hseg. cbn [point] in Hseg. specialize (Hseg ltac:(by rewrite Ha)).
  eapply (noticed w k' log' t p _ (Takes (mutex_id (seg p))) Hb Hg Hseg _ Ht eq_refl); try done.
  - split_and!; [cbn; lia|done|done].
  - intros j Hne. by apply status_elsewhere.
  - by rewrite status_in.
  - intros v t'. rewrite Hq. auto.
  - rewrite (status_in (seg p) (mkLoc _ _ _ _)) by done. cbn [at_]. rewrite Hq. apply Gate.m_wake; [|done]. apply (status_at _ t _ _ _ Ht). by rewrite status_in, Ha.
Qed.

(** [main] creates a thread. *)
Lemma create_step w k' t p m' :
  barred w -> good (mkU (k', snd (kw w)) (<[t := mkThread p Runs]> (threads w)) m') -> threads w !! t = None -> born (memory w) = Some (p, m') ->
  (forall v, cond_queue k' v = cond_queue (fst (kw w)) v /\ t ∉ cond_queue (fst (kw w)) v) ->
  barred (mkU (k', snd (kw w)) (<[t := mkThread p Runs]> (threads w)) m').
Proof.
  intros Hb Hg Hn Hbo Hq. unfold born in Hbo. pose proof (ba_crew _ Hb) as Hcr. destruct (pending (memory w)) as [|n] eqn:En; [done|]. injection Hbo as <- <-.
  assert (Hst : forall j, status_of j (mkThread (mkLoc 0 0 0 Printing) Runs) = Gate.Before).
  { intros j. unfold status_of. cbn [point seg at_]. destruct (Nat.ltb_spec j 0); [lia|]. by destruct (0 <? j)%nat. }
  split; cbn [kw threads memory fst snd counts pending]; [done|..].
  - intros t' th. destruct (decide (t = t')) as [<-|Hne]; [|rewrite lookup_insert_ne by done; apply Hb]. rewrite lookup_insert_eq. intros [= <-].
    split_and!; [cbn; lia|cbn [point at_ round]; rewrite decide_True by done; lia|done].
  - intros j Hj t'. rewrite (ba_holders _ Hb j Hj). destruct (decide (t = t')) as [<-|Hne]; [|by rewrite lookup_insert_ne].
    rewrite lookup_insert_eq. split; [intros (th & Ht & _); congruence|]. intros (th & [= <-] & Hin). by rewrite Hst in Hin.
  - intros t' th. destruct (decide (t = t')) as [<-|Hne]; [|rewrite lookup_insert_ne by done; apply Hb]. rewrite lookup_insert_eq. by intros [= <-].
  - apply Hb.
  - rewrite map_size_insert_None by done. lia.
  - intros j Hj. unfold gate_of. cbn [threads kw fst memory counts]. rewrite fmap_insert, Hst. eapply Gate.move_ok; [by apply (ba_gate _ Hb j Hj)|].
    unfold gate_of. destruct (Hq (condvar_id j)) as [-> _]. apply (Gate.m_new _ t); [by rewrite lookup_fmap, Hn|]. rewrite map_size_fmap. lia.
  - intros c t' th Hin. destruct (Hq c) as [Hqc Hnq]. rewrite Hqc in Hin. rewrite lookup_insert_ne by (intros ->; done). by apply (ba_queue _ Hb).
Qed.

Lemma call_step w t p c p' k' (b : bool) :
  let log' := (if b then after_call t c else []) ++ before_call t c (fst (kw w)) ++ snd (kw w) in
  let th' := if b then mkThread p' Runs else mkThread p (Waits c p') in
  barred w -> good (mkU (k', log') (<[t := th']> (threads w)) (memory w)) -> threads w !! t = Some (mkThread p Runs) ->
  code p (memory w) = Call c p' -> (b = false -> exists kc, suspends c kc) -> (forall v m, c = CWait v m -> b = false) ->
  (forall v, cond_queue k' v = cond_after t c v (cond_queue (fst (kw w)) v)) -> barred (mkU (k', log') (<[t := th']> (threads w)) (memory w)).
Proof.
  intros log' th' Hb Hg Ht Hc Hsus Hwait Hq. unfold log', th' in *. clear log' th'. pose proof (running_not_queued w t p Hb Ht) as Hout.
  pose proof (ba_place _ Hb t _ Ht) as (Hsg & Hpl & _). cbn [point] in *. unfold code in Hc. destruct (at_ p) eqn:Ea; try done.
  - destruct (Nat.ltb_spec (round p) PRINTS) as [|Hr]; [done|]. destruct (Nat.ltb_spec (seg p) B) as [Hj|]; [|done]. injection Hc as <- <-. destruct b.
    + eapply (lock_returns w _ _ t p Runs); try done. apply takes_locked.
    + eapply (unnoticed w _ _ _ t (mkThread p Runs)); try done; cbn [point]; [|by intros j _; apply status_same; rewrite ?status_in, ?Ea|by rewrite Ea].
      split_and!; [done|cbn [point]; by rewrite Ea|]. cbn [doing point]. split; [|by left]. unfold code. rewrite Ea. rewrite (proj2 (Nat.ltb_ge _ _)) by done.
      by rewrite (proj2 (Nat.ltb_lt _ _)).
  - injection Hc as <- <-. destruct b; [|by destruct (Hsus eq_refl)]. eapply signal_returns; try done; by left.
  - injection Hc as <- <-. rewrite (Hwait _ _ eq_refl) in *. eapply wait_sleeps; try done. apply takes_unlocked.
  - injection Hc as <- <-. destruct b; [|by destruct (Hsus eq_refl)]. eapply signal_returns; try done; by right.
  - injection Hc as <- <-. destruct b; [|by destruct (Hsus eq_refl)]. eapply unlock_returns; try done. apply takes_unlocked.
Qed.

Lemma return_step w t p c p' k' :
  let log' := returned t c ++ Dispatched t :: snd (kw w) in
  barred w -> good (mkU (k', log') (<[t := mkThread p' Runs]> (threads w)) (memory w)) -> threads w !! t = Some (mkThread p (Waits c p')) ->
  (forall v, cond_queue k' v = cond_queue (fst (kw w)) v /\ t ∉ cond_queue (fst (kw w)) v) ->
  barred (mkU (k', log') (<[t := mkThread p' Runs]> (threads w)) (memory w)).
Proof.
  intros log' Hb Hg Ht Hq. destruct (ba_place _ Hb t _ Ht) as (_ & Hpl & Hc & Ha). cbn [point doing] in *.
  assert (Hq1 : forall v, cond_queue k' v = cond_queue (fst (kw w)) v) by apply Hq. assert (Hq2 : forall v, t ∉ cond_queue (fst (kw w)) v) by apply Hq.
  unfold code in Hc. destruct Ha as [Ea|Ea]; rewrite Ea in Hc.
  - destruct (Nat.ltb_spec (round p) PRINTS) as [|Hr]; [done|]. destruct (Nat.ltb_spec (seg p) B) as [Hj|]; [|done]. injection Hc as <- <-.
    eapply (lock_returns w _ _ t p); try done. apply (takes_locked t _ (Dispatched t :: snd (kw w))).
  - injection Hc as <- <-. eapply (wait_returns w _ _ t p); try done. apply (takes_locked t _ (Dispatched t :: snd (kw w))).
Qed.

Lemma barred_step w w' : barred w -> ustep w w' -> barred w'.
Proof.
  intros Hb Hs. destruct (ustep_effect _ _ _ _ _ w w' (ba_good _ Hb) (barred_disciplined w Hb) Hs) as [Hg He]. clear Hs.
  destruct He as [w t p m' p' Ht Hc|w t p c p' k' b Ht Hc Hsus Hwait Hq|w t p c p' k' Ht Hq|w t p k' Ht Hc Hq|w t p k' m' Ht Hbo Hq|w k' log' Hlog [Hq1 Hq2]].
  - by apply (compute_step w t p).
  - by apply (call_step w t p c p').
  - by eapply (return_step w t p c).
  - pose proof (ba_place _ Hb t _ Ht) as (Hsg & Hpl & _). cbn [point] in *. unfold code in Hc. destruct (at_ p) eqn:Ea; try done.
    destruct (Nat.ltb_spec (round p) PRINTS) as [|Hr]; [done|]. destruct (Nat.ltb_spec (seg p) B) as [|Hj]; [done|]. rewrite decide_True in Hpl by done.
    eapply (unnoticed w _ _ _ t (mkThread p Runs)); try done; cbn [point].
    + split_and!; [done|cbn [point]; by rewrite Ea|]. cbn. split_and!; [lia|done|lia].
    + intros j Hjb. apply status_elsewhere; [done|lia].
    + by rewrite Ea.
    + intros c. by apply cond_queue_same.
    + by eapply running_not_queued.
  - by apply (create_step w).
  - destruct Hb as [_ Hp Hh Hr Hl Hcr Hga Hqu]. split; cbn [kw threads memory fst snd]; try done.
    + intros j Hj t. destruct Hlog as [_ Hlog]. rewrite (Hlog (mutex_id j)) by (by exists j). by apply Hh.
    + intros j Hj. specialize (Hga j Hj). unfold gate_of in *. cbn [threads kw fst memory]. rewrite Hq1 by (by exists j). done.
    + intros c t th Hin Ht. apply (Hqu c t th); [|done]. apply Hq2; [by rewrite Ht|done].
Qed.

Lemma barred_steps w w' : barred w -> rtc ustep w w' -> barred w'.
Proof. intros Hb Hs. induction Hs as [|w w1 w' Hs _ IH]; [done|]. apply IH. by eapply barred_step. Qed.

(** ** No deadlock *)

Lemma inside_runs w t th j : barred w -> (j < B)%nat -> threads w !! t = Some th -> inside (status_of j th) = true -> doing th = Runs.
Proof.
  intros Hb Hj Ht Hi. destruct (ba_place _ Hb t th Ht) as (_ & _ & Hd). destruct (decide (j = seg (point th))) as [->|Hne]; [|by rewrite status_other in Hi].
  destruct th as [p md]. cbn [point doing] in *. rewrite status_in in Hi by done. destruct md as [|c p'|]; [done| |].
  - destruct Hd as [_ [Ha|Ha]]; by rewrite Ha in Hi.
  - destruct Hd as (_ & Ha & _). by rewrite Ha in Hi.
Qed.

(** When no thread of the program runs or is ready, those that have not exited sleep at a
    barrier. *)
Lemma stalled_asleep w t th :
  barred w -> stalled w -> threads w !! t = Some th -> doing th <> Ended ->
  (seg (point th) < B)%nat /\ status_of (seg (point th)) th = Gate.Asleep /\ t ∈ cond_queue (fst (kw w)) (condvar_id (seg (point th))).
Proof.
  intros Hb Hst Ht Hne. assert (Hfree : forall j t', (j < B)%nat -> t' ∉ holders (mutex_id j) (snd (kw w))).
  { intros j t' Hj Hin. apply (ba_holders _ Hb j Hj) in Hin as (th' & Ht' & Hi). pose proof (inside_runs w t' th' j Hb Hj Ht' Hi) as Hr.
    destruct th' as [p' md]. cbn in Hr. subst md. eapply stalled_not_running; [by apply ba_good|done|done]. }
  destruct (ba_place _ Hb t th Ht) as (Hsg & Hpl & Hd). destruct th as [p md]. cbn [point doing] in *. destruct md as [|c p'|]; [| |done].
  - exfalso. eapply stalled_not_running; [by apply ba_good|done|done].
  - destruct Hd as [Hc [Ha|Ha]]; unfold code in Hc; rewrite Ha in Hc.
    + destruct (round p <? PRINTS)%nat; [done|]. destruct (Nat.ltb_spec (seg p) B) as [Hj|]; [|done]. injection Hc as <- _.
      destruct (stalled_lock _ _ w t p _ p' (ba_good _ Hb) Hst ltac:(by exists (seg p)) Ht) as [t' Hin]. by apply Hfree in Hin.
    + rewrite decide_False in Hpl by congruence. injection Hc as <- _.
      destruct (stalled_wait _ _ w t p _ _ p' (ba_good _ Hb) Hst ltac:(by exists (seg p)) Ht) as [[t' Hin]|[c Hin]]; [by apply Hfree in Hin|].
      destruct (ba_queue _ Hb c t _ Hin Ht) as (j & Hj & -> & Hs). assert (E : j = seg p).
      { unfold status_of in Hs. cbn [point] in Hs. destruct (Nat.ltb_spec j (seg p)), (Nat.ltb_spec (seg p) j); try done; lia. }
      subst j. done.
Qed.

(** Then nobody sleeps: at the first barrier where somebody does, all have come. *)
Lemma all_come w j : barred w -> (j < B)%nat -> pending (memory w) = 0%nat ->
  (forall t th, threads w !! t = Some th -> Gate.has_come (status_of j th) = true) -> counts (memory w) !!! j = THREAD_NUM.
Proof.
  intros Hb Hj Hpe Hall. pose proof (Gate.ok_count _ _ (ba_gate _ Hb j Hj)) as Hc. unfold gate_of in Hc. cbn [Gate.count Gate.st] in Hc.
  rewrite Hc. unfold Gate.come. pose proof (ba_crew _ Hb) as Hcr. rewrite map_filter_id.
  - rewrite map_size_fmap. lia.
  - intros t s Hs. rewrite lookup_fmap in Hs. destruct (threads w !! t) as [th|] eqn:Et; [|done]. injection Hs as <-. cbn. by eapply Hall.
Qed.

Lemma nobody_asleep w j t th : barred w -> stalled w -> pending (memory w) = 0%nat -> threads w !! t = Some th -> seg (point th) = j -> doing th <> Ended ->
  (forall t' th', threads w !! t' = Some th' -> doing th' <> Ended -> (j <= seg (point th'))%nat) -> False.
Proof.
  intros Hb Hst Hpe Ht Hj Hne Hmin. subst j. destruct (stalled_asleep w t th Hb Hst Ht Hne) as (Hj & Hs & Hq). set (j := seg (point th)) in *.
  assert (Hcount : counts (memory w) !!! j = THREAD_NUM).
  { apply all_come; try done. intros t' th' Ht'. destruct (ba_place _ Hb t' th' Ht') as (Hsg & _ & Hd).
    assert (Hor : doing th' = Ended \/ doing th' <> Ended) by (destruct (doing th'); auto).
    destruct Hor as [He|He].
    - rewrite He in Hd. destruct Hd as (Hsb & _). unfold status_of. rewrite (proj2 (Nat.ltb_lt _ _)) by lia. done.
    - destruct (decide (seg (point th') = j)) as [Ej|Ej]; [destruct (stalled_asleep w t' th' Hb Hst Ht' He) as (_ & Hs' & _); by rewrite <- Ej, Hs'|].
      specialize (Hmin t' th' Ht' He). unfold status_of. rewrite (proj2 (Nat.ltb_lt _ _)) by lia. done. }
  destruct (Gate.ok_token _ _ (ba_gate _ Hb j Hj) Hcount) as [Hnil|[t' Hto]].
  - cbn in Hnil. rewrite Hnil in Hq. by apply elem_of_nil in Hq.
  - unfold Gate.token, gate_of in Hto. cbn [Gate.st Gate.queue] in Hto. rewrite lookup_fmap in Hto.
    destruct (threads w !! t') as [th'|] eqn:Et'; [|naive_solver]. cbn in Hto.
    assert (Hin : inside (status_of j th') = true -> False).
    { intros Hi. pose proof (inside_runs w t' th' j Hb Hj Et' Hi) as Hr. destruct th' as [p' md]. cbn in Hr. subst md.
      eapply stalled_not_running; [by apply ba_good|done|done]. }
    destruct Hto as [[= E]|[[= E]|[[= E] Hnq]]]; [apply Hin; by rewrite E|apply Hin; by rewrite E|].
    assert (Hsame : seg (point th') = j) by (destruct (decide (j = seg (point th'))) as [|Hd]; [done|]; unfold status_of in E;
      destruct (Nat.ltb_spec j (seg (point th'))), (Nat.ltb_spec (seg (point th')) j); try done; lia).
    destruct (stalled_asleep w t' th' Hb Hst Et') as (_ & _ & Hq'); [|by rewrite Hsame in Hq'].
    intros He. destruct (ba_place _ Hb t' th' Et') as (_ & _ & Hd). rewrite He in Hd. destruct Hd as (Hsb & _). lia.
Qed.

Lemma barrier_stalled_ended w : barred w -> stalled w -> pending (memory w) = 0%nat -> forall t th, threads w !! t = Some th -> doing th = Ended.
Proof.
  intros Hb Hst Hpe. assert (H : forall n t th, threads w !! t = Some th -> (seg (point th) < n)%nat -> doing th = Ended).
  { induction n as [|n IH]; intros t th Ht Hlt; [lia|]. destruct (decide (seg (point th) < n)%nat) as [|Hge]; [by eapply IH|].
    destruct (doing th) eqn:Ed; [| |done]; exfalso; (apply (nobody_asleep w (seg (point th)) t th Hb Hst Hpe Ht eq_refl); [by rewrite Ed|]);
      intros t' th' Ht' Hne; (destruct (decide (seg (point th') < n)%nat) as [Hl|]; [|lia]); exfalso; exact (Hne (IH t' th' Ht' Hl)). }
  intros t th Ht. apply (H (S (seg (point th))) t th); [done|lia].
Qed.

(** ** The output *)

Definition printed (j : nat) (p : location) : Z :=
  if (j <? seg p)%nat then Z.of_nat PRINTS else if (seg p <? j)%nat then 0
  else match at_ p with Printing => Z.of_nat (round p) | _ => Z.of_nat PRINTS end.

Definition times (j : nat) (l : list nat) : nat := length (filter (fun x => x = j) l).

Record ordered (w : uworld location shared) : Prop := {
  or_sorted : StronglySorted le (output (memory w));
  or_letters l : l ∈ output (memory w) -> exists t th, threads w !! t = Some th /\ (l <= seg (point th))%nat;
  or_times j : (j <= B)%nat -> Z.of_nat (times j (output (memory w))) = total (printed j) (threads w);
}.

(** Nobody is ahead of a thread that has not come to the next barrier. *)
Lemma nobody_ahead w t th t' th' :
  barred w -> threads w !! t = Some th -> at_ (point th) = Printing -> threads w !! t' = Some th' -> (seg (point th') <= seg (point th))%nat.
Proof.
  intros Hb Ht Ha Ht'. destruct (decide (seg (point th') <= seg (point th))%nat) as [|Hgt]; [done|]. exfalso. set (j := seg (point th)) in *.
  destruct (ba_place _ Hb t' th' Ht') as (Hsg & _). assert (Hj : (j < B)%nat) by lia. pose proof (ba_gate _ Hb j Hj) as Ho.
  assert (Hlt : (counts (memory w) !!! j < THREAD_NUM)%nat).
  { apply (Gate.not_full THREAD_NUM (gate_of j w) t Gate.Before Ho); [|done]. cbn. apply (status_at _ t _ _ _ Ht). destruct th as [p md]. cbn in Ha. by rewrite status_in, Ha. }
  destruct (Gate.ok_closed _ _ Ho ltac:(cbn; lia) t' Gate.Past) as [Hth _]; [|done]. cbn. apply (status_at _ t' _ _ _ Ht').
  unfold status_of. by rewrite (proj2 (Nat.ltb_lt _ _)) by lia.
Qed.

(** Steps that print nothing. *)
Lemma ordered_kept w kw' m' t th th' :
  ordered w -> threads w !! t = Some th -> output m' = output (memory w) -> (seg (point th) <= seg (point th'))%nat ->
  (forall j, (j <= B)%nat -> printed j (point th') = printed j (point th)) -> ordered (mkU kw' (<[t := th']> (threads w)) m').
Proof.
  intros [Hs Hl Ht] Hth Ho Hle Hp. split; cbn [threads memory]; rewrite ?Ho; [done| |].
  - intros l Hin. destruct (Hl l Hin) as (t' & th0 & Ht' & Hle'). destruct (decide (t = t')) as [<-|Hne].
    + exists t, th'. rewrite lookup_insert_eq. split; [done|]. rewrite Hth in Ht'. injection Ht' as <-. lia.
    + exists t', th0. by rewrite lookup_insert_ne.
  - intros j Hj. rewrite (total_update _ _ t th th') by done. rewrite (Hp j Hj), (Ht j Hj). lia.
Qed.

Lemma printed_moves p p' m m' :
  placed (mkThread p Runs) -> (exists c, code p m = Call c p') \/ code p m = Compute m' p' -> at_ p <> Printing \/ at_ p' <> Printing ->
  (seg p <= seg p')%nat /\ forall j, printed j p' = printed j p.
Proof.
  intros (_ & Hpl & _) Hc Ha. cbn [point] in Hpl. unfold code in Hc. unfold printed.
  destruct (at_ p) eqn:Ea; [|destruct Hc as [[c Hc]|Hc]; try done; injection Hc; intros; subst; cbn [seg round at_]; rewrite ?Ea..].
  - rewrite decide_True in Hpl by done. destruct (Nat.ltb_spec (round p) PRINTS) as [|Hr].
    + destruct Hc as [[c Hc]|Hc]; [done|]. injection Hc as _ <-. by destruct Ha.
    + destruct (seg p <? B)%nat; [|by destruct Hc as [[c Hc]|Hc]]. destruct Hc as [[c Hc]|Hc]; [|done]. injection Hc as _ <-. cbn [seg round at_].
      split; [lia|]. intros j. repeat case_match; lia.
  - done.
  - done.
  - split; [lia|]. intros j. repeat case_match; done.
  - done.
  - done.
  - done.
  - split; [lia|]. intros j. destruct (Nat.ltb_spec j (S (seg p))), (Nat.ltb_spec (S (seg p)) j), (Nat.ltb_spec j (seg p)), (Nat.ltb_spec (seg p) j); lia.
Qed.

Lemma sorted_snoc l x : StronglySorted le l -> (forall y, y ∈ l -> (y <= x)%nat) -> StronglySorted le (l ++ [x]).
Proof.
  induction 1 as [|y l Hs IH Hy]; intros Hx; cbn; [repeat constructor|]. constructor.
  - apply IH. intros z Hz. apply Hx. by right.
  - apply Forall_app. split; [done|]. constructor; [|done]. apply Hx. by left.
Qed.

Lemma times_snoc j l x : times j (l ++ [x]) = (times j l + if decide (x = j) then 1 else 0)%nat.
Proof. unfold times. rewrite filter_app, length_app. rewrite filter_cons, filter_nil. by case_decide. Qed.

Lemma ordered_print w kw' t p :
  barred w -> ordered w -> threads w !! t = Some (mkThread p Runs) -> at_ p = Printing -> (round p < PRINTS)%nat ->
  ordered (mkU kw' (<[t := mkThread (mkLoc (seg p) (S (round p)) 0 Printing) Runs]> (threads w)) (print (seg p) (memory w))).
Proof.
  intros Hb Ho Ht Ha Hr. assert (Hall : forall l, l ∈ output (memory w) -> (l <= seg p)%nat).
  { intros l Hin. destruct (or_letters _ Ho l Hin) as (t' & th' & Ht' & Hle). pose proof (nobody_ahead w t _ t' th' Hb Ht Ha Ht'). cbn in *. lia. }
  set (p' := mkLoc (seg p) (S (round p)) 0 Printing). split; cbn [threads memory output print].
  - apply sorted_snoc; [apply Ho|done].
  - intros l Hl. exists t, (mkThread p' Runs). rewrite lookup_insert_eq. split; [done|]. cbn. apply elem_of_app in Hl as [Hl|Hl%list_elem_of_singleton]; [auto|lia].
  - intros j Hj. rewrite (total_update _ _ t _ _ Ht). rewrite times_snoc, Nat2Z.inj_add, (or_times _ Ho j Hj). cbn [point]. unfold printed. cbn [seg round at_ p'].
    rewrite Ha. destruct (Nat.ltb_spec j (seg p)), (Nat.ltb_spec (seg p) j); case_decide; lia.
Qed.

Lemma ordered_step w w' : barred w -> ordered w -> ustep w w' -> ordered w'.
Proof.
  intros Hb Ho Hs. destruct (ustep_effect _ _ _ _ _ w w' (ba_good _ Hb) (barred_disciplined w Hb) Hs) as [_ He]. clear Hs.
  destruct He as [w t p m' p' Ht Hc|w t p c p' k' b Ht Hc Hsus Hwait Hq|w t p c p' k' Ht Hq|w t p k' Ht Hc Hq|w t p k' m' Ht Hbo Hq|w k' log' Hlog [Hq1 Hq2]].
  - pose proof (ba_place _ Hb t _ Ht) as Hp. destruct (decide (at_ p = Printing)) as [Ha|Ha].
    + unfold code in Hc. rewrite Ha in Hc. destruct (Nat.ltb_spec (round p) PRINTS) as [Hr|]; [|by destruct (seg p <? B)%nat]. injection Hc as <- <-.
      by apply ordered_print.
    + destruct (printed_moves p p' (memory w) m' Hp (or_intror Hc) (or_introl Ha)) as [Hle Hpr]. eapply ordered_kept; try done.
      unfold code in Hc. destruct (at_ p); try done; by injection Hc as <- _.
  - pose proof (ba_place _ Hb t _ Ht) as Hp. destruct b; [|by eapply ordered_kept].
    assert (Ha : at_ p <> Printing \/ at_ p' <> Printing).
    { unfold code in Hc. destruct (at_ p); try (left; done). right. destruct (round p <? PRINTS)%nat; [done|]. destruct (seg p <? B)%nat; [|done]. by injection Hc as _ <-. }
    destruct (printed_moves p p' (memory w) (memory w) Hp (or_introl (ex_intro _ c Hc)) Ha) as [Hle Hpr]. by eapply ordered_kept.
  - destruct (ba_place _ Hb t _ Ht) as (H1 & H2 & Hc & _). cbn [doing point] in *.
    assert (Ha : at_ p <> Printing \/ at_ p' <> Printing).
    { unfold code in Hc. destruct (at_ p); try (left; done). right. destruct (round p <? PRINTS)%nat; [done|]. destruct (seg p <? B)%nat; [|done]. by injection Hc as _ <-. }
    destruct (printed_moves p p' _ (memory w) (conj H1 (conj H2 I)) (or_introl (ex_intro _ c Hc)) Ha) as [Hle Hpr]. by eapply ordered_kept.
  - by eapply ordered_kept.
  - unfold born in Hbo. destruct (pending (memory w)); [done|]. injection Hbo as <- <-. destruct Ho as [Hso Hl Hti]. split; cbn [threads memory output]; [done| |].
    + intros l Hin. destruct (Hl l Hin) as (t' & th0 & Ht' & Hle). exists t', th0. rewrite lookup_insert_ne; [done|]. intros ->. congruence.
    + intros j Hj. rewrite total_new by done. rewrite (Hti j Hj). unfold printed. cbn [point seg at_ round]. destruct (Nat.ltb_spec j 0), (Nat.ltb_spec 0 j); lia.
  - by destruct Ho.
Qed.

Lemma run_ordered w w' : barred w -> ordered w -> rtc ustep w w' -> barred w' /\ ordered w'.
Proof. intros Hb Ho Hs. induction Hs as [|w w1 w' Hs _ IH]; [done|]. apply IH; [by eapply barred_step|by eapply ordered_step]. Qed.

(** Who has all printed. *)
Lemma prints_complete w j :
  ordered w -> (j <= B)%nat -> (forall t th, threads w !! t = Some th -> printed j (point th) = Z.of_nat PRINTS) ->
  times j (output (memory w)) = (size (threads w) * PRINTS)%nat.
Proof.
  intros Ho Hj Hall. apply Nat2Z.inj. rewrite (or_times _ Ho j Hj). rewrite (total_ext _ (fun _ => Z.of_nat PRINTS)) by done.
  rewrite total_const. lia.
Qed.

Lemma letter_complete w j :
  barred w -> ordered w -> (j < B)%nat -> (exists l, l ∈ output (memory w) /\ (j < l)%nat) -> times j (output (memory w)) = (THREAD_NUM * PRINTS)%nat.
Proof.
  intros Hb Ho Hj (l & Hin & Hl). destruct (or_letters _ Ho l Hin) as (t & th & Ht & Hle). pose proof (ba_gate _ Hb j Hj) as Hg.
  assert (Hfull : counts (memory w) !!! j = THREAD_NUM).
  { destruct (decide (counts (memory w) !!! j = THREAD_NUM)) as [|Hne]; [done|]. destruct (Gate.ok_closed _ _ Hg Hne t Gate.Past) as [Hth _]; [|done].
    cbn. apply (status_at _ t _ _ _ Ht). unfold status_of. by rewrite (proj2 (Nat.ltb_lt _ _)) by lia. }
  assert (Hsz : size (threads w) = THREAD_NUM).
  { pose proof (Gate.ok_count _ _ Hg) as Hc. pose proof (Gate.come_le (Gate.st (gate_of j w))) as Hcl. pose proof (ba_crew _ Hb).
    cbn in Hc, Hcl. rewrite map_size_fmap in Hcl. lia. }
  rewrite <- Hsz. apply prints_complete; [done|lia|]. intros t' th' Ht'. unfold printed.
  destruct (Nat.ltb_spec j (seg (point th'))) as [|Hge]; [done|].
  assert (Hcome : Gate.has_come (status_of j th') = true).
  { destruct (Gate.has_come (status_of j th')) eqn:E; [done|]. pose proof (Gate.not_full _ _ t' _ Hg (status_at _ t' _ j _ Ht' eq_refl) E). cbn in *. lia. }
  unfold status_of in Hcome. rewrite (proj2 (Nat.ltb_ge _ _)) in Hcome by done. destruct (seg (point th') <? j)%nat; [done|]. by destruct (at_ (point th')).
Qed.
End barrier.

(** ** Sorted lists of letters *)

Lemma keep_all a l : Forall (fun y => y <> a) l -> filter (fun x => x <> a) l = l /\ times a l = 0%nat.
Proof.
  unfold times. induction 1 as [|y l Hy _ [IH1 IH2]]; [done|]. rewrite !filter_cons. rewrite decide_True by done. rewrite decide_False by done. by rewrite IH1.
Qed.

Lemma sorted_first a l : StronglySorted le l -> Forall (fun x => (a <= x)%nat) l -> l = replicate (times a l) a ++ filter (fun x => x <> a) l.
Proof.
  induction 1 as [|x l Hs IH Hx]; intros Ha; [done|]. apply Forall_cons in Ha as [Hax Ha]. destruct (decide (x = a)) as [->|Hne].
  - unfold times in *. rewrite !filter_cons. rewrite decide_True by done. rewrite decide_False by auto. cbn. f_equal. by apply IH.
  - destruct (keep_all a (x :: l)) as [-> ->]; [|done]. constructor; [done|]. eapply Forall_impl; [exact Hx|]. cbn. intros y Hy. lia.
Qed.

Lemma sorted_filter a l : StronglySorted le l -> StronglySorted le (filter (fun x => x <> a) l).
Proof.
  induction 1 as [|x l Hs IH Hx]; [constructor|]. rewrite filter_cons. case_decide; [|done]. constructor; [done|]. rewrite Forall_forall in Hx |- *. intros y Hy. apply list_elem_of_filter in Hy as [_ Hy]. by apply Hx.
Qed.

Lemma times_filter a j l : j <> a -> times j (filter (fun x => x <> a) l) = times j l.
Proof. intros Hj. unfold times. rewrite list_filter_filter_l; [done|]. naive_solver. Qed.

Lemma sorted_blocks n : forall a l, StronglySorted le l -> Forall (fun x => (a <= x < a + n)%nat) l -> l = concat ((fun j => replicate (times j l) j) <$> seq a n).
Proof.
  induction n as [|n IH]; intros a l Hs Hl; cbn [seq fmap list_fmap concat].
  - destruct l as [|x l]; [done|]. apply Forall_cons in Hl as [Hx _]. lia.
  - rewrite (sorted_first a l Hs) at 1 by (eapply Forall_impl; [exact Hl|]; cbn; lia). f_equal.
    rewrite (IH (S a) (filter (fun x => x <> a) l)) at 1; [|by apply sorted_filter|].
    + f_equal. apply list_fmap_ext. intros i j Hij. apply lookup_seq in Hij as [-> _]. by rewrite times_filter by lia.
    + apply Forall_forall. intros x Hx. apply list_elem_of_filter in Hx as [Hne Hx]. rewrite Forall_forall in Hl. specialize (Hl x Hx). lia.
Qed.

(** ** The program *)

Definition barrier_step (THREAD_NUM PRINTS : nat) (mutex_id condvar_id : nat -> nat) : uworld location shared -> uworld location shared -> Prop :=
  ustep (code 2 THREAD_NUM PRINTS mutex_id condvar_id) born (our_mutex 2 mutex_id) (fun _ => False) (our_cond 2 condvar_id).

Lemma start_barred B THREAD_NUM PRINTS mutex_id condvar_id w0 :
  reachable w0 -> (forall j, (j < B)%nat -> (length (mutexes (fst w0)) <= mutex_id j)%nat /\ (length (condvars (fst w0)) <= condvar_id j)%nat) ->
  barred B THREAD_NUM PRINTS mutex_id condvar_id (mkU w0 ∅ (mkShared (replicate B 0%nat) [] THREAD_NUM)).
Proof.
  intros Hr Hnew. destruct (reachable_known w0 Hr) as [Hi Hk]. split; cbn [kw threads memory fst snd counts pending].
  - split; cbn [kw threads fst]; [done|by intros t th; rewrite lookup_empty| |done]. intros t kc _ Hin Hkc.
    destruct (decide (current (fst w0) = Some t)) as [|Hne]; [by left|]. right. specialize (Hk t kc Hin Hne Hkc).
    destruct kc; cbn in *; try tauto; intros (i & Hi' & ->); destruct (Hnew i Hi') as [Hm _]; apply lookup_lt_is_Some in Hk; lia.
  - intros t th. by rewrite lookup_empty.
  - intros j Hj t. split; [|intros (th & Ht & _); by rewrite lookup_empty in Ht]. intros Hin. exfalso.
    pose proof (inv_mutex _ Hi (mutex_id j)) as Hl. rewrite lookup_ge_None_2 in Hl by (by apply Hnew). destruct Hl as [Hl _]. unfold held in Hl.
    destruct (holders (mutex_id j) (snd w0)); [by apply elem_of_nil in Hin|]. cbn in Hl. lia.
  - intros t th. by rewrite lookup_empty.
  - apply length_replicate.
  - by rewrite map_size_empty.
  - intros j Hj. assert (Hq : cond_queue (fst w0) (condvar_id j) = []).
    { unfold cond_queue. by rewrite lookup_ge_None_2 by (by apply Hnew). }
    unfold gate_of. cbn [threads kw fst memory counts]. rewrite fmap_empty, Hq, lookup_total_replicate_2 by done.
    split; cbn [Gate.st Gate.queue Gate.count]; try (intros *; by rewrite lookup_empty); try (by intros ? ?%elem_of_nil); [rewrite map_size_empty; lia|done|constructor| |by left].
    intros _ t s. by rewrite lookup_empty.
  - intros c t th _. by rewrite lookup_empty.
Qed.

Lemma start_ordered B PRINTS w0 m : output m = [] -> ordered B PRINTS (mkU w0 ∅ m).
Proof. intros Ho. split; cbn [threads memory]; rewrite ?Ho; [constructor|by intros l ?%elem_of_nil|done]. Qed.

Lemma two_distinct (f : nat -> nat) : f 0%nat <> f 1%nat -> forall i j, (i < 2)%nat -> (j < 2)%nat -> f i = f j -> i = j.
Proof. intros Hf i j Hi Hj E. destruct i as [|[|]], j as [|[|]]; congruence || lia. Qed.

Lemma final_output THREAD_NUM PRINTS mutex_id condvar_id w :
  barred 2 THREAD_NUM PRINTS mutex_id condvar_id w -> ordered 2 PRINTS w -> pending (memory w) = 0%nat ->
  (forall t th, threads w !! t = Some th -> doing th = Ended) ->
  output (memory w) = replicate (THREAD_NUM * PRINTS) 0%nat ++ replicate (THREAD_NUM * PRINTS) 1%nat ++ replicate (THREAD_NUM * PRINTS) 2%nat.
Proof.
  intros Hb Ho Hpe Hend. assert (Hti : forall j, (j <= 2)%nat -> times j (output (memory w)) = (THREAD_NUM * PRINTS)%nat).
  { intros j Hj. rewrite (prints_complete 2 PRINTS w j Ho Hj); [pose proof (ba_crew _ _ _ _ _ _ Hb); f_equal; lia|]. intros t th Ht.
    destruct (ba_place _ _ _ _ _ _ Hb t th Ht) as (_ & _ & Hd). rewrite (Hend t th Ht) in Hd. destruct Hd as (Hs & Ha & Hrd). unfold printed. rewrite Hs, Ha, Hrd.
    repeat case_match; try done. rewrite Nat.ltb_lt in *. lia. }
  rewrite (sorted_blocks 3 0 (output (memory w)) (or_sorted _ _ _ Ho)).
  - cbn [seq fmap list_fmap concat]. rewrite !Hti by lia. by rewrite app_nil_r.
  - apply Forall_forall. intros l Hl. destruct (or_letters _ _ _ Ho l Hl) as (t & th & Ht & Hle). destruct (ba_place _ _ _ _ _ _ Hb t th Ht) as (Hs & _). lia.
Qed.

(** C16: The two barriers of barrier_condvar.rs, in every interleaving of the threads, [main],
    the timer and the rest of the system.  No thread prints a letter before all threads have
    printed all of theirs of the letter before: the letters come in order, and once a later
    one was printed a letter is complete.  No wake-up is lost: when all threads were created,
    either they have all exited and each letter was printed [THREAD_NUM * PRINTS] times, or
    one of them is running or ready. *)
Theorem barrier_separates THREAD_NUM PRINTS mutex_id condvar_id w0 w :
  mutex_id 0%nat <> mutex_id 1%nat -> condvar_id 0%nat <> condvar_id 1%nat -> reachable w0 ->
  (forall j, (j < 2)%nat -> (length (mutexes (fst w0)) <= mutex_id j)%nat /\ (length (condvars (fst w0)) <= condvar_id j)%nat) ->
  rtc (barrier_step THREAD_NUM PRINTS mutex_id condvar_id) (mkU w0 ∅ (mkShared [0; 0]%nat [] THREAD_NUM)) w ->
  let out := output (memory w) in
  StronglySorted le out /\
  (forall j l, (j < 2)%nat -> l ∈ out -> (j < l)%nat -> times j out = (THREAD_NUM * PRINTS)%nat) /\
  (pending (memory w) = 0%nat ->
     ((forall t th, threads w !! t = Some th -> doing th = Ended) /\
      out = replicate (THREAD_NUM * PRINTS) 0%nat ++ replicate (THREAD_NUM * PRINTS) 1%nat ++ replicate (THREAD_NUM * PRINTS) 2%nat) \/
     exists t th, threads w !! t = Some th /\ (current (fst (kw w)) = Some t \/ t ∈ ready_queue (fst (kw w)))).
Proof.
  intros Hm Hc Hr Hnew Hrun out. assert (Hmi : forall i j, (i < 2)%nat -> (j < 2)%nat -> mutex_id i = mutex_id j -> i = j) by (by apply two_distinct).
  assert (Hci : forall i j, (i < 2)%nat -> (j < 2)%nat -> condvar_id i = condvar_id j -> i = j) by (by apply two_distinct).
  destruct (run_ordered 2 THREAD_NUM PRINTS mutex_id condvar_id Hmi Hci _ _ (start_barred 2 THREAD_NUM PRINTS mutex_id condvar_id w0 Hr Hnew)
    (start_ordered 2 PRINTS w0 (mkShared [0; 0]%nat [] THREAD_NUM) eq_refl) Hrun) as [Hb Ho]. split_and!.
  - apply Ho.
  - intros j l Hj Hl Hlt. eapply letter_complete; eauto.
  - intros Hpe. destruct (decide (Exists (fun x : nat * thread location => current (fst (kw w)) = Some x.1 \/ x.1 ∈ ready_queue (fst (kw w))) (map_to_list (threads w)))) as [Hex|Hno].
    + right. apply Exists_exists in Hex as ([t th] & Hin & Hg). apply elem_of_map_to_list in Hin. by exists t, th.
    + left. assert (Hend : forall t th, threads w !! t = Some th -> doing th = Ended).
      { eapply barrier_stalled_ended; eauto. intros t th Ht. assert (Hn : ~ (current (fst (kw w)) = Some t \/ t ∈ ready_queue (fst (kw w)))); [|tauto].
        intros Hg. apply Hno, Exists_exists. exists (t, th). by rewrite elem_of_map_to_list. }
      split; [done|]. by eapply final_output.
Qed.

(** ** A run with two threads that print each letter once *)

Module Demo.
#[local] Abbreviation program := (code 2 2 1 (fun j => j) (fun j => j)).
Definition w0 : world := Eval vm_compute in world_of (run_dispatch (spawn 0 0 (fst boot), [])).
Definition start : uworld location shared := mkU w0 ∅ (mkShared [0; 0]%nat [] 2).

(** The barriers are there before the threads. *)
Definition make_barrier (w : world) : res world := w ← run_call 0 (CNewMutex false) w; run_call 0 CNewCondvar w.
Definition made : uworld location shared := Eval vm_compute in
  match (w ← make_barrier w0; make_barrier w) with Ok w => mkU w ∅ (memory start) | Panic _ => start end.

Definition choose (i : nat) (w : uworld location shared) : act :=
  match current (fst (kw w)) with
  | None => Dispatch
  | Some t =>
      if (i mod 7 =? 3)%nat then Tick 0
      else if bool_decide (is_Some (threads w !! t)) then Go
      else if bool_decide (pending (memory w) = 0%nat) then Tick 0 else Create (S (size (threads w))) 0
  end.

Fixpoint drive (n : nat) (w : uworld location shared) : list act :=
  match n with
  | O => []
  | S n' => let a := choose n w in match next program born a w with Ok w' => a :: drive n' w' | Panic _ => [] end
  end.

Definition acts : list act := Eval vm_compute in drive 200 made.
Definition after (n : nat) : uworld location shared := match play program born (take n acts) made with Ok w => w | Panic _ => start end.
Definition final : uworld location shared := Eval vm_compute in after 100.

Lemma barrier_booted : reachable w0.
Proof.
  unfold reachable. eapply rtc_l; [apply (step_spawn _ _ 0 0); [apply not_elem_of_nil|done]|].
  eapply rtc_l; [apply run_dispatch_step; [done|vm_compute; reflexivity]|]. apply rtc_refl.
Qed.

Lemma make_barrier_run w w' :
  current (fst w) = Some 0%nat -> make_barrier w = Ok w' ->
  current (fst w') = Some 0%nat /\ forall m, rtc (barrier_step 2 1 (fun j => j) (fun j => j)) (mkU w ∅ m) (mkU w' ∅ m).
Proof.
  intros Hc E. unfold make_barrier in E. apply res_bind_Ok in E as (w1 & E1 & E2).
  assert (Hcur : forall c w w', current (fst w) = Some 0%nat -> (forall kc, ~ suspends c kc) -> run_call 0 c w = Ok w' -> current (fst w') = Some 0%nat).
  { intros c [k log] w2 Hc0 Hs E. unfold run_call in E. apply res_bind_Ok in E as ([b k'] & Ed & [= <-]). cbn [fst] in *.
    pose proof (do_call_frame 0 c k b k' Hc0 Ed) as [_ Hb]. destruct b; [done|]. destruct Hb as (_ & kc & _ & Hk). by apply Hs in Hk. }
  assert (Hc1 : current (fst w1) = Some 0%nat) by (eapply Hcur; [exact Hc| |exact E1]; by intros kc []).
  split; [eapply Hcur; [exact Hc1| |exact E2]; by intros kc []|]. intros m.
  eapply rtc_l; [by apply (other_call_step _ _ _ _ _ (mkU w ∅ m) 0 (CNewMutex false) w1)|].
  eapply rtc_l; [by apply (other_call_step _ _ _ _ _ (mkU w1 ∅ m) 0 CNewCondvar w')|]. apply rtc_refl.
Qed.

Lemma barrier_final_run : rtc (barrier_step 2 1 (fun j => j) (fun j => j)) start final.
Proof.
  transitivity made.
  - destruct (make_barrier w0) as [w1|] eqn:E1; [|by vm_compute in E1]. destruct (make_barrier_run w0 w1 eq_refl E1) as [Hc1 H1].
    transitivity (mkU w1 ∅ (memory start) : uworld location shared); [apply H1|]. destruct (make_barrier_run w1 (kw made) Hc1) as [_ H2]; [|apply H2].
    vm_compute in E1. injection E1 as <-. vm_compute. reflexivity.
  - apply (play_usteps _ _ _ _ _ (take 100 acts)). vm_compute. reflexivity.
Qed.
End Demo.

Lemma barrier_separates_witness :
  output (memory Demo.final) = [0; 0; 1; 1; 2; 2]%nat /\ StronglySorted le (output (memory Demo.final)) /\ times 0 (output (memory Demo.final)) = 2%nat.
Proof.
  destruct (barrier_separates 2 1 (fun j => j) (fun j => j) Demo.w0 Demo.final) as (Hs & Ht & _).
  - done.
  - done.
  - apply Demo.barrier_booted.
  - intros j _. cbn. lia.
  - apply Demo.barrier_final_run.
  - split_and!; [reflexivity|exact Hs|]. apply (Ht 0%nat 2%nat); [lia| |lia]. vm_compute. set_solver.
Defined.
