(* ===== verification/MutexAdder.v ===== *)
(** The adders of user/src/bin/adder_mutex_blocking.rs and adder_mutex_spin.rs on the mutexes
    of the kernel.

    The two programs differ in the kind of mutex that [main] makes.  [mutex] is the object of
    [Sched] that is mutex 0 of the process; [main] is a task outside the crew, and a thread
    takes no step on the mutex before it is there. *)

From S2P Require Import Prelude Sched KernelThreads.

(** Before [mutex_lock(0)]; before the read of [A]; after it; before the write;
    before [mutex_unlock(0)]. *)
Inductive stage := BeforeLock | BeforeRead | BeforeWork | BeforeWrite | BeforeUnlock.
#[export] Instance stage_eq_dec : EqDecision stage.
Proof. solve_decision. Defined.

(** The rounds done, [cur], [t]. *)
Record location := mkLoc { round : nat; cur : Z; t_ : Z; at_ : stage }.

(** [A], and how many threads [main] will still create. *)
Record shared := mkShared { A : Z; pending : nat }.

Definition work (t : Z) : Z := Nat.iter 500 (fun t => umul t t mod 10007) t.

Section adder.
Context (thread_count PER_THREAD : nat) (mutex : nat).

Definition code (p : location) (m : shared) : op location shared :=
  match at_ p with
  | BeforeLock => if (round p <? PER_THREAD)%nat then Call (CLock mutex) (mkLoc (round p) (cur p) (t_ p) BeforeRead) else Exit
  | BeforeRead => Compute m (mkLoc (round p) (A m) (t_ p) BeforeWork)
  | BeforeWork => Compute m (mkLoc (round p) (cur p) (work (t_ p)) BeforeWrite)
  | BeforeWrite => Compute (mkShared (uadd (cur p) 1) (pending m)) (mkLoc (round p) (cur p) (t_ p) BeforeUnlock)
  | BeforeUnlock => Call (CUnlock mutex) (mkLoc (S (round p)) (cur p) (t_ p) BeforeLock)
  end.

Definition born (m : shared) : option (location * shared) :=
  match pending m with O => None | S n => Some (mkLoc 0 0 2 BeforeLock, mkShared (A m) n) end.

Definition our_mutex (m : nat) : Prop := m = mutex.
#[local] Abbreviation none := (fun _ : nat => False).
#[local] Abbreviation ustep := (ustep code born our_mutex none none).
#[local] Abbreviation good := (good our_mutex none (P := location) (M := shared)).

Definition inside (p : location) : Prop := at_ p <> BeforeLock.

(** What a thread has added. *)
Definition added (p : location) : Z := Z.of_nat (round p) + (if decide (at_ p = BeforeUnlock) then 1 else 0).

Definition placed (th : thread location) : Prop :=
  let p := point th in
  (if decide (at_ p = BeforeLock) then round p <= PER_THREAD else round p < PER_THREAD)%nat /\
  match doing th with
  | Runs => True
  | Waits c p' => at_ p = BeforeLock /\ code p (mkShared 0 0) = Call c p'
  | Ended => at_ p = BeforeLock /\ round p = PER_THREAD
  end.

Record adding (w : uworld location shared) : Prop := {
  ad_good : good w;
  ad_place t th : threads w !! t = Some th -> placed th;
  ad_holder t : t ∈ holders mutex (snd (kw w)) <-> exists th, threads w !! t = Some th /\ inside (point th);
  ad_cur t th : threads w !! t = Some th -> at_ (point th) = BeforeWork \/ at_ (point th) = BeforeWrite -> cur (point th) = A (memory w);
  ad_sum : A (memory w) = wrap 64 (total added (threads w));
  ad_crew : (pending (memory w) + size (threads w) = thread_count)%nat;
}.

(** The calls of the program. *)
Lemma adder_call p m c p' :
  code p m = Call c p' -> (c = CLock mutex /\ at_ p = BeforeLock /\ (round p < PER_THREAD)%nat /\ p' = mkLoc (round p) (cur p) (t_ p) BeforeRead) \/
    (c = CUnlock mutex /\ at_ p = BeforeUnlock /\ p' = mkLoc (S (round p)) (cur p) (t_ p) BeforeLock).
Proof. unfold code. destruct (at_ p); [destruct (Nat.ltb_spec (round p) PER_THREAD)|..]; intros [= <- <-]; auto. Qed.

Lemma adding_disciplined w : adding w -> disciplined code w.
Proof.
  intros Hd t p c p' _ Ht Hc. destruct (adder_call _ _ _ _ Hc) as [(-> & _)|(-> & Ha & _)]; cbn [allowed]; [done|].
  apply (ad_holder _ Hd). exists (mkThread p Runs). split; [done|]. unfold inside. cbn. by rewrite Ha.
Qed.

Lemma one_adder_inside w t t' th th' :
  adding w -> threads w !! t = Some th -> threads w !! t' = Some th' -> inside (point th) -> inside (point th') -> t = t'.
Proof.
  intros Hd Ht Ht' H H'. pose proof (mutex_holder _ _ w mutex (ad_good _ Hd)) as H1.
  assert (Hin : t ∈ holders mutex (snd (kw w))) by (apply (ad_holder _ Hd); eauto).
  assert (Hin' : t' ∈ holders mutex (snd (kw w))) by (apply (ad_holder _ Hd); eauto).
  destruct (holders mutex (snd (kw w))) as [|a [|b l]]; [by apply elem_of_nil in Hin| |cbn in H1; lia].
  apply list_elem_of_singleton in Hin, Hin'. by subst.
Qed.

(** Thread [t] goes to [p'], and [A] with it. *)
Lemma adder_moves w t th p' md k' log' a' n :
  adding w -> n = pending (memory w) -> good (mkU (k', log') (<[t := mkThread p' md]> (threads w)) (mkShared a' n)) -> threads w !! t = Some th -> placed (mkThread p' md) ->
  (forall t', t' ∈ holders mutex log' <-> (t' <> t /\ t' ∈ holders mutex (snd (kw w))) \/ (t' = t /\ inside p')) ->
  (at_ p' = BeforeWork \/ at_ p' = BeforeWrite -> cur p' = a') -> (a' <> A (memory w) -> inside (point th)) ->
  a' = wrap 64 (A (memory w) + (added p' - added (point th))) ->
  adding (mkU (k', log') (<[t := mkThread p' md]> (threads w)) (mkShared a' n)).
Proof.
  intros Hd -> Hg Ht Hp Hlog Hcur Hin Ha. split; cbn [kw threads memory snd A pending]; [done| | | | |rewrite map_size_insert_Some by done; apply Hd].
  - intros t' th'. destruct (decide (t = t')) as [<-|Hne]; [rewrite lookup_insert_eq; by intros [= <-]|rewrite lookup_insert_ne by done; apply Hd].
  - intros t'. rewrite Hlog. destruct (decide (t' = t)) as [->|Hne].
    + rewrite lookup_insert_eq. split; [intros [[? _]|[_ H]]; [done|]; eauto|]. intros (th' & [= <-] & H). auto.
    + rewrite lookup_insert_ne by done. rewrite (ad_holder _ Hd). naive_solver.
  - intros t' th'. destruct (decide (t = t')) as [<-|Hne]; [rewrite lookup_insert_eq; by intros [= <-]|rewrite lookup_insert_ne by done].
    intros Ht' Hat. destruct (decide (a' = A (memory w))) as [->|Hna]; [by apply (ad_cur _ Hd t')|]. exfalso. apply Hne.
    apply (one_adder_inside w t t' th th'); [done|done|done|by apply Hin|]. unfold inside. destruct Hat as [-> | ->]; done.
  - rewrite Ha, (ad_sum _ Hd), (total_update _ _ t th _ Ht). cbn [point]. unfold wrap. rewrite Zplus_mod_idemp_l. f_equal. lia.
Qed.

(** The holders after a call that has returned, or any other event. *)
Lemma locked_holders t log t' : t' ∈ holders mutex (Locked t mutex :: log) <-> (t' <> t /\ t' ∈ holders mutex log) \/ t' = t.
Proof. cbn. rewrite decide_True, elem_of_cons by done. destruct (decide (t' = t)); naive_solver. Qed.

Lemma unlocked_holders t log t' : t' ∈ holders mutex (Unlocked t mutex :: log) <-> t' <> t /\ t' ∈ holders mutex log.
Proof. cbn. rewrite decide_True, list_elem_of_filter by done. naive_solver. Qed.

Lemma same_holders w t th :
  adding w -> threads w !! t = Some th ->
  forall t' (X : Prop), (inside (point th) <-> X) -> t' ∈ holders mutex (snd (kw w)) <-> (t' <> t /\ t' ∈ holders mutex (snd (kw w))) \/ (t' = t /\ X).
Proof.
  intros Hd Ht t' X HX. destruct (decide (t' = t)) as [->|Hne]; [|naive_solver]. rewrite (ad_holder _ Hd t), <- HX. split; [|naive_solver].
  intros (th' & Ht' & H). rewrite Ht in Ht'. injection Ht' as <-. auto.
Qed.

(** A mutex call returns. *)
Lemma adder_returns w t th c p' k' log' :
  adding w -> good (mkU (k', log') (<[t := mkThread p' Runs]> (threads w)) (memory w)) -> threads w !! t = Some th ->
  code (point th) (memory w) = Call c p' ->
  (forall t', t' ∈ holders mutex log' <-> t' ∈ holders mutex (match c with CLock m => [Locked t m] | CUnlock m => [Unlocked t m] | _ => [] end ++ snd (kw w))) ->
  adding (mkU (k', log') (<[t := mkThread p' Runs]> (threads w)) (memory w)).
Proof.
  intros Hd Hg Ht Hc Hlog. destruct (ad_place _ Hd t th Ht) as [Hr _]. replace (memory w) with (mkShared (A (memory w)) (pending (memory w))) in * by (by destruct (memory w)).
  assert (Hwrap : A (memory w) = wrap 64 (A (memory w))) by (rewrite (ad_sum _ Hd) at 1; rewrite (ad_sum _ Hd); unfold wrap; by rewrite Zmod_mod).
  destruct (adder_call _ _ _ _ Hc) as [(-> & Ha & Hlt & ->)|(-> & Ha & ->)]; cbn [app] in Hlog.
  - apply (adder_moves w t th); [done|done|done|done| | | |done|].
    + split; [cbn [point at_ round]; rewrite decide_False by done; lia|done].
    + intros t'. rewrite Hlog, locked_holders. unfold inside. cbn. naive_solver.
    + by intros [?|?].
    + unfold added. cbn [round at_]. rewrite Ha. rewrite !decide_False by done. by rewrite Z.sub_diag, Z.add_0_r.
  - rewrite Ha in Hr. apply (adder_moves w t th); [done|done|done|done| | | |done|].
    + rewrite decide_False in Hr by done. split; [cbn [point at_ round]; rewrite decide_True by done; lia|done].
    + intros t'. rewrite Hlog, unlocked_holders. unfold inside. cbn. naive_solver.
    + by intros [?|?].
    + unfold added. cbn [round at_]. rewrite Ha. rewrite decide_False, decide_True by done. replace (_ - _) with 0 by lia. by rewrite Z.add_0_r.
Qed.

(** A thread that waits or exits stays where it is. *)
Lemma adder_stays w t th md k' log' :
  adding w -> good (mkU (k', log') (<[t := mkThread (point th) md]> (threads w)) (memory w)) -> threads w !! t = Some th ->
  placed (mkThread (point th) md) -> holders mutex log' = holders mutex (snd (kw w)) ->
  adding (mkU (k', log') (<[t := mkThread (point th) md]> (threads w)) (memory w)).
Proof.
  intros Hd Hg Ht Hp Hlog. assert (Hwrap : A (memory w) = wrap 64 (A (memory w))) by (rewrite (ad_sum _ Hd); unfold wrap; by rewrite Zmod_mod).
  pose proof (same_holders w t th Hd Ht) as Hsame. pose proof (ad_cur _ Hd t th Ht) as Hcu. destruct w as [[k log] T [a n]]. cbn [kw threads memory A pending snd] in *.
  apply (adder_moves (mkU (k, log) T (mkShared a n)) t th); cbn [kw threads memory A snd]; try done; [|by rewrite Z.sub_diag, Z.add_0_r].
  intros t'. rewrite Hlog. by apply Hsame.
Qed.

Lemma adding_step w w' : adding w -> ustep w w' -> adding w'.
Proof.
  intros Hd Hs. destruct (ustep_effect _ _ _ _ _ w w' (ad_good _ Hd) (adding_disciplined w Hd) Hs) as [Hg He]. clear Hs.
  destruct He as [w t p m' p' Ht Hc|w t p c p' k' b Ht Hc Hsus _|w t p c p' k' Ht _|w t p k' Ht Hc _|w t p k' m' Ht Hbo _|w k' log' Hq _].
  - destruct (ad_place _ Hd t _ Ht) as [Hr _]. cbn [point] in Hr. pose proof (same_holders w t _ Hd Ht) as Hsame. cbn [point] in Hsame.
    assert (Hwrap : A (memory w) = wrap 64 (A (memory w))) by (rewrite (ad_sum _ Hd); unfold wrap; by rewrite Zmod_mod).
    destruct w as [[k log] T [a n]]. cbn [kw threads memory A pending] in *. destruct p as [r c0 t0 st]. unfold code in Hc. cbn [at_ round cur t_] in *.
    destruct st; [destruct (r <? PER_THREAD)%nat; done|..|done]; injection Hc as <- <-; rewrite decide_False in Hr by done.
    + apply (adder_moves (mkU (k, log) T (mkShared a n)) t (mkThread (mkLoc r c0 t0 BeforeRead) Runs)); [done|done|done|done| | |done|done|by rewrite Z.sub_diag, Z.add_0_r].
      * split; [cbn [point at_ round]; rewrite decide_False by done; lia|done].
      * intros t'. by apply Hsame.
    + pose proof (ad_cur _ Hd t _ Ht ltac:(by left)) as Hcu. cbn in Hcu.
      apply (adder_moves (mkU (k, log) T (mkShared a n)) t (mkThread (mkLoc r c0 t0 BeforeWork) Runs)); [done|done|done|done| | |done|done|by rewrite Z.sub_diag, Z.add_0_r].
      * split; [cbn [point at_ round]; rewrite decide_False by done; lia|done].
      * intros t'. by apply Hsame.
    + pose proof (ad_cur _ Hd t _ Ht ltac:(by right)) as Hcu. cbn in Hcu. subst c0.
      apply (adder_moves (mkU (k, log) T (mkShared a n)) t (mkThread (mkLoc r a t0 BeforeWrite) Runs)); [done|done|done|done| | |by intros [?|?]|done|].
      * split; [cbn [point at_ round]; rewrite decide_False by done; lia|done].
      * intros t'. by apply Hsame.
      * unfold added, uadd. cbn [round at_ memory A point]. rewrite decide_True, decide_False by done. f_equal. lia.
  - destruct b.
    + eapply (adder_returns w t (mkThread p Runs) c); try done. intros t'. destruct (adder_call _ _ _ _ Hc) as [(-> & _)|(-> & _)]; done.
    + destruct (Hsus eq_refl) as [kc Hkc]. destruct (adder_call _ _ _ _ Hc) as [(-> & Ha & Hlt & ->)|(-> & _)]; [|by cbn in Hkc].
      apply (adder_stays w t (mkThread p Runs)); try done. split; [apply (ad_place _ Hd t _ Ht)|]. split; [done|]. unfold code. cbn [point]. by rewrite Ha, (proj2 (Nat.ltb_lt _ _) Hlt).
  - destruct (ad_place _ Hd t _ Ht) as (_ & Ha & Hc). cbn [point] in Hc, Ha. eapply (adder_returns w t (mkThread p (Waits c p')) c); try done.
    + cbn [point]. unfold code in *. rewrite Ha in *. done.
    + intros t'. destruct (adder_call _ _ _ _ Hc) as [(-> & _)|(-> & Ha' & _)]; [done|congruence].
  - apply (adder_stays w t (mkThread p Runs)); try done. destruct (ad_place _ Hd t _ Ht) as [Hr _]. cbn [point] in Hr. split; [done|]. cbn.
    unfold code in Hc. destruct (at_ p) eqn:Ha; [|done..]. destruct (Nat.ltb_spec (round p) PER_THREAD); [done|]. rewrite decide_True in Hr by done. split; [done|lia].
  - unfold born in Hbo. destruct w as [[k log] T [a [|n]]]; [done|]. injection Hbo as <- <-. cbn [kw threads memory A pending snd] in *.
    pose proof Hd as [_ Hp Hh Hcu Hsu Hcr]. cbn [kw threads memory A pending snd] in *. split; cbn [kw threads memory snd A pending].
    + done.
    + intros t' th'. destruct (decide (t = t')) as [<-|Hne]; [|rewrite lookup_insert_ne by done; apply Hp]. rewrite lookup_insert_eq. intros [= <-].
      split; [|done]. cbn [point at_ round]. rewrite decide_True by done. lia.
    + intros t'. rewrite Hh. destruct (decide (t = t')) as [<-|Hne]; [|by rewrite lookup_insert_ne]. rewrite lookup_insert_eq.
      split; intros (th' & Ht' & H); [congruence|]. by injection Ht' as <-.
    + intros t' th'. destruct (decide (t = t')) as [<-|Hne]; [|rewrite lookup_insert_ne by done; apply Hcu]. rewrite lookup_insert_eq. intros [= <-]. by intros [?|?].
    + rewrite total_new by done. unfold added at 2. cbn [point round at_]. rewrite decide_False by done. by rewrite Z.add_0_r.
    + rewrite map_size_insert_None by done. lia.
  - destruct Hq as [_ Hq]. destruct Hd as [_ Hp Hh Hcu Hsu Hcr]. split; [done|done| |done|done|done]. cbn [kw snd threads]. intros t. rewrite (Hq mutex eq_refl). apply Hh.
Qed.

Lemma adding_steps w w' : adding w -> rtc ustep w w' -> adding w'.
Proof. intros Hd Hs. induction Hs as [|w w1 w' Hs _ IH]; [done|]. apply IH. by eapply adding_step. Qed.

(** ** No deadlock *)

Lemma adders_not_stuck w : adding w -> stalled w -> forall t th, threads w !! t = Some th -> doing th = Ended.
Proof.
  intros Hd Hst.
  assert (Hno : forall t th, threads w !! t = Some th -> inside (point th) -> False).
  { intros t [p md] Ht Hin. destruct (ad_place _ Hd t _ Ht) as [_ Hp]. cbn in *. destruct md as [|c p'|]; [|by destruct Hp..].
    eapply stalled_not_running; [by apply ad_good|done|done]. }
  intros t [p md] Ht. destruct (ad_place _ Hd t _ Ht) as [_ Hp]. cbn [point doing] in *. destruct md as [|c p'|]; [|exfalso|done].
  - exfalso. eapply stalled_not_running; [by apply ad_good|done|done].
  - destruct Hp as [Ha Hc]. destruct (adder_call _ _ _ _ Hc) as [(-> & _)|(_ & Ha' & _)]; [|congruence].
    destruct (stalled_lock _ _ w t p mutex p' (ad_good _ Hd) Hst eq_refl Ht) as [t' Ht']. apply (ad_holder _ Hd) in Ht' as (th' & Ht' & H). by eapply Hno.
Qed.

Lemma adders_sum w : adding w -> pending (memory w) = 0%nat -> (forall t th, threads w !! t = Some th -> doing th = Ended) ->
  A (memory w) = wrap 64 (Z.of_nat thread_count * Z.of_nat PER_THREAD).
Proof.
  intros Hd Hpe Hend. rewrite (ad_sum _ Hd). f_equal. rewrite (total_ext added (fun _ => Z.of_nat PER_THREAD)).
  - rewrite total_const. pose proof (ad_crew _ Hd). lia.
  - intros t th Ht. destruct (ad_place _ Hd t th Ht) as [_ Hp]. rewrite (Hend t th Ht) in Hp. destruct Hp as [Ha Hr]. unfold added. rewrite Ha, Hr. rewrite decide_False by done. lia.
Qed.

(** ** The calls do not panic *)

Lemma adder_call_succeeds w t p c p' :
  adding w -> is_Some (mutexes (fst (kw w)) !! mutex) -> current (fst (kw w)) = Some t ->
  threads w !! t = Some (mkThread p Runs) -> code p (memory w) = Call c p' -> exists b k', do_call c (fst (kw w)) = Ok (b, k').
Proof.
  intros Hd [x Hx] Hcur Ht Hc. destruct (adder_call _ _ _ _ Hc) as [(-> & _)|(-> & Ha & _)]; cbn [do_call].
  - rewrite (lock_run t mutex x _ Hcur Hx). destruct x as [[]|[] q]; eauto.
  - apply (unlock_succeeds _ _ w mutex x t (ad_good _ Hd) Hx). apply (ad_holder _ Hd). exists (mkThread p Runs). split; [done|]. unfold inside. cbn. by rewrite Ha.
Qed.
End adder.

(** ** The programs *)

(** [mutex_blocking_create] or [mutex_create] of [main]. *)
Definition create_blocking : call := CNewMutex true.
Definition create_spin : call := CNewMutex false.

Definition adder_step (PER_THREAD mutex : nat) : uworld location shared -> uworld location shared -> Prop :=
  ustep (code PER_THREAD mutex) born (our_mutex mutex) (fun _ => False) (fun _ => False).

Lemma start_adding thread_count PER_THREAD mutex w0 :
  reachable w0 -> (length (mutexes (fst w0)) <= mutex)%nat -> adding thread_count PER_THREAD mutex (mkU w0 ∅ (mkShared 0 thread_count)).
Proof.
  intros Hr Hnew. destruct (reachable_known w0 Hr) as [Hi Hk]. split; cbn [kw threads memory snd A pending].
  - split; cbn [kw threads fst]; [done|by intros t th; rewrite lookup_empty| |done]. intros t kc _ Hin Hkc.
    destruct (decide (current (fst w0) = Some t)) as [|Hne]; [by left|]. right. specialize (Hk t kc Hin Hne Hkc).
    destruct kc; cbn in *; try tauto; intros ->; apply lookup_lt_is_Some in Hk; lia.
  - intros t th. by rewrite lookup_empty.
  - intros t. split; [|intros (th & Ht & _); by rewrite lookup_empty in Ht]. intros Hin. exfalso.
    pose proof (inv_mutex _ Hi mutex) as Hl. rewrite lookup_ge_None_2 in Hl by done. destruct Hl as [Hl _]. unfold held in Hl.
    destruct (holders mutex (snd w0)); [by apply elem_of_nil in Hin|]. cbn in Hl. lia.
  - intros t th. by rewrite lookup_empty.
  - done.
  - rewrite map_size_empty. lia.
Qed.

(** C17: The adders of adder_mutex_blocking.rs and adder_mutex_spin.rs, whichever kind of mutex
    [main] makes, in every interleaving of the threads, [main], the timer and the rest of the
    system.  At most one thread is in the critical section.  Either the threads made so far
    have all exited, or one of them is running or ready.  When all have been made and have
    exited, the assertion of [main] holds: no addition to [A] was lost.  And once the mutex is
    there, no call of a thread makes the kernel panic. *)
Theorem mutex_adders_count thread_count PER_THREAD mutex w0 w :
  reachable w0 -> (length (mutexes (fst w0)) <= mutex)%nat ->
  rtc (adder_step PER_THREAD mutex) (mkU w0 ∅ (mkShared 0 thread_count)) w ->
  (forall t t' th th', threads w !! t = Some th -> threads w !! t' = Some th' -> inside (point th) -> inside (point th') -> t = t') /\
  ((forall t th, threads w !! t = Some th -> doing th = Ended) \/
   exists t th, threads w !! t = Some th /\ (current (fst (kw w)) = Some t \/ t ∈ ready_queue (fst (kw w)))) /\
  (pending (memory w) = 0%nat -> (forall t th, threads w !! t = Some th -> doing th = Ended) ->
     A (memory w) = wrap 64 (Z.of_nat thread_count * Z.of_nat PER_THREAD)) /\
  (is_Some (mutexes (fst (kw w)) !! mutex) -> forall t p c p', current (fst (kw w)) = Some t -> threads w !! t = Some (mkThread p Runs) ->
     code PER_THREAD mutex p (memory w) = Call c p' -> exists b k', do_call c (fst (kw w)) = Ok (b, k')).
Proof.
  intros Hr Hnew Hrun. pose proof (adding_steps _ _ _ _ _ (start_adding thread_count PER_THREAD mutex w0 Hr Hnew) Hrun) as Hd. split_and!.
  - intros t t' th th'. by apply (one_adder_inside thread_count PER_THREAD mutex).
  - destruct (decide (Exists (fun x : nat * thread location => current (fst (kw w)) = Some x.1 \/ x.1 ∈ ready_queue (fst (kw w))) (map_to_list (threads w)))) as [Hex|Hno].
    + right. apply Exists_exists in Hex as ([t th] & Hin & Hg). apply elem_of_map_to_list in Hin. by exists t, th.
    + left. eapply adders_not_stuck; [exact Hd|]. intros t th Ht. assert (Hn : ~ (current (fst (kw w)) = Some t \/ t ∈ ready_queue (fst (kw w)))); [|tauto].
      intros Hg. apply Hno, Exists_exists. exists (t, th). by rewrite elem_of_map_to_list.
  - by apply (adders_sum thread_count PER_THREAD mutex).
  - intros Hm t p c p'. by apply (adder_call_succeeds thread_count PER_THREAD mutex).
Qed.

(** ** Runs with two threads that add twice, for both kinds of mutex *)

Module Demo.
#[local] Abbreviation program := (code 2 0).
Definition w0 : world := Eval vm_compute in world_of (run_dispatch (spawn 0 0 (fst boot), [])).
Definition start : uworld location shared := mkU w0 ∅ (mkShared 0 2).

Definition made (create : call) : uworld location shared :=
  match run_call 0 create w0 with Ok w => mkU w ∅ (memory start) | Panic _ => start end.

Definition choose (i : nat) (w : uworld location shared) : act :=
  match current (fst (kw w)) with
  | None => Dispatch
  | Some t =>
      if (i mod 7 =? 2)%nat then Tick 0
      else if bool_decide (is_Some (threads w !! t)) then Go
      else if bool_decide (pending (memory w) = 0%nat) then Tick 0 else Create (S (size (threads w))) 0
  end.

Fixpoint drive (n : nat) (w : uworld location shared) : list act :=
  match n with
  | O => []
  | S n' => let a := choose n w in match next program born a w with Ok w' => a :: drive n' w' | Panic _ => [] end
  end.

Definition acts (create : call) : list act := drive 160 (made create).
Definition final (create : call) : uworld location shared :=
  match play program born (acts create) (made create) with Ok w => w | Panic _ => start end.

Lemma adder_booted : reachable w0.
Proof.
  unfold reachable. eapply rtc_l; [apply (step_spawn _ _ 0 0); [apply not_elem_of_nil|done]|].
  eapply rtc_l; [apply run_dispatch_step; [done|vm_compute; reflexivity]|]. apply rtc_refl.
Qed.

Definition blocking : uworld location shared := Eval vm_compute in final create_blocking.
Definition spinning : uworld location shared := Eval vm_compute in final create_spin.

Lemma adder_run create w : create = create_blocking \/ create = create_spin -> run_call 0 create w0 = Ok w ->
  forall l w', play program born l (mkU w ∅ (memory start)) = Ok w' -> rtc (adder_step 2 0) start w'.
Proof.
  intros Hc E l w' El. eapply rtc_l; [|by apply (play_usteps _ _ _ _ _ l)].
  apply (other_call_step _ _ _ _ _ start 0 create); [done|done|by destruct Hc as [-> | ->]..|done].
Qed.

Lemma blocking_run : rtc (adder_step 2 0) start blocking.
Proof. eapply (adder_run create_blocking (kw (made create_blocking)) ltac:(by left) ltac:(vm_compute; reflexivity) (acts create_blocking)). vm_compute. reflexivity. Qed.

Lemma spinning_run : rtc (adder_step 2 0) start spinning.
Proof. eapply (adder_run create_spin (kw (made create_spin)) ltac:(by right) ltac:(vm_compute; reflexivity) (acts create_spin)). vm_compute. reflexivity. Qed.

Definition ended (T : gmap nat (thread location)) : bool := forallb (fun x => match doing x.2 with Ended => true | _ => false end) (map_to_list T).

Lemma ended_all T : ended T = true -> forall t th, T !! t = Some th -> doing th = Ended.
Proof.
  unfold ended. rewrite forallb_forall. intros H t th Ht. specialize (H (t, th)). cbn in H. apply elem_of_map_to_list, list_elem_of_In in Ht. specialize (H Ht). by destruct (doing th).
Qed.
End Demo.

Lemma mutex_adders_count_witness : A (memory Demo.blocking) = 4 /\ A (memory Demo.spinning) = 4.
Proof.
  split.
  - destruct (mutex_adders_count 2 2 0 Demo.w0 Demo.blocking) as (_ & _ & Ha & _); [apply Demo.adder_booted|cbn; lia|apply Demo.blocking_run|].
    apply Ha; [reflexivity|]. apply Demo.ended_all. vm_compute. reflexivity.
  - destruct (mutex_adders_count 2 2 0 Demo.w0 Demo.spinning) as (_ & _ & Ha & _); [apply Demo.adder_booted|cbn; lia|apply Demo.spinning_run|].
    apply Ha; [reflexivity|]. apply Demo.ended_all. vm_compute. reflexivity.
Defined.
