(* ===== verification/CondSync.v ===== *)
(** A flag with a condition variable: user/src/bin/condsync_condvar.rs.

    [first] sets [A] and signals; [second] waits until [A] is set.  [main] makes the
    condition variable and the mutex and then the two threads; it is a task outside the
    program, and a thread takes no step on an object that is not there yet. *)

From S2P Require Import Prelude Sched KernelThreads.

(** The points of [first] and of [second], by what comes next. *)
Inductive location :=
| FSleep | FPrint | FLock | FStore | FSignal | FUnlock | FExit
| SPrint | SLock | STest | SPrintWait | SWait | SWork | SUnlock | SExit.
#[export] Instance location_eq_dec : EqDecision location.
Proof. solve_decision. Defined.

(** The lines they print, without the value of [A] in them. *)
Inductive line := FirstWork | SecondWants | SecondWaits | SecondWorks.
#[export] Instance line_eq_dec : EqDecision line.
Proof. solve_decision. Defined.

(** [A], what was printed, and the threads [main] will still create. *)
Record shared := mkShared { A : Z; output : list line; pending : list location }.

Definition print (l : line) (m : shared) : shared := mkShared (A m) (output m ++ [l]) (pending m).
Definition set_A (a : Z) (m : shared) : shared := mkShared a (output m) (pending m).

Section condsync.
Context (now : Z) (MUTEX_ID CONDVAR_ID : nat).

Definition code (p : location) (m : shared) : op location shared :=
  match p with
  | FSleep => Call (CSleep now 10) FPrint
  | FPrint => Compute (print FirstWork m) FLock
  | FLock => Call (CLock MUTEX_ID) FStore
  | FStore => Compute (set_A 1 m) FSignal
  | FSignal => Call (CSignal CONDVAR_ID) FUnlock
  | FUnlock => Call (CUnlock MUTEX_ID) FExit
  | FExit => Exit
  | SPrint => Compute (print SecondWants m) SLock
  | SLock => Call (CLock MUTEX_ID) STest
  | STest => Compute m (if A m =? 0 then SPrintWait else SWork)
  | SPrintWait => Compute (print SecondWaits m) SWait
  | SWait => Call (CWait CONDVAR_ID MUTEX_ID) STest
  | SWork => Compute (print SecondWorks m) SUnlock
  | SUnlock => Call (CUnlock MUTEX_ID) SExit
  | SExit => Exit
  end.

Definition born (m : shared) : option (location * shared) :=
  match pending m with [] => None | p :: rest => Some (p, mkShared (A m) (output m) rest) end.

Definition our_mutex (m : nat) : Prop := m = MUTEX_ID.
Definition our_cond (c : nat) : Prop := c = CONDVAR_ID.
#[local] Abbreviation none := (fun _ : nat => False).
#[local] Abbreviation ustep := (ustep code born our_mutex none our_cond).
#[local] Abbreviation good := (good our_mutex none (P := location) (M := shared)).

Definition is_first (p : location) : bool :=
  match p with FSleep | FPrint | FLock | FStore | FSignal | FUnlock | FExit => true | _ => false end.

(** It has the mutex. *)
Definition inside (th : thread location) : Prop :=
  match point th with
  | FStore | FSignal | FUnlock | STest | SPrintWait | SWork | SUnlock => True
  | SWait => doing th = Runs
  | _ => False
  end.

(** What a thread knows about [A]. *)
Definition knows (th : thread location) (a : Z) : Prop :=
  match point th with
  | FSleep | FPrint | FLock | FStore | SPrintWait => a = 0
  | SWait => doing th = Runs -> a = 0
  | FSignal | FUnlock | FExit | SWork | SUnlock | SExit => a = 1
  | _ => True
  end.

Definition placed (th : thread location) : Prop :=
  match doing th with
  | Runs => True
  | Waits c p' => code (point th) (mkShared 0 [] []) = Call c p' /\ (point th = FSleep \/ point th = FLock \/ point th = SLock \/ point th = SWait)
  | Ended => point th = FExit \/ point th = SExit
  end.

(** What it has printed. *)
Definition said (p : location) : list line :=
  match p with
  | FLock | FStore | FSignal | FUnlock | FExit => [FirstWork]
  | SUnlock | SExit => [SecondWorks]
  | _ => []
  end.

Definition ordered (out : list line) : Prop := forall l r, out = l ++ SecondWorks :: r -> FirstWork ∈ l.

Record synced (w : uworld location shared) : Prop := {
  cs_good : good w;
  cs_place t th : threads w !! t = Some th -> placed th;
  cs_holder t : t ∈ holders MUTEX_ID (snd (kw w)) <-> exists th, threads w !! t = Some th /\ inside th;
  cs_one t t' th th' : threads w !! t = Some th -> threads w !! t' = Some th' -> is_first (point th) = is_first (point th') -> t = t';
  cs_nodup : NoDup (is_first <$> pending (memory w));
  cs_pending p : p ∈ pending (memory w) -> (p = FSleep \/ p = SPrint) /\ forall t th, threads w !! t = Some th -> is_first (point th) <> is_first p;
  cs_all b : (exists p, p ∈ pending (memory w) /\ is_first p = b) \/ exists t th, threads w !! t = Some th /\ is_first (point th) = b;
  cs_knows t th : threads w !! t = Some th -> knows th (A (memory w));
  cs_unmade : FSleep ∈ pending (memory w) -> A (memory w) = 0;
  cs_A : A (memory w) = 0 \/ A (memory w) = 1;
  cs_queue t : t ∈ cond_queue (fst (kw w)) CONDVAR_ID -> exists th, threads w !! t = Some th /\ point th = SWait /\ doing th <> Runs;
  cs_where c t th : t ∈ cond_queue (fst (kw w)) c -> threads w !! t = Some th -> c = CONDVAR_ID;
  cs_signal : cond_queue (fst (kw w)) CONDVAR_ID <> [] -> A (memory w) = 0 \/ exists t th, threads w !! t = Some th /\ point th = FSignal;
  cs_said t th l : threads w !! t = Some th -> l ∈ said (point th) -> l ∈ output (memory w);
  cs_order : ordered (output (memory w));
}.

Lemma ordered_snoc out x : ordered out -> (x = SecondWorks -> FirstWork ∈ out) -> ordered (out ++ [x]).
Proof.
  intros Ho Hx l r E. destruct r as [|y r _] using rev_ind.
  - apply app_inj_tail in E as [-> ->]. by apply Hx.
  - rewrite app_comm_cons, app_assoc in E. apply app_inj_tail in E as [E _]. by eapply Ho.
Qed.

(** One thread is inside at a time. *)
Lemma one_synced_inside w t t' th th' :
  synced w -> threads w !! t = Some th -> threads w !! t' = Some th' -> inside th -> inside th' -> t = t'.
Proof.
  intros Hs Ht Ht' H H'. pose proof (mutex_holder _ _ w MUTEX_ID (cs_good _ Hs)) as H1.
  assert (Hin : t ∈ holders MUTEX_ID (snd (kw w))) by (apply (cs_holder _ Hs); eauto).
  assert (Hin' : t' ∈ holders MUTEX_ID (snd (kw w))) by (apply (cs_holder _ Hs); eauto).
  destruct (holders MUTEX_ID (snd (kw w))) as [|a [|b l]]; [by apply elem_of_nil in Hin| |cbn in H1; lia].
  apply list_elem_of_singleton in Hin, Hin'. by subst.
Qed.

(** [A] is 1 only after [first] has printed. *)
Lemma first_worked w : synced w -> A (memory w) = 1 -> FirstWork ∈ output (memory w).
Proof.
  intros Hs HA. destruct (cs_all _ Hs true) as [(p & Hp & Hf)|(t & th & Ht & Hf)].
  - destruct (cs_pending _ Hs p Hp) as [[-> | ->] _]; [|done]. rewrite (cs_unmade _ Hs Hp) in HA. done.
  - pose proof (cs_knows _ Hs t th Ht) as Hk. apply (cs_said _ Hs t th); [done|]. rewrite HA in Hk. unfold knows, is_first, said in *. destruct (point th); try done; by left.
Qed.

(** At most [second] is in the queue. *)
Lemma queue_second w : synced w -> (length (cond_queue (fst (kw w)) CONDVAR_ID) <= 1)%nat.
Proof.
  intros Hs. pose proof (cond_queue_nodup (fst (kw w)) CONDVAR_ID (inv_core _ (go_inv _ _ _ (cs_good _ Hs)))) as Hnd. pose proof (cs_queue _ Hs) as Hq.
  destruct (cond_queue _ _) as [|a [|b l]]; cbn; [lia|lia|]. exfalso. destruct (Hq a ltac:(by left)) as (th & Ha & Hpa & _).
  destruct (Hq b ltac:(right; by left)) as (th' & Hb & Hpb & _). apply NoDup_cons in Hnd as [Hnd _]. apply Hnd.
  rewrite (cs_one _ Hs a b th th' Ha Hb) by congruence. by left.
Qed.

(** A step of thread [t] that is not a creation. *)
Section thread_step.
Context (w : uworld location shared) (t : nat) (th : thread location) (p' : location) (md : @mode location) (k' : kernel) (log' : list event) (m' : shared) (x : taking).
#[local] Abbreviation th' := (mkThread p' md).
#[local] Abbreviation w' := (mkU (k', log') (<[t := th']> (threads w)) m').
Context (Hs : synced w) (Hg : good w') (Ht : threads w !! t = Some th).
Context (Hrole : is_first p' = is_first (point th)).

Lemma looked t1 th1 : <[t := th']> (threads w) !! t1 = Some th1 -> (t1 = t /\ th1 = th') \/ (t1 <> t /\ threads w !! t1 = Some th1).
Proof. destruct (decide (t = t1)) as [<-|Hne]; [rewrite lookup_insert_eq; intros [= <-]; auto|rewrite lookup_insert_ne by done; auto]. Qed.

Lemma role_kept t1 th1 : <[t := th']> (threads w) !! t1 = Some th1 -> exists th0, threads w !! t1 = Some th0 /\ is_first (point th1) = is_first (point th0).
Proof using Ht Hrole. intros H1. destruct (looked t1 th1 H1) as [[-> ->]|[_ H2]]; eauto. Qed.

Lemma holders_kept :
  takes x t (snd (kw w)) log' ->
  match x with Keeps => inside th' <-> inside th | Takes m => m = MUTEX_ID /\ inside th' | Drops m => m = MUTEX_ID /\ ~ inside th' end ->
  forall t1, t1 ∈ holders MUTEX_ID log' <-> exists th1, <[t := th']> (threads w) !! t1 = Some th1 /\ inside th1.
Proof using Hs Ht.
  intros Hx Hin t1. rewrite (Hx MUTEX_ID t1). pose proof (cs_holder _ Hs t1) as Hold. unfold holds_after. destruct (decide (t1 = t)) as [->|Hne].
  - rewrite lookup_insert_eq. assert (Hold' : t ∈ holders MUTEX_ID (snd (kw w)) <-> inside th) by (rewrite Hold; naive_solver).
    destruct x; [rewrite Hold'; naive_solver|destruct Hin as [-> Hin]; naive_solver|destruct Hin as [-> Hin]; naive_solver].
  - rewrite lookup_insert_ne by done. rewrite <- Hold. destruct x; naive_solver.
Qed.

(** The other thread is outside when [first] sets [A]. *)
Lemma knows_kept :
  A m' = A (memory w) \/ (inside th /\ is_first p' = true /\ A m' = 1) ->
  forall t1 th1, t1 <> t -> threads w !! t1 = Some th1 -> knows th1 (A m').
Proof using Hs Ht Hrole.
  intros HA t1 th1 Hne H1. destruct HA as [-> |(Hi & Hf & ->)]; [by apply (cs_knows _ Hs t1)|].
  assert (Hsec : is_first (point th1) = false).
  { destruct (is_first (point th1)) eqn:E; [|done]. destruct Hne. apply (cs_one _ Hs t1 t th1 th H1 Ht). congruence. }
  assert (Hout : ~ inside th1) by (intros Hi1; by apply Hne, (one_synced_inside w t1 t th1 th)).
  unfold knows, inside, is_first in *. destruct (point th1); try done; tauto.
Qed.

Lemma synced_step :
  placed th' -> takes x t (snd (kw w)) log' ->
  match x with Keeps => inside th' <-> inside th | Takes m => m = MUTEX_ID /\ inside th' | Drops m => m = MUTEX_ID /\ ~ inside th' end ->
  pending m' = pending (memory w) -> A m' = A (memory w) \/ (inside th /\ is_first p' = true /\ A m' = 1) -> knows th' (A m') ->
  (forall c t', t' ∈ cond_queue k' c -> (t' <> t /\ t' ∈ cond_queue (fst (kw w)) c) \/ (t' = t /\ c = CONDVAR_ID /\ p' = SWait /\ md <> Runs)) ->
  (cond_queue k' CONDVAR_ID <> [] -> A m' = 0 \/ p' = FSignal \/ (A m' = A (memory w) /\ cond_queue (fst (kw w)) CONDVAR_ID <> [] /\ point th <> FSignal)) ->
  (forall l, l ∈ said p' -> l ∈ output m') ->
  output m' = output (memory w) \/ (exists l, output m' = output (memory w) ++ [l] /\ (l = SecondWorks -> FirstWork ∈ output (memory w))) ->
  synced w'.
Proof using Hs Hg Ht Hrole.
  intros Hp Hx Hin Hpe HA Hk Hq Hsig Hsaid Hout. split; cbn [kw threads memory fst snd]; rewrite ?Hpe.
  - done.
  - intros t1 th1 H1. destruct (looked t1 th1 H1) as [[_ ->]|[_ H2]]; [done|by apply (cs_place _ Hs t1)].
  - by apply holders_kept.
  - intros t1 t2 th1 th2 H1 H2. destruct (role_kept t1 th1 H1) as (th3 & H3 & ->). destruct (role_kept t2 th2 H2) as (th4 & H4 & ->). by apply (cs_one _ Hs).
  - apply Hs.
  - intros p0 Hp0. destruct (cs_pending _ Hs p0 Hp0) as [H0 Hno]. split; [done|]. intros t1 th1 H1. destruct (role_kept t1 th1 H1) as (th3 & H3 & ->). by apply (Hno t1).
  - intros b. destruct (cs_all _ Hs b) as [|(t1 & th1 & H1 & Hb)]; [by left|right]. destruct (decide (t1 = t)) as [->|Hne].
    + exists t, th'. rewrite lookup_insert_eq. split; [done|]. rewrite Ht in H1. injection H1 as <-. by rewrite <- Hb.
    + exists t1, th1. by rewrite lookup_insert_ne.
  - intros t1 th1 H1. destruct (looked t1 th1 H1) as [[_ ->]|[Hne H2]]; [done|by eapply knows_kept].
  - intros Hun. destruct HA as [-> |(_ & Hf & _)]; [by apply (cs_unmade _ Hs)|]. destruct (cs_pending _ Hs FSleep Hun) as [_ Hno]. destruct (Hno t th Ht). cbn. congruence.
  - destruct HA as [-> |(_ & _ & ->)]; [apply Hs|by right].
  - intros t1 H1. destruct (Hq CONDVAR_ID t1 H1) as [[Hne H2]|(-> & _ & -> & Hmd)].
    + rewrite lookup_insert_ne by done. by apply (cs_queue _ Hs).
    + eexists. by rewrite lookup_insert_eq.
  - intros c t1 th1 H1 H2. destruct (Hq c t1 H1) as [[Hne H3]|(_ & -> & _)]; [|done]. rewrite lookup_insert_ne in H2 by done. by eapply (cs_where _ Hs).
  - intros Hn. destruct (Hsig Hn) as [->|[-> |(HA' & Hn' & Hns)]]; [by left|right; eexists t, _; by rewrite lookup_insert_eq|].
    destruct (cs_signal _ Hs Hn') as [H0|(t1 & th1 & H1 & Hf)]; [left; congruence|].
    right. destruct (decide (t1 = t)) as [->|Hne]; [rewrite Ht in H1; by injection H1 as <-|]. exists t1, th1. by rewrite lookup_insert_ne.
  - intros t1 th1 l H1 Hl. destruct (looked t1 th1 H1) as [[_ ->]|[Hne H2]]; [by apply Hsaid|]. pose proof (cs_said _ Hs t1 th1 l H2 Hl) as Hold.
    destruct Hout as [-> |(y & -> & _)]; [done|]. apply elem_of_app. by left.
  - destruct Hout as [-> |(y & -> & Hy)]; [apply Hs|]. by apply ordered_snoc; [apply Hs|].
Qed.
End thread_step.

(** ** The steps *)

Lemma synced_disciplined w : synced w -> disciplined code w.
Proof.
  intros Hs t p c p' _ Ht Hc. assert (Hin : inside (mkThread p Runs) -> t ∈ holders MUTEX_ID (snd (kw w))) by (intros Hin; apply (cs_holder _ Hs); eauto).
  destruct p; try done; injection Hc as <- <-; cbn [allowed]; try done; by apply Hin.
Qed.

Lemma runs_not_queued w t p : synced w -> threads w !! t = Some (mkThread p Runs) -> forall c, t ∉ cond_queue (fst (kw w)) c.
Proof.
  intros Hs Ht c Hin. pose proof (cs_where _ Hs c t _ Hin Ht) as ->. destruct (cs_queue _ Hs t Hin) as (th & Ht' & _ & Hr). rewrite Ht in Ht'. by injection Ht' as <-.
Qed.

(** The queues stay: nothing to show for them. *)
Lemma same_queue (w : uworld location shared) t k' p' (md : @mode location) :
  (forall c, cond_queue k' c = cond_queue (fst (kw w)) c) -> (forall c, t ∉ cond_queue (fst (kw w)) c) ->
  forall c t', t' ∈ cond_queue k' c -> (t' <> t /\ t' ∈ cond_queue (fst (kw w)) c) \/ (t' = t /\ c = CONDVAR_ID /\ p' = SWait /\ md <> Runs).
Proof. intros Hq Hout c t' Hin. rewrite Hq in Hin. left. split; [|done]. intros ->. by apply (Hout c). Qed.

(** A thread goes on to [p'] and leaves [A] and the output alone. *)
Lemma goes_on w t th p' md k' log' x :
  synced w -> good (mkU (k', log') (<[t := mkThread p' md]> (threads w)) (memory w)) -> threads w !! t = Some th ->
  is_first p' = is_first (point th) -> placed (mkThread p' md) -> takes x t (snd (kw w)) log' ->
  match x with Keeps => inside (mkThread p' md) <-> inside th | Takes m => m = MUTEX_ID /\ inside (mkThread p' md) | Drops m => m = MUTEX_ID /\ ~ inside (mkThread p' md) end ->
  (knows th (A (memory w)) -> knows (mkThread p' md) (A (memory w))) ->
  (forall c, cond_queue k' c = cond_queue (fst (kw w)) c) -> (forall c, t ∉ cond_queue (fst (kw w)) c) -> point th <> FSignal ->
  (forall l, l ∈ said p' -> l ∈ said (point th)) ->
  synced (mkU (k', log') (<[t := mkThread p' md]> (threads w)) (memory w)).
Proof.
  intros Hs Hg Ht Hrole Hp Hx Hin Hk Hq Hout Hns Hsaid. apply (synced_step w t th p' md k' log' (memory w) x); try done.
  - by left.
  - by apply Hk, (cs_knows _ Hs t).
  - by apply same_queue.
  - rewrite Hq. auto.
  - intros l Hl. apply (cs_said _ Hs t th); auto.
  - by left.
Qed.

(** It prints [l]. *)
Lemma says w t p p' l :
  synced w -> good (mkU (kw w) (<[t := mkThread p' Runs]> (threads w)) (print l (memory w))) -> threads w !! t = Some (mkThread p Runs) ->
  is_first p' = is_first p -> (inside (mkThread p' Runs) <-> inside (mkThread p Runs)) -> (knows (mkThread p Runs) (A (memory w)) -> knows (mkThread p' Runs) (A (memory w))) ->
  p <> FSignal -> (forall l', l' ∈ said p' -> l' = l) -> (l = SecondWorks -> FirstWork ∈ output (memory w)) ->
  synced (mkU (kw w) (<[t := mkThread p' Runs]> (threads w)) (print l (memory w))).
Proof.
  intros Hs Hg Ht Hrole Hin Hk Hns Hsaid Hfw. pose proof (runs_not_queued w t p Hs Ht) as Hout. pose proof (cs_knows _ Hs t _ Ht) as Hkn.
  destruct w as [[k log] T m]. cbn [kw threads memory fst snd] in *.
  apply (synced_step (mkU (k, log) T m) t (mkThread p Runs) p' Runs k log _ Keeps); cbn [kw threads memory fst snd point A print pending output]; try done.
  - by left.
  - by apply Hk.
  - by apply (same_queue (mkU (k, log) T m)).
  - auto.
  - intros l' ->%Hsaid. apply elem_of_app. right. by left.
  - right. by exists l.
Qed.

Lemma compute_synced w t p m' p' :
  synced w -> good (mkU (kw w) (<[t := mkThread p' Runs]> (threads w)) m') -> threads w !! t = Some (mkThread p Runs) -> code p (memory w) = Compute m' p' ->
  synced (mkU (kw w) (<[t := mkThread p' Runs]> (threads w)) m').
Proof.
  intros Hs Hg Ht Hc. pose proof (runs_not_queued w t p Hs Ht) as Hout. pose proof (cs_knows _ Hs t _ Ht) as Hk. pose proof (first_worked w Hs) as Hfw.
  pose proof (fun l => cs_said _ Hs t _ l Ht) as Hsd. cbn [point] in Hsd.
  destruct p; try done; injection Hc as <- <-; try (apply (says w t _ _ _ Hs Hg Ht); by set_solver).
  - destruct w as [[k log] T m]. cbn [kw threads memory fst snd] in *.
    apply (synced_step (mkU (k, log) T m) t (mkThread FStore Runs) FSignal Runs k log _ Keeps); cbn [kw threads memory fst snd point A set_A pending output]; try done.
    + right. done.
    + by apply (same_queue (mkU (k, log) T m)).
    + auto.
    + by left.
  - pose proof (cs_A _ Hs) as HA. destruct w as [[k log] T m]. cbn [kw threads memory fst snd] in *.
    destruct (Z.eqb_spec (A m) 0) as [E|E]; (apply (goes_on (mkU (k, log) T m) t (mkThread STest Runs) _ Runs k log Keeps); try done; by intros _; cbn; tauto).
  - apply (says w t _ _ _ Hs Hg Ht); try done; [by intros Hk0 _|by intros l ?%elem_of_nil].
Qed.

Lemma call_synced w t p c p' k' (b : bool) :
  let log' := (if b then after_call t c else []) ++ before_call t c (fst (kw w)) ++ snd (kw w) in
  let th' := if b then mkThread p' Runs else mkThread p (Waits c p') in
  synced w -> good (mkU (k', log') (<[t := th']> (threads w)) (memory w)) -> threads w !! t = Some (mkThread p Runs) ->
  code p (memory w) = Call c p' -> (b = false -> exists kc, suspends c kc) -> (forall v m, c = CWait v m -> b = false) ->
  (forall v, cond_queue k' v = cond_after t c v (cond_queue (fst (kw w)) v)) -> synced (mkU (k', log') (<[t := th']> (threads w)) (memory w)).
Proof.
  intros log' th' Hs Hg Ht Hc Hsus Hwait Hq. unfold log', th' in *. clear log' th'. pose proof (runs_not_queued w t p Hs Ht) as Hout.
  pose proof (fun l => cs_said _ Hs t _ l Ht) as Hsd. cbn [point] in Hsd.
  destruct p; try done; injection Hc as <- <-; cbn [after_call before_call app] in *.
  - destruct b; (apply (goes_on w t (mkThread FSleep Runs) _ _ _ _ Keeps); try done; cbn; tauto).
  - destruct b; [apply (goes_on w t (mkThread FLock Runs) _ _ _ _ (Takes MUTEX_ID)); try done; apply takes_locked|].
    apply (goes_on w t (mkThread FLock Runs) _ _ _ _ Keeps); try done. split; auto.
  - destruct b; [|by destruct (Hsus eq_refl)]. pose proof (queue_second w Hs) as Hone.
    apply (synced_step w t (mkThread FSignal Runs) _ _ _ _ (memory w) Keeps); try done; try (by left); [by apply (cs_knows _ Hs t _ Ht)| |].
    + intros c t'. rewrite Hq. cbn. intros Hin. left. assert (Hin' : t' ∈ cond_queue (fst (kw w)) c) by (case_decide; [destruct (cond_queue _ c); [done|by right]|done]).
      split; [|done]. intros ->. by apply (Hout c).
    + rewrite Hq. cbn. rewrite decide_True by done. destruct (cond_queue _ _) as [|a [|]]; cbn in *; [done|done|lia].
  - destruct b; [|by destruct (Hsus eq_refl)]. apply (goes_on w t (mkThread FUnlock Runs) _ _ _ _ (Drops MUTEX_ID)); try done; [apply takes_unlocked|].
    split; [done|]. by intros [].
  - destruct b; [apply (goes_on w t (mkThread SLock Runs) _ _ _ _ (Takes MUTEX_ID)); try done; apply takes_locked|].
    apply (goes_on w t (mkThread SLock Runs) _ _ _ _ Keeps); try done. split; auto.
  - rewrite (Hwait _ _ eq_refl) in *. pose proof (cs_knows _ Hs t _ Ht eq_refl) as Hk.
    apply (synced_step w t (mkThread SWait Runs) _ _ _ _ (memory w) (Drops MUTEX_ID)); try done; try (by left).
    + split; [done|auto].
    + apply takes_unlocked.
    + intros c t'. rewrite Hq. cbn. case_decide as E; [intros [Hin|Hin%list_elem_of_singleton]%elem_of_app|intros Hin]; [left|right; subst; done|left];
        (split; [intros ->; by apply (Hout c)|done]).
  - destruct b; [|by destruct (Hsus eq_refl)]. apply (goes_on w t (mkThread SUnlock Runs) _ _ _ _ (Drops MUTEX_ID)); try done; [apply takes_unlocked|].
    split; [done|]. by intros [].
Qed.

Lemma return_synced w t p c p' k' :
  let log' := returned t c ++ Dispatched t :: snd (kw w) in
  synced w -> good (mkU (k', log') (<[t := mkThread p' Runs]> (threads w)) (memory w)) -> threads w !! t = Some (mkThread p (Waits c p')) ->
  (forall v, cond_queue k' v = cond_queue (fst (kw w)) v /\ t ∉ cond_queue (fst (kw w)) v) ->
  synced (mkU (k', log') (<[t := mkThread p' Runs]> (threads w)) (memory w)).
Proof.
  intros log' Hs Hg Ht Hq. destruct (cs_place _ Hs t _ Ht) as [Hc Hp]. cbn [point doing] in *.
  assert (Hq1 : forall v, cond_queue k' v = cond_queue (fst (kw w)) v) by apply Hq. assert (Hq2 : forall v, t ∉ cond_queue (fst (kw w)) v) by apply Hq.
  destruct Hp as [-> |[-> |[-> | ->]]]; injection Hc as <- <-.
  - by apply (goes_on w t (mkThread FSleep (Waits (CSleep now 10) FPrint)) _ _ _ _ Keeps).
  - apply (goes_on w t (mkThread FLock (Waits (CLock MUTEX_ID) FStore)) _ _ _ _ (Takes MUTEX_ID)); try done. apply (takes_locked t _ (Dispatched t :: snd (kw w))).
  - apply (goes_on w t (mkThread SLock (Waits (CLock MUTEX_ID) STest)) _ _ _ _ (Takes MUTEX_ID)); try done. apply (takes_locked t _ (Dispatched t :: snd (kw w))).
  - apply (goes_on w t (mkThread SWait (Waits (CWait CONDVAR_ID MUTEX_ID) STest)) _ _ _ _ (Takes MUTEX_ID)); try done. apply (takes_locked t _ (Dispatched t :: snd (kw w))).
Qed.

(** [main] creates a thread. *)
Lemma create_synced w k' t p m' :
  synced w -> good (mkU (k', snd (kw w)) (<[t := mkThread p Runs]> (threads w)) m') -> threads w !! t = None -> born (memory w) = Some (p, m') ->
  (forall v, cond_queue k' v = cond_queue (fst (kw w)) v /\ t ∉ cond_queue (fst (kw w)) v) ->
  synced (mkU (k', snd (kw w)) (<[t := mkThread p Runs]> (threads w)) m').
Proof.
  intros Hs Hg Hn Hbo Hq. unfold born in Hbo. destruct (pending (memory w)) as [|p0 rest] eqn:Ep; [done|]. injection Hbo as <- <-.
  assert (Hq1 : forall v, cond_queue k' v = cond_queue (fst (kw w)) v) by apply Hq.
  assert (Hp0 : p0 ∈ pending (memory w)) by (rewrite Ep; by left). destruct (cs_pending _ Hs p0 Hp0) as [Hfs Hno].
  pose proof (cs_nodup _ Hs) as Hnd. rewrite Ep in Hnd. cbn in Hnd. apply NoDup_cons in Hnd as [Hnd0 Hnd].
  assert (Hlook : forall t1 th1, <[t := mkThread p0 Runs]> (threads w) !! t1 = Some th1 -> (t1 = t /\ th1 = mkThread p0 Runs) \/ (t1 <> t /\ threads w !! t1 = Some th1)).
  { intros t1 th1. destruct (decide (t = t1)) as [<-|Hne]; [rewrite lookup_insert_eq; intros [= <-]; auto|rewrite lookup_insert_ne by done; auto]. }
  split; cbn [kw threads memory fst snd A output pending].
  - done.
  - intros t1 th1 H1. destruct (Hlook t1 th1 H1) as [[_ ->]|[_ H2]]; [done|by apply (cs_place _ Hs t1)].
  - intros t1. rewrite (cs_holder _ Hs t1). destruct (decide (t = t1)) as [<-|Hne]; [|by rewrite lookup_insert_ne]. rewrite lookup_insert_eq, Hn.
    split; [naive_solver|]. intros (th1 & [= <-] & Hin). destruct Hfs as [-> | ->]; done.
  - intros t1 t2 th1 th2 H1 H2 E. destruct (Hlook t1 th1 H1) as [[-> ->]|[_ H1']], (Hlook t2 th2 H2) as [[-> ->]|[_ H2']]; [done| | |by apply (cs_one _ Hs t1 t2 th1 th2)].
    + by destruct (Hno t2 th2 H2').
    + by destruct (Hno t1 th1 H1').
  - done.
  - intros p1 Hp1. destruct (cs_pending _ Hs p1) as [Hfs1 Hno1]; [rewrite Ep; by right|]. split; [done|]. intros t1 th1 H1.
    destruct (Hlook t1 th1 H1) as [[_ ->]|[_ H2]]; [|by apply (Hno1 t1)]. intros E. apply Hnd0. cbn in E. rewrite E. by apply list_elem_of_fmap_2.
  - intros b. destruct (cs_all _ Hs b) as [(p1 & Hp1 & Hb)|(t1 & th1 & H1 & Hb)].
    + rewrite Ep in Hp1. apply elem_of_cons in Hp1 as [-> |Hp1]; [right|left; by exists p1]. exists t, (mkThread p0 Runs). by rewrite lookup_insert_eq.
    + right. exists t1, th1. rewrite lookup_insert_ne by (intros ->; congruence). done.
  - intros t1 th1 H1. destruct (Hlook t1 th1 H1) as [[_ ->]|[_ H2]]; [|by apply (cs_knows _ Hs t1)]. destruct Hfs as [-> | ->]; [by apply (cs_unmade _ Hs)|done].
  - intros Hun. apply (cs_unmade _ Hs). rewrite Ep. by right.
  - apply Hs.
  - intros t1. rewrite Hq1. intros H1. destruct (cs_queue _ Hs t1 H1) as (th1 & H2 & H3). exists th1. rewrite lookup_insert_ne by (intros ->; congruence). done.
  - intros c t1 th1. rewrite Hq1. intros Hin H1. destruct (Hlook t1 th1 H1) as [[-> _]|[_ H2]]; [by destruct (Hq c)|by apply (cs_where _ Hs c t1 th1)].
  - rewrite Hq1. intros Hne. destruct (cs_signal _ Hs Hne) as [|(t1 & th1 & H1 & H2)]; [by left|right]. exists t1, th1. rewrite lookup_insert_ne by (intros ->; congruence). done.
  - intros t1 th1 l H1. destruct (Hlook t1 th1 H1) as [[_ ->]|[_ H2]]; [|by apply (cs_said _ Hs t1 th1)]. destruct Hfs as [-> | ->]; cbn; by intros ?%elem_of_nil.
  - apply Hs.
Qed.

Lemma synced_ustep w w' : synced w -> ustep w w' -> synced w'.
Proof.
  intros Hs Hst. destruct (ustep_effect _ _ _ _ _ w w' (cs_good _ Hs) (synced_disciplined w Hs) Hst) as [Hg He]. clear Hst.
  destruct He as [w t p m' p' Ht Hc|w t p c p' k' b Ht Hc Hsus Hwait Hq|w t p c p' k' Ht Hq|w t p k' Ht Hc Hq|w t p k' m' Ht Hbo Hq|w k' log' Hlog [Hq1 Hq2]].
  - by apply (compute_synced w t p).
  - by apply (call_synced w t p c p').
  - by eapply (return_synced w t p c).
  - pose proof (runs_not_queued w t p Hs Ht) as Hout. assert (Hq' : forall c, cond_queue k' c = cond_queue (fst (kw w)) c) by (intros c; by apply cond_queue_same).
    destruct p; try done; (eapply (goes_on w t (mkThread _ Runs) _ _ _ _ Keeps); try done; cbn; auto).
  - by apply (create_synced w).
  - destruct Hs as [_ Hp Hh Hone Hnd Hpe Hall Hk Hun HA Hqu Hwh Hsi Hsd Ho]. split; cbn [kw threads memory fst snd]; rewrite ?Hq1 by done; try done.
    + intros t. destruct Hlog as [_ Hlog]. by rewrite (Hlog MUTEX_ID).
    + intros c t th Hin Ht. apply (Hwh c t th); [|done]. apply Hq2; [by rewrite Ht|done].
Qed.

Lemma synced_usteps w w' : synced w -> rtc ustep w w' -> synced w'.
Proof. intros Hs Hr. induction Hr as [|w w1 w' Hst _ IH]; [done|]. apply IH. by eapply synced_ustep. Qed.

(** ** No deadlock *)

Lemma synced_not_stuck w :
  synced w -> stalled w -> pending (memory w) = [] ->
  (exists t th, threads w !! t = Some th /\ t ∈ timer_task <$> timers (fst (kw w))) \/
  (forall t th, threads w !! t = Some th -> doing th = Ended) /\ SecondWorks ∈ output (memory w).
Proof.
  intros Hs Hst Hpe.
  assert (Hfree : forall t, t ∉ holders MUTEX_ID (snd (kw w))).
  { intros t Hin. apply (cs_holder _ Hs) in Hin as ([p md] & Ht & Hin). destruct md as [|c p'|]; [by eapply stalled_not_running; [apply (cs_good _ Hs)|..]| |];
      pose proof (cs_place _ Hs t _ Ht) as Hp; cbn in Hp; destruct p; cbn in Hin; naive_solver. }
  assert (Hrole : forall b, exists t th, threads w !! t = Some th /\ is_first (point th) = b).
  { intros b. destruct (cs_all _ Hs b) as [(p & Hp & _)|]; [|done]. rewrite Hpe in Hp. by apply elem_of_nil in Hp. }
  destruct (Hrole true) as (t & [p md] & Ht & Hf). destruct (Hrole false) as (t' & [q md'] & Ht' & Hf'). cbn [point] in *.
  pose proof (cs_place _ Hs t _ Ht) as Hp. pose proof (cs_place _ Hs t' _ Ht') as Hp'. unfold placed in Hp, Hp'. cbn [doing point] in Hp, Hp'.
  destruct md as [|c p'|]; [exfalso; by eapply stalled_not_running; [apply (cs_good _ Hs)|..]| |].
  - destruct Hp as [Hc [-> |[-> |[-> | ->]]]]; [| |done|done]; injection Hc as <- <-.
    + left. eexists t, _. split; [done|]. by eapply stalled_sleep; [apply (cs_good _ Hs)|..].
    + exfalso. destruct (stalled_lock _ _ w t _ _ _ (cs_good _ Hs) Hst eq_refl Ht) as [t1 Hin]. by apply Hfree in Hin.
  - right. assert (p = FExit) as -> by (by destruct Hp as [-> | ->]). pose proof (cs_knows _ Hs t _ Ht) as HA. cbn in HA.
    assert (md' = Ended) as ->.
    { destruct md' as [|c p'|]; [exfalso; by eapply stalled_not_running; [apply (cs_good _ Hs)|..]|exfalso|done].
      destruct Hp' as [Hc [-> |[-> |[-> | ->]]]]; try done; injection Hc as <- <-.
      - destruct (stalled_lock _ _ w t' _ _ _ (cs_good _ Hs) Hst eq_refl Ht') as [t1 Hin]. by apply Hfree in Hin.
      - destruct (stalled_wait _ _ w t' _ _ _ _ (cs_good _ Hs) Hst eq_refl Ht') as [[t1 Hin]|[c Hin]]; [by apply Hfree in Hin|].
        pose proof (cs_where _ Hs c t' _ Hin Ht') as ->. destruct (cs_signal _ Hs) as [HA0|(t1 & th1 & H1 & Hp1)]; [intros E; rewrite E in Hin; by apply elem_of_nil in Hin|congruence|].
        assert (t1 = t) as -> by (apply (cs_one _ Hs t1 t th1 _ H1 Ht); by rewrite Hp1). rewrite Ht in H1. injection H1 as <-. done. }
    split; [|apply (cs_said _ Hs t' _ _ Ht'); cbn; destruct Hp' as [-> | ->]; [done|by left]].
    intros t1 th1 H1. destruct (is_first (point th1)) eqn:E.
    + assert (t1 = t) as -> by (by apply (cs_one _ Hs t1 t th1 _ H1 Ht)). rewrite Ht in H1. by injection H1 as <-.
    + assert (t1 = t') as -> by (apply (cs_one _ Hs t1 t' th1 _ H1 Ht'); cbn; congruence). rewrite Ht' in H1. by injection H1 as <-.
Qed.

Lemma start_synced w0 :
  reachable w0 -> (length (mutexes (fst w0)) <= MUTEX_ID)%nat -> (length (condvars (fst w0)) <= CONDVAR_ID)%nat ->
  synced (mkU w0 ∅ (mkShared 0 [] [FSleep; SPrint])).
Proof.
  intros Hr Hnew Hnewc. destruct (reachable_known w0 Hr) as [Hi Hk]. assert (Hq : cond_queue (fst w0) CONDVAR_ID = []) by (unfold cond_queue; by rewrite lookup_ge_None_2).
  split; cbn [kw threads memory fst snd A output pending]; rewrite ?Hq; try (intros *; by rewrite lookup_empty); try done.
  - split; cbn [kw threads fst]; [done|by intros t th; rewrite lookup_empty| |done]. intros t kc _ Hin Hkc.
    destruct (decide (current (fst w0) = Some t)) as [|Hne]; [by left|]. right. specialize (Hk t kc Hin Hne Hkc).
    destruct kc; cbn in *; try tauto; intros ->; apply lookup_lt_is_Some in Hk; lia.
  - intros t. split; [|intros (th & Ht & _); by rewrite lookup_empty in Ht]. intros Hin. exfalso.
    pose proof (inv_mutex _ Hi MUTEX_ID) as Hl. rewrite lookup_ge_None_2 in Hl by done. destruct Hl as [Hl _]. unfold held in Hl.
    destruct (holders MUTEX_ID (snd w0)); [by apply elem_of_nil in Hin|]. cbn in Hl. lia.
  - cbn. repeat constructor; set_solver.
  - intros p Hp. split; [set_solver|]. intros t th. by rewrite lookup_empty.
  - intros b. left. destruct b; [exists FSleep|exists SPrint]; set_solver.
  - by left.
  - by intros t ?%elem_of_nil.
  - intros l r E. by destruct l.
Qed.
End condsync.

Definition condsync_step (now : Z) (MUTEX_ID CONDVAR_ID : nat) : uworld location shared -> uworld location shared -> Prop :=
  ustep (code now MUTEX_ID CONDVAR_ID) born (our_mutex MUTEX_ID) (fun _ => False) (our_cond CONDVAR_ID).

(** condsync_condvar.rs in every interleaving of the two threads, [main], the timer and the
    rest of the system: [second] works only after [first] has worked, and the signal is not
    lost.  When both threads were created, either they have exited and [second] has worked,
    or one of them is running, ready, or sleeps with a timer. *)
Theorem second_works_after_first now MUTEX_ID CONDVAR_ID w0 w :
  reachable w0 -> (length (mutexes (fst w0)) <= MUTEX_ID)%nat -> (length (condvars (fst w0)) <= CONDVAR_ID)%nat ->
  rtc (condsync_step now MUTEX_ID CONDVAR_ID) (mkU w0 ∅ (mkShared 0 [] [FSleep; SPrint])) w ->
  (forall l r, output (memory w) = l ++ SecondWorks :: r -> FirstWork ∈ l) /\
  (pending (memory w) = [] ->
     (exists t th, threads w !! t = Some th /\
        (current (fst (kw w)) = Some t \/ t ∈ ready_queue (fst (kw w)) \/ t ∈ timer_task <$> timers (fst (kw w)))) \/
     (forall t th, threads w !! t = Some th -> doing th = Ended) /\ SecondWorks ∈ output (memory w)).
Proof.
  intros Hr Hm Hc Hrun. pose proof (synced_usteps _ _ _ _ _ (start_synced now MUTEX_ID CONDVAR_ID w0 Hr Hm Hc) Hrun) as Hs. split; [apply (cs_order _ _ _ _ Hs)|]. intros Hpe.
  destruct (decide (Exists (fun x : nat * thread location => current (fst (kw w)) = Some x.1 \/ x.1 ∈ ready_queue (fst (kw w))) (map_to_list (threads w)))) as [Hex|Hno].
  - left. apply Exists_exists in Hex as ([t th] & Hin & Hg). apply elem_of_map_to_list in Hin. exists t, th. split; [done|]. cbn in Hg. tauto.
  - destruct (synced_not_stuck now MUTEX_ID CONDVAR_ID w Hs) as [(t & th & Ht & Hti)|Hend]; [|done|left; exists t, th; tauto|by right].
    intros t th Ht. assert (Hn : ~ (current (fst (kw w)) = Some t \/ t ∈ ready_queue (fst (kw w)))); [|tauto].
    intros Hg. apply Hno, Exists_exists. exists (t, th). by rewrite elem_of_map_to_list.
Qed.

(** ** A run *)

Module Demo.
#[local] Abbreviation program := (code 0 0 0).
Definition w0 : world := Eval vm_compute in world_of (run_dispatch (spawn 0 0 (fst boot), [])).
Definition start : uworld location shared := mkU w0 ∅ (mkShared 0 [] [FSleep; SPrint]).

(** [main] makes the condition variable and the mutex. *)
Definition made1 : world := Eval vm_compute in world_of (run_call 0 CNewCondvar w0).
Definition made2 : world := Eval vm_compute in world_of (run_call 0 (CNewMutex true) made1).
Definition made : uworld location shared := mkU made2 ∅ (memory start).

Definition choose (i : nat) (w : uworld location shared) : act :=
  match current (fst (kw w)) with
  | None => Dispatch
  | Some t =>
      if bool_decide (is_Some (threads w !! t)) then Go
      else if bool_decide (pending (memory w) = []) then Tick (100000 * (60 - Z.of_nat i)) else Create (S (size (threads w))) 0
  end.

Fixpoint drive (n : nat) (w : uworld location shared) : list act :=
  match n with
  | O => []
  | S n' => let a := choose n w in match next program born a w with Ok w' => a :: drive n' w' | Panic _ => [] end
  end.

Definition acts : list act := Eval vm_compute in drive 60 made.
Definition final : uworld location shared := Eval vm_compute in match play program born acts made with Ok w => w | Panic _ => start end.

Lemma condsync_booted : reachable w0.
Proof.
  unfold reachable. eapply rtc_l; [apply (step_spawn _ _ 0 0); [apply not_elem_of_nil|done]|].
  eapply rtc_l; [apply run_dispatch_step; [done|vm_compute; reflexivity]|]. apply rtc_refl.
Qed.

Lemma condsync_run : rtc (condsync_step 0 0 0) start final.
Proof.
  eapply rtc_l; [by apply (other_call_step _ _ _ _ _ start 0 CNewCondvar made1)|].
  eapply rtc_l; [by apply (other_call_step _ _ _ _ _ (mkU made1 ∅ (memory start)) 0 (CNewMutex true) made2)|].
  apply (play_usteps _ _ _ _ _ acts). vm_compute. reflexivity.
Qed.
End Demo.

Lemma second_works_after_first_witness :
  output (memory Demo.final) = [SecondWants; SecondWaits; FirstWork; SecondWorks] /\ FirstWork ∈ [SecondWants; SecondWaits; FirstWork].
Proof.
  destruct (second_works_after_first 0 0 0 Demo.w0 Demo.final) as [Ho _]; [apply Demo.condsync_booted|cbn; lia|cbn; lia|apply Demo.condsync_run|].
  assert (E : output (memory Demo.final) = [SecondWants; SecondWaits; FirstWork; SecondWorks]) by reflexivity. split; [exact E|]. by apply (Ho _ []).
Defined.
