(* ===== verification/Signal.v ===== *)
(** Signals: os/src/task/signal, the signal handling of os/src/task/mod.rs, the signal
    system calls of os/src/syscall/process.rs, os/src/trap/context.rs and the part of
    [trap_handler] (os/src/trap/mod.rs) that runs a system call and then the signals.

    The state is the signal fields of the current process and the trap context of the
    current thread.  [handle_signals] is a loop that may give up the processor; a round
    of it is a function, and its result says whether the process leaves the loop. *)

From S2P Require Import Prelude.

Definition SIG_CNT : Z := 32.

(** ** [SignalFlags] *)

Definition bits (n : Z) : Z := wrap 32 (Z.shiftl 1 n).

Definition SIGDEF : Z := bits 0.
Definition SIGHUP : Z := bits 1.
Definition SIGINT : Z := bits 2.
Definition SIGQUIT : Z := bits 3.
Definition SIGILL : Z := bits 4.
Definition SIGTRAP : Z := bits 5.
Definition SIGABRT : Z := bits 6.
Definition SIGBUS : Z := bits 7.
Definition SIGFPE : Z := bits 8.
Definition SIGKILL : Z := bits 9.
Definition SIGUSR1 : Z := bits 10.
Definition SIGSEGV : Z := bits 11.
Definition SIGUSR2 : Z := bits 12.
Definition SIGPIPE : Z := bits 13.
Definition SIGALRM : Z := bits 14.
Definition SIGTERM : Z := bits 15.
Definition SIGSTKFLT : Z := bits 16.
Definition SIGCHLD : Z := bits 17.
Definition SIGCONT : Z := bits 18.
Definition SIGSTOP : Z := bits 19.
Definition SIGTSTP : Z := bits 20.
Definition SIGTTIN : Z := bits 21.
Definition SIGTTOU : Z := bits 22.
Definition SIGURG : Z := bits 23.
Definition SIGXCPU : Z := bits 24.
Definition SIGXFSZ : Z := bits 25.
Definition SIGVTALRM : Z := bits 26.
Definition SIGPROF : Z := bits 27.
Definition SIGWINCH : Z := bits 28.
Definition SIGIO : Z := bits 29.
Definition SIGPWR : Z := bits 30.
Definition SIGSYS : Z := bits 31.

(** All 32 bits are declared. *)
Definition SignalFlags_all : Z := 2 ^ 32 - 1.
Definition from_bits (b : Z) : option Z :=
  if Z.land b (2 ^ 32 - 1 - SignalFlags_all) =? 0 then Some b else None.

Definition contains (a b : Z) : bool := Z.land a b =? b.

Definition check_error (sigs : Z) : option Z :=
  if contains sigs SIGINT then Some (-2)
  else if contains sigs SIGILL then Some (-4)
  else if contains sigs SIGABRT then Some (-6)
  else if contains sigs SIGFPE then Some (-8)
  else if contains sigs SIGKILL then Some (-9)
  else if contains sigs SIGSEGV then Some (-11)
  else None.

(** ** State *)

Record SignalAction := mkAction { handler : Z; mask : Z }.
Definition SignalAction_default : SignalAction := mkAction 0 (Z.lor SIGQUIT SIGTRAP).
Definition SignalActionTable_default : list SignalAction := replicate (Z.to_nat SIG_CNT) SignalAction_default.

Record TrapContext := mkTrapContext {
  gprs : list Z;
  sstatus : Z;
  sepc : Z;
  kernel_satp : Z;
  kernel_stack_top : Z;
  trap_handler : Z;
}.

Definition set_gpr (i : Z) (v : Z) (cx : TrapContext) : TrapContext :=
  mkTrapContext (<[Z.to_nat i := v]> (gprs cx)) (sstatus cx) (sepc cx) (kernel_satp cx)
    (kernel_stack_top cx) (trap_handler cx).
Definition set_sepc (v : Z) (cx : TrapContext) : TrapContext :=
  mkTrapContext (gprs cx) (sstatus cx) v (kernel_satp cx) (kernel_stack_top cx) (trap_handler cx).
Definition gpr (i : Z) (cx : TrapContext) : Z := gprs cx !!! Z.to_nat i.

(** [user_sstatus] is [sstatus] with [SPP] set to user mode. *)
Definition app_initial_context (user_sstatus entry_point user_sp kernel_satp kernel_stack_top trap_handler : Z) : TrapContext :=
  mkTrapContext (<[2%nat := user_sp]> (replicate 32 0)) user_sstatus entry_point kernel_satp kernel_stack_top trap_handler.

Record state := mkState {
  signals : Z;
  signal_actions : list SignalAction;
  signal_mask : Z;
  handling_signal : Z;
  killed : bool;
  frozen : bool;
  trap_cx : TrapContext;
  trap_cx_backup : option TrapContext;
}.

Definition set_signals v s := mkState v (signal_actions s) (signal_mask s) (handling_signal s) (killed s) (frozen s) (trap_cx s) (trap_cx_backup s).
Definition set_actions v s := mkState (signals s) v (signal_mask s) (handling_signal s) (killed s) (frozen s) (trap_cx s) (trap_cx_backup s).
Definition set_mask v s := mkState (signals s) (signal_actions s) v (handling_signal s) (killed s) (frozen s) (trap_cx s) (trap_cx_backup s).
Definition set_handling v s := mkState (signals s) (signal_actions s) (signal_mask s) v (killed s) (frozen s) (trap_cx s) (trap_cx_backup s).
Definition set_killed v s := mkState (signals s) (signal_actions s) (signal_mask s) (handling_signal s) v (frozen s) (trap_cx s) (trap_cx_backup s).
Definition set_frozen v s := mkState (signals s) (signal_actions s) (signal_mask s) (handling_signal s) (killed s) v (trap_cx s) (trap_cx_backup s).
Definition set_trap_cx v s := mkState (signals s) (signal_actions s) (signal_mask s) (handling_signal s) (killed s) (frozen s) v (trap_cx_backup s).
Definition set_backup v s := mkState (signals s) (signal_actions s) (signal_mask s) (handling_signal s) (killed s) (frozen s) (trap_cx s) v.

(** The signal fields that [ProcessControlBlock::new] sets. *)
Definition new_process (cx : TrapContext) : state :=
  mkState 0 SignalActionTable_default 0 (-1) false false cx None.

(** ** os/src/task/mod.rs *)

Definition current_add_signal (signal : Z) (s : state) : state := set_signals (Z.lor (signals s) signal) s.

Definition check_signals_of_current (s : state) : option Z := check_error (signals s).

Definition call_kernel_signal_handler (signal : Z) (s : state) : state :=
  if signal =? SIGSTOP then set_signals (Z.lxor (signals s) SIGSTOP) (set_frozen true s)
  else if signal =? SIGCONT then set_signals (Z.lxor (signals s) SIGCONT) (set_frozen false s)
  else set_killed true s.

Definition call_user_signal_handler (signum signal : Z) (s : state) : res state :=
  a ← index (signal_actions s) signum;
  if negb (handler a =? 0) then
    let s := set_handling signum s in
    let s := set_signals (Z.lxor (signals s) signal) s in
    let s := set_backup (Some (trap_cx s)) s in
    Ok (set_trap_cx (set_gpr 10 signum (set_sepc (handler a) (trap_cx s))) s)
  else Ok s.

(** The test of the loop of [check_pending_signals]. *)
Definition deliverable (signal : Z) (s : state) : res bool :=
  if contains (signals s) signal && negb (contains (signal_mask s) signal) then
    if handling_signal s =? -1 then Ok true
    else
      a ← index (signal_actions s) (handling_signal s);
      Ok (negb (contains (mask a) signal))
  else Ok false.

Definition is_kernel_signal (signal : Z) : bool :=
  (signal =? SIGKILL) || (signal =? SIGSTOP) || (signal =? SIGCONT) || (signal =? SIGDEF).

Fixpoint check_pending_signals_loop (signums : list Z) (s : state) : res state :=
  match signums with
  | [] => Ok s
  | signum :: rest =>
      signal ← unwrap (from_bits (bits signum));
      d ← deliverable signal s;
      if d : bool then
        if is_kernel_signal signal then
          check_pending_signals_loop rest (call_kernel_signal_handler signal s)
        else call_user_signal_handler signum signal s
      else check_pending_signals_loop rest s
  end.

Definition check_pending_signals (s : state) : res state :=
  check_pending_signals_loop (seqZ 0 SIG_CNT) s.

(** One round of the loop of [handle_signals]; [true] leaves it, [false] gives up the
    processor and comes back for another round. *)
Definition handle_signals_round (s : state) : res (bool * state) :=
  s' ← check_pending_signals s;
  Ok (killed s' || negb (frozen s'), s').

(** ** os/src/syscall/process.rs *)

(** [pid2process] is the caller's; [None] when there is no such process. *)
Definition sys_kill (process : option state) (signum : Z) : Z * option state :=
  if SIG_CNT <=? wrap 64 signum then (-1, process)
  else
    match process with
    | Some inner =>
        match from_bits (bits signum) with
        | Some flag =>
            if contains (signals inner) flag then (-1, process)
            else (0, Some (set_signals (Z.lor (signals inner) flag) inner))
        | None => (-1, process)
        end
    | None => (-1, process)
    end.

Definition check_sigaction_error (flag action old_action : Z) : bool :=
  (action =? 0) || (old_action =? 0) || (flag =? SIGKILL) || (flag =? SIGSTOP).

(** [new] is the action that [translated_ref(satp, action)] reads; the action to write
    through [translated_refmut(satp, old_action)] is returned. *)
Definition sys_sigaction (signum action old_action : Z) (new : SignalAction) (s : state) : res (Z * option SignalAction * state) :=
  if SIG_CNT <=? wrap 64 signum then Ok (-1, None, s)
  else
    match from_bits (bits signum) with
    | Some flag =>
        if check_sigaction_error flag action old_action then Ok (-1, None, s)
        else
          old ← index (signal_actions s) signum;
          t ← index_set (signal_actions s) signum new;
          Ok (0, Some old, set_actions t s)
    | None => Ok (-1, None, s)
    end.

Definition sys_sigprocmask (m : Z) (s : state) : Z * state :=
  let old_mask := signal_mask s in
  match from_bits m with
  | Some flag => (old_mask, set_mask flag s)
  | None => (-1, s)
  end.

Definition sys_sigreturn (s : state) : res (Z * state) :=
  let s := set_handling (-1) s in
  cx ← unwrap (trap_cx_backup s);
  Ok (as_isize (gpr 10 cx), set_trap_cx cx s).

(** ** [trap_handler]

    The branch for [UserEnvCall], with the system call left open: step over the
    [ecall], run it, and put its result in [a0]. *)
Definition user_env_call (syscall : state -> res (Z * state)) (s : state) : res state :=
  let s := set_trap_cx (set_sepc (uadd (sepc (trap_cx s)) 4) (trap_cx s)) s in
  '(result, s) ← syscall s;
  Ok (set_trap_cx (set_gpr 10 (wrap 64 result) (trap_cx s)) s).

(** The branches for faults. *)
Definition fault_trap (illegal_instruction : bool) (s : state) : state :=
  current_add_signal (if illegal_instruction then SIGILL else SIGSEGV) s.

(** What follows the branches, once [handle_signals] has left its loop: [inl] is the
    exit code of a process that is terminated. *)
Definition after_signals (s : state) : Z + state :=
  match check_signals_of_current s with
  | Some errno => inl errno
  | None => inr s
  end.

(** * What the loop computes *)

Record wf (s : state) : Prop := {
  wf_actions : length (signal_actions s) = 32%nat;
  wf_handling : handling_signal s = -1 \/ 0 <= handling_signal s < 32;
}.

(** Signal [n] is pending, and blocked neither by the process nor by the handler that
    runs. *)
Definition deliv (n : Z) (s : state) : bool :=
  Z.testbit (signals s) n && negb (Z.testbit (signal_mask s) n) &&
  ((handling_signal s =? -1) ||
   negb (Z.testbit (mask (default SignalAction_default (signal_actions s !! Z.to_nat (handling_signal s)))) n)).

Definition kernel_signum (n : Z) : bool := (n =? 9) || (n =? 19) || (n =? 18) || (n =? 0).

(** What one kernel signal does. *)
Definition kernel_step (s : state) (n : Z) : state :=
  if deliv n s && kernel_signum n then call_kernel_signal_handler (bits n) s else s.

Definition user_deliv (s : state) (n : Z) : bool := deliv n s && negb (kernel_signum n).

(** The lowest user signal that can be delivered. *)
Definition first_user (s : state) : option nat := find_index (user_deliv s) (seqZ 0 32).

Lemma bits_pow2 n : 0 <= n < 32 -> bits n = 2 ^ n.
Proof.
  intros Hn. unfold bits. rewrite Z.shiftl_1_l. apply wrap_small.
  split; [apply Z.pow_nonneg; lia|apply Z.pow_lt_mono_r; lia].
Qed.

Lemma bits_inj n m : 0 <= n < 32 -> 0 <= m < 32 -> bits n = bits m <-> n = m.
Proof. intros. rewrite !bits_pow2 by done. split; [|by intros ->]. intros E. apply Z.pow_inj_r in E; lia. Qed.

Lemma contains_bits a n : 0 <= n < 32 -> contains a (bits n) = Z.testbit a n.
Proof.
  intros Hn. unfold contains. rewrite bits_pow2 by done. apply Bool.eq_iff_eq_true. rewrite Z.eqb_eq. split.
  - intros E. assert (Ht : Z.testbit (Z.land a (2 ^ n)) n = true) by (rewrite E; apply Z.pow2_bits_true; lia).
    by rewrite Z.land_spec, Z.pow2_bits_true, andb_true_r in Ht by lia.
  - intros Ht. apply Z.bits_inj'. intros i Hi. rewrite Z.land_spec. destruct (decide (n = i)) as [->|Hne].
    + by rewrite Ht, Z.pow2_bits_true by lia.
    + by rewrite Z.pow2_bits_false, andb_false_r by lia.
Qed.

Lemma from_bits_all b : from_bits b = Some b.
Proof. unfold from_bits. change (2 ^ 32 - 1 - SignalFlags_all) with 0. by rewrite Z.land_0_r. Qed.

Lemma deliverable_spec n s : wf s -> 0 <= n < 32 -> deliverable (bits n) s = Ok (deliv n s).
Proof.
  intros [Ha Hh] Hn. unfold deliverable, deliv. rewrite !contains_bits by done.
  destruct (Z.testbit (signals s) n && negb (Z.testbit (signal_mask s) n)); [|done]. rewrite andb_true_l.
  destruct (handling_signal s =? -1) eqn:E; [done|]. bool_to_Prop.
  destruct (lookup_lt_is_Some_2 (signal_actions s) (Z.to_nat (handling_signal s)) ltac:(lia)) as [a Hl].
  rewrite (proj2 (index_Ok _ _ a)) by (split; [lia|done]). cbn [mbind res_bind].
  rewrite contains_bits by done. by rewrite Hl.
Qed.

Lemma is_kernel_signal_spec n : 0 <= n < 32 -> is_kernel_signal (bits n) = kernel_signum n.
Proof.
  intros Hn. unfold is_kernel_signal, kernel_signum, SIGKILL, SIGSTOP, SIGCONT, SIGDEF.
  f_equal; [f_equal; [f_equal|]|]; apply eqb_ext; apply bits_inj; lia.
Qed.

(** A kernel signal touches only its own bit. *)
Lemma kernel_step_frame s n :
  0 <= n < 32 ->
  signal_actions (kernel_step s n) = signal_actions s /\ signal_mask (kernel_step s n) = signal_mask s /\
  handling_signal (kernel_step s n) = handling_signal s /\ trap_cx (kernel_step s n) = trap_cx s /\
  trap_cx_backup (kernel_step s n) = trap_cx_backup s /\
  forall m, m <> n -> 0 <= m -> Z.testbit (signals (kernel_step s n)) m = Z.testbit (signals s) m.
Proof.
  intros Hn. unfold kernel_step. destruct (deliv n s && kernel_signum n); [|done].
  unfold call_kernel_signal_handler.
  destruct (bits n =? SIGSTOP) eqn:E1; [|destruct (bits n =? SIGCONT) eqn:E2]; cbn; split_and!; try done.
  - bool_to_Prop. apply bits_inj in E1 as ->; [|lia|lia]. intros m Hm Hm0.
    change SIGSTOP with (2 ^ 19). by rewrite Z.lxor_spec, Z.pow2_bits_false, xorb_false_r by done.
  - bool_to_Prop. apply bits_inj in E2 as ->; [|lia|lia]. intros m Hm Hm0.
    change SIGCONT with (2 ^ 18). by rewrite Z.lxor_spec, Z.pow2_bits_false, xorb_false_r by done.
Qed.

Lemma kernel_step_wf s n : 0 <= n < 32 -> wf s -> wf (kernel_step s n).
Proof.
  intros Hn [Ha Hh]. destruct (kernel_step_frame s n Hn) as (Ea & _ & Eh & _). split; [by rewrite Ea|by rewrite Eh].
Qed.

Lemma kernel_step_deliv s n m : 0 <= n < 32 -> 0 <= m -> m <> n -> deliv m (kernel_step s n) = deliv m s.
Proof.
  intros Hn Hm Hne. destruct (kernel_step_frame s n Hn) as (Ea & Em & Eh & _ & _ & Eb). unfold deliv.
  by rewrite Ea, Em, Eh, Eb.
Qed.

Lemma loop_spec l s :
  wf s -> NoDup l -> Forall (fun n => 0 <= n < 32) l ->
  check_pending_signals_loop l s =
  match find_index (user_deliv s) l with
  | None => Ok (foldl kernel_step s l)
  | Some i => call_user_signal_handler (l !!! i) (bits (l !!! i)) (foldl kernel_step s (take i l))
  end.
Proof.
  revert s. induction l as [|n l IH]; intros s Hwf Hnd Hl; [done|].
  apply NoDup_cons in Hnd as [Hni Hnd]. apply Forall_cons in Hl as [Hn Hl].
  cbn [check_pending_signals_loop find_index]. rewrite from_bits_all. cbn [unwrap mbind res_bind].
  rewrite deliverable_spec by done. cbn [mbind res_bind]. rewrite is_kernel_signal_spec by done.
  assert (Hs : forall l', Forall (fun n => 0 <= n < 32) l' -> n ∉ l' ->
    find_index (user_deliv (kernel_step s n)) l' = find_index (user_deliv s) l').
  { induction l' as [|m l' IHl]; intros Hr Hm; [done|]. apply not_elem_of_cons in Hm as [Hmn Hm].
    apply Forall_cons in Hr as [Hr0 Hr]. cbn [find_index]. rewrite IHl by done.
    unfold user_deliv. by rewrite kernel_step_deliv by (done || lia). }
  pose proof (IH (kernel_step s n) (kernel_step_wf s n Hn Hwf) Hnd Hl) as IH'. rewrite Hs in IH' by done.
  unfold user_deliv at 1. destruct (deliv n s) eqn:Ed; cbn [andb].
  - destruct (kernel_signum n) eqn:Ek; cbn [negb]; [|done].
    assert (Es : call_kernel_signal_handler (bits n) s = kernel_step s n) by (unfold kernel_step; by rewrite Ed, Ek).
    rewrite Es, IH'. destruct (find_index (user_deliv s) l) as [i|]; done.
  - assert (Es : kernel_step s n = s) by (unfold kernel_step; by rewrite Ed).
    rewrite Es in IH'. rewrite IH'. destruct (find_index (user_deliv s) l) as [i|]; cbn; by rewrite Es.
Qed.

Lemma seqZ_range32 : Forall (fun n => 0 <= n < 32) (seqZ 0 32).
Proof. apply Forall_forall. intros n Hn. apply elem_of_seqZ in Hn. lia. Qed.

Lemma check_pending_signals_run s :
  wf s -> check_pending_signals s =
  match first_user s with
  | None => Ok (foldl kernel_step s (seqZ 0 32))
  | Some n => call_user_signal_handler (Z.of_nat n) (bits (Z.of_nat n)) (foldl kernel_step s (seqZ 0 (Z.of_nat n)))
  end.
Proof.
  intros Hwf. unfold check_pending_signals, first_user.
  rewrite (loop_spec (seqZ 0 SIG_CNT) s Hwf (NoDup_seqZ _ _) seqZ_range32).
  change SIG_CNT with 32. destruct (find_index (user_deliv s) (seqZ 0 32)) as [n|] eqn:E; [|done].
  apply find_index_Some in E as (a & Hl & _). pose proof (lookup_lt_Some _ _ _ Hl) as Hlt.
  rewrite length_seqZ in Hlt. change (Z.to_nat 32) with 32%nat in Hlt.
  apply lookup_seqZ in Hl as [-> _].
  assert (Ht : seqZ 0 32 !!! n = Z.of_nat n).
  { rewrite (list_lookup_total_correct _ _ (Z.of_nat n)); [done|]. apply lookup_seqZ. lia. }
  rewrite Ht. do 2 f_equal.
  replace 32 with (Z.of_nat n + (32 - Z.of_nat n)) by lia. rewrite seqZ_app by lia.
  rewrite take_app_length'; [done|]. rewrite length_seqZ. lia.
Qed.

(** ** What kernel signals leave alone *)

Lemma foldl_kernel_frame l s :
  Forall (fun n => 0 <= n < 32) l ->
  let s' := foldl kernel_step s l in
  signal_actions s' = signal_actions s /\ signal_mask s' = signal_mask s /\
  handling_signal s' = handling_signal s /\ trap_cx s' = trap_cx s /\ trap_cx_backup s' = trap_cx_backup s /\
  forall m, m ∉ l -> 0 <= m -> Z.testbit (signals s') m = Z.testbit (signals s) m.
Proof.
  revert s. induction l as [|n l IH]; intros s Hl; [done|]. apply Forall_cons in Hl as [Hn Hl].
  destruct (kernel_step_frame s n Hn) as (E1 & E2 & E3 & E4 & E5 & E6).
  destruct (IH (kernel_step s n) Hl) as (F1 & F2 & F3 & F4 & F5 & F6). cbn [foldl]. cbv zeta in *.
  rewrite F1, F2, F3, F4, F5. split_and!; [done..|]. intros m [Hm Hm']%not_elem_of_cons Hm0.
  by rewrite F6, E6.
Qed.

(** The bits that kernel signals keep: all but [SIGSTOP] and [SIGCONT]. *)
Lemma kernel_step_keeps s n m :
  0 <= n < 32 -> 0 <= m -> m <> 18 -> m <> 19 -> Z.testbit (signals (kernel_step s n)) m = Z.testbit (signals s) m.
Proof.
  intros Hn Hm H18 H19. destruct (decide (m = n)) as [->|]; [|by apply (kernel_step_frame s n Hn)].
  unfold kernel_step. destruct (deliv n s && kernel_signum n); [|done]. unfold call_kernel_signal_handler.
  destruct (bits n =? SIGSTOP) eqn:E1; [bool_to_Prop; apply (bits_inj n 19) in E1; lia|].
  destruct (bits n =? SIGCONT) eqn:E2; [bool_to_Prop; apply (bits_inj n 18) in E2; lia|]. done.
Qed.

Lemma foldl_kernel_keeps l s m :
  Forall (fun n => 0 <= n < 32) l -> 0 <= m -> m <> 18 -> m <> 19 ->
  Z.testbit (signals (foldl kernel_step s l)) m = Z.testbit (signals s) m.
Proof.
  revert s. induction l as [|n l IH]; intros s Hl Hm H18 H19; [done|]. apply Forall_cons in Hl as [Hn Hl].
  cbn [foldl]. rewrite IH by done. by apply kernel_step_keeps.
Qed.

Lemma check_error_pending sigs n :
  n ∈ [2; 4; 6; 8; 9; 11] -> Z.testbit sigs n = true -> exists e, check_error sigs = Some e.
Proof.
  intros Hn Ht. unfold check_error, SIGINT, SIGILL, SIGABRT, SIGFPE, SIGKILL, SIGSEGV.
  rewrite !contains_bits by lia. repeat case_match; try by eexists.
  exfalso. repeat (apply elem_of_cons in Hn as [->|Hn]; [congruence|]). by apply elem_of_nil in Hn.
Qed.

Lemma seqZ_range n : 0 <= n <= 32 -> Forall (fun n => 0 <= n < 32) (seqZ 0 n).
Proof. intros. apply Forall_forall. intros m Hm. apply elem_of_seqZ in Hm. lia. Qed.

Lemma call_user_keeps signum s s' m :
  0 <= signum < 32 -> call_user_signal_handler signum (bits signum) s = Ok s' -> m <> signum -> 0 <= m ->
  Z.testbit (signals s') m = Z.testbit (signals s) m.
Proof.
  intros Hn E Hm Hm0. unfold call_user_signal_handler in E. apply res_bind_Ok in E as (a & _ & E).
  destruct (negb (handler a =? 0)); simplify_eq/=; [|done].
  rewrite bits_pow2 by done. by rewrite Z.lxor_spec, Z.pow2_bits_false, xorb_false_r by lia.
Qed.

Lemma first_user_Some s n :
  first_user s = Some n -> Z.of_nat n < 32 /\ user_deliv s (Z.of_nat n) = true /\
  forall m, 0 <= m < Z.of_nat n -> user_deliv s m = false.
Proof.
  intros E. unfold first_user in E. apply find_index_Some in E as (a & Hl & Hu & Hmin).
  apply lookup_seqZ in Hl as [Ha Hlt]. rewrite Z.add_0_l in Ha. subst a. split_and!; [lia|done|].
  intros m Hm. apply (Hmin (Z.to_nat m) m); [lia|]. apply lookup_seqZ. lia.
Qed.

(** A signal that nobody handles. *)
Definition no_handler (n : Z) (s : state) : Prop :=
  kernel_signum n = false /\ exists a, signal_actions s !! Z.to_nat n = Some a /\ handler a = 0.

Lemma loop_ignores s l :
  wf s -> Forall (fun n => 0 <= n < 32) l -> (forall n, 0 <= n < 32 -> Z.testbit (signals s) n = true -> no_handler n s) ->
  check_pending_signals_loop l s = Ok s.
Proof.
  intros Hwf Hl Hn. induction Hl as [|n l Hr Hl IH]; [done|]. cbn [check_pending_signals_loop]. rewrite from_bits_all. cbn [unwrap mbind res_bind].
  rewrite deliverable_spec by done. cbn [mbind res_bind]. destruct (deliv n s) eqn:Ed; [|exact IH].
  unfold deliv in Ed. apply andb_prop in Ed as [Ed _]. apply andb_prop in Ed as [Ed _]. destruct (Hn n Hr Ed) as (Hk & a & Ha & Hh).
  rewrite is_kernel_signal_spec, Hk by done. unfold call_user_signal_handler. rewrite (proj2 (index_Ok _ _ a)) by (split; [lia|done]).
  cbn [mbind res_bind]. by rewrite Hh.
Qed.

Lemma pending_ignored s :
  wf s -> (forall n, 0 <= n < 32 -> Z.testbit (signals s) n = true -> no_handler n s) -> check_pending_signals s = Ok s.
Proof.
  intros Hwf Hn. unfold check_pending_signals. apply loop_ignores; [done| |done]. apply Forall_forall. intros n Hin%elem_of_seqZ.
  unfold SIG_CNT in Hin. lia.
Qed.

Lemma check_pending_wf s s' : wf s -> check_pending_signals s = Ok s' -> wf s'.
Proof.
  intros Hwf E. rewrite check_pending_signals_run in E by done. pose proof Hwf as [Ha Hh].
  destruct (first_user s) as [n|] eqn:En.
  - apply first_user_Some in En as (Hn & _).
    destruct (foldl_kernel_frame (seqZ 0 (Z.of_nat n)) s (seqZ_range (Z.of_nat n) ltac:(lia))) as (F1 & _ & F3 & _).
    cbv zeta in *. set (s1 := foldl kernel_step s (seqZ 0 (Z.of_nat n))) in *. clearbody s1.
    unfold call_user_signal_handler in E. apply res_bind_Ok in E as (a & _ & E).
    destruct (negb (handler a =? 0)); simplify_eq; split; cbn; rewrite ?F1, ?F3; lia || done.
  - destruct (foldl_kernel_frame (seqZ 0 32) s seqZ_range32) as (F1 & _ & F3 & _). cbv zeta in *.
    set (s1 := foldl kernel_step s (seqZ 0 32)) in *. clearbody s1. injection E as <-.
    split; [by rewrite F1|by rewrite F3].
Qed.

Lemma sys_kill_pending s0 n s :
  wf s0 -> 0 <= n < 32 -> sys_kill (Some s0) n = (0, Some s) -> wf s /\ Z.testbit (signals s) n = true.
Proof.
  intros [Ha Hh] Hn Ek. unfold sys_kill in Ek. rewrite from_bits_all, wrap_small in Ek by lia.
  rewrite (proj2 (Z.leb_gt SIG_CNT n)) in Ek by (unfold SIG_CNT; lia).
  destruct (contains (signals s0) (bits n)); [done|]. injection Ek as <-. split; [by split|].
  cbn [signals set_signals]. rewrite Z.lor_spec, bits_pow2, Z.pow2_bits_true by lia. apply orb_true_r.
Qed.

(** [SIGKILL] stays pending. *)
Lemma check_pending_keeps_kill s s' :
  wf s -> check_pending_signals s = Ok s' -> Z.testbit (signals s) 9 = true -> Z.testbit (signals s') 9 = true.
Proof.
  intros Hwf E Hb. rewrite check_pending_signals_run in E by done. destruct (first_user s) as [n|] eqn:En.
  - apply first_user_Some in En as (Hn & Hu & _).
    rewrite (call_user_keeps (Z.of_nat n) _ s' 9 ltac:(lia) E); [| |lia].
    + by rewrite (foldl_kernel_keeps _ s 9 (seqZ_range (Z.of_nat n) ltac:(lia))) by lia.
    + intros E9. rewrite <- E9 in Hu. unfold user_deliv in Hu. apply andb_prop in Hu as [_ Hu]. discriminate Hu.
  - pose proof (foldl_kernel_keeps (seqZ 0 32) s 9 seqZ_range32 ltac:(lia) ltac:(lia) ltac:(lia)) as Hkeep.
    revert E Hkeep. generalize (foldl kernel_step s (seqZ 0 32)). intros s2 E Hkeep.
    injection E as <-. by rewrite Hkeep.
Qed.

(** Unfolded after everything else. *)
#[global] Strategy 1000 [check_pending_signals].

(** ** Claims *)

(** C37: the loop over the 32 signals does what its reading says: of the pending
    signals that are blocked neither by the mask nor by the running handler, the
    lowest one that is not handled by the kernel goes to its user handler, after the
    lower kernel signals were handled in order; higher signals wait.  The state stays
    well-formed, and indexing the action table never panics. *)
Theorem check_pending_signals_delivers s :
  wf s ->
  exists s', check_pending_signals s = Ok s' /\ wf s' /\
  match first_user s with
  | None => s' = foldl kernel_step s (seqZ 0 32)
  | Some n =>
      user_deliv s (Z.of_nat n) = true /\ (forall m, 0 <= m < Z.of_nat n -> user_deliv s m = false) /\
      call_user_signal_handler (Z.of_nat n) (bits (Z.of_nat n)) (foldl kernel_step s (seqZ 0 (Z.of_nat n))) = Ok s'
  end.
Proof.
  intros Hwf. pose proof (check_pending_signals_run s Hwf) as Hr.
  destruct (first_user s) as [n|] eqn:En.
  - destruct (first_user_Some s n En) as (Hn & Hu & Hmin).
    destruct (foldl_kernel_frame (seqZ 0 (Z.of_nat n)) s (seqZ_range (Z.of_nat n) ltac:(lia))) as (F1 & _). cbv zeta in F1.
    destruct (lookup_lt_is_Some_2 (signal_actions s) n) as [a Ha]; [rewrite (wf_actions _ Hwf); lia|].
    assert (exists s', call_user_signal_handler (Z.of_nat n) (bits (Z.of_nat n))
      (foldl kernel_step s (seqZ 0 (Z.of_nat n))) = Ok s') as [s' E].
    { unfold call_user_signal_handler. rewrite F1, (proj2 (index_Ok _ _ a)) by (rewrite Nat2Z.id; split; [lia|done]).
      cbn [mbind res_bind]. case_match; by eexists. }
    rewrite E in Hr. exists s'. split_and!; [done|by eapply check_pending_wf|done|done|done].
  - exists (foldl kernel_step s (seqZ 0 32)). split; [exact Hr|]. split; [by eapply check_pending_wf|reflexivity].
Qed.

Definition cx0 : TrapContext := mkTrapContext (replicate 32 7) 0 4096 0 0 0.

(** [SIGUSR1] (10) has a handler, [SIGSTOP] (19) and [SIGUSR1] are pending. *)
Definition state0 : state :=
  set_signals (2 ^ 10 + 2 ^ 19) (set_actions (<[10%nat := mkAction 8192 0]> SignalActionTable_default) (new_process cx0)).

Lemma state0_wf : wf state0.
Proof. split; [done|by left]. Qed.

Lemma check_pending_signals_delivers_witness :
  exists s', check_pending_signals state0 = Ok s' /\ wf s' /\
  match first_user state0 with
  | None => s' = foldl kernel_step state0 (seqZ 0 32)
  | Some n =>
      user_deliv state0 (Z.of_nat n) = true /\ (forall m, 0 <= m < Z.of_nat n -> user_deliv state0 m = false) /\
      call_user_signal_handler (Z.of_nat n) (bits (Z.of_nat n)) (foldl kernel_step state0 (seqZ 0 (Z.of_nat n))) = Ok s'
  end.
Proof. apply (check_pending_signals_delivers state0 state0_wf). Defined.

Definition cx_ok (cx : TrapContext) : Prop := length (gprs cx) = 32%nat /\ is_u64 (gpr 10 cx).

Lemma gpr_restore cx : cx_ok cx -> set_gpr 10 (wrap 64 (as_isize (gpr 10 cx))) cx = cx.
Proof.
  intros [Hl Hu]. destruct cx as [g ss pc ks kt th]. unfold set_gpr, gpr, is_u64 in *. cbn in *. f_equal.
  assert (E : wrap 64 (as_isize (g !!! Z.to_nat 10)) = g !!! Z.to_nat 10).
  { unfold as_isize, as_signed. rewrite (wrap_small 64 (g !!! Z.to_nat 10)) by done.
    case_match; [by apply wrap_small|]. unfold wrap.
    rewrite <- (Z.mod_unique (g !!! Z.to_nat 10 - 2 ^ 64) (2 ^ 64) (-1) (g !!! Z.to_nat 10)) by lia. done. }
  rewrite E. apply list_insert_id. apply list_lookup_lookup_total_lt. rewrite Hl. change (Z.to_nat 10) with 10%nat. lia.
Qed.

(** A trap that finds no signal with a handler to deliver keeps the saved context. *)
Lemma quiet_trap_keeps_context t t' :
  wf t -> first_user t = None -> check_pending_signals t = Ok t' -> trap_cx_backup t' = trap_cx_backup t /\ trap_cx t' = trap_cx t.
Proof.
  intros Hwf Hfu E. rewrite (check_pending_signals_run t Hwf), Hfu in E.
  pose proof (foldl_kernel_frame (seqZ 0 32) t seqZ_range32) as F. cbv zeta in F. revert E F. generalize (foldl kernel_step t (seqZ 0 32)).
  intros t1 E (_ & _ & _ & F1 & F2 & _). injection E as <-. by split.
Qed.

(** C38: a signal handler is transparent to the code it interrupts, provided no other
    signal handler is entered before it returns: delivering a signal makes the thread enter
    the handler with the signal number in [a0]; whatever the handler does to its own
    registers, if the saved context is still the one of this delivery
    ([trap_cx_backup s2 = trap_cx_backup s1]), the trap that runs its [sigreturn] leaves the
    thread with exactly the registers and program counter it had before the signal, and no
    signal being handled.  The traps in between keep the saved context as long as they find
    no signal with a handler to deliver; one that does overwrites it, which
    [nested_signal_loses_context] shows. *)
Theorem signal_handler_transparent s signum a s1 s2 :
  0 <= signum < 32 -> signal_actions s !! Z.to_nat signum = Some a -> handler a <> 0 -> cx_ok (trap_cx s) ->
  call_user_signal_handler signum (bits signum) s = Ok s1 ->
  trap_cx_backup s2 = trap_cx_backup s1 ->
  (sepc (trap_cx s1) = handler a /\ gpr 10 (trap_cx s1) = signum /\ handling_signal s1 = signum /\
   (Z.testbit (signals s) signum = true -> Z.testbit (signals s1) signum = false)) /\
  (exists s3, user_env_call sys_sigreturn s2 = Ok s3 /\ trap_cx s3 = trap_cx s /\ handling_signal s3 = -1) /\
  (forall t t', wf t -> first_user t = None -> check_pending_signals t = Ok t' -> trap_cx_backup t' = trap_cx_backup t /\ trap_cx t' = trap_cx t).
Proof.
  intros Hn Ha Hh Hcx E Hb. apply and_assoc. split; [|exact quiet_trap_keeps_context]. unfold call_user_signal_handler in E.
  rewrite (proj2 (index_Ok _ _ a)) in E by (split; [lia|done]). cbn [mbind res_bind] in E.
  rewrite (proj2 (Z.eqb_neq _ _) Hh) in E. cbn [negb] in E. simplify_eq/=. split.
  - split_and!; [done| |done|].
    + unfold gpr, set_gpr. cbn. apply list_lookup_total_insert_eq. destruct Hcx as [-> _]. change (Z.to_nat 10) with 10%nat. lia.
    + intros Ht. rewrite bits_pow2 by done. by rewrite Z.lxor_spec, Ht, Z.pow2_bits_true by lia.
  - unfold user_env_call, sys_sigreturn. cbn. rewrite Hb. cbn. eexists. split_and!; [done| |done].
    cbn. by apply gpr_restore.
Qed.

Lemma signal_handler_transparent_witness :
  exists s1, call_user_signal_handler 10 (bits 10) state0 = Ok s1 /\
  (sepc (trap_cx s1) = 8192 /\ gpr 10 (trap_cx s1) = 10 /\ handling_signal s1 = 10) /\
  exists s3, user_env_call sys_sigreturn (set_trap_cx (set_sepc 9000 cx0) s1) = Ok s3 /\
    trap_cx s3 = trap_cx state0 /\ handling_signal s3 = -1.
Proof.
  eexists. split; [reflexivity|].
  edestruct (signal_handler_transparent state0 10 (mkAction 8192 0)) as ((H1 & H2 & H3 & _) & H4 & _); [lia|reflexivity|done| |reflexivity| |].
  - split; [done|]. vm_compute. split; [discriminate|reflexivity].
  - reflexivity.
  - split; [split_and!; [exact H1|exact H2|exact H3]|exact H4].
Defined.

(** There is one saved context per thread, so a second signal delivered while the
    first handler runs destroys it: when the two handlers return, the thread is back
    inside the first handler ([cx1]), whatever the context [trap_cx s] it interrupted,
    and never returns to that context. *)
Theorem nested_signal_loses_context s n1 n2 a1 a2 cx1 s1 s3 :
  0 <= n1 < 32 -> 0 <= n2 < 32 ->
  signal_actions s !! Z.to_nat n1 = Some a1 -> handler a1 <> 0 ->
  signal_actions s !! Z.to_nat n2 = Some a2 -> handler a2 <> 0 -> cx_ok cx1 ->
  call_user_signal_handler n1 (bits n1) s = Ok s1 ->
  call_user_signal_handler n2 (bits n2) (set_trap_cx cx1 s1) = Ok s3 ->
  forall cx2 cx3, exists s4 s5,
    user_env_call sys_sigreturn (set_trap_cx cx2 s3) = Ok s4 /\ trap_cx s4 = cx1 /\
    user_env_call sys_sigreturn (set_trap_cx cx3 s4) = Ok s5 /\ trap_cx s5 = cx1.
Proof.
  intros H1 H2 Ha1 Hh1 Ha2 Hh2 Hcx E1 E2 cx2 cx3. unfold call_user_signal_handler in E1, E2.
  rewrite (proj2 (index_Ok _ _ a1)) in E1 by (split; [lia|done]). cbn [mbind res_bind] in E1.
  rewrite (proj2 (Z.eqb_neq _ _) Hh1) in E1. cbn [negb] in E1. simplify_eq/=.
  rewrite (proj2 (index_Ok _ _ a2)) in E2 by (split; [lia|done]). cbn [mbind res_bind] in E2.
  rewrite (proj2 (Z.eqb_neq _ _) Hh2) in E2. cbn [negb] in E2. simplify_eq/=.
  unfold user_env_call, sys_sigreturn. cbn. eexists _, _. split_and!; [done| |done|]; cbn; by apply gpr_restore.
Qed.

(** Signals 10 and 12 have handlers that block nothing. *)
Definition state2 : state :=
  set_signals (2 ^ 10 + 2 ^ 12)
    (set_actions (<[10%nat := mkAction 8192 0]> (<[12%nat := mkAction 8320 0]> SignalActionTable_default)) (new_process cx0)).

(** Both are delivered, the second in the first trap after the first. *)
Definition state2_first : state := match check_pending_signals state2 with Ok s => s | _ => state2 end.
Definition state2_second : state :=
  match check_pending_signals (set_trap_cx (set_sepc 8200 cx0) state2_first) with Ok s => s | _ => state2 end.

Lemma nested_signal_loses_context_witness :
  sepc (trap_cx state2_second) = 8320 /\
  exists s4 s5,
    user_env_call sys_sigreturn (set_trap_cx cx0 state2_second) = Ok s4 /\ trap_cx s4 = set_sepc 8200 cx0 /\
    user_env_call sys_sigreturn (set_trap_cx cx0 s4) = Ok s5 /\ trap_cx s5 = set_sepc 8200 cx0.
Proof.
  split; [vm_compute; reflexivity|].
  eapply (nested_signal_loses_context state2 10 12 (mkAction 8192 0) (mkAction 8320 0) (set_sepc 8200 cx0)
    state2_first state2_second); done.
Defined.

(** A process that was sent [SIGKILL] is terminated: once it leaves the loop of
    [handle_signals] the pending signal makes the trap end in an exit, even if the
    process blocked the signal with its mask. *)
Theorem sigkill_terminates s0 s b s' :
  wf s0 -> sys_kill (Some s0) 9 = (0, Some s) -> handle_signals_round s = Ok (b, s') ->
  exists errno, after_signals s' = inl errno.
Proof.
  intros Hwf Ek E. destruct (sys_kill_pending s0 9 s Hwf ltac:(lia) Ek) as [Hwf' Hb].
  unfold handle_signals_round in E. apply res_bind_Ok in E as (s1 & E1 & E). injection E as _ ->.
  destruct (check_error_pending (signals s') 9) as [e He]; [by do 4 right; left| |].
  { by apply (check_pending_keeps_kill s). }
  exists e. unfold after_signals, check_signals_of_current. by rewrite He.
Qed.

Lemma sigkill_terminates_witness :
  exists b s', handle_signals_round (set_signals (Z.lor (signals state0) (bits 9)) state0) = Ok (b, s') /\
    exists errno, after_signals s' = inl errno.
Proof.
  eexists _, _. split; [reflexivity|].
  eapply (sigkill_terminates state0); [apply state0_wf|reflexivity|reflexivity].
Defined.

(** A stopped process can become impossible to continue or to kill: while a user
    signal below 9 without a handler is pending, every round of [handle_signals] stops
    at that signal and changes nothing, so the process stays in the loop whatever
    [SIGCONT], [SIGKILL] or other higher signals are pending. *)
Theorem frozen_process_ignores_sigkill s n a :
  wf s -> frozen s = true -> killed s = false -> 1 <= n < 9 -> deliv n s = true ->
  (forall m, 0 <= m < n -> Z.testbit (signals s) m = false) ->
  signal_actions s !! Z.to_nat n = Some a -> handler a = 0 ->
  handle_signals_round s = Ok (false, s).
Proof.
  intros Hwf Hf Hk Hn Hd Hlow Ha Hh.
  assert (Hnd : forall m, 0 <= m < n -> deliv m s = false) by (intros m Hm; unfold deliv; by rewrite Hlow).
  assert (Hfu : first_user s = Some (Z.to_nat n)).
  { destruct (first_user s) as [k|] eqn:E.
    - apply first_user_Some in E as (Hk32 & Hu & Hmin). f_equal. unfold user_deliv in Hu. bool_to_Prop.
      destruct (decide (Z.of_nat k < n)); [by rewrite Hnd in * by lia|].
      destruct (decide (Z.of_nat k = n)); [lia|]. exfalso. specialize (Hmin n ltac:(lia)).
      unfold user_deliv, kernel_signum in Hmin. rewrite Hd in Hmin. bool_to_Prop. lia.
    - apply find_index_None in E. rewrite Forall_forall in E. specialize (E n).
      assert (Hin : n ∈ seqZ 0 32) by (apply elem_of_seqZ; lia). specialize (E Hin).
      unfold user_deliv, kernel_signum in E. rewrite Hd in E. bool_to_Prop. lia. }
  unfold handle_signals_round. rewrite check_pending_signals_run by done. rewrite Hfu, Z2Nat.id by lia.
  assert (Hfold : forall l, Forall (fun m => 0 <= m < n) l -> foldl kernel_step s l = s).
  { induction l as [|m l IH]; intros Hl; [done|]. apply Forall_cons in Hl as [Hm Hl]. cbn [foldl].
    unfold kernel_step at 2. rewrite Hnd by done. by apply IH. }
  rewrite Hfold by (apply Forall_forall; intros m Hm; apply elem_of_seqZ in Hm; lia).
  unfold call_user_signal_handler. rewrite (proj2 (index_Ok _ _ a)) by (split; [lia|done]).
  cbn [mbind res_bind]. rewrite Hh. cbn. by rewrite Hk, Hf.
Qed.

(** Stopped, with [SIGHUP], [SIGKILL] and [SIGCONT] pending. *)
Definition stuck : state := set_signals (2 ^ 1 + 2 ^ 9 + 2 ^ 18) (set_frozen true (new_process cx0)).

Lemma frozen_process_ignores_sigkill_witness : handle_signals_round stuck = Ok (false, stuck).
Proof.
  apply (frozen_process_ignores_sigkill stuck 1 SignalAction_default);
    [split; [done|by left]|done|done|lia|done| |done|done].
  intros m Hm. by replace m with 0 by lia.
Defined.
