(* ===== verification/AddressSpace.v ===== *)
(** Address spaces: os/src/mm/address_space.rs, and the user and kernel stacks that
    threads map in them (os/src/task/thread/user_resource.rs and kernel_stack.rs).

    An [AddressSpace] is a page table and the segments mapped in it; a framed segment
    owns one frame per page.  Dropping a [FrameTracker] returns its frame to the
    allocator, so the operations that remove segments deallocate.  The model works on
    the memory and the frame allocator of [Memory]. *)

From S2P Require Import Prelude Address Alloc Memory PageTable.

#[local] Ltac Zify.zify_post_hook ::= Z.to_euclidean_division_equations.

Inductive MapType := Identical | Framed.
#[global] Instance MapType_eq_dec : EqDecision MapType.
Proof. solve_decision. Defined.

(** [Permission], with the bits of [PTEFlags]. *)
Definition PR : Z := 2.
Definition PW : Z := 4.
Definition PX : Z := 8.
Definition PU : Z := 16.

Record MemorySegment := mkSegment {
  vpn_range : SimpleRange;
  data_frames : gmap Z Z;
  map_type : MapType;
  permission : Z;
}.

Definition set_frames (fs : gmap Z Z) (seg : MemorySegment) : MemorySegment :=
  mkSegment (vpn_range seg) fs (map_type seg) (permission seg).

Record AddressSpace := mkSpace { page_table : PT.PageTable; segments : list MemorySegment }.

Section operations.
Context {F : Type} `{FrameAllocator F}.

(** ** [MemorySegment] *)

(** [start_va] and [end_va] are [VirtAddr]s. *)
Definition MemorySegment_new (start_va end_va : Z) (mt : MapType) (perm : Z) : res MemorySegment :=
  r ← SimpleRange_new (floor start_va) (ceil end_va);
  Ok (mkSegment r ∅ mt perm).

Definition from_other (other : MemorySegment) : res MemorySegment :=
  r ← SimpleRange_new (range_l (vpn_range other)) (range_r (vpn_range other));
  Ok (mkSegment r ∅ (map_type other) (permission other)).

(** [data_frames.insert]; a frame that was there is dropped. *)
Definition insert_frame (seg : MemorySegment) (vpn f : Z) : ST (mm F) MemorySegment :=
  match data_frames seg !! vpn with
  | Some old => frame_dealloc old;; mret (set_frames (<[vpn := f]> (data_frames seg)) seg)
  | None => mret (set_frames (<[vpn := f]> (data_frames seg)) seg)
  end.

Definition remove_frame (seg : MemorySegment) (vpn : Z) : ST (mm F) MemorySegment :=
  match data_frames seg !! vpn with
  | Some old => frame_dealloc old;; mret (set_frames (delete vpn (data_frames seg)) seg)
  | None => mret seg
  end.

Definition map_page (seg : MemorySegment) (pt : PT.PageTable) (vpn : Z) : ST (mm F) (MemorySegment * PT.PageTable) :=
  match map_type seg with
  | Identical =>
      pt' ← PT.map pt vpn vpn (permission seg);
      mret (seg, pt')
  | Framed =>
      o ← frame_alloc;
      frame ← lift (unwrap o);
      seg' ← insert_frame seg vpn frame;
      pt' ← PT.map pt vpn frame (permission seg);
      mret (seg', pt')
  end.

Definition unmap_page (seg : MemorySegment) (pt : PT.PageTable) (vpn : Z) : ST (mm F) MemorySegment :=
  seg' ← match map_type seg with
         | Identical => mret seg
         | Framed => remove_frame seg vpn
         end;
  PT.unmap pt vpn;;
  mret seg'.

Fixpoint map_loop (l : list Z) (seg : MemorySegment) (pt : PT.PageTable) : ST (mm F) (MemorySegment * PT.PageTable) :=
  match l with
  | [] => mret (seg, pt)
  | vpn :: l' => r ← map_page seg pt vpn; map_loop l' r.1 r.2
  end.

Fixpoint unmap_loop (l : list Z) (seg : MemorySegment) (pt : PT.PageTable) : ST (mm F) MemorySegment :=
  match l with
  | [] => mret seg
  | vpn :: l' => seg' ← unmap_page seg pt vpn; unmap_loop l' seg' pt
  end.

Definition seg_map (seg : MemorySegment) (pt : PT.PageTable) : ST (mm F) (MemorySegment * PT.PageTable) :=
  map_loop (vpns (vpn_range seg)) seg pt.
Definition seg_unmap (seg : MemorySegment) (pt : PT.PageTable) : ST (mm F) MemorySegment :=
  unmap_loop (vpns (vpn_range seg)) seg pt.

(** [&data[start..min(data.len(), start + PAGE_SIZE)]] *)
Definition src_slice (data : list Z) (start : Z) : res (list Z) :=
  let len := Z.of_nat (length data) in
  let e := Z.min len (uadd start PAGE_SIZE) in
  if start <=? e then Ok (take (Z.to_nat (e - start)) (drop (Z.to_nat start) data))
  else Panic IndexOutOfRange.

Fixpoint copy_data_loop (l : list Z) (root start : Z) (data : list Z) : ST (mm F) unit :=
  match l with
  | [] => mret tt
  | vpn :: l' =>
      src ← lift (src_slice data start);
      o ← PT.translate root vpn;
      pte ← lift (unwrap o);
      pg ← load_page (PTE.ppn pte);
      store_page (PTE.ppn pte) (write_bytes pg 0 src);;
      let start' := uadd start PAGE_SIZE in
      if Z.of_nat (length data) <=? start' then mret tt else copy_data_loop l' root start' data
  end.

Definition copy_data (seg : MemorySegment) (root : Z) (data : list Z) : ST (mm F) unit :=
  lift (rassert (bool_decide (map_type seg = Framed)));;
  copy_data_loop (vpns (vpn_range seg)) root 0 data.

(** ** [AddressSpace] *)

Definition new_bare : ST (mm F) AddressSpace :=
  pt ← PT.PageTable_new; mret (mkSpace pt []).

(** [strampoline] is an address the linker script gives. *)
Definition map_trampoline (strampoline : Z) (sp : AddressSpace) : ST (mm F) AddressSpace :=
  vpn ← lift (VirtPageNum_from_VirtAddr (VirtAddr_from_usize TRAMPOLINE));
  ppn ← lift (PhysPageNum_from_PhysAddr (PhysAddr_from_usize strampoline));
  pt ← PT.map (page_table sp) vpn ppn (Z.lor PR PX);
  mret (mkSpace pt (segments sp)).

Definition add_segment (sp : AddressSpace) (seg : MemorySegment) (data : option (list Z)) : ST (mm F) AddressSpace :=
  r ← seg_map seg (page_table sp);
  match data with
  | Some data => copy_data r.1 (PT.root_ppn r.2) data
  | None => mret tt
  end;;
  mret (mkSpace r.2 (vec_push (segments sp) r.1)).

Definition add_segment_framed (sp : AddressSpace) (start_va end_va perm : Z) : ST (mm F) AddressSpace :=
  seg ← lift (MemorySegment_new start_va end_va Framed perm);
  add_segment sp seg None.

(** Dropping a segment drops its frames, in the order of their pages (the keys of
    [data_frames] are pages of the range). *)
Definition drop_segment (seg : MemorySegment) : ST (mm F) unit :=
  st_for (omap (fun vpn => data_frames seg !! vpn) (vpns (vpn_range seg))) frame_dealloc.

Definition remove_segment_with_start_vpn (sp : AddressSpace) (start_vpn : Z) : ST (mm F) AddressSpace :=
  match find_index (fun seg => range_l (vpn_range seg) =? start_vpn) (segments sp) with
  | Some id =>
      seg ← lift (unwrap (segments sp !! id));
      seg' ← seg_unmap seg (page_table sp);
      drop_segment seg';;
      mret (mkSpace (page_table sp) (delete id (segments sp)))
  | None => mret sp
  end.

Definition recycle_data_pages (sp : AddressSpace) : ST (mm F) AddressSpace :=
  st_for (segments sp) drop_segment;;
  mret (mkSpace (page_table sp) []).

Definition satp (sp : AddressSpace) : Z := PT.satp (PT.root_ppn (page_table sp)).

Definition translate (sp : AddressSpace) (vpn : Z) : ST (mm F) (option Z) :=
  PT.translate (PT.root_ppn (page_table sp)) vpn.

(** [for vpn in segment.vpn_range { ... }] of [from_existed_user] *)
Definition copy_page (user_space address_space : AddressSpace) (vpn : Z) : ST (mm F) unit :=
  o ← translate user_space vpn;
  src ← lift (unwrap o);
  o' ← translate address_space vpn;
  dest ← lift (unwrap o');
  pg ← load_page (PTE.ppn src);
  store_page (PTE.ppn dest) pg.

Fixpoint copy_segments (user_space : AddressSpace) (segs : list MemorySegment) (sp : AddressSpace) : ST (mm F) AddressSpace :=
  match segs with
  | [] => mret sp
  | seg :: rest =>
      new ← lift (from_other seg);
      sp' ← add_segment sp new None;
      st_for (vpns (vpn_range seg)) (copy_page user_space sp');;
      copy_segments user_space rest sp'
  end.

Definition from_existed_user (strampoline : Z) (user_space : AddressSpace) : ST (mm F) AddressSpace :=
  sp ← new_bare;
  sp ← map_trampoline strampoline sp;
  copy_segments user_space (segments user_space) sp.

(** The sections of the kernel: [(start, end, permission)], from the linker script. *)
Definition kernel_sections (stext etext srodata erodata sdata edata sbss_with_stack ebss ekernel : Z) : list (Z * Z * Z) :=
  [(stext, etext, Z.lor PR PX); (srodata, erodata, PR); (sdata, edata, Z.lor PR PW);
   (sbss_with_stack, ebss, Z.lor PR PW); (ekernel, MEMORY_END, Z.lor PR PW)].

(** [MMIO] of os/src/boards/qemu.rs *)
Definition MMIO : list (Z * Z) :=
  [(1048576, 4096); (1052672, 4096); (33554432, 65536); (268435456, 256); (268439552, 4096)].

Fixpoint add_identical (secs : list (Z * Z * Z)) (sp : AddressSpace) : ST (mm F) AddressSpace :=
  match secs with
  | [] => mret sp
  | (s, e, perm) :: rest =>
      seg ← lift (MemorySegment_new (VirtAddr_from_usize s) (VirtAddr_from_usize e) Identical perm);
      sp' ← add_segment sp seg None;
      add_identical rest sp'
  end.

Definition new_kernel (strampoline : Z) (sections : list (Z * Z * Z)) : ST (mm F) AddressSpace :=
  sp ← new_bare;
  sp ← map_trampoline strampoline sp;
  sp ← add_identical sections sp;
  add_identical ((fun '(a, n) => (a, uadd a n, Z.lor PR PW)) <$> MMIO) sp.

(** What [xmas_elf] gives for a program header, and for the file. *)
Record ProgramHeader := mkPh {
  ph_is_load : bool;
  ph_virtual_addr : Z;
  ph_mem_size : Z;
  ph_read : bool;
  ph_write : bool;
  ph_execute : bool;
  ph_data : list Z;    (* [elf.input[offset..offset + file_size]] *)
}.
Record ElfFile := mkElf { elf_magic : list Z; elf_headers : list ProgramHeader; elf_entry : Z }.

Definition ph_permission (ph : ProgramHeader) : Z :=
  let p := PU in
  let p := if ph_read ph then Z.lor p PR else p in
  let p := if ph_write ph then Z.lor p PW else p in
  if ph_execute ph then Z.lor p PX else p.

Fixpoint load_headers (phs : list ProgramHeader) (sp : AddressSpace) (segment_end_vpn : Z) : ST (mm F) (AddressSpace * Z) :=
  match phs with
  | [] => mret (sp, segment_end_vpn)
  | ph :: rest =>
      if ph_is_load ph then
        seg ← lift (MemorySegment_new (VirtAddr_from_usize (ph_virtual_addr ph))
                      (VirtAddr_from_usize (uadd (ph_virtual_addr ph) (ph_mem_size ph))) Framed (ph_permission ph));
        sp' ← add_segment sp seg (Some (ph_data ph));
        load_headers rest sp' (range_r (vpn_range seg))
      else load_headers rest sp segment_end_vpn
  end.

(** [elf] is what [ElfFile::new] returns. *)
Definition from_elf (strampoline : Z) (elf : option ElfFile) : ST (mm F) (AddressSpace * Z * Z) :=
  sp ← new_bare;
  sp ← map_trampoline strampoline sp;
  elf ← lift (unwrap elf);
  lift (rassert (bool_decide (elf_magic elf = [127; 69; 76; 70])));;
  r ← load_headers (elf_headers elf) sp 0;
  let segment_end_va := VirtAddr_from_VirtPageNum r.2 in
  mret (r.1, uadd segment_end_va PAGE_SIZE, elf_entry elf).

(** ** Thread resources *)

Definition trap_cx_bottom (tid : Z) : Z := usub TRAP_CONTEXT_BASE (umul tid PAGE_SIZE).
Definition user_stack_bottom (user_stack_base tid : Z) : Z :=
  uadd user_stack_base (umul tid (uadd PAGE_SIZE USER_STACK_SIZE)).

Record TaskUserResource := mkResource { tid : Z; user_stack_base : Z }.

Definition alloc_user_resource (r : TaskUserResource) (sp : AddressSpace) : ST (mm F) AddressSpace :=
  let bottom := user_stack_bottom (user_stack_base r) (tid r) in
  sp ← add_segment_framed sp (VirtAddr_from_usize bottom) (VirtAddr_from_usize (uadd bottom USER_STACK_SIZE))
         (Z.lor (Z.lor PR PW) PU);
  let trap := trap_cx_bottom (tid r) in
  add_segment_framed sp (VirtAddr_from_usize trap) (VirtAddr_from_usize (uadd trap PAGE_SIZE)) (Z.lor PR PW).

(** [user_stack_bottom.into()] goes from [usize] to [VirtPageNum]. *)
Definition dealloc_user_resource (r : TaskUserResource) (sp : AddressSpace) : ST (mm F) AddressSpace :=
  let bottom := user_stack_bottom (user_stack_base r) (tid r) in
  sp ← remove_segment_with_start_vpn sp (VirtPageNum_from_usize bottom);
  let trap := trap_cx_bottom (tid r) in
  remove_segment_with_start_vpn sp (VirtPageNum_from_usize trap).

Definition trap_cx_ppn (r : TaskUserResource) (sp : AddressSpace) : ST (mm F) Z :=
  vpn ← lift (VirtPageNum_from_VirtAddr (VirtAddr_from_usize (trap_cx_bottom (tid r))));
  o ← translate sp vpn;
  pte ← lift (unwrap o);
  mret (PTE.ppn pte).

Definition user_stack_top (r : TaskUserResource) : Z :=
  uadd (user_stack_bottom (user_stack_base r) (tid r)) USER_STACK_SIZE.

(** (bottom, top) *)
Definition kernel_stack_position (id : Z) : Z * Z :=
  let top := usub TRAMPOLINE (umul id (uadd KERNEL_STACK_SIZE PAGE_SIZE)) in
  (usub top KERNEL_STACK_SIZE, top).

(** The kernel space and the allocator of kernel stack ids. *)
Definition alloc_kernel_stack (ids : Recycle.RecycleAllocator) (kernel_space : AddressSpace)
  : ST (mm F) (Z * Recycle.RecycleAllocator * AddressSpace) :=
  let '(id, ids') := Recycle.alloc ids in
  let '(bottom, top) := kernel_stack_position id in
  sp ← add_segment_framed kernel_space (VirtAddr_from_usize bottom) (VirtAddr_from_usize top) (Z.lor PR PW);
  mret (id, ids', sp).

Definition drop_kernel_stack (id : Z) (ids : Recycle.RecycleAllocator) (kernel_space : AddressSpace)
  : ST (mm F) (Recycle.RecycleAllocator * AddressSpace) :=
  vpn ← lift (VirtPageNum_from_VirtAddr (VirtAddr_from_usize (kernel_stack_position id).1));
  sp ← remove_segment_with_start_vpn kernel_space vpn;
  ids' ← lift (Recycle.dealloc id ids);
  mret (ids', sp).

End operations.

(** * Mapping a range *)

Section lemmas.
Context {F : Type} `{HL : FrameAllocatorLaws F}.
Implicit Types (s : mm F) (pt : PT.PageTable) (live : gset Z) (seg : MemorySegment).

(** Every page of [l] has a frame of its own in [seg], mapped with the permission of
    the segment. *)
Record mapped s pt live seg (l : list Z) : Prop := {
  mp_frame : forall v, v ∈ l -> exists f, data_frames seg !! v = Some f /\ f ∈ live /\
    f ∉ PT.frames pt /\ 0 <= f < 2 ^ 44 /\
    PT.leaf (mem s) (PT.root_ppn pt) v = Some (PTE.new f (Z.lor (permission seg) PTE.V));
  mp_inj : forall v w f, v ∈ l -> w ∈ l -> data_frames seg !! v = Some f -> data_frames seg !! w = Some f -> v = w;
}.

(** What mapping the pages [l] of a framed segment does. *)
Record maps s pt live seg (l : list Z) s' pt' live' seg' : Prop := {
  ms_inv : PT.inv s' pt' live';
  ms_root : PT.root_ppn pt' = PT.root_ppn pt;
  ms_live : live ⊆ live';
  ms_range : vpn_range seg' = vpn_range seg;
  ms_type : map_type seg' = map_type seg;
  ms_perm : permission seg' = permission seg;
  ms_other : forall v, v ∉ l -> data_frames seg' !! v = data_frames seg !! v;
  ms_mapped : mapped s' pt' live' seg' l;
  ms_fresh : forall v f, v ∈ l -> data_frames seg' !! v = Some f -> f ∉ live /\ get_page (mem s') f = ∅;
  ms_leaf : forall v, v ∉ l -> 0 <= v < 2 ^ 27 ->
    PT.leaf (mem s') (PT.root_ppn pt) v = PT.leaf (mem s) (PT.root_ppn pt) v;
  ms_page : forall p, p ∈ live -> p ∉ PT.frames pt -> get_page (mem s') p = get_page (mem s) p /\ p ∉ PT.frames pt';
  ms_cap : (fa_capacity (falloc s) <= 3 * length l + fa_capacity (falloc s'))%nat;
}.

Definition page_ok (v : Z) : Prop := 0 <= v < 2 ^ 27.

Lemma map_page_framed s pt live seg v :
  PT.inv s pt live -> page_ok v -> map_type seg = Framed -> 0 <= permission seg < 256 ->
  PT.leaf (mem s) (PT.root_ppn pt) v = None -> data_frames seg !! v = None ->
  (3 <= fa_capacity (falloc s))%nat ->
  exists s' pt' live' seg', map_page seg pt v s = Ok ((seg', pt'), s') /\
    maps s pt live seg [v] s' pt' live' seg'.
Proof.
  intros Hi Hv Hmt Hperm Hl Hd Hcap.
  destruct (frame_alloc_some s live (PT.inv_rep _ _ _ Hi)) as (f & fa & E & Hf & Hfr & Hrep & Hc); [lia|].
  set (s1 := mkMM (zero_page (mem s) f) fa).
  assert (Hnf : f ∉ PT.frames pt).
  { intros Hin. apply Hf. apply (PT.inv_sub _ _ _ Hi). by apply elem_of_list_to_set. }
  assert (Hpg : forall p, p <> f -> get_page (mem s1) p = get_page (mem s) p).
  { intros p Hp. unfold s1, zero_page. cbn. rewrite get_page_insert. by rewrite decide_False. }
  assert (Hi1 : PT.inv s1 pt ({[f]} ∪ live) /\ forall v, PT.leaf (mem s1) (PT.root_ppn pt) v = PT.leaf (mem s) (PT.root_ppn pt) v).
  { destruct (PT.inv_pages (HL := HL) s pt live (mkMM (mem s1) (falloc s)) Hi eq_refl) as [Hi' Hl'].
    - intros p Hp. apply Hpg. by intros ->.
    - split; [|exact Hl']. destruct Hi' as [Hwf _ Hsub Hnd]. split; [done|done|set_solver|done]. }
  destruct Hi1 as [Hi1 Hl1].
  destruct (PT.map_correct (HL := HL) s1 pt ({[f]} ∪ live) v f (permission seg) Hi1 Hv Hfr Hperm)
    as (pt' & s' & E' & Hi' & Hr & Hsub & Hleaf & Hpages & Hfresh & Hcap'); [by rewrite Hl1|cbn; lia|].
  assert (Hf' : f ∉ PT.frames pt'). { intros Hin. destruct (Hfresh f Hin); [done|set_solver]. }
  exists s', pt', ({[f]} ∪ live ∪ list_to_set (PT.frames pt')), (set_frames (<[v := f]> (data_frames seg)) seg).
  split.
  { unfold map_page. rewrite Hmt. st_step_by E. st_step. unfold insert_frame. rewrite Hd. st_step.
    st_step_by E'. done. }
  split; cbn [data_frames set_frames vpn_range map_type permission]; try done.
  - set_solver.
  - intros w Hw. rewrite lookup_insert_ne; [done|]. intros ->. apply Hw. by left.
  - split; cbn [data_frames set_frames permission].
    + intros w ->%list_elem_of_singleton. exists f. rewrite lookup_insert_eq. split_and!; [done|set_solver|done|lia|lia|].
      rewrite Hr, Hleaf by done. by rewrite decide_True.
    + by intros w x g ->%list_elem_of_singleton ->%list_elem_of_singleton.
  - intros w g ->%list_elem_of_singleton. rewrite lookup_insert_eq. intros [= <-]. split; [done|].
    rewrite Hpages by done. unfold s1, zero_page. cbn. rewrite get_page_insert. by rewrite decide_True.
  - intros w Hw Hw'. rewrite Hleaf, decide_False by (done || by intros ->; apply Hw; left). apply Hl1.
  - intros p Hp Hp'. assert (Hpf : p ∉ PT.frames pt').
    { intros Hin. destruct (Hfresh p Hin); [done|set_solver]. }
    split; [|done]. rewrite Hpages by done. apply Hpg. by intros ->.
  - cbn [length]. cbn in Hcap', Hc. lia.
Qed.

Lemma mapped_mono s pt live seg l s' pt' live' seg' :
  mapped s pt live seg l -> PT.root_ppn pt' = PT.root_ppn pt -> permission seg' = permission seg -> live ⊆ live' ->
  (forall v, v ∈ l -> data_frames seg' !! v = data_frames seg !! v) ->
  (forall v, v ∈ l -> PT.leaf (mem s') (PT.root_ppn pt) v = PT.leaf (mem s) (PT.root_ppn pt) v) ->
  (forall v f, v ∈ l -> data_frames seg !! v = Some f -> f ∉ PT.frames pt') ->
  mapped s' pt' live' seg' l.
Proof.
  intros [Hf Hj] Hr Hp Hl Hd Hleaf Hn. split.
  - intros v Hv. destruct (Hf v Hv) as (f & Hf1 & Hf2 & _ & Hf4 & Hf5). exists f.
    rewrite Hd, Hr, Hp, Hleaf by done. split_and!; [done|set_solver|by eapply Hn|lia|lia|done].
  - intros v w f Hv Hw. rewrite !Hd by done. by apply Hj.
Qed.

Lemma maps_cons s pt live seg v l s1 pt1 live1 seg1 s2 pt2 live2 seg2 :
  v ∉ l -> page_ok v ->
  maps s pt live seg [v] s1 pt1 live1 seg1 -> maps s1 pt1 live1 seg1 l s2 pt2 live2 seg2 ->
  maps s pt live seg (v :: l) s2 pt2 live2 seg2.
Proof.
  intros Hv Hok [I1 R1 L1 Ra1 T1 P1 O1 M1 F1 Le1 Pg1 C1] [I2 R2 L2 Ra2 T2 P2 O2 M2 F2 Le2 Pg2 C2].
  destruct (mp_frame _ _ _ _ _ M1 v ltac:(by left)) as (f & Hf & Hfl & Hfn & Hfr & Hfe).
  destruct (Pg2 f Hfl Hfn) as [Hfp Hfn2].
  assert (Hf2 : data_frames seg2 !! v = Some f) by (by rewrite O2).
  split; try congruence; try (by etrans).
  - intros w [Hw Hw']%not_elem_of_cons. rewrite O2, O1 by (done || by rewrite list_elem_of_singleton). done.
  - destruct M2 as [Mf Mj]. split.
    + intros w [->|Hw]%elem_of_cons; [|by apply Mf]. exists f. split_and!; [done|set_solver|done|lia|lia|].
      rewrite R2, Le2 by done. by rewrite P2.
    + intros w x g [->|Hw]%elem_of_cons [->|Hx]%elem_of_cons Hg Hg'; [done| | |by eapply Mj].
      * assert (g = f) as -> by congruence. by destruct (F2 x f Hx Hg').
      * assert (g = f) as -> by congruence. by destruct (F2 w f Hw Hg).
  - intros w g [->|Hw]%elem_of_cons Hg.
    + assert (g = f) as -> by congruence. destruct (F1 v f ltac:(by left) Hf) as [Hn Hz]. split; [done|]. by rewrite Hfp.
    + destruct (F2 w g Hw Hg) as [Hn Hz]. split; [set_solver|done].
  - intros w [Hw Hw']%not_elem_of_cons Hr. rewrite <- R1, Le2, R1 by done. apply Le1; [|done]. by rewrite list_elem_of_singleton.
  - intros p Hp Hp'. destruct (Pg1 p Hp Hp') as [E1 N1]. destruct (Pg2 p (L1 p Hp) N1) as [E2 N2]. split; [congruence|done].
  - cbn [length] in *. lia.
Qed.

Lemma map_loop_framed l s pt live seg :
  PT.inv s pt live -> Forall page_ok l -> NoDup l -> map_type seg = Framed -> 0 <= permission seg < 256 ->
  (forall v, v ∈ l -> PT.leaf (mem s) (PT.root_ppn pt) v = None) ->
  (forall v, v ∈ l -> data_frames seg !! v = None) ->
  (3 * length l <= fa_capacity (falloc s))%nat ->
  exists s' pt' live' seg', map_loop l seg pt s = Ok ((seg', pt'), s') /\ maps s pt live seg l s' pt' live' seg'.
Proof.
  revert s pt live seg. induction l as [|v l IH]; intros s pt live seg Hi Hok Hnd Hmt Hperm Hl Hd Hcap.
  { exists s, pt, live, seg. split; [done|]. split; try done; cbn; try lia; try (by intros v f ?%elem_of_nil).
    split; [by intros v ?%elem_of_nil|by intros v w f ?%elem_of_nil]. }
  apply Forall_cons in Hok as [Hv Hok]. apply NoDup_cons in Hnd as [Hni Hnd]. cbn [length] in Hcap.
  destruct (map_page_framed s pt live seg v Hi Hv Hmt Hperm (Hl v ltac:(by left)) (Hd v ltac:(by left)) ltac:(lia))
    as (s1 & pt1 & live1 & seg1 & E1 & M1).
  destruct (IH s1 pt1 live1 seg1) as (s2 & pt2 & live2 & seg2 & E2 & M2); [apply M1|done|done| | | | | |].
  - by rewrite (ms_type _ _ _ _ _ _ _ _ _ M1).
  - by rewrite (ms_perm _ _ _ _ _ _ _ _ _ M1).
  - intros w Hw. rewrite (ms_root _ _ _ _ _ _ _ _ _ M1), (ms_leaf _ _ _ _ _ _ _ _ _ M1).
    + apply Hl. by right.
    + intros ->%list_elem_of_singleton. done.
    + rewrite Forall_forall in Hok. by apply Hok.
  - intros w Hw. rewrite (ms_other _ _ _ _ _ _ _ _ _ M1); [apply Hd; by right|]. by intros ->%list_elem_of_singleton.
  - pose proof (ms_cap _ _ _ _ _ _ _ _ _ M1). cbn [length] in *. lia.
  - exists s2, pt2, live2, seg2. split; [|by eapply maps_cons]. cbn [map_loop]. by st_step_by E1.
Qed.

(** ** Unmapping a range *)

Record unmaps s pt live seg (l : list Z) s' live' seg' : Prop := {
  us_inv : PT.inv s' pt live';
  us_live : forall p, p ∈ live' <-> p ∈ live /\ forall v, v ∈ l -> data_frames seg !! v <> Some p;
  us_range : vpn_range seg' = vpn_range seg;
  us_type : map_type seg' = map_type seg;
  us_perm : permission seg' = permission seg;
  us_other : forall v, v ∉ l -> data_frames seg' !! v = data_frames seg !! v;
  us_none : forall v, v ∈ l -> data_frames seg' !! v = None /\ PT.leaf (mem s') (PT.root_ppn pt) v = None;
  us_leaf : forall v, v ∉ l -> page_ok v ->
    PT.leaf (mem s') (PT.root_ppn pt) v = PT.leaf (mem s) (PT.root_ppn pt) v;
  us_page : forall p, p ∉ PT.frames pt -> get_page (mem s') p = get_page (mem s) p;
  us_cap : fa_capacity (falloc s') = (length l + fa_capacity (falloc s))%nat;
}.

Lemma unmap_page_framed s pt live seg v l :
  PT.inv s pt live -> page_ok v -> map_type seg = Framed -> v ∈ l -> mapped s pt live seg l ->
  exists s' live' seg', unmap_page seg pt v s = Ok (seg', s') /\ unmaps s pt live seg [v] s' live' seg'.
Proof.
  intros Hi Hv Hmt Hin Hm. destruct (mp_frame _ _ _ _ _ Hm v Hin) as (f & Hf & Hfl & Hfn & Hfr & Hfe).
  destruct (fa_dealloc_live _ _ f (PT.inv_rep _ _ _ Hi) Hfl) as (fa & E & Hrep & Hc).
  assert (Hi1 : PT.inv (mkMM (mem s) fa) pt (live ∖ {[f]})).
  { destruct Hi as [Hwf _ Hsub Hnd]. split; [done|done| |done]. intros p Hp. apply elem_of_difference.
    split; [by apply Hsub|]. intros ->%elem_of_singleton. by apply elem_of_list_to_set in Hp. }
  destruct (PT.unmap_correct (HL := HL) (mkMM (mem s) fa) pt _ v _ Hi1 Hv Hfe) as (s' & E' & Hi' & Hl & Hp & Hfa).
  exists s', (live ∖ {[f]}), (set_frames (delete v (data_frames seg)) seg). split.
  { assert (Er : remove_frame seg v s = Ok (set_frames (delete v (data_frames seg)) seg, mkMM (mem s) fa)).
    { unfold remove_frame. rewrite Hf. unfold frame_dealloc, mbind, st_bind. by rewrite E. }
    unfold unmap_page. rewrite Hmt. st_step_by Er. by st_step_by E'. }
  split; cbn [data_frames set_frames vpn_range map_type permission]; try done.
  - intros p. rewrite elem_of_difference, elem_of_singleton. split.
    + intros [Hp1 Hp2]. split; [done|]. intros w ->%list_elem_of_singleton. congruence.
    + intros [Hp1 Hp2]. split; [done|]. intros ->. by apply (Hp2 v); [left|].
  - intros w Hw. rewrite lookup_delete_ne; [done|]. intros ->. apply Hw. by left.
  - intros w ->%list_elem_of_singleton. rewrite lookup_delete_eq. split; [done|]. rewrite Hl by done. by rewrite decide_True.
  - intros w Hw Hok. rewrite Hl, decide_False by (done || by intros ->; apply Hw; left). done.
  - rewrite Hfa. cbn. lia.
Qed.

Lemma unmaps_cons s pt live seg v l s1 live1 seg1 s2 live2 seg2 :
  v ∉ l -> page_ok v -> Forall page_ok l ->
  unmaps s pt live seg [v] s1 live1 seg1 -> unmaps s1 pt live1 seg1 l s2 live2 seg2 ->
  unmaps s pt live seg (v :: l) s2 live2 seg2.
Proof.
  intros Hv Hok Hokl [I1 L1 Ra1 T1 P1 O1 N1 Le1 Pg1 C1] [I2 L2 Ra2 T2 P2 O2 N2 Le2 Pg2 C2]. rewrite Forall_forall in Hokl.
  assert (Hne : forall w, w ∈ l -> w ∉ [v]) by (by intros w Hw ->%list_elem_of_singleton).
  split; try congruence; try done.
  - intros p. rewrite L2, L1. split.
    + intros [[Hp Hp1] Hp2]. split; [done|]. intros w [->|Hw]%elem_of_cons; [by apply Hp1; left|].
      rewrite <- O1 by (by apply Hne). by apply Hp2.
    + intros [Hp Hp1]. split; [split; [done|]|].
      * intros w ->%list_elem_of_singleton. apply Hp1. by left.
      * intros w Hw. rewrite O1 by (by apply Hne). apply Hp1. by right.
  - intros w [Hw Hw']%not_elem_of_cons. rewrite O2, O1 by (done || by rewrite list_elem_of_singleton). done.
  - intros w [->|Hw]%elem_of_cons; [|by apply N2].
    rewrite O2, Le2 by done. apply N1. by left.
  - intros w [Hw Hw']%not_elem_of_cons Hr. rewrite Le2, Le1 by (done || by rewrite list_elem_of_singleton). done.
  - intros p Hp. rewrite Pg2, Pg1 by done. done.
  - cbn [length] in *. lia.
Qed.

Lemma unmap_loop_framed l s pt live seg :
  PT.inv s pt live -> Forall page_ok l -> NoDup l -> map_type seg = Framed -> mapped s pt live seg l ->
  exists s' live' seg', unmap_loop l seg pt s = Ok (seg', s') /\ unmaps s pt live seg l s' live' seg'.
Proof.
  revert s live seg. induction l as [|v l IH]; intros s live seg Hi Hok Hnd Hmt Hm.
  { exists s, live, seg. split; [done|]. split; try done; try (by intros v ?%elem_of_nil).
    intros p. split; [|tauto]. intros Hp. split; [done|]. by intros v ?%elem_of_nil. }
  apply Forall_cons in Hok as [Hv Hok]. apply NoDup_cons in Hnd as [Hni Hnd].
  destruct (unmap_page_framed s pt live seg v (v :: l) Hi Hv Hmt ltac:(by left) Hm) as (s1 & live1 & seg1 & E1 & U1).
  assert (Hne : forall w, w ∈ l -> w ∉ [v]) by (by intros w Hw ->%list_elem_of_singleton).
  assert (Hm1 : mapped s1 pt live1 seg1 l).
  { destruct U1 as [I1 L1 Ra1 T1 P1 O1 N1 Le1 Pg1 C1]. destruct Hm as [Hf Hj]. rewrite Forall_forall in Hok. split.
    - intros w Hw. destruct (Hf w ltac:(by right)) as (f & Hf1 & Hf2 & Hf3 & Hf4 & Hf5). exists f.
      rewrite O1, Le1, P1 by (by apply Hne || by apply Hok). split_and!; try done; try lia. apply L1. split; [done|].
      intros x ->%list_elem_of_singleton Hx. apply Hni. by rewrite (Hj v w f ltac:(by left) ltac:(by right) Hx Hf1).
    - intros w x f Hw Hx. rewrite !O1 by (by apply Hne). intros. apply (Hj w x f); [by right|by right|done|done]. }
  destruct (IH s1 live1 seg1) as (s2 & live2 & seg2 & E2 & U2); [apply U1|done|done|by rewrite (us_type _ _ _ _ _ _ _ _ U1)|done|].
  exists s2, live2, seg2. split; [|by eapply unmaps_cons]. cbn [unmap_loop]. by st_step_by E1.
Qed.

(** ** Segments *)

Definition range_ok (l r : Z) : Prop := 0 <= l <= r /\ r <= 2 ^ 27.

Lemma vpns_ok l r :
  range_ok l r -> Forall page_ok (vpns (mkRange l r)) /\ NoDup (vpns (mkRange l r)) /\
    length (vpns (mkRange l r)) = Z.to_nat (r - l) /\ forall v, v ∈ vpns (mkRange l r) <-> l <= v < r.
Proof.
  intros [Hl Hr]. rewrite vpns_seqZ by lia. split_and!.
  - apply Forall_forall. intros v Hv. apply elem_of_seqZ in Hv. unfold page_ok. lia.
  - apply NoDup_seqZ.
  - apply length_seqZ.
  - intros v. rewrite elem_of_seqZ. lia.
Qed.

Lemma SimpleRange_new_ok l r : l <= r -> SimpleRange_new l r = Ok (mkRange l r).
Proof. intros. unfold SimpleRange_new. by rewrite (proj2 (Z.leb_le l r)). Qed.

(** Mapping a new framed segment. *)
Lemma seg_map_framed s pt live l r perm :
  PT.inv s pt live -> range_ok l r -> 0 <= perm < 256 ->
  (forall v, l <= v < r -> PT.leaf (mem s) (PT.root_ppn pt) v = None) ->
  (3 * Z.to_nat (r - l) <= fa_capacity (falloc s))%nat ->
  exists s' pt' live' seg', seg_map (mkSegment (mkRange l r) ∅ Framed perm) pt s = Ok ((seg', pt'), s') /\
    maps s pt live (mkSegment (mkRange l r) ∅ Framed perm) (vpns (mkRange l r)) s' pt' live' seg'.
Proof.
  intros Hi Hr Hperm Hl Hcap. destruct (vpns_ok l r Hr) as (Hok & Hnd & Hlen & Hin).
  apply map_loop_framed; [done|done|done|done|done| | |by rewrite Hlen].
  - intros v Hv. apply Hl. by apply Hin.
  - intros v _. apply lookup_empty.
Qed.

Lemma add_segment_framed_run sp s start end_ perm s' pt' seg' :
  floor start <= ceil end_ ->
  seg_map (mkSegment (mkRange (floor start) (ceil end_)) ∅ Framed perm) (page_table sp) s = Ok ((seg', pt'), s') ->
  add_segment_framed sp start end_ perm s = Ok (mkSpace pt' (segments sp ++ [seg']), s').
Proof.
  intros Hle E. unfold add_segment_framed, MemorySegment_new. rewrite SimpleRange_new_ok by done. st_step.
  unfold add_segment. st_step_by E. done.
Qed.

Lemma find_index_snoc {A} (p : A -> bool) l a :
  Forall (fun x => p x = false) l -> p a = true -> find_index p (l ++ [a]) = Some (length l).
Proof.
  induction l as [|x l IH]; intros Hl Ha; simpl; [by rewrite Ha|]. apply Forall_cons in Hl as [-> Hl].
  by rewrite IH.
Qed.

Lemma drop_segment_empty s seg :
  (forall v, v ∈ vpns (vpn_range seg) -> data_frames seg !! v = None) -> drop_segment seg s = Ok (tt, s).
Proof.
  intros Hn. unfold drop_segment. replace (omap _ _) with (@nil Z); [done|]. symmetry.
  induction (vpns (vpn_range seg)) as [|v l IH]; [done|]. cbn. rewrite Hn by (by left). apply IH.
  intros w Hw. apply Hn. by right.
Qed.

(** Removing the last segment. *)
Lemma remove_last_segment s pt live segs seg l r :
  PT.inv s pt live -> range_ok l r -> vpn_range seg = mkRange l r -> map_type seg = Framed ->
  Forall (fun x => range_l (vpn_range x) <> l) segs -> mapped s pt live seg (vpns (mkRange l r)) ->
  exists s' live' seg', remove_segment_with_start_vpn (mkSpace pt (segs ++ [seg])) l s = Ok (mkSpace pt segs, s') /\
    unmaps s pt live seg (vpns (mkRange l r)) s' live' seg'.
Proof.
  intros Hi Hr Hrange Hmt Hsegs Hm. destruct (vpns_ok l r Hr) as (Hok & Hnd & _ & _).
  destruct (unmap_loop_framed _ s pt live seg Hi Hok Hnd Hmt Hm) as (s' & live' & seg' & E & U).
  exists s', live', seg'. split; [|done]. unfold remove_segment_with_start_vpn. cbn [segments page_table].
  rewrite (find_index_snoc _ segs seg).
  - rewrite lookup_app_r, Nat.sub_diag by lia. cbn [lookup list_lookup unwrap]. st_step.
    unfold seg_unmap. rewrite Hrange. st_step_by E.
    assert (Ed : drop_segment seg' s' = Ok (tt, s')).
    { apply drop_segment_empty. rewrite (us_range _ _ _ _ _ _ _ _ U), Hrange.
      intros v Hv. by apply (us_none _ _ _ _ _ _ _ _ U). }
    st_step_by Ed. do 3 f_equal. rewrite delete_take_drop, take_app_length.
    rewrite drop_ge; [by rewrite app_nil_r|]. rewrite length_app. simpl. lia.
  - eapply Forall_impl; [exact Hsegs|]. intros x Hx. by apply Z.eqb_neq.
  - rewrite Hrange. by apply Z.eqb_eq.
Qed.

(** ** Copying an address space *)

(** Page [v] has frame [f] with permission [perm]. *)
Definition maps_to s pt (v f perm : Z) : Prop :=
  PT.leaf (mem s) (PT.root_ppn pt) v = Some (PTE.new f (Z.lor perm PTE.V)) /\ 0 <= f < 2 ^ 44 /\ 0 <= perm < 256.

Lemma maps_to_fun s pt v f f' perm perm' : maps_to s pt v f perm -> maps_to s pt v f' perm' -> f = f'.
Proof.
  intros (H1 & Hf & Hp) (H2 & Hf' & Hp'). rewrite H1 in H2. injection H2 as E.
  apply (f_equal PTE.ppn) in E. pose proof (PT.lor_V_range perm Hp). pose proof (PT.lor_V_range perm' Hp').
  by rewrite !PTE.ppn_new in E by lia.
Qed.

Lemma copy_page_run up cp s v f f' perm :
  maps_to s (page_table up) v f perm -> maps_to s (page_table cp) v f' perm ->
  copy_page up cp v s = Ok (tt, mkMM (<[f' := get_page (mem s) f]> (mem s)) (falloc s)).
Proof.
  intros (H1 & Hf & Hp) (H2 & Hf' & _). pose proof (PT.lor_V_range perm Hp). unfold copy_page, translate.
  st_step_by (PT.translate_leaf (F := F) s _ v _ H1). st_step. st_step_by (PT.translate_leaf (F := F) s _ v _ H2).
  st_step. rewrite !PTE.ppn_new by lia. done.
Qed.

Lemma copy_loop_spec up cp live l s :
  PT.inv s (page_table up) live -> PT.inv s (page_table cp) live -> NoDup l ->
  (forall v, v ∈ l -> exists f f' perm, maps_to s (page_table up) v f perm /\ maps_to s (page_table cp) v f' perm /\
     f' ∉ PT.frames (page_table up) /\ f' ∉ PT.frames (page_table cp)) ->
  (forall v w f f' perm perm', v ∈ l -> w ∈ l -> maps_to s (page_table up) v f perm -> maps_to s (page_table cp) w f' perm' -> f <> f') ->
  (forall v w f perm perm', v ∈ l -> w ∈ l -> maps_to s (page_table cp) v f perm -> maps_to s (page_table cp) w f perm' -> v = w) ->
  exists s', st_for l (copy_page up cp) s = Ok (tt, s') /\ falloc s' = falloc s /\
    PT.inv s' (page_table cp) live /\
    (forall v, PT.leaf (mem s') (PT.root_ppn (page_table cp)) v = PT.leaf (mem s) (PT.root_ppn (page_table cp)) v) /\
    (forall v f f' perm, v ∈ l -> maps_to s (page_table up) v f perm -> maps_to s (page_table cp) v f' perm ->
       get_page (mem s') f' = get_page (mem s) f) /\
    (forall p, (forall v perm, v ∈ l -> ~ maps_to s (page_table cp) v p perm) -> get_page (mem s') p = get_page (mem s) p).
Proof.
  revert s. induction l as [|v l IH]; intros s Hu Hc Hnd Hm Hdisj Hinj.
  { exists s. split_and!; try done. by intros v f f' perm ?%elem_of_nil. }
  apply NoDup_cons in Hnd as [Hni Hnd].
  destruct (Hm v ltac:(by left)) as (f & f' & perm & M1 & M2 & N1 & N2).
  set (s1 := mkMM (<[f' := get_page (mem s) f]> (mem s)) (falloc s)).
  assert (Hpg : forall p, p <> f' -> get_page (mem s1) p = get_page (mem s) p).
  { intros p Hp. unfold s1. cbn. rewrite get_page_insert. by rewrite decide_False. }
  destruct (PT.inv_pages (HL := HL) s (page_table up) live s1 Hu eq_refl) as [Hu1 Lu]; [intros p Hp; apply Hpg; by intros ->|].
  destruct (PT.inv_pages (HL := HL) s (page_table cp) live s1 Hc eq_refl) as [Hc1 Lc]; [intros p Hp; apply Hpg; by intros ->|].
  assert (Mu : forall w g pm, maps_to s1 (page_table up) w g pm <-> maps_to s (page_table up) w g pm)
    by (intros; unfold maps_to; by rewrite Lu).
  assert (Mc : forall w g pm, maps_to s1 (page_table cp) w g pm <-> maps_to s (page_table cp) w g pm)
    by (intros; unfold maps_to; by rewrite Lc).
  destruct (IH s1 Hu1 Hc1 Hnd) as (s' & E & Hfa & Hinv & Hleaf & Hcopy & Hrest).
  { intros w Hw. destruct (Hm w ltac:(by right)) as (g & g' & pm & G1 & G2 & G3 & G4).
    exists g, g', pm. by rewrite Mu, Mc. }
  { intros w x g g' pm pm' Hw Hx. rewrite Mu, Mc. apply Hdisj; by right. }
  { intros w x g pm pm' Hw Hx. rewrite !Mc. apply Hinj; by right. }
  exists s'. split_and!; [|by rewrite Hfa|done|intros w; by rewrite Hleaf| |].
  - cbn [st_for]. by st_step_by (copy_page_run up cp s v f f' perm M1 M2).
  - intros w g g' pm [->|Hw]%elem_of_cons G1 G2.
    + assert (g' = f') as -> by (by eapply maps_to_fun). assert (g = f) as -> by (by eapply maps_to_fun).
      rewrite Hrest; [unfold s1; cbn; rewrite get_page_insert; by rewrite decide_True|].
      intros w pm' Hw. rewrite Mc. intros Hx. apply Hni.
      by rewrite (Hinj v w f' perm pm' ltac:(by left) ltac:(by right) M2 Hx).
    + rewrite (Hcopy w g g' pm Hw) by (by rewrite ?Mu, ?Mc). apply Hpg.
      apply (Hdisj w v g f' pm perm); [by right|by left|done|done].
  - intros p Hp. rewrite Hrest by (intros w pm Hw; rewrite Mc; apply Hp; by right).
    apply Hpg. intros ->. by apply (Hp v perm ltac:(by left)).
Qed.

Definition pages seg : list Z := vpns (vpn_range seg).
Definition tramp_vpn : Z := 2 ^ 27 - 1.

Record seg_ok s pt live seg : Prop := {
  so_range : range_ok (range_l (vpn_range seg)) (range_r (vpn_range seg));
  so_type : map_type seg = Framed;
  so_perm : 0 <= permission seg < 256;
  so_page : forall v, v ∈ pages seg -> v <> tramp_vpn /\ exists f, maps_to s pt v f (permission seg) /\
    f ∈ live /\ f ∉ PT.frames pt;
}.

(** The address space of a user process: framed segments that share no page. *)
Record user_ok s sp live : Prop := {
  uo_inv : PT.inv s (page_table sp) live;
  uo_segs : Forall (seg_ok s (page_table sp) live) (segments sp);
  uo_nodup : NoDup (concat (pages <$> segments sp));
}.

Definition shape seg : SimpleRange * MapType * Z := (vpn_range seg, map_type seg, permission seg).

(** A copy in progress: the segments [fin] are done. *)
Record forked s0 up live0 (fin : list MemorySegment) s cp live : Prop := {
  fk_inv : PT.inv s (page_table cp) live;
  fk_live : live0 ⊆ live;
  fk_iso : forall p, p ∈ live0 -> get_page (mem s) p = get_page (mem s0) p /\ p ∉ PT.frames (page_table cp);
  fk_segs : shape <$> segments cp = shape <$> fin;
  fk_ok : forall v, v ∈ concat (pages <$> fin) -> page_ok v;
  fk_page : forall v, v ∈ concat (pages <$> fin) -> exists f f' perm,
    maps_to s0 (page_table up) v f perm /\ maps_to s (page_table cp) v f' perm /\
    f' ∉ live0 /\ f' ∈ live /\ f' ∉ PT.frames (page_table cp) /\ get_page (mem s) f' = get_page (mem s0) f;
  fk_none : forall v, page_ok v -> v <> tramp_vpn -> v ∉ concat (pages <$> fin) ->
    PT.leaf (mem s) (PT.root_ppn (page_table cp)) v = None;
  fk_inj : forall v w f perm perm', v ∈ concat (pages <$> fin) -> w ∈ concat (pages <$> fin) ->
    maps_to s (page_table cp) v f perm -> maps_to s (page_table cp) w f perm' -> v = w;
}.

(** The page tables of the parent are not touched. *)
Lemma forked_parent s0 up live0 fin s cp live :
  PT.inv s0 (page_table up) live0 -> forked s0 up live0 fin s cp live ->
  PT.inv s (page_table up) live /\
  forall v f perm, maps_to s (page_table up) v f perm <-> maps_to s0 (page_table up) v f perm.
Proof.
  intros Hu Hf.
  destruct (PT.inv_pages (HL := HL) s0 (page_table up) live0 (mkMM (mem s) (falloc s0)) Hu eq_refl) as [Hi Hl].
  { intros p Hp. apply (fk_iso _ _ _ _ _ _ _ Hf). apply (PT.inv_sub _ _ _ Hu). by apply elem_of_list_to_set. }
  split.
  - destruct Hi as [Hwf _ Hsub Hnd]. split; [done|apply Hf| |done].
    etrans; [exact Hsub|]. apply Hf.
  - intros v f perm. unfold maps_to. by rewrite Hl.
Qed.

Lemma concat_pages_snoc fin seg : concat (pages <$> (fin ++ [seg])) = concat (pages <$> fin) ++ pages seg.
Proof. rewrite fmap_app, concat_app. cbn. by rewrite app_nil_r. Qed.

Section fork_segment.
Context (s0 : mm F) (up : AddressSpace) (live0 : gset Z) (fin : list MemorySegment).
Context (s1 : mm F) (cp : AddressSpace) (live1 : gset Z) (seg : MemorySegment).
Context (s2 : mm F) (pt2 : PT.PageTable) (live2 : gset Z) (seg2 : MemorySegment).
Context (Hup : PT.inv s0 (page_table up) live0) (Hso : seg_ok s0 (page_table up) live0 seg).
Context (Hf : forked s0 up live0 fin s1 cp live1).
Context (Hnew : forall v, v ∈ pages seg -> v ∉ concat (pages <$> fin)).
Context (Hm : maps s1 (page_table cp) live1 (mkSegment (vpn_range seg) ∅ Framed (permission seg)) (pages seg) s2 pt2 live2 seg2).

Lemma fs_fresh v f perm : v ∈ pages seg -> maps_to s2 pt2 v f perm ->
  f ∉ live1 /\ f ∈ live2 /\ f ∉ PT.frames pt2 /\ data_frames seg2 !! v = Some f.
Proof.
  intros Hv Hmt. destruct (mp_frame _ _ _ _ _ (ms_mapped _ _ _ _ _ _ _ _ _ Hm) v Hv) as (g & Hg & Hgl & Hgn & Hgr & Hge).
  assert (f = g) as ->.
  { eapply maps_to_fun; [exact Hmt|]. split_and!; [exact Hge|lia|lia|..]; rewrite (ms_perm _ _ _ _ _ _ _ _ _ Hm); apply Hso. }
  split_and!; [|done|done|done]. by apply (ms_fresh _ _ _ _ _ _ _ _ _ Hm v g).
Qed.

Lemma fs_mapped v : v ∈ pages seg -> exists f, maps_to s2 pt2 v f (permission seg).
Proof.
  intros Hv. destruct (mp_frame _ _ _ _ _ (ms_mapped _ _ _ _ _ _ _ _ _ Hm) v Hv) as (g & _ & _ & _ & Hgr & Hge).
  rewrite (ms_perm _ _ _ _ _ _ _ _ _ Hm) in Hge. exists g. split_and!; [exact Hge|lia|lia|apply Hso|apply Hso].
Qed.

(** Old pages of the copy keep their frames. *)
Lemma fs_old v f perm : page_ok v -> v ∉ pages seg ->
  maps_to s2 pt2 v f perm <-> maps_to s1 (page_table cp) v f perm.
Proof.
  intros Hok Hv. unfold maps_to. rewrite (ms_root _ _ _ _ _ _ _ _ _ Hm).
  by rewrite (ms_leaf _ _ _ _ _ _ _ _ _ Hm v Hv Hok).
Qed.

Lemma fs_iso p : p ∈ live0 -> get_page (mem s2) p = get_page (mem s0) p /\ p ∉ PT.frames pt2.
Proof.
  intros Hp. destruct (fk_iso _ _ _ _ _ _ _ Hf p Hp) as [Hpg Hn].
  destruct (ms_page _ _ _ _ _ _ _ _ _ Hm p) as [Hpg' Hn']; [by apply (fk_live _ _ _ _ _ _ _ Hf)|done|].
  split; [congruence|done].
Qed.

Lemma fs_parent : PT.inv s2 (page_table up) live2 /\
  forall v f perm, maps_to s2 (page_table up) v f perm <-> maps_to s0 (page_table up) v f perm.
Proof.
  destruct (PT.inv_pages (HL := HL) s0 (page_table up) live0 (mkMM (mem s2) (falloc s0)) Hup eq_refl) as [Hi Hl].
  { intros p Hp. apply fs_iso. apply (PT.inv_sub _ _ _ Hup). by apply elem_of_list_to_set. }
  split.
  - destruct Hi as [Hwf _ Hsub Hnd]. split; [done|apply Hm| |done].
    etrans; [exact Hsub|]. etrans; [apply Hf|apply Hm].
  - intros v f perm. unfold maps_to. by rewrite Hl.
Qed.

Lemma fs_copy : exists s3,
  st_for (pages seg) (copy_page up (mkSpace pt2 (segments cp ++ [seg2]))) s2 = Ok (tt, s3) /\
  falloc s3 = falloc s2 /\ forked s0 up live0 (fin ++ [seg]) s3 (mkSpace pt2 (segments cp ++ [seg2])) live2.
Proof.
  destruct fs_parent as [Hpi Hpm]. set (cp2 := mkSpace pt2 (segments cp ++ [seg2])).
  destruct (so_range _ _ _ _ Hso) as [Hr1 Hr2].
  assert (Hrg : pages seg = vpns (mkRange (range_l (vpn_range seg)) (range_r (vpn_range seg)))) by (unfold pages; by destruct (vpn_range seg)).
  destruct (vpns_ok _ _ (so_range _ _ _ _ Hso)) as (Hok & Hnd & _ & _). rewrite <- Hrg in Hok, Hnd.
  rewrite Forall_forall in Hok.
  assert (Hsub : live0 ⊆ live1) by apply Hf.
  destruct (copy_loop_spec up cp2 live2 (pages seg) s2 Hpi (ms_inv _ _ _ _ _ _ _ _ _ Hm) Hnd) as (s3 & E & Hfa & Hi3 & Hl3 & Hcp & Hrest).
  { intros v Hv. destruct (so_page _ _ _ _ Hso v Hv) as (_ & f & Hmf & Hfl & Hfn). destruct (fs_mapped v Hv) as [f' Hmf'].
    destruct (fs_fresh v f' _ Hv Hmf') as (Hn1 & _ & Hn3 & _). exists f, f', (permission seg).
    rewrite Hpm. split_and!; [done|done| |done]. intros Hin. apply Hn1, Hsub, (PT.inv_sub _ _ _ Hup). by apply elem_of_list_to_set. }
  { intros v w f f' pm pm' Hv Hw. rewrite Hpm. intros Hmf Hmf' ->.
    destruct (so_page _ _ _ _ Hso v Hv) as (_ & g & Hmg & Hgl & _). rewrite (maps_to_fun _ _ _ _ _ _ _ Hmf Hmg) in *.
    destruct (fs_fresh w g _ Hw Hmf') as (Hn1 & _). by apply Hn1, Hsub. }
  { intros v w f pm pm' Hv Hw Hmv Hmw. destruct (fs_fresh v f _ Hv Hmv) as (_ & _ & _ & Hdv).
    destruct (fs_fresh w f _ Hw Hmw) as (_ & _ & _ & Hdw).
    by apply (mp_inj _ _ _ _ _ (ms_mapped _ _ _ _ _ _ _ _ _ Hm) v w f). }
  assert (M3 : forall v f pm, maps_to s3 pt2 v f pm <-> maps_to s2 pt2 v f pm).
  { intros v f pm. unfold maps_to. change pt2 with (page_table cp2). by rewrite Hl3. }
  assert (Hold : forall p, p ∈ live1 -> get_page (mem s3) p = get_page (mem s2) p).
  { intros p Hp. apply Hrest. intros v pm Hv Hmv. by destruct (fs_fresh v p pm Hv Hmv) as (Hn & _). }
  assert (Hdone : forall v, v ∈ concat (pages <$> fin) -> v ∉ pages seg /\ page_ok v).
  { intros v Hv. split; [intros Hv'; by apply (Hnew v Hv')|by apply (fk_ok _ _ _ _ _ _ _ Hf)]. }
  exists s3. split_and!; [done|done|]. split; unfold cp2; cbn [page_table segments]; rewrite ?concat_pages_snoc.
  - done.
  - etrans; [exact Hsub|apply Hm].
  - intros p Hp. destruct (fs_iso p Hp) as [Hpg Hn]. split; [|done]. rewrite Hold by (by apply Hsub). done.
  - rewrite !fmap_app, (fk_segs _ _ _ _ _ _ _ Hf). cbn. unfold shape. do 2 f_equal.
    rewrite (ms_range _ _ _ _ _ _ _ _ _ Hm), (ms_type _ _ _ _ _ _ _ _ _ Hm), (ms_perm _ _ _ _ _ _ _ _ _ Hm). cbn.
    by rewrite (so_type _ _ _ _ Hso).
  - intros v [Hv|Hv]%elem_of_app; [by apply (fk_ok _ _ _ _ _ _ _ Hf)|by apply Hok].
  - intros v [Hv|Hv]%elem_of_app.
    + destruct (fk_page _ _ _ _ _ _ _ Hf v Hv) as (f & f' & perm & Hmf & Hmf' & Hn & Hfl & Hfn & Hpg).
      destruct (Hdone v Hv) as [Hv' Hvok]. destruct (ms_page _ _ _ _ _ _ _ _ _ Hm f' Hfl Hfn) as [Hpg' Hn'].
      exists f, f', perm. rewrite M3, fs_old by done. split_and!; [done|done|done|by apply (ms_live _ _ _ _ _ _ _ _ _ Hm)|done|].
      rewrite Hold by done. congruence.
    + destruct (so_page _ _ _ _ Hso v Hv) as (_ & f & Hmf & Hfl & Hfn). destruct (fs_mapped v Hv) as [f' Hmf'].
      destruct (fs_fresh v f' _ Hv Hmf') as (Hn1 & Hn2 & Hn3 & _). exists f, f', (permission seg). rewrite M3.
      split_and!; [done|done|set_solver|done|done|]. rewrite (Hcp v f f' (permission seg) Hv); [|by rewrite Hpm|done].
      by apply fs_iso.
  - intros v Hvok Hnt [Hv Hv']%not_elem_of_app. change pt2 with (page_table cp2). rewrite Hl3.
    cbn [page_table cp2]. rewrite (ms_root _ _ _ _ _ _ _ _ _ Hm), (ms_leaf _ _ _ _ _ _ _ _ _ Hm v Hv' Hvok).
    by apply (fk_none _ _ _ _ _ _ _ Hf).
  - intros v w f pm pm'. rewrite !M3. intros [Hv|Hv]%elem_of_app [Hw|Hw]%elem_of_app Hmv Hmw.
    + destruct (Hdone v Hv), (Hdone w Hw). rewrite fs_old in Hmv, Hmw by done. by apply (fk_inj _ _ _ _ _ _ _ Hf v w f pm pm').
    + destruct (Hdone v Hv). rewrite fs_old in Hmv by done. exfalso. destruct (fs_fresh w f pm' Hw Hmw) as (Hn & _).
      destruct (fk_page _ _ _ _ _ _ _ Hf v Hv) as (g & g' & p' & _ & Hmg & _ & Hgl & _). by rewrite (maps_to_fun _ _ _ _ _ _ _ Hmv Hmg) in Hn.
    + destruct (Hdone w Hw). rewrite fs_old in Hmw by done. exfalso. destruct (fs_fresh v f pm Hv Hmv) as (Hn & _).
      destruct (fk_page _ _ _ _ _ _ _ Hf w Hw) as (g & g' & p' & _ & Hmg & _ & Hgl & _). by rewrite (maps_to_fun _ _ _ _ _ _ _ Hmw Hmg) in Hn.
    + destruct (fs_fresh v f _ Hv Hmv) as (_ & _ & _ & Hdv). destruct (fs_fresh w f _ Hw Hmw) as (_ & _ & _ & Hdw).
      by apply (mp_inj _ _ _ _ _ (ms_mapped _ _ _ _ _ _ _ _ _ Hm) v w f).
Qed.
End fork_segment.

Lemma from_other_run seg s pt live :
  seg_ok s pt live seg -> from_other seg = Ok (mkSegment (vpn_range seg) ∅ Framed (permission seg)).
Proof.
  intros Hso. unfold from_other. destruct (so_range _ _ _ _ Hso) as [Hr _].
  rewrite SimpleRange_new_ok by lia. cbn. rewrite (so_type _ _ _ _ Hso). by destruct (vpn_range seg).
Qed.

Lemma copy_segments_spec segs fin s0 up live0 s cp live :
  PT.inv s0 (page_table up) live0 -> Forall (seg_ok s0 (page_table up) live0) segs ->
  NoDup (concat (pages <$> (fin ++ segs))) -> forked s0 up live0 fin s cp live ->
  (3 * length (concat (pages <$> segs)) <= fa_capacity (falloc s))%nat ->
  exists s' cp' live', copy_segments up segs cp s = Ok (cp', s') /\ forked s0 up live0 (fin ++ segs) s' cp' live'.
Proof.
  intros Hup. revert fin s cp live. induction segs as [|seg segs IH]; intros fin s cp live Hsegs Hnd Hf Hcap.
  { exists s, cp, live. rewrite app_nil_r. done. }
  apply Forall_cons in Hsegs as [Hso Hsegs].
  assert (Hnew : forall v, v ∈ pages seg -> v ∉ concat (pages <$> fin)).
  { intros v Hv Hv'. rewrite fmap_app, concat_app in Hnd. apply NoDup_app in Hnd as (_ & Hd & _).
    apply (Hd v Hv'). cbn. apply elem_of_app. by left. }
  destruct (vpn_range seg) as [l r] eqn:Er. pose proof (so_range _ _ _ _ Hso) as Hr. rewrite Er in Hr. cbn in Hr.
  destruct (vpns_ok l r Hr) as (Hok & _ & Hlen & Hin). cbn [fmap list_fmap concat] in Hcap. rewrite length_app in Hcap.
  assert (Ep : pages seg = vpns (mkRange l r)) by (unfold pages; by rewrite Er). rewrite Ep, Hlen in Hcap.
  destruct (seg_map_framed s (page_table cp) live l r (permission seg) (fk_inv _ _ _ _ _ _ _ Hf) Hr (so_perm _ _ _ _ Hso))
    as (s2 & pt2 & live2 & seg2 & E & Hm).
  { intros v Hv. assert (Hvp : v ∈ pages seg) by (rewrite Ep; by apply Hin). apply (fk_none _ _ _ _ _ _ _ Hf).
    - rewrite Forall_forall in Hok. apply Hok. by rewrite <- Ep.
    - by apply (so_page _ _ _ _ Hso).
    - by apply Hnew. }
  { lia. }
  pose proof (ms_cap _ _ _ _ _ _ _ _ _ Hm) as Hc2. rewrite Hlen in Hc2. rewrite <- Er in Hm, E.
  destruct (fs_copy s0 up live0 fin s cp live seg s2 pt2 live2 seg2 Hup Hso Hf Hnew Hm) as (s3 & E3 & Hfa & Hf3).
  destruct (IH (fin ++ [seg]) s3 (mkSpace pt2 (segments cp ++ [seg2])) live2 Hsegs) as (s' & cp' & live' & E' & Hf'); [by rewrite <- app_assoc|exact Hf3|rewrite Hfa; lia|].
  exists s', cp', live'. rewrite <- app_assoc in Hf'. split; [|exact Hf']. cbn [copy_segments].
  rewrite (from_other_run _ _ _ _ Hso). st_step.
  assert (Ea : add_segment cp (mkSegment (vpn_range seg) ∅ Framed (permission seg)) None s
    = Ok (mkSpace pt2 (segments cp ++ [seg2]), s2)) by (unfold add_segment; by st_step_by E).
  st_step_by Ea. by st_step_by E3.
Qed.

Lemma trampoline_vpn : VirtPageNum_from_VirtAddr (VirtAddr_from_usize TRAMPOLINE) = Ok tramp_vpn.
Proof. by vm_compute. Qed.

Lemma strampoline_ppn a :
  0 <= a < 2 ^ 56 -> (4096 | a) ->
  exists p, PhysPageNum_from_PhysAddr (PhysAddr_from_usize a) = Ok p /\ 0 <= p < 2 ^ 44.
Proof.
  intros Ha [q Hq]. unfold PhysPageNum_from_PhysAddr. rewrite PhysAddr_from_usize_mod, Z.mod_small by lia.
  unfold aligned. rewrite page_offset_mod, floor_div. rewrite (proj2 (Z.mod_divide a 4096 ltac:(lia))) by (by exists q).
  eexists. split; [done|]. rewrite Hq, Z.div_mul by lia. lia.
Qed.

Lemma bare_forked s up live strampoline :
  fa_rep (falloc s) live -> 0 <= strampoline < 2 ^ 56 -> (4096 | strampoline) ->
  (3 <= fa_capacity (falloc s))%nat ->
  exists s1 cp live1, (sp ← new_bare; map_trampoline strampoline sp) s = Ok (cp, s1) /\
    forked s up live [] s1 cp live1 /\ (fa_capacity (falloc s) <= 3 + fa_capacity (falloc s1))%nat.
Proof.
  intros Hrep Ha Hal Hcap. destruct (strampoline_ppn strampoline Ha Hal) as (tp & Etp & Htp).
  destruct (PT.PageTable_new_correct (HL := HL) s live Hrep ltac:(lia)) as (f & fa & E & Hi & Hf & Hfr & Hl & Hc).
  destruct (PT.map_correct (HL := HL) _ _ _ tramp_vpn tp (Z.lor PR PX) Hi)
    as (pt' & s' & E' & Hi' & Hr & Hsub & Hleaf & Hpages & Hfresh & Hcap'); [by vm_compute|done|by vm_compute|apply Hl|cbn; lia|].
  exists s', (mkSpace pt' []), ({[f]} ∪ live ∪ list_to_set (PT.frames pt')). split; [|split].
  - assert (Eb : new_bare s = Ok (mkSpace (PT.mkPageTable f [f]) [], mkMM (zero_page (mem s) f) fa))
      by (unfold new_bare; by st_step_by E).
    st_step_by Eb. unfold map_trampoline. rewrite trampoline_vpn. st_step. rewrite Etp. st_step. by st_step_by E'.
  - split; cbn [page_table segments].
    + exact Hi'.
    + intros p Hp. rewrite !elem_of_union. left. by right.
    + intros p Hp. assert (Hpf : p ∉ PT.frames pt').
      { intros Hin. destruct (Hfresh p Hin) as [Hin'|]; [|set_solver]. apply list_elem_of_singleton in Hin' as ->. done. }
      split; [|done]. rewrite Hpages by done. unfold zero_page. cbn. rewrite get_page_insert. rewrite decide_False; [done|]. by intros ->.
    + reflexivity.
    + by intros v ?%elem_of_nil.
    + by intros v ?%elem_of_nil.
    + intros v Hv Hnt _. rewrite Hr. rewrite Hleaf, decide_False by done. apply Hl.
    + by intros v w g pm pm' ?%elem_of_nil.
  - cbn in *. lia.
Qed.

(** Mapping a page that is mapped already. *)
Lemma map_page_mapped s pt live seg v e :
  PT.inv s pt live -> map_type seg = Framed -> data_frames seg !! v = None ->
  PT.leaf (mem s) (PT.root_ppn pt) v = Some e -> (3 <= fa_capacity (falloc s))%nat ->
  map_page seg pt v s = Panic AssertFailed.
Proof.
  intros Hi Hmt Hd Hl Hcap.
  destruct (frame_alloc_some s live (PT.inv_rep _ _ _ Hi)) as (f & fa & E & Hf & Hfr & Hrep & Hc); [lia|].
  destruct (PT.inv_pages (HL := HL) s pt live (mkMM (zero_page (mem s) f) (falloc s)) Hi eq_refl) as [Hi' Hl'].
  { intros p Hp. unfold zero_page. cbn. rewrite get_page_insert. rewrite decide_False; [done|]. intros ->.
    apply Hf, (PT.inv_sub _ _ _ Hi). by apply elem_of_list_to_set. }
  unfold map_page. rewrite Hmt. st_step_by E. st_step. unfold insert_frame. rewrite Hd. st_step.
  unfold mbind, st_bind. rewrite (PT.map_mapped (HL := HL) _ pt ({[f]} ∪ live) v f _ e); [done| |cbn; lia|].
  - destruct Hi' as [Hwf _ Hsub Hnd]. split; [done|done|set_solver|done].
  - cbn. rewrite <- Hl. apply Hl'.
Qed.

Lemma add_segment_framed_panics s sp live start end_ perm e :
  PT.inv s (page_table sp) live -> range_ok (floor start) (ceil end_) -> floor start < ceil end_ ->
  PT.leaf (mem s) (PT.root_ppn (page_table sp)) (floor start) = Some e -> (3 <= fa_capacity (falloc s))%nat ->
  add_segment_framed sp start end_ perm s = Panic AssertFailed.
Proof.
  intros Hi [Hr1 Hr2] Hlt Hl Hcap. unfold add_segment_framed, MemorySegment_new.
  rewrite SimpleRange_new_ok by lia. st_step. unfold add_segment, seg_map. cbn [vpn_range].
  rewrite vpns_seqZ, seqZ_cons by lia. unfold mbind, st_bind. cbn [map_loop]. unfold mbind, st_bind.
  by rewrite (map_page_mapped s (page_table sp) live _ _ e).
Qed.

Lemma remove_no_segment sp vpn s :
  Forall (fun x => range_l (vpn_range x) <> vpn) (segments sp) ->
  remove_segment_with_start_vpn sp vpn s = Ok (sp, s).
Proof.
  intros Hs. unfold remove_segment_with_start_vpn. rewrite (proj2 (find_index_None _ _)); [done|].
  eapply Forall_impl; [exact Hs|]. intros x Hx. by apply Z.eqb_neq.
Qed.

End lemmas.

Lemma stack_range tid base :
  0 <= tid < 1000 -> 0 < base -> (4096 | base) -> base + (tid + 1) * 12288 < 2 ^ 26 ->
  let b := user_stack_bottom base tid in
  b = base + tid * 12288 /\ floor (VirtAddr_from_usize b) = (base + tid * 12288) / 4096 /\
  ceil (VirtAddr_from_usize (uadd b USER_STACK_SIZE)) = (base + tid * 12288) / 4096 + 2 /\
  VirtPageNum_from_usize b = base + tid * 12288.
Proof.
  intros Htid Hb [q Hq] Hlt b. assert (Eb : b = base + tid * 12288).
  { unfold b, user_stack_bottom, PAGE_SIZE, USER_STACK_SIZE.
    rewrite (uadd_small 4096), umul_small, uadd_small by lia. lia. }
  rewrite Eb, (uadd_small (base + tid * 12288)) by (unfold USER_STACK_SIZE; lia). unfold USER_STACK_SIZE.
  rewrite !VirtAddr_from_usize_mod, VirtPageNum_from_usize_mod, !Z.mod_small by lia.
  rewrite floor_div, ceil_div by lia. split_and!; [done|done|lia|done].
Qed.

Lemma trap_range tid :
  0 <= tid < 1000 ->
  let t := trap_cx_bottom tid in
  floor (VirtAddr_from_usize t) = 2 ^ 27 - 2 - tid /\
  ceil (VirtAddr_from_usize (uadd t PAGE_SIZE)) = 2 ^ 27 - 1 - tid /\
  VirtPageNum_from_usize t = 2 ^ 27 - (2 + tid) * 4096.
Proof.
  intros Htid t. assert (Et : t = 2 ^ 64 - 8192 - tid * 4096).
  { unfold t, trap_cx_bottom. change TRAP_CONTEXT_BASE with (2 ^ 64 - 8192). unfold PAGE_SIZE.
    rewrite umul_small, usub_small by lia. lia. }
  rewrite Et, uadd_small by (unfold PAGE_SIZE; lia). unfold PAGE_SIZE.
  rewrite !VirtAddr_from_usize_mod, VirtPageNum_from_usize_mod.
  rewrite <- (Z.mod_unique (2 ^ 64 - 8192 - tid * 4096) (2 ^ 39) (2 ^ 25 - 1) (2 ^ 39 - 8192 - tid * 4096)) by lia.
  rewrite <- (Z.mod_unique (2 ^ 64 - 8192 - tid * 4096 + 4096) (2 ^ 39) (2 ^ 25 - 1) (2 ^ 39 - 4096 - tid * 4096)) by lia.
  rewrite <- (Z.mod_unique (2 ^ 64 - 8192 - tid * 4096) (2 ^ 27) (2 ^ 37 - 1) (2 ^ 27 - (2 + tid) * 4096)) by lia.
  rewrite floor_div, ceil_div by lia. split_and!; lia.
Qed.

(** * Claims *)

Section claims.
Context {F : Type} `{HL : FrameAllocatorLaws F}.
Implicit Types (s : mm F) (sp : AddressSpace) (live : gset Z).

(** C3: [fork] copies the address space: the child has the segments of the parent with
    the same permissions, every page of the child holds the bytes of the parent's page,
    in a frame that was free before, no two pages of the child share a frame, and no
    page of memory that was in use is changed, so writes of one process cannot reach
    the other. *)
Theorem fork_copies_memory s sp live strampoline :
  user_ok s sp live -> 0 <= strampoline < 2 ^ 56 -> (4096 | strampoline) ->
  (3 + 3 * length (concat (pages <$> segments sp)) <= fa_capacity (falloc s))%nat ->
  exists child s', from_existed_user strampoline sp s = Ok (child, s') /\
    shape <$> segments child = shape <$> segments sp /\
    (forall p, p ∈ live -> get_page (mem s') p = get_page (mem s) p) /\
    (forall v, v ∈ concat (pages <$> segments sp) -> exists f f' perm,
      maps_to s (page_table sp) v f perm /\ maps_to s' (page_table child) v f' perm /\
      f' ∉ live /\ get_page (mem s') f' = get_page (mem s) f) /\
    (forall v w f perm perm', v ∈ concat (pages <$> segments sp) -> w ∈ concat (pages <$> segments sp) ->
      maps_to s' (page_table child) v f perm -> maps_to s' (page_table child) w f perm' -> v = w).
Proof.
  intros [Hi Hsegs Hnd] Ha Hal Hcap.
  destruct (bare_forked s sp live strampoline (PT.inv_rep _ _ _ Hi) Ha Hal ltac:(lia)) as (s1 & cp & live1 & E & Hf & Hc).
  destruct (copy_segments_spec (segments sp) [] s sp live s1 cp live1 Hi Hsegs Hnd Hf ltac:(lia)) as (s2 & cp2 & live2 & E2 & Hf2).
  exists cp2, s2. destruct Hf2 as [_ _ Hiso Hsh _ Hpg _ Hinj]. split_and!; [|done| | |done].
  - unfold from_existed_user. apply st_bind_Ok in E as (b & sb & Eb & Em). st_step_by Eb. by st_step_by Em.
  - intros p Hp. by apply Hiso.
  - intros v Hv. destruct (Hpg v Hv) as (f & f' & perm & M1 & M2 & Hn & _ & _ & Hg). by exists f, f', perm.
Qed.

(** [add_segment_framed] gives every page of the range a zeroed frame of its own with
    the permission asked for and changes no other translation; removing the segment by
    its first page restores every translation and the list of segments, and returns
    exactly the data frames: what stays allocated was allocated before or is a page
    table. *)
Theorem segment_roundtrip s sp live start end_ perm :
  PT.inv s (page_table sp) live -> range_ok (floor start) (ceil end_) -> 0 <= perm < 256 ->
  (forall v, floor start <= v < ceil end_ -> PT.leaf (mem s) (PT.root_ppn (page_table sp)) v = None) ->
  (3 * Z.to_nat (ceil end_ - floor start) <= fa_capacity (falloc s))%nat ->
  Forall (fun x => range_l (vpn_range x) <> floor start) (segments sp) ->
  exists pt s1 seg s2 live2,
    add_segment_framed sp start end_ perm s = Ok (mkSpace pt (segments sp ++ [seg]), s1) /\
    (forall v, floor start <= v < ceil end_ -> exists f, maps_to s1 pt v f perm /\
       data_frames seg !! v = Some f /\ f ∉ live /\ get_page (mem s1) f = ∅) /\
    (forall v, page_ok v -> ~ floor start <= v < ceil end_ ->
       PT.leaf (mem s1) (PT.root_ppn pt) v = PT.leaf (mem s) (PT.root_ppn (page_table sp)) v) /\
    remove_segment_with_start_vpn (mkSpace pt (segments sp ++ [seg])) (floor start) s1 = Ok (mkSpace pt (segments sp), s2) /\
    PT.inv s2 pt live2 /\
    (forall v, page_ok v -> PT.leaf (mem s2) (PT.root_ppn pt) v = PT.leaf (mem s) (PT.root_ppn (page_table sp)) v) /\
    (forall v f, floor start <= v < ceil end_ -> data_frames seg !! v = Some f -> f ∉ live2).
Proof.
  intros Hi Hr Hperm Hl Hcap Hsegs. destruct (vpns_ok _ _ Hr) as (Hok & Hnd & _ & Hin).
  destruct (seg_map_framed s (page_table sp) live _ _ perm Hi Hr Hperm Hl Hcap) as (s1 & pt & live1 & seg & E & Hm).
  destruct (remove_last_segment s1 pt live1 (segments sp) seg (floor start) (ceil end_) (ms_inv _ _ _ _ _ _ _ _ _ Hm) Hr)
    as (s2 & live2 & seg' & E2 & Hu); [by rewrite (ms_range _ _ _ _ _ _ _ _ _ Hm)|by rewrite (ms_type _ _ _ _ _ _ _ _ _ Hm)|done|apply Hm|].
  pose proof (ms_root _ _ _ _ _ _ _ _ _ Hm) as Hroot.
  exists pt, s1, seg, s2, live2. split_and!; [|  | |done|apply Hu| |].
  - apply add_segment_framed_run; [|done]. destruct Hr. lia.
  - intros v Hv. apply Hin in Hv. destruct (mp_frame _ _ _ _ _ (ms_mapped _ _ _ _ _ _ _ _ _ Hm) v Hv) as (f & Hf & _ & _ & Hfr & Hfe).
    rewrite (ms_perm _ _ _ _ _ _ _ _ _ Hm) in Hfe. destruct (ms_fresh _ _ _ _ _ _ _ _ _ Hm v f Hv Hf) as [Hn Hz].
    exists f. split_and!; [split_and!; [exact Hfe|lia|lia|lia|lia]|done|done|done].
  - intros v Hv Hn. rewrite Hroot. apply (ms_leaf _ _ _ _ _ _ _ _ _ Hm); [|done]. by rewrite Hin.
  - intros v Hv. destruct (decide (floor start <= v < ceil end_)) as [Hd|Hd].
    + rewrite (proj2 (us_none _ _ _ _ _ _ _ _ Hu v (proj2 (Hin v) Hd))). by rewrite Hl.
    + assert (Hni : v ∉ vpns (mkRange (floor start) (ceil end_))) by (by rewrite Hin).
      rewrite (us_leaf _ _ _ _ _ _ _ _ Hu v Hni Hv), Hroot. by apply (ms_leaf _ _ _ _ _ _ _ _ _ Hm).
  - intros v f Hv Hf Hfl. apply (us_live _ _ _ _ _ _ _ _ Hu) in Hfl as [_ Hfl]. by apply (Hfl v); [apply Hin|].
Qed.

(** The stack and the trap context of a thread are never unmapped: releasing them
    looks for a segment whose first page number is the {e address} of the stack (a
    [usize] converted to a page number without dividing by the page size), finds none
    and changes nothing; so when the thread id is handed out again, mapping its stack
    hits the assertion of [PageTable::map] and the kernel panics. *)
Theorem tid_reuse_panics s sp live tid base :
  PT.inv s (page_table sp) live -> 0 <= tid < 1000 -> 0 < base -> (4096 | base) -> base + (tid + 1) * 12288 < 2 ^ 26 ->
  (forall v, (base + tid * 12288) / 4096 <= v < (base + tid * 12288) / 4096 + 2 \/ v = 2 ^ 27 - 2 - tid ->
     PT.leaf (mem s) (PT.root_ppn (page_table sp)) v = None) ->
  Forall (fun x => range_l (vpn_range x) <> base + tid * 12288 /\ range_l (vpn_range x) <> 2 ^ 27 - (2 + tid) * 4096)
    (segments sp) ->
  (12 <= fa_capacity (falloc s))%nat ->
  exists sp1 s1, alloc_user_resource (mkResource tid base) sp s = Ok (sp1, s1) /\
    dealloc_user_resource (mkResource tid base) sp1 s1 = Ok (sp1, s1) /\
    alloc_user_resource (mkResource tid base) sp1 s1 = Panic AssertFailed.
Proof.
  intros Hi Htid Hb Hal Hlt Hl Hsegs Hcap.
  destruct (stack_range tid base Htid Hb Hal Hlt) as (Eb & Efb & Ecb & Evb).
  destruct (trap_range tid Htid) as (Eft & Ect & Evt).
  set (b := (base + tid * 12288) / 4096) in *. set (t := 2 ^ 27 - 2 - tid) in *.
  assert (Hrb : range_ok b (b + 2)) by (unfold range_ok, b; lia).
  assert (Hrt : range_ok t (2 ^ 27 - 1 - tid)) by (unfold range_ok, t; lia).
  destruct (vpns_ok _ _ Hrb) as (_ & _ & Hlb & Hinb). destruct (vpns_ok _ _ Hrt) as (_ & _ & Hlt' & Hint).
  destruct (seg_map_framed s (page_table sp) live b (b + 2) (Z.lor (Z.lor PR PW) PU) Hi Hrb ltac:(by vm_compute))
    as (s1 & pt1 & live1 & seg1 & E1 & M1); [intros v Hv; apply Hl; by left|lia|].
  pose proof (ms_cap _ _ _ _ _ _ _ _ _ M1) as C1. rewrite Hlb in C1.
  destruct (seg_map_framed s1 pt1 live1 t (2 ^ 27 - 1 - tid) (Z.lor PR PW) (ms_inv _ _ _ _ _ _ _ _ _ M1) Hrt ltac:(by vm_compute))
    as (s2 & pt2 & live2 & seg2 & E2 & M2).
  { intros v Hv. assert (v = t) as -> by lia. rewrite (ms_root _ _ _ _ _ _ _ _ _ M1), (ms_leaf _ _ _ _ _ _ _ _ _ M1).
    - apply Hl. by right.
    - rewrite Hinb. unfold b, t. lia.
    - unfold t. lia. }
  { lia. }
  pose proof (ms_cap _ _ _ _ _ _ _ _ _ M2) as C2. rewrite Hlt' in C2.
  rewrite <- Ecb, <- Efb in E1. apply add_segment_framed_run in E1; [|lia].
  rewrite <- Eft, <- Ect in E2. apply (add_segment_framed_run (mkSpace pt1 (segments sp ++ [seg1]))) in E2; [|lia].
  exists (mkSpace pt2 ((segments sp ++ [seg1]) ++ [seg2])), s2.
  assert (Hns : Forall (fun x => range_l (vpn_range x) <> base + tid * 12288 /\ range_l (vpn_range x) <> 2 ^ 27 - (2 + tid) * 4096)
    ((segments sp ++ [seg1]) ++ [seg2])).
  { rewrite !Forall_app, !Forall_singleton, (ms_range _ _ _ _ _ _ _ _ _ M1), (ms_range _ _ _ _ _ _ _ _ _ M2). cbn.
    unfold b, t. split_and!; [done|lia|lia|lia|lia]. }
  split_and!.
  - unfold alloc_user_resource. cbn [user_stack_base AddressSpace.tid]. st_step_by E1. exact E2.
  - unfold dealloc_user_resource. cbn [user_stack_base AddressSpace.tid]. rewrite Evb, Evt.
    set (sp1 := mkSpace pt2 ((segments sp ++ [seg1]) ++ [seg2])). change ((segments sp ++ [seg1]) ++ [seg2]) with (segments sp1) in Hns.
    rewrite (st_bind_run _ _ s2 s2 sp1 (remove_no_segment sp1 _ s2 (Forall_impl _ _ _ Hns (fun x Hx => proj1 Hx)))).
    apply remove_no_segment. eapply Forall_impl; [exact Hns|]. by intros x [_ Hx].
  - destruct (mp_frame _ _ _ _ _ (ms_mapped _ _ _ _ _ _ _ _ _ M1) b) as (f & _ & _ & _ & _ & Hfe); [apply Hinb; lia|].
    rewrite <- (ms_leaf _ _ _ _ _ _ _ _ _ M2 b) in Hfe; [|rewrite Hint; unfold b, t; lia|unfold b; lia].
    rewrite <- (ms_root _ _ _ _ _ _ _ _ _ M2) in Hfe.
    unfold alloc_user_resource. cbn [user_stack_base AddressSpace.tid]. unfold mbind, st_bind.
    erewrite (add_segment_framed_panics s2 (mkSpace pt2 _) live2); [done|apply M2|by rewrite Efb, Ecb|lia|by rewrite Efb|lia].
Qed.
End claims.

(** Two ranges of [n] bytes with a guard page between them. *)
Definition guarded (a b n : Z) : Prop := a + n + PAGE_SIZE <= b \/ b + n + PAGE_SIZE <= a.

(** C34: the stacks of different threads never touch, for thread and kernel stack ids
    below 2^20 and a user stack base between 0 and 2^38: the user stacks of two threads of
    a process, and the kernel stacks of any two threads, are separated by at least one
    unmapped guard page; their trap contexts are whole pages that do not overlap, above
    every user stack and below the trampoline, as the kernel stacks are in the kernel's
    address space. *)
Theorem thread_stacks_disjoint base t1 t2 :
  0 <= t1 < 2 ^ 20 -> 0 <= t2 < 2 ^ 20 -> t1 <> t2 -> 0 < base < 2 ^ 38 ->
  guarded (user_stack_bottom base t1) (user_stack_bottom base t2) USER_STACK_SIZE /\
  (trap_cx_bottom t1 + PAGE_SIZE <= trap_cx_bottom t2 \/ trap_cx_bottom t2 + PAGE_SIZE <= trap_cx_bottom t1) /\
  trap_cx_bottom t1 mod PAGE_SIZE = 0 /\ trap_cx_bottom t1 + PAGE_SIZE <= TRAMPOLINE /\
  user_stack_top (mkResource t1 base) <= trap_cx_bottom t2 /\
  guarded (kernel_stack_position t1).1 (kernel_stack_position t2).1 KERNEL_STACK_SIZE /\
  (kernel_stack_position t1).2 = (kernel_stack_position t1).1 + KERNEL_STACK_SIZE /\
  (kernel_stack_position t1).2 <= TRAMPOLINE.
Proof.
  intros H1 H2 Hne Hb.
  assert (Hu : forall t, 0 <= t < 2 ^ 20 -> user_stack_bottom base t = base + t * 12288).
  { intros t Ht. unfold user_stack_bottom, PAGE_SIZE, USER_STACK_SIZE.
    rewrite (uadd_small 4096), umul_small, uadd_small by lia. lia. }
  assert (Ht : forall t, 0 <= t < 2 ^ 20 -> trap_cx_bottom t = 2 ^ 64 - 8192 - t * 4096).
  { intros t Ht. unfold trap_cx_bottom. change TRAP_CONTEXT_BASE with (2 ^ 64 - 8192). unfold PAGE_SIZE.
    rewrite umul_small, usub_small by lia. lia. }
  assert (Hk : forall t, 0 <= t < 2 ^ 20 ->
    kernel_stack_position t = (2 ^ 64 - 4096 - t * 12288 - 8192, 2 ^ 64 - 4096 - t * 12288)).
  { intros t Ht'. unfold kernel_stack_position. change TRAMPOLINE with (2 ^ 64 - 4096). unfold KERNEL_STACK_SIZE, PAGE_SIZE.
    rewrite (uadd_small 8192), umul_small, (usub_small (2 ^ 64 - 4096)), usub_small by lia. f_equal; lia. }
  unfold user_stack_top. cbn [tid user_stack_base]. rewrite !Hu, !Ht, !Hk by done. cbn [fst snd].
  change TRAMPOLINE with (2 ^ 64 - 4096). unfold guarded, PAGE_SIZE, USER_STACK_SIZE, KERNEL_STACK_SIZE.
  rewrite uadd_small by lia. split_and!; lia.
Qed.

Lemma thread_stacks_disjoint_witness :
  guarded (user_stack_bottom 81920 0) (user_stack_bottom 81920 1) USER_STACK_SIZE /\
  (trap_cx_bottom 0 + PAGE_SIZE <= trap_cx_bottom 1 \/ trap_cx_bottom 1 + PAGE_SIZE <= trap_cx_bottom 0) /\
  trap_cx_bottom 0 mod PAGE_SIZE = 0 /\ trap_cx_bottom 0 + PAGE_SIZE <= TRAMPOLINE /\
  user_stack_top (mkResource 0 81920) <= trap_cx_bottom 1 /\
  guarded (kernel_stack_position 0).1 (kernel_stack_position 1).1 KERNEL_STACK_SIZE /\
  (kernel_stack_position 0).2 = (kernel_stack_position 0).1 + KERNEL_STACK_SIZE /\
  (kernel_stack_position 0).2 <= TRAMPOLINE.
Proof. apply (thread_stacks_disjoint 81920 0 1); lia. Defined.

(** ** Witnesses over the frame allocator of the kernel *)

Section witnesses.
#[local] Existing Instance Frame.stack_frame_allocator_laws | 100.
Let laws := Frame.stack_frame_allocator_laws 16.

Lemma segment_roundtrip_witness :
  exists pt0 s pt s1 seg s2,
    add_segment_framed (mkSpace pt0 []) 20480 28672 6 s = Ok (mkSpace pt [seg], s1) /\
    remove_segment_with_start_vpn (mkSpace pt [seg]) 5 s1 = Ok (mkSpace pt [], s2).
Proof.
  destruct PT.demo_table as (pt0 & s & live & _ & Hi & Hr & Hc & Hl).
  destruct (segment_roundtrip (HL := laws) s (mkSpace pt0 []) live 20480 28672 6)
    as (pt & s1 & seg & s2 & live2 & E1 & _ & _ & E2 & _).
  - exact Hi.
  - by vm_compute.
  - lia.
  - intros v _. cbn. rewrite Hr. apply Hl.
  - change (3 * Z.to_nat (ceil 28672 - floor 20480))%nat with 6%nat. unfold laws. rewrite Hc. lia.
  - constructor.
  - exists pt0, s, pt, s1, seg, s2. split; [exact E1|exact E2].
Defined.

Lemma tid_reuse_panics_witness :
  exists pt0 s sp1 s1, alloc_user_resource (mkResource 1 81920) (mkSpace pt0 []) s = Ok (sp1, s1) /\
    dealloc_user_resource (mkResource 1 81920) sp1 s1 = Ok (sp1, s1) /\
    alloc_user_resource (mkResource 1 81920) sp1 s1 = Panic AssertFailed.
Proof.
  destruct PT.demo_table as (pt0 & s & live & _ & Hi & Hr & Hc & Hl). exists pt0, s.
  apply (tid_reuse_panics (HL := laws) s (mkSpace pt0 []) live 1 81920); [exact Hi|lia|lia|by exists 20|lia| |constructor|].
  - intros v _. cbn. rewrite Hr. apply Hl.
  - unfold laws. rewrite Hc. lia.
Defined.

(** A user space with one segment of two pages. *)
Lemma demo_user : exists s sp live, user_ok (HL := laws) s sp live /\
  (fa_capacity (FrameAllocatorLaws := laws) (falloc s) >= 41)%nat /\
  length (concat (pages <$> segments sp)) = 2%nat.
Proof.
  destruct PT.demo_table as (pt0 & s & live & _ & Hi & Hr & Hc & Hl).
  assert (Hrg : range_ok 5 7) by (by vm_compute).
  destruct (seg_map_framed (HL := laws) s pt0 live 5 7 22 Hi Hrg ltac:(lia)) as (s' & pt' & live' & seg' & _ & M).
  { intros v _. rewrite Hr. apply Hl. }
  { unfold laws. rewrite Hc. change (3 * Z.to_nat (7 - 5))%nat with 6%nat. lia. }
  destruct (vpns_ok 5 7 Hrg) as (_ & Hnd & Hlen & Hin). pose proof (ms_range _ _ _ _ _ _ _ _ _ M) as Er. cbn in Er.
  exists s', (mkSpace pt' [seg']), live'. split_and!.
  - split; cbn [page_table segments].
    + apply M.
    + constructor; [|constructor]. split; [by rewrite Er|by rewrite (ms_type _ _ _ _ _ _ _ _ _ M)|by rewrite (ms_perm _ _ _ _ _ _ _ _ _ M)|].
      unfold pages. rewrite Er. intros v Hv. split; [apply Hin in Hv; unfold tramp_vpn; lia|].
      destruct (mp_frame _ _ _ _ _ (ms_mapped _ _ _ _ _ _ _ _ _ M) v Hv) as (f & _ & Hfl & Hfn & Hfr & Hfe).
      exists f. split_and!; [|done|done]. split; [exact Hfe|]. split; [lia|]. by rewrite (ms_perm _ _ _ _ _ _ _ _ _ M).
    + cbn. unfold pages. rewrite Er, app_nil_r. exact Hnd.
  - pose proof (ms_cap _ _ _ _ _ _ _ _ _ M) as Hcap. rewrite Hlen in Hcap. unfold laws in *. rewrite Hc in Hcap.
    change (3 * Z.to_nat (7 - 5))%nat with 6%nat in Hcap. lia.
  - cbn. unfold pages. rewrite Er, app_nil_r. exact Hlen.
Qed.

Lemma fork_copies_memory_witness :
  exists (s : mm Frame.StackFrameAllocator) sp child s', length (concat (pages <$> segments sp)) = 2%nat /\
    from_existed_user 4096 sp s = Ok (child, s') /\
    shape <$> segments child = shape <$> segments sp.
Proof.
  destruct demo_user as (s & sp & live & Hok & Hc & Hlen).
  destruct (fork_copies_memory (HL := laws) s sp live 4096 Hok ltac:(lia) ltac:(by exists 1)) as (child & s' & E & Hs & _).
  - rewrite Hlen. unfold laws in *. lia.
  - exists s, sp, child, s'. split_and!; [exact Hlen|exact E|exact Hs].
Defined.
End witnesses.
