(* ===== verification/KernelSpace.v ===== *)
(** The address space of the kernel: [init] of os/src/mm/mod.rs with [new_kernel] and
    [remap_test] of address_space.rs, [init_heap] of heap_allocator.rs and
    [init_frame_allocator] of frame_allocator.rs.

    [AddressSpace] has [new_kernel] itself.  Here it is shown what it maps.  The kernel maps
    all of physical memory, far more pages than there are frames for tables if each page
    needed its own, so the frames that are needed are counted by the tables that are
    missing ([absent]).  The heap is in .bss: the words that [init_heap] writes there are put
    into the memory that the tables are then built in ([with_heap]). *)

From S2P Require Import Prelude Address Alloc Memory PageTable UserBuffer Virtio AddressSpace Buddy.

#[local] Ltac Zify.zify_post_hook ::= Z.to_euclidean_division_equations.

(** * mm/mod.rs *)

(** What linker-qemu.ld leaves open: the ends of the sections, which follow each other from
    [BASE_ADDRESS] on, and where the trampoline is. *)
Definition BASE_ADDRESS : Z := 0x80000000.
Record image := mkImage { etext : Z; erodata : Z; edata : Z; ekernel : Z; strampoline : Z; HEAP_SPACE : Z }.

Definition sections (i : image) : list (Z * Z * Z) :=
  kernel_sections BASE_ADDRESS (etext i) (etext i) (erodata i) (erodata i) (edata i) (edata i) (ekernel i) (ekernel i).

(** The state that [init] leaves, with the control register that [activate] writes.  [k_heap]
    is the heap as [init_heap] sets it up; what the collections then allocate from it are
    values here. *)
Record kernel := mkKernel { k_heap : Buddy.heap; k_mm : mm Frame.StackFrameAllocator; KERNEL_SPACE : AddressSpace; csr_satp : Z }.

Definition init_heap (i : image) : ST Buddy.heap unit := Buddy.init (HEAP_SPACE i) KERNEL_HEAP_SIZE.

Definition init_frame_allocator (i : image) : Frame.StackFrameAllocator -> Frame.StackFrameAllocator :=
  Frame.init (ceil (PhysAddr_from_usize (ekernel i))) (floor (PhysAddr_from_usize MEMORY_END)).

Definition activate (sp : AddressSpace) : Z := satp sp.

(** The free lists are threaded through the heap itself, which is in .bss. *)
Definition with_heap (h : Buddy.heap) (m : pmem) : pmem :=
  map_fold (fun a v m => write_word m (a / 4096) (a mod 4096 / 8) v) m (Buddy.words h).

Definition init (i : image) (m : pmem) : res kernel :=
  '(_, h) ← init_heap i Buddy.empty;
  let fa := init_frame_allocator i Frame.new in
  '(sp, s) ← new_kernel (strampoline i) (sections i) (mkMM (with_heap h m) fa);
  Ok (mkKernel h s sp (activate sp)).

(** [assert!(!table.translate(va.floor()).unwrap().writable())] and the like *)
Definition check_flag (flag : Z -> res bool) (sp : AddressSpace) (va : Z) : ST (mm Frame.StackFrameAllocator) unit :=
  o ← translate sp (floor va);
  e ← lift (unwrap o);
  b ← lift (flag e);
  lift (rassert (negb b)).

Definition remap_test (i : image) (kernel_space : AddressSpace) : ST (mm Frame.StackFrameAllocator) unit :=
  let mid_text := VirtAddr_from_usize (uadd BASE_ADDRESS (etext i) / 2) in
  let mid_rodata := VirtAddr_from_usize (uadd (etext i) (erodata i) / 2) in
  let mid_data := VirtAddr_from_usize (uadd (erodata i) (edata i) / 2) in
  check_flag PTE.writable kernel_space mid_text;;
  check_flag PTE.writable kernel_space mid_rodata;;
  check_flag PTE.executable kernel_space mid_data.

(** * Identical segments *)

Section mapping.
Context {F : Type} `{HL : FrameAllocatorLaws F}.
Implicit Types (s : mm F) (pt : PT.PageTable) (live : gset Z) (seg : MemorySegment).

(** The tables that may be needed. *)
Context (P : list (list Z)) (Hnd : NoDup P) (Hpath : Forall PT.is_path P).

Definition absent (m : pmem) (root : Z) : nat := sum_list_with (PT.lacks m root) P.
Definition covered (v : Z) : Prop := PT.dir1 v ∈ P /\ PT.dir v ∈ P.

Lemma sum_list_with_le {A} (f g : A -> nat) (l : list A) :
  (forall x, x ∈ l -> (f x <= g x)%nat) -> (sum_list_with f l <= sum_list_with g l)%nat.
Proof.
  induction l as [|x l IH]; intros Hfg; cbn; [lia|]. pose proof (Hfg x ltac:(by left)).
  assert (sum_list_with f l <= sum_list_with g l)%nat by (apply IH; intros y Hy; apply Hfg; by right). lia.
Qed.

(** The tables under [v], and the others. *)
Lemma covered_split v : covered v -> exists Q, P ≡ₚ PT.dir1 v :: PT.dir v :: Q.
Proof.
  intros [[P1 E1]%elem_of_Permutation H2]. rewrite E1 in H2. apply elem_of_cons in H2 as [H2|[P2 E2]%elem_of_Permutation]; [done|].
  exists P2. by rewrite E1, E2.
Qed.

Lemma absent_split m root v Q : P ≡ₚ PT.dir1 v :: PT.dir v :: Q -> absent m root = (PT.missing m root v + sum_list_with (PT.lacks m root) Q)%nat.
Proof. intros E. unfold absent, PT.missing. rewrite E. cbn. lia. Qed.

Lemma absent_spend m m' root v :
  covered v -> (forall p t, PT.is_path p -> PT.walk m root p = Some t -> PT.walk m' root p = Some t) -> PT.missing m' root v = 0%nat ->
  (absent m' root + PT.missing m root v <= absent m root)%nat.
Proof.
  intros [Q E]%covered_split Hmono Hz. rewrite !(absent_split _ _ _ _ E), Hz.
  assert (sum_list_with (PT.lacks m' root) Q <= sum_list_with (PT.lacks m root) Q)%nat; [|lia]. apply sum_list_with_le. intros p Hp.
  assert (Hpp : PT.is_path p). { rewrite Forall_forall in Hpath. apply Hpath. rewrite E. by do 2 right. }
  unfold PT.lacks. destruct (PT.walk m root p) eqn:Ew; [by rewrite (Hmono p _ Hpp Ew)|case_match; lia].
Qed.

Lemma missing_absent m root v : covered v -> (PT.missing m root v <= absent m root)%nat.
Proof. intros [Q E]%covered_split. rewrite (absent_split _ _ _ _ E). lia. Qed.

(** What mapping does: the entries [E] are added, and the tables that this takes are fresh
    frames, of which there were enough. *)
Record extends s pt live (E : Z -> option Z) s' pt' live' : Prop := {
  x_inv : PT.inv s' pt' live';
  x_root : PT.root_ppn pt' = PT.root_ppn pt;
  x_live : live ⊆ live';
  x_leaf : forall v, page_ok v -> PT.leaf (mem s') (PT.root_ppn pt) v = match E v with Some e => Some e | None => PT.leaf (mem s) (PT.root_ppn pt) v end;
  x_page : forall p, p ∉ PT.frames pt' -> get_page (mem s') p = get_page (mem s) p;
  x_frames : PT.frames pt ⊆ PT.frames pt';
  x_fresh : forall p, p ∈ PT.frames pt' -> p ∈ PT.frames pt \/ p ∉ live;
  x_room : (absent (mem s') (PT.root_ppn pt) <= fa_capacity (falloc s'))%nat;
}.

Lemma extends_refl s pt live :
  PT.inv s pt live -> (absent (mem s) (PT.root_ppn pt) <= fa_capacity (falloc s))%nat -> extends s pt live (fun _ => None) s pt live.
Proof. intros Hi Hc. split; try done. by left. Qed.

Lemma extends_trans s pt live E1 s1 pt1 live1 E2 s2 pt2 live2 :
  extends s pt live E1 s1 pt1 live1 -> extends s1 pt1 live1 E2 s2 pt2 live2 ->
  extends s pt live (fun v => match E2 v with Some e => Some e | None => E1 v end) s2 pt2 live2.
Proof.
  intros [I1 R1 L1 Le1 Pg1 Fr1 Fs1 C1] [I2 R2 L2 Le2 Pg2 Fr2 Fs2 C2]. rewrite R1 in *. split; try done; try congruence; try (by etrans).
  - intros v Hv. rewrite Le2 by done. destruct (E2 v); [done|]. by apply Le1.
  - intros p Hp. rewrite Pg2, Pg1 by set_solver. done.
  - intros p Hp. destruct (Fs2 p Hp) as [Hp'|Hp']; [by apply Fs1|]. right. set_solver.
Qed.

Lemma extends_ext s pt live E E' s' pt' live' :
  (forall v, page_ok v -> E v = E' v) -> extends s pt live E s' pt' live' -> extends s pt live E' s' pt' live'.
Proof. intros HE [I R L Le Pg Fr Fs C]. split; try done. intros v Hv. rewrite <- HE by done. by apply Le. Qed.

(** One page. *)
Lemma map_extends s pt live v ppn perm :
  PT.inv s pt live -> page_ok v -> 0 <= ppn < 2 ^ 44 -> 0 <= perm < 256 -> covered v ->
  PT.leaf (mem s) (PT.root_ppn pt) v = None -> (absent (mem s) (PT.root_ppn pt) <= fa_capacity (falloc s))%nat ->
  exists s' pt' live', PT.map pt v ppn perm s = Ok (pt', s') /\
    extends s pt live (fun w => if decide (w = v) then Some (PTE.new ppn (Z.lor perm PTE.V)) else None) s' pt' live'.
Proof.
  intros Hi Hv Hp Hperm Hcov Hl Hc. pose proof (missing_absent (mem s) (PT.root_ppn pt) v Hcov).
  destruct (PT.map_frugal (HL := HL) s pt live v ppn perm Hi Hv Hp Hperm Hl ltac:(lia))
    as (pt' & s' & E & Hi' & Hr & Hsub & Hleaf & Hpg & Hfr & Hcap & Hmono & Hz).
  exists s', pt', (live ∪ list_to_set (PT.frames pt')). split; [done|]. split; try done.
  - set_solver.
  - intros w Hw. rewrite Hleaf by done. by case_decide.
  - pose proof (absent_spend (mem s) (mem s') (PT.root_ppn pt) v Hcov Hmono Hz). lia.
Qed.

(** The pages [l] of an identical segment. *)
Definition identical (perm : Z) (l : list Z) (v : Z) : option Z := if decide (v ∈ l) then Some (PTE.new v (Z.lor perm PTE.V)) else None.

Lemma map_loop_identical l s pt live seg :
  PT.inv s pt live -> Forall page_ok l -> NoDup l -> Forall covered l -> map_type seg = Identical -> 0 <= permission seg < 256 ->
  (forall v, v ∈ l -> PT.leaf (mem s) (PT.root_ppn pt) v = None) -> (absent (mem s) (PT.root_ppn pt) <= fa_capacity (falloc s))%nat ->
  exists s' pt' live', map_loop l seg pt s = Ok ((seg, pt'), s') /\ extends s pt live (identical (permission seg) l) s' pt' live'.
Proof.
  revert s pt live. induction l as [|v l IH]; intros s pt live Hi Hok Hndl Hcov Hmt Hperm Hl Hc.
  { exists s, pt, live. split; [done|]. eapply extends_ext; [|by apply extends_refl]. intros v _. unfold identical. by rewrite decide_False by apply not_elem_of_nil. }
  apply Forall_cons in Hok as [Hv Hok]. apply NoDup_cons in Hndl as [Hni Hndl]. apply Forall_cons in Hcov as [Hcv Hcov].
  destruct (map_extends s pt live v v (permission seg) Hi Hv ltac:(unfold page_ok in Hv; lia) Hperm Hcv (Hl v ltac:(by left)) Hc) as (s1 & pt1 & live1 & E1 & X1).
  assert (Hpl : forall w, w ∈ l -> page_ok w) by (by apply Forall_forall).
  destruct (IH s1 pt1 live1) as (s2 & pt2 & live2 & E2 & X2); [apply X1|done|done|done|done|done| |rewrite (x_root _ _ _ _ _ _ _ X1); apply X1|].
  { intros w Hw. rewrite (x_root _ _ _ _ _ _ _ X1), (x_leaf _ _ _ _ _ _ _ X1) by auto. rewrite decide_False by (by intros ->). apply Hl. by right. }
  exists s2, pt2, live2. split.
  - cbn [map_loop]. assert (Em : map_page seg pt v s = Ok ((seg, pt1), s1)) by (unfold map_page; rewrite Hmt; by st_step_by E1). by st_step_by Em.
  - eapply extends_ext; [|by eapply extends_trans]. intros w Hw. unfold identical. cbn. destruct (decide (w ∈ l)) as [Hin|Hnin].
    + by rewrite decide_True by (by right).
    + destruct (decide (w = v)) as [->|Hne]; [by rewrite decide_True by (by left)|]. rewrite decide_False; [done|]. by intros [->|]%elem_of_cons.
Qed.

(** ** A list of sections *)

Definition first_page (x : Z * Z * Z) : Z := x.1.1 / 4096.
Definition end_page (x : Z * Z * Z) : Z := (x.1.2 + 4095) / 4096.
Definition section_pages (x : Z * Z * Z) : list Z := seqZ (first_page x) (end_page x - first_page x).

Definition section_ok (x : Z * Z * Z) : Prop := 0 <= x.1.1 <= x.1.2 /\ x.1.2 < 2 ^ 38 /\ 0 <= x.2 < 256 /\ Forall covered (section_pages x).
Definition apart (x y : Z * Z * Z) : Prop := end_page x <= first_page y \/ end_page y <= first_page x.
Definition inside (v : Z) (x : Z * Z * Z) : Prop := first_page x <= v < end_page x.

Fixpoint entries (secs : list (Z * Z * Z)) (v : Z) : option Z :=
  match secs with
  | [] => None
  | x :: rest => match entries rest v with Some e => Some e | None => identical x.2 (section_pages x) v end
  end.

Lemma elem_of_section v x : v ∈ section_pages x <-> inside v x.
Proof. unfold section_pages, inside. rewrite elem_of_seqZ. lia. Qed.

Lemma entries_out secs v : Forall (fun x => ~ inside v x) secs -> entries secs v = None.
Proof.
  induction 1 as [|x secs Hx _ IH]; [done|]. cbn [entries]. rewrite IH. unfold identical. rewrite decide_False; [done|]. by rewrite elem_of_section.
Qed.

Lemma entries_in secs v x : ForallOrdPairs apart secs -> x ∈ secs -> inside v x -> entries secs v = Some (PTE.new v (Z.lor x.2 PTE.V)).
Proof.
  induction 1 as [|y secs Hy Hap IH]; intros Hin Hv; [by apply elem_of_nil in Hin|]. cbn [entries]. apply elem_of_cons in Hin as [->|Hin].
  - rewrite entries_out.
    + unfold identical. by rewrite decide_True by (by apply elem_of_section).
    + eapply Forall_impl; [exact Hy|]. intros z Hz. unfold inside, apart in *. lia.
  - by rewrite IH.
Qed.

Lemma add_identical_app l1 l2 sp s : add_identical (l1 ++ l2) sp s = (sp' ← add_identical l1 sp; add_identical l2 sp') s.
Proof.
  revert sp s. induction l1 as [|[[a e] perm] l1 IH]; intros sp s; [done|]. cbn [add_identical app]. unfold mbind, st_bind in *.
  destruct (lift _ s) as [[seg s1]|]; [|done]. destruct (add_segment sp seg None s1) as [[sp1 s2]|]; [|done]. apply IH.
Qed.

Lemma add_identical_extends secs s sp live :
  PT.inv s (page_table sp) live -> Forall section_ok secs -> ForallOrdPairs apart secs ->
  (forall x v, x ∈ secs -> inside v x -> PT.leaf (mem s) (PT.root_ppn (page_table sp)) v = None) ->
  (absent (mem s) (PT.root_ppn (page_table sp)) <= fa_capacity (falloc s))%nat ->
  exists s' sp' live', add_identical secs sp s = Ok (sp', s') /\ extends s (page_table sp) live (entries secs) s' (page_table sp') live'.
Proof.
  revert s sp live. induction secs as [|x secs IH]; intros s sp live Hi Hok Hap Hl Hc.
  { exists s, sp, live. split; [done|]. by apply extends_refl. }
  apply Forall_cons in Hok as [Hx Hok]. inversion Hap as [|? ? Hxs Haps]; subst. destruct x as [[a e] perm]. destruct Hx as (Hae & He & Hperm & Hcov). cbn [fst snd] in *.
  assert (Hrange : range_ok (a / 4096) ((e + 4095) / 4096)) by (unfold range_ok; lia).
  destruct (vpns_ok _ _ Hrange) as (Hpok & Hndl & _ & Hin).
  assert (Hpg : section_pages (a, e, perm) = vpns (mkRange (a / 4096) ((e + 4095) / 4096))) by (unfold section_pages, first_page, end_page; cbn [fst snd]; rewrite vpns_seqZ by (unfold range_ok in Hrange; lia); done).
  set (seg := mkSegment (mkRange (a / 4096) ((e + 4095) / 4096)) ∅ Identical perm).
  destruct (map_loop_identical (vpns (mkRange (a / 4096) ((e + 4095) / 4096))) s (page_table sp) live seg Hi Hpok Hndl) as (s1 & pt1 & live1 & E1 & X1); [by rewrite <- Hpg|done|done| |done|].
  { intros v Hv. rewrite <- Hpg in Hv. apply elem_of_section in Hv. by apply (Hl (a, e, perm)); [left|]. }
  destruct (IH s1 (mkSpace pt1 (segments sp ++ [seg])) live1) as (s2 & sp2 & live2 & E2 & X2); [apply X1|done|done| |cbn; rewrite (x_root _ _ _ _ _ _ _ X1); apply X1|].
  { intros y v Hy Hv. cbn [page_table]. assert (Hvok : page_ok v).
    { rewrite Forall_forall in Hok. destruct (Hok y Hy) as (H1 & H2 & _). unfold page_ok, inside, first_page, end_page in *. lia. }
    rewrite (x_root _ _ _ _ _ _ _ X1), (x_leaf _ _ _ _ _ _ _ X1) by done. unfold identical. rewrite decide_False.
    - by apply (Hl y); [right|].
    - rewrite <- Hpg, elem_of_section. rewrite Forall_forall in Hxs. specialize (Hxs y Hy). unfold apart, inside in *. lia. }
  exists s2, sp2, live2. split.
  - cbn [add_identical]. assert (Es : MemorySegment_new (VirtAddr_from_usize a) (VirtAddr_from_usize e) Identical perm = Ok seg).
    { unfold MemorySegment_new. rewrite !VirtAddr_from_usize_mod, !Z.mod_small by lia. rewrite floor_div, ceil_div by lia. rewrite SimpleRange_new_ok by (unfold range_ok in Hrange; lia). done. }
    rewrite Es. st_step. assert (Ea : add_segment sp seg None s = Ok (mkSpace pt1 (segments sp ++ [seg]), s1)) by (unfold add_segment, seg_map; by st_step_by E1).
    by st_step_by Ea.
  - cbn [entries snd]. rewrite Hpg. by eapply extends_trans.
Qed.

Lemma absent_length m root : (absent m root <= length P)%nat.
Proof. unfold absent. clear Hnd Hpath. induction P as [|p Q IH]; cbn; [lia|]. unfold PT.lacks at 1. case_match; lia. Qed.

(** The kernel's space: the trampoline, then the sections and the device registers. *)
Lemma new_kernel_maps s live strampoline secs :
  let all := secs ++ ((fun '(a, n) => (a, uadd a n, Z.lor PR PW)) <$> MMIO) in
  fa_rep (falloc s) live -> 0 <= strampoline < 2 ^ 56 -> (4096 | strampoline) ->
  Forall section_ok all -> ForallOrdPairs apart all -> Forall (fun x => ~ inside tramp_vpn x) all -> covered tramp_vpn ->
  (length P < fa_capacity (falloc s))%nat ->
  exists sp s' live', new_kernel strampoline secs s = Ok (sp, s') /\ PT.inv s' (page_table sp) live' /\ live ⊆ live' /\
    (forall v, page_ok v -> PT.leaf (mem s') (PT.root_ppn (page_table sp)) v =
      match entries all v with Some e => Some e | None => if decide (v = tramp_vpn) then Some (PTE.new (strampoline / 4096) (Z.lor (Z.lor PR PX) PTE.V)) else None end) /\
    (forall p, p ∉ PT.frames (page_table sp) -> get_page (mem s') p = get_page (mem s) p).
Proof.
  intros all Hrep Hst Hal Hok Hap Htr Hct Hcap.
  assert (Etp : PhysPageNum_from_PhysAddr (PhysAddr_from_usize strampoline) = Ok (strampoline / 4096)).
  { unfold PhysPageNum_from_PhysAddr. rewrite PhysAddr_from_usize_mod, Z.mod_small by lia. rewrite page_offset_mod, floor_div.
    by rewrite (proj2 (Z.mod_divide strampoline 4096 ltac:(lia)) Hal). }
  destruct (PT.PageTable_new_correct (HL := HL) s live Hrep ltac:(lia)) as (f & fa & E & Hi & Hf & Hfr & Hl & Hc).
  pose proof (absent_length (zero_page (mem s) f) f) as Hab.
  destruct (map_extends (mkMM (zero_page (mem s) f) fa) (PT.mkPageTable f [f]) ({[f]} ∪ live) tramp_vpn (strampoline / 4096) (Z.lor PR PX))
    as (s1 & pt1 & live1 & E1 & X1); [done|by vm_compute|lia|by vm_compute|done|apply Hl|cbn; lia|].
  cbn [PT.root_ppn] in *.
  destruct (add_identical_extends all s1 (mkSpace pt1 []) live1) as (s2 & sp & live2 & E2 & X2); [apply X1|done|done| |cbn; rewrite (x_root _ _ _ _ _ _ _ X1); apply X1|].
  { intros x v Hx Hv. cbn [page_table]. rewrite (x_root _ _ _ _ _ _ _ X1). cbn [PT.root_ppn]. rewrite Forall_forall in Htr, Hok.
    assert (Hvok : page_ok v) by (destruct (Hok x Hx) as (H1 & H2 & _); unfold page_ok, inside, first_page, end_page in *; lia).
    pose proof (x_leaf _ _ _ _ _ _ _ X1 v Hvok) as Hlf. cbn [PT.root_ppn mem] in Hlf. rewrite Hlf, decide_False by (intros ->; by apply (Htr x)). apply Hl. }
  exists sp, s2, live2. cbn [page_table] in *. pose proof (x_root _ _ _ _ _ _ _ X1) as R1. cbn [PT.root_ppn] in R1. split_and!.
  - assert (Eb : new_bare s = Ok (mkSpace (PT.mkPageTable f [f]) [], mkMM (zero_page (mem s) f) fa)) by (unfold new_bare; by st_step_by E).
    unfold new_kernel. st_step_by Eb.
    assert (Et : map_trampoline strampoline (mkSpace (PT.mkPageTable f [f]) []) (mkMM (zero_page (mem s) f) fa) = Ok (mkSpace pt1 [], s1)).
    { unfold map_trampoline. rewrite trampoline_vpn. st_step. rewrite Etp. st_step. by st_step_by E1. }
    st_step_by Et. rewrite <- E2. unfold all. by rewrite add_identical_app.
  - apply X2.
  - pose proof (x_live _ _ _ _ _ _ _ X1). pose proof (x_live _ _ _ _ _ _ _ X2). set_solver.
  - intros v Hv. rewrite (x_root _ _ _ _ _ _ _ X2), (x_leaf _ _ _ _ _ _ _ X2) by done. destruct (entries all v); [done|].
    rewrite R1. pose proof (x_leaf _ _ _ _ _ _ _ X1 v Hv) as Hlf. cbn [PT.root_ppn mem] in Hlf. rewrite Hlf. case_decide; [done|apply Hl].
  - intros p Hp. assert (Hp1 : p ∉ PT.frames pt1) by (pose proof (x_frames _ _ _ _ _ _ _ X2); set_solver).
    rewrite (x_page _ _ _ _ _ _ _ X2), (x_page _ _ _ _ _ _ _ X1) by done. cbn [mem]. unfold zero_page. rewrite get_page_insert, decide_False; [done|].
    intros ->. apply Hp1, (x_frames _ _ _ _ _ _ _ X1). by left.
Qed.
End mapping.

(** * The kernel of acore *)

(** The tables of the kernel: one of the second and one of the third level for the
    trampoline, one and three for the device registers, and one and 64 for 128 MB of memory. *)
Definition tables : list (list Z) :=
  [[0]; [2]; [511]; [0; 0]; [0; 16]; [0; 128]; [511; 511]] ++ ((fun i => [2; i]) <$> seqZ 0 64).

Record linked (i : image) : Prop := {
  li_etext : BASE_ADDRESS <= strampoline i < etext i;
  li_order : etext i < erodata i /\ erodata i < edata i /\ edata i <= ekernel i;
  li_room : ekernel i + 128 * 4096 <= MEMORY_END;
  li_align : (4096 | strampoline i) /\ (4096 | etext i) /\ (4096 | erodata i) /\ (4096 | edata i) /\ (4096 | ekernel i);
  li_heap : edata i <= HEAP_SPACE i /\ HEAP_SPACE i + KERNEL_HEAP_SIZE <= ekernel i;
}.

(** Device registers, with the permission they are mapped with. *)
Definition devices : list (Z * Z * Z) := (fun '(a, n) => (a, uadd a n, Z.lor PR PW)) <$> MMIO.
Definition regions (i : image) : list (Z * Z * Z) := sections i ++ devices.

Lemma devices_eq : devices = [(0x100000, 0x101000, 6); (0x101000, 0x102000, 6); (0x2000000, 0x2010000, 6); (0x10000000, 0x10000100, 6); (0x10001000, 0x10002000, 6)].
Proof. by vm_compute. Qed.

Lemma tables_nodup : NoDup tables.
Proof. apply (bool_decide_unpack _). by vm_compute. Qed.

Lemma tables_paths : Forall PT.is_path tables.
Proof.
  apply Forall_forall. intros p [Hp|Hp]%elem_of_app.
  - repeat (apply elem_of_cons in Hp as [->|Hp]; [split; [cbn; lia|repeat constructor; unfold PT.is_index; lia]|]). by apply elem_of_nil in Hp.
  - apply list_elem_of_fmap in Hp as (i & -> & Hi%elem_of_seqZ). split; [cbn; lia|]. repeat constructor; unfold PT.is_index; lia.
Qed.

Lemma ram_covered v : 0x80000 <= v < 0x88000 -> covered tables v.
Proof.
  intros Hv. unfold covered, PT.dir1, PT.dir. replace (v / 2 ^ 18 mod 512) with 2 by lia. split.
  - apply elem_of_app. left. by do 1 right; left.
  - apply elem_of_app. right. apply list_elem_of_fmap. exists (v / 2 ^ 9 mod 512). split; [done|]. apply elem_of_seqZ. lia.
Qed.

#[local] Instance covered_dec P v : Decision (covered P v).
Proof. unfold covered. apply _. Defined.

Lemma devices_covered : Forall (fun x => Forall (covered tables) (section_pages x)) devices.
Proof. apply (bool_decide_unpack _). by vm_compute. Qed.

Section layout.
Context (i : image) (Hli : linked i).

(** The sections in pages. *)
Lemma sections_paged : exists t r d k, 0x80000 < t < r /\ r < d /\ d <= k /\ k + 128 <= 0x88000 /\ ekernel i = k * 4096 /\
  sections i = [(0x80000 * 4096, t * 4096, 10); (t * 4096, r * 4096, 2); (r * 4096, d * 4096, 6); (d * 4096, k * 4096, 6); (k * 4096, 0x88000 * 4096, 6)].
Proof.
  destruct Hli as [He (Ho1 & Ho2 & Ho3) Hr (_ & [t Ht] & [r Hr'] & [d Hd] & [k Hk]) _]. exists t, r, d, k. unfold BASE_ADDRESS, MEMORY_END in *.
  split_and!; try lia. unfold sections, kernel_sections. rewrite Ht, Hr', Hd, Hk. done.
Qed.

Ltac each_region :=
  repeat match goal with
  | |- ForallOrdPairs _ [] => apply FOP_nil
  | |- ForallOrdPairs _ (_ :: _) => apply FOP_cons
  | |- Forall _ [] => apply Forall_nil_2
  | |- Forall _ (_ :: _) => apply Forall_cons; split
  end.

Lemma regions_apart : ForallOrdPairs apart (regions i).
Proof.
  destruct sections_paged as (t & r & d & k & H1 & H2 & H3 & H4 & _ & E). unfold regions. rewrite E, devices_eq. cbn [app].
  each_region; unfold apart, first_page, end_page; cbn [fst snd]; lia.
Qed.

Lemma regions_no_trampoline : Forall (fun x => ~ inside tramp_vpn x) (regions i).
Proof.
  destruct sections_paged as (t & r & d & k & H1 & H2 & H3 & H4 & _ & E). unfold regions. rewrite E, devices_eq. cbn [app].
  each_region; unfold inside, tramp_vpn, first_page, end_page; cbn [fst snd]; lia.
Qed.

Lemma regions_ok : Forall (section_ok tables) (regions i).
Proof.
  destruct sections_paged as (t & r & d & k & H1 & H2 & H3 & H4 & _ & E). unfold regions. apply Forall_app. split.
  - rewrite E. each_region; (split_and!; cbn [fst snd]; [lia..|]); apply Forall_forall; intros v Hv%elem_of_section; unfold inside, first_page, end_page in Hv; cbn [fst snd] in Hv;
      apply ram_covered; lia.
  - pose proof devices_covered as Hc. rewrite Forall_forall in Hc. apply Forall_forall. intros x Hx. specialize (Hc x Hx). rewrite devices_eq in Hx.
    repeat (apply elem_of_cons in Hx as [->|Hx]; [split_and!; cbn [fst snd]; [lia..|exact Hc]|]). by apply elem_of_nil in Hx.
Qed.
End layout.

Lemma entries_Some secs v e : entries secs v = Some e -> exists x, x ∈ secs /\ inside v x /\ e = PTE.new v (Z.lor x.2 PTE.V).
Proof.
  induction secs as [|x secs IH]; [done|]. cbn [entries]. destruct (entries secs v) as [e'|].
  - intros [= ->]. destruct IH as (y & Hy & Hv & ->); [done|]. exists y. split_and!; [by right|done|done].
  - unfold identical. case_decide as Hin; [|done]. intros [= <-]. exists x. split_and!; [by left|by apply elem_of_section|done].
Qed.

Lemma check_flag_passes flag k s sp va p f :
  (forall e, flag e = Ok (Z.testbit e k)) -> 0 <= k < 10 -> 0 <= p < 2 ^ 44 -> 0 <= f < 2 ^ 10 -> Z.testbit f k = false ->
  PT.leaf (mem s) (PT.root_ppn (page_table sp)) (va / 4096) = Some (PTE.new p f) -> check_flag flag sp va s = Ok (tt, s).
Proof.
  intros Hflag Hk Hp Hf Hb Hl. unfold check_flag, translate. rewrite floor_div. st_step_by (PT.translate_leaf s _ _ _ Hl). cbn [unwrap]. st_step.
  rewrite Hflag, PTE.testbit_new, Hb by lia. st_step. done.
Qed.


Definition exclusive_rights (e : Z) : Prop := (Z.testbit e 2 && Z.testbit e 3) = false /\ Z.testbit e 4 = false.

Lemma region_rights i x : linked i -> x ∈ regions i -> x.2 = 10 \/ x.2 = 2 \/ x.2 = 6.
Proof.
  intros Hli Hx. destruct (sections_paged i Hli) as (t & r & d & k & _ & _ & _ & _ & _ & E). unfold regions in Hx. rewrite E, devices_eq in Hx. cbn [app] in Hx.
  repeat (apply elem_of_cons in Hx as [->|Hx]; [cbn; auto|]). by apply elem_of_nil in Hx.
Qed.

Lemma entry_rights p perm : 0 <= p < 2 ^ 44 -> perm = 10 \/ perm = 2 \/ perm = 6 -> exclusive_rights (PTE.new p (Z.lor perm PTE.V)).
Proof. intros Hp Hperm. unfold exclusive_rights. destruct Hperm as [->|[->| ->]]; rewrite !PTE.testbit_new by (done || vm_compute; intuition discriminate); done. Qed.

(** The words of the heap, and the other pages. *)
Lemma with_heap_page h m p : (forall a, a ∈ dom (Buddy.words h) -> a / 4096 <> p) -> get_page (with_heap h m) p = get_page m p.
Proof.
  unfold with_heap. apply (map_fold_weak_ind (fun r ws => (forall a, a ∈ dom ws -> a / 4096 <> p) -> get_page r p = get_page m p)); [done|].
  intros a v ws r _ IH Hp. unfold write_word. rewrite get_page_insert, decide_False by (apply Hp; set_solver). apply IH. set_solver.
Qed.

Lemma with_heap_word h m a v :
  (forall a, a ∈ dom (Buddy.words h) -> (8 | a)) -> Buddy.words h !! a = Some v -> read_word (with_heap h m) (a / 4096) (a mod 4096 / 8) = wrap 64 v.
Proof.
  unfold with_heap. apply (map_fold_weak_ind (fun r ws => (forall a, a ∈ dom ws -> (8 | a)) -> ws !! a = Some v -> read_word r (a / 4096) (a mod 4096 / 8) = wrap 64 v)); [done|].
  intros b x ws r Hn IH Hd. destruct (decide (b = a)) as [->|Hne].
  - rewrite lookup_insert_eq. intros [= ->]. unfold read_word, write_word. by rewrite get_page_insert, decide_True, read_write_le by done.
  - rewrite lookup_insert_ne by done. intros Ha. rewrite read_word_write_ne; [apply IH; [set_solver|done]|].
    destruct (Hd b ltac:(set_solver)) as [q Hq]. destruct (Hd a) as [q' Hq']; [|lia]. rewrite dom_insert. apply elem_of_union. right. by apply elem_of_dom.
Qed.

(** The state after [init], in terms of [entries]. *)
Lemma init_run i m :
  linked i ->
  exists h s sp live, init i m = Ok (mkKernel h s sp (satp sp)) /\ PT.inv (HL := Frame.stack_frame_allocator_laws (ekernel i / 4096)) s (page_table sp) live /\
    Buddy.heap_ok ((HEAP_SPACE i + 7) / 8 * 8) (((HEAP_SPACE i + 7) / 8 * 8 + KERNEL_HEAP_SIZE) / 8 * 8) h [] /\
    (forall v, page_ok v -> PT.leaf (mem s) (PT.root_ppn (page_table sp)) v =
      match entries (regions i) v with Some e => Some e | None => if decide (v = tramp_vpn) then Some (PTE.new (strampoline i / 4096) (Z.lor 10 PTE.V)) else None end) /\
    (forall a, a ∈ dom (Buddy.words h) -> HEAP_SPACE i <= a /\ a + 8 <= ekernel i /\ (8 | a)) /\
    (forall p, p ∉ PT.frames (page_table sp) -> get_page (mem s) p = get_page (with_heap h m) p).
Proof.
  intros Hli. pose proof Hli as [He (Ho1 & Ho2 & Ho3) Hr (Hst & _ & _ & _ & [k Hk]) [Hh1 Hh2]]. unfold BASE_ADDRESS, MEMORY_END, KERNEL_HEAP_SIZE in *.
  destruct (Buddy.init_words (HEAP_SPACE i) KERNEL_HEAP_SIZE) as (h & Eh & Hok & Hd); [lia|unfold KERNEL_HEAP_SIZE; lia|unfold KERNEL_HEAP_SIZE; lia|].
  set (fa := init_frame_allocator i Frame.new).
  assert (Efa : fa = Frame.init k 0x88000 Frame.new).
  { unfold fa, init_frame_allocator. rewrite !PhysAddr_from_usize_mod. rewrite (Z.mod_small (ekernel i)) by lia. rewrite ceil_div by lia. rewrite Hk.
    replace ((k * 4096 + 4095) / 4096) with k by lia. done. }
  destruct (new_kernel_maps (HL := Frame.stack_frame_allocator_laws (ekernel i / 4096)) tables tables_nodup tables_paths (mkMM (with_heap h m) fa) ∅ (strampoline i) (sections i))
    as (sp & s & live & E & Hi & _ & Hl & Hp).
  - cbn [falloc]. rewrite Efa, Hk, Z.div_mul by lia. apply Frame.init_rep; [lia|lia|done].
  - lia.
  - done.
  - by apply regions_ok.
  - by apply regions_apart.
  - by apply regions_no_trampoline.
  - split; apply (bool_decide_unpack _); by vm_compute.
  - cbn [falloc]. rewrite Efa. change (length tables) with 71%nat. cbn [fa_capacity Frame.stack_frame_allocator_laws]. unfold Frame.capacity, Frame.init. cbn. lia.
  - exists h, s, sp, live. split_and!; [|exact Hi|exact Hok|exact Hl| |exact Hp].
    2: { intros a Ha. destruct (Hd a Ha) as [Hr8 Ha8]. unfold KERNEL_HEAP_SIZE in Hr8. destruct Ha8 as [q Hq]. split_and!; [lia|lia|by exists q]. }
    unfold init, init_heap. rewrite Eh. cbn [mbind res_bind]. fold fa. rewrite E. done.
Qed.

Lemma remap_test_passes i s sp :
  linked i ->
  (forall x va, x ∈ sections i -> x.1.1 <= va < x.1.2 -> PT.leaf (mem s) (PT.root_ppn (page_table sp)) (va / 4096) = Some (PTE.new (va / 4096) (Z.lor x.2 PTE.V))) ->
  remap_test i sp s = Ok (tt, s).
Proof.
  intros Hli Hl. destruct Hli as [He (Ho1 & Ho2 & Ho3) Hr _ _]. unfold BASE_ADDRESS, MEMORY_END in *. unfold remap_test. cbv zeta. unfold BASE_ADDRESS.
  rewrite !uadd_small, !VirtAddr_from_usize_mod, !Z.mod_small by lia.
  assert (Hcf : forall flag k a b perm, (a, b, perm) ∈ sections i -> 0 <= a < b -> b < 2 ^ 38 -> (forall e, flag e = Ok (Z.testbit e k)) -> 0 <= k < 10 -> 0 <= Z.lor perm PTE.V < 2 ^ 10 ->
    Z.testbit (Z.lor perm PTE.V) k = false -> check_flag flag sp ((a + b) / 2) s = Ok (tt, s)).
  { intros flag k a b perm Hin Hab Hb Hflag Hk Hf Hbit. eapply (check_flag_passes flag k _ _ _ ((a + b) / 2 / 4096) (Z.lor perm PTE.V)); try done; [lia|].
    apply (Hl (a, b, perm)); [done|]. cbn [fst snd]. lia. }
  assert (Hw : forall e, PTE.writable e = Ok (Z.testbit e 2)) by (intros e; by apply (PTE.has_bit 2)).
  assert (Hx : forall e, PTE.executable e = Ok (Z.testbit e 3)) by (intros e; by apply (PTE.has_bit 3)).
  assert (E1 : check_flag PTE.writable sp ((0x80000000 + etext i) / 2) s = Ok (tt, s)) by (apply (Hcf _ 2 _ _ (Z.lor PR PX)); (done || lia || by left)).
  assert (E2 : check_flag PTE.writable sp ((etext i + erodata i) / 2) s = Ok (tt, s)) by (apply (Hcf _ 2 _ _ PR); (done || lia || by do 1 right; left)).
  assert (E3 : check_flag PTE.executable sp ((erodata i + edata i) / 2) s = Ok (tt, s)) by (apply (Hcf _ 3 _ _ (Z.lor PR PW)); (done || lia || by do 2 right; left)).
  st_step_by E1. st_step_by E2. exact E3.
Qed.

(** C4: The kernel's own address space.  However the linker places the kernel in the memory
    of the board, [mm::init] succeeds with the frames that are left, and under the [satp] it
    activates every address of every section and of every device register is mapped to
    itself with the rights of its region, as the disk driver relies on; the trampoline page
    is where the trap code is.  Nothing else is mapped, no page is writable and executable,
    and none is open to user mode.  [init_heap] makes a heap with every byte in one free
    block and writes its free lists into .bss; the tables are in frames behind the kernel,
    so setting them up leaves the code and the constants of the kernel as they were and the
    free lists as [init_heap] wrote them.  (What the collections of the kernel allocate from
    this heap meanwhile is not modelled.)  The checks of [remap_test] pass. *)
Theorem kernel_space_mapped i m :
  linked i ->
  exists k, init i m = Ok k /\
    let s := k_mm k in
    let root := PT.from_satp (csr_satp k) in
    (forall x va, x ∈ regions i -> x.1.1 <= va < x.1.2 ->
       PT.leaf (mem s) root (va / 4096) = Some (PTE.new (va / 4096) (Z.lor x.2 PTE.V)) /\
       phys (mem s) root va = Some (va / 4096, va mod 4096) /\
       forall q, virt_to_phys (csr_satp k) va (mkDma s q) = Ok (va, mkDma s q)) /\
    PT.leaf (mem s) root (floor (VirtAddr_from_usize TRAMPOLINE)) = Some (PTE.new (strampoline i / 4096) (Z.lor (Z.lor PR PX) PTE.V)) /\
    (forall v e, page_ok v -> PT.leaf (mem s) root v = Some e ->
       exclusive_rights e /\ (v = floor (VirtAddr_from_usize TRAMPOLINE) \/ exists x, x ∈ regions i /\ inside v x)) /\
    (forall p, p * 4096 < erodata i -> get_page (mem s) p = get_page m p) /\
    (forall a v, Buddy.words (k_heap k) !! a = Some v -> HEAP_SPACE i <= a /\ a + 8 <= ekernel i /\ read_word (mem s) (a / 4096) (a mod 4096 / 8) = wrap 64 v) /\
    Buddy.heap_ok ((HEAP_SPACE i + 7) / 8 * 8) (((HEAP_SPACE i + 7) / 8 * 8 + KERNEL_HEAP_SIZE) / 8 * 8) (k_heap k) [] /\
    remap_test i (KERNEL_SPACE k) s = Ok (tt, s).
Proof.
  intros Hli. destruct (init_run i m Hli) as (h & s & sp & live & E & Hi & Hh & Hl & Hd & Hp). eexists. split; [exact E|]. cbn [k_mm k_heap KERNEL_SPACE csr_satp].
  assert (Hlive : forall p, p ∈ PT.frames (page_table sp) -> ekernel i / 4096 <= p < 2 ^ 44).
  { intros p Hin. pose proof (PT.inv_sub _ _ _ Hi) as Hsub. pose proof (PT.inv_rep _ _ _ Hi) as Hrep. cbn in Hrep.
    assert (Hpl : p ∈ live) by (apply Hsub; by apply elem_of_list_to_set). apply (Frame.rep_live _ _ _ Hrep) in Hpl. pose proof (Frame.rep_end _ _ _ Hrep). lia. }
  assert (Hroot : PT.from_satp (satp sp) = PT.root_ppn (page_table sp)).
  { apply PT.from_satp_satp. assert (Hin : PT.root_ppn (page_table sp) ∈ (list_to_set (PT.frames (page_table sp)) : gset Z)).
    { apply (PT.wf_in _ _ _ (PT.inv_wf _ _ _ Hi) []); [done|]. split; [cbn; lia|constructor]. }
    apply elem_of_list_to_set, Hlive in Hin. destruct Hli. unfold BASE_ADDRESS in *. lia. }
  assert (Htv : floor (VirtAddr_from_usize TRAMPOLINE) = tramp_vpn) by (by vm_compute).
  rewrite Hroot. set (root := PT.root_ppn (page_table sp)) in *.
  assert (Hin : forall x va, x ∈ regions i -> x.1.1 <= va < x.1.2 -> 0 <= va < 2 ^ 38 /\ PT.leaf (mem s) root (va / 4096) = Some (PTE.new (va / 4096) (Z.lor x.2 PTE.V))).
  { intros x va Hx Hva. pose proof (regions_ok i Hli) as Hok. rewrite Forall_forall in Hok. destruct (Hok x Hx) as (Ha & Hb & _). split; [lia|].
    rewrite Hl by (unfold page_ok; lia). rewrite (entries_in _ _ x); [done|by apply regions_apart|done|]. unfold inside, first_page, end_page. lia. }
  split_and!.
  - intros x va Hx Hva. destruct (Hin x va Hx Hva) as [Hb Hlf].
    assert (Hph : phys (mem s) root va = Some (va / 4096, va mod 4096)).
    { unfold phys, PAGE_SIZE. rewrite Hlf. cbn [fmap option_fmap option_map]. destruct (region_rights i x Hli Hx) as [-> | [-> | ->]]; rewrite PTE.ppn_new by (done || lia); done. }
    split_and!; [done|done|]. intros q. apply virt_to_phys_identity; [lia|]. by rewrite Hroot.
  - rewrite Htv, Hl by (unfold page_ok, tramp_vpn; lia). rewrite entries_out by (by apply regions_no_trampoline). by rewrite decide_True.
  - intros v e Hv Hlf. rewrite Hl in Hlf by done. destruct (entries (regions i) v) as [e'|] eqn:Ee.
    + injection Hlf as ->. apply entries_Some in Ee as (x & Hx & Hvx & ->). split; [|right; by exists x]. apply entry_rights; [unfold page_ok in Hv; lia|by apply (region_rights i)].
    + case_decide as Ht; [|done]. injection Hlf as <-. split; [|left; by rewrite Htv]. apply entry_rights; [|by left]. destruct Hli. unfold BASE_ADDRESS, MEMORY_END in *. lia.
  - pose proof Hli as [_ (_ & _ & Ho3) _ (_ & _ & _ & [d Hd'] & [k Hk]) [Hh1 _]]. intros p Hpe. rewrite Hp, with_heap_page; [done| |].
    + intros a Ha. destruct (Hd a Ha) as (Ha1 & _). destruct Hli as [_ (_ & Ho2 & _) _ _ _]. lia.
    + intros Hf%Hlive. destruct Hli as [_ (_ & Ho2 & _) _ _ _]. lia.
  - intros a v Ha. assert (Had : a ∈ dom (Buddy.words h)) by (by apply elem_of_dom). destruct (Hd a Had) as (H1 & H2 & H3). split_and!; [done|done|].
    assert (Hpg : a / 4096 ∉ PT.frames (page_table sp)).
    { intros Hf%Hlive. destruct (li_align _ Hli) as (_ & _ & _ & _ & [k Hk]). lia. }
    unfold read_word. rewrite Hp by done. change (read_le 8 (get_page (with_heap h m) (a / 4096)) (8 * (a mod 4096 / 8))) with (read_word (with_heap h m) (a / 4096) (a mod 4096 / 8)).
    apply with_heap_word; [|done]. intros b Hb. by destruct (Hd b Hb) as (_ & _ & ?).
  - exact Hh.
  - apply remap_test_passes; [done|]. intros x va Hx Hva. apply (Hin x); [|done]. apply elem_of_app. by left.
Qed.

(** A kernel of 4 MB. *)
Definition small : image := mkImage 0x80020000 0x80028000 0x80030000 0x80400000 0x80001000 0x80100000.

Lemma kernel_space_mapped_witness :
  exists k, init small ∅ = Ok k /\ remap_test small (KERNEL_SPACE k) (k_mm k) = Ok (tt, k_mm k) /\
    phys (mem (k_mm k)) (PT.from_satp (csr_satp k)) 0x80000123 = Some (0x80000, 0x123).
Proof.
  destruct (kernel_space_mapped small ∅) as (k & E & Hx & _ & _ & _ & _ & _ & Ht).
  - split; cbn; unfold BASE_ADDRESS, MEMORY_END, KERNEL_HEAP_SIZE; try lia. split_and!; [by exists 0x80001|by exists 0x80020|by exists 0x80028|by exists 0x80030|by exists 0x80400].
  - exists k. split_and!; [exact E|exact Ht|]. apply (Hx (0x80000000, 0x80020000, Z.lor PR PX) 0x80000123); [by left|]. cbn. lia.
Defined.
