(* ===== verification/Process.v ===== *)
(** Processes and threads: os/src/task/process, os/src/task/thread/mod.rs,
    [exit_current_and_run_next] of os/src/task/mod.rs, the process table of
    os/src/task/scheduler/process_manager.rs, and the system calls of
    os/src/syscall/thread.rs and os/src/syscall/process.rs that create, end and wait
    for processes and threads.

    The state puts together the components below it: physical memory and the frame
    allocator ([k_mm]), the scheduler ([k_sched]), the kernel address space, and the
    control blocks.  An [Arc] is the number of the object it points to.  How many
    [Arc]s there are is not a field but a function of the state ([proc_refs],
    [task_refs]): they are in the process table, in the lists of children and of
    threads, in the queues of the scheduler, and in the stack frames of kernel paths
    that were left through [schedule] ([held_procs]).  When the last one goes the
    object is dropped ([release_proc], [release_task]). *)

From S2P Require Import Prelude Address Alloc Memory PageTable UserBuffer Sched Signal AddressSpace.

#[local] Ltac Zify.zify_post_hook ::= Z.to_euclidean_division_equations.

(** [status] and [task_cx] are in the scheduler's state. *)
Record TaskControlBlock := mkTCB {
  t_process : nat;                            (* a [Weak] *)
  t_kernel_stack : Z;
  t_user_resource : option TaskUserResource;
  t_trap_cx_ppn : Z;
  t_exit_code : option Z;
  t_trap_cx_backup : option TrapContext;
}.

Definition with_resource (r : option TaskUserResource) (b : TaskControlBlock) : TaskControlBlock :=
  mkTCB (t_process b) (t_kernel_stack b) r (t_trap_cx_ppn b) (t_exit_code b) (t_trap_cx_backup b).
Definition with_exit_code (c : option Z) (b : TaskControlBlock) : TaskControlBlock :=
  mkTCB (t_process b) (t_kernel_stack b) (t_user_resource b) (t_trap_cx_ppn b) c (t_trap_cx_backup b).
Definition with_trap_cx_ppn (ppn : Z) (b : TaskControlBlock) : TaskControlBlock :=
  mkTCB (t_process b) (t_kernel_stack b) (t_user_resource b) ppn (t_exit_code b) (t_trap_cx_backup b).

Record ProcessControlBlock := mkPCB {
  pid : Z;
  is_zombie : bool;
  address_space : AddressSpace;
  parent : option nat;                        (* a [Weak] *)
  children : list nat;
  exit_code : Z;
  fd_table : list (option nat);               (* file objects *)
  p_signals : Z;
  p_signal_actions : list SignalAction;
  p_signal_mask : Z;
  p_handling_signal : Z;
  p_killed : bool;
  p_frozen : bool;
  tasks : list (option nat);
  tid_allocator : Recycle.RecycleAllocator;
}.

Definition with_zombie (code : Z) (b : ProcessControlBlock) : ProcessControlBlock :=
  mkPCB (pid b) true (address_space b) (parent b) (children b) code (fd_table b) (p_signals b)
    (p_signal_actions b) (p_signal_mask b) (p_handling_signal b) (p_killed b) (p_frozen b) (tasks b) (tid_allocator b).
Definition with_space (sp : AddressSpace) (b : ProcessControlBlock) : ProcessControlBlock :=
  mkPCB (pid b) (is_zombie b) sp (parent b) (children b) (exit_code b) (fd_table b) (p_signals b)
    (p_signal_actions b) (p_signal_mask b) (p_handling_signal b) (p_killed b) (p_frozen b) (tasks b) (tid_allocator b).
Definition with_parent (q : option nat) (b : ProcessControlBlock) : ProcessControlBlock :=
  mkPCB (pid b) (is_zombie b) (address_space b) q (children b) (exit_code b) (fd_table b) (p_signals b)
    (p_signal_actions b) (p_signal_mask b) (p_handling_signal b) (p_killed b) (p_frozen b) (tasks b) (tid_allocator b).
Definition with_children (l : list nat) (b : ProcessControlBlock) : ProcessControlBlock :=
  mkPCB (pid b) (is_zombie b) (address_space b) (parent b) l (exit_code b) (fd_table b) (p_signals b)
    (p_signal_actions b) (p_signal_mask b) (p_handling_signal b) (p_killed b) (p_frozen b) (tasks b) (tid_allocator b).
Definition with_fds (l : list (option nat)) (b : ProcessControlBlock) : ProcessControlBlock :=
  mkPCB (pid b) (is_zombie b) (address_space b) (parent b) (children b) (exit_code b) l (p_signals b)
    (p_signal_actions b) (p_signal_mask b) (p_handling_signal b) (p_killed b) (p_frozen b) (tasks b) (tid_allocator b).
Definition with_tasks (l : list (option nat)) (b : ProcessControlBlock) : ProcessControlBlock :=
  mkPCB (pid b) (is_zombie b) (address_space b) (parent b) (children b) (exit_code b) (fd_table b) (p_signals b)
    (p_signal_actions b) (p_signal_mask b) (p_handling_signal b) (p_killed b) (p_frozen b) l (tid_allocator b).
Definition with_tids (a : Recycle.RecycleAllocator) (b : ProcessControlBlock) : ProcessControlBlock :=
  mkPCB (pid b) (is_zombie b) (address_space b) (parent b) (children b) (exit_code b) (fd_table b) (p_signals b)
    (p_signal_actions b) (p_signal_mask b) (p_handling_signal b) (p_killed b) (p_frozen b) (tasks b) a.

(** [ProcessControlBlockInner] *)
Definition thread_count (b : ProcessControlBlock) : Z := Z.of_nat (length (tasks b)).
Definition get_task (b : ProcessControlBlock) (tid : Z) : res nat := o ← index (tasks b) tid; unwrap o.

Definition alloc_fd (b : ProcessControlBlock) : Z * ProcessControlBlock :=
  match find_index (fun o => bool_decide (o = None)) (fd_table b) with
  | Some fd => (Z.of_nat fd, b)
  | None => let l := fd_table b ++ [None] in (Z.of_nat (length l) - 1, with_fds l b)
  end.

(** [INITPROC] is the first process. *)
Definition INITPROC : nat := 0.

Record kstate (F : Type) := mkK {
  k_mm : mm F;
  k_sched : Sched.kernel;
  KERNEL_SPACE : AddressSpace;
  KERNEL_STACK_ALLOCATOR : Recycle.RecycleAllocator;
  PID_ALLOCATOR : Recycle.RecycleAllocator;
  PID2PCB : gmap Z nat;
  procs : gmap nat ProcessControlBlock;
  tcbs : gmap nat TaskControlBlock;
  next_proc : nat;
  next_task : nat;
  held_procs : list (nat * nat);              (* the task whose frame it is, the process *)
}.
Arguments mkK {F}.
Arguments k_mm {F}.
Arguments k_sched {F}.
Arguments KERNEL_SPACE {F}.
Arguments KERNEL_STACK_ALLOCATOR {F}.
Arguments PID_ALLOCATOR {F}.
Arguments PID2PCB {F}.
Arguments procs {F}.
Arguments tcbs {F}.
Arguments next_proc {F}.
Arguments next_task {F}.
Arguments held_procs {F}.

Section operations.
Context {F : Type} `{FrameAllocator F}.

(** ** Access to the parts of the state *)

Definition on_mm {A} (m : ST (mm F) A) : ST (kstate F) A := fun s =>
  '(a, x) ← m (k_mm s);
  Ok (a, mkK x (k_sched s) (KERNEL_SPACE s) (KERNEL_STACK_ALLOCATOR s) (PID_ALLOCATOR s) (PID2PCB s)
            (procs s) (tcbs s) (next_proc s) (next_task s) (held_procs s)).

Definition on_sched {A} (m : ST Sched.kernel A) : ST (kstate F) A := fun s =>
  '(a, x) ← m (k_sched s);
  Ok (a, mkK (k_mm s) x (KERNEL_SPACE s) (KERNEL_STACK_ALLOCATOR s) (PID_ALLOCATOR s) (PID2PCB s)
            (procs s) (tcbs s) (next_proc s) (next_task s) (held_procs s)).

Definition set_kernel_space (ids : Recycle.RecycleAllocator) (sp : AddressSpace) : ST (kstate F) unit := fun s =>
  Ok (tt, mkK (k_mm s) (k_sched s) sp ids (PID_ALLOCATOR s) (PID2PCB s)
            (procs s) (tcbs s) (next_proc s) (next_task s) (held_procs s)).
Definition set_pids (a : Recycle.RecycleAllocator) : ST (kstate F) unit := fun s =>
  Ok (tt, mkK (k_mm s) (k_sched s) (KERNEL_SPACE s) (KERNEL_STACK_ALLOCATOR s) a (PID2PCB s)
            (procs s) (tcbs s) (next_proc s) (next_task s) (held_procs s)).
Definition set_pid2pcb (m : gmap Z nat) : ST (kstate F) unit := fun s =>
  Ok (tt, mkK (k_mm s) (k_sched s) (KERNEL_SPACE s) (KERNEL_STACK_ALLOCATOR s) (PID_ALLOCATOR s) m
            (procs s) (tcbs s) (next_proc s) (next_task s) (held_procs s)).
Definition set_procs (m : gmap nat ProcessControlBlock) : ST (kstate F) unit := fun s =>
  Ok (tt, mkK (k_mm s) (k_sched s) (KERNEL_SPACE s) (KERNEL_STACK_ALLOCATOR s) (PID_ALLOCATOR s) (PID2PCB s)
            m (tcbs s) (next_proc s) (next_task s) (held_procs s)).
Definition set_tcbs (m : gmap nat TaskControlBlock) : ST (kstate F) unit := fun s =>
  Ok (tt, mkK (k_mm s) (k_sched s) (KERNEL_SPACE s) (KERNEL_STACK_ALLOCATOR s) (PID_ALLOCATOR s) (PID2PCB s)
            (procs s) m (next_proc s) (next_task s) (held_procs s)).
Definition set_held (l : list (nat * nat)) : ST (kstate F) unit := fun s =>
  Ok (tt, mkK (k_mm s) (k_sched s) (KERNEL_SPACE s) (KERNEL_STACK_ALLOCATOR s) (PID_ALLOCATOR s) (PID2PCB s)
            (procs s) (tcbs s) (next_proc s) (next_task s) l).

(** [Arc::new] *)
Definition new_proc (b : ProcessControlBlock) : ST (kstate F) nat := fun s =>
  Ok (next_proc s, mkK (k_mm s) (k_sched s) (KERNEL_SPACE s) (KERNEL_STACK_ALLOCATOR s) (PID_ALLOCATOR s) (PID2PCB s)
            (<[next_proc s := b]> (procs s)) (tcbs s) (S (next_proc s)) (next_task s) (held_procs s)).
Definition new_task (b : TaskControlBlock) : ST (kstate F) nat := fun s =>
  Ok (next_task s, mkK (k_mm s) (k_sched s) (KERNEL_SPACE s) (KERNEL_STACK_ALLOCATOR s) (PID_ALLOCATOR s) (PID2PCB s)
            (procs s) (<[next_task s := b]> (tcbs s)) (next_proc s) (S (next_task s)) (held_procs s)).

(** [weak.upgrade().unwrap()] and the access to the inner fields. *)
Definition get_proc (p : nat) : ST (kstate F) ProcessControlBlock := fun s => lift (unwrap (procs s !! p)) s.
Definition get_tcb (t : nat) : ST (kstate F) TaskControlBlock := fun s => lift (unwrap (tcbs s !! t)) s.
Definition upd_proc (p : nat) (f : ProcessControlBlock -> ProcessControlBlock) : ST (kstate F) unit :=
  b ← get_proc p; s ← get; set_procs (<[p := f b]> (procs s)).
Definition upd_tcb (t : nat) (f : TaskControlBlock -> TaskControlBlock) : ST (kstate F) unit :=
  b ← get_tcb t; s ← get; set_tcbs (<[t := f b]> (tcbs s)).

(** ** Process ids and the process table *)

Definition pid_alloc : ST (kstate F) Z :=
  s ← get;
  let '(id, a) := Recycle.alloc (PID_ALLOCATOR s) in
  set_pids a;; mret id.

Definition PidHandle_drop (id : Z) : ST (kstate F) unit :=
  s ← get; a ← lift (Recycle.dealloc id (PID_ALLOCATOR s)); set_pids a.

Definition pid2process (id : Z) : ST (kstate F) (option nat) := s ← get; mret (PID2PCB s !! id).
Definition insert_into_pid2process (id : Z) (p : nat) : ST (kstate F) unit :=
  s ← get; set_pid2pcb (<[id := p]> (PID2PCB s)).
Definition remove_from_pid2process (id : Z) : ST (kstate F) unit :=
  s ← get;
  match PID2PCB s !! id with
  | None => panic PanicCall
  | Some _ => set_pid2pcb (delete id (PID2PCB s))
  end.

(** ** Threads *)

Definition alloc_tid (p : nat) : ST (kstate F) Z :=
  b ← get_proc p;
  let '(id, a) := Recycle.alloc (tid_allocator b) in
  upd_proc p (with_tids a);; mret id.

Definition dealloc_tid (p : nat) (id : Z) : ST (kstate F) unit :=
  b ← get_proc p; a ← lift (Recycle.dealloc id (tid_allocator b)); upd_proc p (with_tids a).

(** [TaskUserResource::alloc_user_resource] and its [Drop]. *)
Definition map_user_resource (r : TaskUserResource) (p : nat) : ST (kstate F) unit :=
  b ← get_proc p; sp ← on_mm (alloc_user_resource r (address_space b)); upd_proc p (with_space sp).
Definition drop_user_resource (r : TaskUserResource) (p : nat) : ST (kstate F) unit :=
  b ← get_proc p; sp ← on_mm (dealloc_user_resource r (address_space b)); upd_proc p (with_space sp).

Definition TaskUserResource_new (p : nat) (base : Z) (alloc_user_resource : bool) : ST (kstate F) TaskUserResource :=
  tid ← alloc_tid p;
  let r := mkResource tid base in
  (if alloc_user_resource then map_user_resource r p else mret tt);;
  mret r.

(** The [TaskControlBlock] is [Ready] and will start at [trap_return]. *)
Definition register_task (t p : nat) (k : Sched.kernel) : Sched.kernel :=
  Sched.mkKernel (Sched.current k) (ready_queue k) (<[t := Ready]> (status k)) (<[t := KStart]> (konts k))
    (timers k) (mutexes k) (semaphores k) (condvars k) (<[t := p]> (process_of k)) (tables k).

Definition TaskControlBlock_new (p : nat) (base : Z) (alloc_user_resource : bool) : ST (kstate F) nat :=
  r ← TaskUserResource_new p base alloc_user_resource;
  b ← get_proc p;
  ppn ← on_mm (trap_cx_ppn r (address_space b));
  s ← get;
  '(id, ids, sp) ← on_mm (alloc_kernel_stack (KERNEL_STACK_ALLOCATOR s) (KERNEL_SPACE s));
  set_kernel_space ids sp;;
  t ← new_task (mkTCB p id (Some r) ppn None None);
  on_sched (Sched.modify (register_task t p));;
  mret t.

Definition kernel_stack_top_of (b : TaskControlBlock) : Z := (kernel_stack_position (t_kernel_stack b)).2.

(** ** References *)

Definition count_occ_nat (x : nat) (l : list nat) : nat := length (filter (fun y => y = x) l).

Definition task_refs (t : nat) (s : kstate F) : nat :=
  (count_occ_nat t (places (k_sched s)) +
   count_occ_nat t (concat ((fun b => omap id (tasks b)) <$> (map_to_list (procs s)).*2)))%nat.

Definition proc_refs (p : nat) (s : kstate F) : nat :=
  (count_occ_nat p ((map_to_list (PID2PCB s)).*2) +
   count_occ_nat p (concat (children <$> (map_to_list (procs s)).*2)) +
   count_occ_nat p ((held_procs s).*2) + if decide (p = INITPROC) then 1 else 0)%nat.

(** The [Drop] of [TaskControlBlock]: the kernel stack, then the user resource. *)
Definition drop_task (t : nat) : ST (kstate F) unit :=
  b ← get_tcb t;
  s ← get;
  set_tcbs (delete t (tcbs s));;
  '(ids, sp) ← on_mm (drop_kernel_stack (t_kernel_stack b) (KERNEL_STACK_ALLOCATOR s) (KERNEL_SPACE s));
  set_kernel_space ids sp;;
  match t_user_resource b with
  | Some r => drop_user_resource r (t_process b)
  | None => mret tt
  end.

Definition release_task (t : nat) : ST (kstate F) unit :=
  s ← get; if decide (task_refs t s = 0%nat) then drop_task t else mret tt.

(** The frames of the page table, then those of the segments. *)
Definition drop_address_space (sp : AddressSpace) : ST (mm F) unit :=
  st_for (PT.frames (page_table sp)) frame_dealloc;;
  st_for (segments sp) drop_segment.

(** The [Drop] of [ProcessControlBlock], if no [Arc] is left. *)
Fixpoint release_proc (fuel : nat) (p : nat) : ST (kstate F) unit :=
  match fuel with
  | O => panic OutOfFuel
  | S fuel' =>
      s ← get;
      if decide (proc_refs p s = 0%nat) then
        b ← get_proc p;
        set_procs (delete p (procs s));;
        PidHandle_drop (pid b);;
        on_mm (drop_address_space (address_space b));;
        st_for (children b) (release_proc fuel');;
        st_for (omap id (tasks b)) release_task
      else mret tt
  end.

End operations.

(** ** Trap contexts and user words in memory *)

(** [#[repr(C)]]: 37 words. *)
Definition cx_words (cx : TrapContext) : list Z :=
  gprs cx ++ [sstatus cx; sepc cx; Signal.kernel_satp cx; kernel_stack_top cx; Signal.trap_handler cx].

Definition A0 : Z := 10.
Definition A1 : Z := 11.
Definition KERNEL_STACK_TOP : Z := 35.

Section memory.
Context {F : Type} `{FrameAllocator F}.

(** [*trap_cx_ppn.get_mut() = cx] *)
Definition write_trap_cx (ppn : Z) (cx : TrapContext) : ST (mm F) unit :=
  st_for (zip (seqZ 0 37) (cx_words cx)) (fun '(i, w) => store_word ppn i w).

(** Stores through a raw pointer to physical memory. *)
Definition store_byte (pa b : Z) : ST (mm F) unit := fun s =>
  Ok (tt, mkMM (<[pa / PAGE_SIZE := <[pa mod PAGE_SIZE := b]> (get_page (mem s) (pa / PAGE_SIZE))]> (mem s)) (falloc s)).

Fixpoint store_le (n : nat) (pa w : Z) : ST (mm F) unit :=
  match n with
  | O => mret tt
  | S n' => store_byte pa (w mod 256);; store_le n' (pa + 1) (w / 256)
  end.

(** [for c in args[i].as_bytes() { *translated_refmut(satp, p as *mut u8) = *c; p += 1; }]
    and the terminating zero. *)
Fixpoint push_string (satp p : Z) (cs : list Z) : ST (mm F) unit :=
  match cs with
  | [] => pa ← translated_refmut satp p; store_byte pa 0
  | c :: cs' => pa ← translated_refmut satp p; store_byte pa c;; push_string satp (uadd p 1) cs'
  end.

(** [for i in 0..args.len() { ... }]; [argv] are the addresses of the pointers. *)
Fixpoint push_args (satp user_sp : Z) (args : list (list Z)) (argv : list Z) : ST (mm F) Z :=
  match args with
  | [] => mret user_sp
  | arg :: rest =>
      let user_sp := usub user_sp (uadd (Z.of_nat (length arg)) 1) in
      a ← lift (index argv 0);
      store_le 8 a user_sp;;
      push_string satp user_sp arg;;
      push_args satp user_sp rest (drop 1 argv)
  end.

(** [(0..=args.len()).map(|arg| translated_refmut(satp, argv_base + arg * 8)).collect()] *)
Fixpoint argv_pointers (satp argv_base : Z) (l : list Z) : ST (mm F) (list Z) :=
  match l with
  | [] => mret []
  | i :: l' =>
      pa ← translated_refmut satp (uadd argv_base (umul i 8));
      rest ← argv_pointers satp argv_base l';
      mret (pa :: rest)
  end.

(** The arguments on the user stack: from the top of the stack to the stack pointer
    and [argv]. *)
Definition push_arguments (satp stack_top : Z) (args : list (list Z)) : ST (mm F) (Z * Z) :=
  let n := Z.of_nat (length args) in
  let user_sp := usub stack_top (umul (uadd n 1) 8) in
  let argv_base := user_sp in
  argv ← argv_pointers satp argv_base (seqZ 0 (n + 1));
  last ← lift (index argv n);
  store_le 8 last 0;;
  user_sp ← push_args satp user_sp args argv;
  mret (usub user_sp (user_sp mod 8), argv_base).
End memory.

(** * Creating processes *)

Section processes.
Context {F : Type} `{FrameAllocator F}.
(** Addresses the linker gives, and [sstatus] with [SPP] set to user mode. *)
Context (strampoline trap_handler user_sstatus : Z).

Definition initial_context (entry user_sp : Z) (b : TaskControlBlock) (s : kstate F) : TrapContext :=
  app_initial_context user_sstatus entry user_sp (satp (KERNEL_SPACE s)) (kernel_stack_top_of b) trap_handler.

(** [ProcessControlBlock::new]; [elf] is what [xmas_elf] makes of the file, and the file
    objects are [Stdin] (0) and twice [Stdout] (1 and 2). *)
Definition ProcessControlBlock_new (elf : option ElfFile) : ST (kstate F) nat :=
  '(sp, user_stack_base, entry_point) ← on_mm (from_elf strampoline elf);
  pid ← pid_alloc;
  p ← new_proc (mkPCB pid false sp None [] 0 [Some 0%nat; Some 1%nat; Some 2%nat] 0 SignalActionTable_default 0 (-1)
                  false false [] Recycle.new);
  t ← TaskControlBlock_new p user_stack_base true;
  b ← get_tcb t;
  r ← lift (unwrap (t_user_resource b));
  s ← get;
  on_mm (write_trap_cx (t_trap_cx_ppn b) (initial_context entry_point (user_stack_top r) b s));;
  upd_proc p (fun b => with_tasks (vec_push (tasks b) (Some t)) b);;
  on_sched (add_task t);;
  insert_into_pid2process pid p;;
  mret p.

(** [ProcessControlBlock::exec] *)
Definition exec (p : nat) (elf : option ElfFile) (args : list (list Z)) : ST (kstate F) unit :=
  b ← get_proc p;
  lift (rassert (thread_count b =? 1));;
  '(sp, user_stack_base, entry_point) ← on_mm (from_elf strampoline elf);
  on_mm (drop_address_space (address_space b));;
  upd_proc p (with_space sp);;
  t ← lift (get_task b 0);
  tb ← get_tcb t;
  r0 ← lift (unwrap (t_user_resource tb));
  let r := mkResource (tid r0) user_stack_base in
  upd_tcb t (with_resource (Some r));;
  map_user_resource r p;;
  b ← get_proc p;
  ppn ← on_mm (trap_cx_ppn r (address_space b));
  upd_tcb t (with_trap_cx_ppn ppn);;
  '(user_sp, argv_base) ← on_mm (push_arguments (satp sp) (user_stack_top r) args);
  s ← get;
  let cx := initial_context entry_point user_sp tb s in
  on_mm (write_trap_cx ppn (set_gpr A1 argv_base (set_gpr A0 (Z.of_nat (length args)) cx))).

(** [ProcessControlBlock::fork] *)
Definition fork (p : nat) : ST (kstate F) nat :=
  b ← get_proc p;
  lift (rassert (thread_count b =? 1));;
  sp ← on_mm (from_existed_user strampoline (address_space b));
  pid ← pid_alloc;
  c ← new_proc (mkPCB pid false sp (Some p) [] 0 (fd_table b) 0 (p_signal_actions b) (p_signal_mask b) (-1)
                  false false [] Recycle.new);
  main ← lift (get_task b 0);
  mb ← get_tcb main;
  r ← lift (unwrap (t_user_resource mb));
  t ← TaskControlBlock_new c (user_stack_base r) false;
  tb ← get_tcb t;
  on_mm (store_word (t_trap_cx_ppn tb) KERNEL_STACK_TOP (kernel_stack_top_of tb));;
  upd_proc c (fun b => with_tasks (vec_push (tasks b) (Some t)) b);;
  on_sched (add_task t);;
  insert_into_pid2process pid c;;
  upd_proc p (fun b => with_children (vec_push (children b) c) b);;
  mret c.

Definition current_proc : ST (kstate F) nat := t ← on_sched current_task; b ← get_tcb t; get_proc (t_process b);; mret (t_process b).

Definition sys_fork : ST (kstate F) Z :=
  p ← current_proc;
  c ← fork p;
  cb ← get_proc c;
  t ← lift (get_task cb 0);
  tb ← get_tcb t;
  on_mm (store_word (t_trap_cx_ppn tb) A0 0);;
  mret (as_isize (pid cb)).

Definition sys_getpid : ST (kstate F) Z := p ← current_proc; b ← get_proc p; mret (as_isize (pid b)).

(** ** Ending *)

(** [process_inner] stays borrowed in this loop, so that the access to [INITPROC] panics
    when the process is [INITPROC]. *)
Definition reparent (p : nat) (child : nat) : ST (kstate F) unit :=
  upd_proc child (with_parent (Some INITPROC));;
  if decide (p = INITPROC) then panic PanicCall
  else upd_proc INITPROC (fun b => with_children (vec_push (children b) child) b).

Fixpoint take_resources (ts : list nat) : ST (kstate F) (list TaskUserResource) :=
  match ts with
  | [] => mret []
  | t :: ts' =>
      on_sched (remove_inactive_task t);;
      b ← get_tcb t;
      upd_tcb t (with_resource None);;
      rest ← take_resources ts';
      mret (option_list (t_user_resource b) ++ rest)
  end.

(** What happens to the process when its main thread exits or it was killed. *)
Definition exit_process (p : nat) (tid code : Z) : ST (kstate F) unit :=
  b ← get_proc p;
  remove_from_pid2process (pid b);;
  upd_proc p (with_zombie code);;
  st_for (children b) (reparent p);;
  resources ← take_resources (omap id (tasks b));
  st_for resources (fun r => drop_user_resource r p);;
  upd_proc p (with_children []);;
  b ← get_proc p;
  sp ← on_mm (recycle_data_pages (address_space b));
  upd_proc p (with_space sp);;
  upd_proc p (with_fds []);;
  on_sched (Sched.modify (set_tables p no_tables));;
  b ← get_proc p;
  keep ← lift (index (tasks b) tid);
  upd_proc p (with_tasks [keep]);;
  st_for (omap id (tasks b)) release_task.

Definition exit_current_and_run_next (code : Z) : ST (kstate F) unit :=
  o ← on_sched take_current_task;
  t ← lift (unwrap o);
  tb ← get_tcb t;
  b ← get_proc (t_process tb);
  r ← lift (unwrap (t_user_resource tb));
  upd_tcb t (with_exit_code (Some code));;
  upd_tcb t (with_resource None);;
  drop_user_resource r (t_process tb);;
  if (tid r =? 0) || p_killed b then exit_process (t_process tb) (tid r) code else mret tt.

(** ** Waiting *)

Definition matches (which : Z) (b : ProcessControlBlock) : bool := (which =? -1) || (wrap 64 which =? pid b).

Definition any_child (which : Z) (l : list nat) (s : kstate F) : bool :=
  existsb (fun c => match procs s !! c with Some b => matches which b | None => false end) l.
Definition find_zombie (which : Z) (l : list nat) (s : kstate F) : option nat :=
  find_index (fun c => match procs s !! c with Some b => is_zombie b && matches which b | None => false end) l.

Definition sys_waitpid (which exit_code_ptr : Z) : ST (kstate F) Z :=
  p ← current_proc;
  b ← get_proc p;
  s ← get;
  if negb (any_child which (children b) s) then mret (-1)
  else
    match find_zombie which (children b) s with
    | Some i =>
        c ← lift (unwrap (children b !! i));
        upd_proc p (with_children (delete i (children b)));;
        s' ← get;
        lift (rassert (bool_decide (S (proc_refs c s') = 1%nat)));;
        cb ← get_proc c;
        pa ← on_mm (translated_refmut (satp (address_space b)) exit_code_ptr);
        on_mm (store_le 4 pa (exit_code cb));;
        release_proc (S (size (procs s'))) c;;
        mret (as_isize (pid cb))
    | None => mret (-2)
    end.

(** ** Threads *)

(** [while tasks.len() < tid + 1 { tasks.push(None); }] *)
Definition grow_tasks (l : list (option nat)) (n : Z) : list (option nat) :=
  l ++ replicate (Z.to_nat n - length l) None.

Definition sys_thread_create (entry arg : Z) : ST (kstate F) Z :=
  t0 ← on_sched current_task;
  tb0 ← get_tcb t0;
  r0 ← lift (unwrap (t_user_resource tb0));
  t ← TaskControlBlock_new (t_process tb0) (user_stack_base r0) true;
  tb ← get_tcb t;
  r ← lift (unwrap (t_user_resource tb));
  s ← get;
  on_mm (write_trap_cx (t_trap_cx_ppn tb) (set_gpr A0 arg (initial_context entry (user_stack_top r) tb s)));;
  b ← get_proc (t_process tb0);
  l ← lift (index_set (grow_tasks (tasks b) (uadd (tid r) 1)) (tid r) (Some t));
  upd_proc (t_process tb0) (with_tasks l);;
  on_sched (add_task t);;
  mret (as_isize (tid r)).

Definition get_tid (b : TaskControlBlock) : res Z := tid <$> unwrap (t_user_resource b).

Definition sys_gettid : ST (kstate F) Z := t ← on_sched current_task; b ← get_tcb t; i ← lift (get_tid b); mret (as_isize i).

Definition sys_waittid (id : Z) : ST (kstate F) Z :=
  t ← on_sched current_task;
  tb ← get_tcb t;
  i ← lift (get_tid tb);
  if i =? id then mret (-1)
  else
    b ← get_proc (t_process tb);
    if Z.of_nat (length (tasks b)) <? id then mret (-1)
    else
      o ← lift (index (tasks b) id);
      match o with
      | None => mret (-1)
      | Some w =>
          wb ← get_tcb w;
          match t_exit_code wb with
          | Some code =>
              l ← lift (index_set (tasks b) id None);
              upd_proc (t_process tb) (with_tasks l);;
              release_task w;;
              dealloc_tid (t_process tb) id;;
              mret code
          | None => mret (-2)
          end
      end.

(** ** Blocking with a reference to the process

    [sys_semaphore_down] and [sys_condvar_wait] have the [Arc] of the process in their
    frame while they block; [sys_mutex_lock] drops it before. *)
Definition holding (m : ST Sched.kernel (option Z)) : ST (kstate F) (option Z) :=
  p ← current_proc;
  t ← on_sched current_task;
  o ← on_sched m;
  match o with
  | Some v => mret (Some v)
  | None => s ← get; set_held ((t, p) :: held_procs s);; mret None
  end.

Definition k_semaphore_down (sem_id : Z) : ST (kstate F) (option Z) := holding (sys_semaphore_down sem_id).
Definition k_condvar_wait (condvar_id mutex_id : Z) : ST (kstate F) (option Z) := holding (sys_condvar_wait condvar_id mutex_id).

(** Returning from such a call drops the reference. *)
Definition return_from_call (t : nat) : ST (kstate F) unit :=
  s ← get;
  set_held (filter (fun x => x.1 <> t) (held_procs s));;
  st_for (filter (fun x => x.1 = t) (held_procs s)).*2 (release_proc (S (size (procs s)))).

(** The task goes on where it was switched away from, up to where it gives the processor
    up again or returns to user mode. *)
Definition resume_task (t : nat) : ST (kstate F) unit :=
  c ← on_sched (Sched.reads (fun k => unwrap (konts k !! t)));
  returned ← on_sched (resume c);
  if returned : bool then return_from_call t else mret tt.

(** A round of the idle loop. *)
Definition dispatch : ST (kstate F) (option nat) :=
  o ← on_sched run_tasks_round;
  match o with
  | None => mret None
  | Some t => resume_task t;; mret (Some t)
  end.

End processes.

(** A small machine for the examples: 384 frames, an empty kernel address space, and a
    program of two pages. *)
Module Demo.
Definition strampoline : Z := 20480.
Definition trap_handler : Z := 4096.
Definition user_sstatus : Z := 0.
Definition memory : mm Frame.StackFrameAllocator := mkMM ∅ (Frame.init 16 400 Frame.new).
Definition elf : option ElfFile := Some (mkElf [127; 69; 76; 70] [mkPh true 65536 5000 true true true [1; 2; 3]] 65536).

Definition kernel_with (sp : AddressSpace) (m : mm Frame.StackFrameAllocator) : kstate Frame.StackFrameAllocator :=
  mkK m (fst Sched.boot) sp Recycle.new Recycle.new ∅ ∅ ∅ 0 0 [].
Definition start : kstate Frame.StackFrameAllocator :=
  match new_bare memory with
  | Ok (sp, m) => kernel_with sp m
  | Panic _ => kernel_with (mkSpace (PT.mkPageTable 0 []) []) memory
  end.

(** The state after an operation that does not panic. *)
Definition after {A} (m : ST (kstate Frame.StackFrameAllocator) A) (s : kstate Frame.StackFrameAllocator) :=
  match m s with Ok (_, s') => s' | Panic _ => s end.
Definition succeeds {A} (m : ST (kstate Frame.StackFrameAllocator) A) (s : kstate Frame.StackFrameAllocator) : bool :=
  match m s with Ok _ => true | Panic _ => false end.

Lemma after_Ok {A} (m : ST (kstate Frame.StackFrameAllocator) A) s : succeeds m s = true -> exists a, m s = Ok (a, after m s).
Proof. unfold succeeds, after. destruct (m s) as [[a s']|]; [eauto|done]. Qed.

(** [INITPROC] is created and runs. *)
Definition booted : kstate Frame.StackFrameAllocator := after (ProcessControlBlock_new strampoline trap_handler user_sstatus elf) start.
Definition running : kstate Frame.StackFrameAllocator := after dispatch booted.
End Demo.
