(* ===== verification/ProcessTree.v ===== *)
(** The tree of processes: what [fork], [exit_current_and_run_next] and [sys_waitpid] do
    to process ids, parents and children, whatever else the kernel does in between.

    [tree] is the part of the state this is about.  An operation [keeps] it when it
    changes only memory, the scheduler, address spaces, threads or files; the hint
    database [keeps] proves this for everything built from such operations, so that the
    three that change the tree are left. *)

From S2P Require Import Prelude Address Alloc Memory PageTable UserBuffer Sched Signal AddressSpace Process.

#[local] Ltac Zify.zify_post_hook ::= Z.to_euclidean_division_equations.

Record node := mkNode {
  n_pid : Z;
  n_zombie : bool;
  n_parent : option nat;
  n_children : list nat;
}.

Record ptree := mkTree {
  t_next : nat;
  t_pids : Recycle.RecycleAllocator;
  t_table : gmap Z nat;
  t_nodes : gmap nat node;
}.

Definition node_of (b : ProcessControlBlock) : node := mkNode (pid b) (is_zombie b) (parent b) (children b).

Definition tree {F} (s : kstate F) : ptree :=
  mkTree (next_proc s) (PID_ALLOCATOR s) (PID2PCB s) (node_of <$> procs s).

(** * Operations that do not change the tree *)

Section keeps.
Context {F : Type} `{FrameAllocator F}.

Definition keeps {A} (m : ST (kstate F) A) : Prop :=
  forall s a s', m s = Ok (a, s') -> tree s' = tree s.

Lemma keeps_ret {A} (a : A) : keeps (mret a).
Proof. intros s ? ? ?. mon_inv. done. Qed.

Lemma keeps_bind {A B} (m : ST (kstate F) A) (k : A -> ST (kstate F) B) :
  keeps m -> (forall a, keeps (k a)) -> keeps (m ≫= k).
Proof.
  intros Hm Hk s b s' (a & s1 & E1 & E2)%st_bind_Ok. by rewrite (Hk _ _ _ _ E2), (Hm _ _ _ E1).
Qed.

Lemma keeps_lift {A} (r : res A) : keeps (lift r).
Proof. intros s a s' E. apply lift_Ok in E as [_ ->]. done. Qed.

Lemma keeps_get : keeps (get (S := kstate F)).
Proof. intros s a s' E. unfold get in E. by simplify_eq. Qed.

Lemma keeps_panic {A} f : keeps (A := A) (panic f).
Proof. intros s a s' E. discriminate E. Qed.

Lemma keeps_on_mm {A} (m : ST (mm F) A) : keeps (on_mm m).
Proof. intros s a s' E. unfold on_mm in E. destruct (m (k_mm s)) as [[? ?]|]; [|done]. by simplify_eq/=. Qed.

Lemma keeps_on_sched {A} (m : ST Sched.kernel A) : keeps (on_sched m).
Proof. intros s a s' E. unfold on_sched in E. destruct (m (k_sched s)) as [[? ?]|]; [|done]. by simplify_eq/=. Qed.

Lemma keeps_set_kernel_space ids sp : keeps (set_kernel_space ids sp).
Proof. intros s a s' E. unfold set_kernel_space in E. by simplify_eq. Qed.

Lemma keeps_set_tcbs m : keeps (set_tcbs m).
Proof. intros s a s' E. unfold set_tcbs in E. by simplify_eq. Qed.

Lemma keeps_set_held l : keeps (set_held l).
Proof. intros s a s' E. unfold set_held in E. by simplify_eq. Qed.

Lemma keeps_new_task b : keeps (new_task b).
Proof. intros s a s' E. unfold new_task in E. by simplify_eq. Qed.

Lemma keeps_get_proc p : keeps (get_proc p).
Proof. intros s a s' E. by apply lift_Ok in E as [_ ->]. Qed.

Lemma keeps_get_tcb t : keeps (get_tcb t).
Proof. intros s a s' E. by apply lift_Ok in E as [_ ->]. Qed.

Lemma keeps_upd_proc p f : (forall b, node_of (f b) = node_of b) -> keeps (upd_proc p f).
Proof.
  intros Hf s a s' E. unfold upd_proc, get_proc, get, set_procs in E. mon_inv. unfold tree. cbn. f_equal.
  rewrite fmap_insert, Hf. apply insert_id. rewrite lookup_fmap. by rewrite H0.
Qed.

Lemma keeps_upd_tcb t f : keeps (upd_tcb t f).
Proof. intros s a s' E. unfold upd_tcb, get_tcb, get, set_tcbs in E. mon_inv. done. Qed.

Lemma keeps_st_for {A} (l : list A) (f : A -> ST (kstate F) unit) : (forall x, keeps (f x)) -> keeps (st_for l f).
Proof. intros Hf. induction l as [|x l IH]; [apply keeps_ret|]. apply keeps_bind; [done|]. intros _. exact IH. Qed.
End keeps.

Create HintDb keeps discriminated.
#[export] Hint Resolve keeps_ret keeps_lift keeps_get keeps_panic keeps_on_mm keeps_on_sched keeps_set_kernel_space
  keeps_set_tcbs keeps_set_held keeps_new_task keeps_get_proc keeps_get_tcb keeps_upd_tcb : keeps.

(** Walk through a program. *)
Ltac keeps_tac :=
  repeat first
    [ match goal with |- forall _, keeps _ => intros ? end
    | apply keeps_upd_proc; intros; reflexivity
    | solve [auto with keeps]
    | apply keeps_bind
    | apply keeps_st_for
    | match goal with |- keeps (match ?x with _ => _ end) => destruct x end ].

Section keeps_ops.
Context {F : Type} `{FrameAllocator F}.

Lemma keeps_alloc_tid p : keeps (F := F) (alloc_tid p).
Proof. unfold alloc_tid. keeps_tac. Qed.
Lemma keeps_dealloc_tid p i : keeps (F := F) (dealloc_tid p i).
Proof. unfold dealloc_tid. keeps_tac. Qed.
Lemma keeps_map_user_resource r p : keeps (F := F) (map_user_resource r p).
Proof. unfold map_user_resource. keeps_tac. Qed.
Lemma keeps_drop_user_resource r p : keeps (F := F) (drop_user_resource r p).
Proof. unfold drop_user_resource. keeps_tac. Qed.
Hint Resolve keeps_alloc_tid keeps_dealloc_tid keeps_map_user_resource keeps_drop_user_resource : keeps.
Lemma keeps_TaskControlBlock_new p base b : keeps (F := F) (TaskControlBlock_new p base b).
Proof. unfold TaskControlBlock_new, TaskUserResource_new. keeps_tac. Qed.
Lemma keeps_drop_task t : keeps (F := F) (drop_task t).
Proof. unfold drop_task. keeps_tac. Qed.
Hint Resolve keeps_drop_task : keeps.
Lemma keeps_release_task t : keeps (F := F) (release_task t).
Proof. unfold release_task. keeps_tac. Qed.
Lemma keeps_take_resources l : keeps (F := F) (take_resources l).
Proof. induction l as [|t l IH]; cbn [take_resources]; keeps_tac. Qed.
Lemma keeps_current_proc : keeps (F := F) current_proc.
Proof. unfold current_proc. keeps_tac. Qed.
End keeps_ops.
#[export] Hint Resolve keeps_alloc_tid keeps_dealloc_tid keeps_map_user_resource keeps_drop_user_resource
  keeps_TaskControlBlock_new keeps_drop_task keeps_release_task keeps_take_resources keeps_current_proc : keeps.

(** * Operations that change it *)

Definition set_node (p : nat) (n : node) (t : ptree) : ptree := mkTree (t_next t) (t_pids t) (t_table t) (<[p := n]> (t_nodes t)).

Section changes.
Context {F : Type} `{FrameAllocator F}.
Implicit Types (s : kstate F).

Lemma get_proc_tree p s b s' : get_proc p s = Ok (b, s') -> s' = s /\ t_nodes (tree s) !! p = Some (node_of b).
Proof. intros E. apply lift_Ok in E as [E ->]. apply unwrap_Ok in E. split; [done|]. cbn. by rewrite lookup_fmap, E. Qed.

Lemma upd_proc_tree p f s u s' :
  upd_proc p f s = Ok (u, s') ->
  exists b, procs s !! p = Some b /\ t_nodes (tree s) !! p = Some (node_of b) /\ tree s' = set_node p (node_of (f b)) (tree s).
Proof.
  intros E. unfold upd_proc in E. apply st_bind_Ok in E as (b & s1 & E1 & E).
  pose proof (get_proc_tree _ _ _ _ E1) as [-> Hn]. apply lift_Ok in E1 as [Hb _]. apply unwrap_Ok in Hb.
  unfold get, set_procs in E. mon_inv. exists b. split_and!; [done|done|]. unfold tree, set_node. cbn. by rewrite fmap_insert.
Qed.

Lemma pid_alloc_tree s id s' :
  pid_alloc s = Ok (id, s') ->
  exists a, Recycle.alloc (t_pids (tree s)) = (id, a) /\ tree s' = mkTree (t_next (tree s)) a (t_table (tree s)) (t_nodes (tree s)).
Proof.
  intros E. unfold pid_alloc in E. cbv [mbind st_bind get set_pids] in E.
  destruct (Recycle.alloc (PID_ALLOCATOR s)) as [i a] eqn:Ea. mon_inv. by exists a.
Qed.

Lemma new_proc_tree b s c s' :
  new_proc b s = Ok (c, s') ->
  c = t_next (tree s) /\ tree s' = mkTree (S (t_next (tree s))) (t_pids (tree s)) (t_table (tree s)) (<[c := node_of b]> (t_nodes (tree s))).
Proof. intros E. unfold new_proc in E. simplify_eq. split; [done|]. unfold tree. cbn. by rewrite fmap_insert. Qed.

Lemma insert_pid_tree id p s u s' :
  insert_into_pid2process id p s = Ok (u, s') ->
  tree s' = mkTree (t_next (tree s)) (t_pids (tree s)) (<[id := p]> (t_table (tree s))) (t_nodes (tree s)).
Proof. intros E. unfold insert_into_pid2process, get, set_pid2pcb in E. mon_inv. done. Qed.

Lemma remove_pid_tree id s u s' :
  remove_from_pid2process id s = Ok (u, s') ->
  is_Some (t_table (tree s) !! id) /\
  tree s' = mkTree (t_next (tree s)) (t_pids (tree s)) (delete id (t_table (tree s))) (t_nodes (tree s)).
Proof.
  intros E. unfold remove_from_pid2process in E. cbv [mbind st_bind get] in E.
  destruct (PID2PCB s !! id) eqn:Ei; [|done]. unfold set_pid2pcb in E. mon_inv. split; [by eexists|done].
Qed.

Lemma drop_pid_tree id s u s' :
  PidHandle_drop id s = Ok (u, s') ->
  exists a, Recycle.dealloc id (t_pids (tree s)) = Ok a /\ tree s' = mkTree (t_next (tree s)) a (t_table (tree s)) (t_nodes (tree s)).
Proof. intros E. unfold PidHandle_drop, get, set_pids in E. mon_inv. by eexists. Qed.

#[local] Arguments tree : simpl never.
#[local] Opaque INITPROC.

(** ** [fork] *)

Definition push_child (c : nat) (n : node) : node := mkNode (n_pid n) (n_zombie n) (n_parent n) (n_children n ++ [c]).

Definition forked (p : nat) (n : node) (id : Z) (a : Recycle.RecycleAllocator) (t : ptree) : ptree :=
  mkTree (S (t_next t)) a (<[id := t_next t]> (t_table t))
    (<[p := push_child (t_next t) n]> (<[t_next t := mkNode id false (Some p) []]> (t_nodes t))).

Lemma ret_Ok {S A} (a b : A) (s s' : S) : (mret a : ST S A) s = Ok (b, s') -> b = a /\ s' = s.
Proof. intros E. unfold mret, st_ret in E. by injection E as <- <-. Qed.

(** Use [keeps] on a step. *)
Lemma keeps_step {A} (m : ST (kstate F) A) s a s' : m s = Ok (a, s') -> keeps m -> tree s' = tree s.
Proof. intros E Hk. by eapply Hk. Qed.

Lemma fork_tree st p s c s' :
  fork st p s = Ok (c, s') -> p <> t_next (tree s) ->
  exists n id a, t_nodes (tree s) !! p = Some n /\ Recycle.alloc (t_pids (tree s)) = (id, a) /\ c = t_next (tree s) /\
    tree s' = forked p n id a (tree s).
Proof.
  intros E Hp. unfold fork in E.
  apply st_bind_Ok in E as (b & s1 & E1 & E). apply get_proc_tree in E1 as [-> Hn].
  apply st_bind_Ok in E as (? & s2 & E2 & E). apply keeps_step in E2; [|auto with keeps].
  apply st_bind_Ok in E as (sp & s3 & E3 & E). apply keeps_step in E3; [|auto with keeps].
  apply st_bind_Ok in E as (id & s4 & E4 & E). apply pid_alloc_tree in E4 as (a & Ea & E4).
  apply st_bind_Ok in E as (c' & s5 & E5 & E). apply new_proc_tree in E5 as [Ec E5].
  apply st_bind_Ok in E as (main & s6 & E6 & E). apply keeps_step in E6; [|auto with keeps].
  apply st_bind_Ok in E as (mb & s7 & E7 & E). apply keeps_step in E7; [|auto with keeps].
  apply st_bind_Ok in E as (r & s8 & E8 & E). apply keeps_step in E8; [|auto with keeps].
  apply st_bind_Ok in E as (t & s9 & E9 & E). apply keeps_step in E9; [|auto with keeps].
  apply st_bind_Ok in E as (tb & s10 & E10 & E). apply keeps_step in E10; [|auto with keeps].
  apply st_bind_Ok in E as (? & s11 & E11 & E). apply keeps_step in E11; [|auto with keeps].
  apply st_bind_Ok in E as (? & s12 & E12 & E). apply keeps_step in E12; [|apply keeps_upd_proc; intros; reflexivity].
  apply st_bind_Ok in E as (? & s13 & E13 & E). apply keeps_step in E13; [|auto with keeps].
  apply st_bind_Ok in E as (? & s14 & E14 & E). apply insert_pid_tree in E14.
  apply st_bind_Ok in E as (? & s15 & E15 & E). apply upd_proc_tree in E15 as (pb & _ & Hpb & E15). apply ret_Ok in E as [-> ->].
  rewrite E3, E2 in Ea, E4. rewrite E4 in Ec, E5. cbn [t_next t_pids t_table t_nodes] in Ec, E5.
  assert (Et13 : tree s13 = tree s5) by congruence. rewrite Et13, E5 in E14. rewrite E14 in E15, Hpb.
  cbn [t_next t_pids t_table t_nodes] in E15, Hpb. rewrite lookup_insert_ne in Hpb by congruence.
  exists (node_of b), id, a. split_and!; [done|done|done|]. rewrite E15, Ec. unfold forked, set_node.
  cbn [t_next t_pids t_table t_nodes].
  assert (node_of pb = node_of b) as Hnb by congruence. injection Hnb as H1 H2 H3 H4.
  unfold push_child, node_of. cbn. unfold vec_push. rewrite H1, H2, H3, H4. done.
Qed.

(** ** [exit] *)

Definition reparented (l : list nat) (q : nat) (n : node) : node :=
  mkNode (n_pid n) (n_zombie n) (if decide (q ∈ l) then Some INITPROC else n_parent n)
    (if decide (q = INITPROC) then n_children n ++ l else n_children n).

Lemma reparented_nil q n : reparented [] q n = n.
Proof. unfold reparented. rewrite decide_False by apply not_elem_of_nil. rewrite app_nil_r. destruct n. by case_decide. Qed.

Lemma reparented_cons c l q n : reparented l q (reparented [c] q n) = reparented (c :: l) q n.
Proof.
  unfold reparented. cbn. f_equal.
  - repeat case_decide; set_solver.
  - case_decide; [|done]. by rewrite <- app_assoc.
Qed.

Lemma reparent_loop_tree p l s u s' :
  st_for l (reparent p) s = Ok (u, s') ->
  (l <> [] -> p <> INITPROC) /\
  tree s' = mkTree (t_next (tree s)) (t_pids (tree s)) (t_table (tree s))
    (map_imap (fun q n => Some (reparented l q n)) (t_nodes (tree s))).
Proof.
  revert s. induction l as [|c l IH]; intros s E; cbn [st_for] in E.
  { apply ret_Ok in E as [_ ->]. split; [done|]. unfold tree. f_equal. apply map_eq. intros q. rewrite map_lookup_imap.
    destruct (_ !! q); [|done]. cbn. by rewrite reparented_nil. }
  apply st_bind_Ok in E as (? & s1 & E1 & E). destruct (IH _ E) as [_ E2]. unfold reparent in E1.
  apply st_bind_Ok in E1 as (? & s2 & E3 & E1). apply upd_proc_tree in E3 as (cb & _ & Hc & E3).
  destruct (decide (p = INITPROC)) as [|Hp]; [done|]. apply upd_proc_tree in E1 as (ib & _ & Hi & E1).
  split; [done|]. rewrite E2, E1, E3. unfold set_node. cbn [t_next t_pids t_table t_nodes]. f_equal.
  apply map_eq. intros q. rewrite !map_lookup_imap. rewrite E3 in Hi. cbn [t_nodes set_node] in Hi.
  destruct (decide (q = INITPROC)) as [->|Hqi].
  - rewrite lookup_insert_eq. destruct (decide (c = INITPROC)) as [->|Hci].
    + rewrite lookup_insert_eq in Hi. rewrite Hc. cbn. f_equal. rewrite <- reparented_cons. f_equal.
      unfold node_of, with_parent in Hi. cbn in Hi. injection Hi as H1 H2 H3 H4.
      unfold reparented, node_of, with_children, vec_push. cbn.
      rewrite decide_True by (by left). f_equal; try congruence. case_decide; [congruence|done].
    + rewrite lookup_insert_ne in Hi by done. rewrite Hi. cbn. f_equal. rewrite <- reparented_cons. f_equal.
      unfold reparented, node_of. cbn. rewrite decide_False by (intros ?%list_elem_of_singleton; congruence). done.
  - rewrite lookup_insert_ne by done. destruct (decide (q = c)) as [->|Hqc].
    + rewrite lookup_insert_eq, Hc. cbn. f_equal. rewrite <- reparented_cons. f_equal.
      unfold reparented, node_of. cbn. rewrite decide_True by (by left). by rewrite decide_False.
    + rewrite lookup_insert_ne by done. destruct (t_nodes (tree s) !! q) as [n|]; [|done]. cbn. f_equal.
      rewrite <- reparented_cons. f_equal. unfold reparented.
      rewrite decide_False by (intros ?%list_elem_of_singleton; congruence). rewrite decide_False by done. by destruct n.
Qed.

Definition exited (p : nat) (n : node) (t : ptree) : ptree :=
  mkTree (t_next t) (t_pids t) (delete (n_pid n) (t_table t))
    (<[p := mkNode (n_pid n) true (n_parent n) []]>
      (map_imap (fun q m => Some (reparented (n_children n) q m)) (t_nodes t))).

Lemma exit_process_tree p tid code s u s' :
  exit_process p tid code s = Ok (u, s') ->
  exists n, t_nodes (tree s) !! p = Some n /\ is_Some (t_table (tree s) !! n_pid n) /\
    (n_children n <> [] -> p <> INITPROC) /\
    (p ∉ n_children n -> tree s' = exited p n (tree s)).
Proof.
  intros E. unfold exit_process in E.
  apply st_bind_Ok in E as (b & s1 & E1 & E). apply get_proc_tree in E1 as [-> Hn].
  apply st_bind_Ok in E as (? & s2 & E2 & E). apply remove_pid_tree in E2 as [Hin E2].
  apply st_bind_Ok in E as (? & s3 & E3 & E). apply upd_proc_tree in E3 as (b' & _ & Hb' & E3).
  apply st_bind_Ok in E as (? & s4 & E4 & E). apply reparent_loop_tree in E4 as [Hp E4].
  apply st_bind_Ok in E as (rs & s5 & E5 & E). apply keeps_step in E5; [|auto with keeps].
  apply st_bind_Ok in E as (? & s6 & E6 & E). apply keeps_step in E6; [|apply keeps_st_for; auto with keeps].
  apply st_bind_Ok in E as (? & s7 & E7 & E). apply upd_proc_tree in E7 as (b7 & _ & Hb7 & E7).
  assert (E8 : tree s' = tree s7).
  { eapply keeps_step; [exact E|]. keeps_tac. }
  exists (node_of b). split_and!; [done|done|done|]. intros Hnc. cbn [node_of n_children] in *.
  rewrite E2 in Hb', E3. cbn [t_nodes t_next t_pids t_table] in Hb', E3.
  assert (node_of b' = node_of b) as Hbb by congruence.
  assert (Ez : node_of (with_zombie code b') = mkNode (pid b) true (parent b) (children b)).
  { injection Hbb as H1 H2 H3 H4. unfold node_of, with_zombie. cbn. congruence. }
  rewrite Ez in E3. rewrite E3 in E4. rewrite E6, E5, E4 in Hb7, E7.
  unfold set_node in Hb7, E7. cbn [t_nodes t_next t_pids t_table] in Hb7, E7.
  rewrite map_lookup_imap, lookup_insert_eq in Hb7. cbn in Hb7. injection Hb7 as H1 H2 H3 H4.
  rewrite E8, E7. unfold exited. f_equal. unfold with_children, node_of. cbn.
  rewrite <- H1, <- H2, <- H3. cbn. rewrite decide_False by done. apply map_eq. intros q.
  destruct (decide (q = p)) as [->|]; [by rewrite !lookup_insert_eq|]. rewrite !lookup_insert_ne by done.
  rewrite !map_lookup_imap. by rewrite lookup_insert_ne.
Qed.

Lemma exit_tree code s u s' :
  exit_current_and_run_next code s = Ok (u, s') ->
  tree s' = tree s \/
  exists p n, t_nodes (tree s) !! p = Some n /\ is_Some (t_table (tree s) !! n_pid n) /\
    (n_children n <> [] -> p <> INITPROC) /\ (p ∉ n_children n -> tree s' = exited p n (tree s)).
Proof.
  intros E. unfold exit_current_and_run_next in E.
  apply st_bind_Ok in E as (o & s1 & E1 & E). apply keeps_step in E1; [|auto with keeps].
  apply st_bind_Ok in E as (t & s2 & E2 & E). apply keeps_step in E2; [|auto with keeps].
  apply st_bind_Ok in E as (tb & s3 & E3 & E). apply keeps_step in E3; [|auto with keeps].
  apply st_bind_Ok in E as (b & s4 & E4 & E). apply keeps_step in E4; [|auto with keeps].
  apply st_bind_Ok in E as (r & s5 & E5 & E). apply keeps_step in E5; [|auto with keeps].
  apply st_bind_Ok in E as (? & s6 & E6 & E). apply keeps_step in E6; [|auto with keeps].
  apply st_bind_Ok in E as (? & s7 & E7 & E). apply keeps_step in E7; [|auto with keeps].
  apply st_bind_Ok in E as (? & s8 & E8 & E). apply keeps_step in E8; [|auto with keeps].
  assert (Et : tree s8 = tree s) by congruence. destruct (_ || _).
  - right. apply exit_process_tree in E as (n & Hn & Ht & Hi & Hx). rewrite Et in *. by exists (t_process tb), n.
  - left. by apply ret_Ok in E as [_ ->].
Qed.
End changes.

(** * The invariant *)

Record tree_ok (t : ptree) : Prop := {
  to_wf : Recycle.wf (t_pids t);
  to_live : forall p n, t_nodes t !! p = Some n -> n_pid n ∈ Recycle.live (t_pids t);
  to_inj : forall p q n m, t_nodes t !! p = Some n -> t_nodes t !! q = Some m -> n_pid n = n_pid m -> p = q;
  to_fresh : forall p n, t_nodes t !! p = Some n -> (p < t_next t)%nat;
  to_table : forall i p, t_table t !! i = Some p <->
    exists n, t_nodes t !! p = Some n /\ n_pid n = i /\ n_zombie n = false;
  to_child : forall p n c, t_nodes t !! p = Some n -> c ∈ n_children n ->
    c <> p /\ exists m, t_nodes t !! c = Some m /\ n_parent m = Some p;
  to_nodup : forall p n, t_nodes t !! p = Some n -> NoDup (n_children n);
  to_parent : forall c m, t_nodes t !! c = Some m -> c <> INITPROC ->
    exists p n, t_nodes t !! p = Some n /\ c ∈ n_children n;
  to_zombie : forall p n, t_nodes t !! p = Some n -> n_zombie n = true -> p <> INITPROC -> n_children n = [];
  to_init : exists n, t_nodes t !! INITPROC = Some n /\ n_parent n = None;
}.

(** A child has one parent. *)
Lemma one_parent t p q n m c :
  tree_ok t -> t_nodes t !! p = Some n -> t_nodes t !! q = Some m -> c ∈ n_children n -> c ∈ n_children m -> p = q.
Proof.
  intros Ht Hp Hq H1 H2. destruct (to_child _ Ht p n c Hp H1) as (_ & k & Hk & E1).
  destruct (to_child _ Ht q m c Hq H2) as (_ & k' & Hk' & E2). congruence.
Qed.

Lemma init_no_child t p n : tree_ok t -> t_nodes t !! p = Some n -> INITPROC ∉ n_children n.
Proof.
  intros Ht Hp Hin. destruct (to_child _ Ht p n _ Hp Hin) as (_ & k & Hk & E1).
  destruct (to_init _ Ht) as (k' & Hk' & E2). congruence.
Qed.

Lemma forked_ok t p n id a :
  tree_ok t -> t_nodes t !! p = Some n -> n_zombie n = false -> Recycle.current (t_pids t) < 2 ^ 64 - 1 ->
  Recycle.alloc (t_pids t) = (id, a) -> tree_ok (forked p n id a t).
Proof.
  intros Ht Hp Hz Hc Ha. destruct (Recycle.alloc_correct _ _ _ (to_wf _ Ht) Hc Ha) as (Hwf & Hni & Hl & _).
  set (c := t_next t). assert (Hcn : t_nodes t !! c = None).
  { destruct (t_nodes t !! c) eqn:E; [|done]. apply (to_fresh _ Ht) in E. unfold c in E. lia. }
  assert (Hpc : p <> c) by congruence.
  assert (Hold : forall q m, t_nodes (forked p n id a t) !! q = Some m ->
    (q = c /\ m = mkNode id false (Some p) []) \/ (q = p /\ m = push_child c n) \/
    (q <> c /\ q <> p /\ t_nodes t !! q = Some m)).
  { intros q m Hq. cbn in Hq. fold c in Hq. destruct (decide (q = p)) as [->|].
    { rewrite lookup_insert_eq in Hq. naive_solver. }
    rewrite lookup_insert_ne in Hq by done. destruct (decide (q = c)) as [->|].
    { rewrite lookup_insert_eq in Hq. naive_solver. }
    rewrite lookup_insert_ne in Hq by done. naive_solver. }
  assert (Hpn : t_nodes (forked p n id a t) !! p = Some (push_child c n)) by apply lookup_insert_eq.
  assert (Hcc : t_nodes (forked p n id a t) !! c = Some (mkNode id false (Some p) [])).
  { cbn. fold c. by rewrite lookup_insert_ne, lookup_insert_eq. }
  assert (Hkeep : forall q m, t_nodes t !! q = Some m -> q <> p -> t_nodes (forked p n id a t) !! q = Some m).
  { intros q m Hq Hqp. cbn. fold c. by rewrite !lookup_insert_ne by congruence. }
  assert (Hpid : forall q m, t_nodes t !! q = Some m -> n_pid m <> id).
  { intros q m Hq <-. by apply Hni, (to_live _ Ht q). }
  split.
  - exact Hwf.
  - cbn [t_pids forked]. rewrite Hl. intros q m [[-> ->]|[[-> ->]|(_ & _ & Hq)]]%Hold; cbn; [set_solver| |].
    + pose proof (to_live _ Ht p n Hp). set_solver.
    + pose proof (to_live _ Ht q m Hq). set_solver.
  - intros q1 q2 m1 m2 H1%Hold H2%Hold E.
    destruct H1 as [[-> ->]|[[-> ->]|(_ & _ & H1)]], H2 as [[-> ->]|[[-> ->]|(_ & _ & H2)]]; cbn in E; try done.
    + by destruct (Hpid p n Hp).
    + by destruct (Hpid q2 m2 H2).
    + by destruct (Hpid p n Hp).
    + by eapply (to_inj _ Ht); [exact Hp|exact H2|].
    + by destruct (Hpid q1 m1 H1).
    + by eapply (to_inj _ Ht); [exact H1|exact Hp|].
    + by eapply (to_inj _ Ht).
  - cbn [t_next forked]. fold c. intros q m [[-> ->]|[[-> ->]|(_ & _ & Hq)]]%Hold; [lia| |].
    + apply (to_fresh _ Ht) in Hp. unfold c. lia.
    + apply (to_fresh _ Ht) in Hq. unfold c. lia.
  - intros i q. cbn [t_table forked]. fold c. destruct (decide (i = id)) as [->|Hi].
    + rewrite lookup_insert_eq. split.
      * intros [= <-]. by eexists.
      * intros (m & [[-> ->]|[[-> ->]|(_ & _ & Hq)]]%Hold & Hm & _); [done|by destruct (Hpid p n Hp)|by destruct (Hpid q m Hq)].
    + rewrite lookup_insert_ne by done. rewrite (to_table _ Ht). split.
      * intros (m & Hq & Hm & Hzm). destruct (decide (q = p)) as [->|].
        -- exists (push_child c n). assert (m = n) as -> by congruence. done.
        -- exists m. split; [by apply Hkeep|done].
      * intros (m & [[-> ->]|[[-> ->]|(_ & _ & Hq)]]%Hold & Hm & Hzm); [by cbn in Hm|by exists n|by exists m].
  - intros q m x [[-> ->]|[[-> ->]|(Hqc & Hqp & Hq)]]%Hold Hx; cbn in Hx.
    + by apply elem_of_nil in Hx.
    + apply elem_of_app in Hx as [Hx| ->%list_elem_of_singleton]; [|by split; [congruence|eexists]].
      destruct (to_child _ Ht p n x Hp Hx) as (Hxp & m & Hm & Hmp). split; [done|]. exists m. split; [by apply Hkeep|done].
    + destruct (to_child _ Ht q m x Hq Hx) as (Hxq & m' & Hm' & Hmp). split; [done|].
      destruct (decide (x = p)) as [->|]; [|exists m'; split; [by apply Hkeep|done]].
      exists (push_child c n). split; [done|]. cbn. congruence.
  - intros q m [[-> ->]|[[-> ->]|(_ & _ & Hq)]]%Hold; cbn; [constructor| |by apply (to_nodup _ Ht q)].
    apply NoDup_app. split_and!; [by apply (to_nodup _ Ht p)| |apply NoDup_singleton].
    intros x Hx ->%list_elem_of_singleton. destruct (to_child _ Ht p n c Hp Hx) as (_ & m & Hm & _). congruence.
  - intros q m Hq Hqi. destruct (Hold q m Hq) as [[-> ->]|[[-> ->]|(_ & _ & Hq')]].
    + exists p, (push_child c n). split; [done|]. cbn. set_solver.
    + destruct (to_parent _ Ht p n Hp Hqi) as (y & k & Hy & Hin). destruct (decide (y = p)) as [->|].
      * exists p, (push_child c n). assert (k = n) as -> by congruence. split; [done|]. cbn. set_solver.
      * exists y, k. split; [by apply Hkeep|done].
    + destruct (to_parent _ Ht q m Hq' Hqi) as (y & k & Hy & Hin). destruct (decide (y = p)) as [->|].
      * exists p, (push_child c n). assert (k = n) as -> by congruence. split; [done|]. cbn. set_solver.
      * exists y, k. split; [by apply Hkeep|done].
  - intros q m [[-> ->]|[[-> ->]|(_ & _ & Hq)]]%Hold Hzm Hqi; [done|cbn in Hzm; congruence|by apply (to_zombie _ Ht q)].
  - destruct (to_init _ Ht) as (k & Hk & Hkp). destruct (decide (INITPROC = p)) as [E|].
    + exists (push_child c n). rewrite E. split; [done|]. cbn. congruence.
    + exists k. split; [by apply Hkeep|done].
Qed.

(** ** [exit] preserves it *)

Lemma exited_lookup p n t q m :
  t_nodes (exited p n t) !! q = Some m <->
  (q = p /\ m = mkNode (n_pid n) true (n_parent n) []) \/
  (q <> p /\ exists m0, t_nodes t !! q = Some m0 /\ m = reparented (n_children n) q m0).
Proof.
  cbn [exited t_nodes]. destruct (decide (q = p)) as [->|Hq].
  - rewrite lookup_insert_eq. naive_solver.
  - rewrite lookup_insert_ne, map_lookup_imap by done. destruct (t_nodes t !! q); cbn; naive_solver.
Qed.

Lemma reparented_children l q n c :
  c ∈ n_children (reparented l q n) <-> c ∈ n_children n \/ (q = INITPROC /\ c ∈ l).
Proof. cbn. case_decide; [rewrite elem_of_app|]; naive_solver. Qed.

Lemma exited_pid p n t q m :
  t_nodes t !! p = Some n -> t_nodes (exited p n t) !! q = Some m -> exists m0, t_nodes t !! q = Some m0 /\ n_pid m0 = n_pid m.
Proof.
  intros Hp. rewrite exited_lookup. intros [[-> ->]|(_ & m0 & H0 & ->)]; [by exists n|by exists m0].
Qed.

Section exit_ok.
Context (t : ptree) (p : nat) (n : node).
Hypothesis Ht : tree_ok t.
Hypothesis Hp : t_nodes t !! p = Some n.
Hypothesis Hi : n_children n <> [] -> p <> INITPROC.

Lemma child_not_init c : c ∈ n_children n -> p <> INITPROC /\ c <> INITPROC /\ c <> p.
Proof.
  intros Hc. destruct (to_child _ Ht p n c Hp Hc) as [Hne _]. split_and!; [|intros ->|done].
  - apply Hi. destruct (n_children n); [by apply elem_of_nil in Hc|done].
  - by apply (init_no_child _ _ _ Ht Hp).
Qed.

Lemma exited_table i q :
  t_table (exited p n t) !! i = Some q <->
  exists m, t_nodes (exited p n t) !! q = Some m /\ n_pid m = i /\ n_zombie m = false.
Proof.
  cbn [exited t_table]. setoid_rewrite exited_lookup. destruct (decide (i = n_pid n)) as [->|Hin].
  - rewrite lookup_delete_eq. split; [done|].
    intros (m & [[-> ->]|(Hqp & m0 & H0 & ->)] & Hm & Hz); [done|]. cbn in Hm.
    by destruct Hqp; eapply (to_inj _ Ht).
  - rewrite lookup_delete_ne by done. rewrite (to_table _ Ht). split.
    + intros (m & Hq & Hm & Hz). assert (q <> p) by (intros ->; congruence).
      exists (reparented (n_children n) q m). split; [naive_solver|done].
    + intros (m & [[-> ->]|(Hqp & m0 & H0 & ->)] & Hm & Hz); [done|]. by exists m0.
Qed.

Lemma exited_child q m c :
  t_nodes (exited p n t) !! q = Some m -> c ∈ n_children m ->
  c <> q /\ exists k, t_nodes (exited p n t) !! c = Some k /\ n_parent k = Some q.
Proof.
  rewrite exited_lookup. intros [[-> ->]|(Hqp & m0 & H0 & ->)]; [by intros ?%elem_of_nil|].
  intros [Hc|[-> Hc]]%reparented_children; setoid_rewrite exited_lookup.
  - destruct (to_child _ Ht q m0 c H0 Hc) as (Hcq & k & Hk & Hkp). split; [done|].
    destruct (decide (c = p)) as [->|Hcp].
    { eexists. split; [by left|]. cbn. congruence. }
    exists (reparented (n_children n) c k). split; [naive_solver|]. cbn.
    rewrite decide_False; [done|]. intros Hin. by destruct Hqp; eapply one_parent.
  - destruct (child_not_init c Hc) as (Hpi & Hci & Hcp). split; [done|].
    destruct (to_child _ Ht p n c Hp Hc) as (_ & k & Hk & _).
    exists (reparented (n_children n) c k). split; [naive_solver|]. cbn. by rewrite decide_True.
Qed.

Lemma exited_nodup q m : t_nodes (exited p n t) !! q = Some m -> NoDup (n_children m).
Proof.
  rewrite exited_lookup. intros [[-> ->]|(Hqp & m0 & H0 & ->)]; [constructor|].
  pose proof (to_nodup _ Ht q m0 H0) as Hn. cbn. case_decide; [|done].
  apply NoDup_app. split_and!; [done| |by eapply (to_nodup _ Ht)].
  intros c H1 H2. by destruct Hqp; eapply one_parent.
Qed.

Lemma exited_parent c m :
  t_nodes (exited p n t) !! c = Some m -> c <> INITPROC ->
  exists q k, t_nodes (exited p n t) !! q = Some k /\ c ∈ n_children k.
Proof.
  intros Hc Hci. destruct (exited_pid _ _ _ _ _ Hp Hc) as (m0 & H0 & _).
  destruct (to_parent _ Ht c m0 H0 Hci) as (y & k & Hy & Hin). destruct (decide (y = p)) as [->|Hyp].
  - assert (k = n) as -> by congruence. destruct (child_not_init c Hin) as (Hpi & _).
    destruct (to_init _ Ht) as (i & Hii & _). exists INITPROC, (reparented (n_children n) INITPROC i).
    split; [|rewrite reparented_children; naive_solver]. rewrite exited_lookup. naive_solver.
  - exists y, (reparented (n_children n) y k). split; [|rewrite reparented_children; naive_solver].
    rewrite exited_lookup. naive_solver.
Qed.

Lemma exited_ok : tree_ok (exited p n t).
Proof.
  split.
  - exact (to_wf _ Ht).
  - intros q m Hq. destruct (exited_pid _ _ _ _ _ Hp Hq) as (m0 & H0 & <-). by apply (to_live _ Ht q).
  - intros q1 q2 m1 m2 H1 H2 E. destruct (exited_pid _ _ _ _ _ Hp H1) as (k1 & K1 & E1).
    destruct (exited_pid _ _ _ _ _ Hp H2) as (k2 & K2 & E2). eapply (to_inj _ Ht); [exact K1|exact K2|congruence].
  - intros q m Hq. destruct (exited_pid _ _ _ _ _ Hp Hq) as (m0 & H0 & _). by eapply (to_fresh _ Ht).
  - exact exited_table.
  - exact exited_child.
  - exact exited_nodup.
  - exact exited_parent.
  - intros q m. rewrite exited_lookup. intros [[-> ->]|(Hqp & m0 & H0 & ->)] Hz Hqi; [done|].
    cbn. rewrite decide_False by done. by eapply (to_zombie _ Ht).
  - destruct (to_init _ Ht) as (k & Hk & Hkp). destruct (decide (INITPROC = p)) as [E|E].
    + eexists. rewrite exited_lookup. split; [by left|]. cbn. congruence.
    + exists (reparented (n_children n) INITPROC k). rewrite exited_lookup. split; [naive_solver|]. cbn.
      rewrite decide_False; [done|]. by apply (init_no_child _ _ _ Ht Hp).
Qed.
End exit_ok.

(** ** [sys_waitpid] *)

(** [p], of node [n], takes its [i]-th child [c] away. *)
Definition reaped (p : nat) (n : node) (i c : nat) (a : Recycle.RecycleAllocator) (t : ptree) : ptree :=
  mkTree (t_next t) a (t_table t)
    (delete c (<[p := mkNode (n_pid n) (n_zombie n) (n_parent n) (delete i (n_children n))]> (t_nodes t))).

Lemma reaped_lookup p n i c a t q m :
  t_nodes (reaped p n i c a t) !! q = Some m <->
  q <> c /\ ((q = p /\ m = mkNode (n_pid n) (n_zombie n) (n_parent n) (delete i (n_children n))) \/
             (q <> p /\ t_nodes t !! q = Some m)).
Proof.
  cbn [reaped t_nodes]. destruct (decide (q = c)) as [->|Hq]; [rewrite lookup_delete_eq; naive_solver|].
  rewrite lookup_delete_ne by done.
  destruct (decide (q = p)) as [->|]; [rewrite lookup_insert_eq|rewrite lookup_insert_ne by done]; naive_solver.
Qed.

Lemma elem_of_delete_nodup {A} (l : list A) i x y :
  NoDup l -> l !! i = Some y -> x ∈ delete i l <-> x ∈ l /\ x <> y.
Proof.
  intros Hn Hi. rewrite (delete_Permutation l i y Hi) in Hn. apply NoDup_cons in Hn as [Hn _].
  split.
  - intros Hx. split; [|by intros ->]. rewrite (delete_Permutation l i y Hi). by right.
  - intros [Hx Hxy]. rewrite (delete_Permutation l i y Hi) in Hx. apply elem_of_cons in Hx as [->|Hx]; done.
Qed.

Section reap_ok.
Context (t : ptree) (p : nat) (n : node) (i c : nat) (k : node) (a : Recycle.RecycleAllocator).
Hypothesis Ht : tree_ok t.
Hypothesis Hp : t_nodes t !! p = Some n.
Hypothesis Hc : n_children n !! i = Some c.
Hypothesis Hk : t_nodes t !! c = Some k.
Hypothesis Hz : n_zombie k = true.
Hypothesis Ha : Recycle.dealloc (n_pid k) (t_pids t) = Ok a.

Lemma reaped_distinct : c <> p /\ c <> INITPROC /\ n_children k = [].
Proof.
  assert (c ∈ n_children n) as Hin by (by eapply list_elem_of_lookup_2).
  destruct (to_child _ Ht p n c Hp Hin) as (Hcp & _). split; [done|].
  assert (c <> INITPROC) by (intros ->; by apply (init_no_child _ _ _ Ht Hp)).
  split; [done|by apply (to_zombie _ Ht c)].
Qed.

Lemma reaped_old q m : t_nodes (reaped p n i c a t) !! q = Some m ->
  q <> c /\ exists m0, t_nodes t !! q = Some m0 /\ n_pid m = n_pid m0 /\ n_zombie m = n_zombie m0 /\ n_parent m = n_parent m0 /\
    forall x, x ∈ n_children m <-> x ∈ n_children m0 /\ x <> c.
Proof.
  rewrite reaped_lookup. intros [Hqc [[-> ->]|[Hqp Hq]]]; (split; [done|]).
  - exists n. split_and!; try done. intros x. cbn. apply elem_of_delete_nodup; [by eapply (to_nodup _ Ht)|done].
  - exists m. split_and!; try done. intros x. split; [|by intros [? _]]. intros Hx. split; [done|]. intros ->.
    destruct Hqp. eapply one_parent; try done. by eapply list_elem_of_lookup_2.
Qed.

Lemma reaped_keeps q m : t_nodes t !! q = Some m -> q <> c ->
  exists m', t_nodes (reaped p n i c a t) !! q = Some m' /\ n_pid m' = n_pid m /\ n_zombie m' = n_zombie m /\ n_parent m' = n_parent m /\
    forall x, x ∈ n_children m -> x <> c -> x ∈ n_children m'.
Proof.
  intros Hq Hqc. destruct (decide (q = p)) as [->|Hqp].
  - assert (m = n) as -> by congruence. eexists. rewrite reaped_lookup. split; [naive_solver|]. split_and!; try done.
    intros x Hx Hxc. cbn. apply (elem_of_delete_nodup _ _ _ c); [by eapply (to_nodup _ Ht)|done|done].
  - exists m. rewrite reaped_lookup. naive_solver.
Qed.

Lemma reaped_ok : tree_ok (reaped p n i c a t).
Proof.
  destruct reaped_distinct as (Hcp & Hci & Hkc).
  destruct (Recycle.dealloc_live _ _ (to_wf _ Ht) (to_live _ Ht c k Hk)) as (a' & Ea & Hwf & Hl).
  assert (a' = a) as -> by congruence. split.
  - exact Hwf.
  - intros q m (Hqc & m0 & H0 & -> & _)%reaped_old. cbn [reaped t_pids]. rewrite Hl, elem_of_difference, elem_of_singleton.
    split; [by eapply (to_live _ Ht)|]. intros E. by destruct Hqc; eapply (to_inj _ Ht).
  - intros q1 q2 m1 m2 (_ & k1 & K1 & -> & _)%reaped_old (_ & k2 & K2 & -> & _)%reaped_old. by apply (to_inj _ Ht).
  - intros q m (_ & m0 & H0 & _)%reaped_old. by eapply (to_fresh _ Ht).
  - intros j q. cbn [reaped t_table]. rewrite (to_table _ Ht). split.
    + intros (m & Hq & Hm & Hzm). destruct (reaped_keeps q m Hq) as (m' & ? & ? & ? & _); [intros ->; congruence|].
      exists m'. split_and!; [done|congruence|congruence].
    + intros (m & (_ & m0 & H0 & ? & ? & _)%reaped_old & Hm & Hzm). exists m0. split_and!; [done|congruence|congruence].
  - intros q m x (_ & m0 & H0 & _ & _ & _ & Hx)%reaped_old [Hin Hxc]%Hx.
    destruct (to_child _ Ht q m0 x H0 Hin) as (Hxq & k' & Hk' & Hkp). split; [done|].
    destruct (reaped_keeps x k' Hk' Hxc) as (m' & ? & _ & _ & ? & _). exists m'. split; [done|congruence].
  - intros q m [_ [[_ ->]|[_ Hq]]]%reaped_lookup; [|by apply (to_nodup _ Ht q)]. cbn.
    pose proof (to_nodup _ Ht p n Hp) as Hn. rewrite (delete_Permutation _ _ _ Hc) in Hn. by apply NoDup_cons in Hn as [_ Hn].
  - intros q m (Hqc & m0 & H0 & _)%reaped_old Hqi. destruct (to_parent _ Ht q m0 H0 Hqi) as (y & ky & Hy & Hin).
    assert (y <> c). { intros ->. assert (ky = k) as -> by congruence. rewrite Hkc in Hin. by apply elem_of_nil in Hin. }
    destruct (reaped_keeps y ky Hy) as (m' & ? & _ & _ & _ & Hx); [done|]. exists y, m'. split; [done|by apply Hx].
  - intros q m (_ & m0 & H0 & _ & Hzq & _ & Hx)%reaped_old Hzm Hqi.
    assert (E : n_children m0 = []) by (apply (to_zombie _ Ht q); [done|congruence|done]).
    apply elem_of_nil_inv. intros x [Hin _]%Hx. rewrite E in Hin. by apply elem_of_nil in Hin.
  - destruct (to_init _ Ht) as (k' & Hk' & Hkp). destruct (reaped_keeps _ _ Hk') as (m' & ? & _ & _ & ? & _); [done|].
    exists m'. split; [done|congruence].
Qed.
End reap_ok.

Section waitpid_tree.
Context {F : Type} `{FrameAllocator F}.
Implicit Types (s : kstate F).

#[local] Arguments tree : simpl never.

Lemma on_mm_refs {A} (m : ST (mm F) A) c s a s' : on_mm m s = Ok (a, s') -> proc_refs c s' = proc_refs c s.
Proof. intros E. unfold on_mm in E. destruct (m (k_mm s)) as [[? ?]|]; [|done]. by simplify_eq/=. Qed.

(** Dropping a process that has no children. *)
Lemma release_childless fuel c s u s' k :
  release_proc (S fuel) c s = Ok (u, s') -> proc_refs c s = 0%nat -> t_nodes (tree s) !! c = Some k -> n_children k = [] ->
  exists a, Recycle.dealloc (n_pid k) (t_pids (tree s)) = Ok a /\
    tree s' = mkTree (t_next (tree s)) a (t_table (tree s)) (delete c (t_nodes (tree s))).
Proof.
  intros E Hr Hk Hn. cbn [release_proc] in E.
  apply st_bind_Ok in E as (s0 & s1 & E1 & E). unfold get in E1. injection E1 as <- <-.
  rewrite decide_True in E by done.
  apply st_bind_Ok in E as (b & s2 & E2 & E). apply get_proc_tree in E2 as [-> Hb].
  assert (k = node_of b) as -> by congruence. cbn in Hn.
  apply st_bind_Ok in E as (? & s3 & E3 & E).
  assert (E3' : tree s3 = mkTree (t_next (tree s)) (t_pids (tree s)) (t_table (tree s)) (delete c (t_nodes (tree s)))).
  { unfold set_procs in E3. injection E3 as _ <-. unfold tree. cbn. by rewrite fmap_delete. }
  apply st_bind_Ok in E as (? & s4 & E4 & E). apply drop_pid_tree in E4 as (a & Ea & E4).
  apply st_bind_Ok in E as (? & s5 & E5 & E). apply keeps_step in E5; [|auto with keeps].
  apply st_bind_Ok in E as (? & s6 & E6 & E). rewrite Hn in E6. apply ret_Ok in E6 as [_ ->].
  apply keeps_step in E; [|apply keeps_st_for; auto with keeps].
  exists a. rewrite E3' in Ea. split; [exact Ea|]. by rewrite E, E5, E4, E3'.
Qed.

Lemma find_zombie_Some which l s i :
  find_zombie which l s = Some i ->
  exists c b, l !! i = Some c /\ procs s !! c = Some b /\ is_zombie b = true /\ matches which b = true.
Proof.
  intros (c & Hc & Hb & _)%find_index_Some. destruct (procs s !! c) as [b|] eqn:E; [|done].
  apply andb_prop in Hb as [Hz Hm]. by exists c, b.
Qed.

Lemma current_proc_same s p s' : current_proc s = Ok (p, s') -> s' = s.
Proof.
  intros E. unfold current_proc in E. apply st_bind_Ok in E as (t & s1 & E1 & E). unfold on_sched in E1.
  apply res_bind_Ok in E1 as ([t' k] & Ek & E1). unfold current_task, Sched.reads in Ek. apply lift_Ok in Ek as [_ ->].
  injection E1 as <- <-.
  apply st_bind_Ok in E as (tb & s2 & E2 & E). apply lift_Ok in E2 as [_ ->].
  apply st_bind_Ok in E as (pb & s3 & E3 & E). apply lift_Ok in E3 as [_ ->].
  apply ret_Ok in E as [_ ->]. by destruct s.
Qed.

(** The branch that finds an exited child. *)
Lemma waitpid_reap which ptr s p b i r s' :
  tree_ok (tree s) -> current_proc s = Ok (p, s) -> procs s !! p = Some b -> find_zombie which (children b) s = Some i ->
  sys_waitpid which ptr s = Ok (r, s') ->
  exists c cb a, children b !! i = Some c /\ procs s !! c = Some cb /\ is_zombie cb = true /\ matches which cb = true /\
    Recycle.dealloc (pid cb) (t_pids (tree s)) = Ok a /\ tree s' = reaped p (node_of b) i c a (tree s) /\
    r = as_isize (pid cb).
Proof.
  intros Ht Hcur Hpb Ef E. unfold sys_waitpid in E. erewrite st_bind_run in E; [|exact Hcur]. cbv beta in E.
  apply st_bind_Ok in E as (b0 & s1 & E1 & E). pose proof (get_proc_tree _ _ _ _ E1) as [-> Hn].
  apply lift_Ok in E1 as [E1 _]. rewrite Hpb in E1. injection E1 as <-.
  apply st_bind_Ok in E as (x & s2 & E2 & E). unfold get in E2. injection E2 as <- <-. rewrite Ef in E.
  apply find_zombie_Some in Ef as (c & cb & Hi & Hcb & Hz & Hm).
  assert (Ha : any_child which (children b) s = true).
  { unfold any_child. apply existsb_exists. exists c. rewrite Hcb. split; [|done].
    apply list_elem_of_In. by eapply list_elem_of_lookup_2. }
  rewrite Ha in E. cbn [negb] in E.
  apply st_bind_Ok in E as (c' & s3 & E3 & E). apply lift_Ok in E3 as [Hc' ->]. apply unwrap_Ok in Hc'.
  assert (c' = c) as -> by congruence. clear Hc'.
  assert (Hk : t_nodes (tree s) !! c = Some (node_of cb)) by (unfold tree; cbn; by rewrite lookup_fmap, Hcb).
  destruct (reaped_distinct (tree s) p (node_of b) i c (node_of cb) Ht Hn Hi Hk Hz) as (Hcp & _ & Hch).
  apply st_bind_Ok in E as (? & s4 & E4 & E). apply upd_proc_tree in E4 as (b' & Hb' & _ & E4).
  assert (b' = b) as -> by congruence.
  apply st_bind_Ok in E as (y & s5 & E5 & E). unfold get in E5. injection E5 as <- <-.
  apply st_bind_Ok in E as (? & s6 & E6 & E). apply lift_Ok in E6 as [Hr ->]. unfold rassert in Hr.
  destruct (bool_decide _) eqn:Hb0; [|done]. apply bool_decide_eq_true in Hb0. injection Hb0 as Hb0. clear Hr.
  apply st_bind_Ok in E as (cb' & s7 & E7 & E). apply get_proc_tree in E7 as [-> Hcb'].
  apply st_bind_Ok in E as (pa & s8 & E8 & E). pose proof (on_mm_refs _ c _ _ _ E8) as R8. apply keeps_step in E8; [|auto with keeps].
  apply st_bind_Ok in E as (? & s9 & E9 & E). pose proof (on_mm_refs _ c _ _ _ E9) as R9. apply keeps_step in E9; [|auto with keeps].
  apply st_bind_Ok in E as (? & s10 & E10 & E). apply ret_Ok in E as [-> ->].
  rewrite E4 in Hcb'. cbn [set_node t_nodes] in Hcb'. rewrite lookup_insert_ne in Hcb' by done.
  assert (Ecb : node_of cb' = node_of cb) by congruence.
  apply release_childless with (k := node_of cb) in E10 as (a & Ea & E10); [|congruence| |done].
  - rewrite E9, E8, E4 in Ea, E10. exists c, cb, a. split_and!; try done. f_equal. by injection Ecb.
  - rewrite E9, E8, E4. cbn [set_node t_nodes]. by rewrite lookup_insert_ne.
Qed.

Lemma waitpid_tree which ptr s r s' :
  tree_ok (tree s) -> sys_waitpid which ptr s = Ok (r, s') ->
  tree s' = tree s \/
  exists p n i c k a, t_nodes (tree s) !! p = Some n /\ n_children n !! i = Some c /\ t_nodes (tree s) !! c = Some k /\
    n_zombie k = true /\ Recycle.dealloc (n_pid k) (t_pids (tree s)) = Ok a /\ tree s' = reaped p n i c a (tree s).
Proof.
  intros Ht E0. pose proof E0 as E. unfold sys_waitpid in E.
  apply st_bind_Ok in E as (p & s0 & E1 & E). pose proof (current_proc_same _ _ _ E1) as ->.
  apply st_bind_Ok in E as (b & s1 & E2 & E). pose proof (get_proc_tree _ _ _ _ E2) as [-> Hn].
  apply lift_Ok in E2 as [Hb%unwrap_Ok _].
  apply st_bind_Ok in E as (x & s2 & E3 & E). unfold get in E3. injection E3 as <- <-.
  destruct (negb _); [apply ret_Ok in E as [_ ->]; by left|].
  destruct (find_zombie which (children b) s) as [i|] eqn:Ef; [|apply ret_Ok in E as [_ ->]; by left]. right.
  destruct (waitpid_reap _ _ _ _ _ _ _ _ Ht E1 Hb Ef E0) as (c & cb & a & Hi & Hcb & Hz & _ & Ha & Et & _).
  exists p, (node_of b), i, c, (node_of cb), a. split_and!; try done. unfold tree. cbn. by rewrite lookup_fmap, Hcb.
Qed.

(** ** Everything else *)

Lemma refs_positive p s n : tree_ok (tree s) -> t_nodes (tree s) !! p = Some n -> proc_refs p s <> 0%nat.
Proof.
  intros Ht Hp. unfold proc_refs. destruct (decide (p = INITPROC)) as [|Hpi]; [lia|].
  destruct (to_parent _ Ht p n Hp Hpi) as (q & m & Hq & Hin). unfold tree in Hq. cbn in Hq.
  rewrite lookup_fmap in Hq. apply fmap_Some in Hq as (b & Hb & ->). cbn in Hin.
  enough (count_occ_nat p (concat (children <$> (map_to_list (procs s)).*2)) <> 0%nat) by lia.
  unfold count_occ_nat. intros E%nil_length_inv. apply (filter_nil_not_elem_of _ _ p) in E; [|done]. destruct E.
  apply list_elem_of_In, in_concat. exists (children b). rewrite <- !list_elem_of_In. split; [|done].
  apply list_elem_of_fmap. exists b. split; [done|]. apply list_elem_of_fmap. exists (q, b). split; [done|].
  by apply elem_of_map_to_list.
Qed.

Lemma release_tree fuel p s u s' : tree_ok (tree s) -> release_proc fuel p s = Ok (u, s') -> tree s' = tree s.
Proof.
  intros Ht E. destruct fuel as [|fuel]; [done|]. cbn [release_proc] in E.
  apply st_bind_Ok in E as (s0 & s1 & E1 & E). unfold get in E1. injection E1 as <- <-.
  case_decide as Hr; [|by apply ret_Ok in E as [_ ->]].
  apply st_bind_Ok in E as (b & s2 & E2 & E). apply get_proc_tree in E2 as [-> Hb].
  by destruct (refs_positive _ _ _ Ht Hb).
Qed.
End waitpid_tree.

(** * Runs of the kernel *)

Section runs.
Context {F : Type} `{FrameAllocator F}.
Context (strampoline trap_handler user_sstatus : Z).
Implicit Types (s : kstate F).

#[local] Arguments tree : simpl never.

(** What the kernel does between two traps, or on a turn of the idle loop.  Memory
    changes also while a program runs.  [sys_fork] is a call of a process that has
    not exited, and there are fewer than [2 ^ 64 - 1] process ids. *)
Inductive kstep : kstate F -> kstate F -> Prop :=
| step_fork p b s r s' :
    current_proc s = Ok (p, s) -> procs s !! p = Some b -> is_zombie b = false ->
    Recycle.current (PID_ALLOCATOR s) < 2 ^ 64 - 1 ->
    sys_fork strampoline s = Ok (r, s') -> kstep s s'
| step_exec p elf args s u s' : exec strampoline trap_handler user_sstatus p elf args s = Ok (u, s') -> kstep s s'
| step_exit code s u s' : exit_current_and_run_next code s = Ok (u, s') -> kstep s s'
| step_waitpid which ptr s r s' : sys_waitpid which ptr s = Ok (r, s') -> kstep s s'
| step_thread_create entry arg s r s' : sys_thread_create trap_handler user_sstatus entry arg s = Ok (r, s') -> kstep s s'
| step_waittid tid s r s' : sys_waittid tid s = Ok (r, s') -> kstep s s'
| step_blocking m s r s' : holding m s = Ok (r, s') -> kstep s s'
| step_sched {A} (m : ST Sched.kernel A) s a s' : on_sched m s = Ok (a, s') -> kstep s s'
| step_memory {A} (m : ST (mm F) A) s a s' : on_mm m s = Ok (a, s') -> kstep s s'
| step_dispatch s o s' : dispatch s = Ok (o, s') -> kstep s s'.

(** The kernel before the first process. *)
Definition no_process s : Prop := procs s = ∅ /\ PID2PCB s = ∅ /\ PID_ALLOCATOR s = Recycle.new /\ next_proc s = INITPROC.

Lemma keeps_exec p elf args : keeps (F := F) (exec strampoline trap_handler user_sstatus p elf args).
Proof. unfold exec. keeps_tac. Qed.
Lemma keeps_thread_create entry arg : keeps (F := F) (sys_thread_create trap_handler user_sstatus entry arg).
Proof. unfold sys_thread_create. keeps_tac. Qed.
Lemma keeps_waittid tid : keeps (F := F) (sys_waittid tid).
Proof. unfold sys_waittid. keeps_tac. Qed.
Lemma keeps_holding m : keeps (F := F) (holding m).
Proof. unfold holding. keeps_tac. Qed.

Lemma resume_tree t s u s' : tree_ok (tree s) -> resume_task t s = Ok (u, s') -> tree s' = tree s.
Proof.
  intros Ht E. unfold resume_task in E.
  apply st_bind_Ok in E as (c & s2 & E2 & E). apply keeps_step in E2; [|auto with keeps].
  apply st_bind_Ok in E as (ret & s3 & E3 & E4). apply keeps_step in E3; [|auto with keeps].
  assert (Et : tree s3 = tree s) by congruence. clear E2 E3. rewrite <- Et. rewrite <- Et in Ht. clear Et.
  destruct ret; [|by apply ret_Ok in E4 as [_ ->]]. unfold return_from_call in E4.
  apply st_bind_Ok in E4 as (y & s0 & E0 & E4). unfold get in E0. injection E0 as <- <-.
  apply st_bind_Ok in E4 as (? & s5 & E5 & E4). apply keeps_step in E5; [|auto with keeps].
  rewrite <- E5. rewrite <- E5 in Ht. clear E5. revert E4. generalize (S (size (procs s3))) as fuel. intros fuel.
  induction ((filter (fun x => x.1 = t) (held_procs s3)).*2) as [|p l IH] in s5, Ht |- *; cbn [st_for]; intros E4.
  { by apply ret_Ok in E4 as [_ ->]. }
  apply st_bind_Ok in E4 as (? & s6 & E6 & E4). apply release_tree in E6; [|done].
  rewrite <- E6. apply IH; [by rewrite E6|done].
Qed.

Lemma dispatch_tree s o s' : tree_ok (tree s) -> dispatch s = Ok (o, s') -> tree s' = tree s.
Proof.
  intros Ht E. unfold dispatch in E.
  apply st_bind_Ok in E as (o1 & s1 & E1 & E). apply keeps_step in E1; [|auto with keeps].
  destruct o1 as [t|]; [|by apply ret_Ok in E as [_ ->]].
  apply st_bind_Ok in E as (? & s2 & E2 & E). apply ret_Ok in E as [_ ->].
  apply resume_tree in E2; congruence.
Qed.

Lemma fork_call_tree s r s' p b :
  sys_fork strampoline s = Ok (r, s') -> current_proc s = Ok (p, s) -> procs s !! p = Some b -> tree_ok (tree s) ->
  exists id a, Recycle.alloc (t_pids (tree s)) = (id, a) /\ tree s' = forked p (node_of b) id a (tree s).
Proof.
  intros E Hc Hp Ht. unfold sys_fork in E.
  assert (Hn : t_nodes (tree s) !! p = Some (node_of b)) by (unfold tree; cbn; by rewrite lookup_fmap, Hp).
  apply st_bind_Ok in E as (q & s1 & E1 & E). rewrite Hc in E1. injection E1 as <- <-.
  apply st_bind_Ok in E as (c & s2 & E2 & E).
  apply fork_tree in E2 as (n & id & a & Hpn & Ha & _ & E2); [|apply (to_fresh _ Ht) in Hn; lia].
  apply keeps_step in E; [|keeps_tac]. exists id, a. split; [done|]. rewrite E, E2. congruence.
Qed.

Lemma kstep_ok s s' : tree_ok (tree s) -> kstep s s' -> tree_ok (tree s').
Proof.
  intros Ht Hs. destruct Hs as [p b s r s' Hc Hp Hz Hl E|p elf args s u s' E|code s u s' E|which ptr s r s' E|
    entry arg s r s' E|tid s r s' E|m s r s' E|A m s a s' E|A m s a s' E|s o s' E].
  - destruct (fork_call_tree _ _ _ _ _ E Hc Hp Ht) as (id & a & Ha & ->).
    apply forked_ok; [done| |done|done|done]. unfold tree. cbn. by rewrite lookup_fmap, Hp.
  - by rewrite (keeps_exec _ _ _ _ _ _ E).
  - destruct (exit_tree _ _ _ _ E) as [->|(p & n & Hp & _ & Hi & Hx)]; [done|].
    rewrite Hx by (intros Hin; by destruct (to_child _ Ht p n p Hp Hin)). by apply exited_ok.
  - destruct (waitpid_tree _ _ _ _ _ Ht E) as [->|(p & n & i & c & k & a & Hp & Hi & Hk & Hz & Ha & ->)]; [done|].
    by eapply reaped_ok.
  - by rewrite (keeps_thread_create _ _ _ _ _ E).
  - by rewrite (keeps_waittid _ _ _ _ E).
  - by rewrite (keeps_holding _ _ _ _ E).
  - by rewrite (keeps_on_sched _ _ _ _ E).
  - by rewrite (keeps_on_mm _ _ _ _ E).
  - by rewrite (dispatch_tree _ _ _ Ht E).
Qed.

Lemma boot_tree elf s p s' :
  no_process s -> ProcessControlBlock_new strampoline trap_handler user_sstatus elf s = Ok (p, s') ->
  tree s' = mkTree 1 (Recycle.mkRecycle 1 []) {[0 := INITPROC]} {[INITPROC := mkNode 0 false None []]}.
Proof.
  intros (H1 & H2 & H3 & H4) E. unfold ProcessControlBlock_new in E.
  apply st_bind_Ok in E as ([[sp base] entry] & s1 & E1 & E). apply keeps_step in E1; [|auto with keeps].
  apply st_bind_Ok in E as (id & s2 & E2 & E). apply pid_alloc_tree in E2 as (a & Ea & E2).
  apply st_bind_Ok in E as (q & s3 & E3 & E). apply new_proc_tree in E3 as [Eq E3].
  assert (E0 : tree s = mkTree INITPROC Recycle.new ∅ ∅) by (unfold tree; rewrite H1, H2, H3, H4; by rewrite fmap_empty).
  rewrite E1, E0 in Ea, E2. cbn in Ea. injection Ea as <- <-. rewrite E2 in E3, Eq. cbn in E3, Eq. subst q.
  apply st_bind_Ok in E as (t & s4 & E4 & E). apply keeps_step in E4; [|auto with keeps].
  apply st_bind_Ok in E as (b & s5 & E5 & E). apply keeps_step in E5; [|auto with keeps].
  apply st_bind_Ok in E as (r & s6 & E6 & E). apply keeps_step in E6; [|auto with keeps].
  apply st_bind_Ok in E as (x & s7 & E7 & E). apply keeps_step in E7; [|auto with keeps].
  apply st_bind_Ok in E as (? & s8 & E8 & E). apply keeps_step in E8; [|auto with keeps].
  apply st_bind_Ok in E as (? & s9 & E9 & E). apply keeps_step in E9; [|apply keeps_upd_proc; reflexivity].
  apply st_bind_Ok in E as (? & s10 & E10 & E). apply keeps_step in E10; [|auto with keeps].
  apply st_bind_Ok in E as (? & s11 & E11 & E). apply insert_pid_tree in E11. apply ret_Ok in E as [_ ->].
  assert (tree s10 = tree s3) as Et by congruence. rewrite E11, Et, E3. done.
Qed.

Lemma boot_ok : tree_ok (mkTree 1 (Recycle.mkRecycle 1 []) {[0 := INITPROC]} {[INITPROC := mkNode 0 false None []]}).
Proof.
  split; cbn [t_next t_pids t_table t_nodes].
  - split; cbn; [lia|constructor|constructor].
  - intros p n [_ <-]%lookup_singleton_Some. cbn. rewrite Recycle.elem_of_live. cbn. split; [lia|apply not_elem_of_nil].
  - intros p q n m [<- _]%lookup_singleton_Some [<- _]%lookup_singleton_Some _. done.
  - intros p n [<- _]%lookup_singleton_Some. unfold INITPROC. lia.
  - intros i p. rewrite lookup_singleton_Some. setoid_rewrite lookup_singleton_Some. naive_solver.
  - intros p n c [_ <-]%lookup_singleton_Some Hc. by apply elem_of_nil in Hc.
  - intros p n [_ <-]%lookup_singleton_Some. constructor.
  - intros c m [<- _]%lookup_singleton_Some Hc. done.
  - intros p n [_ <-]%lookup_singleton_Some. done.
  - eexists. by rewrite lookup_singleton_eq.
Qed.

Lemma run_ok elf s0 p0 s1 s :
  no_process s0 -> ProcessControlBlock_new strampoline trap_handler user_sstatus elf s0 = Ok (p0, s1) -> rtc kstep s1 s ->
  tree_ok (tree s).
Proof.
  intros Hs E Hsteps. apply (boot_tree _ _ _ _ Hs) in E.
  assert (Ht : tree_ok (tree s1)) by (rewrite E; apply boot_ok). clear E. induction Hsteps; eauto using kstep_ok.
Qed.
End runs.

(** C27: whatever the kernel does after it has created the first process, process ids
    identify processes; the process table has exactly the processes that have not
    exited; every process but [INITPROC] is in the list of children of exactly one
    process, once, which is the process its own [parent] points to; and a process that
    has exited has handed all its children on. *)
Theorem process_tree_invariant {F} `{FrameAllocator F} strampoline trap_handler user_sstatus elf s0 p0 s1 (s : kstate F) :
  no_process s0 -> ProcessControlBlock_new strampoline trap_handler user_sstatus elf s0 = Ok (p0, s1) ->
  rtc (kstep strampoline trap_handler user_sstatus) s1 s ->
  (forall p q b c, procs s !! p = Some b -> procs s !! q = Some c -> pid b = pid c -> p = q) /\
  (forall i p, PID2PCB s !! i = Some p <-> exists b, procs s !! p = Some b /\ pid b = i /\ is_zombie b = false) /\
  (forall c b, procs s !! c = Some b -> c <> INITPROC ->
    exists p pb, procs s !! p = Some pb /\ c ∈ children pb /\ parent b = Some p /\
      forall q qb, procs s !! q = Some qb -> c ∈ children qb -> q = p) /\
  (forall p b, procs s !! p = Some b -> NoDup (children b) /\ Forall (fun c => is_Some (procs s !! c)) (children b)) /\
  (forall p b, procs s !! p = Some b -> is_zombie b = true -> p <> INITPROC -> children b = []).
Proof.
  intros Hs E Hsteps. pose proof (run_ok _ _ _ _ _ _ _ _ Hs E Hsteps) as Ht.
  assert (Hn : forall p b, procs s !! p = Some b -> t_nodes (tree s) !! p = Some (node_of b)).
  { intros p b Hb. cbn. by rewrite lookup_fmap, Hb. }
  assert (Hn' : forall p n, t_nodes (tree s) !! p = Some n -> exists b, procs s !! p = Some b /\ n = node_of b).
  { intros p n Hp. cbn in Hp. rewrite lookup_fmap in Hp. apply fmap_Some in Hp. done. }
  split_and!.
  - intros p q b c Hp%Hn Hq%Hn. exact (to_inj _ Ht p q _ _ Hp Hq).
  - intros i p. rewrite (to_table _ Ht i p). split.
    + intros (n & (b & Hb & ->)%Hn' & Hi & Hz). by exists b.
    + intros (b & Hb%Hn & Hi & Hz). by eexists.
  - intros c b Hc Hci. destruct (to_parent _ Ht c _ (Hn _ _ Hc) Hci) as (p & n & Hp & Hin).
    destruct (to_child _ Ht p n c Hp Hin) as (_ & m & Hm & Hmp). rewrite (Hn _ _ Hc) in Hm. injection Hm as <-.
    destruct (Hn' _ _ Hp) as (pb & Hpb & ->). exists p, pb. split_and!; [done|done|done|].
    intros q qb Hq%Hn Hqc. by eapply one_parent.
  - intros p b Hp%Hn. split; [by apply (to_nodup _ Ht p (node_of b))|]. apply Forall_forall. intros c Hc.
    destruct (to_child _ Ht p _ c Hp Hc) as (_ & m & (cb & Hcb & _)%Hn' & _). by eexists.
  - intros p b Hp%Hn. exact (to_zombie _ Ht p _ Hp).
Qed.

(** [INITPROC] forks and yields; the child forks and exits; [INITPROC] waits for it and
    has the grandchild. *)
Section demo.
Lemma rtc_trans {A} (R : A -> A -> Prop) x y z : rtc R x y -> rtc R y z -> rtc R x z.
Proof. intros. by transitivity y. Qed.

#[local] Notation steps := (rtc (kstep Demo.strampoline Demo.trap_handler Demo.user_sstatus)).

Lemma demo_dispatch s : Demo.succeeds dispatch s = true -> steps s (Demo.after dispatch s).
Proof. intros (? & E)%Demo.after_Ok. eapply rtc_once, step_dispatch, E. Qed.

Lemma demo_fork p b s :
  current_proc s = Ok (p, s) -> procs s !! p = Some b -> is_zombie b = false -> Recycle.current (PID_ALLOCATOR s) < 2 ^ 64 - 1 ->
  Demo.succeeds (sys_fork Demo.strampoline) s = true -> steps s (Demo.after (sys_fork Demo.strampoline) s).
Proof. intros ? ? ? ? (? & E)%Demo.after_Ok. by eapply rtc_once, step_fork. Qed.

Lemma demo_yield s : Demo.succeeds (on_sched sys_yield) s = true -> steps s (Demo.after (on_sched sys_yield) s).
Proof. intros (? & E)%Demo.after_Ok. eapply rtc_once, step_sched, E. Qed.

Lemma demo_exit s code : Demo.succeeds (exit_current_and_run_next code) s = true -> steps s (Demo.after (exit_current_and_run_next code) s).
Proof. intros (? & E)%Demo.after_Ok. eapply rtc_once, step_exit, E. Qed.

Lemma demo_wait s which ptr : Demo.succeeds (sys_waitpid which ptr) s = true -> steps s (Demo.after (sys_waitpid which ptr) s).
Proof. intros (? & E)%Demo.after_Ok. eapply rtc_once, step_waitpid, E. Qed.

Definition demo_child : kstate Frame.StackFrameAllocator :=
  Demo.after dispatch (Demo.after (on_sched sys_yield) (Demo.after (sys_fork Demo.strampoline) Demo.running)).
Definition demo_orphan : kstate Frame.StackFrameAllocator :=
  Demo.after dispatch (Demo.after (exit_current_and_run_next 7) (Demo.after (sys_fork Demo.strampoline) demo_child)).
Definition demo_end : kstate Frame.StackFrameAllocator := Demo.after (sys_waitpid (-1) 65536) demo_orphan.

Lemma demo_to_child : steps Demo.booted demo_child.
Proof.
  unfold demo_child. eapply rtc_trans; [refine (demo_dispatch Demo.booted _); by vm_compute|]. fold Demo.running.
  eapply rtc_trans; [refine (demo_fork 0 _ Demo.running _ _ _ _ _); [by vm_compute|by vm_compute|done|by vm_compute|by vm_compute]|].
  eapply rtc_trans; [refine (demo_yield _ _); by vm_compute|]. refine (demo_dispatch _ _); by vm_compute.
Qed.

Lemma demo_to_orphan : steps demo_child demo_orphan.
Proof.
  unfold demo_orphan.
  eapply rtc_trans; [refine (demo_fork 1 _ demo_child _ _ _ _ _); [by vm_compute|by vm_compute|done|by vm_compute|by vm_compute]|].
  eapply rtc_trans; [refine (demo_exit _ 7 _); by vm_compute|]. refine (demo_dispatch _ _); by vm_compute.
Qed.

Lemma demo_to_end : steps demo_child demo_end.
Proof. eapply rtc_trans; [exact demo_to_orphan|]. unfold demo_end. refine (demo_wait _ (-1) 65536 _); by vm_compute. Qed.

Lemma demo_steps : steps Demo.booted demo_end.
Proof. exact (rtc_trans _ _ _ _ demo_to_child demo_to_end). Qed.

Lemma demo_step {A} (m : ST (kstate Frame.StackFrameAllocator) A) s :
  (forall a, m s = Ok (a, Demo.after m s) -> kstep Demo.strampoline Demo.trap_handler Demo.user_sstatus s (Demo.after m s)) ->
  Demo.succeeds m s = true -> steps s (Demo.after m s).
Proof. intros Hs (a & E)%Demo.after_Ok. by eapply rtc_once, Hs. Qed.

Lemma demo_no_process : no_process Demo.start.
Proof. unfold Demo.start. destruct (new_bare Demo.memory) as [[]|]; done. Qed.
End demo.

Lemma process_tree_invariant_witness :
  (forall i p, PID2PCB demo_end !! i = Some p <-> exists b, procs demo_end !! p = Some b /\ pid b = i /\ is_zombie b = false) /\
  map_to_list (PID2PCB demo_end) = [(2, 2%nat); (0, 0%nat)].
Proof.
  destruct (Demo.after_Ok (ProcessControlBlock_new Demo.strampoline Demo.trap_handler Demo.user_sstatus Demo.elf) Demo.start)
    as (p0 & E0); [by vm_compute|].
  split; [apply (process_tree_invariant Demo.strampoline Demo.trap_handler Demo.user_sstatus _ _ _ _ _ demo_no_process E0 demo_steps)|by vm_compute].
Defined.
