(* ===== verification/Waiting.v ===== *)
(** What waiting for a thread and for a process returns: [sys_waittid] of
    os/src/syscall/thread.rs and [sys_waitpid] of os/src/syscall/process.rs, on every
    branch.  Two of the branches are kernel panics that a program can reach. *)

From S2P Require Import Prelude Address Alloc Memory PageTable UserBuffer Sched Signal AddressSpace Process ProcessTree.

#[local] Arguments tree : simpl never.

Section waiting.
Context {F : Type} `{FrameAllocator F}.
Implicit Types (s : kstate F).

(** ** Running the accesses *)

Lemma get_proc_run p s b : procs s !! p = Some b -> get_proc p s = Ok (b, s).
Proof. intros E. unfold get_proc. by rewrite E. Qed.

Lemma get_tcb_run t s b : tcbs s !! t = Some b -> get_tcb t s = Ok (b, s).
Proof. intros E. unfold get_tcb. by rewrite E. Qed.

Lemma upd_proc_run p f s b : procs s !! p = Some b ->
  upd_proc p f s = Ok (tt, mkK (k_mm s) (k_sched s) (KERNEL_SPACE s) (KERNEL_STACK_ALLOCATOR s) (PID_ALLOCATOR s) (PID2PCB s)
    (<[p := f b]> (procs s)) (tcbs s) (next_proc s) (next_task s) (held_procs s)).
Proof. intros E. unfold upd_proc. st_step_by (get_proc_run _ _ _ E). done. Qed.

Lemma current_task_run t s : Sched.current (k_sched s) = Some t -> on_sched current_task s = Ok (t, s).
Proof. intros E. unfold on_sched, current_task, Sched.reads. rewrite E. cbn. by destruct s. Qed.

(** ** Threads *)

(** [t] runs in the process of block [b], with the user resource [r]. *)
Record running s (t : nat) (tb : TaskControlBlock) (r : TaskUserResource) (b : ProcessControlBlock) : Prop := {
  rn_current : Sched.current (k_sched s) = Some t;
  rn_tcb : tcbs s !! t = Some tb;
  rn_resource : t_user_resource tb = Some r;
  rn_process : procs s !! t_process tb = Some b;
}.

Lemma waittid_start s t tb r b id :
  running s t tb r b -> id <> tid r ->
  sys_waittid id s =
    (if Z.of_nat (length (tasks b)) <? id then mret (-1)
     else
      o ← lift (index (tasks b) id);
      match o with
      | None => mret (-1)
      | Some w =>
          wb ← get_tcb w;
          match t_exit_code wb with
          | Some code =>
              l ← lift (index_set (tasks b) id None);
              upd_proc (t_process tb) (with_tasks l);;
              release_task w;;
              dealloc_tid (t_process tb) id;;
              mret code
          | None => mret (-2)
          end
      end) s.
Proof.
  intros [H1 H2 H3 H4] Hne. unfold sys_waittid. st_step_by (current_task_run _ _ H1). st_step_by (get_tcb_run _ _ _ H2).
  unfold get_tid. rewrite H3. cbn [unwrap fmap res_fmap]. st_step.
  rewrite (proj2 (Z.eqb_neq _ _)) by done. st_step_by (get_proc_run _ _ _ H4). done.
Qed.

(** An exited thread has no user resource, so dropping its block leaves the processes alone. *)
Lemma release_task_procs w s wb u s' :
  tcbs s !! w = Some wb -> t_user_resource wb = None -> release_task w s = Ok (u, s') -> procs s' = procs s.
Proof.
  intros Hw Hr E. unfold release_task in E. apply st_bind_Ok in E as (x & s1 & E1 & E). unfold get in E1. injection E1 as <- <-.
  case_decide; [|by apply ret_Ok in E as [_ ->]]. unfold drop_task in E.
  apply st_bind_Ok in E as (b & s2 & E2 & E). rewrite (get_tcb_run _ _ _ Hw) in E2. injection E2 as <- <-.
  apply st_bind_Ok in E as (y & s3 & E3 & E). unfold get in E3. injection E3 as <- <-.
  apply st_bind_Ok in E as (? & s4 & E4 & E). unfold set_tcbs in E4. injection E4 as _ <-.
  apply st_bind_Ok in E as ([ids sp] & s5 & E5 & E). unfold on_mm in E5.
  apply res_bind_Ok in E5 as ([? ?] & _ & E5). injection E5 as _ <-.
  apply st_bind_Ok in E as (? & s6 & E6 & E). unfold set_kernel_space in E6. injection E6 as _ <-.
  rewrite Hr in E. by apply ret_Ok in E as [_ ->].
Qed.
End waiting.

Section claims.
Context {F : Type} `{FrameAllocator F}.
Implicit Types (s : kstate F).

(** [sys_waittid]: a thread that waits for itself, or for an id above the number of
    thread slots, or for an empty slot gets -1; for a thread that has not exited it
    gets -2; for one that has, it gets the exit code, and the slot and the thread id are free again.  But the
    id that equals the number of slots passes the range check and panics the kernel. *)
Theorem waittid_outcomes s t tb r b id :
  running s t tb r b -> 0 <= id ->
  let n := Z.of_nat (length (tasks b)) in
  (id = tid r \/ n < id \/ id <> tid r /\ tasks b !! Z.to_nat id = Some None -> sys_waittid id s = Ok (-1, s)) /\
  (id <> tid r -> id = n -> sys_waittid id s = Panic IndexOutOfRange) /\
  (forall w wb, id <> tid r -> tasks b !! Z.to_nat id = Some (Some w) -> tcbs s !! w = Some wb ->
    match t_exit_code wb with
    | None => sys_waittid id s = Ok (-2, s)
    | Some code => forall s1 s2,
        upd_proc (t_process tb) (with_tasks (<[Z.to_nat id := None]> (tasks b))) s = Ok (tt, s1) ->
        release_task w s1 = Ok (tt, s2) -> t_user_resource wb = None ->
        Recycle.wf (tid_allocator b) -> id ∈ Recycle.live (tid_allocator b) ->
        exists a s', sys_waittid id s = Ok (code, s') /\ Recycle.live a = Recycle.live (tid_allocator b) ∖ {[id]} /\
          procs s' = <[t_process tb := with_tids a (with_tasks (<[Z.to_nat id := None]> (tasks b)) b)]> (procs s)
    end).
Proof.
  intros Hrun H0 n. split_and!.
  - intros Hid. destruct (decide (id = tid r)) as [->|Hne].
    { destruct Hrun as [H1 H2 H3 H4]. unfold sys_waittid. st_step_by (current_task_run _ _ H1).
      st_step_by (get_tcb_run _ _ _ H2). unfold get_tid. rewrite H3. cbn [unwrap fmap res_fmap]. st_step.
      by rewrite Z.eqb_refl. }
    rewrite (waittid_start _ _ _ _ _ _ Hrun Hne). fold n. destruct (Z.ltb_spec n id); [done|].
    destruct Hid as [?|[?|[_ Hid]]]; [done|lia|]. rewrite (proj2 (index_Ok _ _ _) (conj H0 Hid)). done.
  - intros Hne Hid. rewrite (waittid_start _ _ _ _ _ _ Hrun Hne). fold n. rewrite (proj2 (Z.ltb_ge _ _)) by lia.
    unfold index. rewrite decide_True by done. rewrite lookup_ge_None_2 by lia. done.
  - intros w wb Hne Hw Hwb. rewrite (waittid_start _ _ _ _ _ _ Hrun Hne). fold n.
    pose proof (lookup_lt_Some _ _ _ Hw) as Hlt. rewrite (proj2 (Z.ltb_ge _ _)) by lia.
    rewrite (proj2 (index_Ok _ _ _) (conj H0 Hw)). st_step. st_step_by (get_tcb_run _ _ _ Hwb).
    destruct (t_exit_code wb) as [code|]; [|done]. intros s1 s2 E1 E2 Hr Hwf Hl.
    rewrite (proj2 (index_set_Ok (tasks b) _ id None)) by (split; [lia|done]). st_step. st_step_by E1. st_step_by E2.
    rewrite (upd_proc_run _ _ _ _ (rn_process _ _ _ _ _ Hrun)) in E1. injection E1 as <-.
    apply (release_task_procs w _ wb) in E2; [|done|done]. cbn in E2.
    destruct (Recycle.dealloc_live _ _ Hwf Hl) as (a & Ea & _ & Hla).
    assert (Hp2 : procs s2 !! t_process tb = Some (with_tasks (<[Z.to_nat id := None]> (tasks b)) b))
      by (by rewrite E2, lookup_insert_eq).
    unfold dealloc_tid. eexists a, _. split; [|split; [exact Hla|]].
    + erewrite st_bind_run; [reflexivity|]. st_step_by (get_proc_run _ _ _ Hp2). cbn [tid_allocator with_tasks].
      rewrite Ea. st_step. exact (upd_proc_run _ _ _ _ Hp2).
    + cbn [procs]. by rewrite E2, insert_insert_eq.
Qed.
End claims.

(** [INITPROC] with a second thread that has not run yet. *)
Definition demo_threads : kstate Frame.StackFrameAllocator :=
  Demo.after (sys_thread_create Demo.trap_handler Demo.user_sstatus 65536 0) Demo.running.

Lemma demo_threads_running : exists t tb r b, running demo_threads t tb r b /\ tid r = 0 /\ tasks b = [Some 0%nat; Some 1%nat].
Proof. eexists _, _, _, _. split; [split; vm_compute; reflexivity|]. by vm_compute. Qed.

Lemma waittid_outcomes_witness :
  sys_waittid 0 demo_threads = Ok (-1, demo_threads) /\ sys_waittid 1 demo_threads = Ok (-2, demo_threads) /\
  sys_waittid 2 demo_threads = Panic IndexOutOfRange /\ sys_waittid 3 demo_threads = Ok (-1, demo_threads).
Proof.
  destruct demo_threads_running as (t & tb & r & b & Hrun & Hr & Hb).
  destruct (waittid_outcomes demo_threads t tb r b 0 Hrun ltac:(lia)) as (H0 & _).
  destruct (waittid_outcomes demo_threads t tb r b 1 Hrun ltac:(lia)) as (_ & _ & H1).
  destruct (waittid_outcomes demo_threads t tb r b 2 Hrun ltac:(lia)) as (_ & H2 & _).
  destruct (waittid_outcomes demo_threads t tb r b 3 Hrun ltac:(lia)) as (H3 & _).
  rewrite Hr, Hb in *. split_and!; [apply H0; by left| |by apply H2|apply H3; right; left; cbn; lia].
  assert (exists wb, tcbs demo_threads !! 1%nat = Some wb /\ t_exit_code wb = None) as (wb & Hw & He)
    by (eexists; split; vm_compute; reflexivity).
  specialize (H1 1%nat wb ltac:(lia) eq_refl Hw). rewrite He in H1. exact H1.
Defined.

(** ** Processes *)

Section waitpid.
Context {F : Type} `{FrameAllocator F}.
Implicit Types (s : kstate F).

Lemma held_refs t c s : (t, c) ∈ held_procs s -> proc_refs c s <> 0%nat.
Proof.
  intros Hin. unfold proc_refs. enough (count_occ_nat c (held_procs s).*2 <> 0%nat) by lia.
  unfold count_occ_nat. intros E%nil_length_inv. apply (filter_nil_not_elem_of _ _ c) in E; [|done]. destruct E.
  apply list_elem_of_fmap. by exists (t, c).
Qed.

(** The children of [p] that [which] asks for. *)
Definition wanted s (which : Z) (b : ProcessControlBlock) (c : nat) : Prop :=
  c ∈ children b /\ exists cb, procs s !! c = Some cb /\ matches which cb = true.

Lemma any_child_spec s which b : any_child which (children b) s = true <-> exists c, wanted s which b c.
Proof.
  unfold any_child. rewrite existsb_exists. setoid_rewrite <- list_elem_of_In. unfold wanted. split.
  - intros (c & Hc & E). exists c. destruct (procs s !! c) as [cb|] eqn:Ec; [by eauto|done].
  - intros (c & Hc & cb & Ec & Hm). exists c. by rewrite Ec.
Qed.

Lemma find_zombie_None s which b :
  find_zombie which (children b) s = None ->
  forall c cb, wanted s which b c -> procs s !! c = Some cb -> is_zombie cb = false.
Proof.
  intros Hf c cb (Hc & cb' & Hcb & Hm) Hcb'. unfold find_zombie in Hf. rewrite find_index_None, Forall_forall in Hf.
  specialize (Hf c Hc). cbn in Hf. rewrite Hcb' in Hf. assert (cb' = cb) as -> by congruence. rewrite Hm in Hf.
  by rewrite andb_true_r in Hf.
Qed.

(** C40: [sys_waitpid] returns -1 when the caller has no such child and -2 when it has but
    none of them has exited, and changes nothing.  When one has exited and no kernel
    stack holds a reference to it, what it returns is the pid of such a child, which is
    then gone: its control block and its place among the children are removed, its pid
    can be given out again, and no other process changes its state or children.  When
    a thread of the exited child is still blocked inside a system call that keeps a
    reference to the process, the assertion on the reference count fails and the
    kernel panics. *)
Theorem waitpid_outcomes s p b which ptr :
  tree_ok (tree s) -> current_proc s = Ok (p, s) -> procs s !! p = Some b ->
  ((forall c, ~ wanted s which b c) -> sys_waitpid which ptr s = Ok (-1, s)) /\
  ((exists c, wanted s which b c) -> (forall c cb, wanted s which b c -> procs s !! c = Some cb -> is_zombie cb = false) ->
    sys_waitpid which ptr s = Ok (-2, s)) /\
  (forall i c t, find_zombie which (children b) s = Some i -> children b !! i = Some c -> (t, c) ∈ held_procs s ->
    sys_waitpid which ptr s = Panic AssertFailed) /\
  (forall i r s', find_zombie which (children b) s = Some i -> sys_waitpid which ptr s = Ok (r, s') ->
    exists c cb, wanted s which b c /\ procs s !! c = Some cb /\ is_zombie cb = true /\ r = as_isize (pid cb) /\
      procs s' !! c = None /\ pid cb ∉ Recycle.live (PID_ALLOCATOR s') /\ tree_ok (tree s') /\
      forall q qb', procs s' !! q = Some qb' -> exists qb, procs s !! q = Some qb /\ pid qb' = pid qb /\
        is_zombie qb' = is_zombie qb /\ forall x, x ∈ children qb' <-> x ∈ children qb /\ x <> c).
Proof.
  intros Ht Hcur Hb.
  assert (Hstart : sys_waitpid which ptr s = sys_waitpid which ptr s) by done.
  unfold sys_waitpid in Hstart at 2. erewrite st_bind_run in Hstart; [|exact Hcur]. cbv beta in Hstart.
  erewrite st_bind_run in Hstart; [|exact (get_proc_run _ _ _ Hb)]. cbv beta in Hstart.
  erewrite st_bind_run in Hstart; [|reflexivity]. cbv beta in Hstart. split_and!.
  - intros Hno. rewrite Hstart. destruct (any_child which (children b) s) eqn:E; [|done].
    apply any_child_spec in E as [c Hc]. by destruct (Hno c).
  - intros Hw%any_child_spec Hall. rewrite Hstart, Hw. cbn [negb].
    destruct (find_zombie which (children b) s) as [i|] eqn:E; [|done]. exfalso.
    apply find_zombie_Some in E as (c & cb & Hi & Hcb & Hz & Hm).
    rewrite (Hall c cb) in Hz; [done| |done]. split; [by eapply list_elem_of_lookup_2|by eauto].
  - intros i c t Ef Hi Hh. pose proof Ef as (c' & cb & Hi' & Hcb & _ & Hm)%find_zombie_Some.
    assert (c' = c) as -> by congruence. rewrite Hstart, Ef.
    rewrite (proj2 (any_child_spec s which b)) by (exists c; split; [by eapply list_elem_of_lookup_2|by eauto]).
    cbn [negb]. rewrite Hi. st_step. st_step_by (upd_proc_run p (with_children (delete i (children b))) _ _ Hb). st_step.
    set (s1 := mkK _ _ _ _ _ _ _ _ _ _ _). rewrite bool_decide_eq_false_2; [done|].
    intros [= E]. exact (held_refs t c s1 Hh E).
  - intros i r s' Ef E.
    destruct (waitpid_reap _ _ _ _ _ _ _ _ Ht Hcur Hb Ef E) as (c & cb & a & Hi & Hcb & Hz & Hm & Ha & Et & ->).
    assert (Hn : t_nodes (tree s) !! p = Some (node_of b)) by (unfold tree; cbn; by rewrite lookup_fmap, Hb).
    assert (Hk : t_nodes (tree s) !! c = Some (node_of cb)) by (unfold tree; cbn; by rewrite lookup_fmap, Hcb).
    exists c, cb. split_and!; try done.
    + split; [by eapply list_elem_of_lookup_2|by eauto].
    + destruct (procs s' !! c) as [x|] eqn:Ex; [|done].
      assert (Hx : t_nodes (tree s') !! c = Some (node_of x)) by (unfold tree; cbn; by rewrite lookup_fmap, Ex).
      rewrite Et in Hx. by apply reaped_lookup in Hx as [? _].
    + change (PID_ALLOCATOR s') with (t_pids (tree s')). rewrite Et. cbn [reaped t_pids].
      destruct (Recycle.dealloc_live _ _ (to_wf _ Ht) (to_live _ Ht c _ Hk)) as (a' & Ea & _ & Hl). cbn in Ea.
      assert (a' = a) as -> by congruence. rewrite Hl. cbn. set_solver.
    + rewrite Et. by eapply reaped_ok.
    + intros q qb' Hq.
      assert (Hq' : t_nodes (tree s') !! q = Some (node_of qb')) by (unfold tree; cbn; by rewrite lookup_fmap, Hq).
      rewrite Et in Hq'. apply (reaped_old (tree s) p (node_of b) i c a Ht Hn Hi) in Hq' as (_ & m0 & H0 & H1 & H2 & _ & H3).
      unfold tree in H0. cbn in H0. rewrite lookup_fmap in H0. apply fmap_Some in H0 as (qb & Hqb & ->). by exists qb.
Qed.
End waitpid.

(** The child of [INITPROC] starts a thread that waits on a semaphore of value 0, and its main
    thread exits. *)
Section demo.
#[local] Notation steps := (rtc (kstep Demo.strampoline Demo.trap_handler Demo.user_sstatus)).
#[local] Notation yields s := (Demo.after dispatch (Demo.after (on_sched sys_yield) s)).

Definition demo_blocked : kstate Frame.StackFrameAllocator :=
  Demo.after (k_semaphore_down 0)
    (yields (yields (Demo.after (sys_thread_create Demo.trap_handler Demo.user_sstatus 65536 0)
      (Demo.after (on_sched (sys_semaphore_create 0)) demo_child)))).
Definition demo_leaked : kstate Frame.StackFrameAllocator :=
  Demo.after dispatch (Demo.after (exit_current_and_run_next 7) (Demo.after dispatch demo_blocked)).

Lemma demo_yields s :
  Demo.succeeds (on_sched sys_yield) s = true -> Demo.succeeds dispatch (Demo.after (on_sched sys_yield) s) = true -> steps s (yields s).
Proof. intros H1 H2. by eapply rtc_trans; [apply demo_yield|apply demo_dispatch]. Qed.

Lemma demo_to_blocked : steps demo_child demo_blocked.
Proof.
  unfold demo_blocked.
  eapply rtc_trans; [refine (demo_step (on_sched (sys_semaphore_create 0)) demo_child _ _); [intros a; apply step_sched|by vm_compute]|].
  eapply rtc_trans; [refine (demo_step (sys_thread_create Demo.trap_handler Demo.user_sstatus 65536 0) _ _ _);
    [intros a; apply step_thread_create|by vm_compute]|].
  eapply rtc_trans; [refine (demo_yields _ _ _); by vm_compute|].
  eapply rtc_trans; [refine (demo_yields _ _ _); by vm_compute|].
  refine (demo_step (k_semaphore_down 0) _ _ _); [intros a; apply step_blocking|by vm_compute].
Qed.

Lemma demo_to_leaked : steps demo_child demo_leaked.
Proof.
  eapply rtc_trans; [exact demo_to_blocked|]. unfold demo_leaked.
  eapply rtc_trans; [refine (demo_dispatch _ _); by vm_compute|].
  eapply rtc_trans; [refine (demo_exit _ 7 _); by vm_compute|]. refine (demo_dispatch _ _); by vm_compute.
Qed.

Lemma demo_ok s : steps Demo.booted s -> tree_ok (tree s).
Proof.
  destruct (Demo.after_Ok (ProcessControlBlock_new Demo.strampoline Demo.trap_handler Demo.user_sstatus Demo.elf) Demo.start)
    as (p0 & E0); [by vm_compute|].
  exact (run_ok _ _ _ _ _ _ _ _ demo_no_process E0).
Qed.

Lemma leaked_ok : tree_ok (tree demo_leaked).
Proof. apply demo_ok. eapply rtc_trans; [exact demo_to_child|exact demo_to_leaked]. Qed.

Lemma leaked_facts : exists b, current_proc demo_leaked = Ok (0%nat, demo_leaked) /\ procs demo_leaked !! 0%nat = Some b /\
  find_zombie (-1) (children b) demo_leaked = Some 0%nat /\ children b !! 0%nat = Some 1%nat /\ held_procs demo_leaked = [(2%nat, 1%nat)].
Proof. eexists. split_and!; vm_compute; reflexivity. Qed.

Lemma orphan_ok : tree_ok (tree demo_orphan).
Proof. apply demo_ok. eapply rtc_trans; [exact demo_to_child|exact demo_to_orphan]. Qed.

Lemma orphan_facts : exists b, current_proc demo_orphan = Ok (0%nat, demo_orphan) /\ procs demo_orphan !! 0%nat = Some b /\
  find_zombie (-1) (children b) demo_orphan = Some 0%nat.
Proof. eexists. split_and!; vm_compute; reflexivity. Qed.
End demo.

Lemma waitpid_outcomes_witness :
  sys_waitpid (-1) 65536 demo_leaked = Panic AssertFailed /\
  exists r s' c cb, sys_waitpid (-1) 65536 demo_orphan = Ok (r, s') /\ procs demo_orphan !! c = Some cb /\
    r = as_isize (pid cb) /\ procs s' !! c = None.
Proof.
  split.
  - destruct leaked_facts as (b & Hcur & Hb & Hf & Hc & Hh).
    destruct (waitpid_outcomes demo_leaked 0 b (-1) 65536 leaked_ok Hcur Hb) as (_ & _ & H & _).
    apply (H 0%nat 1%nat 2%nat Hf Hc). rewrite Hh. by left.
  - destruct orphan_facts as (b & Hcur & Hb & Hf).
    destruct (Demo.after_Ok (sys_waitpid (-1) 65536) demo_orphan) as (r & E); [by vm_compute|].
    destruct (waitpid_outcomes demo_orphan 0 b (-1) 65536 orphan_ok Hcur Hb) as (_ & _ & _ & H).
    destruct (H _ _ _ Hf E) as (c & cb & _ & Hcb & _ & Hr & Hn & _).
    exact (ex_intro _ r (ex_intro _ _ (ex_intro _ c (ex_intro _ cb (conj E (conj Hcb (conj Hr Hn))))))).
Defined.
