(* ===== verification/ExecArgs.v ===== *)
(** The arguments [ProcessControlBlock::exec] (os/src/task/process/mod.rs) writes on the
    user stack: what the new program finds there.

    The part of user memory this is about is a window of virtual addresses that are
    mapped to distinct bytes outside the page tables.  Inside it, stores through
    physical addresses behave like stores to an array. *)

From S2P Require Import Prelude Address Alloc Memory PageTable UserBuffer AddressSpace Process.

#[local] Ltac Zify.zify_post_hook ::= Z.to_euclidean_division_equations.

Section window.
Context (root lo hi : Z) (tables : gset Z).
Implicit Types (m : pmem).

Record window m : Prop := {
  w_range : 0 <= lo /\ hi < 2 ^ 38;
  w_tables : PT.wf m root tables;
  w_map : forall va, lo <= va < hi -> exists p, phys m root va = Some (p, va mod 4096) /\ 0 < p < 2 ^ 44 /\ p ∉ tables;
  w_inj : forall va vb p o, lo <= va < hi -> lo <= vb < hi ->
    phys m root va = Some (p, o) -> phys m root vb = Some (p, o) -> va = vb;
}.

(** [bs] was written at [a]. *)
Record writes m m' (a : Z) (bs : list Z) : Prop := {
  wr_window : window m';
  wr_phys : forall va, phys m' root va = phys m root va;
  wr_byte : forall va, lo <= va < hi -> user_byte m' root va =
    if decide (a <= va < a + Z.of_nat (length bs)) then bs !! Z.to_nat (va - a) else user_byte m root va;
  wr_page : forall p, (forall va o, lo <= va < hi -> phys m root va <> Some (p, o)) -> get_page m' p = get_page m p;
}.

Lemma writes_nil m a : window m -> writes m m a [].
Proof. intros Hw. split; try done. intros va _. cbn. by rewrite decide_False by lia. Qed.

Lemma writes_cons m m1 m2 a b bs : writes m m1 a [b] -> writes m1 m2 (a + 1) bs -> writes m m2 a (b :: bs).
Proof.
  intros [_ P1 B1 G1] [W2 P2 B2 G2]. split; [done| | |].
  - intros va. by rewrite P2.
  - intros va Hva. rewrite B2, B1 by done. cbn [length].
    destruct (decide (va = a)) as [->|Hne].
    + rewrite decide_False by lia. rewrite !decide_True by (cbn; lia). by rewrite Z.sub_diag.
    + rewrite (decide_False (P := a <= va < a + Z.of_nat (length [b]))) by (cbn; lia).
      repeat case_decide; try lia; [|done]. replace (Z.to_nat (va - a)) with (S (Z.to_nat (va - (a + 1)))) by lia. done.
  - intros p Hp. rewrite G2, G1; [done|done|]. intros va o Hva. rewrite P1. by apply Hp.
Qed.

Lemma poke m va p b :
  window m -> lo <= va < hi -> phys m root va = Some (p, va mod 4096) ->
  writes m (<[p := <[va mod 4096 := b]> (get_page m p)]> m) va [b].
Proof.
  intros Hw Hva Hp. set (m' := <[p := _]> m).
  destruct (w_map _ Hw va Hva) as (p' & Hp' & Hpos & Hnt). assert (p' = p) as -> by congruence.
  assert (Hg : forall q, get_page m' q = if decide (p = q) then <[va mod 4096 := b]> (get_page m p) else get_page m q).
  { intros q. unfold m', get_page. rewrite lookup_insert. by case_decide. }
  destruct (PT.wf_pages m m' root tables (w_tables _ Hw)) as [Hwf Hl].
  { intros x Hx. rewrite Hg. rewrite decide_False; [done|]. by intros ->. }
  assert (Hph : forall x, phys m' root x = phys m root x) by (intros x; unfold phys; by rewrite Hl).
  split; [split| | |].
  - exact (w_range _ Hw).
  - exact Hwf.
  - intros x Hx. rewrite Hph. by apply (w_map _ Hw).
  - intros x y q o Hx Hy. rewrite !Hph. by apply (w_inj _ Hw).
  - exact Hph.
  - intros x Hx. unfold user_byte. rewrite Hph. destruct (w_map _ Hw x Hx) as (q & Hq & _). rewrite Hq. cbn [fmap option_fmap option_map].
    rewrite Hg. cbn [length]. case_decide as Hpq; [subst q; rewrite byte_at_insert|].
    + case_decide as Ho.
      * assert (x = va) as -> by (eapply (w_inj _ Hw); [done|done|exact Hq|by rewrite <- Ho]).
        rewrite decide_True by lia. by rewrite Z.sub_diag.
      * rewrite decide_False; [done|]. intros ?. assert (x = va) by lia. by subst x.
    + rewrite decide_False; [done|]. intros ?. assert (x = va) by lia. subst x. congruence.
  - intros q Hq. rewrite Hg. rewrite decide_False; [done|]. intros ->. by destruct (Hq va (va mod 4096) Hva).
Qed.

(** The bytes [bs] are at [a]. *)
Definition bytes_at m (a : Z) (bs : list Z) : Prop :=
  forall j b, bs !! j = Some b -> user_byte m root (a + Z.of_nat j) = Some b.

Lemma writes_bytes_at m m' a bs : writes m m' a bs -> lo <= a -> a + Z.of_nat (length bs) <= hi -> bytes_at m' a bs.
Proof.
  intros Hwr Ha Hb j b Hj. pose proof (lookup_lt_Some _ _ _ Hj) as Hlt. rewrite (wr_byte _ _ _ _ Hwr) by lia.
  rewrite decide_True by lia. by replace (Z.to_nat (a + Z.of_nat j - a)) with j by lia.
Qed.

Lemma bytes_at_keep m m' a bs : bytes_at m a bs ->
  (forall va, a <= va < a + Z.of_nat (length bs) -> user_byte m' root va = user_byte m root va) -> bytes_at m' a bs.
Proof. intros Hb Hk j b Hj. pose proof (lookup_lt_Some _ _ _ Hj). rewrite Hk by lia. by apply Hb. Qed.
End window.

Fixpoint le_bytes (n : nat) (w : Z) : list Z :=
  match n with O => [] | S n' => w mod 256 :: le_bytes n' (w / 256) end.

Lemma length_le_bytes n w : length (le_bytes n w) = n.
Proof. revert w. induction n; intros; cbn; [done|]. by rewrite IHn. Qed.

(** * The stores *)

Section stores.
Context {F : Type} `{FrameAllocator F}.
Context (satp lo hi : Z) (tables : gset Z).
Implicit Types (s : mm F).
#[local] Abbreviation root := (PT.from_satp satp).
#[local] Abbreviation win s := (window root lo hi tables (mem s)).

Lemma refmut_run s va : win s -> lo <= va < hi ->
  exists p, phys (mem s) root va = Some (p, va mod 4096) /\ 0 < p < 2 ^ 44 /\
    translated_refmut satp va s = Ok (p * 4096 + va mod 4096, s).
Proof.
  intros Hw Hva. destruct (w_map _ _ _ _ _ Hw va Hva) as (p & Hp & Hpos & _). exists p. split_and!; [done|lia|lia|].
  pose proof (w_range _ _ _ _ _ Hw) as Hr. unfold translated_refmut, translated_ref.
  rewrite VirtAddr_from_usize_mod, Z.mod_small by lia.
  destruct (translate_va_phys s root va p (va mod 4096)) as [E _]; [lia|lia|done|].
  st_step_by E. st_step. rewrite (proj2 (Z.eqb_neq _ _)) by lia. done.
Qed.

Lemma store_byte_run s va p b : win s -> lo <= va < hi -> phys (mem s) root va = Some (p, va mod 4096) ->
  exists s', store_byte (p * 4096 + va mod 4096) b s = Ok (tt, s') /\ falloc s' = falloc s /\
    writes root lo hi tables (mem s) (mem s') va [b].
Proof.
  intros Hw Hva Hp. eexists. split; [reflexivity|]. split; [done|]. cbn [mem].
  assert ((p * 4096 + va mod 4096) / PAGE_SIZE = p) as -> by (unfold PAGE_SIZE; lia).
  assert ((p * 4096 + va mod 4096) mod PAGE_SIZE = va mod 4096) as -> by (unfold PAGE_SIZE; lia).
  by apply poke.
Qed.

(** A word that does not cross a page. *)
Lemma store_le_run n s va p w : win s -> lo <= va -> va + Z.of_nat n <= hi -> va mod 4096 + Z.of_nat n <= 4096 ->
  (n <> 0%nat -> phys (mem s) root va = Some (p, va mod 4096)) ->
  exists s', store_le n (p * 4096 + va mod 4096) w s = Ok (tt, s') /\ falloc s' = falloc s /\
    writes root lo hi tables (mem s) (mem s') va (le_bytes n w).
Proof.
  revert s va w. induction n as [|n IH]; intros s va w Hw Hlo Hhi Hpg Hp; cbn [store_le le_bytes].
  { exists s. split; [done|]. split; [done|]. by apply writes_nil. }
  specialize (Hp ltac:(done)).
  destruct (store_byte_run s va p (w mod 256) Hw ltac:(lia) Hp) as (s1 & E1 & F1 & W1). st_step_by E1.
  assert (Hn : n <> 0%nat -> (va + 1) mod 4096 = va mod 4096 + 1 /\ (va + 1) / 4096 = va / 4096) by lia.
  destruct (IH s1 (va + 1) (w / 256)) as (s2 & E2 & F2 & W2); [by eapply wr_window|lia|lia|lia| |].
  { intros Hn0. destruct (Hn Hn0) as [Hm Hd]. rewrite (wr_phys _ _ _ _ _ _ _ _ W1).
    destruct (w_map _ _ _ _ _ Hw (va + 1)) as (q & Hq & _); [lia|]. rewrite Hq. do 2 f_equal.
    unfold phys, PAGE_SIZE in Hp, Hq. rewrite Hd in Hq. destruct (PT.leaf _ _ _); [|done]. cbn in Hp, Hq. congruence. }
  exists s2. split; [|split; [congruence|by eapply writes_cons]].
  destruct (decide (n = 0%nat)) as [->|Hn0]; [exact E2|]. destruct (Hn Hn0) as [Hm _]. rewrite <- E2, Hm. f_equal. lia.
Qed.

Lemma push_string_run cs s p : win s -> lo <= p -> p + Z.of_nat (length cs) < hi ->
  exists s', push_string satp p cs s = Ok (tt, s') /\ falloc s' = falloc s /\
    writes root lo hi tables (mem s) (mem s') p (cs ++ [0]).
Proof.
  revert s p. induction cs as [|c cs IH]; intros s p Hw Hlo Hhi; cbn [push_string app length] in *.
  - destruct (refmut_run s p Hw ltac:(lia)) as (q & Hq & _ & E). st_step_by E. apply store_byte_run; [done|lia|done].
  - destruct (refmut_run s p Hw ltac:(lia)) as (q & Hq & _ & E). st_step_by E.
    destruct (store_byte_run s p q c Hw ltac:(lia) Hq) as (s1 & E1 & F1 & W1). st_step_by E1.
    pose proof (w_range _ _ _ _ _ Hw). rewrite uadd_small by lia.
    destruct (IH s1 (p + 1)) as (s2 & E2 & F2 & W2); [by eapply wr_window|lia|lia|].
    exists s2. split; [done|]. split; [congruence|by eapply writes_cons].
Qed.
End stores.

(** * The loops *)

Section loops.
Context {F : Type} `{FrameAllocator F}.
Context (satp lo hi : Z) (tables : gset Z).
Implicit Types (s : mm F).
#[local] Abbreviation root := (PT.from_satp satp).
#[local] Abbreviation win s := (window root lo hi tables (mem s)).

(** Only bytes at addresses in [R] were changed. *)
Record changed s s' (R : Z -> Prop) : Prop := {
  ch_window : win s';
  ch_alloc : falloc s' = falloc s;
  ch_phys : forall va, phys (mem s') root va = phys (mem s) root va;
  ch_byte : forall va, lo <= va < hi -> ~ R va -> user_byte (mem s') root va = user_byte (mem s) root va;
  ch_page : forall p, (forall va o, lo <= va < hi -> phys (mem s) root va <> Some (p, o)) -> get_page (mem s') p = get_page (mem s) p;
}.

Lemma writes_changed s s' a bs (R : Z -> Prop) :
  writes root lo hi tables (mem s) (mem s') a bs -> falloc s' = falloc s ->
  (forall va, a <= va < a + Z.of_nat (length bs) -> R va) -> changed s s' R.
Proof.
  intros [W P B G] Hf HR. split; try done. intros va Hva Hn. rewrite B by done. rewrite decide_False; [done|]. naive_solver.
Qed.

Lemma changed_trans s s1 s2 R : changed s s1 R -> changed s1 s2 R -> changed s s2 R.
Proof.
  intros [_ F1 P1 B1 G1] [W2 F2 P2 B2 G2]. split; [done|congruence| | |].
  - intros va. by rewrite P2.
  - intros va Hva Hn. by rewrite B2, B1.
  - intros p Hp. rewrite G2, G1; [done|done|]. intros va o Hva. rewrite P1. by apply Hp.
Qed.

Lemma changed_mono s s' (R R' : Z -> Prop) : changed s s' R -> (forall va, R va -> R' va) -> changed s s' R'.
Proof. intros [W F' P B G] HR. split; try done. intros va Hva Hn. apply B; [done|]. naive_solver. Qed.

(** [argv] has the physical addresses of the [n] words at [a]. *)
Definition points_to s (a : Z) (n : nat) (argv : list Z) : Prop :=
  forall k, (k < n)%nat -> exists p, phys (mem s) root (a + 8 * Z.of_nat k) = Some (p, (a + 8 * Z.of_nat k) mod 4096) /\
    argv !! k = Some (p * 4096 + (a + 8 * Z.of_nat k) mod 4096).

Lemma argv_pointers_run s a l : win s -> 0 <= a -> Forall (fun i => 0 <= i /\ lo <= a + 8 * i < hi) l ->
  exists argv, argv_pointers satp a l s = Ok (argv, s) /\ length argv = length l /\
    forall k i, l !! k = Some i -> exists p, phys (mem s) root (a + 8 * i) = Some (p, (a + 8 * i) mod 4096) /\
      argv !! k = Some (p * 4096 + (a + 8 * i) mod 4096).
Proof.
  intros Hw Ha Hl. pose proof (w_range _ _ _ _ _ Hw) as Hr. induction Hl as [|i l [Hi0 Hi] Hl IH]; cbn [argv_pointers]; [by exists []|].
  destruct IH as (argv & E & Hlen & Hk). rewrite umul_small, uadd_small by lia. replace (a + i * 8) with (a + 8 * i) by lia.
  destruct (refmut_run satp lo hi tables s (a + 8 * i) Hw Hi) as (p & Hp & _ & E1). st_step_by E1. st_step_by E.
  eexists. split; [done|]. split; [cbn; lia|]. intros [|k] j Hj; cbn in Hj |- *; [|by apply Hk]. injection Hj as <-. by exists p.
Qed.

Definition args_size (args : list (list Z)) : Z := foldr (fun arg n => Z.of_nat (length arg) + 1 + n) 0 args.

Lemma args_size_nonneg args : 0 <= args_size args.
Proof. induction args as [|arg args IH]; cbn; [lia|]. unfold args_size in IH. lia. Qed.

(** An argument as the program finds it: the pointer at [slot], and the string. *)
Definition argument_at s (slot ptr : Z) (arg : list Z) : Prop :=
  bytes_at root (mem s) slot (le_bytes 8 ptr) /\ bytes_at root (mem s) ptr (arg ++ [0]).

Lemma argument_keep s s' R slot ptr arg :
  argument_at s slot ptr arg -> changed s s' R -> lo <= slot -> slot + 8 <= hi -> lo <= ptr ->
  ptr + Z.of_nat (length arg) + 1 <= hi -> (forall va, slot <= va < slot + 8 -> ~ R va) ->
  (forall va, ptr <= va < ptr + Z.of_nat (length arg) + 1 -> ~ R va) -> argument_at s' slot ptr arg.
Proof.
  intros [H1 H2] Hc ? ? ? ? HR1 HR2. split; (eapply bytes_at_keep; [eassumption|]).
  - rewrite length_le_bytes. intros va Hva. apply (ch_byte _ _ _ Hc); [lia|]. apply HR1. lia.
  - rewrite length_app. cbn. intros va Hva. apply (ch_byte _ _ _ Hc); [lia|]. apply HR2. lia.
Qed.

Lemma push_arg_run s sp a argv arg :
  win s -> (8 | a) -> lo <= sp - (Z.of_nat (length arg) + 1) -> sp <= a -> a + 8 <= hi -> (0 < length argv)%nat ->
  points_to s a 1 argv ->
  let p := sp - (Z.of_nat (length arg) + 1) in
  exists pa s1 s2, index argv 0 = Ok pa /\ store_le 8 pa p s = Ok (tt, s1) /\ push_string satp p arg s1 = Ok (tt, s2) /\
    changed s s2 (fun va => p <= va < sp \/ a <= va < a + 8) /\ argument_at s2 a p arg.
Proof.
  intros Hw [q Ha] Hlo Hsp Hhi Hlen Hpt p. destruct (Hpt 0%nat ltac:(lia)) as (f & Hf & Harg).
  replace (a + 8 * Z.of_nat 0) with a in * by lia.
  destruct (store_le_run satp lo hi tables 8 s a f p Hw) as (s1 & E1 & F1 & W1); [lia|lia|lia|done|].
  destruct (push_string_run satp lo hi tables arg s1 p) as (s2 & E2 & F2 & W2); [by eapply wr_window|lia|lia|].
  assert (C1 : changed s s1 (fun va => a <= va < a + 8)).
  { eapply writes_changed; [done|done|]. rewrite length_le_bytes. lia. }
  assert (C2 : changed s1 s2 (fun va => p <= va < sp)).
  { eapply writes_changed; [done|done|]. rewrite length_app. cbn. intros va ?. unfold p in *. lia. }
  exists (f * 4096 + a mod 4096), s1, s2. split_and!; [by apply index_Ok|done|done| |split].
  - eapply changed_trans; eapply changed_mono; try done; cbn; tauto.
  - eapply bytes_at_keep; [eapply writes_bytes_at; [exact W1|lia|rewrite length_le_bytes; lia]|].
    rewrite length_le_bytes. intros va Hva. apply (ch_byte _ _ _ C2); lia.
  - eapply writes_bytes_at; [exact W2|lia|]. rewrite length_app. cbn. unfold p. lia.
Qed.

Lemma push_args_run args : forall s sp a argv,
  win s -> (8 | a) -> lo <= sp - args_size args -> sp <= a -> a + 8 * Z.of_nat (length args) <= hi ->
  length argv = S (length args) -> points_to s a (length args) argv ->
  exists s', push_args satp sp args argv s = Ok (sp - args_size args, s') /\
    changed s s' (fun va => sp - args_size args <= va < sp \/ a <= va < a + 8 * Z.of_nat (length args)) /\
    forall k arg, args !! k = Some arg -> exists ptr, sp - args_size args <= ptr /\
      ptr + Z.of_nat (length arg) + 1 <= sp /\ argument_at s' (a + 8 * Z.of_nat k) ptr arg.
Proof.
  induction args as [|arg args IH]; intros s sp a argv Hw Ha Hlo Hsp Hhi Hlen Hpt; cbn [push_args length] in *.
  { exists s. cbn. rewrite Z.sub_0_r. split; [done|]. split; [|done]. by split. }
  pose proof (args_size_nonneg args) as Hnn. pose proof (w_range _ _ _ _ _ Hw) as Hr.
  assert (Hsz : args_size (arg :: args) = Z.of_nat (length arg) + 1 + args_size args) by done. rewrite Hsz in *.
  destruct (push_arg_run s sp a argv arg Hw Ha) as (pa & s1 & s2 & Ei & E1 & E2 & C2 & A2); [lia|lia|lia|lia| |].
  { intros k Hk. apply Hpt. lia. }
  set (p := sp - (Z.of_nat (length arg) + 1)) in *.
  destruct (IH s2 p (a + 8) (drop 1 argv)) as (s3 & E3 & C3 & A3).
  - by eapply ch_window.
  - apply Z.divide_add_r; [done|by exists 1].
  - unfold p. lia.
  - unfold p. lia.
  - lia.
  - rewrite length_drop. lia.
  - intros k Hk. rewrite (ch_phys _ _ _ C2). destruct (Hpt (S k) ltac:(lia)) as (q & Hq & Hargv).
    replace (a + 8 * Z.of_nat (S k)) with (a + 8 + 8 * Z.of_nat k) in * by lia. exists q. by rewrite lookup_drop.
  - exists s3. split_and!.
    + rewrite (uadd_small (Z.of_nat (length arg))), usub_small by lia. fold p. rewrite Ei. st_step. st_step_by E1. st_step_by E2.
      rewrite E3. do 2 f_equal. unfold p. lia.
    + eapply changed_trans; eapply changed_mono; try done; cbn; unfold p; lia.
    + intros [|k] x Hx; cbn in Hx.
      * injection Hx as <-. exists p. split_and!; [unfold p; lia|unfold p; lia|]. rewrite Z.add_0_r.
        eapply argument_keep; [exact A2|exact C3|lia|lia|unfold p; lia|unfold p; lia|unfold p; lia|unfold p; lia].
      * destruct (A3 k x Hx) as (ptr & H1 & H2 & H3). exists ptr. split_and!; [unfold p in *; lia|unfold p in *; lia|].
        by replace (a + 8 * Z.of_nat (S k)) with (a + 8 + 8 * Z.of_nat k) by lia.
Qed.
End loops.

(** A string in the window, read by the kernel. *)
Lemma str_at {F} `{FrameAllocator F} satp lo hi tables (s : mm F) ptr arg :
  window (PT.from_satp satp) lo hi tables (mem s) -> lo <= ptr -> ptr + Z.of_nat (length arg) < hi ->
  bytes_at (PT.from_satp satp) (mem s) ptr (arg ++ [0]) -> Forall (fun c => c <> 0) arg ->
  translated_str (S (length arg)) satp ptr s = Ok (arg, s).
Proof.
  intros Hw Hlo Hhi Hb Hnz. pose proof (w_range _ _ _ _ _ Hw) as Hr. unfold translated_str.
  rewrite (str_loop _ _ _ arg []); [done|lia|lia| | |done| |lia].
  - intros a Ha p o Hp. destruct (w_map _ _ _ _ _ Hw a) as (p' & Hp' & Hpos & _); [lia|]. rewrite Hp in Hp'. by injection Hp' as -> _.
  - apply list_eq. intros k. rewrite !list_lookup_fmap. destruct (decide (k < length arg)%nat) as [Hk|Hk].
    + destruct (lookup_lt_is_Some_2 _ _ Hk) as [c Hc]. rewrite lookup_seqZ_lt, Hc by lia. cbn. f_equal. apply Hb.
      by rewrite lookup_app_l.
    + rewrite lookup_seqZ_ge, lookup_ge_None_2 by lia. done.
  - apply Hb. rewrite lookup_app_r, Nat.sub_diag by lia. done.
Qed.

Section claim.
Context {F : Type} `{FrameAllocator F}.
Implicit Types (s : mm F).

(** What [exec] leaves on the stack. *)
Lemma push_arguments_run s satp lo top tables args :
  window (PT.from_satp satp) lo top tables (mem s) -> (8 | top) ->
  lo <= top - 8 * (Z.of_nat (length args) + 1) - args_size args - 7 ->
  let argv := top - 8 * (Z.of_nat (length args) + 1) in
  exists sp s', push_arguments satp top args s = Ok ((sp, argv), s') /\ (8 | sp) /\ lo <= sp /\
    (forall k arg, args !! k = Some arg -> exists ptr, sp <= ptr /\ ptr + Z.of_nat (length arg) < argv /\
      argument_at satp s' (argv + 8 * Z.of_nat k) ptr arg) /\
    bytes_at (PT.from_satp satp) (mem s') (argv + 8 * Z.of_nat (length args)) (le_bytes 8 0) /\
    changed satp lo top tables s s' (fun va => sp <= va).
Proof.
  intros Hw [q Hq] Hlo argv. set (n := Z.of_nat (length args)) in *. pose proof (w_range _ _ _ _ _ Hw) as Hr.
  pose proof (args_size_nonneg args) as Hnn. unfold push_arguments. fold n.
  rewrite (uadd_small n), umul_small, usub_small by lia. replace (top - (n + 1) * 8) with argv by (unfold argv; lia).
  destruct (argv_pointers_run satp lo top tables s argv (seqZ 0 (n + 1)) Hw) as (l & E1 & Hlen & Hl); [unfold argv; lia| |].
  { apply Forall_forall. intros i Hi%elem_of_seqZ. unfold argv. lia. }
  rewrite length_seqZ in Hlen. st_step_by E1.
  assert (Hp : points_to satp s argv (S (length args)) l).
  { intros k Hk. apply Hl. rewrite lookup_seqZ_lt by lia. f_equal; lia. }
  destruct (Hp (length args) ltac:(lia)) as (f & Hf & Hlast). fold n in Hf, Hlast.
  rewrite (proj2 (index_Ok l n _)) by (split; [lia|]; unfold n; rewrite Nat2Z.id; exact Hlast). st_step.
  assert (Ha : (8 | argv)) by (exists (q - (n + 1)); unfold argv; lia).
  destruct (store_le_run satp lo top tables 8 s (argv + 8 * n) f 0 Hw) as (s1 & E2 & F2 & W2);
    [unfold argv; lia|unfold argv; lia|unfold argv; lia|done|].
  st_step_by E2.
  assert (C2 : changed satp lo top tables s s1 (fun va => argv + 8 * n <= va < top)).
  { eapply writes_changed; [done|done|]. rewrite length_le_bytes. unfold argv. lia. }
  destruct (push_args_run satp lo top tables args s1 argv argv l) as (s2 & E3 & C3 & A3);
    [by eapply ch_window|done|unfold argv; lia|lia|unfold argv; lia|lia| |].
  { intros k Hk. rewrite (ch_phys _ _ _ _ _ _ _ C2). apply Hp. lia. }
  st_step_by E3. set (e := argv - args_size args) in *. rewrite usub_small by (unfold e, argv; lia).
  exists (e - e mod 8), s2. split_and!; [done|exists (e / 8); lia|unfold e, argv; lia| | |].
  - intros k arg Hk. destruct (A3 k arg Hk) as (ptr & H1 & H2 & Ha3). exists ptr. split_and!; [unfold e in *; lia|lia|done].
  - eapply bytes_at_keep; [eapply writes_bytes_at; [exact W2|unfold argv; lia|rewrite length_le_bytes; unfold argv; lia]|].
    rewrite length_le_bytes. fold n. intros va Hva. apply (ch_byte _ _ _ _ _ _ _ C3); [unfold argv in *; lia|]. fold n. unfold argv. lia.
  - eapply changed_trans; eapply changed_mono; try done; cbn; fold n; unfold e, argv; intros va ?; lia.
Qed.

(** [exec] passes the arguments on: when the stack has room for them, they are
    written without a panic, the stack pointer the program starts with is aligned to 8
    bytes and lies below everything written, the word at [argv + 8 * k] points to a
    string from which [translated_str] reads back the [k]-th argument, the word after
    the last one is zero, and nothing but the stack between the stack pointer and the
    top changes. *)
Theorem exec_arguments_roundtrip s satp lo top tables args :
  window (PT.from_satp satp) lo top tables (mem s) -> (8 | top) ->
  lo <= top - 8 * (Z.of_nat (length args) + 1) - args_size args - 7 ->
  Forall (Forall (fun c => c <> 0)) args ->
  let argv := top - 8 * (Z.of_nat (length args) + 1) in
  exists sp s', push_arguments satp top args s = Ok ((sp, argv), s') /\ (8 | sp) /\ lo <= sp /\
    (forall k arg, args !! k = Some arg -> exists ptr, sp <= ptr < argv /\
      bytes_at (PT.from_satp satp) (mem s') (argv + 8 * Z.of_nat k) (le_bytes 8 ptr) /\
      translated_str (S (length arg)) satp ptr s' = Ok (arg, s')) /\
    bytes_at (PT.from_satp satp) (mem s') (argv + 8 * Z.of_nat (length args)) (le_bytes 8 0) /\
    changed satp lo top tables s s' (fun va => sp <= va).
Proof.
  intros Hw Ht Hlo Hnz argv. destruct (push_arguments_run s satp lo top tables args Hw Ht Hlo) as (sp & s' & E & Hal & Hsp & Ha & Hz & C).
  exists sp, s'. split_and!; try done. intros k arg Hk. destruct (Ha k arg Hk) as (ptr & H1 & H2 & Hb1 & Hb2). fold argv in H2, Hb1.
  exists ptr. split_and!; [lia|lia|done|]. pose proof (w_range _ _ _ _ _ Hw).
  apply (str_at satp lo top tables); [by eapply ch_window|lia|unfold argv in *; lia|done|]. eapply Forall_lookup_1 in Hnz; done.
Qed.
End claim.

(** The pages of a framed segment, such as a user stack, are a window. *)
Lemma segment_window {F} `{HL : FrameAllocatorLaws F} (s : mm F) pt live seg0 l r s' pt' live' seg' :
  maps s pt live seg0 (vpns (mkRange l r)) s' pt' live' seg' -> range_ok l r -> r * 4096 < 2 ^ 38 ->
  0 <= permission seg' < 256 -> (forall f, f ∈ live' -> 0 < f) ->
  window (PT.root_ppn pt') (l * 4096) (r * 4096) (list_to_set (PT.frames pt')) (mem s').
Proof.
  intros M Hr Hhi Hperm Hpos. destruct (vpns_ok l r Hr) as (_ & _ & _ & Hin). destruct Hr as [Hl _].
  destruct (ms_mapped _ _ _ _ _ _ _ _ _ M) as [Hf Hj]. pose proof (PT.lor_V_range _ Hperm) as Hlor.
  assert (Hva : forall va, l * 4096 <= va < r * 4096 -> exists f, data_frames seg' !! (va / 4096) = Some f /\
    phys (mem s') (PT.root_ppn pt') va = Some (f, va mod 4096) /\ 0 < f < 2 ^ 44 /\ f ∉ PT.frames pt' /\ va / 4096 ∈ vpns (mkRange l r)).
  { intros va Hva. assert (Hv : va / 4096 ∈ vpns (mkRange l r)) by (apply Hin; lia).
    destruct (Hf _ Hv) as (f & Hd & Hlv & Hn & Hb & Hleaf). specialize (Hpos f Hlv). exists f. split_and!; try done; try lia.
    unfold phys, PAGE_SIZE. rewrite Hleaf. cbn. by rewrite PTE.ppn_new by lia. }
  split.
  - lia.
  - exact (PT.inv_wf _ _ _ (ms_inv _ _ _ _ _ _ _ _ _ M)).
  - intros va H1. destruct (Hva va H1) as (f & _ & Hp & Hb & Hn & _). exists f. split_and!; [done|lia|lia|set_solver].
  - intros va vb p o H1 H2 P1 P2. destruct (Hva va H1) as (f & D1 & Q1 & _ & _ & V1). destruct (Hva vb H2) as (g & D2 & Q2 & _ & _ & V2).
    rewrite P1 in Q1. rewrite P2 in Q2. injection Q1 as -> ->. injection Q2 as <- E.
    pose proof (Hj _ _ _ V1 V2 D1 D2). lia.
Qed.

Section witness.
#[local] Existing Instance Frame.stack_frame_allocator_laws | 100.
Let laws := Frame.stack_frame_allocator_laws 16.

(** A stack of two pages, [20480, 28672). *)
Lemma demo_stack : exists (s : mm Frame.StackFrameAllocator) tables, window 16 20480 28672 tables (mem s).
Proof.
  destruct PT.demo_table as (pt0 & s & live & _ & Hi & Hr & Hc & Hl).
  assert (Hrg : range_ok 5 7) by (by vm_compute).
  destruct (seg_map_framed (HL := laws) s pt0 live 5 7 22 Hi Hrg ltac:(lia)) as (s' & pt' & live' & seg' & _ & M).
  { intros v _. rewrite Hr. apply Hl. }
  { unfold laws. rewrite Hc. change (3 * Z.to_nat (7 - 5))%nat with 6%nat. lia. }
  exists s', (list_to_set (PT.frames pt')). rewrite <- Hr, <- (ms_root _ _ _ _ _ _ _ _ _ M).
  refine (segment_window (HL := laws) _ _ _ _ 5 7 _ _ _ _ M Hrg ltac:(lia) _ _).
  - rewrite (ms_perm _ _ _ _ _ _ _ _ _ M). cbn. lia.
  - intros f Hf. pose proof (PT.inv_rep _ _ _ (ms_inv _ _ _ _ _ _ _ _ _ M)) as Hrep. unfold laws in Hrep. cbn in Hrep.
    apply (Frame.rep_live _ _ _ Hrep) in Hf. lia.
Qed.
End witness.

(** The arguments "ls" and "-a". *)
Lemma exec_arguments_roundtrip_witness :
  exists (s s' : mm Frame.StackFrameAllocator) (sp p q : Z),
    push_arguments (PT.satp 16) 28672 [[108; 115]; [45; 97]] s = Ok ((sp, 28648), s') /\
    bytes_at 16 (mem s') 28648 (le_bytes 8 p) /\ translated_str 3 (PT.satp 16) p s' = Ok ([108; 115], s') /\
    bytes_at 16 (mem s') 28656 (le_bytes 8 q) /\ translated_str 3 (PT.satp 16) q s' = Ok ([45; 97], s') /\
    bytes_at 16 (mem s') 28664 (le_bytes 8 0).
Proof.
  destruct demo_stack as (s & tables & Hw). rewrite <- (PT.from_satp_satp 16) in Hw by lia.
  destruct (exec_arguments_roundtrip s (PT.satp 16) 20480 28672 tables [[108; 115]; [45; 97]] Hw)
    as (sp & s' & E & _ & _ & Ha & Hz & _); [by exists 3584|cbn; lia|by repeat constructor|].
  destruct (Ha 0%nat _ eq_refl) as (p & _ & P1 & P2). destruct (Ha 1%nat _ eq_refl) as (q & _ & Q1 & Q2).
  rewrite PT.from_satp_satp in * by lia. exists s, s', sp, p, q. split_and!; assumption.
Defined.
