(* ===== verification/FileCalls.v ===== *)
(** File descriptors: os/src/syscall/fs.rs, the [File] trait of os/src/fs/mod.rs, and
    [sys_exec] of os/src/syscall/process.rs.

    The state adds the file objects to the state of [Process]: a descriptor table holds
    numbers of file objects, so descriptors that were duplicated or inherited share an
    object and its offset.  A [read] or [write] that has to wait leaves a [call] behind
    and goes on from it when its task is dispatched again; until then it holds the file
    and the process.  How many [Arc]s of a write end there are, which a pipe asks for, is
    a function of the descriptor tables and the suspended calls ([file_refs]). *)

From S2P Require Import Prelude Address Alloc Memory PageTable BlockCache BlockLogic Bitmap Layout InodeGrowth Efs Vfs.
From S2P Require Import Directory Pipe UserBuffer Files Sched Signal AddressSpace Process.

#[local] Ltac Zify.zify_post_hook ::= Z.to_euclidean_division_equations.
#[local] Arguments enc_words : simpl never.
#[local] Arguments dec_words : simpl never.

(** [dyn File] *)
Inductive file_object :=
| FStdin
| FStdout
| FInode (o : OSInode)
| FPipe (e : Pipe.Pipe) (ring : nat).

Definition file_readable (f : file_object) : bool :=
  match f with FStdin => true | FStdout => false | FInode o => readable o | FPipe e _ => Pipe.p_readable e end.
Definition file_writable (f : file_object) : bool :=
  match f with FStdin => false | FStdout => true | FInode o => writable o | FPipe e _ => Pipe.p_writable e end.

(** A call that waits: on a pipe, with the pointers not used yet, or for a key. *)
Inductive call :=
| CallRead (f ring : nat) (rd : Pipe.reader)
| CallWrite (f ring : nat) (buf_len : Z) (ptrs : list (Z * Z)) (already_write : Z)
| CallStdin (f : nat) (buf : list slice).

Definition call_file (c : call) : nat :=
  match c with CallRead f _ _ => f | CallWrite f _ _ _ _ => f | CallStdin f _ => f end.

Record fstate (F D : Type) := mkFS {
  fk : kstate F;
  f_objects : list file_object;
  f_rings : list Pipe.PipeRingBuffer;
  f_disk : store D;
  f_console : list Z;                (* the bytes sent to the UART *)
  f_keys : list Z;                   (* the bytes the UART will receive *)
  f_calls : list (nat * call);
}.
Arguments mkFS {F D}.
Arguments fk {F D}.
Arguments f_objects {F D}.
Arguments f_rings {F D}.
Arguments f_disk {F D}.
Arguments f_console {F D}.
Arguments f_keys {F D}.
Arguments f_calls {F D}.

(** The bytes of slices of user memory, and stores to them. *)
Definition slice_bytes (m : pmem) (sl : slice) : list Z := read_bytes (get_page m (sl_ppn sl)) (sl_from sl) (sl_len sl).
Definition ptr_byte (m : pmem) (p : Z * Z) : Z := byte_at (get_page m p.1) p.2.
Definition store_ptr (m : pmem) (x : (Z * Z) * Z) : pmem := <[x.1.1 := <[x.1.2 := x.2]> (get_page m x.1.1)]> m.
Definition store_slices (m : pmem) (l : list slice) (bufs : list (list Z)) : pmem :=
  foldl store_ptr m (zip (buffer_ptrs l) (concat bufs)).

(** [String::push(ch as char)]: the bytes of a string made of Latin-1 characters. *)
Definition char_bytes (c : Z) : list Z := if c <? 128 then [c] else [192 + c / 64; 128 + c mod 64].
Definition string_bytes (cs : list Z) : list Z := cs ≫= char_bytes.

Section calls.
Context {F : Type} `{FrameAllocator F} {D : Type} `{BlockDevice D}.
Context (efs : EasyFileSystem) (ROOT_INODE : Inode).
#[local] Abbreviation state := (fstate F D).

(** ** Access to the parts *)

Definition on_k {A} (m : ST (kstate F) A) : ST state A := fun s =>
  '(a, k) ← m (fk s);
  Ok (a, mkFS k (f_objects s) (f_rings s) (f_disk s) (f_console s) (f_keys s) (f_calls s)).
Definition on_disk {A} (m : io A) : ST state A := fun s =>
  '(a, d) ← crun m (f_disk s);
  Ok (a, mkFS (fk s) (f_objects s) (f_rings s) d (f_console s) (f_keys s) (f_calls s)).
Definition set_objects (l : list file_object) : ST state unit := fun s =>
  Ok (tt, mkFS (fk s) l (f_rings s) (f_disk s) (f_console s) (f_keys s) (f_calls s)).
Definition set_rings (l : list Pipe.PipeRingBuffer) : ST state unit := fun s =>
  Ok (tt, mkFS (fk s) (f_objects s) l (f_disk s) (f_console s) (f_keys s) (f_calls s)).
Definition set_console (l : list Z) : ST state unit := fun s =>
  Ok (tt, mkFS (fk s) (f_objects s) (f_rings s) (f_disk s) l (f_keys s) (f_calls s)).
Definition set_calls (l : list (nat * call)) : ST state unit := fun s =>
  Ok (tt, mkFS (fk s) (f_objects s) (f_rings s) (f_disk s) (f_console s) (f_keys s) l).

(** With no byte left the driver polls the UART for ever. *)
Definition console_getchar : ST state Z := fun s =>
  match f_keys s with
  | [] => Panic OutOfFuel
  | c :: keys => Ok (c, mkFS (fk s) (f_objects s) (f_rings s) (f_disk s) (f_console s) keys (f_calls s))
  end.

Definition on_memory (f : pmem -> pmem) : ST state unit :=
  on_k (on_mm (fun m => Ok (tt, mkMM (f (mem m)) (falloc m)))).
Definition user_memory : ST state pmem := fun s => Ok (mem (k_mm (fk s)), s).

(** [Arc::new] of a file, and the object behind an [Arc]. *)
Definition new_file (f : file_object) : ST state nat :=
  s ← get; set_objects (f_objects s ++ [f]);; mret (length (f_objects s)).
Definition get_file (f : nat) : ST state file_object := s ← get; lift (unwrap (f_objects s !! f)).
Definition set_file (f : nat) (o : file_object) : ST state unit := s ← get; set_objects (<[f := o]> (f_objects s)).
Definition get_ring (r : nat) : ST state Pipe.PipeRingBuffer := s ← get; lift (unwrap (f_rings s !! r)).
Definition set_ring (r : nat) (x : Pipe.PipeRingBuffer) : ST state unit := s ← get; set_rings (<[r := x]> (f_rings s)).

(** The [Arc]s of a file object. *)
Definition file_refs (f : nat) (s : state) : nat :=
  (count_occ_nat f (concat ((fun b => omap id (fd_table b)) <$> (map_to_list (procs (fk s))).*2)) +
   count_occ_nat f (call_file <$> (f_calls s).*2))%nat.

(** The strong count of the write end of a ring. *)
Definition is_write_end (ring : nat) (f : file_object) : bool :=
  match f with FPipe e r => Pipe.p_writable e && bool_decide (r = ring) | _ => false end.
Definition writers (ring : nat) (s : state) : Z :=
  match find_index (is_write_end ring) (f_objects s) with
  | Some f => Z.of_nat (file_refs f s)
  | None => 0
  end.

(** [suspend_current_and_run_next] inside a call of [sys_read] or [sys_write]: the frame
    keeps the process and the file. *)
Definition wait_in (c : call) : ST state (option Z) :=
  t ← on_k (on_sched current_task);
  p ← on_k current_proc;
  k ← on_k get;
  on_k (set_held ((t, p) :: held_procs k));;
  on_k (on_sched (suspend_current_and_run_next KYield));;
  s ← get;
  set_calls ((t, c) :: f_calls s);;
  mret None.

(** ** [File::read] and [File::write] *)

Definition pipe_read (f ring : nat) (rd : Pipe.reader) : ST state (option Z) :=
  r ← get_ring ring;
  s ← get;
  '(o, r', rd') ← lift (Pipe.read_run Pipe.run_fuel (writers ring s) r rd);
  set_ring ring r';;
  on_memory (fun m => foldl store_ptr m (drop (length (Pipe.r_stored rd)) (Pipe.r_stored rd')));;
  match o with
  | Pipe.Returned n => mret (Some n)
  | Pipe.Suspended => wait_in (CallRead f ring rd')
  end.

Definition pipe_write (f ring : nat) (buf_len : Z) (ptrs : list (Z * Z)) (already : Z) : ST state (option Z) :=
  r ← get_ring ring;
  m ← user_memory;
  '(o, r', wr') ← lift (Pipe.write_run Pipe.run_fuel r (Pipe.mkWriter buf_len (ptr_byte m <$> ptrs) already));
  set_ring ring r';;
  match o with
  | Pipe.Returned n => mret (Some n)
  | Pipe.Suspended =>
      wait_in (CallWrite f ring buf_len (drop (length ptrs - length (Pipe.w_iter wr')) ptrs) (Pipe.already_write wr'))
  end.

Definition stdin_read (f : nat) (buf : list slice) : ST state (option Z) :=
  m ← user_memory;
  c ← console_getchar;
  o ← lift (Stdin_read c (slice_bytes m <$> buf));
  match o with
  | Some (n, bufs) => on_memory (fun m => store_slices m buf bufs);; mret (Some n)
  | None => wait_in (CallStdin f buf)
  end.

Definition buffer_pointers (buf : list slice) : res (list (Z * Z)) :=
  iter_all (S (Z.to_nat (UserBuffer_len (mkUserBuffer buf)))) (UserBuffer_into_iter (mkUserBuffer buf)).

Definition file_read (f : nat) (buf : list slice) : ST state (option Z) :=
  o ← get_file f;
  match o with
  | FStdin => stdin_read f buf
  | FStdout => panic PanicCall
  | FInode o =>
      m ← user_memory;
      '(n, bufs, o') ← on_disk (OSInode_read o (slice_bytes m <$> buf));
      on_memory (fun m => store_slices m buf bufs);;
      set_file f (FInode o');;
      mret (Some n)
  | FPipe e ring =>
      ptrs ← lift (buffer_pointers buf);
      rd ← lift (Pipe.Pipe_read (Pipe.p_readable e) (UserBuffer_len (mkUserBuffer buf)) ptrs);
      pipe_read f ring rd
  end.

Definition file_write (f : nat) (buf : list slice) : ST state (option Z) :=
  o ← get_file f;
  match o with
  | FStdin => panic PanicCall
  | FStdout =>
      m ← user_memory;
      s ← get;
      '(n, console) ← lift (Stdout_write (slice_bytes m <$> buf) (f_console s));
      set_console console;;
      mret (Some n)
  | FInode o =>
      m ← user_memory;
      '(n, o') ← on_disk (OSInode_write efs o (slice_bytes m <$> buf));
      set_file f (FInode o');;
      mret (Some n)
  | FPipe e ring =>
      ptrs ← lift (buffer_pointers buf);
      wr ← lift (Pipe.Pipe_write (Pipe.p_writable e) (UserBuffer_len (mkUserBuffer buf)) []);
      pipe_write f ring (Pipe.w_buf_len wr) ptrs (Pipe.already_write wr)
  end.

(** ** The system calls *)

Definition closed (b : ProcessControlBlock) (fd : Z) : bool :=
  (Z.of_nat (length (fd_table b)) <=? fd) || bool_decide (fd_table b !! Z.to_nat fd = Some None).

(** [let fd = inner.alloc_fd(); inner.fd_table[fd] = Some(file);] *)
Definition install (p : nat) (f : nat) : ST state Z :=
  b ← on_k (get_proc p);
  let '(fd, b1) := alloc_fd b in
  l ← lift (index_set (fd_table b1) fd (Some f));
  on_k (upd_proc p (with_fds l));;
  mret fd.

Definition sys_dup (fd : Z) : ST state Z :=
  p ← on_k current_proc;
  b ← on_k (get_proc p);
  if closed b fd then mret (-1)
  else
    o ← lift (index (fd_table b) fd);
    f ← lift (unwrap o);
    new_fd ← install p f;
    mret (as_isize new_fd).

Definition sys_close (fd : Z) : ST state Z :=
  p ← on_k current_proc;
  b ← on_k (get_proc p);
  if closed b fd then mret (-1)
  else
    l ← lift (index_set (fd_table b) fd None);
    on_k (upd_proc p (with_fds l));;
    mret 0.

(** [fuel] bounds the length of the path. *)
Definition sys_open (fuel : nat) (path flags : Z) : ST state Z :=
  p ← on_k current_proc;
  b ← on_k (get_proc p);
  cs ← on_k (on_mm (translated_str fuel (satp (address_space b)) path));
  fl ← lift (unwrap (OpenFlags_from_bits flags));
  o ← on_disk (open_file efs ROOT_INODE (string_bytes cs) fl);
  match o with
  | Some i =>
      f ← new_file (FInode i);
      fd ← install p f;
      mret (as_isize fd)
  | None => mret (-1)
  end.

Definition sys_pipe (pipe : Z) : ST state Z :=
  p ← on_k current_proc;
  b ← on_k (get_proc p);
  s ← get;
  let '(r, read_end, write_end) := Pipe.make_pipe in
  set_rings (f_rings s ++ [r]);;
  rf ← new_file (FPipe read_end (length (f_rings s)));
  wf ← new_file (FPipe write_end (length (f_rings s)));
  read_fd ← install p rf;
  write_fd ← install p wf;
  pa ← on_k (on_mm (translated_refmut (satp (address_space b)) pipe));
  on_k (on_mm (store_le 8 pa read_fd));;
  pa' ← on_k (on_mm (translated_refmut (satp (address_space b)) (uadd pipe 8)));
  on_k (on_mm (store_le 8 pa' write_fd));;
  mret 0.

(** The common part of [sys_read] and [sys_write]. *)
Definition file_call (ok : file_object -> bool) (run : nat -> list slice -> ST state (option Z)) (fd buffer len : Z)
  : ST state (option Z) :=
  p ← on_k current_proc;
  b ← on_k (get_proc p);
  if Z.of_nat (length (fd_table b)) <=? fd then mret (Some (-1))
  else
    o ← lift (index (fd_table b) fd);
    match o with
    | Some f =>
        x ← get_file f;
        if negb (ok x) then mret (Some (-1))
        else
          buf ← on_k (on_mm (translated_byte_buffer (satp (address_space b)) buffer len));
          run f buf
    | None => mret (Some (-1))
    end.

Definition sys_write (fd buffer len : Z) : ST state (option Z) := file_call file_writable file_write fd buffer len.
Definition sys_read (fd buffer len : Z) : ST state (option Z) := file_call file_readable file_read fd buffer len.

(** ** Going on with a call *)

Definition resume_call (c : call) : ST state (option Z) :=
  match c with
  | CallRead f ring rd => pipe_read f ring rd
  | CallWrite f ring buf_len ptrs already => pipe_write f ring buf_len ptrs already
  | CallStdin f buf => stdin_read f buf
  end.

(** A round of the idle loop: a task that waits in a call goes on with it, and when
    the call returns, with the value given, the frame is gone with what it holds. *)
Definition f_dispatch : ST state (option (nat * option Z)) :=
  o ← on_k (on_sched run_tasks_round);
  match o with
  | None => mret None
  | Some t =>
      s ← get;
      match find_index (fun x => bool_decide (x.1 = t)) (f_calls s) with
      | Some i =>
          c ← lift (unwrap (f_calls s !! i));
          set_calls (delete i (f_calls s));;
          k ← on_k get;
          on_k (set_held (filter (fun x => x.1 <> t) (held_procs k)));;
          r ← resume_call c.2;
          match r with
          | Some v =>
              on_k (st_for (filter (fun x => x.1 = t) (held_procs k)).*2 (release_proc (S (base.size (procs k)))));;
              mret (Some (t, Some v))
          | None => mret (Some (t, None))
          end
      | None => on_k (resume_task t);; mret (Some (t, None))
      end
  end.

(** ** [sys_exec] *)

(** Eight bytes through a raw pointer. *)
Fixpoint load_le (n : nat) (pa : Z) (m : pmem) : Z :=
  match n with
  | O => 0
  | S n' => ptr_byte m (pa / PAGE_SIZE, pa mod PAGE_SIZE) + 256 * load_le n' (pa + 1) m
  end.

Fixpoint exec_args (fuel : nat) (satp args : Z) : ST (mm F) (list (list Z)) :=
  match fuel with
  | O => panic OutOfFuel
  | S fuel' =>
      pa ← translated_ref satp args;
      m ← get;
      let arg_str_ptr := load_le 8 pa (mem m) in
      if arg_str_ptr =? 0 then mret []
      else
        cs ← translated_str fuel satp arg_str_ptr;
        rest ← exec_args fuel' satp (uadd args 8);
        mret (string_bytes cs :: rest)
  end.

(** [parse] is [xmas_elf]. *)
Definition sys_exec (strampoline trap_handler user_sstatus : Z) (parse : list Z -> option ElfFile)
  (fuel : nat) (path args : Z) : ST state Z :=
  p ← on_k current_proc;
  b ← on_k (get_proc p);
  cs ← on_k (on_mm (translated_str fuel (satp (address_space b)) path));
  args_vec ← on_k (on_mm (exec_args fuel (satp (address_space b)) args));
  o ← on_disk (open_file efs ROOT_INODE (string_bytes cs) RDONLY);
  match o with
  | Some app_inode =>
      '(all_data, _) ← on_disk (read_all app_inode);
      on_k (exec strampoline trap_handler user_sstatus p (parse all_data) args_vec);;
      mret (as_isize (Z.of_nat (length args_vec)))
  | None => mret (-1)
  end.
End calls.
