(* ===== verification/FileCallSpecs.v ===== *)
(** What the calls on file descriptors do: which descriptor a new file gets, and what
    [sys_write] and [sys_read] on a file move between user memory and the disk. *)

From S2P Require Import Prelude Address Alloc Memory PageTable BlockCache BlockLogic Bitmap Layout InodeGrowth Efs Vfs.
From S2P Require Import Directory Pipe UserBuffer Files Sched Signal AddressSpace Process ExecArgs FileCalls.

#[local] Ltac Zify.zify_post_hook ::= Z.to_euclidean_division_equations.
#[local] Arguments enc_words : simpl never.
#[local] Arguments dec_words : simpl never.

(** ** Buffers *)

Lemma concat_slice_bytes m l : concat (slice_bytes m <$> l) = ptr_byte m <$> buffer_ptrs l.
Proof.
  induction l as [|sl l IH]; [done|]. cbn [fmap list_fmap concat]. rewrite IH.
  change (buffer_ptrs (sl :: l)) with (slice_ptrs sl ++ buffer_ptrs l). rewrite fmap_app. f_equal.
  unfold slice_bytes, read_bytes, slice_ptrs. rewrite <- list_fmap_compose. done.
Qed.

Lemma slice_bytes_nonempty m l : Forall slice_ok l -> Forall (fun b => b <> []) (slice_bytes m <$> l).
Proof.
  intros Hl. apply Forall_fmap. eapply Forall_impl; [exact Hl|]. intros sl [Hs _] E. cbn in E.
  apply (f_equal length) in E. unfold slice_bytes, read_bytes in E. rewrite length_fmap, length_seqZ in E. cbn in E.
  unfold sl_len in E. lia.
Qed.

(** The bytes behind the pointers of a user range. *)
Lemma ptr_bytes_user m root a n ptrs :
  phys m root <$> seqZ a n = Some <$> ptrs -> user_byte m root <$> seqZ a n = Some <$> (ptr_byte m <$> ptrs).
Proof.
  intros E. transitivity (fmap (M := option) (fun '(p, o) => byte_at (get_page m p) o) <$> (phys m root <$> seqZ a n)).
  { by rewrite <- list_fmap_compose. }
  rewrite E, <- !list_fmap_compose. apply list_fmap_ext. intros ? [p o] _. done.
Qed.

(** Stores through the pointers of a range in a window. *)
Lemma store_ptrs_writes root lo hi tables bs : forall m a ptrs,
  window root lo hi tables m -> lo <= a -> a + Z.of_nat (length bs) <= hi ->
  phys m root <$> seqZ a (Z.of_nat (length bs)) = Some <$> ptrs ->
  writes root lo hi tables m (foldl store_ptr m (zip ptrs bs)) a bs.
Proof.
  induction bs as [|b bs IH]; intros m a ptrs Hw Ha Hhi Hp.
  { rewrite zip_with_nil_r. cbn. by apply writes_nil. }
  cbn [length] in *. rewrite seqZ_cons in Hp by lia. destruct ptrs as [|q ptrs]; [done|]. rewrite !fmap_cons in Hp. injection Hp as Hq Hp.
  cbn [zip_with foldl]. destruct (w_map _ _ _ _ _ Hw a) as (p & Hpa & _); [lia|]. assert (Some q = Some (p, a mod 4096)) as [= ->] by (rewrite <- Hpa; symmetry; exact Hq).
  pose proof (poke root lo hi tables m a p b Hw ltac:(lia) Hpa) as W1. eapply writes_cons; [exact W1|].
  apply IH; [by eapply wr_window|lia|lia|]. rewrite <- Hp. replace (Z.pred (Z.of_nat (S (length bs)))) with (Z.of_nat (length bs)) by lia.
  replace (Z.succ a) with (a + 1) by lia. apply list_fmap_ext. intros ? va _. apply (wr_phys _ _ _ _ _ _ _ _ W1).
Qed.

(** A window can be read. *)
Lemma window_bytes root lo hi tables m a n :
  window root lo hi tables m -> lo <= a -> a + n <= hi -> exists bs, user_byte m root <$> seqZ a n = Some <$> bs.
Proof.
  intros Hw Ha Hn. destruct (mapM (user_byte m root) (seqZ a n)) as [l|] eqn:El.
  - exists l. apply mapM_Some_1 in El. apply list_eq_Forall2. apply Forall2_fmap. eapply Forall2_impl; [exact El|]. done.
  - exfalso. apply mapM_None_1 in El. apply Exists_exists in El as (va & Hva%elem_of_seqZ & Hv).
    destruct (w_map _ _ _ _ _ Hw va) as (q & Hq & _); [lia|]. unfold user_byte in Hv. by rewrite Hq in Hv.
Qed.

Lemma writes_user root lo hi tables m m' a bs :
  writes root lo hi tables m m' a bs -> lo <= a -> a + Z.of_nat (length bs) <= hi ->
  user_byte m' root <$> seqZ a (Z.of_nat (length bs)) = Some <$> bs.
Proof.
  intros Hwr Ha Hhi. apply list_eq. intros k. rewrite !list_lookup_fmap. destruct (decide (k < length bs)%nat) as [Hk|Hk].
  - rewrite lookup_seqZ_lt by lia. destruct (lookup_lt_is_Some_2 _ _ Hk) as [x Hx]. rewrite Hx. cbn [fmap option_fmap option_map].
    f_equal. by apply (writes_bytes_at _ _ _ _ _ _ _ _ Hwr).
  - by rewrite lookup_seqZ_ge, lookup_ge_None_2 by lia.
Qed.

Lemma wp_keeps_disk_ok {A} (p : io A) L H Q : wp p L H Q -> wp p L H (fun a L' => disk_ok L' /\ Q a L').
Proof. intros Hwp HL. destruct (Hwp HL) as (a & L' & E & Hok & Hd & HQ). by exists a, L'. Qed.

Lemma bytes_ok_concat (l : list (list Z)) : bytes_ok (concat l) -> Forall bytes_ok l.
Proof. induction l as [|b l IH]; cbn; [constructor|]. intros [Hb Hl]%Forall_app. constructor; [done|by apply IH]. Qed.

(** ** Running the accesses *)

Section runs.
Context {F : Type} `{FrameAllocator F} {D : Type} `{BlockDevice D}.
Implicit Types (s : fstate F D) (k : kstate F).

(** Process [p] runs, with control block [b]. *)
Definition runs s (p : nat) (b : ProcessControlBlock) : Prop :=
  current_proc (fk s) = Ok (p, fk s) /\ procs (fk s) !! p = Some b.

Lemma on_k_same {A} (m : ST (kstate F) A) a s : m (fk s) = Ok (a, fk s) -> on_k m s = Ok (a, s).
Proof. intros E. unfold on_k. rewrite E. cbn. by destruct s. Qed.

Lemma on_mm_same {A} (m : ST (mm F) A) a k : m (k_mm k) = Ok (a, k_mm k) -> on_mm m k = Ok (a, k).
Proof. intros E. unfold on_mm. rewrite E. cbn. by destruct k. Qed.

Lemma runs_start s p b : runs s p b -> on_k current_proc s = Ok (p, s) /\ on_k (get_proc p) s = Ok (b, s).
Proof.
  intros [H1 H2]. split; apply on_k_same; [done|]. unfold get_proc. by rewrite H2.
Qed.

Lemma get_proc_run_eq p s b : procs (fk s) !! p = Some b -> get_proc p (fk s) = Ok (b, fk s).
Proof. intros E. unfold get_proc. by rewrite E. Qed.

Lemma on_disk_run {A} (m : io A) a d s : crun m (f_disk s) = Ok (a, d) ->
  on_disk m s = Ok (a, mkFS (fk s) (f_objects s) (f_rings s) d (f_console s) (f_keys s) (f_calls s)).
Proof. intros E. unfold on_disk. by rewrite E. Qed.

Lemma get_file_run s f x : f_objects s !! f = Some x -> get_file f s = Ok (x, s).
Proof. intros E. unfold get_file. st_step. by rewrite E. Qed.

(** The part of [sys_read] and [sys_write] before the file is asked. *)
Lemma file_call_run s p b fd f x ok run buffer len l :
  runs s p b -> 0 <= fd -> fd_table b !! Z.to_nat fd = Some (Some f) -> f_objects s !! f = Some x -> ok x = true ->
  translated_byte_buffer (satp (address_space b)) buffer len (k_mm (fk s)) = Ok (l, k_mm (fk s)) ->
  file_call ok run fd buffer len s = run f l s.
Proof.
  intros Hr Hfd0 Hfd Hf Hok Hl. destruct (runs_start _ _ _ Hr) as [E1 E2]. unfold file_call. st_step_by E1. st_step_by E2.
  pose proof (lookup_lt_Some _ _ _ Hfd). rewrite (proj2 (Z.leb_gt _ _)) by lia.
  rewrite (proj2 (index_Ok (fd_table b) fd _) (conj Hfd0 Hfd)). st_step. st_step_by (get_file_run _ _ _ Hf). rewrite Hok. cbn [negb].
  st_step_by (on_k_same _ _ s (on_mm_same _ _ _ Hl)). done.
Qed.

(** A descriptor that is out of range, closed, or not open in this mode. *)
Lemma file_call_refused s p b fd ok run buffer len :
  runs s p b -> 0 <= fd ->
  (forall f, fd_table b !! Z.to_nat fd = Some (Some f) -> exists x, f_objects s !! f = Some x /\ ok x = false) ->
  file_call ok run fd buffer len s = Ok (Some (-1), s).
Proof.
  intros Hr Hfd0 Hno. destruct (runs_start _ _ _ Hr) as [E1 E2]. unfold file_call. st_step_by E1. st_step_by E2.
  destruct (Z.leb_spec (Z.of_nat (length (fd_table b))) fd); [done|].
  destruct (lookup_lt_is_Some_2 (fd_table b) (Z.to_nat fd)) as [o Ho]; [lia|].
  rewrite (proj2 (index_Ok (fd_table b) fd _) (conj Hfd0 Ho)). st_step. destruct o as [f|]; [|done].
  destruct (Hno f Ho) as (x & Hx & Hok). st_step_by (get_file_run _ _ _ Hx). by rewrite Hok.
Qed.
End runs.

(** ** Files *)

Definition with_memory {F} (k : kstate F) (m : pmem) : kstate F :=
  mkK (mkMM m (falloc (k_mm k))) (k_sched k) (KERNEL_SPACE k) (KERNEL_STACK_ALLOCATOR k) (PID_ALLOCATOR k) (PID2PCB k)
    (procs k) (tcbs k) (next_proc k) (next_task k) (held_procs k).

Section files.
Context {F : Type} `{FrameAllocator F} {D : Type} {BD : BlockDevice D} {HD : BlockDeviceLaws D}.
Context (efs : EasyFileSystem) (area : Z).
Implicit Types (s : fstate F D).
#[local] Abbreviation memory s := (mem (k_mm (fk s))).
#[local] Abbreviation root b := (PT.from_satp (satp (address_space b))).

(** Descriptor [fd] of the running process is the file object [f], opened on [o]. *)
Record opens s (b : ProcessControlBlock) (fd : Z) (f : nat) (o : OSInode) : Prop := {
  os_fd : 0 <= fd;
  os_table : fd_table b !! Z.to_nat fd = Some (Some f);
  os_object : f_objects s !! f = Some (FInode o);
  os_offset : 0 <= Files.offset o;
}.

Lemma user_range_buffer s b buffer len (bytes : list Z) :
  0 <= buffer -> 0 <= len -> buffer + len <= 2 ^ 38 ->
  user_byte (memory s) (root b) <$> seqZ buffer len = Some <$> bytes ->
  exists l, translated_byte_buffer (satp (address_space b)) buffer len (k_mm (fk s)) = Ok (l, k_mm (fk s)) /\
    phys (memory s) (root b) <$> seqZ buffer len = Some <$> buffer_ptrs l /\ Forall slice_ok l /\
    concat (slice_bytes (memory s) <$> l) = bytes /\ Z.of_nat (length bytes) = len.
Proof.
  intros Hb Hl He Hu.
  destruct (translated_byte_buffer_run (k_mm (fk s)) (satp (address_space b)) buffer len Hb Hl He) as (l & E & Hp & Hok).
  { intros va Hva. assert (Hin : (user_byte (memory s) (root b) <$> seqZ buffer len) !! Z.to_nat (va - buffer) = Some (user_byte (memory s) (root b) va)).
    { rewrite list_lookup_fmap, lookup_seqZ_lt by lia. by replace (buffer + Z.of_nat (Z.to_nat (va - buffer))) with va by lia. }
    rewrite Hu, list_lookup_fmap in Hin. unfold user_byte in Hin. destruct (phys (memory s) (root b) va); [by eexists|].
    destruct (bytes !! _); discriminate. }
  exists l. split_and!; [done|done|done| |].
  - apply (inj (fmap Some)). rewrite <- Hu, concat_slice_bytes. symmetry. by apply ptr_bytes_user.
  - apply (f_equal length) in Hu. rewrite !length_fmap, length_seqZ in Hu. lia.
Qed.

Lemma write_file_run s p b fd f o buffer len (bytes : list Z) L di :
  runs s p b -> opens s b fd f o -> writable o = true ->
  0 <= buffer -> 0 < len -> buffer + len <= 2 ^ 38 ->
  user_byte (memory s) (root b) <$> seqZ buffer len = Some <$> bytes -> bytes_ok bytes ->
  rep (f_disk s) L [] -> disk_ok L -> file_ok efs area L (inode o) di -> Files.offset o + len <= MAX_SIZE ->
  InodeGrowth.count (_data_blocks (Z.max (size di) (Files.offset o + len))) - InodeGrowth.count (data_blocks di) <=
    Z.of_nat (length (free_list L (data_bitmap efs) area)) ->
  exists d L' di', sys_write efs fd buffer len s =
      Ok (Some len, mkFS (fk s) (<[f := FInode (set_offset (Files.offset o + len) o)]> (f_objects s)) (f_rings s) d
            (f_console s) (f_keys s) (f_calls s)) /\
    rep d L' [] /\ disk_ok L' /\ written_file efs area (inode o) (Files.offset o) bytes L di L' di'.
Proof.
  intros Hr [Hfd0 Hfd Hobj Hoff] Hw Hb Hl He Hu Hby Hrep HL Hf Hmax Hfree.
  destruct (user_range_buffer s b buffer len bytes Hb ltac:(lia) He Hu) as (l & E & Hp & Hok & Hc & Hlen).
  assert (Hl0 : slice_bytes (memory s) <$> l <> []).
  { destruct l; [|done]. cbn in Hc. subst bytes. cbn in Hlen. lia. }
  pose proof (write_slices_spec efs area (slice_bytes (memory s) <$> l) o 0 L di Hf Hoff ltac:(lia) Hl0
    (slice_bytes_nonempty _ _ Hok)) as Hwp.
  rewrite Hc, Hlen in Hwp. assert (MAX_SIZE < 2 ^ 60) by done.
  specialize (Hwp ltac:(apply bytes_ok_concat; by rewrite Hc) ltac:(lia) ltac:(lia) ltac:(lia)).
  destruct (wp_crun _ _ _ _ _ (wp_keeps_disk_ok _ _ _ _ Hwp) HL Hrep) as ([n o'] & d & L' & Er & Hrep' & HL' & [= -> ->] & di' & Hwf).
  exists d, L', di'. split_and!; [|done|done|done]. unfold sys_write.
  rewrite (file_call_run s p b fd f (FInode o) file_writable (file_write efs) buffer len l Hr Hfd0 Hfd Hobj Hw E).
  unfold file_write. st_step_by (get_file_run _ _ _ Hobj). st_step. st_step_by (on_disk_run (OSInode_write efs o _) _ _ _ Er).
  st_step. done.
Qed.

Lemma read_file_run s p b fd f o buffer len bytes lo hi tables L di :
  runs s p b -> opens s b fd f o -> readable o = true ->
  window (root b) lo hi tables (memory s) -> lo <= buffer -> 0 <= len -> buffer + len <= hi ->
  user_byte (memory s) (root b) <$> seqZ buffer len = Some <$> bytes ->
  rep (f_disk s) L [] -> disk_ok L -> file_ok efs area L (inode o) di -> Files.offset o + len < 2 ^ 64 ->
  let n := Z.max 0 (Z.min len (size di - Files.offset o)) in
  exists d m', sys_read fd buffer len s =
      Ok (Some n, mkFS (with_memory (fk s) m') (<[f := FInode (set_offset (Files.offset o + n) o)]> (f_objects s)) (f_rings s) d
            (f_console s) (f_keys s) (f_calls s)) /\
    rep d L [] /\ writes (root b) lo hi tables (memory s) m' buffer (fbytes L di (Files.offset o) n ++ drop (Z.to_nat n) bytes).
Proof.
  intros Hr [Hfd0 Hfd Hobj Hoff] Hrd Hw Hlo Hl Hhi Hu Hrep HL Hf Hmax n. pose proof (w_range _ _ _ _ _ Hw) as Hrange.
  destruct (user_range_buffer s b buffer len bytes ltac:(lia) Hl ltac:(lia) Hu) as (l & E & Hp & Hok & Hc & Hlen).
  pose proof (read_slices_spec efs area L di (slice_bytes (memory s) <$> l) o 0 Hf Hoff ltac:(lia)
    (slice_bytes_nonempty _ _ Hok)) as Hwp.
  rewrite Hc, Hlen in Hwp. specialize (Hwp ltac:(lia) ltac:(lia)). cbv zeta in Hwp. fold n in Hwp.
  destruct (wp_crun _ _ _ _ _ Hwp HL Hrep) as ([[n' bufs] o'] & d & L' & Er & Hrep' & -> & Hcb & _ & -> & ->).
  set (bs := fbytes L di (Files.offset o) n ++ drop (Z.to_nat n) bytes) in *.
  assert (Hbs : Z.of_nat (length bs) = len).
  { unfold bs. rewrite length_app, length_drop, length_fbytes. lia. }
  exists d, (store_slices (memory s) l bufs). split_and!; [|done|].
  - unfold sys_read.
    rewrite (file_call_run s p b fd f (FInode o) file_readable file_read buffer len l Hr Hfd0 Hfd Hobj Hrd E).
    unfold file_read. st_step_by (get_file_run _ _ _ Hobj). st_step. st_step_by (on_disk_run (OSInode_read o _) _ _ _ Er). st_step. st_step.
    done.
  - unfold store_slices. rewrite Hcb. apply store_ptrs_writes; [done|done|lia|]. by rewrite Hbs.
Qed.
End files.

(** ** Descriptor tables *)

(** How many descriptors of a table are the file [f]. *)
Definition table_refs (f : nat) (T : list (option nat)) : nat := count_occ_nat f (omap id T).
Definition is_ref (f : nat) (o : option nat) : nat := if decide (o = Some f) then 1%nat else 0%nat.

Lemma count_occ_app x l1 l2 : count_occ_nat x (l1 ++ l2) = (count_occ_nat x l1 + count_occ_nat x l2)%nat.
Proof. unfold count_occ_nat. by rewrite filter_app, length_app. Qed.

Lemma table_refs_app f T1 T2 : table_refs f (T1 ++ T2) = (table_refs f T1 + table_refs f T2)%nat.
Proof. unfold table_refs. by rewrite omap_app, count_occ_app. Qed.

Lemma table_refs_cons f o T : table_refs f (o :: T) = (is_ref f o + table_refs f T)%nat.
Proof.
  change (o :: T) with ([o] ++ T). rewrite table_refs_app. f_equal. unfold table_refs, count_occ_nat, is_ref.
  destruct o as [g|]; [|done]. change (omap id [Some g]) with [g]. rewrite filter_cons, filter_nil. repeat case_decide; naive_solver.
Qed.

Lemma table_refs_insert f T n o o' :
  T !! n = Some o -> (table_refs f (<[n := o']> T) + is_ref f o = table_refs f T + is_ref f o')%nat.
Proof.
  intros Hn. pose proof (lookup_lt_Some _ _ _ Hn). rewrite (insert_take_drop _ _ _ ltac:(done)).
  rewrite <- (take_drop_middle T n o Hn) at 3. rewrite !table_refs_app, !table_refs_cons. lia.
Qed.

Lemma count_occ_perm x l1 l2 : l1 ≡ₚ l2 -> count_occ_nat x l1 = count_occ_nat x l2.
Proof. intros E. unfold count_occ_nat. by rewrite E. Qed.

Definition all_refs (f : nat) (m : gmap nat ProcessControlBlock) : nat :=
  count_occ_nat f (concat ((fun b => omap id (fd_table b)) <$> (map_to_list m).*2)).

Lemma all_refs_split f (m : gmap nat ProcessControlBlock) p b :
  m !! p = Some b -> all_refs f m = (table_refs f (fd_table b) + all_refs f (delete p m))%nat.
Proof.
  intros Hb. unfold all_refs, table_refs. rewrite <- count_occ_app. apply count_occ_perm.
  rewrite <- (insert_delete_id m p b Hb) at 1. rewrite map_to_list_insert by apply lookup_delete_eq. done.
Qed.

Lemma all_refs_update f (m : gmap nat ProcessControlBlock) p b T :
  m !! p = Some b ->
  (all_refs f (<[p := with_fds T b]> m) + table_refs f (fd_table b) = all_refs f m + table_refs f T)%nat.
Proof.
  intros Hb. rewrite (all_refs_split f m p b Hb), (all_refs_split f _ p (with_fds T b)) by apply lookup_insert_eq.
  rewrite delete_insert_eq. change (fd_table (with_fds T b)) with T. lia.
Qed.

Section tables.
Context {F : Type} `{FrameAllocator F} {D : Type} `{BlockDevice D}.
Implicit Types (s : fstate F D).

(** The state with another descriptor table for [p]. *)
Definition with_table s (p : nat) (b : ProcessControlBlock) (T : list (option nat)) : fstate F D :=
  let k := fk s in
  mkFS (mkK (k_mm k) (k_sched k) (KERNEL_SPACE k) (KERNEL_STACK_ALLOCATOR k) (PID_ALLOCATOR k) (PID2PCB k)
          (<[p := with_fds T b]> (procs k)) (tcbs k) (next_proc k) (next_task k) (held_procs k))
    (f_objects s) (f_rings s) (f_disk s) (f_console s) (f_keys s) (f_calls s).

Lemma file_refs_table s p b T f :
  procs (fk s) !! p = Some b ->
  (file_refs f (with_table s p b T) + table_refs f (fd_table b) = file_refs f s + table_refs f T)%nat.
Proof.
  intros Hb. unfold file_refs. cbn [fk procs with_table f_calls].
  pose proof (all_refs_update f (procs (fk s)) p b T Hb) as Hu. unfold all_refs in Hu. lia.
Qed.

Lemma upd_table_run s p b T : procs (fk s) !! p = Some b -> on_k (upd_proc p (with_fds T)) s = Ok (tt, with_table s p b T).
Proof. intros Hb. unfold on_k, upd_proc. erewrite st_bind_run; [|exact (get_proc_run_eq p s b Hb)]. done. Qed.

(** [n] is the lowest descriptor that is not in use. *)
Record lowest_free (T : list (option nat)) (n : nat) : Prop := {
  lf_free : T !! n = Some None \/ n = length T;
  lf_lower : forall j, (j < n)%nat -> exists f, T !! j = Some (Some f);
}.

Lemma lowest_free_exists T : exists n, lowest_free T n /\
  n = match find_index (fun o => bool_decide (o = None)) T with Some i => i | None => length T end.
Proof.
  destruct (find_index _ T) as [i|] eqn:E.
  - exists i. split; [|done]. apply find_index_Some in E as (o & Ho & Hn & Hlt). apply bool_decide_eq_true in Hn as ->.
    split; [by left|]. intros j Hj. pose proof (lookup_lt_Some _ _ _ Ho).
    destruct (lookup_lt_is_Some_2 T j) as [[f|] Hf]; [lia|by exists f|]. by specialize (Hlt j None Hj Hf).
  - exists (length T). split; [|done]. split; [by right|]. intros j Hj. apply find_index_None in E.
    destruct (lookup_lt_is_Some_2 T j Hj) as [[f|] Hf]; [by exists f|]. eapply Forall_lookup_1 in E; [|exact Hf]. done.
Qed.

(** The table with [f] at the lowest free descriptor. *)
Definition add_fd (T : list (option nat)) (n f : nat) : list (option nat) :=
  if decide (n = length T) then T ++ [Some f] else <[n := Some f]> T.

Lemma install_run s p b f :
  procs (fk s) !! p = Some b ->
  exists n, lowest_free (fd_table b) n /\ install p f s = Ok (Z.of_nat n, with_table s p b (add_fd (fd_table b) n f)).
Proof.
  intros Hb. destruct (lowest_free_exists (fd_table b)) as (n & Hn & En). exists n. split; [done|].
  unfold install. st_step_by (on_k_same (get_proc p) b s (get_proc_run_eq p s b Hb)).
  unfold alloc_fd, add_fd. destruct (find_index _ (fd_table b)) as [i|] eqn:E.
  - subst i. apply find_index_Some in E as (o & Ho & _). pose proof (lookup_lt_Some _ _ _ Ho).
    rewrite (proj2 (index_set_Ok (fd_table b) _ (Z.of_nat n) (Some f))) by (split; [lia|done]). st_step.
    rewrite Nat2Z.id. st_step_by (upd_table_run s p b (<[n:=Some f]> (fd_table b)) Hb). by rewrite decide_False by lia.
  - subst n. cbn [fd_table with_fds]. rewrite length_app. cbn [length].
    replace (Z.of_nat (length (fd_table b) + 1) - 1) with (Z.of_nat (length (fd_table b))) by lia.
    rewrite (proj2 (index_set_Ok (fd_table b ++ [None]) _ (Z.of_nat (length (fd_table b))) (Some f)))
      by (rewrite length_app; cbn; split; [lia|done]). st_step.
    rewrite Nat2Z.id. st_step_by (upd_table_run s p b (<[length (fd_table b):=Some f]> (fd_table b ++ [None])) Hb).
    rewrite decide_True by done. rewrite insert_app_r_alt by lia. by rewrite Nat.sub_diag.
Qed.
End tables.

(** * Claims *)

Lemma add_fd_refs T n f g :
  lowest_free T n -> table_refs g (add_fd T n f) = (table_refs g T + is_ref g (Some f))%nat.
Proof.
  intros [Hn _]. unfold add_fd. case_decide as E.
  - rewrite table_refs_app, table_refs_cons. change (table_refs g []) with 0%nat. lia.
  - destruct Hn as [Hn|]; [|done]. pose proof (table_refs_insert g T n None (Some f) Hn) as H.
    unfold is_ref at 1 in H. rewrite decide_False in H by done. lia.
Qed.

Section closed.
Context {F : Type} `{FrameAllocator F} {D : Type} `{BlockDevice D}.
Implicit Types (s : fstate F D).

Lemma closed_spec b fd : 0 <= fd -> closed b fd = false <-> exists f, fd_table b !! Z.to_nat fd = Some (Some f).
Proof.
  intros Hfd. unfold closed. rewrite orb_false_iff, Z.leb_gt, bool_decide_eq_false. split.
  - intros [Hlt Hne]. destruct (lookup_lt_is_Some_2 (fd_table b) (Z.to_nat fd)) as [[f|] Hf]; [lia|by exists f|done].
  - intros [f Hf]. pose proof (lookup_lt_Some _ _ _ Hf). split; [lia|]. by rewrite Hf.
Qed.

Lemma close_run s p b fd f :
  runs s p b -> 0 <= fd -> fd_table b !! Z.to_nat fd = Some (Some f) ->
  sys_close fd s = Ok (0, with_table s p b (<[Z.to_nat fd := None]> (fd_table b))).
Proof.
  intros Hr Hfd Hf. destruct (runs_start _ _ _ Hr) as [E1 E2]. unfold sys_close. st_step_by E1. st_step_by E2.
  rewrite (proj2 (closed_spec b fd Hfd)) by eauto. pose proof (lookup_lt_Some _ _ _ Hf).
  rewrite (proj2 (index_set_Ok (fd_table b) _ fd None)) by (split; [lia|done]). st_step.
  st_step_by (upd_table_run s p b (<[Z.to_nat fd := None]> (fd_table b)) (proj2 Hr)). done.
Qed.

Lemma dup_run s p b fd f :
  runs s p b -> 0 <= fd -> Z.of_nat (length (fd_table b)) < 2 ^ 63 -> fd_table b !! Z.to_nat fd = Some (Some f) ->
  exists n, lowest_free (fd_table b) n /\ sys_dup fd s = Ok (Z.of_nat n, with_table s p b (add_fd (fd_table b) n f)).
Proof.
  intros Hr Hfd Hlen Hf. destruct (runs_start _ _ _ Hr) as [E1 E2]. destruct (install_run s p b f (proj2 Hr)) as (n & Hn & Ei).
  exists n. split; [done|]. unfold sys_dup. st_step_by E1. st_step_by E2. rewrite (proj2 (closed_spec b fd Hfd)) by eauto.
  rewrite (proj2 (index_Ok (fd_table b) fd _) (conj Hfd Hf)). st_step. st_step. st_step_by Ei. rewrite as_isize_small; [done|].
  assert (n <= length (fd_table b))%nat; [|lia]. destruct (lf_free _ _ Hn) as [E%lookup_lt_Some| ->]; lia.
Qed.

Lemma refused_run efs s p b fd buffer len :
  runs s p b -> 0 <= fd -> closed b fd = true ->
  sys_dup fd s = Ok (-1, s) /\ sys_close fd s = Ok (-1, s) /\
  sys_read fd buffer len s = Ok (Some (-1), s) /\ sys_write efs fd buffer len s = Ok (Some (-1), s).
Proof.
  intros Hr Hfd Hc. destruct (runs_start _ _ _ Hr) as [E1 E2].
  assert (Hno : forall f, fd_table b !! Z.to_nat fd <> Some (Some f)).
  { intros f Hf. assert (closed b fd = false) by (apply closed_spec; eauto). congruence. }
  split_and!.
  - unfold sys_dup. st_step_by E1. st_step_by E2. by rewrite Hc.
  - unfold sys_close. st_step_by E1. st_step_by E2. by rewrite Hc.
  - eapply file_call_refused; try done. intros f Hf. by destruct (Hno f).
  - eapply file_call_refused; try done. intros f Hf. by destruct (Hno f).
Qed.
End closed.

Section claims.
Context {F : Type} `{FrameAllocator F} {D : Type} {BD : BlockDevice D} {HD : BlockDeviceLaws D}.
Implicit Types (s : fstate F D).

(** C6: What a process writes through one descriptor it reads through another: when both
    are open on the same file at the same offset, writing [len] bytes of user memory from
    [src] and reading [len] bytes to [dst] both return [len], and afterwards the user
    memory at [dst] holds what was at [src], byte by byte, while every other byte of the
    process and every file that shares no block with this one is unchanged.  This is the
    whole path: page tables, user buffers, descriptors, offsets, inode, bitmap, cache and
    device, with the file growing as needed. *)
Theorem write_read_through_descriptors efs area s p b wfd wf o1 rfd rf o2 src dst len bytes lo hi tables L di :
  runs s p b -> opens s b wfd wf o1 -> opens s b rfd rf o2 -> wf <> rf -> writable o1 = true -> readable o2 = true ->
  inode o1 = inode o2 -> Files.offset o1 = Files.offset o2 ->
  0 <= src -> 0 < len -> src + len <= 2 ^ 38 ->
  user_byte (mem (k_mm (fk s))) (PT.from_satp (satp (address_space b))) <$> seqZ src len = Some <$> bytes -> bytes_ok bytes ->
  window (PT.from_satp (satp (address_space b))) lo hi tables (mem (k_mm (fk s))) -> lo <= dst -> dst + len <= hi ->
  rep (f_disk s) L [] -> disk_ok L -> file_ok efs area L (inode o1) di -> Files.offset o1 + len <= MAX_SIZE ->
  InodeGrowth.count (_data_blocks (Z.max (size di) (Files.offset o1 + len))) - InodeGrowth.count (data_blocks di) <=
    Z.of_nat (length (free_list L (data_bitmap efs) area)) ->
  exists s' L' di', (x ← sys_write efs wfd src len; y ← sys_read rfd dst len; mret (x, y)) s = Ok ((Some len, Some len), s') /\
    user_byte (mem (k_mm (fk s'))) (PT.from_satp (satp (address_space b))) <$> seqZ dst len = Some <$> bytes /\
    (forall va, lo <= va < hi -> ~ dst <= va < dst + len ->
      user_byte (mem (k_mm (fk s'))) (PT.from_satp (satp (address_space b))) va =
      user_byte (mem (k_mm (fk s))) (PT.from_satp (satp (address_space b))) va) /\
    rep (f_disk s') L' [] /\ written_file efs area (inode o1) (Files.offset o1) bytes L di L' di'.
Proof.
  intros Hr Ho1 Ho2 Hne Hw Hrd Hin Hoff Hsrc Hlen Hsrc' Hu Hby Hwin Hlo Hhi Hrep HL Hf Hmax Hfree.
  set (rt := PT.from_satp (satp (address_space b))) in *.
  destruct (write_file_run efs area s p b wfd wf o1 src len bytes L di Hr Ho1 Hw Hsrc Hlen Hsrc' Hu Hby Hrep HL Hf Hmax Hfree)
    as (d & L' & di' & E1 & Hrep1 & HL1 & Hwf).
  set (s1 := mkFS _ _ _ _ _ _ _) in E1. pose proof (w_range _ _ _ _ _ Hwin) as Hrange. assert (MAX_SIZE < 2 ^ 60) by done.
  destruct (window_bytes _ _ _ _ _ dst len Hwin Hlo Hhi) as [bytes2 Hb2].
  assert (Ho2' : opens s1 b rfd rf o2).
  { destruct Ho2 as [? ? Ho ?]. split; try done. unfold s1. cbn. by rewrite list_lookup_insert_ne. }
  destruct (read_file_run efs area s1 p b rfd rf o2 dst len bytes2 lo hi tables L' di') as (d2 & m' & E2 & Hrep2 & Hwr);
    [done|done|done|exact Hwin|done|lia|done|exact Hb2|done|done|rewrite <- Hin; apply Hwf|lia|].
  pose proof (wf_size _ _ _ _ _ _ _ _ _ Hwf) as Hsz.
  assert (Hlb : Z.of_nat (length bytes) = len).
  { apply (f_equal length) in Hu. rewrite !length_fmap, length_seqZ in Hu. lia. }
  assert (Hn : Z.max 0 (Z.min len (size di' - Files.offset o2)) = len) by lia. rewrite Hn in *.
  assert (Hbs : fbytes L' di' (Files.offset o2) len ++ drop (Z.to_nat len) bytes2 = bytes).
  { rewrite <- Hoff, <- Hlb at 1. rewrite (written_fbytes _ _ _ _ _ _ _ _ _ Hwf), drop_ge, app_nil_r; [done|].
    apply (f_equal length) in Hb2. rewrite !length_fmap, length_seqZ in Hb2. lia. }
  rewrite Hbs in Hwr. eexists _, L', di'. split; [st_step_by E1; st_step_by E2; reflexivity|]. cbn [fk k_mm mem with_memory f_disk].
  split_and!; [|intros va Hva Hn'|done|done].
  - rewrite <- Hlb. apply (writes_user _ _ _ _ _ _ _ _ Hwr); lia.
  - rewrite (wr_byte _ _ _ _ _ _ _ _ Hwr) by done. by rewrite decide_False by lia.
Qed.
End claims.

(** C31: The calls on a descriptor.  When it is out of range or closed, all of them return -1
    and change nothing.  Otherwise [sys_dup] returns the lowest descriptor that is not in
    use and makes it refer to the same file, and [sys_close] frees the descriptor; no other
    descriptor of any process changes, and the number of references to the file, by which
    a pipe decides whether its write end is closed, goes up and down by one. *)
Theorem descriptor_calls {F} `{FrameAllocator F} {D} `{BlockDevice D} efs (s : fstate F D) p b fd :
  runs s p b -> 0 <= fd -> Z.of_nat (length (fd_table b)) < 2 ^ 63 ->
  match fd_table b !! Z.to_nat fd with
  | Some (Some f) =>
      (exists n s', sys_dup fd s = Ok (Z.of_nat n, s') /\ lowest_free (fd_table b) n /\
        s' = with_table s p b (add_fd (fd_table b) n f) /\
        file_refs f s' = S (file_refs f s) /\ forall g, g <> f -> file_refs g s' = file_refs g s) /\
      (exists s', sys_close fd s = Ok (0, s') /\ s' = with_table s p b (<[Z.to_nat fd := None]> (fd_table b)) /\
        S (file_refs f s') = file_refs f s /\ forall g, g <> f -> file_refs g s' = file_refs g s)
  | _ =>
      sys_dup fd s = Ok (-1, s) /\ sys_close fd s = Ok (-1, s) /\
      forall buffer len, sys_read fd buffer len s = Ok (Some (-1), s) /\ sys_write efs fd buffer len s = Ok (Some (-1), s)
  end.
Proof.
  intros Hr Hfd Hlen. destruct (runs_start _ _ _ Hr) as [E1 E2]. pose proof (proj2 Hr) as Hb.
  destruct (closed b fd) eqn:Hc; [|apply (proj1 (closed_spec b fd Hfd)) in Hc as [f Hf]].
  { assert (Hno : forall f, fd_table b !! Z.to_nat fd <> Some (Some f)).
    { intros f Hf. assert (closed b fd = false) by (apply closed_spec; eauto). congruence. }
    pose proof (fun buffer len => refused_run efs s p b fd buffer len Hr Hfd Hc) as Hrun.
    destruct (fd_table b !! Z.to_nat fd) as [[f|]|]; [by destruct (Hno f)| |]; (split_and!; [apply (Hrun 0 0)|apply (Hrun 0 0)|apply Hrun]). }
  rewrite Hf. split.
  - destruct (dup_run s p b fd f Hr Hfd Hlen Hf) as (n & Hn & Ed). exists n, (with_table s p b (add_fd (fd_table b) n f)).
    pose proof (fun g => file_refs_table s p b (add_fd (fd_table b) n f) g Hb) as H1.
    split_and!; [done|done|done| |intros g Hg; specialize (H1 g)|..]; [specialize (H1 f)|];
      rewrite (add_fd_refs _ _ _ _ Hn) in H1; unfold is_ref in H1.
    + rewrite decide_True in H1 by done. lia.
    + rewrite decide_False in H1 by congruence. lia.
  - eexists. split; [exact (close_run s p b fd f Hr Hfd Hf)|]. split; [done|].
    pose proof (fun g => file_refs_table s p b (<[Z.to_nat fd := None]> (fd_table b)) g Hb) as H1.
    pose proof (fun g => table_refs_insert g (fd_table b) (Z.to_nat fd) (Some f) None Hf) as H2. split.
    + specialize (H1 f). specialize (H2 f). unfold is_ref in H2. rewrite decide_True, decide_False in H2 by done. lia.
    + intros g Hg. specialize (H1 g). specialize (H2 g). unfold is_ref in H2. rewrite !decide_False in H2 by congruence. lia.
Qed.

(** A process with two descriptors on a file of 32 bytes, and a window of two pages in which
    the bytes 1, 2, 3, 4, 0 were written. *)
Section demo.
Context (m : mm Frame.StackFrameAllocator).

Definition demo_block : ProcessControlBlock :=
  mkPCB 0 false (mkSpace (PT.mkPageTable 16 []) []) None [] 0 [Some 0%nat; Some 1%nat] 0 SignalActionTable_default 0 (-1)
    false false [Some 0%nat] Recycle.new.
Definition demo_writer : OSInode := mkOSInode false true 0 dir_place.
Definition demo_reader : OSInode := mkOSInode true false 0 dir_place.
Definition demo_state : fstate Frame.StackFrameAllocator BlockFile.file :=
  mkFS (mkK m (Sched.mkKernel (Some 0%nat) [] ∅ ∅ [] [] [] [] ∅ ∅) (mkSpace (PT.mkPageTable 16 []) []) Recycle.new
          Recycle.new ∅ {[0%nat := demo_block]} {[0%nat := mkTCB 0 0 None 0 None None]} 1 1 [])
    [FInode demo_writer; FInode demo_reader] [] (BlockCacheManager_new dir_image) [] [] [].
End demo.

Lemma write_read_through_descriptors_witness :
  exists (m : mm Frame.StackFrameAllocator) s',
    (x ← sys_write tiny_fs 0 20480 5; y ← sys_read 1 24576 5; mret (x, y)) (demo_state m) = Ok ((Some 5, Some 5), s') /\
    user_byte (mem (k_mm (fk s'))) 16 <$> seqZ 24576 5 = Some <$> [1; 2; 3; 4; 0].
Proof.
  destruct demo_stack as (m0 & tables & Hw). rewrite <- (PT.from_satp_satp 16) in Hw by lia.
  destruct (push_string_run (PT.satp 16) 20480 28672 tables [1; 2; 3; 4] m0 20480 Hw ltac:(lia) ltac:(cbn; lia)) as (m & _ & _ & Hwr).
  pose proof (writes_user _ _ _ _ _ _ _ _ Hwr ltac:(lia) ltac:(cbn; lia)) as Hu. cbn [app length] in Hu.
  pose proof (wr_window _ _ _ _ _ _ _ _ Hwr) as Hw'.
  destruct (write_read_through_descriptors (HD := BlockFile_laws 4) tiny_fs 2 (demo_state m) 0 demo_block 0 0 demo_writer 1 1
    demo_reader 20480 24576 5 [1; 2; 3; 4; 0] 20480 28672 tables dir_blocks dir_inode)
    as (s' & L' & di' & E & Hb & _); try done; try lia.
  - by repeat constructor.
  - apply dir_image_rep.
  - apply dir_blocks_ok.
  - apply dir_file_ok.
  - exists m, s'. split; [exact E|]. etrans; [|exact Hb].
    change (PT.from_satp (satp (address_space demo_block))) with (PT.from_satp (PT.satp 16)). by rewrite PT.from_satp_satp by lia.
Defined.

Lemma descriptor_calls_witness :
  let s := demo_state Demo.memory in
  (exists s', sys_dup 1 s = Ok (2, s') /\ file_refs 1 s' = 2%nat) /\ sys_close 2 s = Ok (-1, s).
Proof.
  intros s. assert (Hr : runs s 0 demo_block) by done.
  destruct (descriptor_calls tiny_fs s 0 demo_block 1 Hr ltac:(lia) ltac:(done)) as [(n & s' & E & [Hn _] & _ & Hf & _) _].
  destruct (descriptor_calls tiny_fs s 0 demo_block 2 Hr ltac:(lia) ltac:(done)) as (_ & Hc & _). split; [|exact Hc].
  exists s'. split; [|exact Hf]. assert (n = 2%nat) as ->; [|exact E].
  destruct Hn as [Hn|Hn]; [|exact Hn]. destruct n as [|[|[]]]; discriminate.
Defined.
