(* ===== verification/Syscall.v ===== *)
(** The system call interface: the dispatcher of os/src/syscall/mod.rs, the calls of
    os/src/syscall/process.rs on signals over the whole kernel state, the system-call
    branch of [trap_handler] (os/src/trap/mod.rs), and the stubs of
    user/src/syscall.rs.

    A [request] is a call with the arguments the kernel function gets.  [decode] is the
    [match] of the dispatcher with its casts; [User.stub] is the number and the three
    registers a program loads.  [perform] runs a request on the state of [FileCalls]. *)

From S2P Require Import Prelude Address Alloc Memory PageTable BlockCache BlockLogic Bitmap Layout InodeGrowth Efs Vfs.
From S2P Require Import Directory Pipe UserBuffer Files Sched Signal AddressSpace Process ProcessTree Waiting FileCalls FileCallSpecs.

Inductive request :=
| RDup (fd : Z)
| ROpen (path flags : Z)
| RClose (fd : Z)
| RPipe (pipe : Z)
| RRead (fd buffer len : Z)
| RWrite (fd buffer len : Z)
| RExit (exit_code : Z)
| RSleep (sleep_ms : Z)
| RYield
| RKill (pid signum : Z)
| RSigaction (signum action old_action : Z)
| RSigprocmask (mask : Z)
| RSigreturn
| RGetTime
| RGetpid
| RFork
| RExec (path args : Z)
| RWaitpid (pid exit_code_ptr : Z)
| RThreadCreate (entry arg : Z)
| RGettid
| RWaittid (tid : Z)
| RMutexCreate (blocking : bool)
| RMutexLock (mutex_id : Z)
| RMutexUnlock (mutex_id : Z)
| RSemaphoreCreate (res_count : Z)
| RSemaphoreUp (sem_id : Z)
| RSemaphoreDown (sem_id : Z)
| RCondvarCreate
| RCondvarSignal (condvar_id : Z)
| RCondvarWait (condvar_id mutex_id : Z).

(** ** The kernel's side *)

Module Kernel.
Definition SYSCALL_DUP : Z := 24.
Definition SYSCALL_OPEN : Z := 56.
Definition SYSCALL_CLOSE : Z := 57.
Definition SYSCALL_PIPE : Z := 59.
Definition SYSCALL_READ : Z := 63.
Definition SYSCALL_WRITE : Z := 64.
Definition SYSCALL_EXIT : Z := 93.
Definition SYSCALL_SLEEP : Z := 101.
Definition SYSCALL_YIELD : Z := 124.
Definition SYSCALL_KILL : Z := 129.
Definition SYSCALL_SIGACTION : Z := 134.
Definition SYSCALL_SIGPROCMASK : Z := 135.
Definition SYSCALL_SIGRETURN : Z := 139.
Definition SYSCALL_GET_TIME : Z := 169.
Definition SYSCALL_GETPID : Z := 172.
Definition SYSCALL_FORK : Z := 220.
Definition SYSCALL_EXEC : Z := 221.
Definition SYSCALL_WAITPID : Z := 260.
Definition SYSCALL_THREAD_CREATE : Z := 1000.
Definition SYSCALL_GETTID : Z := 1001.
Definition SYSCALL_WAITTID : Z := 1002.
Definition SYSCALL_MUTEX_CREATE : Z := 1010.
Definition SYSCALL_MUTEX_LOCK : Z := 1011.
Definition SYSCALL_MUTEX_UNLOCK : Z := 1012.
Definition SYSCALL_SEMAPHORE_CREATE : Z := 1020.
Definition SYSCALL_SEMAPHORE_UP : Z := 1021.
Definition SYSCALL_SEMAPHORE_DOWN : Z := 1022.
Definition SYSCALL_CONDVAR_CREATE : Z := 1030.
Definition SYSCALL_CONDVAR_SIGNAL : Z := 1031.
Definition SYSCALL_CONDVAR_WAIT : Z := 1032.

(** [match syscall_id { ... }]: the arms with their casts. *)
Definition arms (a0 a1 a2 : Z) : list (Z * request) :=
  [ (SYSCALL_DUP, RDup a0);
    (SYSCALL_OPEN, ROpen a0 (as_u32 a1));
    (SYSCALL_CLOSE, RClose a0);
    (SYSCALL_PIPE, RPipe a0);
    (SYSCALL_READ, RRead a0 a1 a2);
    (SYSCALL_WRITE, RWrite a0 a1 a2);
    (SYSCALL_EXIT, RExit (as_i32 a0));
    (SYSCALL_SLEEP, RSleep a0);
    (SYSCALL_YIELD, RYield);
    (SYSCALL_KILL, RKill a0 (as_i32 a1));
    (SYSCALL_SIGACTION, RSigaction (as_i32 a0) a1 a2);
    (SYSCALL_SIGPROCMASK, RSigprocmask (as_u32 a0));
    (SYSCALL_SIGRETURN, RSigreturn);
    (SYSCALL_GET_TIME, RGetTime);
    (SYSCALL_GETPID, RGetpid);
    (SYSCALL_FORK, RFork);
    (SYSCALL_EXEC, RExec a0 a1);
    (SYSCALL_WAITPID, RWaitpid (as_isize a0) a1);
    (SYSCALL_THREAD_CREATE, RThreadCreate a0 a1);
    (SYSCALL_GETTID, RGettid);
    (SYSCALL_WAITTID, RWaittid a0);
    (SYSCALL_MUTEX_CREATE, RMutexCreate (a0 =? 1));
    (SYSCALL_MUTEX_LOCK, RMutexLock a0);
    (SYSCALL_MUTEX_UNLOCK, RMutexUnlock a0);
    (SYSCALL_SEMAPHORE_CREATE, RSemaphoreCreate a0);
    (SYSCALL_SEMAPHORE_UP, RSemaphoreUp a0);
    (SYSCALL_SEMAPHORE_DOWN, RSemaphoreDown a0);
    (SYSCALL_CONDVAR_CREATE, RCondvarCreate);
    (SYSCALL_CONDVAR_SIGNAL, RCondvarSignal a0);
    (SYSCALL_CONDVAR_WAIT, RCondvarWait a0 a1) ].

Fixpoint select (id : Z) (l : list (Z * request)) : option request :=
  match l with
  | [] => None
  | (n, r) :: l' => if id =? n then Some r else select id l'
  end.

(** [None] is the panic for an unknown number. *)
Definition decode (syscall_id : Z) (args : Z * Z * Z) : option request :=
  let '(a0, a1, a2) := args in select syscall_id (arms a0 a1 a2).
End Kernel.

(** ** Running a request *)

(** The signal fields of a control block, with a trap context. *)
Definition signal_view (b : ProcessControlBlock) (cx : TrapContext) (backup : option TrapContext) : Signal.state :=
  Signal.mkState (p_signals b) (p_signal_actions b) (p_signal_mask b) (p_handling_signal b) (p_killed b) (p_frozen b) cx backup.
Definition with_signals (s : Signal.state) (b : ProcessControlBlock) : ProcessControlBlock :=
  mkPCB (pid b) (is_zombie b) (address_space b) (parent b) (children b) (exit_code b) (fd_table b) (Signal.signals s)
    (Signal.signal_actions s) (Signal.signal_mask s) (Signal.handling_signal s) (Signal.killed s) (Signal.frozen s)
    (tasks b) (tid_allocator b).

(** [trap_cx_ppn.get_mut::<TrapContext>()] *)
Definition read_trap_cx (m : pmem) (ppn : Z) : TrapContext :=
  Signal.mkTrapContext (read_word m ppn <$> seqZ 0 32) (read_word m ppn 32) (read_word m ppn 33) (read_word m ppn 34)
    (read_word m ppn 35) (read_word m ppn 36).

Section signals.
Context {F : Type} `{FrameAllocator F}.

(** The current process with its thread. *)
Definition current : ST (kstate F) (nat * ProcessControlBlock * nat * TaskControlBlock) :=
  t ← on_sched current_task;
  tb ← get_tcb t;
  p ← current_proc;
  b ← get_proc p;
  mret (p, b, t, tb).

Definition trap_cx_of (tb : TaskControlBlock) : ST (kstate F) TrapContext :=
  k ← get; mret (read_trap_cx (mem (k_mm k)) (t_trap_cx_ppn tb)).

Definition k_kill (pid signum : Z) : ST (kstate F) Z :=
  o ← pid2process pid;
  match o with
  | Some p =>
      b ← get_proc p;
      cx ← lift (Ok (Signal.app_initial_context 0 0 0 0 0 0));
      match Signal.sys_kill (Some (signal_view b cx None)) signum with
      | (r, Some s) => upd_proc p (with_signals s);; mret r
      | (r, None) => mret r
      end
  | None => mret (Signal.sys_kill None signum).1
  end.

(** [#[repr(C, align(16))]]: the handler at 0, the mask at 8. *)
Definition k_sigaction (signum action old_action : Z) : ST (kstate F) Z :=
  '(p, b, t, tb) ← current;
  cx ← trap_cx_of tb;
  let view := signal_view b cx (t_trap_cx_backup tb) in
  '(r, old, _) ← lift (Signal.sys_sigaction signum action old_action Signal.SignalAction_default view);
  match old with
  | None => mret r
  | Some a =>
      pa ← on_mm (translated_refmut (satp (address_space b)) old_action);
      on_mm (store_le 8 pa (Signal.handler a));;
      on_mm (store_le 4 (pa + 8) (Signal.mask a));;
      pa' ← on_mm (translated_ref (satp (address_space b)) action);
      k ← get;
      let new := Signal.mkAction (load_le 8 pa' (mem (k_mm k))) (load_le 4 (pa' + 8) (mem (k_mm k))) in
      '(r, _, s) ← lift (Signal.sys_sigaction signum action old_action new view);
      upd_proc p (with_signals s);;
      mret r
  end.

Definition k_sigprocmask (m : Z) : ST (kstate F) Z :=
  '(p, b, t, tb) ← current;
  cx ← trap_cx_of tb;
  let '(r, s) := Signal.sys_sigprocmask m (signal_view b cx (t_trap_cx_backup tb)) in
  upd_proc p (with_signals s);;
  mret r.

Definition k_sigreturn : ST (kstate F) Z :=
  '(p, b, t, tb) ← current;
  cx ← trap_cx_of tb;
  '(r, s) ← lift (Signal.sys_sigreturn (signal_view b cx (t_trap_cx_backup tb)));
  upd_proc p (with_signals s);;
  on_mm (write_trap_cx (t_trap_cx_ppn tb) (Signal.trap_cx s));;
  mret r.
End signals.

Section perform.
Context {F : Type} `{FrameAllocator F} {D : Type} `{BlockDevice D}.
Context (efs : EasyFileSystem) (ROOT_INODE : Inode) (strampoline trap_handler user_sstatus : Z).
Context (parse : list Z -> option ElfFile) (fuel : nat).

Definition returning (m : ST (kstate F) Z) : ST (fstate F D) (option Z) := r ← on_k m; mret (Some r).
Definition returning_file (m : ST (fstate F D) Z) : ST (fstate F D) (option Z) := r ← m; mret (Some r).

(** [None] when the task has given the processor up inside the call, or has exited.
    [now] is what the time register holds. *)
Definition perform (now : Z) (r : request) : ST (fstate F D) (option Z) :=
  match r with
  | RDup fd => returning_file (sys_dup fd)
  | ROpen path flags => returning_file (sys_open efs ROOT_INODE fuel path flags)
  | RClose fd => returning_file (sys_close fd)
  | RPipe pipe => returning_file (sys_pipe pipe)
  | RRead fd buffer len => sys_read fd buffer len
  | RWrite fd buffer len => sys_write efs fd buffer len
  | RExit exit_code => on_k (exit_current_and_run_next exit_code);; mret None
  | RSleep sleep_ms => on_k (on_sched (Sched.sys_sleep now sleep_ms))
  | RYield => on_k (on_sched Sched.sys_yield)
  | RKill pid signum => returning (k_kill pid signum)
  | RSigaction signum action old_action => returning (k_sigaction signum action old_action)
  | RSigprocmask mask => returning (k_sigprocmask mask)
  | RSigreturn => returning k_sigreturn
  | RGetTime => mret (Some (as_isize (get_time_ms now)))
  | RGetpid => returning sys_getpid
  | RFork => returning (sys_fork strampoline)
  | RExec path args => returning_file (sys_exec efs ROOT_INODE strampoline trap_handler user_sstatus parse fuel path args)
  | RWaitpid pid exit_code_ptr => returning (sys_waitpid pid exit_code_ptr)
  | RThreadCreate entry arg => returning (sys_thread_create trap_handler user_sstatus entry arg)
  | RGettid => returning sys_gettid
  | RWaittid tid => returning (sys_waittid tid)
  | RMutexCreate blocking => on_k (on_sched (Sched.sys_mutex_create blocking))
  | RMutexLock mutex_id => on_k (on_sched (Sched.sys_mutex_lock mutex_id))
  | RMutexUnlock mutex_id => on_k (on_sched (Sched.sys_mutex_unlock mutex_id))
  | RSemaphoreCreate res_count => on_k (on_sched (Sched.sys_semaphore_create res_count))
  | RSemaphoreUp sem_id => on_k (on_sched (Sched.sys_semaphore_up sem_id))
  | RSemaphoreDown sem_id => on_k (k_semaphore_down sem_id)
  | RCondvarCreate => on_k (on_sched Sched.sys_condvar_create)
  | RCondvarSignal condvar_id => on_k (on_sched (Sched.sys_condvar_signal condvar_id))
  | RCondvarWait condvar_id mutex_id => on_k (k_condvar_wait condvar_id mutex_id)
  end.

(** [syscall] of the kernel. *)
Definition syscall (now id : Z) (args : Z * Z * Z) : ST (fstate F D) (option Z) :=
  match Kernel.decode id args with
  | Some r => perform now r
  | None => panic PanicCall
  end.

Definition SEPC : Z := 33.

(** [current_task_trap_cx().gprs[10] = result;] *)
Definition finish_call (result : Z) : ST (fstate F D) unit :=
  '(_, _, _, tb) ← on_k current;
  on_k (on_mm (store_word (t_trap_cx_ppn tb) A0 (wrap 64 result))).

(** The [UserEnvCall] branch of [trap_handler]; the trap context may be another one after
    [sys_exec].  When the task gives the processor up inside the call, the last line of the
    branch is left for the dispatch in which the call returns: [trap_dispatch] below for
    the calls that wait on a file.  The calls of [Sched] that wait return 0; the store of
    that 0 is not part of their dispatch. *)
Definition trap_user_env_call (now : Z) : ST (fstate F D) unit :=
  '(_, _, _, tb) ← on_k current;
  cx ← on_k (trap_cx_of tb);
  on_k (on_mm (store_word (t_trap_cx_ppn tb) SEPC (uadd (Signal.sepc cx) 4)));;
  result ← syscall now (Signal.gpr 17 cx) (Signal.gpr 10 cx, Signal.gpr 11 cx, Signal.gpr 12 cx);
  match result with
  | Some v => finish_call v
  | None => mret tt
  end.

Definition trap_dispatch : ST (fstate F D) unit :=
  o ← f_dispatch;
  match o with
  | Some (_, Some v) => finish_call v
  | _ => mret tt
  end.
End perform.

(** ** The program's side *)

Module User.
Definition SYSCALL_DUP : Z := 24.
Definition SYSCALL_OPEN : Z := 56.
Definition SYSCALL_CLOSE : Z := 57.
Definition SYSCALL_PIPE : Z := 59.
Definition SYSCALL_READ : Z := 63.
Definition SYSCALL_WRITE : Z := 64.
Definition SYSCALL_EXIT : Z := 93.
Definition SYSCALL_SLEEP : Z := 101.
Definition SYSCALL_YIELD : Z := 124.
Definition SYSCALL_KILL : Z := 129.
Definition SYSCALL_SIGACTION : Z := 134.
Definition SYSCALL_SIGPROCMASK : Z := 135.
Definition SYSCALL_SIGRETURN : Z := 139.
Definition SYSCALL_GET_TIME : Z := 169.
Definition SYSCALL_GETPID : Z := 172.
Definition SYSCALL_FORK : Z := 220.
Definition SYSCALL_EXEC : Z := 221.
Definition SYSCALL_WAITPID : Z := 260.
Definition SYSCALL_THREAD_CREATE : Z := 1000.
Definition SYSCALL_GETTID : Z := 1001.
Definition SYSCALL_WAITTID : Z := 1002.
Definition SYSCALL_MUTEX_CREATE : Z := 1010.
Definition SYSCALL_MUTEX_LOCK : Z := 1011.
Definition SYSCALL_MUTEX_UNLOCK : Z := 1012.
Definition SYSCALL_SEMAPHORE_CREATE : Z := 1020.
Definition SYSCALL_SEMAPHORE_UP : Z := 1021.
Definition SYSCALL_SEMAPHORE_DOWN : Z := 1022.
Definition SYSCALL_CONDVAR_CREATE : Z := 1030.
Definition SYSCALL_CONDVAR_SIGNAL : Z := 1031.
Definition SYSCALL_CONDVAR_WAIT : Z := 1032.

(** The number in [a7] and the registers [a0], [a1], [a2]. *)
Definition syscall (id : Z) (a0 a1 a2 : Z) : Z * (Z * Z * Z) := (id, (a0, a1, a2)).

Definition sys_dup fd := syscall SYSCALL_DUP fd 0 0.
Definition sys_open path flags := syscall SYSCALL_OPEN path flags 0.
Definition sys_close fd := syscall SYSCALL_CLOSE fd 0 0.
Definition sys_pipe pipe := syscall SYSCALL_PIPE pipe 0 0.
Definition sys_read fd buffer len := syscall SYSCALL_READ fd buffer len.
Definition sys_write fd buffer len := syscall SYSCALL_WRITE fd buffer len.
Definition sys_exit exit_code := syscall SYSCALL_EXIT (wrap 64 exit_code) 0 0.
Definition sys_sleep sleep_ms := syscall SYSCALL_SLEEP sleep_ms 0 0.
Definition sys_yield := syscall SYSCALL_YIELD 0 0 0.
Definition sys_kill pid signum := syscall SYSCALL_KILL pid (wrap 64 signum) 0.
Definition sys_sigaction signum action old_action := syscall SYSCALL_SIGACTION (wrap 64 signum) action old_action.
Definition sys_sigprocmask mask := syscall SYSCALL_SIGPROCMASK mask 0 0.
Definition sys_sigreturn := syscall SYSCALL_SIGRETURN 0 0 0.
Definition sys_get_time := syscall SYSCALL_GET_TIME 0 0 0.
Definition sys_getpid := syscall SYSCALL_GETPID 0 0 0.
Definition sys_fork := syscall SYSCALL_FORK 0 0 0.
Definition sys_exec path args := syscall SYSCALL_EXEC path args 0.
Definition sys_waitpid pid exit_code := syscall SYSCALL_WAITPID (wrap 64 pid) exit_code 0.
Definition sys_thread_create entry arg := syscall SYSCALL_THREAD_CREATE entry arg 0.
Definition sys_gettid := syscall SYSCALL_GETTID 0 0 0.
Definition sys_waittid tid := syscall SYSCALL_WAITTID tid 0 0.
Definition sys_mutex_create (blocking : bool) := syscall SYSCALL_MUTEX_CREATE (if blocking then 1 else 0) 0 0.
Definition sys_mutex_lock mutex_id := syscall SYSCALL_MUTEX_LOCK mutex_id 0 0.
Definition sys_mutex_unlock mutex_id := syscall SYSCALL_MUTEX_UNLOCK mutex_id 0 0.
Definition sys_semaphore_create res_count := syscall SYSCALL_SEMAPHORE_CREATE res_count 0 0.
Definition sys_semaphore_up sem_id := syscall SYSCALL_SEMAPHORE_UP sem_id 0 0.
Definition sys_semaphore_down sem_id := syscall SYSCALL_SEMAPHORE_DOWN sem_id 0 0.
Definition sys_condvar_create := syscall SYSCALL_CONDVAR_CREATE 0 0 0.
Definition sys_condvar_signal condvar_id := syscall SYSCALL_CONDVAR_SIGNAL condvar_id 0 0.
Definition sys_condvar_wait condvar_id mutex_id := syscall SYSCALL_CONDVAR_WAIT condvar_id mutex_id 0.

(** The stub a program calls for a request. *)
Definition stub (r : request) : Z * (Z * Z * Z) :=
  match r with
  | RDup fd => sys_dup fd
  | ROpen path flags => sys_open path flags
  | RClose fd => sys_close fd
  | RPipe pipe => sys_pipe pipe
  | RRead fd buffer len => sys_read fd buffer len
  | RWrite fd buffer len => sys_write fd buffer len
  | RExit exit_code => sys_exit exit_code
  | RSleep sleep_ms => sys_sleep sleep_ms
  | RYield => sys_yield
  | RKill pid signum => sys_kill pid signum
  | RSigaction signum action old_action => sys_sigaction signum action old_action
  | RSigprocmask mask => sys_sigprocmask mask
  | RSigreturn => sys_sigreturn
  | RGetTime => sys_get_time
  | RGetpid => sys_getpid
  | RFork => sys_fork
  | RExec path args => sys_exec path args
  | RWaitpid pid exit_code => sys_waitpid pid exit_code
  | RThreadCreate entry arg => sys_thread_create entry arg
  | RGettid => sys_gettid
  | RWaittid tid => sys_waittid tid
  | RMutexCreate blocking => sys_mutex_create blocking
  | RMutexLock mutex_id => sys_mutex_lock mutex_id
  | RMutexUnlock mutex_id => sys_mutex_unlock mutex_id
  | RSemaphoreCreate res_count => sys_semaphore_create res_count
  | RSemaphoreUp sem_id => sys_semaphore_up sem_id
  | RSemaphoreDown sem_id => sys_semaphore_down sem_id
  | RCondvarCreate => sys_condvar_create
  | RCondvarSignal condvar_id => sys_condvar_signal condvar_id
  | RCondvarWait condvar_id mutex_id => sys_condvar_wait condvar_id mutex_id
  end.
End User.

(** The arguments that are not machine words have the range of their type. *)
Definition well_typed (r : request) : Prop :=
  match r with
  | ROpen _ flags => is_u32 flags
  | RExit code => - 2 ^ 31 <= code < 2 ^ 31
  | RKill _ signum => - 2 ^ 31 <= signum < 2 ^ 31
  | RSigaction signum _ _ => - 2 ^ 31 <= signum < 2 ^ 31
  | RSigprocmask mask => is_u32 mask
  | RWaitpid pid _ => - 2 ^ 63 <= pid < 2 ^ 63
  | _ => True
  end.

Lemma as_i32_wrap z : - 2 ^ 31 <= z < 2 ^ 31 -> as_i32 (wrap 64 z) = z.
Proof.
  intros Hz. unfold as_i32, as_signed, wrap. change (32 - 1) with 31.
  assert ((z mod 2 ^ 64) mod 2 ^ 32 = z mod 2 ^ 32) as -> by (apply Z.mod_mod_divide; by exists (2 ^ 32)).
  destruct (Z.ltb_spec (z mod 2 ^ 32) (2 ^ 31)); Z.to_euclidean_division_equations; lia.
Qed.

Lemma as_isize_wrap z : - 2 ^ 63 <= z < 2 ^ 63 -> as_isize (wrap 64 z) = z.
Proof.
  intros Hz. unfold as_isize, as_signed, wrap. change (64 - 1) with 63. rewrite Z.mod_mod by lia.
  destruct (Z.ltb_spec (z mod 2 ^ 64) (2 ^ 63)); Z.to_euclidean_division_equations; lia.
Qed.

Lemma select_In id l r : Kernel.select id l = Some r -> (id, r) ∈ l.
Proof.
  induction l as [|[n r'] l IH]; cbn; [done|]. destruct (Z.eqb_spec id n) as [->|]; [intros [= ->]; by left|].
  intros E. right. by apply IH.
Qed.

(** The number of an arm is the number of the stub. *)
Lemma decode_number id args r : Kernel.decode id args = Some r -> (User.stub r).1 = id.
Proof.
  destruct args as [[a0 a1] a2]. intros Hin%select_In.
  assert (Hall : Forall (fun x => (User.stub x.2).1 = x.1) (Kernel.arms a0 a1 a2)) by (by repeat constructor).
  rewrite Forall_forall in Hall. exact (Hall _ Hin).
Qed.

Lemma decode_stub r : well_typed r -> Kernel.decode (User.stub r).1 (User.stub r).2 = Some r.
Proof.
  intros Hr. destruct r; cbn in Hr; cbn -[as_u32 as_i32 as_isize wrap]; try reflexivity.
  all: rewrite ?as_i32_wrap, ?as_isize_wrap by done; unfold as_u32; rewrite ?wrap_small by (unfold is_u32 in *; lia); try reflexivity.
  by destruct blocking.
Qed.

(** C23: The two sides of the system call interface agree: the kernel decodes what the stub
    of a call puts in the registers to the same call with the same arguments, signed and
    narrow ones included, for all 30 calls; and any number that is not one of them is
    refused. *)
Theorem abi_roundtrip r :
  well_typed r -> Kernel.decode (User.stub r).1 (User.stub r).2 = Some r /\
  forall id args, (forall r', (User.stub r').1 <> id) -> Kernel.decode id args = None.
Proof.
  intros Hr. split; [by apply decode_stub|].
  intros id [[a0 a1] a2] Hno. destruct (Kernel.decode id (a0, a1, a2)) as [r'|] eqn:E; [|done].
  destruct (Hno r'). by eapply decode_number.
Qed.

Lemma abi_roundtrip_witness :
  Kernel.decode 129 (User.stub (RKill 3 (-1))).2 = Some (RKill 3 (-1)) /\ Kernel.decode 7 (0, 0, 0) = None.
Proof.
  destruct (abi_roundtrip (RKill 3 (-1))) as [H1 H2]; [cbn; lia|]. split; [exact H1|]. apply H2. intros r'. by destruct r'.
Defined.

(** ** A call, from the registers to the result *)

Section trap.
Context {F : Type} `{FrameAllocator F} {D : Type} `{BlockDevice D}.
Context (efs : EasyFileSystem) (ROOT_INODE : Inode) (strampoline trap_handler user_sstatus : Z).
Context (parse : list Z -> option ElfFile) (fuel : nat).
Implicit Types (s : fstate F D) (cx : TrapContext).

(** The registers [ecall] leaves are those a stub loaded. *)
Definition loaded (r : request) cx : Prop :=
  Signal.gpr 17 cx = (User.stub r).1 /\ (Signal.gpr 10 cx, Signal.gpr 11 cx, Signal.gpr 12 cx) = (User.stub r).2.

(** The state with another word in physical memory. *)
Definition with_word s (ppn i w : Z) : fstate F D :=
  let k := fk s in
  mkFS (mkK (mkMM (write_word (mem (k_mm k)) ppn i w) (falloc (k_mm k))) (k_sched k) (KERNEL_SPACE k)
          (KERNEL_STACK_ALLOCATOR k) (PID_ALLOCATOR k) (PID2PCB k) (procs k) (tcbs k) (next_proc k) (next_task k) (held_procs k))
    (f_objects s) (f_rings s) (f_disk s) (f_console s) (f_keys s) (f_calls s).

Lemma store_word_run s ppn i w : on_k (on_mm (store_word ppn i w)) s = Ok (tt, with_word s ppn i w).
Proof. done. Qed.

Lemma gpr_read m ppn i : 0 <= i < 32 -> Signal.gpr i (read_trap_cx m ppn) = read_word m ppn i.
Proof.
  intros Hi. unfold Signal.gpr, read_trap_cx. cbn [Signal.gprs]. apply list_lookup_total_correct.
  rewrite list_lookup_fmap, lookup_seqZ_lt by lia. by replace (0 + Z.of_nat (Z.to_nat i)) with i by lia.
Qed.

(** The branch of the handler, when the call returns. *)
Lemma env_call_run now s r p b t tb v s2 p' b' t' tb' :
  on_k current s = Ok ((p, b, t, tb), s) -> well_typed r ->
  let cx := read_trap_cx (mem (k_mm (fk s))) (t_trap_cx_ppn tb) in
  loaded r cx ->
  perform efs ROOT_INODE strampoline trap_handler user_sstatus parse fuel now r
    (with_word s (t_trap_cx_ppn tb) SEPC (uadd (Signal.sepc cx) 4)) = Ok (Some v, s2) ->
  on_k current s2 = Ok ((p', b', t', tb'), s2) ->
  trap_user_env_call efs ROOT_INODE strampoline trap_handler user_sstatus parse fuel now s =
    Ok (tt, with_word s2 (t_trap_cx_ppn tb') A0 (wrap 64 v)).
Proof.
  intros Hc Hr cx [L1 L2] Hp Hc2. unfold trap_user_env_call. st_step_by Hc. st_step. fold cx. st_step. unfold syscall. rewrite L1, L2.
  rewrite (decode_stub r Hr). st_step_by Hp. unfold finish_call. st_step_by Hc2. reflexivity.
Qed.

(** A system call from the program to its result: when the registers of the current thread
    are what the stub of a request loads, the trap steps over the [ecall], performs exactly
    that request, and puts what it returns in [a0] of the trap context the thread has then;
    every other register keeps the value the call left it with. *)
Theorem trap_performs_the_stub now s r p b t tb v s2 p' b' t' tb' :
  on_k current s = Ok ((p, b, t, tb), s) -> well_typed r ->
  let cx := read_trap_cx (mem (k_mm (fk s))) (t_trap_cx_ppn tb) in
  loaded r cx ->
  let s1 := with_word s (t_trap_cx_ppn tb) SEPC (uadd (Signal.sepc cx) 4) in
  perform efs ROOT_INODE strampoline trap_handler user_sstatus parse fuel now r s1 = Ok (Some v, s2) ->
  on_k current s2 = Ok ((p', b', t', tb'), s2) ->
  exists s3, trap_user_env_call efs ROOT_INODE strampoline trap_handler user_sstatus parse fuel now s = Ok (tt, s3) /\
    let cx1 := read_trap_cx (mem (k_mm (fk s1))) (t_trap_cx_ppn tb) in
    let cx2 := read_trap_cx (mem (k_mm (fk s2))) (t_trap_cx_ppn tb') in
    let cx3 := read_trap_cx (mem (k_mm (fk s3))) (t_trap_cx_ppn tb') in
    Signal.sepc cx1 = uadd (Signal.sepc cx) 4 /\ Signal.gprs cx1 = Signal.gprs cx /\
    Signal.gpr 10 cx3 = wrap 64 v /\ Signal.sepc cx3 = Signal.sepc cx2 /\
    forall i, 0 <= i < 32 -> i <> 10 -> Signal.gpr i cx3 = Signal.gpr i cx2.
Proof.
  intros Hc Hr cx Hl s1 Hp Hc2. exists (with_word s2 (t_trap_cx_ppn tb') A0 (wrap 64 v)). split.
  - by eapply env_call_run.
  - cbv zeta. split_and!.
    + unfold s1. cbn [with_word fk k_mm mem read_trap_cx Signal.sepc]. apply read_word_write_eq. unfold uadd, wrap.
      apply Z.mod_pos_bound. lia.
    + cbn [read_trap_cx Signal.gprs]. apply list_fmap_ext. intros k i Hk. apply lookup_seqZ in Hk as [-> Hk]. unfold s1.
      cbn [with_word fk k_mm mem]. apply read_word_write_ne. right. unfold SEPC. lia.
    + rewrite gpr_read by lia. cbn [with_word fk k_mm mem]. unfold A0. apply read_word_write_eq. unfold wrap.
      apply Z.mod_pos_bound. lia.
    + cbn [read_trap_cx Signal.sepc with_word fk k_mm mem]. apply read_word_write_ne. right. unfold A0. lia.
    + intros i Hi Hne. rewrite !gpr_read by lia. cbn [with_word fk k_mm mem]. apply read_word_write_ne. right. unfold A0. lia.
Qed.
End trap.

Section getpid.
Context {F : Type} `{FrameAllocator F} {D : Type} `{BlockDevice D}.
Implicit Types (s : fstate F D).

Lemma caller_run s t tb b :
  Sched.current (k_sched (fk s)) = Some t -> tcbs (fk s) !! t = Some tb -> procs (fk s) !! t_process tb = Some b ->
  on_k current s = Ok ((t_process tb, b, t, tb), s) /\ on_k sys_getpid s = Ok (as_isize (pid b), s).
Proof.
  intros H1 H2 H3. pose proof (current_task_run t (fk s) H1) as E1. pose proof (get_tcb_run t (fk s) tb H2) as E2.
  pose proof (get_proc_run _ (fk s) b H3) as E3.
  assert (E4 : current_proc (fk s) = Ok (t_process tb, fk s)).
  { unfold current_proc. st_step_by E1. st_step_by E2. st_step_by E3. done. }
  split; apply on_k_same.
  - unfold current. st_step_by E1. st_step_by E2. st_step_by E4. st_step_by E3. done.
  - unfold sys_getpid. st_step_by E4. st_step_by E3. done.
Qed.
End getpid.

(** The thread of process 7, whose trap context is in frame 5, has loaded the registers of
    the [getpid] stub; the [ecall] is at address 4096. *)
Definition demo_caller : ProcessControlBlock :=
  mkPCB 7 false (mkSpace (PT.mkPageTable 16 []) []) None [] 0 [] 0 SignalActionTable_default 0 (-1) false false [Some 0%nat] Recycle.new.
Definition demo_thread : TaskControlBlock := mkTCB 0 0 None 5 None None.
Definition demo_call : fstate Frame.StackFrameAllocator BlockFile.file :=
  mkFS (mkK (mkMM (write_word (write_word ∅ 5 17 172) 5 SEPC 4096) (Frame.init 16 400 Frame.new))
          (Sched.mkKernel (Some 0%nat) [] ∅ ∅ [] [] [] [] ∅ ∅) (mkSpace (PT.mkPageTable 16 []) []) Recycle.new
          Recycle.new ∅ {[0%nat := demo_caller]} {[0%nat := demo_thread]} 1 1 [])
    [] [] (BlockCacheManager_new dir_image) [] [] [].

Lemma demo_call_loaded : loaded RGetpid (read_trap_cx (mem (k_mm (fk demo_call))) 5).
Proof. split; vm_compute; reflexivity. Qed.

Lemma trap_performs_the_stub_witness :
  exists s3,
    trap_user_env_call small_fs dir_place Demo.strampoline Demo.trap_handler Demo.user_sstatus (fun _ => Demo.elf) 0 0 demo_call = Ok (tt, s3) /\
    Signal.gpr 10 (read_trap_cx (mem (k_mm (fk s3))) 5) = 7.
Proof.
  destruct (caller_run demo_call 0 demo_thread demo_caller eq_refl eq_refl eq_refl) as [Hc _].
  set (s1 := with_word demo_call 5 SEPC (uadd (Signal.sepc (read_trap_cx (mem (k_mm (fk demo_call))) 5)) 4)).
  destruct (caller_run s1 0 demo_thread demo_caller eq_refl eq_refl eq_refl) as [Hc1 Hg].
  destruct (trap_performs_the_stub small_fs dir_place Demo.strampoline Demo.trap_handler Demo.user_sstatus (fun _ => Demo.elf) 0 0
    demo_call RGetpid 0 demo_caller 0 demo_thread 7 s1 0 demo_caller 0 demo_thread Hc I demo_call_loaded)
    as (s3 & E4 & _ & _ & H10 & _); [|exact Hc1|].
  - unfold perform, returning. st_step_by Hg. reflexivity.
  - exact (ex_intro _ s3 (conj E4 H10)).
Defined.
