(* ===== verification/Trap.v ===== *)
(** The path of a trap: the assembly of os/src/trap/trap.S, the whole of [trap_handler] with
    the delivery of signals and [trap_return] (os/src/trap/mod.rs), on the state of
    [FileCalls].

    A trap context is a page of physical memory; [__alltraps] and [__restore] are functions
    on the registers and that page.  A trap handler that gives the processor up stops with
    the outcome [Switched]; [trap_resume] is what it does when the task is dispatched. *)

From S2P Require Import Prelude Address Alloc Memory PageTable BlockCache BlockLogic Bitmap Layout InodeGrowth Efs Vfs.
From S2P Require Import Directory Pipe UserBuffer Files Sched Signal AddressSpace Process ProcessTree Waiting FileCalls FileCallSpecs Syscall.

(** ** trap.S *)

(** [x] are the general registers, [x !! 0] is zero. *)
Record machine := mkMachine {
  x : list Z; pc : Z;
  csr_sscratch : Z; csr_sstatus : Z; csr_sepc : Z; csr_satp : Z;
}.

Definition reg (i : Z) (u : machine) : Z := x u !!! Z.to_nat i.
Definition set_reg (i v : Z) (u : machine) : machine :=
  mkMachine (<[Z.to_nat i := v]> (x u)) (pc u) (csr_sscratch u) (csr_sstatus u) (csr_sepc u) (csr_satp u).
Definition set_sscratch (v : Z) (u : machine) : machine := mkMachine (x u) (pc u) v (csr_sstatus u) (csr_sepc u) (csr_satp u).
Definition set_sstatus (v : Z) (u : machine) : machine := mkMachine (x u) (pc u) (csr_sscratch u) v (csr_sepc u) (csr_satp u).
Definition set_csr_sepc (v : Z) (u : machine) : machine := mkMachine (x u) (pc u) (csr_sscratch u) (csr_sstatus u) v (csr_satp u).
Definition set_satp (v : Z) (u : machine) : machine := mkMachine (x u) (pc u) (csr_sscratch u) (csr_sstatus u) (csr_sepc u) v.
Definition jump (v : Z) (u : machine) : machine := mkMachine (x u) v (csr_sscratch u) (csr_sstatus u) (csr_sepc u) (csr_satp u).

Definition SP : Z := 2.
Definition T0 : Z := 5.
Definition T1 : Z := 6.

(** The registers of [.rept 27], after x1 and x3. *)
Definition saved : list Z := 1 :: 3 :: seqZ 5 27.

(** [sp] and [a0] point to the trap context, which is in frame [ppn]; [csrrw sp, sscratch, sp]
    exchanges the two. *)
Definition SAVE_GPR (ppn : Z) (u : machine) (m : pmem) (id : Z) : pmem := write_word m ppn id (reg id u).
Definition LOAD_GPR (ppn : Z) (m : pmem) (u : machine) (id : Z) : machine := set_reg id (read_word m ppn id) u.

(** [csrrw sp, sscratch, sp] *)
Definition exchange (u : machine) : machine := set_reg SP (csr_sscratch u) (set_sscratch (reg SP u) u).

(** The stores; the control registers go through [t0], which is loaded last below. *)
Definition save_context (ppn : Z) (u : machine) (m : pmem) : pmem :=
  let m := foldl (SAVE_GPR ppn u) m saved in
  let m := write_word m ppn 32 (csr_sstatus u) in
  let m := write_word m ppn 33 (csr_sepc u) in
  write_word m ppn 2 (csr_sscratch u).

Definition enter_kernel (ppn : Z) (m : pmem) (u : machine) : machine :=
  let u := set_reg T0 (read_word m ppn 34) u in
  let u := set_reg T1 (read_word m ppn 36) u in
  let u := set_reg SP (read_word m ppn 35) u in
  let u := set_satp (reg T0 u) u in
  jump (reg T1 u) u.

Definition alltraps (ppn : Z) (u : machine) (m : pmem) : machine * pmem :=
  let u := exchange u in
  let m := save_context ppn u m in
  (enter_kernel ppn m u, m).

(** [sret] jumps to [sepc]. *)
Definition restore (ppn : Z) (u : machine) (m : pmem) : machine :=
  let u := set_satp (reg A1 u) u in
  let u := set_sscratch (reg A0 u) u in
  let u := set_reg SP (reg A0 u) u in
  let u := set_reg T0 (read_word m ppn 32) u in
  let u := set_sstatus (reg T0 u) u in
  let u := set_reg T0 (read_word m ppn 33) u in
  let u := set_csr_sepc (reg T0 u) u in
  let u := foldl (LOAD_GPR ppn m) u saved in
  let u := set_reg SP (read_word m ppn SP) u in
  jump (csr_sepc u) u.

(** A user program at a trap: 32 words in the registers, and the hardware has put the
    program counter in [sepc]. *)
Record at_trap (u : machine) : Prop := {
  at_regs : length (x u) = 32%nat;
  at_words i : 0 <= i < 32 -> 0 <= reg i u < 2 ^ 64;
  at_csrs : 0 <= csr_sstatus u < 2 ^ 64 /\ 0 <= csr_sepc u < 2 ^ 64;
}.

Lemma reg_set i j v u : 0 <= i -> 0 <= j < Z.of_nat (length (x u)) -> reg i (set_reg j v u) = if i =? j then v else reg i u.
Proof.
  intros Hi Hj. unfold reg, set_reg. cbn [x]. destruct (Z.eqb_spec i j) as [->|Hne].
  - apply list_lookup_total_insert_eq. lia.
  - apply list_lookup_total_insert_ne. lia.
Qed.

Lemma reg_set_satp i v u : reg i (set_satp v u) = reg i u.
Proof. done. Qed.

Lemma reg_jump i v u : reg i (jump v u) = reg i u.
Proof. done. Qed.

Lemma length_set_reg j v u : length (x (set_reg j v u)) = length (x u).
Proof. apply length_insert. Qed.

Lemma saved_spec i : i ∈ saved <-> (i = 1 \/ i = 3 \/ 5 <= i < 32).
Proof. unfold saved. rewrite !elem_of_cons, elem_of_seqZ. lia. Qed.

(** What [__alltraps] writes. *)
Lemma save_all ppn u l m i :
  Forall (fun j => 0 <= j < 37) l -> 0 <= i < 37 -> (forall j, j ∈ l -> 0 <= reg j u < 2 ^ 64) ->
  read_word (foldl (SAVE_GPR ppn u) m l) ppn i = if decide (i ∈ l) then reg i u else read_word m ppn i.
Proof.
  revert m. induction l as [|j l IH] using rev_ind; intros m Hl Hi Hw; [done|]. rewrite foldl_app. cbn [foldl].
  apply Forall_app in Hl as [Hl Hj]. rewrite Forall_singleton in Hj. unfold SAVE_GPR at 1. destruct (decide (i = j)) as [->|Hne].
  - rewrite read_word_write_eq by (apply Hw; apply elem_of_app; right; by left). rewrite decide_True by (apply elem_of_app; right; by left). done.
  - rewrite read_word_write_ne by (right; lia). rewrite IH by (done || intros j' Hj'; apply Hw; apply elem_of_app; by left).
    assert (E : i ∈ l ++ [j] <-> i ∈ l) by (rewrite elem_of_app, list_elem_of_singleton; naive_solver).
    destruct (decide (i ∈ l)), (decide (i ∈ l ++ [j])); tauto.
Qed.

Lemma exchange_spec u j :
  at_trap u -> 0 <= j -> length (x (exchange u)) = 32%nat /\ (j <> SP -> reg j (exchange u) = reg j u) /\
  csr_sscratch (exchange u) = reg SP u /\ csr_sstatus (exchange u) = csr_sstatus u /\ csr_sepc (exchange u) = csr_sepc u.
Proof.
  intros [Hl _ _] Hj. unfold exchange. split_and!; [by rewrite length_set_reg| |done..]. intros Hne.
  rewrite reg_set by (cbn; unfold SP; lia). by rewrite (proj2 (Z.eqb_neq _ _)).
Qed.

Lemma alltraps_saves ppn u m i :
  at_trap u -> 0 <= i < 37 ->
  read_word (alltraps ppn u m).2 ppn i =
    if decide (i ∈ SP :: saved) then reg i u else if i =? 32 then csr_sstatus u else if i =? 33 then csr_sepc u else read_word m ppn i.
Proof.
  intros Ht Hi. pose proof Ht as [Hl Hw [Hs He]]. unfold alltraps, save_context. cbn [snd].
  pose proof (fun j Hj => exchange_spec u j Ht Hj) as Hex. destruct (Hex 0 ltac:(lia)) as (Hl1 & _ & Ess & Est & Ese). rewrite Ess, Est, Ese.
  pose proof (Hw SP ltac:(unfold SP; lia)) as Hsp. destruct (decide (i = SP)) as [->|Hne].
  - rewrite read_word_write_eq by done. by rewrite decide_True by (by left).
  - rewrite read_word_write_ne by (right; unfold SP in *; lia). destruct (Z.eqb_spec i 33) as [->|H33].
    + rewrite read_word_write_eq by done. rewrite decide_False; [done|]. rewrite elem_of_cons, saved_spec. unfold SP. lia.
    + rewrite read_word_write_ne by (right; lia). destruct (Z.eqb_spec i 32) as [->|H32].
      * rewrite read_word_write_eq by done. rewrite decide_False; [done|]. rewrite elem_of_cons, saved_spec. unfold SP. lia.
      * rewrite read_word_write_ne by (right; lia). rewrite save_all.
        -- assert (E : i ∈ SP :: saved <-> i ∈ saved) by (rewrite elem_of_cons; naive_solver).
           destruct (decide (i ∈ saved)), (decide (i ∈ SP :: saved)); try tauto. by apply (Hex i ltac:(lia)).
        -- apply Forall_forall. intros j Hj%saved_spec. lia.
        -- done.
        -- intros j Hj%saved_spec. destruct (Hex j ltac:(lia)) as (_ & -> & _); [apply Hw; lia|unfold SP; lia].
Qed.

Lemma enter_kernel_spec ppn m u :
  length (x u) = 32%nat ->
  pc (enter_kernel ppn m u) = read_word m ppn 36 /\ reg SP (enter_kernel ppn m u) = read_word m ppn 35 /\
  csr_satp (enter_kernel ppn m u) = read_word m ppn 34 /\ csr_sscratch (enter_kernel ppn m u) = csr_sscratch u.
Proof.
  intros Hl. unfold enter_kernel. generalize (read_word m ppn 34) as a, (read_word m ppn 36) as b, (read_word m ppn 35) as c. intros a b c.
  cbn [jump pc csr_satp csr_sscratch set_satp]. rewrite reg_jump, !reg_set_satp.
  repeat rewrite reg_set by (rewrite ?length_set_reg, ?Hl; unfold SP, T0, T1; lia). done.
Qed.

(** It runs the handler with the stack and the address space of the kernel. *)
Lemma alltraps_enters ppn u m :
  at_trap u ->
  pc (alltraps ppn u m).1 = read_word m ppn 36 /\ reg SP (alltraps ppn u m).1 = read_word m ppn 35 /\
  csr_satp (alltraps ppn u m).1 = read_word m ppn 34 /\ csr_sscratch (alltraps ppn u m).1 = reg SP u.
Proof.
  intros Ht. assert (Hk : forall i, 34 <= i < 37 -> read_word (alltraps ppn u m).2 ppn i = read_word m ppn i).
  { intros i Hi. rewrite alltraps_saves by (done || lia). rewrite decide_False by (rewrite elem_of_cons, saved_spec; unfold SP; lia).
    rewrite !(proj2 (Z.eqb_neq _ _)) by lia. done. }
  destruct (exchange_spec u 0 Ht ltac:(lia)) as (Hl & _ & Ess & _).
  destruct (enter_kernel_spec ppn (save_context ppn (exchange u) m) (exchange u) Hl) as (E1 & E2 & E3 & E4).
  rewrite <- !Hk by lia. rewrite <- Ess. exact (conj E1 (conj E2 (conj E3 E4))).
Qed.

(** ** [__restore] *)

Lemma load_all ppn m l u i :
  length (x u) = 32%nat -> Forall (fun j => 0 <= j < 32) l -> 0 <= i ->
  length (x (foldl (LOAD_GPR ppn m) u l)) = 32%nat /\
  reg i (foldl (LOAD_GPR ppn m) u l) = (if decide (i ∈ l) then read_word m ppn i else reg i u).
Proof.
  intros Hl Hall Hi. induction l as [|j l IH] using rev_ind; [done|]. apply Forall_app in Hall as [Hall Hj]. rewrite Forall_singleton in Hj.
  rewrite foldl_app. cbn [foldl]. destruct (IH Hall) as [Hl' Hr]. set (u' := foldl (LOAD_GPR ppn m) u l) in *. clearbody u'.
  unfold LOAD_GPR. split; [by rewrite length_set_reg|]. rewrite reg_set by lia. rewrite Hr.
  assert (E : i ∈ l ++ [j] <-> i ∈ l \/ i = j) by (by rewrite elem_of_app, list_elem_of_singleton).
  destruct (Z.eqb_spec i j) as [->|Hne]; repeat case_decide; tauto.
Qed.

Lemma load_csrs ppn m l u :
  csr_sscratch (foldl (LOAD_GPR ppn m) u l) = csr_sscratch u /\ csr_sstatus (foldl (LOAD_GPR ppn m) u l) = csr_sstatus u /\
  csr_sepc (foldl (LOAD_GPR ppn m) u l) = csr_sepc u /\ csr_satp (foldl (LOAD_GPR ppn m) u l) = csr_satp u.
Proof. revert u. induction l as [|j l IH]; intros u; [done|]. cbn [foldl]. apply (IH (LOAD_GPR ppn m u j)). Qed.

(** The registers before the general ones are loaded. *)
Definition restore_csrs (ppn : Z) (u : machine) (m : pmem) : machine :=
  set_csr_sepc (read_word m ppn 33) (set_reg T0 (read_word m ppn 33) (set_sstatus (read_word m ppn 32) (set_reg T0 (read_word m ppn 32)
    (set_reg SP (reg A0 u) (set_sscratch (reg A0 u) (set_satp (reg A1 u) u)))))).

Lemma restore_unfold ppn k m :
  length (x k) = 32%nat ->
  restore ppn k m = jump (read_word m ppn 33) (set_reg SP (read_word m ppn SP) (foldl (LOAD_GPR ppn m) (restore_csrs ppn k m) saved)).
Proof.
  intros Hl. unfold restore, restore_csrs. cbv zeta. rewrite !(reg_set T0 T0) by (cbn; rewrite ?length_insert; unfold T0; lia). rewrite !Z.eqb_refl.
  f_equal.
Qed.

Lemma restore_loads ppn k m i :
  length (x k) = 32%nat -> 0 <= i < 32 ->
  reg i (restore ppn k m) = (if decide (i ∈ SP :: saved) then read_word m ppn i else reg i k) /\
  pc (restore ppn k m) = read_word m ppn 33 /\ csr_sstatus (restore ppn k m) = read_word m ppn 32 /\
  csr_satp (restore ppn k m) = reg A1 k /\ csr_sscratch (restore ppn k m) = reg A0 k.
Proof.
  intros Hl Hi. rewrite restore_unfold by done.
  assert (Hl0 : length (x (restore_csrs ppn k m)) = 32%nat) by (unfold restore_csrs; cbn; by rewrite !length_insert).
  assert (Hall : Forall (fun j => 0 <= j < 32) saved) by (apply Forall_forall; intros j Hj%saved_spec; lia).
  destruct (load_all ppn m saved _ i Hl0 Hall ltac:(lia)) as [Hl1 Hr]. destruct (load_csrs ppn m saved (restore_csrs ppn k m)) as (C1 & C2 & C3 & C4).
  split_and!; [|done|exact C2|exact C4|exact C1]. rewrite reg_jump, reg_set by (rewrite ?Hl1; unfold SP; lia). rewrite Hr.
  assert (E : i ∈ SP :: saved <-> i = SP \/ i ∈ saved) by apply elem_of_cons.
  destruct (Z.eqb_spec i SP) as [->|Hne]; [by rewrite decide_True by (by left)|].
  destruct (decide (i ∈ saved)) as [Hin|Hout], (decide (i ∈ SP :: saved)) as [Hin'|Hout']; try tauto.
  assert (H04 : i <> T0) by (intros ->; apply Hout; apply saved_spec; unfold T0; lia).
  unfold restore_csrs. change (reg i (set_csr_sepc ?a ?u)) with (reg i u). rewrite reg_set by (cbn; rewrite ?length_insert; unfold T0; lia).
  change (reg i (set_sstatus ?a ?u)) with (reg i u). rewrite !reg_set by (cbn; rewrite ?length_insert; unfold T0, SP; lia).
  rewrite !(proj2 (Z.eqb_neq _ _)) by done. done.
Qed.

(** ** [trap_handler] *)

Definition with_backup (c : option TrapContext) (b : TaskControlBlock) : TaskControlBlock :=
  mkTCB (t_process b) (t_kernel_stack b) (t_user_resource b) (t_trap_cx_ppn b) (t_exit_code b) c.

(** [scause]: the causes that the handler names, and the others. *)
Inductive Cause :=
| UserEnvCall | StoreFault | StorePageFault | LoadFault | LoadPageFault | InstructionFault | InstructionPageFault
| IllegalInstruction | SupervisorSoft | OtherCause.
#[export] Instance Cause_eq_dec : EqDecision Cause.
Proof. solve_decision. Defined.

(** The thread goes on in user mode, gave the processor up, or has exited. *)
Inductive outcome := ToUser | Switched | Exited.

Section handler.
Context {F : Type} `{FrameAllocator F} {D : Type} `{BlockDevice D}.

Definition k_add_signal (signal : Z) : ST (kstate F) unit :=
  '(p, b, t, tb) ← current;
  cx ← trap_cx_of tb;
  upd_proc p (with_signals (Signal.current_add_signal signal (signal_view b cx (t_trap_cx_backup tb)))).

(** The trap context is written in place: only the words that a handler changes are
    stored. *)
Definition update_trap_cx (ppn : Z) (old new : TrapContext) : ST (mm F) unit :=
  st_for (zip (seqZ 0 37) (zip (cx_words old) (cx_words new))) (fun '(i, (v, w)) => if v =? w then mret tt else store_word ppn i w).

Definition k_check_pending_signals : ST (kstate F) unit :=
  '(p, b, t, tb) ← current;
  cx ← trap_cx_of tb;
  s ← lift (Signal.check_pending_signals (signal_view b cx (t_trap_cx_backup tb)));
  upd_proc p (with_signals s);;
  upd_tcb t (with_backup (Signal.trap_cx_backup s));;
  on_mm (update_trap_cx (t_trap_cx_ppn tb) cx (Signal.trap_cx s)).

(** A round of the loop of [handle_signals]; false when the task has given the processor up
    and will go on with the next round. *)
Definition k_handle_signals : ST (kstate F) bool :=
  k_check_pending_signals;;
  '(_, b, _, _) ← current;
  if p_killed b || negb (p_frozen b) then mret true
  else on_sched (suspend_current_and_run_next KYield);; mret false.

(** What follows the [match] of [trap_handler]. *)
Definition finish_trap : ST (kstate F) outcome :=
  left_loop ← k_handle_signals;
  if left_loop : bool then
    '(_, b, _, _) ← current;
    match Signal.check_error (p_signals b) with
    | Some errno => exit_current_and_run_next errno;; mret Exited
    | None => mret ToUser
    end
  else mret Switched.

Context (efs : EasyFileSystem) (ROOT_INODE : Inode) (strampoline trap_handler_va user_sstatus : Z).
Context (parse : list Z -> option ElfFile) (fuel : nat).

(** A call that gives the processor up, or exits, leaves no current task.  The control
    registers of the hart are not part of this state: in the branch of the software
    interrupt, [csrw sip, sip ^ 2] is [acknowledge] of Boot.v, where the timer trap that
    raises the interrupt is. *)
Definition trap_handler (now : Z) (cause : Cause) : ST (fstate F D) outcome :=
  match cause with
  | UserEnvCall =>
      trap_user_env_call efs ROOT_INODE strampoline trap_handler_va user_sstatus parse fuel now;;
      s ← get;
      match Sched.current (k_sched (fk s)) with
      | Some _ => on_k finish_trap
      | None => mret Switched
      end
  | StoreFault | StorePageFault | LoadFault | LoadPageFault | InstructionFault | InstructionPageFault =>
      on_k (k_add_signal Signal.SIGSEGV);; on_k finish_trap
  | IllegalInstruction => on_k (k_add_signal Signal.SIGILL);; on_k finish_trap
  | SupervisorSoft => on_k (on_sched (check_timer now;; suspend_current_and_run_next KYield));; mret Switched
  | OtherCause => panic PanicCall
  end.

(** The rest of the handler for a thread that was interrupted, or stopped in
    [handle_signals], when it is dispatched. *)
Definition trap_resume : ST (fstate F D) outcome := on_k finish_trap.

(** [trap_return]: what [__restore] finds in [a0] and [a1]. *)
Definition trap_return : ST (kstate F) (Z * Z) :=
  '(_, b, _, tb) ← current;
  r ← lift (unwrap (t_user_resource tb));
  mret (trap_cx_bottom (tid r), satp (address_space b)).
End handler.

(** ** The rest of a trap *)

(** The current thread with its process. *)
Record running {F} (k : kstate F) (p : nat) (b : ProcessControlBlock) (t : nat) (tb : TaskControlBlock) : Prop := {
  run_task : Sched.current (k_sched k) = Some t;
  run_tcb : tcbs k !! t = Some tb;
  run_process : t_process tb = p;
  run_pcb : procs k !! p = Some b;
}.

Definition at_peace (b : ProcessControlBlock) : Prop :=
  length (p_signal_actions b) = 32%nat /\ (p_handling_signal b = -1 \/ 0 <= p_handling_signal b < 32) /\ (p_killed b = true \/ p_frozen b = false).

Section finish.
Context {F : Type} `{FrameAllocator F}.
Implicit Types (k : kstate F).

Lemma current_run_k k p b t tb : running k p b t tb -> current k = Ok ((p, b, t, tb), k).
Proof.
  intros [H1 H2 <- H4]. pose proof (current_task_run t k H1) as E1. pose proof (get_tcb_run t k tb H2) as E2. pose proof (get_proc_run _ k b H4) as E3.
  assert (E4 : current_proc k = Ok (t_process tb, k)) by (unfold current_proc; st_step_by E1; st_step_by E2; st_step_by E3; done).
  unfold current. st_step_by E1. st_step_by E2. st_step_by E4. st_step_by E3. done.
Qed.

Lemma update_same ppn cx (s : mm F) : update_trap_cx ppn cx cx s = Ok (tt, s).
Proof.
  unfold update_trap_cx. generalize (seqZ 0 37), (cx_words cx). intros l1 l2. revert l2. induction l1 as [|i l1 IH]; intros [|w l2]; [done..|].
  cbn [zip zip_with st_for]. rewrite Z.eqb_refl. exact (IH l2).
Qed.

Lemma upd_proc_same p f k b : procs k !! p = Some b -> f b = b -> upd_proc p f k = Ok (tt, k).
Proof. intros Hb Hf. rewrite (upd_proc_run p f k b Hb), Hf, insert_id by done. by destruct k. Qed.

Lemma upd_tcb_same t f k b : tcbs k !! t = Some b -> f b = b -> upd_tcb t f k = Ok (tt, k).
Proof.
  intros Hb Hf. unfold upd_tcb. st_step_by (get_tcb_run t k b Hb). st_step. unfold set_tcbs. rewrite Hf, insert_id by done. by destruct k.
Qed.

(** Signals without a handler change nothing. *)
Lemma check_pending_same k p b t tb v :
  running k p b t tb -> v = signal_view b (read_trap_cx (mem (k_mm k)) (t_trap_cx_ppn tb)) (t_trap_cx_backup tb) ->
  Signal.check_pending_signals v = Ok v -> k_check_pending_signals k = Ok (tt, k).
Proof.
  intros Hr Hv Ep. unfold k_check_pending_signals. st_step_by (current_run_k k p b t tb Hr).
  assert (Et : trap_cx_of tb k = Ok (read_trap_cx (mem (k_mm k)) (t_trap_cx_ppn tb), k)) by done. st_step_by Et. rewrite <- Hv, Ep.
  assert (El : lift (Ok v) k = Ok (v, k)) by done. st_step_by El.
  assert (E1 : upd_proc p (with_signals v) k = Ok (tt, k)) by (eapply upd_proc_same; [by apply run_pcb in Hr|rewrite Hv; by destruct b]).
  assert (E2 : upd_tcb t (with_backup (Signal.trap_cx_backup v)) k = Ok (tt, k)) by (eapply upd_tcb_same; [by apply run_tcb in Hr|rewrite Hv; by destruct tb]).
  st_step_by E1. st_step_by E2. apply on_mm_same. rewrite Hv. cbn [signal_view Signal.trap_cx]. apply update_same.
Qed.

Lemma signals_ignored k p b t tb :
  running k p b t tb -> at_peace b ->
  (forall n, 0 <= n < 32 -> Z.testbit (p_signals b) n = true ->
     kernel_signum n = false /\ exists a, p_signal_actions b !! Z.to_nat n = Some a /\ Signal.handler a = 0) ->
  k_handle_signals k = Ok (true, k).
Proof.
  intros Hr (Hl & Hh & Hf) Hn. pose proof (current_run_k k p b t tb Hr) as Ec.
  assert (Ek : k_check_pending_signals k = Ok (tt, k)).
  { eapply check_pending_same; [exact Hr|reflexivity|]. apply pending_ignored; [split; [exact Hl|exact Hh]|exact Hn]. }
  unfold k_handle_signals. st_step_by Ek. st_step_by Ec.
  assert (Ef : p_killed b || negb (p_frozen b) = true) by (destruct Hf as [-> | ->]; [done|apply orb_true_r]). by rewrite Ef.
Qed.

Lemma finish_quiet k p b t tb :
  running k p b t tb -> at_peace b -> p_signals b = 0 -> finish_trap k = Ok (ToUser, k).
Proof.
  intros Hr Hp Hs. assert (Eh : k_handle_signals k = Ok (true, k)).
  { eapply signals_ignored; [done|done|]. intros n _. by rewrite Hs, Z.bits_0. }
  unfold finish_trap. st_step_by Eh. st_step_by (current_run_k k p b t tb Hr). by rewrite Hs.
Qed.
End finish.

(** ** What the program sees *)

Section trap.
Context {F : Type} `{FrameAllocator F} {D : Type} `{BlockDevice D}.
Context (efs : EasyFileSystem) (ROOT_INODE : Inode) (strampoline trap_handler_va user_sstatus : Z).
Context (parse : list Z -> option ElfFile) (fuel : nat).
Implicit Types (s : fstate F D) (u k : machine).
#[local] Abbreviation handler := (trap_handler efs ROOT_INODE strampoline trap_handler_va user_sstatus parse fuel).

(** The state with other physical memory. *)
Definition with_memory (m : pmem) s : fstate F D :=
  let k := fk s in
  mkFS (mkK (mkMM m (falloc (k_mm k))) (k_sched k) (KERNEL_SPACE k) (KERNEL_STACK_ALLOCATOR k) (PID_ALLOCATOR k) (PID2PCB k)
          (procs k) (tcbs k) (next_proc k) (next_task k) (held_procs k))
    (f_objects s) (f_rings s) (f_disk s) (f_console s) (f_keys s) (f_calls s).
#[local] Abbreviation memory s := (mem (k_mm (fk s))).

Lemma running_memory m s p b t tb : running (fk s) p b t tb -> running (fk (with_memory m s)) p b t tb.
Proof. intros [H1 H2 H3 H4]. split; [exact H1|exact H2|exact H3|exact H4]. Qed.

Lemma running_word ppn i w s p b t tb : running (fk s) p b t tb -> running (fk (with_word s ppn i w)) p b t tb.
Proof. intros [H1 H2 H3 H4]. split; [exact H1|exact H2|exact H3|exact H4]. Qed.

(** The program with registers [u] traps. *)
Definition enters (tb : TaskControlBlock) u s : fstate F D := with_memory (alltraps (t_trap_cx_ppn tb) u (memory s)).2 s.

(** The registers a stub has loaded. *)
Definition stub_loaded (r : request) u : Prop := reg 17 u = (User.stub r).1 /\ (reg 10 u, reg 11 u, reg 12 u) = (User.stub r).2.

(** Two states have the same trap context in frame [ppn]. *)
Definition same_context (ppn : Z) s s' : Prop := forall i, 0 <= i < 34 -> read_word (memory s') ppn i = read_word (memory s) ppn i.

Lemma saved_gpr tb u s i : at_trap u -> i ∈ SP :: saved -> read_word (memory (enters tb u s)) (t_trap_cx_ppn tb) i = reg i u.
Proof.
  intros Ht Hi. unfold enters. cbn [with_memory fk k_mm mem]. rewrite alltraps_saves; [by rewrite decide_True|done|].
  rewrite elem_of_cons, saved_spec in Hi. unfold SP in Hi. lia.
Qed.

Lemma saved_csr tb u s :
  at_trap u -> read_word (memory (enters tb u s)) (t_trap_cx_ppn tb) 32 = csr_sstatus u /\ read_word (memory (enters tb u s)) (t_trap_cx_ppn tb) 33 = csr_sepc u.
Proof.
  intros Ht. unfold enters. cbn [with_memory fk k_mm mem]. rewrite !alltraps_saves by (done || lia).
  rewrite !decide_False by (rewrite elem_of_cons, saved_spec; unfold SP; lia). done.
Qed.

Lemma enters_loaded r tb u s : at_trap u -> stub_loaded r u -> loaded r (read_trap_cx (memory (enters tb u s)) (t_trap_cx_ppn tb)).
Proof.
  intros Ht [H1 H2]. assert (Hin : forall i, 5 <= i < 32 -> i ∈ SP :: saved) by (intros i Hi; right; apply saved_spec; lia).
  unfold loaded. rewrite !gpr_read by lia. rewrite !saved_gpr by (done || apply Hin; lia). done.
Qed.

(** What [__restore] gives back, from a context that is the one of [u] but for [a0] and the
    program counter. *)
Lemma restored u k s s' tb i :
  at_trap u -> length (x k) = 32%nat -> 0 < i < 32 -> i <> 4 ->
  read_word (memory s') (t_trap_cx_ppn tb) i = read_word (memory (enters tb u s)) (t_trap_cx_ppn tb) i ->
  reg i (restore (t_trap_cx_ppn tb) k (memory s')) = reg i u.
Proof.
  intros Ht Hl Hi H4 E. destruct (restore_loads (t_trap_cx_ppn tb) k (memory s') i Hl ltac:(lia)) as (-> & _).
  assert (Hin : i ∈ SP :: saved) by (rewrite elem_of_cons, saved_spec; unfold SP; lia). rewrite decide_True by done. rewrite E. by apply saved_gpr.
Qed.

(** C18: A system call as the program sees it.  When the registers are those a stub loads, the
    thread is the current one, the call returns [v] at once, leaves the trap context alone and
    no signal is pending after it, then [__alltraps], [trap_handler] and [__restore] together
    perform exactly that call and go on after the [ecall] with [v] in [a0] and every other
    register but [tp] as it was. *)
Theorem system_call_from_user now s r u p b t tb v s2 b2 :
  running (fk s) p b t tb -> at_trap u -> stub_loaded r u -> well_typed r ->
  let s0 := enters tb u s in
  let s1 := with_word s0 (t_trap_cx_ppn tb) SEPC (uadd (csr_sepc u) 4) in
  perform efs ROOT_INODE strampoline trap_handler_va user_sstatus parse fuel now r s1 = Ok (Some v, s2) ->
  running (fk s2) p b2 t tb -> at_peace b2 -> p_signals b2 = 0 -> same_context (t_trap_cx_ppn tb) s1 s2 ->
  exists s3, handler now UserEnvCall s0 = Ok (ToUser, s3) /\
    forall k, length (x k) = 32%nat ->
      let u' := restore (t_trap_cx_ppn tb) k (memory s3) in
      pc u' = uadd (csr_sepc u) 4 /\ reg 10 u' = wrap 64 v /\ csr_sstatus u' = csr_sstatus u /\
      forall i, 0 < i < 32 -> i <> 4 -> i <> 10 -> reg i u' = reg i u.
Proof.
  intros Hr Ht Hl Hw s0 s1 Hp Hr2 Hpe Hsig Hsame. set (ppn := t_trap_cx_ppn tb) in *.
  assert (Hc0 : on_k current s0 = Ok ((p, b, t, tb), s0)) by (apply on_k_same, current_run_k; by apply running_memory).
  assert (Hc2 : on_k current s2 = Ok ((p, b2, t, tb), s2)) by (by apply on_k_same, current_run_k).
  destruct (saved_csr tb u s Ht) as [Est Ese].
  assert (Ee : Signal.sepc (read_trap_cx (memory s0) ppn) = csr_sepc u) by exact Ese.
  pose proof (enters_loaded r tb u s Ht Hl) as Hld. fold s0 in Hld.
  pose proof (env_call_run efs ROOT_INODE strampoline trap_handler_va user_sstatus parse fuel now s0 r p b t tb v s2 p b2 t tb Hc0 Hw Hld) as Hcall.
  cbv zeta in Hcall. fold ppn in Hcall. rewrite Ee in Hcall.
  specialize (Hcall Hp Hc2). fold ppn in Hcall. set (s3 := with_word s2 ppn A0 (wrap 64 v)) in *.
  assert (Hr3 : running (fk s3) p b2 t tb) by (by apply running_word).
  exists s3. split.
  - unfold trap_handler. st_step_by Hcall. st_step. rewrite (run_task _ _ _ _ _ Hr3). apply on_k_same. by eapply finish_quiet.
  - assert (Hother : forall i, 0 <= i < 34 -> i <> 10 -> i <> 33 -> read_word (memory s3) ppn i = read_word (memory s0) ppn i).
    { intros i Hi H10 H33. unfold s3. cbn [with_word fk k_mm mem]. rewrite read_word_write_ne by (right; unfold A0; lia).
      rewrite Hsame by done. unfold s1. cbn [with_word fk k_mm mem]. by rewrite read_word_write_ne by (right; unfold SEPC; lia). }
    intros k Hk. cbv zeta. destruct (restore_loads ppn k (memory s3) 10 Hk ltac:(lia)) as (E10 & Epc & Ess & _). split_and!.
    + rewrite Epc. unfold s3. cbn [with_word fk k_mm mem]. rewrite read_word_write_ne by (right; unfold A0; lia).
      rewrite Hsame by lia. unfold s1. cbn [with_word fk k_mm mem]. apply read_word_write_eq.
      unfold uadd, wrap. apply Z.mod_pos_bound. lia.
    + rewrite E10, decide_True by (right; apply saved_spec; lia). unfold s3. cbn [with_word fk k_mm mem]. apply read_word_write_eq.
      unfold wrap. apply Z.mod_pos_bound. lia.
    + rewrite Ess, Hother by lia. exact Est.
    + intros i Hi H4 H10. eapply (restored u k s s3 tb i); [done|done|done|done|]. apply Hother; lia.
Qed.

(** The state with another scheduler. *)
Definition with_sched (sc : Sched.kernel) s : fstate F D :=
  let k := fk s in
  mkFS (mkK (k_mm k) sc (KERNEL_SPACE k) (KERNEL_STACK_ALLOCATOR k) (PID_ALLOCATOR k) (PID2PCB k) (procs k) (tcbs k) (next_proc k) (next_task k)
          (held_procs k)) (f_objects s) (f_rings s) (f_disk s) (f_console s) (f_keys s) (f_calls s).

Lemma soft_step now s sc :
  (check_timer now;; suspend_current_and_run_next KYield) (k_sched (fk s)) = Ok (tt, sc) -> handler now SupervisorSoft s = Ok (Switched, with_sched sc s).
Proof. intros E. unfold trap_handler, on_k, on_sched, mbind, st_bind. unfold mbind, st_bind in E. rewrite E. done. Qed.

Lemma running_sched sc s p b t tb : running (fk s) p b t tb -> Sched.current sc = Some t -> running (fk (with_sched sc s)) p b t tb.
Proof. intros [H1 H2 H3 H4] Hc. split; [exact Hc|exact H2|exact H3|exact H4]. Qed.

(** The branch for the interrupt. *)
Lemma soft_run now s s1 t :
  Sched.current (k_sched (fk s)) = Some t -> handler now SupervisorSoft s = Ok (Switched, s1) ->
  memory s1 = memory s /\ Sched.current (k_sched (fk s1)) = None /\ last (ready_queue (k_sched (fk s1))) = Some t.
Proof.
  intros Ht E. unfold trap_handler in E. apply st_bind_Ok in E as ([] & s1' & E & E'). unfold mret, st_ret in E'. injection E' as <-.
  unfold on_k, on_sched in E. destruct ((check_timer now;; suspend_current_and_run_next KYield) (k_sched (fk s))) as [[[] sc]|] eqn:Es; [|done].
  cbn [mbind res_bind] in E. injection E as <-. cbn [fk k_mm k_sched]. split; [done|].
  apply st_bind_Ok in Es as ([] & k1 & E1 & E2).
  destruct (check_timer_loop_spec (length (timers (k_sched (fk s)))) (get_time_ms now) (k_sched (fk s)) ltac:(lia)) as (due & k1' & E' & _ & _ & _ & _ & _ & Hcur & _).
  unfold check_timer in E1. rewrite E' in E1. injection E1 as <-. rewrite Ht in Hcur. rewrite (suspend_run t KYield k1' Hcur) in E2. injection E2 as <-.
  cbn. split; [done|]. apply last_snoc.
Qed.

(** C19: An interrupt as the program sees it: nothing.  The program traps with the timer
    interrupt, [check_timer] wakes the sleepers that are due and the task goes to the end of
    the ready queue; whatever runs then, when the task is dispatched with its trap context as
    it was and no signal pending, the rest of the handler and [__restore] give the program
    its program counter and every register but [tp] back. *)
Theorem interrupt_is_transparent now s u p b t tb s1 b2 s2 :
  running (fk s) p b t tb -> at_trap u ->
  handler now SupervisorSoft (enters tb u s) = Ok (Switched, s1) ->
  running (fk s2) p b2 t tb -> at_peace b2 -> p_signals b2 = 0 -> same_context (t_trap_cx_ppn tb) s1 s2 ->
  Sched.current (k_sched (fk s1)) = None /\ last (ready_queue (k_sched (fk s1))) = Some t /\
  trap_resume s2 = Ok (ToUser, s2) /\
  forall k, length (x k) = 32%nat ->
    let u' := restore (t_trap_cx_ppn tb) k (memory s2) in
    pc u' = csr_sepc u /\ csr_sstatus u' = csr_sstatus u /\ forall i, 0 < i < 32 -> i <> 4 -> reg i u' = reg i u.
Proof.
  intros Hr Ht E Hr2 Hpe Hsig Hsame. destruct (soft_run now (enters tb u s) s1 t (run_task _ _ _ _ _ Hr) E) as (Em & Hcur & Hlast).
  destruct (saved_csr tb u s Ht) as [Est Ese]. split_and!; [done|done| |].
  - apply on_k_same. by eapply finish_quiet.
  - intros k Hk. cbv zeta. destruct (restore_loads (t_trap_cx_ppn tb) k (memory s2) 1 Hk ltac:(lia)) as (_ & Epc & Ess & _).
    unfold same_context in Hsame. rewrite Em in Hsame. split_and!.
    + rewrite Epc, Hsame by lia. exact Ese.
    + rewrite Ess, Hsame by lia. exact Est.
    + intros i Hi H4. eapply (restored u k s s2 tb i); [done|done|done|done|]. apply Hsame. lia.
Qed.

(** The state with other signals pending for process [p]. *)
Definition with_pending (v : Z) (b : ProcessControlBlock) : ProcessControlBlock :=
  mkPCB (pid b) (is_zombie b) (address_space b) (parent b) (children b) (exit_code b) (fd_table b) v
    (p_signal_actions b) (p_signal_mask b) (p_handling_signal b) (p_killed b) (p_frozen b) (tasks b) (tid_allocator b).
Definition with_proc (p : nat) (b : ProcessControlBlock) (k : kstate F) : kstate F :=
  mkK (k_mm k) (k_sched k) (KERNEL_SPACE k) (KERNEL_STACK_ALLOCATOR k) (PID_ALLOCATOR k) (PID2PCB k)
    (<[p := b]> (procs k)) (tcbs k) (next_proc k) (next_task k) (held_procs k).
Definition with_process (p : nat) (b : ProcessControlBlock) s : fstate F D :=
  mkFS (with_proc p b (fk s)) (f_objects s) (f_rings s) (f_disk s) (f_console s) (f_keys s) (f_calls s).

Lemma running_proc (k : kstate F) p b b' t tb : running k p b t tb -> running (with_proc p b' k) p b' t tb.
Proof. intros [H1 H2 H3 H4]. split; [exact H1|exact H2|exact H3|]. cbn. by rewrite lookup_insert_eq. Qed.

Lemma add_signal_run (k : kstate F) p b t tb sig :
  running k p b t tb -> k_add_signal sig k = Ok (tt, with_proc p (with_pending (Z.lor (p_signals b) sig) b) k).
Proof.
  intros Hr. unfold k_add_signal. st_step_by (current_run_k k p b t tb Hr).
  assert (Et : trap_cx_of tb k = Ok (read_trap_cx (mem (k_mm k)) (t_trap_cx_ppn tb), k)) by done. st_step_by Et.
  by rewrite (upd_proc_run p _ k b (run_pcb _ _ _ _ _ Hr)).
Qed.

Lemma on_k_then {A B} (m1 : ST (kstate F) A) (c : B) s : on_k (m1;; mret c) s = (on_k m1;; mret c) s.
Proof. unfold on_k, mbind, st_bind. by destruct (m1 (fk s)) as [[a k]|]. Qed.

(** A fault signal that nobody handles. *)
Lemma finish_fault (k : kstate F) p b t tb n errno :
  running k p b t tb -> at_peace b -> p_signals b = Signal.bits n -> 0 <= n < 32 -> kernel_signum n = false ->
  (exists a, p_signal_actions b !! Z.to_nat n = Some a /\ Signal.handler a = 0) -> Signal.check_error (Signal.bits n) = Some errno ->
  finish_trap k = (exit_current_and_run_next errno;; mret Exited) k.
Proof.
  intros Hr Hp Hs Hn Hk Ha He. assert (Eh : k_handle_signals k = Ok (true, k)).
  { eapply signals_ignored; [done|done|]. intros m Hm Hb. assert (m = n) as ->; [|done].
    rewrite Hs, bits_pow2 in Hb by done. destruct (decide (m = n)) as [|Hne]; [done|]. by rewrite Z.pow2_bits_false in Hb by done. }
  unfold finish_trap. st_step_by Eh. st_step_by (current_run_k k p b t tb Hr). by rewrite Hs, He.
Qed.

(** C20: A fault ends the thread.  When a thread without pending signals touches memory it must
    not, or executes an illegal instruction, and its process has no handler for SIGSEGV or
    SIGILL, the trap is exactly the exit of the thread with -11 or -4, with the signal left
    pending for the other threads of its process. *)
Theorem fault_exits now s p b t tb cause :
  running (fk s) p b t tb -> at_peace b -> p_signals b = 0 ->
  cause ∉ [UserEnvCall; SupervisorSoft; OtherCause] ->
  let n := if decide (cause = IllegalInstruction) then 4 else 11 in
  (exists a, p_signal_actions b !! Z.to_nat n = Some a /\ Signal.handler a = 0) ->
  handler now cause s = (on_k (exit_current_and_run_next (- n));; mret Exited) (with_process p (with_pending (Signal.bits n) b) s).
Proof.
  intros Hr Hp Hs Hc n Ha. set (b' := with_pending (Signal.bits n) b).
  assert (Hn : n = 4 \/ n = 11) by (unfold n; case_decide; auto).
  assert (E1 : on_k (k_add_signal (Signal.bits n)) s = Ok (tt, with_process p b' s)).
  { unfold on_k. by rewrite (add_signal_run (fk s) p b t tb (Signal.bits n) Hr), Hs, Z.lor_0_l. }
  assert (E2 : on_k finish_trap (with_process p b' s) = (on_k (exit_current_and_run_next (- n));; mret Exited) (with_process p b' s)).
  { rewrite <- on_k_then. unfold on_k. cbn [with_process fk]. rewrite (finish_fault (with_proc p b' (fk s)) p b' t tb n (- n)); [done|..|done|].
    - by eapply running_proc.
    - exact Hp.
    - done.
    - destruct Hn; lia.
    - by destruct Hn as [-> | ->].
    - by destruct Hn as [-> | ->]. }
  rewrite <- E2. rewrite !not_elem_of_cons in Hc. destruct Hc as (C1 & C2 & C3 & _).
  destruct cause; try done; unfold trap_handler; st_step_by E1; reflexivity.
Qed.
End trap.

(** ** Examples *)

Module TrapDemo.
(** The program of [demo_call] at its [ecall]. *)
Definition user : machine := mkMachine (<[17%nat := 172]> (<[2%nat := 24576]> (replicate 32 0))) 4096 8192 0 4096 0.

Lemma user_at_trap : at_trap user.
Proof.
  split; [done| |done]. intros i Hi. assert (Hall : Forall (fun v => 0 <= v < 2 ^ 64) (x user)) by (by repeat constructor).
  unfold reg. destruct (lookup_lt_is_Some_2 (x user) (Z.to_nat i)) as [v Hv]; [change (length (x user)) with 32%nat; lia|].
  rewrite (list_lookup_total_correct _ _ _ Hv). by eapply (proj1 (Forall_lookup _ _) Hall).
Qed.

Lemma peace : at_peace demo_caller.
Proof. split_and!; [done|by left|by right]. Qed.

Lemma demo_running : running (fk demo_call) 0 demo_caller 0 demo_thread.
Proof. by split. Qed.

Definition kernel_machine : machine := mkMachine (replicate 32 0) 0 0 0 0 0.
End TrapDemo.

Lemma system_call_from_user_witness :
  exists s3,
    trap_handler small_fs dir_place Demo.strampoline Demo.trap_handler Demo.user_sstatus (fun _ => Demo.elf) 0 0 UserEnvCall (enters demo_thread TrapDemo.user demo_call) = Ok (ToUser, s3) /\
    let u' := restore 5 TrapDemo.kernel_machine (mem (k_mm (fk s3))) in pc u' = 4100 /\ reg 10 u' = 7 /\ reg 2 u' = 24576.
Proof.
  set (s1 := with_word (enters demo_thread TrapDemo.user demo_call) 5 SEPC (uadd 4096 4)).
  assert (Hr1 : running (fk s1) 0 demo_caller 0 demo_thread) by (apply running_word, running_memory, TrapDemo.demo_running).
  destruct (caller_run s1 0 demo_thread demo_caller (run_task _ _ _ _ _ Hr1) (run_tcb _ _ _ _ _ Hr1) (run_pcb _ _ _ _ _ Hr1)) as [_ Hg].
  destruct (system_call_from_user small_fs dir_place Demo.strampoline Demo.trap_handler Demo.user_sstatus (fun _ => Demo.elf) 0 0
    demo_call RGetpid TrapDemo.user 0 demo_caller 0 demo_thread 7 s1 demo_caller TrapDemo.demo_running TrapDemo.user_at_trap) as (s3 & E & H).
  - split; reflexivity.
  - exact I.
  - unfold perform, returning. st_step_by Hg. reflexivity.
  - exact Hr1.
  - apply TrapDemo.peace.
  - reflexivity.
  - intros i _. reflexivity.
  - exists s3. split; [exact E|]. destruct (H TrapDemo.kernel_machine eq_refl) as (H1 & H2 & _ & H3). split_and!; [exact H1|exact H2|].
    exact (H3 2 ltac:(lia) ltac:(lia) ltac:(lia)).
Defined.

Lemma interrupt_is_transparent_witness :
  exists s1 (s2 : fstate Frame.StackFrameAllocator BlockFile.file), trap_handler small_fs dir_place Demo.strampoline Demo.trap_handler Demo.user_sstatus (fun _ => Demo.elf) 0 0 SupervisorSoft (enters demo_thread TrapDemo.user demo_call) = Ok (Switched, s1) /\
    trap_resume s2 = Ok (ToUser, s2) /\ pc (restore 5 TrapDemo.kernel_machine (mem (k_mm (fk s2)))) = 4096.
Proof.
  set (s := enters demo_thread TrapDemo.user demo_call). pose proof (running_memory _ _ _ _ _ _ TrapDemo.demo_running : running (fk s) 0 demo_caller 0 demo_thread) as Hr.
  destruct ((check_timer 0;; suspend_current_and_run_next KYield) (k_sched (fk demo_call))) as [[[] sc1]|] eqn:E1; [|by vm_compute in E1].
  destruct (run_tasks_round sc1) as [[o sc2]|] eqn:E2; [|vm_compute in E1; injection E1 as <-; by vm_compute in E2].
  assert (Hc2 : Sched.current sc2 = Some 0%nat) by (vm_compute in E1; injection E1 as <-; vm_compute in E2; by injection E2 as _ <-).
  assert (Hr2 : running (fk (with_sched sc2 s)) 0 demo_caller 0 demo_thread) by (by apply running_sched).
  pose proof (soft_step small_fs dir_place Demo.strampoline Demo.trap_handler Demo.user_sstatus (fun _ => Demo.elf) 0 0 s sc1 E1) as Es.
  exists (with_sched sc1 s), (with_sched sc2 s). split; [exact Es|].
  destruct (interrupt_is_transparent small_fs dir_place Demo.strampoline Demo.trap_handler Demo.user_sstatus (fun _ => Demo.elf) 0 0
    demo_call TrapDemo.user 0 demo_caller 0 demo_thread (with_sched sc1 s) demo_caller (with_sched sc2 s) TrapDemo.demo_running TrapDemo.user_at_trap Es Hr2)
    as (_ & _ & H1 & H2); [apply TrapDemo.peace|reflexivity|intros i _; reflexivity|].
  split; [exact H1|]. exact (proj1 (H2 TrapDemo.kernel_machine eq_refl)).
Defined.

(** The child of [INITPROC] reads from an address that is not mapped. *)
Module FaultDemo.
Definition s : fstate Frame.StackFrameAllocator BlockFile.file := mkFS demo_child [] [] (BlockCacheManager_new dir_image) [] [] [].
Definition b : ProcessControlBlock := default demo_caller (procs demo_child !! 1%nat).
Definition tb : TaskControlBlock := default demo_thread (tcbs demo_child !! 1%nat).

Lemma default_Some {A} (o : option A) d : bool_decide (is_Some o) = true -> o = Some (default d o).
Proof. destruct o; [done|]. intros E. by apply bool_decide_eq_true in E as [? ?]. Qed.

Lemma child_running : running (fk s) 1 b 1 tb.
Proof.
  split.
  - by vm_compute.
  - apply default_Some. by vm_compute.
  - by vm_compute.
  - apply default_Some. by vm_compute.
Qed.

Definition exit_status (r : res (outcome * fstate Frame.StackFrameAllocator BlockFile.file)) : option (bool * Z) :=
  match r with Ok (Exited, s') => (fun b => (is_zombie b, exit_code b)) <$> procs (fk s') !! 1%nat | _ => None end.
End FaultDemo.

Lemma fault_exits_witness :
  FaultDemo.exit_status (trap_handler small_fs dir_place Demo.strampoline Demo.trap_handler Demo.user_sstatus (fun _ => Demo.elf) 0 0 LoadPageFault FaultDemo.s) = Some (true, -11).
Proof.
  rewrite (fault_exits small_fs dir_place Demo.strampoline Demo.trap_handler Demo.user_sstatus (fun _ => Demo.elf) 0 0 FaultDemo.s 1 FaultDemo.b 1 FaultDemo.tb LoadPageFault).
  - vm_compute. reflexivity.
  - apply FaultDemo.child_running.
  - split_and!; [by vm_compute|left; by vm_compute|right; by vm_compute].
  - by vm_compute.
  - rewrite !not_elem_of_cons. split_and!; [done|done|done|apply not_elem_of_nil].
  - exists Signal.SignalAction_default. split; by vm_compute.
Defined.
