(* ===== verification/UserLib.v ===== *)
(** The user library, user/src/lib.rs: the start of a program, the flags it passes to the
    kernel, and the functions around the system call stubs of [Syscall].

    A program reads its memory through the page table of its process ([user_byte]); an access
    that faults is [UndefinedBehaviour]. *)

From S2P Require Import Prelude Alloc Memory PageTable UserBuffer Layout Files Buddy Signal AddressSpace Process ExecArgs Syscall.

#[local] Ltac Zify.zify_post_hook ::= Z.to_euclidean_division_equations.

(** ** Signals *)

Module Flags.
Definition SIGDEF : Z := 0.
Definition SIGHUP : Z := 1.
Definition SIGINT : Z := 2.
Definition SIGQUIT : Z := 3.
Definition SIGILL : Z := 4.
Definition SIGTRAP : Z := 5.
Definition SIGABRT : Z := 6.
Definition SIGBUS : Z := 7.
Definition SIGFPE : Z := 8.
Definition SIGKILL : Z := 9.
Definition SIGUSR1 : Z := 10.
Definition SIGSEGV : Z := 11.
Definition SIGUSR2 : Z := 12.
Definition SIGPIPE : Z := 13.
Definition SIGALRM : Z := 14.
Definition SIGTERM : Z := 15.
Definition SIGSTKFLT : Z := 16.
Definition SIGCHLD : Z := 17.
Definition SIGCONT : Z := 18.
Definition SIGSTOP : Z := 19.
Definition SIGTSTP : Z := 20.
Definition SIGTTIN : Z := 21.
Definition SIGTTOU : Z := 22.
Definition SIGURG : Z := 23.
Definition SIGXCPU : Z := 24.
Definition SIGXFSZ : Z := 25.
Definition SIGVTALRM : Z := 26.
Definition SIGPROF : Z := 27.
Definition SIGWINCH : Z := 28.
Definition SIGIO : Z := 29.
Definition SIGPWR : Z := 30.
Definition SIGSYS : Z := 31.

Definition numbers : list Z :=
  [SIGDEF; SIGHUP; SIGINT; SIGQUIT; SIGILL; SIGTRAP; SIGABRT; SIGBUS; SIGFPE; SIGKILL; SIGUSR1; SIGSEGV; SIGUSR2; SIGPIPE; SIGALRM; SIGTERM; SIGSTKFLT; SIGCHLD; SIGCONT; SIGSTOP; SIGTSTP; SIGTTIN; SIGTTOU; SIGURG; SIGXCPU; SIGXFSZ; SIGVTALRM; SIGPROF; SIGWINCH; SIGIO; SIGPWR; SIGSYS].


Record SignalAction := mkAction { handler : Z; mask : Z }.
Definition SignalAction_default : SignalAction := mkAction 0 0.

End Flags.

(** ** The start of a program *)

Section start.
Context (root : Z) (m : pmem).

Definition load_byte (va : Z) : res Z := match user_byte m root va with Some b => Ok b | None => Panic UndefinedBehaviour end.

Fixpoint load_bytes (n : nat) (va : Z) : res (list Z) :=
  match n with
  | O => Ok []
  | S n' => b ← load_byte va; rest ← load_bytes n' (va + 1); Ok (b :: rest)
  end.

Definition from_le (bs : list Z) : Z := foldr (fun b w => b + 256 * w) 0 bs.
Definition load_usize (va : Z) : res Z := bs ← load_bytes 8 va; Ok (from_le bs).

(** [(0usize..).find(|i| ... == b'\0')] *)
Fixpoint find_nul (fuel : nat) (str_start i : Z) : res Z :=
  match fuel with
  | O => Panic OutOfFuel
  | S fuel' =>
      b ← load_byte (uadd str_start i);
      if b =? 0 then Ok i else find_nul fuel' str_start (i + 1)
  end.

(** One round of [for i in 0..argc]. *)
Definition start_arg (fuel : nat) (argv i : Z) : res (list Z) :=
  str_start ← load_usize (uadd argv (umul i 8));
  len ← find_nul fuel str_start 0;
  bs ← load_bytes (Z.to_nat len) str_start;
  from_utf8 bs.

Fixpoint start_args (fuel : nat) (argv : Z) (l : list Z) : res (list (list Z)) :=
  match l with
  | [] => Ok []
  | i :: l' => a ← start_arg fuel argv i; v ← start_args fuel argv l'; Ok (a :: v)
  end.

Definition USER_HEAP_SIZE : Z := 32768.

(** [main] gets [argc] and the arguments; its result is the exit code.  The result is the new
    heap and the registers of the call that ends the program. *)
Definition _start (fuel : nat) (main : Z -> list (list Z) -> Z) (HEAP_SPACE : Z) (h : heap) (argc argv : Z) : res (heap * (Z * (Z * Z * Z))) :=
  '(_, h') ← Buddy.init HEAP_SPACE USER_HEAP_SIZE h;
  v ← start_args fuel argv (seqZ 0 argc);
  Ok (h', User.sys_exit (main argc v)).
End start.

(** ** The functions around the stubs *)

Definition dup (fd : Z) := User.sys_dup fd.
Definition close (fd : Z) := User.sys_close fd.
Definition pipe (pipe_fd : Z) := User.sys_pipe pipe_fd.
Definition read (fd buf len : Z) := User.sys_read fd buf len.
Definition write (fd buf len : Z) := User.sys_write fd buf len.
Definition exit (exit_code : Z) := User.sys_exit exit_code.
Definition sleep (sleep_ms : Z) := User.sys_sleep sleep_ms.
Definition yield_ := User.sys_yield.
(** [None] is passed as a null pointer. *)
Definition sigaction (signum : Z) (action old_action : option Z) :=
  User.sys_sigaction signum (default 0 action) (default 0 old_action).
Definition sigreturn := User.sys_sigreturn.
Definition get_time := User.sys_get_time.
Definition getpid := User.sys_getpid.
Definition fork := User.sys_fork.
Definition exec (path args : Z) := User.sys_exec path args.
Definition waitpid_nb (pid exit_code : Z) := User.sys_waitpid (as_isize pid) exit_code.
Definition thread_create (entry arg : Z) := User.sys_thread_create entry arg.
Definition gettid := User.sys_gettid.
Definition mutex_create := User.sys_mutex_create false.
Definition mutex_blocking_create := User.sys_mutex_create true.
Definition mutex_lock (mutex_id : Z) := User.sys_mutex_lock mutex_id.
Definition mutex_unlock (mutex_id : Z) := User.sys_mutex_unlock mutex_id.
Definition semaphore_create (res_count : Z) := User.sys_semaphore_create res_count.
Definition semaphore_up (sem_id : Z) := User.sys_semaphore_up sem_id.
Definition semaphore_down (sem_id : Z) := User.sys_semaphore_down sem_id.
Definition condvar_create := User.sys_condvar_create.
Definition condvar_signal (condvar_id : Z) := User.sys_condvar_signal condvar_id.
Definition condvar_wait (condvar_id mutex_id : Z) := User.sys_condvar_wait condvar_id mutex_id.

(** The loops that wait: [call] performs a system call on the state of the machine as the
    caller sees it, [fuel] bounds the rounds. *)
Section waiting.
Context {S : Type} (call : Z * (Z * Z * Z) -> ST S Z).

Fixpoint wait_loop (fuel : nat) (request : Z * (Z * Z * Z)) : ST S Z :=
  match fuel with
  | O => panic OutOfFuel
  | Datatypes.S fuel' =>
      r ← call request;
      if r =? -2 then (call yield_;; wait_loop fuel' request) else mret r
  end.

Definition wait (fuel : nat) (exit_code : Z) : ST S Z := wait_loop fuel (User.sys_waitpid (-1) exit_code).
Definition waitpid (fuel : nat) (pid exit_code : Z) : ST S Z := wait_loop fuel (User.sys_waitpid (as_isize pid) exit_code).
Definition waittid (fuel : nat) (tid : Z) : ST S Z := wait_loop fuel (User.sys_waittid tid).
End waiting.

(** ** Lemmas *)

Lemma from_le_bytes n w : 0 <= w < 256 ^ Z.of_nat n -> from_le (le_bytes n w) = w.
Proof.
  revert w. induction n as [|n IH]; intros w Hw; cbn [le_bytes from_le foldr].
  - change (256 ^ Z.of_nat 0) with 1 in Hw. lia.
  - fold (from_le (le_bytes n (w / 256))). rewrite Nat2Z.inj_succ, Z.pow_succ_r in Hw by lia. rewrite IH; [lia|].
    split; [lia|]. apply Z.div_lt_upper_bound; lia.
Qed.

Lemma load_bytes_at root m bs : forall va, bytes_at root m va bs -> load_bytes root m (length bs) va = Ok bs.
Proof.
  induction bs as [|b bs IH]; intros va Hb; cbn [load_bytes length]; [done|].
  pose proof (Hb 0%nat b eq_refl) as H0. rewrite Z.add_0_r in H0. unfold load_byte. rewrite H0. cbn [mbind res_bind].
  rewrite IH; [done|]. intros j x Hj. rewrite <- (Hb (S j) x Hj). f_equal. lia.
Qed.

(** The search for the end of a string. *)
Lemma find_nul_at root m ptr arg : forall pre fuel,
  bytes_at root m ptr (pre ++ arg ++ [0]) -> Forall (fun c => c <> 0) arg -> 0 <= ptr ->
  ptr + Z.of_nat (length (pre ++ arg)) < 2 ^ 64 -> (length arg < fuel)%nat ->
  find_nul root m fuel ptr (Z.of_nat (length pre)) = Ok (Z.of_nat (length (pre ++ arg))).
Proof.
  induction arg as [|c arg IH]; intros pre fuel Hb Hnz Hp Hlt Hf; (destruct fuel as [|fuel]; [cbn in Hf; lia|]); cbn [find_nul]; cbn [app] in Hb.
  - rewrite app_nil_r in *. rewrite uadd_small by lia. unfold load_byte. rewrite (Hb (length pre) 0); [|by rewrite list_lookup_middle]. done.
  - apply Forall_cons in Hnz as [Hc Hnz]. rewrite length_app in Hlt. cbn [length] in Hlt, Hf. rewrite uadd_small by lia. unfold load_byte.
    rewrite (Hb (length pre) c); [|by rewrite list_lookup_middle]. cbn [mbind res_bind]. rewrite (proj2 (Z.eqb_neq c 0)) by done.
    assert (E : pre ++ c :: arg = (pre ++ [c]) ++ arg) by (by rewrite <- app_assoc).
    replace (Z.of_nat (length pre) + 1) with (Z.of_nat (length (pre ++ [c]))) by (rewrite length_app; cbn; lia).
    rewrite E. apply IH; [|done|done| |lia].
    + intros j b Hj. apply Hb. rewrite <- Hj. f_equal. by rewrite <- app_assoc.
    + rewrite !length_app. cbn [length]. lia.
Qed.

Section arguments.
Context {F : Type} `{FrameAllocator F}.
Implicit Types (s : mm F).

(** One argument, as [exec] left it. *)
Lemma start_arg_at s satp slot ptr arg fuel argv i :
  argument_at satp s slot ptr arg -> uadd argv (umul i 8) = slot -> Forall (fun c => c <> 0) arg -> is_utf8 (length arg) arg = true ->
  0 <= ptr -> ptr + Z.of_nat (length arg) < 2 ^ 64 -> (length arg < fuel)%nat ->
  start_arg (PT.from_satp satp) (mem s) fuel argv i = Ok arg.
Proof.
  intros [Hslot Hstr] Es Hnz Hu Hp Hlt Hf. unfold start_arg, load_usize. rewrite Es.
  rewrite <- (length_le_bytes 8 ptr), (load_bytes_at _ _ _ _ Hslot). cbn [mbind res_bind]. rewrite from_le_bytes by (cbn; lia).
  pose proof (find_nul_at (PT.from_satp satp) (mem s) ptr arg [] fuel Hstr Hnz Hp Hlt Hf) as E. cbn [length app] in E.
  change (Z.of_nat 0) with 0 in E. rewrite E. cbn [mbind res_bind]. rewrite Nat2Z.id, load_bytes_at.
  - cbn [mbind res_bind]. unfold from_utf8. by rewrite Hu.
  - intros j b Hj. apply Hstr. by rewrite lookup_app_l by (by eapply lookup_lt_Some).
Qed.

Lemma start_args_at s satp argv fuel k0 (rest : list (list Z)) :
  (forall k arg, rest !! k = Some arg -> exists ptr, argument_at satp s (argv + 8 * Z.of_nat (k0 + k)) ptr arg /\
     0 <= ptr /\ ptr + Z.of_nat (length arg) < 2 ^ 64) ->
  0 <= argv -> argv + 8 * Z.of_nat (k0 + length rest) < 2 ^ 64 ->
  Forall (fun a => Forall (fun c => c <> 0) a /\ is_utf8 (length a) a = true /\ (length a < fuel)%nat) rest ->
  start_args (PT.from_satp satp) (mem s) fuel argv (seqZ (Z.of_nat k0) (Z.of_nat (length rest))) = Ok rest.
Proof.
  revert k0. induction rest as [|a rest IH]; intros k0 Hat H0 Hlt Hall; [done|]. apply Forall_cons in Hall as [(Hnz & Hu & Hf) Hall].
  cbn [length] in *. rewrite seqZ_cons by lia. cbn [start_args]. destruct (Hat 0%nat a eq_refl) as (ptr & Ha & Hp & Hpl). rewrite Nat.add_0_r in Ha.
  rewrite (start_arg_at s satp _ ptr a fuel argv (Z.of_nat k0) Ha); [|rewrite umul_small, uadd_small by lia; lia|done..]. cbn [mbind res_bind].
  replace (Z.succ (Z.of_nat k0)) with (Z.of_nat (S k0)) by lia. replace (Z.pred (Z.of_nat (S (length rest)))) with (Z.of_nat (length rest)) by lia.
  rewrite IH; [done| |done|lia|done]. intros k arg Hk. destruct (Hat (S k) arg Hk) as (p & Hp'). exists p. by rewrite Nat.add_succ_comm.
Qed.

(** C5: What is passed to [exec] is what [main] gets: on a user stack with room for the
    arguments, [exec] writes them, and when the program starts with the number of arguments
    and the pointer that [exec] gives it, [_start] reads back exactly those strings through
    the page table, calls [main] with them and ends with the result of [main] as exit code.
    The strings are UTF-8 without a zero byte, as [translated_str] and the shell make them. *)
Theorem start_receives_arguments s satp lo top tables args fuel main HEAP_SPACE h h' :
  window (PT.from_satp satp) lo top tables (mem s) -> (8 | top) ->
  lo <= top - 8 * (Z.of_nat (length args) + 1) - args_size args - 7 ->
  Forall (fun a => Forall (fun c => c <> 0) a /\ is_utf8 (length a) a = true /\ (length a < fuel)%nat) args ->
  Buddy.init HEAP_SPACE USER_HEAP_SIZE h = Ok (tt, h') ->
  exists sp argv s', push_arguments satp top args s = Ok ((sp, argv), s') /\
    _start (PT.from_satp satp) (mem s') fuel main HEAP_SPACE h (Z.of_nat (length args)) argv =
      Ok (h', User.sys_exit (main (Z.of_nat (length args)) args)).
Proof.
  intros Hw Ht Hlo Hall Hh. destruct (push_arguments_run s satp lo top tables args Hw Ht Hlo) as (sp & s' & E & _ & Hsp & Ha & _).
  set (argv := top - 8 * (Z.of_nat (length args) + 1)) in *. pose proof (w_range _ _ _ _ _ Hw) as [Hl Ht38].
  exists sp, argv, s'. split; [done|]. unfold _start. rewrite Hh. cbn [mbind res_bind].
  pose proof (args_size_nonneg args) as Hnn.
  change 0 with (Z.of_nat 0) at 1. rewrite (start_args_at s' satp argv fuel 0 args); [done| |unfold argv; lia|unfold argv; lia|done].
  intros k arg Hk. destruct (Ha k arg Hk) as (ptr & H1 & H2 & Hat). exists ptr. split_and!; [exact Hat|lia|unfold argv in *; lia].
Qed.
End arguments.

(** The arguments "ls" and "-a" again; [main] returns the number of arguments. *)
Lemma start_receives_arguments_witness :
  exists (s s' : mm Frame.StackFrameAllocator) h' sp argv,
    push_arguments (PT.satp 16) 28672 [[108; 115]; [45; 97]] s = Ok ((sp, argv), s') /\
    _start 16 (mem s') 3 (fun argc _ => argc) 65536 Buddy.empty 2 argv = Ok (h', User.sys_exit 2).
Proof.
  destruct demo_stack as (s & tables & Hw). rewrite <- (PT.from_satp_satp 16) in Hw by lia.
  destruct (Buddy.init 65536 USER_HEAP_SIZE Buddy.empty) as [[[] h']|] eqn:Eh; [|by vm_compute in Eh].
  destruct (start_receives_arguments s (PT.satp 16) 20480 28672 tables [[108; 115]; [45; 97]] 3 (fun argc _ => argc) 65536 Buddy.empty h' Hw)
    as (sp & argv & s' & E & E2); [by exists 3584|cbn; lia|by repeat constructor; cbn; lia|exact Eh|].
  rewrite PT.from_satp_satp in E2 by lia. exists s, s', h', sp, argv. split; [exact E|exact E2].
Defined.

(** ** Flags *)


(** The flags by name: what the program passes, and what the kernel tests. *)
Inductive open_flag := Rdonly | Wronly | Rdwr | Create | Trunc.
#[export] Instance open_flag_eq_dec : EqDecision open_flag.
Proof. solve_decision. Defined.














(** ** Waiting *)

(** The loops return the first result that is not -2, after yielding once for each -2. *)
Theorem wait_loop_returns {S : Type} (call : Z * (Z * Z * Z) -> ST S Z) request k (st st' : nat -> S) r s' :
  (forall i, (i < k)%nat -> call request (st i) = Ok (-2, st' i) /\ exists v, call yield_ (st' i) = Ok (v, st (Datatypes.S i))) ->
  call request (st k) = Ok (r, s') -> r <> -2 ->
  wait_loop call (Datatypes.S k) request (st 0%nat) = Ok (r, s').
Proof.
  revert st st'. induction k as [|k IH]; intros st st' Hk Hr Hne.
  - cbn [wait_loop]. rewrite (st_bind_run _ _ _ _ _ Hr). rewrite (proj2 (Z.eqb_neq r (-2))) by done. done.
  - destruct (Hk 0%nat ltac:(lia)) as [H0 (v & Hv)].
    change (wait_loop call (Datatypes.S (Datatypes.S k)) request) with (x ← call request; if x =? -2 then (call yield_;; wait_loop call (Datatypes.S k) request) else mret x).
    rewrite (st_bind_run _ _ _ _ _ H0). change (-2 =? -2) with true. cbn iota. rewrite (st_bind_run _ _ _ _ _ Hv).
    apply (IH (fun i => st (Datatypes.S i)) (fun i => st' (Datatypes.S i))); [|done|done]. intros i Hi. apply Hk. lia.
Qed.
