(* ===== verification/UserLocks.v ===== *)
(** Threads of a user program around a critical section (user/src/bin: peterson.rs,
    eisenberg.rs and the adder_*.rs programs).

    A thread runs [for _ in 0..N { lock; section; unlock } exit(code)].  The lock is an
    instance of [Lock]: its shared variables, and the code of [lock] and [unlock] cut at
    the accesses to them; [LockLaws] is what a lock promises.  The section is a list of
    actions on the variables the lock protects.  There is one hart and no access is split by
    an interrupt, so a run is a sequence of single accesses of the threads in any order: a
    schedule is the list of the threads in the order of their steps.

    The programs are in [UserPrograms]. *)

From S2P Require Import Prelude.

#[local] Open Scope nat_scope.

(** ** Locks *)

Class Lock := {
  shared : Type;                                             (* its static variables *)
  lpc : Type;                                                (* where a thread is in its code *)
  lock_init : shared;
  enter : nat -> lpc;                                        (* the start of [lock(id)] *)
  leave : nat -> lpc;                                        (* the start of [unlock(id)] *)
  lock_step : nat -> lpc -> shared -> option lpc * shared;   (* [None]: it returns *)
}.

(** A thread as the lock sees it. *)
Inductive phase `{Lock} :=
| Outside
| Entering (p : lpc)
| Holding
| Leaving (p : lpc).

Definition entered `{Lock} (o : option lpc) : phase := match o with Some p => Entering p | None => Holding end.
Definition left_ `{Lock} (o : option lpc) : phase := match o with Some p => Leaving p | None => Outside end.

(** What a lock for [n] threads promises. *)
Class LockLaws (n : nat) `{Lock} := {
  lock_inv : shared -> list phase -> Prop;
  inv_init : lock_inv lock_init (replicate n Outside);
  inv_start sh phs i : lock_inv sh phs -> phs !! i = Some Outside -> lock_inv sh (<[i := Entering (enter i)]> phs);
  inv_enter sh phs i p o sh' : lock_inv sh phs -> phs !! i = Some (Entering p) -> lock_step i p sh = (o, sh') ->
    lock_inv sh' (<[i := entered o]> phs);
  inv_finish sh phs i : lock_inv sh phs -> phs !! i = Some Holding -> lock_inv sh (<[i := Leaving (leave i)]> phs);
  inv_leave sh phs i p o sh' : lock_inv sh phs -> phs !! i = Some (Leaving p) -> lock_step i p sh = (o, sh') ->
    lock_inv sh' (<[i := left_ o]> phs);
  inv_exclusive sh phs i j : lock_inv sh phs -> phs !! i = Some Holding -> phs !! j = Some Holding -> i = j;
}.

(** A lock under which nobody waits for ever: the steps that are not rounds of a waiting
    loop are bounded by [lock_rank], a round of the loop changes nothing, and when all
    threads wait, one of them comes through within [patience] steps of its own. *)
Fixpoint steps_through `{Lock} (i k : nat) (p : lpc) (sh : shared) : bool :=
  match k with
  | O => false
  | S k' => match (lock_step i p sh).1 with None => true | Some p' => steps_through i k' p' sh end
  end.

Class LockProgress (n : nat) `{LockLaws n} := {
  waiting : lpc -> bool;
  lock_rank : lpc -> nat;
  rank_bound : nat;
  patience : nat;
  patience_pos : 0 < patience;
  rank_enter i : i < n -> 0 < lock_rank (enter i) <= rank_bound;
  rank_leave i : i < n -> 0 < lock_rank (leave i) <= rank_bound;
  rank_step i p sh p' sh' : lock_step i p sh = (Some p', sh') ->
    0 < lock_rank p' < lock_rank p \/ (waiting p = true /\ waiting p' = true /\ lock_rank p' = lock_rank p /\ sh' = sh);
  leaving_never_waits sh phs i p : lock_inv sh phs -> phs !! i = Some (Leaving p) -> waiting p = false;
  somebody_comes_through sh phs : lock_inv sh phs ->
    (forall i ph, phs !! i = Some ph -> ph = Outside \/ exists p, ph = Entering p /\ waiting p = true) ->
    (exists i p, phs !! i = Some (Entering p)) ->
    exists i p, phs !! i = Some (Entering p) /\ steps_through i patience p sh = true;
}.

(** ** Programs *)

Section program.
Context `{Lock} {C L : Type}.

(** An access in the critical section, on the protected variables and those of the
    thread; [None] is a failed assertion. *)
Definition action : Type := L -> C -> option L * C.

Context (section : list action) (N : nat) (exit_code : L -> Z).

Inductive pc :=
| Start (iter : nat)                    (* the head of the [for] loop *)
| Enter (iter : nat) (p : lpc)
| Body (iter k : nat)                   (* before access [k] of the section *)
| Leave (iter : nat) (p : lpc)
| Done (code : Z)
| Panicked.

Record thread := mkThread { t_pc : pc; t_local : L }.
Record world := mkWorld { w_lock : shared; w_client : C; w_threads : list thread }.

(** One step of thread [i]. *)
Definition thread_step (i : nat) (t : thread) (sh : shared) (c : C) : thread * shared * C :=
  let l := t_local t in
  match t_pc t with
  | Start iter =>
      if decide (iter < N) then (mkThread (Enter iter (enter i)) l, sh, c)
      else (mkThread (Done (exit_code l)) l, sh, c)
  | Enter iter p =>
      let '(o, sh') := lock_step i p sh in
      (mkThread (match o with Some p' => Enter iter p' | None => Body iter 0 end) l, sh', c)
  | Body iter k =>
      match section !! k with
      | Some a =>
          let '(o, c') := a l c in
          match o with
          | Some l' => (mkThread (Body iter (S k)) l', sh, c')
          | None => (mkThread Panicked l, sh, c')
          end
      | None => (mkThread (Leave iter (leave i)) l, sh, c)
      end
  | Leave iter p =>
      let '(o, sh') := lock_step i p sh in
      (mkThread (match o with Some p' => Leave iter p' | None => Start (S iter) end) l, sh', c)
  | Done code => (t, sh, c)
  | Panicked => (t, sh, c)
  end.

Definition step (w : world) (i : nat) : world :=
  match w_threads w !! i with
  | Some t =>
      let '(t', sh, c) := thread_step i t (w_lock w) (w_client w) in
      mkWorld sh c (<[i := t']> (w_threads w))
  | None => w
  end.

Definition run (w : world) (schedule : list nat) : world := foldl step w schedule.

(** The [n] threads [main] creates. *)
Definition init (n : nat) (c : C) (l : L) : world := mkWorld lock_init c (replicate n (mkThread (Start 0) l)).

(** ** The sequential program

    The sections of the threads one after the other, without a lock. *)

Fixpoint run_actions (s : list action) (l : L) (c : C) : option (L * C) :=
  match s with
  | [] => Some (l, c)
  | a :: s' => match a l c with (Some l', c') => run_actions s' l' c' | (None, _) => None end
  end.

Definition serial_step (st : option (list L * C)) (i : nat) : option (list L * C) :=
  '(ls, c) ← st;
  l ← ls !! i;
  '(l', c') ← run_actions section l c;
  Some (<[i := l']> ls, c').

(** [log]: whose section is run, in order. *)
Definition serial (ls : list L) (c : C) (log : list nat) : option (list L * C) := foldl serial_step (Some (ls, c)) log.

(** ** Reachable states *)

Definition phase_of (t : thread) : phase :=
  match t_pc t with
  | Start _ | Done _ => Outside
  | Enter _ p => Entering p
  | Body _ _ | Panicked => Holding
  | Leave _ p => Leaving p
  end.

(** The sections a thread has finished. *)
Definition finished (t : thread) : nat :=
  match t_pc t with
  | Start iter | Enter iter _ | Body iter _ => iter
  | Leave iter _ => S iter
  | Done _ | Panicked => N
  end.

Definition bounded (t : thread) : Prop :=
  match t_pc t with
  | Start iter => iter <= N
  | Enter iter _ | Body iter _ | Leave iter _ => iter < N
  | Done _ | Panicked => True
  end.

Definition count (i : nat) (log : list nat) : nat := length (filter (fun j => j = i) log).

(** What thread [t] has done since the state [(l, c)] the finished sections left. *)
Definition consistent (l : L) (c : C) (t : thread) (now : C) : Prop :=
  match t_pc t with
  | Body _ k => run_actions (take k section) l c = Some (t_local t, now)
  | Panicked => False
  | Done code => t_local t = l /\ code = exit_code l
  | _ => t_local t = l
  end.

Definition in_section (t : thread) : Prop := match t_pc t with Body _ _ => True | _ => False end.

Record serialized (n : nat) (l0 : L) (c0 : C) (w : world) (log : list nat) (ls : list L) (c : C) : Prop := {
  z_run : serial (replicate n l0) c0 log = Some (ls, c);
  z_length : length ls = n;
  z_threads : length (w_threads w) = n;
  z_thread i t : w_threads w !! i = Some t -> exists l, ls !! i = Some l /\ consistent l c t (w_client w) /\
    finished t = count i log /\ bounded t;
  z_quiet : (forall i t, w_threads w !! i = Some t -> ~ in_section t) -> w_client w = c;
}.

End program.

Arguments thread {_} L.
Arguments world {_} C L.
Arguments pc {_}.

(** ** Exclusion makes the sections atomic *)

Section serialization.
Context `{Lock} {C L : Type} (section : list (@action C L)) (N : nat) (exit_code : L -> Z).
Context (n : nat) `{!LockLaws n} (good : C -> Prop).
#[local] Abbreviation step := (step section N exit_code).
#[local] Abbreviation run := (run section N exit_code).

(** A section that runs alone neither fails nor leaves the good states. *)
Hypothesis section_total : forall l c, good c -> exists l' c', run_actions section l c = Some (l', c') /\ good c'.

Lemma run_actions_app (s1 s2 : list action) (l : L) (c : C) :
  run_actions (s1 ++ s2) l c = '(l', c') ← run_actions s1 l c; run_actions s2 l' c'.
Proof.
  revert l c. induction s1 as [|a s1 IH]; intros l c; cbn [app run_actions]; [done|]. destruct (a l c) as [[l'|] c']; [apply IH|done].
Qed.

(** The next access of a thread that has run the first [k] alone. *)
Lemma next_action k (a : @action C L) (l l' : L) (c c' : C) :
  good c -> section !! k = Some a -> run_actions (take k section) l c = Some (l', c') ->
  exists l'' c'', a l' c' = (Some l'', c'') /\ run_actions (take (S k) section) l c = Some (l'', c'').
Proof.
  intros Hg Ha Hk. destruct (section_total l c Hg) as (l2 & c2 & E & _).
  assert (Es : run_actions (take (S k) section) l c = run_actions [a] l' c') by (by rewrite (take_S_r _ _ _ Ha), run_actions_app, Hk).
  rewrite <- (take_drop (S k) section), run_actions_app, Es in E. rewrite Es. cbn [run_actions] in E |- *.
  destruct (a l' c') as [[l''|] c'']; [eauto|done].
Qed.

Lemma count_snoc i j log : count i (log ++ [j]) = count i log + (if decide (j = i) then 1 else 0).
Proof. unfold count. rewrite filter_app, length_app. cbn. by destruct (decide (j = i)). Qed.

Definition only_in (i : nat) (ts : list (thread L)) : Prop := forall j t, ts !! j = Some t -> j <> i -> ~ in_section t.

(** Thread [i] changes, the finished sections stay the same. *)
Lemma serialized_update l0 c0 w log ls c i t t' sh now :
  serialized section N exit_code n l0 c0 w log ls c -> w_threads w !! i = Some t -> only_in i (w_threads w) \/ now = w_client w ->
  (forall l, ls !! i = Some l -> consistent section exit_code l c t (w_client w) -> consistent section exit_code l c t' now) ->
  finished N t' = finished N t -> (bounded N t -> bounded N t') -> (in_section t' \/ (~ in_section t /\ now = w_client w)) ->
  serialized section N exit_code n l0 c0 (mkWorld sh now (<[i := t']> (w_threads w))) log ls c.
Proof.
  intros [Hr Hl Ht Hc Hq] Hi Hoth Hcons Hfin Hbd Hq'. split; cbn [w_threads w_client]; [done|done|by rewrite length_insert| |].
  - intros j u. destruct (decide (i = j)) as [<-|Hne].
    + rewrite list_lookup_insert_eq by (by eapply lookup_lt_Some). intros [= <-]. destruct (Hc i t Hi) as (l & Hls & Hco & Hf & Hf').
      exists l. rewrite Hfin. auto.
    + rewrite list_lookup_insert_ne by done. intros Hu. destruct (Hc j u Hu) as (l & Hls & Hco & Hf). exists l.
      destruct Hf as [Hf1 Hf2]. split_and!; [done| |done|done]. destruct Hoth as [Hoth| ->]; [|done]. specialize (Hoth j u Hu ltac:(done)).
      revert Hco Hoth. unfold consistent, in_section. destruct (t_pc u); naive_solver.
  - intros Hno. assert (~ in_section t') as Hn.
    { apply (Hno i). apply list_lookup_insert_eq. by eapply lookup_lt_Some. }
    destruct Hq' as [?|[Ht' ->]]; [done|]. apply Hq. intros j u Hu. destruct (decide (i = j)) as [<-|Hne]; [by simplify_eq|].
    apply (Hno j). by rewrite list_lookup_insert_ne.
Qed.

Definition winv (l0 : L) (c0 : C) (w : world C L) : Prop :=
  lock_inv (n := n) (w_lock w) (phase_of <$> w_threads w) /\ exists log ls c, serialized section N exit_code n l0 c0 w log ls c /\ good c.

Lemma holder_alone sh ts i : lock_inv (n := n) sh (phase_of <$> ts) -> (phase_of <$> ts) !! i = Some Holding ->
  only_in i ts.
Proof.
  intros Hinv Hi j t Ht Hne Hin. destruct Hne. eapply inv_exclusive; [done| |done]. rewrite list_lookup_fmap, Ht. cbn. f_equal.
  revert Hin. unfold in_section, phase_of. by destruct (t_pc t).
Qed.

(** The phase of the thread that steps. *)
Lemma phases_insert (ts : list (thread L)) i t : phase_of <$> <[i := t]> ts = <[i := phase_of t]> (phase_of <$> ts).
Proof. apply list_fmap_insert. Qed.

Lemma winv_start l0 c0 w i iter l : w_threads w !! i = Some (mkThread (Start iter) l) -> winv l0 c0 w -> winv l0 c0 (step w i).
Proof.
  intros Hi (Hinv & log & ls & c & Hz & Hg). unfold UserLocks.step. rewrite Hi. unfold thread_step. cbn [t_pc t_local].
  assert (Hph : (phase_of <$> w_threads w) !! i = Some Outside) by (by rewrite list_lookup_fmap, Hi).
  destruct (z_thread _ _ _ _ _ _ _ _ _ _ Hz i _ Hi) as (l' & Hl' & Hco & Hf & Hle). cbn in Hco, Hf, Hle.
  destruct (decide (iter < N)) as [Hlt|Hge].
  - split; [cbn; rewrite phases_insert; by apply inv_start|]. exists log, ls, c. split; [|done].
    eapply serialized_update; [done|exact Hi|by right| |done|done|right; split; [by intros []|done]]. by intros ? _ ?.
  - split; cbn [w_lock w_threads]. { rewrite phases_insert. cbn. by rewrite list_insert_id. }
    exists log, ls, c. split; [|done]. eapply serialized_update; [done|exact Hi|by right| | |done|right; split; [by intros []|done]].
    + cbn. intros ? _ ->. done.
    + cbn. lia.
Qed.

Lemma winv_enter l0 c0 w i iter p l : w_threads w !! i = Some (mkThread (Enter iter p) l) -> winv l0 c0 w -> winv l0 c0 (step w i).
Proof.
  intros Hi (Hinv & log & ls & c & Hz & Hg). unfold UserLocks.step. rewrite Hi. unfold thread_step. cbn [t_pc t_local].
  destruct (lock_step i p (w_lock w)) as [o sh'] eqn:E.
  assert (Hph : (phase_of <$> w_threads w) !! i = Some (Entering p)) by (by rewrite list_lookup_fmap, Hi).
  pose proof (inv_enter _ _ _ _ _ _ Hinv Hph E) as Hinv'. pose proof (lookup_lt_Some _ _ _ Hi) as Hlt.
  split; [cbn; rewrite phases_insert; by destruct o|]. exists log, ls, c. split; [|done].
  destruct o as [p'|]; (eapply serialized_update; [done|exact Hi|by right| |done|done|]); cbn; [by intros ? _ ?|right; split; [by intros []|done]| |by left].
  intros l' _ ->. rewrite take_0. cbn. f_equal. f_equal. symmetry. apply (z_quiet _ _ _ _ _ _ _ _ _ _ Hz).
  intros j t Hj. destruct (decide (i = j)) as [<-|Hne]; [by simplify_eq; cbn; tauto|].
  intros Hin. destruct Hne. eapply inv_exclusive; [exact Hinv'| |]; [by apply list_lookup_insert_eq; rewrite length_fmap|].
  rewrite list_lookup_insert_ne by (intros ->; simplify_eq; by cbn in Hin).
  rewrite list_lookup_fmap, Hj. cbn. f_equal. revert Hin. unfold in_section, phase_of. by destruct (t_pc t).
Qed.

Lemma winv_leave l0 c0 w i iter p l : w_threads w !! i = Some (mkThread (Leave iter p) l) -> winv l0 c0 w -> winv l0 c0 (step w i).
Proof.
  intros Hi (Hinv & log & ls & c & Hz & Hg). unfold UserLocks.step. rewrite Hi. unfold thread_step. cbn [t_pc t_local].
  destruct (lock_step i p (w_lock w)) as [o sh'] eqn:E.
  assert (Hph : (phase_of <$> w_threads w) !! i = Some (Leaving p)) by (by rewrite list_lookup_fmap, Hi).
  pose proof (inv_leave _ _ _ _ _ _ Hinv Hph E) as Hinv'. split; [cbn; rewrite phases_insert; by destruct o|].
  exists log, ls, c. split; [|done].
  destruct o as [p'|]; (eapply serialized_update; [done|exact Hi|by right|by intros ? _ ?|done|done|right; split; [by intros []|done]]).
Qed.

(** The last step of a section: it joins the sections that are finished. *)
Lemma serialized_finish l0 c0 w log ls c i iter k l p sh :
  serialized section N exit_code n l0 c0 w log ls c -> w_threads w !! i = Some (mkThread (Body iter k) l) ->
  only_in i (w_threads w) -> section !! k = None ->
  serialized section N exit_code n l0 c0 (mkWorld sh (w_client w) (<[i := mkThread (Leave iter p) l]> (w_threads w)))
    (log ++ [i]) (<[i := l]> ls) (w_client w).
Proof.
  intros Hz Hi Hon Hk. destruct (z_thread _ _ _ _ _ _ _ _ _ _ Hz i _ Hi) as (l' & Hl' & Hco & Hf & Hle).
  apply lookup_ge_None in Hk. cbn in Hco, Hf, Hle. rewrite take_ge in Hco by lia. destruct Hz as [Hr Hl Ht Hc Hq].
  split; cbn [w_threads w_client]; [|by rewrite length_insert|by rewrite length_insert| |done].
  - unfold serial in *. rewrite foldl_app, Hr. cbn. rewrite Hl'. cbn. by rewrite Hco.
  - intros j u. rewrite count_snoc. destruct (decide (i = j)) as [<-|Hne].
    + rewrite list_lookup_insert_eq by (by eapply lookup_lt_Some). intros [= <-]. exists l. cbn.
      rewrite list_lookup_insert_eq by (by eapply lookup_lt_Some). split_and!; [done|done|lia|lia].
    + rewrite !list_lookup_insert_ne by done. intros Hu. destruct (Hc j u Hu) as (lu & Hlu & Hcu & Hfu & Hfu').
      exists lu. rewrite Nat.add_0_r. split_and!; [done| |done|done]. specialize (Hon j u Hu ltac:(done)).
      revert Hcu Hon. unfold consistent, in_section. destruct (t_pc u); naive_solver.
Qed.

Lemma winv_body l0 c0 w i iter k l : w_threads w !! i = Some (mkThread (Body iter k) l) -> winv l0 c0 w -> winv l0 c0 (step w i).
Proof.
  intros Hi (Hinv & log & ls & c & Hz & Hg). unfold UserLocks.step. rewrite Hi. unfold thread_step. cbn [t_pc t_local].
  assert (Hph : (phase_of <$> w_threads w) !! i = Some Holding) by (by rewrite list_lookup_fmap, Hi).
  pose proof (holder_alone _ _ _ Hinv Hph) as Hon. destruct (section !! k) as [a|] eqn:Ha.
  - destruct (z_thread _ _ _ _ _ _ _ _ _ _ Hz i _ Hi) as (l' & Hl' & Hco & _). cbn in Hco.
    destruct (next_action k a l' l c (w_client w) Hg Ha Hco) as (l2 & c2 & Ea & Er). rewrite Ea.
    split; cbn [w_lock w_threads]. { rewrite phases_insert. cbn. by rewrite list_insert_id. }
    exists log, ls, c. split; [|done]. eapply serialized_update; [done|exact Hi|by left| |done|done|by left].
    intros l3 Hl3 _. cbn. by simplify_eq.
  - split; [cbn; rewrite phases_insert; by apply inv_finish|]. exists (log ++ [i]), (<[i := l]> ls), (w_client w).
    assert (Hz' := serialized_finish l0 c0 w log ls c i iter k l (leave i) (w_lock w) Hz Hi Hon Ha). split; [exact Hz'|].
    destruct (z_thread _ _ _ _ _ _ _ _ _ _ Hz i _ Hi) as (l' & Hl' & Hco & _). cbn in Hco.
    rewrite take_ge in Hco by (by apply lookup_ge_None). destruct (section_total l' c Hg) as (l2 & c2 & E & Hg2). by simplify_eq.
Qed.

Lemma winv_step l0 c0 w i : winv l0 c0 w -> winv l0 c0 (step w i).
Proof.
  intros Hw. destruct (w_threads w !! i) as [[p l]|] eqn:Hi; [|unfold UserLocks.step; by rewrite Hi].
  destruct p as [iter|iter p|iter k|iter p|code|];
    [by eapply winv_start|by eapply winv_enter|by eapply winv_body|by eapply winv_leave|..].
  all: unfold UserLocks.step; rewrite Hi; cbn; rewrite list_insert_id by done; by destruct w.
Qed.

Lemma winv_init l0 c0 : good c0 -> winv l0 c0 (init n c0 l0).
Proof.
  intros Hg. split; cbn. { rewrite fmap_replicate. apply inv_init. }
  exists [], (replicate n l0), c0. split; [|done]. split; cbn; [done|by rewrite length_replicate..| |done].
  intros i t [-> Hi]%lookup_replicate. exists l0. split_and!; [by apply lookup_replicate|done..|cbn; lia].
Qed.

Lemma winv_run l0 c0 w schedule : winv l0 c0 w -> winv l0 c0 (run w schedule).
Proof. revert w. induction schedule as [|i s IH]; intros w Hw; [done|]. cbn. by apply IH, winv_step. Qed.

End serialization.

(** ** Fair schedules finish *)

Section progress.
Context `{Lock} {C L : Type} (section : list (@action C L)) (N : nat) (exit_code : L -> Z).
Context (n : nat) `{!LockLaws n} `{!LockProgress n} (good : C -> Prop).
#[local] Abbreviation step := (step section N exit_code).
#[local] Abbreviation run := (run section N exit_code).
#[local] Abbreviation winv := (winv section N exit_code n good).
Hypothesis section_total : forall l c, good c -> exists l' c', run_actions section l c = Some (l', c') /\ good c'.

(** The steps of one round of the loop, waiting apart. *)
Definition round_steps : nat := 2 * rank_bound + length section + 3.

Definition thread_rank (t : thread L) : nat :=
  match t_pc t with
  | Start iter => (N - iter) * round_steps + 1
  | Enter iter p => (N - S iter) * round_steps + lock_rank p + length section + rank_bound + 2
  | Body iter k => (N - S iter) * round_steps + (length section - k) + rank_bound + 2
  | Leave iter p => (N - S iter) * round_steps + lock_rank p + 1
  | Done _ | Panicked => 0
  end.
Definition total_rank (w : world C L) : nat := sum_list (thread_rank <$> w_threads w).

Definition ranked (t : thread L) : Prop :=
  match t_pc t with Enter _ p | Leave _ p => 0 < lock_rank p | _ => True end.

Definition waits (t : thread L) : Prop := match t_pc t with Enter _ p => waiting p = true | _ => False end.
Definition done_ (t : thread L) : Prop := match t_pc t with Done _ => True | _ => False end.

Lemma sum_list_insert (l : list nat) i x y : l !! i = Some x -> sum_list (<[i := y]> l) + x = sum_list l + y.
Proof. revert i. induction l as [|z l IH]; intros [|i]; simpl; try done; [intros [= ->]; lia|]. intros Hi%IH. lia. Qed.

Lemma total_insert sh c (w : world C L) i t t' : w_threads w !! i = Some t ->
  total_rank (mkWorld sh c (<[i := t']> (w_threads w))) + thread_rank t = total_rank w + thread_rank t'.
Proof.
  intros Hi. unfold total_rank. cbn [w_threads]. rewrite list_fmap_insert. apply sum_list_insert. by rewrite list_lookup_fmap, Hi.
Qed.

(** A step of a thread lowers its rank, is a round of a waiting loop, or does nothing
    because the thread has exited. *)
Lemma thread_step_rank l0 c0 w i t t' sh c :
  winv l0 c0 w -> w_threads w !! i = Some t -> i < n -> ranked t -> thread_step section N exit_code i t (w_lock w) (w_client w) = (t', sh, c) ->
  ranked t' /\ (thread_rank t' < thread_rank t \/
    (exists iter p p', t_pc t = Enter iter p /\ t' = mkThread (Enter iter p') (t_local t) /\ waiting p = true /\ waiting p' = true /\
      thread_rank t' = thread_rank t /\ lock_step i p (w_lock w) = (Some p', w_lock w) /\ sh = w_lock w /\ c = w_client w) \/
    (done_ t /\ t' = t /\ sh = w_lock w /\ c = w_client w)).
Proof.
  intros (Hinv & log & ls & c1 & Hz & Hg) Hi Hn Hr. destruct (z_thread _ _ _ _ _ _ _ _ _ _ Hz i _ Hi) as (l' & Hl' & Hco & _ & Hbd).
  pose proof (rank_enter i Hn) as HE. pose proof (rank_leave i Hn) as HL. assert (HW : round_steps = 2 * rank_bound + length section + 3) by done.
  destruct t as [p l]. unfold thread_step. cbn [t_pc t_local].
  destruct p as [iter|iter p|iter k|iter p|code|]; unfold thread_rank, ranked; cbn [t_pc] in *; unfold bounded in Hbd; cbn [t_pc] in Hbd.
  - destruct (decide (iter < N)); intros [= <- <- <-]; cbn [t_pc].
    + split; [lia|left]. replace (N - iter) with (S (N - S iter)) by lia. rewrite Nat.mul_succ_l. lia.
    + split; [done|left]. lia.
  - destruct (lock_step i p (w_lock w)) as [[p'|] sh'] eqn:E; intros [= <- <- <-]; cbn [t_pc].
    + destruct (rank_step _ _ _ _ _ E) as [Hlt|(Hw & Hw' & Heq & ->)]; [split; [lia|left; lia]|].
      unfold ranked in Hr. cbn in Hr. split; [lia|]. right. left. exists iter, p, p'. rewrite Heq. split_and!; done.
    + unfold ranked in Hr. cbn in Hr. split; [done|left]. lia.
  - destruct (section !! k) as [a|] eqn:Ha.
    + destruct (next_action section good section_total k a l' l c1 (w_client w) Hg Ha Hco) as (l2 & c2 & Ea & _). rewrite Ea.
      intros [= <- <- <-]. cbn [t_pc]. split; [done|left]. assert (k < length section) by (by eapply lookup_lt_Some). lia.
    + intros [= <- <- <-]. cbn [t_pc]. split; [lia|left]. lia.
  - destruct (lock_step i p (w_lock w)) as [[p'|] sh'] eqn:E; intros [= <- <- <-]; cbn [t_pc].
    + destruct (rank_step _ _ _ _ _ E) as [Hlt|(Hw & _)]; [split; [lia|left; lia]|].
      rewrite (leaving_never_waits _ _ i p Hinv) in Hw; [done|]. by rewrite list_lookup_fmap, Hi.
    + unfold ranked in Hr. cbn in Hr. split; [done|left]. lia.
  - intros [= <- <- <-]. cbn. split; [done|]. right. right. done.
  - done.
Qed.

Definition all_ranked (w : world C L) : Prop := forall i t, w_threads w !! i = Some t -> ranked t.

Lemma step_rank l0 c0 w i t : winv l0 c0 w -> all_ranked w -> w_threads w !! i = Some t ->
  all_ranked (step w i) /\ (total_rank (step w i) < total_rank w \/
    (exists iter p p', t_pc t = Enter iter p /\ waiting p = true /\ waiting p' = true /\ lock_step i p (w_lock w) = (Some p', w_lock w) /\
      total_rank (step w i) = total_rank w /\
      step w i = mkWorld (w_lock w) (w_client w) (<[i := mkThread (Enter iter p') (t_local t)]> (w_threads w))) \/
    (done_ t /\ step w i = w)).
Proof.
  intros Hw Hr Hi. pose proof Hw as (_ & log & ls & c1 & Hz & _). pose proof (z_threads _ _ _ _ _ _ _ _ _ _ Hz) as Hlen.
  pose proof (lookup_lt_Some _ _ _ Hi) as Hlt. unfold UserLocks.step. rewrite Hi.
  destruct (thread_step section N exit_code i t (w_lock w) (w_client w)) as [[t' sh] c] eqn:E.
  destruct (thread_step_rank _ _ _ _ _ _ _ _ Hw Hi ltac:(lia) (Hr i t Hi) E) as [Hr' Hcase].
  pose proof (total_insert sh c w i t t' Hi) as Htot. split.
  - intros j u. cbn [w_threads]. destruct (decide (i = j)) as [<-|]; [rewrite list_lookup_insert_eq by done; by intros [= <-]|].
    rewrite list_lookup_insert_ne by done. apply Hr.
  - destruct Hcase as [?|[(iter & p & p' & H1 & -> & H2 & H3 & H4 & H5 & -> & ->)|(H1 & -> & -> & ->)]]; [left; lia| |].
    + right. left. exists iter, p, p'. split_and!; [done..|lia|done].
    + right. right. split; [done|]. rewrite list_insert_id by done. by destruct w.
Qed.

Lemma run_facts l0 c0 w s : winv l0 c0 w -> all_ranked w -> all_ranked (run w s) /\ total_rank (run w s) <= total_rank w.
Proof.
  revert w. induction s as [|i s IH]; intros w Hw Hr; [done|]. change (run w (i :: s)) with (run (step w i) s).
  pose proof (winv_step section N exit_code n good section_total l0 c0 w i Hw) as Hw'.
  destruct (w_threads w !! i) as [t|] eqn:Hi.
  - destruct (step_rank _ _ _ _ _ Hw Hr Hi) as [Hr' Hc]. destruct (IH _ Hw' Hr') as [H1 H2]. split; [done|].
    destruct Hc as [?|[(? & ? & ? & _ & _ & _ & _ & ? & _)|[_ E]]]; [lia|lia|]. rewrite E in H2 |- *. done.
  - assert (E : step w i = w) by (unfold UserLocks.step; by rewrite Hi). rewrite E. by apply IH.
Qed.

(** When a stretch of the schedule makes no progress, the threads that ran have exited or
    wait, and none of them would have come through. *)
Lemma no_progress l0 c0 w s : winv l0 c0 w -> all_ranked w -> total_rank (run w s) = total_rank w ->
  forall i t, w_threads w !! i = Some t ->
    (0 < count i s -> done_ t \/ waits t) /\
    (forall iter p, t_pc t = Enter iter p -> steps_through i (count i s) p (w_lock w) = false).
Proof.
  revert w. induction s as [|j s IH]; intros w Hw Hr Htot i t Hi; [split; [cbn; lia|done]|]. change (run w (j :: s)) with (run (step w j) s) in Htot.
  assert (Hcount : count i (j :: s) = (if decide (j = i) then 1 else 0) + count i s).
  { unfold count. rewrite filter_cons. by destruct (decide (j = i)). }
  pose proof (winv_step section N exit_code n good section_total l0 c0 w j Hw) as Hw'.
  destruct (w_threads w !! j) as [u|] eqn:Hj.
  - destruct (step_rank _ _ _ _ _ Hw Hr Hj) as [Hr' Hc]. pose proof (run_facts _ _ _ s Hw' Hr') as [_ Hle].
    destruct Hc as [?|[(iter & p & p' & Hpc & Hwp & Hwp' & Hls & Heq & Hst)|[Hdone Hst]]]; [lia| |].
    + pose proof (IH _ Hw' Hr' ltac:(lia)) as Hih. rewrite Hst in Hih. cbn [w_threads w_lock] in Hih. destruct (decide (j = i)) as [->|Hne].
      * specialize (Hih i (mkThread (Enter iter p') (t_local u))). rewrite list_lookup_insert_eq in Hih by (by eapply lookup_lt_Some).
        destruct (Hih eq_refl) as [_ Hth]. simplify_eq. split; [intros _; right; unfold waits; by rewrite Hpc|].
        intros iter' q Hq. assert (q = p) as -> by congruence. rewrite Hcount. cbn. rewrite Hls. cbn. by apply (Hth iter).
      * rewrite Hcount. apply Hih. by rewrite list_lookup_insert_ne.
    + rewrite Hst in *. destruct (IH w Hw Hr Htot i t Hi) as [H1 H2]. rewrite Hcount. destruct (decide (j = i)) as [->|Hne]; [|by split].
      simplify_eq. split; [by left|]. intros iter p Hp. unfold done_ in Hdone. by rewrite Hp in Hdone.
  - assert (E : step w j = w) by (unfold UserLocks.step; by rewrite Hj). rewrite E in *. rewrite Hcount.
    rewrite decide_False by (intros ->; congruence). by apply IH.
Qed.

(** Every thread runs at least [patience] steps in [s]. *)
Definition fair (s : list nat) : Prop := forall i, i < n -> patience <= count i s.

Lemma steps_through_mono i k k' p sh : k <= k' -> steps_through i k p sh = true -> steps_through i k' p sh = true.
Proof.
  revert k' p. induction k as [|k IH]; intros k' p Hk; [done|]. destruct k' as [|k']; [lia|]. cbn.
  destruct (lock_step i p sh).1 as [p'|]; [|done]. apply IH. lia.
Qed.

Lemma fair_progress l0 c0 w s : winv l0 c0 w -> all_ranked w -> fair s ->
  (forall i t, w_threads w !! i = Some t -> done_ t) \/ total_rank (run w s) < total_rank w.
Proof.
  intros Hw Hr Hf. destruct (run_facts _ _ _ s Hw Hr) as [_ Hle]. destruct (decide (total_rank (run w s) = total_rank w)) as [Heq|]; [|right; lia].
  left. pose proof (no_progress _ _ _ _ Hw Hr Heq) as Hno. pose proof patience_pos as Hpp. pose proof Hw as (Hinv & log & ls & c1 & Hz & _).
  pose proof (z_threads _ _ _ _ _ _ _ _ _ _ Hz) as Hlen.
  assert (Hall : forall i t, w_threads w !! i = Some t -> done_ t \/ waits t).
  { intros i t Hi. apply (Hno i t Hi). specialize (Hf i). apply lookup_lt_Some in Hi. lia. }
  intros i t Hi. destruct (Hall i t Hi) as [?|Hwt]; [done|]. exfalso.
  destruct (somebody_comes_through (w_lock w) (phase_of <$> w_threads w) Hinv) as (j & p & Hj & Hth).
  - intros k ph. rewrite list_lookup_fmap. intros (u & Hu & ->)%fmap_Some. specialize (Hall k u Hu). revert Hall.
    unfold done_, waits, phase_of. destruct (t_pc u); naive_solver.
  - revert Hwt. unfold waits. destruct (t_pc t) as [|iter p| | | |] eqn:Hpc; try done. intros _. exists i, p.
    rewrite list_lookup_fmap, Hi. cbn. unfold phase_of. by rewrite Hpc.
  - rewrite list_lookup_fmap in Hj. apply fmap_Some in Hj as (u & Hu & Hph). revert Hph. unfold phase_of.
    destruct (t_pc u) as [|iter p'| | | |] eqn:Hpc; try done. intros [= <-]. destruct (Hno j u Hu) as [_ Hfalse].
    specialize (Hfalse iter p Hpc). rewrite (steps_through_mono j patience _ p (w_lock w)) in Hfalse; [done| |done].
    apply Hf. apply lookup_lt_Some in Hu. lia.
Qed.

Lemma done_run l0 c0 w s : winv l0 c0 w -> (forall i t, w_threads w !! i = Some t -> done_ t) -> run w s = w.
Proof.
  intros Hw Hd. induction s as [|i s IH]; [done|]. change (run w (i :: s)) with (run (step w i) s). assert (E : step w i = w); [|by rewrite E].
  unfold UserLocks.step. destruct (w_threads w !! i) as [[p l]|] eqn:Hi; [|done]. specialize (Hd i _ Hi). destruct p; try done.
  cbn. rewrite list_insert_id by done. by destruct w.
Qed.

Lemma rank_zero l0 c0 w : winv l0 c0 w -> total_rank w = 0 -> forall i t, w_threads w !! i = Some t -> done_ t.
Proof.
  intros (_ & log & ls & c1 & Hz & _) Htot i t Hi. pose proof (total_insert (w_lock w) (w_client w) w i t t Hi) as Ht.
  destruct (z_thread _ _ _ _ _ _ _ _ _ _ Hz i t Hi) as (l & _ & Hco & _).
  assert (Hle : thread_rank t <= total_rank w).
  { unfold total_rank. apply (sum_list_with_in (thread_rank t) id). apply list_elem_of_fmap. exists t. split; [done|]. by eapply list_elem_of_lookup_2. }
  revert Hco Hle. rewrite Htot. unfold done_, thread_rank, consistent. destruct (t_pc t); intros Hc Hle; first [exact I|by destruct Hc|nia].
Qed.

Lemma fair_finish l0 c0 w chunks : winv l0 c0 w -> all_ranked w -> Forall fair chunks -> total_rank w <= length chunks ->
  forall i t, w_threads (run w (concat chunks)) !! i = Some t -> done_ t.
Proof.
  intros Hw Hr Hf. revert w Hw Hr. induction Hf as [|s chunks Hs Hf IH]; intros w Hw Hr Htot i t.
  - cbn in Htot. apply (rank_zero _ _ _ Hw). lia.
  - unfold UserLocks.run. rewrite concat_cons, foldl_app. fold (run w s). fold (run (run w s) (concat chunks)).
    pose proof (winv_run section N exit_code n good section_total l0 c0 w s Hw) as Hw'.
    destruct (run_facts _ _ _ s Hw Hr) as [Hr' Hle]. destruct (fair_progress _ _ _ s Hw Hr Hs) as [Hd|Hlt].
    + rewrite !(done_run l0 c0 _ _ Hw Hd). apply Hd.
    + apply (IH _ Hw' Hr'). cbn in Htot. lia.
Qed.

Lemma init_rank c0 l0 : total_rank (init n c0 l0) = n * (N * round_steps + 1) /\ all_ranked (init n c0 l0).
Proof.
  split.
  - unfold total_rank, init. cbn [w_threads]. rewrite fmap_replicate, sum_list_replicate. cbn. rewrite Nat.sub_0_r. lia.
  - intros i t [-> _]%lookup_replicate. done.
Qed.
End progress.
