(* ===== verification/UserPrograms.v ===== *)
(** The user programs with locks of their own: peterson.rs, eisenberg.rs and the adders
    (user/src/bin), as instances of [UserLocks].

    An access to a static is one step.  The compiler may not move accesses over the volatile
    ones or over the fences, and the stores before a fence are taken in program order. *)

From S2P Require Import Prelude UserLocks.

#[local] Open Scope nat_scope.

(** ** Peterson's algorithm: peterson.rs, adder_peterson_spin.rs, adder_peterson_yield.rs *)

Module Peterson.
Record vars := mkVars { FLAG : list bool; TURN : nat }.

Inductive at_ :=
| SetFlag          (* vstore!(FLAG[id], true) *)
| SetTurn          (* vstore!(TURN, peer_id) *)
| TestFlag         (* vload!(FLAG[peer_id]) *)
| TestTurn         (* vload!(TURN) == peer_id, then [sleep], [yield_] or nothing *)
| ClearFlag.       (* vstore!(FLAG[id], false) *)

(** [id ^ 1]; the adders write [1 - id], the same for the ids 0 and 1. *)
Definition peer (id : nat) : nat := Nat.lxor id 1.

Definition peterson_step (id : nat) (p : at_) (v : vars) : option at_ * vars :=
  match p with
  | SetFlag => (Some SetTurn, mkVars (<[id := true]> (FLAG v)) (TURN v))
  | SetTurn => (Some TestFlag, mkVars (FLAG v) (peer id))
  | TestFlag => (if default false (FLAG v !! peer id) then Some TestTurn else None, v)
  | TestTurn => (if TURN v =? peer id then Some TestFlag else None, v)
  | ClearFlag => (None, mkVars (<[id := false]> (FLAG v)) (TURN v))
  end.

#[export] Instance lock : Lock := {|
  shared := vars;
  lpc := at_;
  lock_init := mkVars [false; false] 0;
  enter := fun _ => SetFlag;
  leave := fun _ => ClearFlag;
  lock_step := peterson_step;
|}.

(** The invariant for two threads. *)
Definition flag (ph : phase) : bool := match ph with Outside => false | Entering SetFlag => false | _ => true end.
Definition trying (ph : phase) : bool := match ph with Entering (TestFlag | TestTurn) => true | _ => false end.
Definition inside (ph : phase) : bool := match ph with Holding | Leaving _ => true | _ => false end.
Definition proper (ph : phase) : bool :=
  match ph with Entering ClearFlag => false | Leaving ClearFlag => true | Leaving _ => false | _ => true end.

Definition pair_ok (a b : phase) (turn : bool) : bool :=
  proper a && proper b && implb (inside a && trying b) (negb turn) && implb (inside b && trying a) turn && negb (inside a && inside b).

Definition peterson_inv (v : vars) (phs : list phase) : Prop :=
  exists a b turn, phs = [a; b] /\ v = mkVars [flag a; flag b] (Nat.b2n turn) /\ pair_ok a b turn = true.

(** Any two phases and any turn. *)
Ltac peterson_cases i :=
  match goal with H : peterson_inv _ _ |- _ => destruct H as (? & ? & ? & -> & -> & ?) end;
  destruct i as [|[|i]]; simplify_eq/=;
  repeat match goal with p : at_ |- _ => destruct p | ph : phase |- _ => destruct ph as [|[]| |[]] | t : bool |- _ => destruct t end;
  try discriminate; simplify_eq/=.
Ltac peterson_state := first [by eexists _, _, false|by eexists _, _, true].

#[global] Instance laws : LockLaws 2.
Proof.
  refine {| lock_inv := peterson_inv |}.
  - by exists Outside, Outside, false.
  - intros sh phs i Hinv Hi. peterson_cases i; peterson_state.
  - intros sh phs i p o sh' Hinv Hi E. peterson_cases i; peterson_state.
  - intros sh phs i Hinv Hi. peterson_cases i; peterson_state.
  - intros sh phs i p o sh' Hinv Hi E. peterson_cases i; peterson_state.
  - intros sh phs i j Hinv Hi Hj. peterson_cases i; destruct j as [|[|j]]; by simplify_eq/=.
Defined.

Definition peterson_rank (p : at_) : nat := match p with SetFlag => 3 | SetTurn => 2 | _ => 1 end.

#[global] Instance progress : LockProgress 2.
Proof.
  refine {| waiting := fun p => match p with TestFlag | TestTurn => true | _ => false end; lock_rank := peterson_rank;
            rank_bound := 3; patience := 2 |}; cbn; try lia.
  - intros i p sh p' sh' E. destruct p; cbn in E; repeat case_match; simplify_eq/=; auto with lia.
  - intros sh phs i p Hinv Hi. peterson_cases i; done.
  - intros sh phs (a & b & turn & -> & -> & Hok) Hall [i [p Hi]].
    pose proof (Hall 0 a eq_refl) as Ha. pose proof (Hall 1 b eq_refl) as Hb. clear Hall.
    destruct Ha as [->|(pa & -> & Hpa)], Hb as [->|(pb & -> & Hpb)]; try (by destruct i as [|[|]]).
    + exists 1, pb. by destruct pb, turn.
    + exists 0, pa. by destruct pa, turn.
    + destruct turn; [exists 1, pb|exists 0, pa]; by destruct pa, pb.
Defined.
End Peterson.

(** ** Compare-and-exchange: adder_atomic.rs *)

Module Atomic.
Inductive at_ :=
| CompareExchange      (* OCCUPIED.compare_exchange(false, true), then [yield_] when it fails *)
| Release.             (* OCCUPIED.store(false) *)

Definition atomic_step (id : nat) (p : at_) (OCCUPIED : bool) : option at_ * bool :=
  match p with
  | CompareExchange => if OCCUPIED then (Some CompareExchange, OCCUPIED) else (None, true)
  | Release => (None, false)
  end.

#[export] Instance lock : Lock := {|
  shared := bool;
  lpc := at_;
  lock_init := false;
  enter := fun _ => CompareExchange;
  leave := fun _ => Release;
  lock_step := atomic_step;
|}.

Definition inside (ph : phase) : bool := match ph with Holding | Leaving _ => true | _ => false end.
Definition proper (ph : phase) : bool := match ph with Entering Release | Leaving CompareExchange => false | _ => true end.

(** [OCCUPIED] is set exactly when a thread is inside, and only one is. *)
Record atomic_inv (occupied : bool) (phs : list phase) : Prop := {
  a_proper i ph : phs !! i = Some ph -> proper ph = true;
  a_set i ph : phs !! i = Some ph -> inside ph = true -> occupied = true;
  a_one i j ph ph' : phs !! i = Some ph -> phs !! j = Some ph' -> inside ph = true -> inside ph' = true -> i = j;
  a_free : occupied = true -> exists i ph, phs !! i = Some ph /\ inside ph = true;
}.

Lemma atomic_inv_insert occupied occupied' phs i ph ph' :
  atomic_inv occupied phs -> phs !! i = Some ph -> proper ph' = true ->
  (inside ph = inside ph' /\ occupied' = occupied \/
   inside ph = false /\ inside ph' = true /\ occupied = false /\ occupied' = true \/
   inside ph = true /\ inside ph' = false /\ occupied' = false) ->
  atomic_inv occupied' (<[i := ph']> phs).
Proof.
  intros [Hp Hs Ho Hf] Hi Hp' Hcase. pose proof (lookup_lt_Some _ _ _ Hi) as Hlt.
  assert (Hcases : forall j x, <[i := ph']> phs !! j = Some x -> j = i /\ x = ph' \/ j <> i /\ phs !! j = Some x).
  { intros j x Hj. apply list_lookup_insert_Some in Hj. naive_solver. }
  split.
  - intros j x Hj. destruct (Hcases j x Hj) as [[-> ->]|[_ Hx]]; [done|]. by eapply Hp.
  - intros j x Hj Hin. destruct (Hcases j x Hj) as [[-> ->]|[Hne Hx]]; [naive_solver|].
    destruct Hcase as [[_ ->]|[(_ & _ & _ & ->)|(Hi1 & _)]]; [by eapply Hs|done|]. destruct Hne. by eapply Ho.
  - intros j k x y Hj Hk Hx Hy. destruct (Hcases j x Hj) as [[-> ->]|[Hne Hj']], (Hcases k y Hk) as [[-> ->]|[Hne' Hk']];
      [done| | |by eapply Ho].
    + destruct Hcase as [[E _]|[(_ & _ & Hoc & _)|(_ & Hf' & _)]]; [eapply Ho; [exact Hi|done|congruence|done]| |congruence].
      rewrite (Hs k y Hk' Hy) in Hoc. done.
    + destruct Hcase as [[E _]|[(_ & _ & Hoc & _)|(_ & Hf' & _)]]; [eapply Ho; [done|exact Hi|done|congruence]| |congruence].
      rewrite (Hs j x Hj' Hx) in Hoc. done.
  - intros Hoc. destruct Hcase as [[E ->]|[(_ & Hin & _)|(_ & _ & ->)]]; [| |done].
    + destruct (Hf Hoc) as (j & x & Hj & Hx). destruct (decide (j = i)) as [->|Hne].
      * exists i, ph'. rewrite list_lookup_insert_eq by done. split; [done|]. congruence.
      * exists j, x. by rewrite list_lookup_insert_ne.
    + exists i, ph'. by rewrite list_lookup_insert_eq.
Qed.

#[global] Instance laws n : LockLaws n.
Proof.
  refine {| lock_inv := atomic_inv |}.
  - split; [| | |done]; intros i; try (intros j); intros; repeat match goal with H : replicate _ _ !! _ = Some _ |- _ =>
      apply lookup_replicate in H as [-> _] end; done.
  - intros sh phs i Hinv Hi. eapply atomic_inv_insert; [done..|]. by left.
  - intros sh phs i p o sh' Hinv Hi E. pose proof (a_proper _ _ Hinv _ _ Hi) as Hp. destruct p; [|done].
    cbn in E. destruct sh; simplify_eq/=; (eapply atomic_inv_insert; [done..|]); cbn; auto 10.
  - intros sh phs i Hinv Hi. eapply atomic_inv_insert; [done..|]. by left.
  - intros sh phs i p o sh' Hinv Hi E. pose proof (a_proper _ _ Hinv _ _ Hi) as Hp. destruct p; [done|].
    cbn in E. simplify_eq/=. eapply atomic_inv_insert; [done..|]. auto.
  - intros sh phs i j Hinv Hi Hj. by eapply a_one.
Defined.

#[global] Instance progress n : LockProgress n.
Proof.
  refine {| waiting := fun p => match p with CompareExchange => true | Release => false end; lock_rank := fun _ => 1;
            rank_bound := 1; patience := 1 |}; try (intros; lia).
  - intros i p sh p' sh' E. destruct p, sh; simplify_eq/=; auto.
  - intros sh phs i p Hinv Hi. pose proof (a_proper _ _ Hinv _ _ Hi) as Hp. by destruct p.
  - intros sh phs Hinv Hall (i & p & Hi). exists i, p. split; [done|]. pose proof (a_proper _ _ Hinv _ _ Hi) as Hp.
    destruct p; [|done]. destruct sh; [|done]. destruct (a_free _ _ Hinv eq_refl) as (j & ph & Hj & Hin).
    destruct (Hall j ph Hj) as [->|(q & -> & _)]; done.
Defined.
End Atomic.

(** ** Test, then set: adder_simple_spin.rs, adder_simple_yield.rs *)

Module Simple.
Inductive at_ :=
| Test                 (* while vload!(OCCUPIED) {} *)
| Occupy               (* OCCUPIED = true *)
| Release.             (* OCCUPIED = false *)

Definition simple_step (id : nat) (p : at_) (OCCUPIED : bool) : option at_ * bool :=
  match p with
  | Test => (Some (if OCCUPIED then Test else Occupy), OCCUPIED)
  | Occupy => (None, true)
  | Release => (None, false)
  end.

#[export] Instance lock : Lock := {|
  shared := bool;
  lpc := at_;
  lock_init := false;
  enter := fun _ => Test;
  leave := fun _ => Release;
  lock_step := simple_step;
|}.
End Simple.

(** ** The algorithm of Eisenberg and McGuire: eisenberg.rs *)

Module Eisenberg.
Inductive FlagState := Out | Want | In.
#[export] Instance FlagState_eq_dec : EqDecision FlagState.
Proof. solve_decision. Defined.

Record vars := mkVars { FLAG : list FlagState; TURN : nat }.

Inductive at_ :=
| SetWant                             (* vstore!(FLAG[id], Want) *)
| LoadTurn                            (* let turn = vload!(TURN) *)
| Scan (i ring_id : nat)              (* for i in turn..ring_id *)
| SetIn                               (* vstore!(FLAG[id], In) *)
| Check (i : nat) (conflict : bool)   (* for i in 0..THREAD_NUM *)
| Claim                               (* vstore!(TURN, id) *)
| FindNext (i : nat)                  (* for i in (id + 1)..ring_id *)
| GiveTurn (next : nat)               (* vstore!(TURN, next) *)
| SetOut.                             (* vstore!(FLAG[id], Out) *)

Section eisenberg.
Context (THREAD_NUM : nat).

Definition flag_at (v : vars) (i : nat) : FlagState := default Out (FLAG v !! i).
Definition set_flag (v : vars) (i : nat) (f : FlagState) : vars := mkVars (<[i := f]> (FLAG v)) (TURN v).

Definition eisenberg_step (id : nat) (p : at_) (v : vars) : option at_ * vars :=
  match p with
  | SetWant => (Some LoadTurn, set_flag v id Want)
  | LoadTurn =>
      let turn := TURN v in
      let ring_id := if id <? turn then id + THREAD_NUM else id in
      (Some (Scan turn ring_id), v)
  | Scan i ring_id =>
      if i <? ring_id then
        if decide (flag_at v (i mod THREAD_NUM) = Out) then (Some (Scan (S i) ring_id), v)
        else (Some LoadTurn, v)                          (* sleep and retry *)
      else (Some SetIn, v)
  | SetIn => (Some (Check 0 false), set_flag v id In)
  | Check i conflict =>
      if i <? THREAD_NUM then
        (Some (Check (S i) (if negb (i =? id) && bool_decide (flag_at v i = In) then true else conflict)), v)
      else (Some (if conflict then SetWant else Claim), v)
  | Claim => (None, mkVars (FLAG v) id)
  | FindNext i =>
      if i <? id + THREAD_NUM then
        if decide (flag_at v (i mod THREAD_NUM) = Want) then (Some (GiveTurn (i mod THREAD_NUM)), v)
        else (Some (FindNext (S i)), v)
      else (Some (GiveTurn id), v)
  | GiveTurn next => (Some SetOut, mkVars (FLAG v) next)
  | SetOut => (None, set_flag v id Out)
  end.

#[export] Instance lock : Lock := {|
  shared := vars;
  lpc := at_;
  lock_init := mkVars (replicate THREAD_NUM Out) 0;
  enter := fun _ => SetWant;
  leave := fun id => FindNext (S id);
  lock_step := eisenberg_step;
|}.

(** Thread [i] has seen that [j] is not [In] since it has set its own flag to [In]. *)
Definition passed (ph : phase) (j : nat) : bool :=
  match ph with
  | Entering (Check k false) => j <? k
  | Entering Claim | Holding | Leaving _ => true
  | _ => false
  end.
Definition claims (ph : phase) : bool :=
  match ph with Entering (Check _ _ | Claim) | Holding | Leaving _ => true | _ => false end.
Definition proper (ph : phase) : bool :=
  match ph with
  | Entering (FindNext _ | GiveTurn _ | SetOut) => false
  | Leaving (FindNext _ | GiveTurn _ | SetOut) => true
  | Leaving _ => false
  | _ => true
  end.

Record eisenberg_inv (v : vars) (phs : list phase) : Prop := {
  e_length : length phs = THREAD_NUM;
  e_flags : length (FLAG v) = THREAD_NUM;
  e_proper i ph : phs !! i = Some ph -> proper ph = true;
  e_in i ph : phs !! i = Some ph -> claims ph = true -> flag_at v i = In;
  e_pair i j a b : phs !! i = Some a -> phs !! j = Some b -> i <> j -> passed a j = true -> passed b i = true -> False;
}.

Lemma passed_claims ph j : passed ph j = true -> claims ph = true.
Proof. by destruct ph as [|[| | | |? []| | | |]| |[]]. Qed.

Lemma flag_at_set v i j f : i < length (FLAG v) -> flag_at (set_flag v i f) j = if decide (i = j) then f else flag_at v j.
Proof.
  intros Hi. unfold flag_at, set_flag. cbn [FLAG]. destruct (decide (i = j)) as [<-|]; [by rewrite list_lookup_insert_eq|].
  by rewrite list_lookup_insert_ne.
Qed.

(** One thread moves on; its flag may change, the others stay. *)
Lemma eisenberg_inv_insert v v' phs i ph ph' :
  eisenberg_inv v phs -> phs !! i = Some ph -> length (FLAG v') = THREAD_NUM -> proper ph' = true ->
  (forall j, j <> i -> flag_at v' j = flag_at v j) -> (claims ph' = true -> flag_at v' i = In) ->
  (forall j, j <> i -> passed ph' j = true -> passed ph j = true \/ flag_at v j <> In) ->
  eisenberg_inv v' (<[i := ph']> phs).
Proof.
  intros [Hl Hfl Hp Hin Hpair] Hi Hl' Hp' Hflag Hcl Hps.
  assert (Hcases : forall j x, <[i := ph']> phs !! j = Some x -> j = i /\ x = ph' \/ j <> i /\ phs !! j = Some x).
  { intros j x Hj. apply list_lookup_insert_Some in Hj. naive_solver. }
  assert (Hno : forall j b, j <> i -> phs !! j = Some b -> passed ph' j = true -> passed b i = true -> False).
  { intros j b Hne Hj Hp1 Hp2. destruct (Hps j Hne Hp1) as [Hp3|Hf]; [by eapply (Hpair i j)|].
    apply Hf. eapply Hin; [exact Hj|]. by eapply passed_claims. }
  split; [by rewrite length_insert|done|..].
  - intros j x Hj. destruct (Hcases j x Hj) as [[-> ->]|[_ Hx]]; [done|]. by eapply Hp.
  - intros j x Hj Hc. destruct (Hcases j x Hj) as [[-> ->]|[Hne Hx]]; [by apply Hcl|]. rewrite Hflag by done. by eapply Hin.
  - intros j k a b Hj Hk Hne Ha Hb. destruct (Hcases j a Hj) as [[-> ->]|[Hji Hj']], (Hcases k b Hk) as [[-> ->]|[Hki Hk']];
      [done|by eapply (Hno k b)|by eapply (Hno j a)|by eapply (Hpair j k)].
Qed.

(** Steps that change no flag, and steps that set the thread's own. *)
Lemma step_silent v v' phs i ph ph' :
  eisenberg_inv v phs -> phs !! i = Some ph -> FLAG v' = FLAG v -> proper ph' = true -> (claims ph' = true -> claims ph = true) ->
  (forall j, j <> i -> passed ph' j = true -> passed ph j = true \/ flag_at v j <> In) ->
  eisenberg_inv v' (<[i := ph']> phs).
Proof.
  intros Hinv Hi Hv Hp Hc Hps. assert (Hf : forall j, flag_at v' j = flag_at v j) by (intros j; unfold flag_at; by rewrite Hv).
  eapply eisenberg_inv_insert; [exact Hinv|exact Hi| |done|by intros j _|intros Hc2; rewrite Hf|done].
  - rewrite Hv. apply Hinv.
  - apply (e_in _ _ Hinv _ _ Hi). by apply Hc.
Qed.

Lemma step_flag v phs i ph ph' f :
  eisenberg_inv v phs -> phs !! i = Some ph -> proper ph' = true -> (claims ph' = true -> f = In) ->
  (forall j, passed ph' j = true -> passed ph j = true) ->
  eisenberg_inv (set_flag v i f) (<[i := ph']> phs).
Proof.
  intros Hinv Hi Hp Hc Hps. pose proof (lookup_lt_Some _ _ _ Hi) as Hlt. pose proof (e_length _ _ Hinv). pose proof (e_flags _ _ Hinv).
  eapply eisenberg_inv_insert; [exact Hinv|exact Hi|cbn; by rewrite length_insert|done|..].
  - intros j Hj. rewrite flag_at_set by lia. by rewrite decide_False.
  - intros Hc2. rewrite flag_at_set by lia. rewrite decide_True by done. by apply Hc.
  - intros j _ Hj. left. by apply Hps.
Qed.

Lemma enter_inv v phs i p o v' : eisenberg_inv v phs -> phs !! i = Some (Entering p) -> eisenberg_step i p v = (o, v') ->
  eisenberg_inv v' (<[i := entered o]> phs).
Proof.
  intros Hinv Hi E. pose proof (e_proper _ _ Hinv _ _ Hi) as Hp. pose proof (lookup_lt_Some _ _ _ Hi) as Hlt.
  rewrite (e_length _ _ Hinv) in Hlt. destruct p as [| |k ring| |k conflict| | | |]; try done; cbn [eisenberg_step] in E.
  - simplify_eq/=. by eapply step_flag.
  - simplify_eq/=. by eapply step_silent.
  - repeat case_match; simplify_eq/=; by eapply step_silent.
  - simplify_eq/=. by eapply step_flag.
  - destruct (Nat.ltb_spec k THREAD_NUM); simplify_eq/=.
    + eapply step_silent; [done..|]. intros j Hj. cbn [entered passed]. case_bool_decide as Hin.
      * destruct (Nat.eqb_spec k i); cbn [negb andb]; [|done]. destruct conflict; [done|]. rewrite !Nat.ltb_lt. intros. left. lia.
      * rewrite andb_false_r. destruct conflict; [done|]. rewrite !Nat.ltb_lt. intros. destruct (decide (j = k)) as [->|]; [by right|left; lia].
    + eapply step_silent; [done|done|done|by destruct conflict|by destruct conflict|]. destruct conflict; [done|]. intros j Hj _. cbn [passed].
      destruct (decide (j < THREAD_NUM)); [left; apply Nat.ltb_lt; lia|right]. unfold flag_at.
      by rewrite lookup_ge_None_2 by (rewrite (e_flags _ _ Hinv); lia).
  - simplify_eq/=. by eapply step_silent; [done..|left].
Qed.

Lemma leave_inv v phs i p o v' : eisenberg_inv v phs -> phs !! i = Some (Leaving p) -> eisenberg_step i p v = (o, v') ->
  eisenberg_inv v' (<[i := left_ o]> phs).
Proof.
  intros Hinv Hi E. pose proof (e_proper _ _ Hinv _ _ Hi) as Hp. destruct p as [| | | | | |k|next|]; try done; cbn [eisenberg_step] in E.
  - repeat case_match; simplify_eq/=; (eapply step_silent; [done..|by left]).
  - simplify_eq/=. eapply step_silent; [done..|by left].
  - simplify_eq/=. by eapply step_flag.
Qed.

#[global] Instance laws : LockLaws THREAD_NUM.
Proof.
  refine {| lock_inv := eisenberg_inv; inv_enter := enter_inv; inv_leave := leave_inv |}.
  - split; [apply length_replicate..| | |]; intros i; try (intros j); intros; repeat match goal with H : replicate _ _ !! _ = Some _ |- _ =>
      apply lookup_replicate in H as [-> _] end; done.
  - intros v phs i Hinv Hi. by eapply step_silent.
  - intros v phs i Hinv Hi. eapply step_silent; [done..|by left].
  - intros v phs i j Hinv Hi Hj. destruct (decide (i = j)) as [|Hne]; [done|]. by destruct (e_pair _ _ Hinv _ _ _ _ Hi Hj Hne).
Defined.
End eisenberg.
End Eisenberg.

(** ** The sections *)

(** peterson.rs and eisenberg.rs: [GUARD] counts the threads in the section.  [sleep] is
    only a place where others run. *)
Section test.
#[local] Open Scope Z_scope.
Definition critical_test_enter : action := fun (_ : unit) (GUARD : Z) => (if GUARD =? 0 then Some tt else None, uadd GUARD 1).
Definition critical_test_claim : action := fun (_ : unit) (GUARD : Z) => (if GUARD =? 1 then Some tt else None, GUARD).
Definition critical_test_exit : action := fun (_ : unit) (GUARD : Z) => (if GUARD =? 1 then Some tt else None, usub GUARD 1).

(** The body of [thread_fn] between entering and leaving. *)
Definition critical_test : list action :=
  [critical_test_enter; critical_test_claim; critical_test_claim; critical_test_claim; critical_test_exit].
Definition test_exit_code (_ : unit) : Z := 0.

Lemma critical_test_total l c : c = 0 -> exists l' c', run_actions critical_test l c = Some (l', c') /\ c' = 0.
Proof. intros ->. by exists tt, 0. Qed.

(** The adders: [A] is read, [t] is squared 500 times, [A] is written. *)
Record adder := mkAdder { t_ : Z; cur : Z }.
Definition square (t : Z) : Z := umul t t mod 10007.
Definition squares (t : Z) : Z := Nat.iter 500 square t.
Definition read_A : action := fun (l : adder) (A : Z) => (Some (mkAdder (t_ l) A), A).
Definition work : action := fun (l : adder) (A : Z) => (Some (mkAdder (squares (t_ l)) (cur l)), A).
Definition write_A : action := fun (l : adder) (A : Z) => (Some l, uadd (cur l) 1).
Definition critical_section : list action := [read_A; work; write_A].
Definition adder_exit_code (l : adder) : Z := as_i32 (t_ l).
Definition adder_start : adder := mkAdder 2 0.

Lemma critical_section_run l c :
  run_actions critical_section l c = Some (mkAdder (squares (t_ l)) c, uadd c 1).
Proof. done. Qed.
End test.
#[local] Opaque squares.

(** What the sections of the adders add up to. *)
Lemma serial_adds n log ls c :
  serial critical_section (replicate n adder_start) 0%Z log = Some (ls, c) ->
  c = wrap 64 (Z.of_nat (length log)) /\ Forall (fun i => i < n) log /\ length ls = n /\
  forall i l, ls !! i = Some l -> t_ l = Nat.iter (count i log) squares 2%Z.
Proof.
  revert ls c. induction log as [|j log IH] using rev_ind; intros ls c; unfold serial.
  { intros [= <- <-]. split_and!; [done|done|apply length_replicate|]. by intros i l [-> _]%lookup_replicate. }
  rewrite foldl_app. cbn [foldl]. fold (serial critical_section (replicate n adder_start) 0%Z log).
  destruct (serial _ _ _ log) as [[ls' c']|] eqn:E; [|done]. destruct (IH _ _ eq_refl) as (-> & Hall & Hlen & Ht). unfold serial_step.
  cbn [mbind option_bind]. destruct (ls' !! j) as [l|] eqn:Hj; [|done]. cbn [mbind option_bind]. rewrite critical_section_run.
  intros E2. apply (inj Some), pair_equal_spec in E2 as [<- <-]. pose proof (lookup_lt_Some _ _ _ Hj) as Hlt. split_and!.
  - rewrite length_app. cbn. unfold uadd, wrap. rewrite Zplus_mod_idemp_l. f_equal. lia.
  - apply Forall_app. split; [done|]. constructor; [lia|done].
  - by rewrite length_insert.
  - intros i x. rewrite count_snoc. destruct (decide (j = i)) as [->|Hne].
    + rewrite list_lookup_insert_eq by lia. intros <-%(inj Some). cbn [t_]. rewrite (Ht i l Hj), Nat.add_1_r. done.
    + rewrite list_lookup_insert_ne by done. rewrite Nat.add_0_r. apply Ht.
Qed.

Lemma sum_indicator j n : j < n -> sum_list ((fun i => if decide (j = i) then 1 else 0) <$> seq 0 n) = 1.
Proof.
  intros Hj. assert (Hlt : forall k m, j < k -> sum_list ((fun i => if decide (j = i) then 1 else 0) <$> seq k m) = 0).
  { intros k m. revert k. induction m as [|m IH]; intros k Hk; [done|]. simpl. rewrite decide_False by lia. apply IH. lia. }
  assert (Hgen : forall k m, k <= j < k + m -> sum_list ((fun i => if decide (j = i) then 1 else 0) <$> seq k m) = 1).
  { intros k m. revert k. induction m as [|m IH]; intros k Hk; [lia|]. simpl. destruct (decide (j = k)) as [->|].
    - rewrite Hlt by lia. done.
    - apply IH. lia. }
  apply Hgen. lia.
Qed.

Lemma sum_list_add (f g h : nat -> nat) (l : list nat) :
  (forall i, h i = f i + g i) -> sum_list (h <$> l) = sum_list (f <$> l) + sum_list (g <$> l).
Proof. intros Hh. induction l as [|x l IH]; [done|]. csimpl. rewrite Hh, IH. lia. Qed.

Lemma counts_length n log : Forall (fun i => i < n) log -> length log = sum_list ((fun i => count i log) <$> seq 0 n).
Proof.
  induction log as [|j log IH] using rev_ind; intros Hall.
  { cbn. symmetry. induction (seq 0 n) as [|x l IHl]; [done|]. simpl. apply IHl. }
  apply Forall_app in Hall as [Hall [Hj _]%Forall_cons]. rewrite length_app, (IH Hall). change (length [j]) with 1.
  rewrite <- (sum_indicator j n Hj). symmetry. apply sum_list_add. intros i. apply count_snoc.
Qed.

(** ** The programs *)

Section programs.
Context `{Lock} (n : nat) `{!LockLaws n} (N : nat).

(** The states of a program with the test section and of an adder. *)
Definition test_after (schedule : list nat) : world Z unit :=
  run critical_test N test_exit_code (init n 0%Z tt) schedule.
Definition adder_after (schedule : list nat) : world Z adder :=
  run critical_section N adder_exit_code (init n 0%Z adder_start) schedule.

Lemma test_inv schedule : winv critical_test N test_exit_code n (fun c => c = 0%Z) tt 0%Z (test_after schedule).
Proof. apply winv_run; [exact critical_test_total|]. by apply winv_init. Qed.

Lemma adder_inv schedule : winv critical_section N adder_exit_code n (fun _ => True) adder_start 0%Z (adder_after schedule).
Proof. apply winv_run; [intros l c _; rewrite critical_section_run; eauto|]. by apply winv_init. Qed.

Lemma sections_exclude {C L} (section : list (@action C L)) exit_code good l0 c0 w i j t u :
  winv section N exit_code n good l0 c0 w -> w_threads w !! i = Some t -> w_threads w !! j = Some u ->
  in_section t -> in_section u -> i = j.
Proof.
  intros (Hinv & _) Hi Hj Ht Hu. eapply inv_exclusive; [exact Hinv|..]; rewrite list_lookup_fmap; [rewrite Hi|rewrite Hj]; cbn; f_equal.
  - revert Ht. unfold in_section, phase_of. by destruct (t_pc t).
  - revert Hu. unfold in_section, phase_of. by destruct (t_pc u).
Qed.

Lemma no_panic {C L} (section : list (@action C L)) exit_code good l0 c0 w i t :
  winv section N exit_code n good l0 c0 w -> w_threads w !! i = Some t -> t_pc t <> Panicked.
Proof.
  intros (_ & log & ls & c & Hz & _) Hi E. destruct (z_thread _ _ _ _ _ _ _ _ _ _ Hz i t Hi) as (l & _ & Hco & _).
  unfold consistent in Hco. by rewrite E in Hco.
Qed.

(** When all threads of an adder have exited, nothing was lost. *)
Lemma adder_total w : winv critical_section N adder_exit_code n (fun _ => True) adder_start 0%Z w ->
  (forall i t, w_threads w !! i = Some t -> done_ t) ->
  w_client w = wrap 64 (Z.of_nat N * Z.of_nat n) /\
  forall i t, w_threads w !! i = Some t -> t_pc t = Done (as_i32 (Nat.iter N squares 2%Z)).
Proof.
  intros (_ & log & ls & c & Hz & _) Hd. pose proof (serial_adds _ _ _ _ (z_run _ _ _ _ _ _ _ _ _ _ Hz)) as (Hc & Hall & Hlen & Ht).
  assert (Hcount : forall i, i < n -> count i log = N).
  { intros i Hi. rewrite <- (z_threads _ _ _ _ _ _ _ _ _ _ Hz) in Hi. apply lookup_lt_is_Some in Hi as [t Hi].
    destruct (z_thread _ _ _ _ _ _ _ _ _ _ Hz i t Hi) as (l & _ & _ & Hf & _). rewrite <- Hf. specialize (Hd i t Hi).
    unfold done_, finished in *. by destruct (t_pc t). }
  split.
  - rewrite (z_quiet _ _ _ _ _ _ _ _ _ _ Hz), Hc.
    + f_equal. rewrite (counts_length n log Hall). assert (E : (fun i => count i log) <$> seq 0 n = replicate n N).
      { symmetry. apply replicate_as_elem_of. split; [by rewrite length_fmap, length_seq|].
        intros y (i & -> & Hi%elem_of_seq)%list_elem_of_fmap. apply Hcount. lia. }
      rewrite E, sum_list_replicate. lia.
    + intros i t Hi Hin. specialize (Hd i t Hi). unfold done_, in_section in *. by destruct (t_pc t).
  - intros i t Hi. destruct (z_thread _ _ _ _ _ _ _ _ _ _ Hz i t Hi) as (l & Hl & Hco & _). specialize (Hd i t Hi).
    unfold done_, consistent in *. destruct (t_pc t) as [| | | |code|]; try done. destruct Hco as [_ ->]. f_equal. unfold adder_exit_code.
    rewrite (Ht i l Hl), Hcount; [done|]. apply lookup_lt_Some in Hl. lia.
Qed.
End programs.

(** ** What the programs do *)

(** C10: peterson.rs passes: whatever the interleaving, no assertion of the test fails and the
    two threads are never in the section together; and in every schedule that is fair,
    that is, cut into stretches in each of which both threads run at least two steps, both
    threads have exited with code 0 after as many stretches as they have steps.  [N] is
    the number of rounds, 1000 in the source. *)
Theorem peterson_test_passes N :
  (forall schedule i j t u, w_threads (test_after (H := Peterson.lock) 2 N schedule) !! i = Some t ->
    w_threads (test_after (H := Peterson.lock) 2 N schedule) !! j = Some u ->
    t_pc t <> Panicked /\ (in_section t -> in_section u -> i = j)) /\
  (forall stretches, Forall (fair (H := Peterson.lock) 2) stretches -> 2 * (N * 14 + 1) <= length stretches ->
    (fun t => t_pc t) <$> w_threads (test_after (H := Peterson.lock) 2 N (concat stretches)) = [Done 0; Done 0]).
Proof.
  split.
  - intros schedule i j t u Hi Hj. pose proof (test_inv (H := Peterson.lock) 2 N schedule) as Hw. split; [by eapply no_panic|].
    by eapply sections_exclude.
  - intros stretches Hf Hlen. set (w := test_after (H := Peterson.lock) 2 N (concat stretches)). pose proof (test_inv (H := Peterson.lock) 2 N []) as H0.
    pose proof (test_inv (H := Peterson.lock) 2 N (concat stretches)) as (_ & log & ls & c & Hz & _). fold w in Hz.
    destruct (init_rank (H := Peterson.lock) critical_test N 2 0%Z tt) as [Hr Hall].
    pose proof (fair_finish (H := Peterson.lock) critical_test N test_exit_code 2 (fun c => c = 0%Z) critical_test_total tt 0%Z
      (init 2 0%Z tt) stretches H0 Hall Hf) as Hd. rewrite Hr in Hd. specialize (Hd Hlen). fold (test_after (H := Peterson.lock) 2 N (concat stretches)) in Hd. fold w in Hd.
    pose proof (z_threads _ _ _ _ _ _ _ _ _ _ Hz) as Hn. destruct (w_threads w) as [|a [|b [|]]] eqn:E; try done. cbn.
    assert (Hcode : forall i t, w_threads w !! i = Some t -> t_pc t = Done 0).
    { intros i t Hi. destruct (z_thread _ _ _ _ _ _ _ _ _ _ Hz i t Hi) as (l & _ & Hco & _). rewrite E in Hi. specialize (Hd i t Hi).
      unfold done_, consistent in *. destruct (t_pc t); try done. by destruct Hco as [_ ->]. }
    rewrite E in Hcode. by rewrite (Hcode 0 a eq_refl), (Hcode 1 b eq_refl).
Qed.

(** A fair stretch: both threads take two steps. *)
Lemma peterson_test_passes_witness :
  (fun t => t_pc t) <$> w_threads (test_after (H := Peterson.lock) 2 1 (concat (replicate 30 [0; 0; 1; 1]))) = [Done 0; Done 0].
Proof.
  apply (proj2 (peterson_test_passes 1)); [|by vm_compute; lia]. apply Forall_replicate. intros [|[|i]] Hi; [by vm_compute; lia..|lia].
Defined.

(** Eisenberg.rs is safe for any number of threads (10 in the source), any number of
    rounds and any interleaving: no assertion of the test fails, and at most one thread is
    in the section. *)
Theorem eisenberg_test_safe THREAD_NUM N schedule i j t u :
  let w := test_after (H := Eisenberg.lock THREAD_NUM) THREAD_NUM N schedule in
  w_threads w !! i = Some t -> w_threads w !! j = Some u ->
  t_pc t <> Panicked /\ (in_section t -> in_section u -> i = j).
Proof.
  intros w Hi Hj. pose proof (test_inv (H := Eisenberg.lock THREAD_NUM) THREAD_NUM N schedule) as Hw.
  split; [by eapply no_panic|]. by eapply sections_exclude.
Qed.

(** Thread 0 enters while thread 1 has announced itself. *)
Lemma eisenberg_test_safe_witness :
  exists t, w_threads (test_after (H := Eisenberg.lock 2) 2 1 ([0; 0; 1; 1] ++ replicate 20 0)) !! 0 = Some t /\ t_pc t <> Panicked.
Proof.
  eexists. split; [vm_compute; reflexivity|].
  edestruct (eisenberg_test_safe 2 1 ([0; 0; 1; 1] ++ replicate 20 0) 0 0) as [Hno _]; [vm_compute; reflexivity..|exact Hno].
Defined.

(** C11: the adders with a correct lock: for any lock that keeps the promises of [LockLaws]
    and [LockProgress] for [n] threads, in every fair schedule all threads exit with the
    value of [t] as their code, and then [A] is the number of threads times the rounds of
    each, as [main] asserts. *)
Theorem adder_counts {L : Lock} (n N : nat) {HL : LockLaws n} {HP : LockProgress n} stretches :
  Forall (fair n) stretches -> n * (N * (2 * rank_bound + 6) + 1) <= length stretches ->
  let w := adder_after n N (concat stretches) in
  w_client w = wrap 64 (Z.of_nat N * Z.of_nat n) /\
  forall i t, w_threads w !! i = Some t -> t_pc t = Done (as_i32 (Nat.iter N squares 2%Z)).
Proof.
  intros Hf Hlen w. pose proof (adder_inv n N []) as H0. destruct (init_rank critical_section N n 0%Z adder_start) as [Hr Hall].
  apply (adder_total n N); [apply adder_inv|].
  apply (fair_finish critical_section N adder_exit_code n (fun _ => True)) with (l0 := adder_start) (c0 := 0%Z); [|exact H0|exact Hall|exact Hf|].
  - intros l c _. rewrite critical_section_run. eauto.
  - rewrite Hr. unfold round_steps. cbn [length critical_section]. lia.
Qed.

(** Two threads with Peterson's lock, three with compare-and-exchange. *)
Lemma adder_counts_witness :
  w_client (adder_after (H := Peterson.lock) 2 1 (concat (replicate 26 [0; 1; 0; 1]))) = 2%Z /\
  w_client (adder_after (H := Atomic.lock) 3 1 (concat (replicate 27 [0; 1; 2]))) = 3%Z.
Proof.
  split.
  - apply (adder_counts (L := Peterson.lock) 2 1); [|by vm_compute; lia]. apply Forall_replicate. intros [|[|i]] Hi; [by vm_compute; lia..|lia].
  - apply (adder_counts (L := Atomic.lock) 3 1); [|by vm_compute; lia]. apply Forall_replicate. intros [|[|[|i]]] Hi; [by vm_compute; lia..|lia].
Defined.

(** The lock of adder_simple_spin.rs and adder_simple_yield.rs does not exclude: two threads
    that both test before either sets [OCCUPIED] lose an update, so that the assertion of
    [main] fails. *)
Theorem simple_lock_loses_updates :
  let w := adder_after (H := Simple.lock) 2 1 ([0; 0; 1; 1; 0; 1; 0; 1] ++ replicate 6 0 ++ replicate 6 1) in
  w_client w = 1%Z /\ forall i t, w_threads w !! i = Some t -> done_ t.
Proof.
  intros w. assert (E : w_threads w = [mkThread (Done 1393) (mkAdder 1393 0); mkThread (Done 1393) (mkAdder 1393 0)]).
  { unfold w. vm_compute. reflexivity. }
  split; [unfold w; vm_compute; reflexivity|]. rewrite E. intros [|[|i]] t; cbn; [by intros [= <-]..|done].
Qed.
