(* ===== verification/Preemption.v ===== *)
(** The programs of [UserLocks] on the scheduler of the kernel: peterson.rs, eisenberg.rs and
    the adders adder_atomic.rs, adder_peterson_spin.rs and adder_peterson_yield.rs.

    [UserLocks] runs the threads of a program in any order, one memory access at a time.
    Here the same threads are tasks of [Sched]: they are created by [main], preempted by the
    timer, and give up the processor where their waiting loops call [yield_] or [sleep].
    Every such run is a run of [UserLocks], so what is shown there for all orders holds on
    the kernel. *)

From S2P Require Import Prelude Sched KernelThreads UserLocks UserPrograms.

#[local] Open Scope nat_scope.

Section on_kernel.
Context `{Lock} {C L : Type} (section : list (@action C L)) (N : nat) (exit_code : L -> Z) (n : nat) (c0 : C) (l0 : L).

(** What a thread calls between two accesses, such as at the end of a round of a waiting
    loop: [yield_], [sleep] or nothing. *)
Definition pauses (pause : nat -> pc -> pc -> option call) : Prop :=
  forall i p p' c, pause i p p' = Some c -> c = CYield \/ exists now ms, c = CSleep now ms.

Context (pause : nat -> pc -> pc -> option call) (Hpause : pauses pause).

(** A thread: its [id], where it is, and the call it is about to make. *)
Record location := mkLoc { id : nat; state : UserLocks.thread L; pausing : option call }.

(** The variables of the lock, those it protects, and the threads [main] has not created. *)
Record statics := mkStatics { s_lock : shared; s_client : C; s_pending : list nat }.

Definition code (p : location) (m : statics) : op location statics :=
  match pausing p with
  | Some c => Call c (mkLoc (id p) (state p) None)
  | None =>
      match t_pc (state p) with
      | Done _ | Panicked => Exit
      | _ =>
          let '(t', sh, c) := thread_step section N exit_code (id p) (state p) (s_lock m) (s_client m) in
          Compute (mkStatics sh c (s_pending m)) (mkLoc (id p) t' (pause (id p) (t_pc (state p)) (t_pc t')))
      end
  end.

Definition born (m : statics) : option (location * statics) :=
  match s_pending m with
  | [] => None
  | i :: rest => Some (mkLoc i (UserLocks.mkThread (Start 0) l0) None, mkStatics (s_lock m) (s_client m) rest)
  end.

#[local] Abbreviation none := (fun _ : nat => False).
#[local] Abbreviation ustep := (ustep code born none none none).
#[local] Abbreviation good := (good none none (P := location) (M := statics)).

Definition over (t : UserLocks.thread L) : Prop := match t_pc t with Done _ | Panicked => True | _ => False end.

Definition placed (th : KernelThreads.thread location) : Prop :=
  (forall c, pausing (point th) = Some c -> c = CYield \/ exists now ms, c = CSleep now ms) /\
  match doing th with
  | Runs => True
  | Waits c p' => pausing (point th) = Some c /\ p' = mkLoc (id (point th)) (state (point th)) None
  | Ended => over (state (point th))
  end.

(** The state [w] on the kernel is the state [aw] of [UserLocks]. *)
Record matches (w : uworld location statics) (aw : UserLocks.world C L) : Prop := {
  ma_good : good w;
  ma_place t th : threads w !! t = Some th -> placed th;
  ma_lock : w_lock aw = s_lock (memory w);
  ma_client : w_client aw = s_client (memory w);
  ma_thread t th : threads w !! t = Some th -> w_threads aw !! id (point th) = Some (state (point th));
  ma_inj t t' th th' : threads w !! t = Some th -> threads w !! t' = Some th' -> id (point th) = id (point th') -> t = t';
  ma_nodup : NoDup (s_pending (memory w));
  ma_pending i : i ∈ s_pending (memory w) -> w_threads aw !! i = Some (UserLocks.mkThread (Start 0) l0) /\ forall t th, threads w !! t = Some th -> id (point th) <> i;
  ma_all i : i < length (w_threads aw) -> i ∈ s_pending (memory w) \/ exists t th, threads w !! t = Some th /\ id (point th) = i;
}.

Lemma pausing_disciplined w aw : matches w aw -> disciplined code w.
Proof.
  intros Hm t p c p' _ Ht Hc. destruct (ma_place _ _ Hm t _ Ht) as [Hp _]. cbn [point] in Hp. unfold code in Hc.
  destruct (pausing p) as [c1|] eqn:Ep.
  - injection Hc as <- <-. by destruct (Hp c1 eq_refl) as [-> |(now & ms & ->)].
  - destruct (t_pc (state p)); try done; by destruct (thread_step _ _ _ _ _ _ _) as [[t' sh] c2].
Qed.

(** A thread that keeps its state. *)
Lemma matches_same w aw t th p' md k' log' :
  matches w aw -> good (mkU (k', log') (<[t := KernelThreads.mkThread p' md]> (threads w)) (memory w)) -> threads w !! t = Some th ->
  id p' = id (point th) -> state p' = state (point th) -> placed (KernelThreads.mkThread p' md) ->
  matches (mkU (k', log') (<[t := KernelThreads.mkThread p' md]> (threads w)) (memory w)) aw.
Proof.
  intros [_ Hpl Hlo Hcl Hth Hinj Hnd Hpe Hall] Hg Ht Hid Hst Hp.
  assert (Hold : forall t' th', <[t := KernelThreads.mkThread p' md]> (threads w) !! t' = Some th' ->
    exists th0, threads w !! t' = Some th0 /\ id (point th') = id (point th0) /\ state (point th') = state (point th0)).
  { intros t' th'. destruct (decide (t = t')) as [<-|Hne]; [rewrite lookup_insert_eq; intros [= <-]; by exists th|rewrite lookup_insert_ne by done; eauto]. }
  split; cbn [kw threads memory]; try done.
  - intros t' th'. destruct (decide (t = t')) as [<-|Hne]; [rewrite lookup_insert_eq; by intros [= <-]|rewrite lookup_insert_ne by done; apply Hpl].
  - intros t' th' Ht'. destruct (Hold t' th' Ht') as (th0 & H0 & -> & ->). by eapply Hth.
  - intros t1 t2 th1 th2 H1 H2. destruct (Hold t1 th1 H1) as (th3 & H3 & -> & _). destruct (Hold t2 th2 H2) as (th4 & H4 & -> & _). by apply Hinj.
  - intros i Hi. destruct (Hpe i Hi) as [Hs Hno]. split; [done|]. intros t' th' Ht'. destruct (Hold t' th' Ht') as (th0 & H0 & -> & _). by eapply Hno.
  - intros i Hi. destruct (Hall i Hi) as [|(t' & th' & Ht' & Hi')]; [by left|right]. destruct (decide (t' = t)) as [->|Hne].
    + exists t, (KernelThreads.mkThread p' md). rewrite lookup_insert_eq. split; [done|]. cbn. rewrite Ht in Ht'. injection Ht' as <-. by rewrite Hid.
    + exists t', th'. by rewrite lookup_insert_ne.
Qed.

(** A thread that takes a step. *)
Lemma matches_step w aw t th t' sh c md :
  matches w aw -> threads w !! t = Some th -> over (state (point th)) \/ doing th = Runs ->
  thread_step section N exit_code (id (point th)) (state (point th)) (s_lock (memory w)) (s_client (memory w)) = (t', sh, c) ->
  good (mkU (kw w) (<[t := KernelThreads.mkThread (mkLoc (id (point th)) t' (pause (id (point th)) (t_pc (state (point th))) (t_pc t'))) md]> (threads w)) (mkStatics sh c (s_pending (memory w)))) ->
  placed (KernelThreads.mkThread (mkLoc (id (point th)) t' (pause (id (point th)) (t_pc (state (point th))) (t_pc t'))) md) ->
  matches (mkU (kw w) (<[t := KernelThreads.mkThread (mkLoc (id (point th)) t' (pause (id (point th)) (t_pc (state (point th))) (t_pc t'))) md]> (threads w)) (mkStatics sh c (s_pending (memory w))))
    (step section N exit_code aw (id (point th))).
Proof.
  intros [_ Hpl Hlo Hcl Hth Hinj Hnd Hpe Hall] Ht _ E Hg Hp. set (i := id (point th)) in *. set (p' := mkLoc i t' _) in *.
  assert (Estep : step section N exit_code aw i = mkWorld sh c (<[i := t']> (w_threads aw))).
  { unfold step. unfold i. rewrite (Hth t th Ht), Hlo, Hcl. fold i. by rewrite E. }
  assert (Hold : forall t1 th1, <[t := KernelThreads.mkThread p' md]> (threads w) !! t1 = Some th1 -> exists th0, threads w !! t1 = Some th0 /\ id (point th1) = id (point th0)).
  { intros t1 th1. destruct (decide (t = t1)) as [<-|Hne]; [rewrite lookup_insert_eq; intros [= <-]; by exists th|rewrite lookup_insert_ne by done; eauto]. }
  rewrite Estep. split; cbn [kw threads memory s_lock s_client s_pending w_lock w_client w_threads]; try done.
  - intros t1 th1. destruct (decide (t = t1)) as [<-|Hne]; [rewrite lookup_insert_eq; by intros [= <-]|rewrite lookup_insert_ne by done; apply Hpl].
  - intros t1 th1. destruct (decide (t = t1)) as [<-|Hne].
    + rewrite lookup_insert_eq. intros [= <-]. cbn [point id state p']. rewrite list_lookup_insert_eq; [done|]. by eapply lookup_lt_Some, (Hth t th).
    + rewrite lookup_insert_ne by done. intros H1. rewrite list_lookup_insert_ne; [by eapply Hth|]. intros Hi. apply Hne. by apply (Hinj t t1 th th1).
  - intros t1 t2 th1 th2 H1 H2. destruct (Hold t1 th1 H1) as (th3 & H3 & ->). destruct (Hold t2 th2 H2) as (th4 & H4 & ->). by apply Hinj.
  - intros j Hj. destruct (Hpe j Hj) as [Hs Hno]. split.
    + rewrite list_lookup_insert_ne; [done|]. by apply (Hno t th).
    + intros t1 th1 H1. destruct (Hold t1 th1 H1) as (th0 & H0 & ->). by eapply Hno.
  - intros j Hj. rewrite length_insert in Hj. destruct (Hall j Hj) as [|(t1 & th1 & H1 & Hi)]; [by left|right]. destruct (decide (t1 = t)) as [->|Hne].
    + exists t, (KernelThreads.mkThread p' md). rewrite lookup_insert_eq. split; [done|]. cbn. rewrite Ht in H1. by injection H1 as <-.
    + exists t1, th1. by rewrite lookup_insert_ne.
Qed.

(** Every step on the kernel is a step of one thread, or none. *)
Lemma matches_ustep w w' aw : matches w aw -> ustep w w' -> matches w' aw \/ exists i, matches w' (step section N exit_code aw i).
Proof.
  intros Hm Hs. destruct (ustep_effect _ _ _ _ _ w w' (ma_good _ _ Hm) (pausing_disciplined w aw Hm) Hs) as [Hg He]. clear Hs.
  destruct He as [w t p m' p' Ht Hc|w t p c p' k' b Ht Hc Hsus _|w t p c p' k' Ht _|w t p k' Ht Hc _|w t p k' m' Ht Hbo _|w k' log' Hq _].
  - right. exists (id p). unfold code in Hc. destruct (pausing p); [done|]. destruct (thread_step section N exit_code (id p) (state p) (s_lock (memory w)) (s_client (memory w))) as [[t' sh] c] eqn:E.
    assert (Hc' : Compute (mkStatics sh c (s_pending (memory w))) (mkLoc (id p) t' (pause (id p) (t_pc (state p)) (t_pc t'))) = Compute m' p') by (by destruct (t_pc (state p))).
    injection Hc' as <- <-. apply (matches_step w aw t (KernelThreads.mkThread p Runs) t' sh c Runs Hm Ht); [by right|exact E|exact Hg|]. split; [|done]. intros c1. apply Hpause.
  - left. unfold code in Hc. destruct (pausing p) as [c1|] eqn:Ep; [|destruct (thread_step section N exit_code (id p) (state p) (s_lock (memory w)) (s_client (memory w))) as [[? ?] ?]; by destruct (t_pc (state p))].
    injection Hc as <- <-. destruct (ma_place _ _ Hm t _ Ht) as [Hp _]. cbn [point] in Hp.
    destruct b; (eapply (matches_same w aw t (KernelThreads.mkThread p Runs)); [done|exact Hg|done|done|done|]); (split; [|done]); [done|exact Hp].
  - left. destruct (ma_place _ _ Hm t _ Ht) as (Hp & Hpa & Hp'). cbn [point doing] in *. subst p'. eapply (matches_same w aw t _ _ _ _ _ Hm Hg Ht); [done|done|]. by split.
  - left. eapply (matches_same w aw t _ _ _ _ _ Hm Hg Ht); [done|done|]. split; [apply (ma_place _ _ Hm t _ Ht)|]. cbn. unfold code in Hc. destruct (pausing p); [done|].
    unfold over. destruct (t_pc (state p)); try done; by destruct (thread_step _ _ _ _ _ _ _) as [[? ?] ?].
  - left. unfold born in Hbo. destruct Hm as [_ Hpl Hlo Hcl Hth Hinj Hnd Hpe Hall]. destruct (s_pending (memory w)) as [|i rest] eqn:Epe; [done|]. injection Hbo as <- <-.
    apply NoDup_cons in Hnd as [Hni Hnd]. destruct (Hpe i ltac:(by left)) as [Hsi Hnoi].
    split; cbn [kw threads memory s_lock s_client s_pending]; try done.
    + intros t1 th1. destruct (decide (t = t1)) as [<-|Hne]; [rewrite lookup_insert_eq; by intros [= <-]|rewrite lookup_insert_ne by done; apply Hpl].
    + intros t1 th1. destruct (decide (t = t1)) as [<-|Hne]; [rewrite lookup_insert_eq; by intros [= <-]|rewrite lookup_insert_ne by done; apply Hth].
    + intros t1 t2 th1 th2. destruct (decide (t = t1)) as [<-|H1], (decide (t = t2)) as [<-|H2]; rewrite ?lookup_insert_eq, ?lookup_insert_ne by done; [done| | |apply Hinj].
      * intros [= <-] E2 Hi. by destruct (Hnoi t2 th2 E2).
      * intros E1 [= <-] Hi. by destruct (Hnoi t1 th1 E1).
    + intros j Hj. destruct (Hpe j ltac:(by right)) as [Hs Hno]. split; [done|]. intros t1 th1. destruct (decide (t = t1)) as [<-|Hne]; [|rewrite lookup_insert_ne by done; apply Hno].
      rewrite lookup_insert_eq. intros [= <-]. cbn. by intros <-.
    + intros j Hj. destruct (Hall j Hj) as [[->|Hin]%elem_of_cons|(t1 & th1 & H1 & Hi)]; [|by left|].
      * right. exists t. eexists. rewrite lookup_insert_eq. by split.
      * right. exists t1, th1. rewrite lookup_insert_ne; [done|]. intros <-. congruence.
  - left. destruct Hm as [_ Hpl Hlo Hcl Hth Hinj Hnd Hpe Hall]. by split.
Qed.

Lemma matches_run w w' schedule : matches w (run section N exit_code (init n c0 l0) schedule) -> rtc ustep w w' ->
  exists schedule', matches w' (run section N exit_code (init n c0 l0) schedule').
Proof.
  intros Hm Hs. revert schedule Hm. induction Hs as [|w w1 w' Hs _ IH]; intros schedule Hm; [by exists schedule|].
  destruct (matches_ustep _ _ _ Hm Hs) as [Hm1|[i Hm1]]; [by eapply IH|]. apply (IH (schedule ++ [i])). unfold run. by rewrite foldl_app.
Qed.

(** Threads that wait only give up the processor. *)
Lemma not_over_alive w aw :
  matches w aw -> (forall t th, threads w !! t = Some th -> current (fst (kw w)) <> Some t /\ t ∉ ready_queue (fst (kw w)) /\ t ∉ timer_task <$> timers (fst (kw w))) ->
  forall t th, threads w !! t = Some th -> doing th = Ended.
Proof.
  intros Hm Hno t [p md] Ht. assert (Hst : stalled w) by (intros t1 th1 H1; destruct (Hno t1 th1 H1) as (? & ? & _); done).
  destruct (ma_place _ _ Hm t _ Ht) as [Hp Hd]. cbn in *. destruct md as [|c p'|]; [| |done].
  - exfalso. eapply stalled_not_running; [by eapply ma_good|done|done].
  - exfalso. destruct Hd as [Hpa ->]. destruct (Hp c Hpa) as [-> |(now & ms & ->)].
    + eapply stalled_yield; [by eapply ma_good|done|done].
    + destruct (Hno t _ Ht) as (_ & _ & Hti). apply Hti. eapply stalled_sleep; [by eapply ma_good|done|done].
Qed.
End on_kernel.

(** ** The programs *)

Definition preempted `{Lock} {C L : Type} (section : list (@action C L)) (N : nat) (exit_code : L -> Z) (l0 : L) (pause : nat -> pc -> pc -> option call) :
    uworld (location (L := L)) (statics (C := C)) -> uworld (location (L := L)) (statics (C := C)) -> Prop :=
  ustep (code section N exit_code pause) (born l0) (fun _ => False) (fun _ => False) (fun _ => False).

Lemma start_matches `{Lock} {C L : Type} (n : nat) (c0 : C) (l0 : L) (order : list nat) w0 :
  reachable w0 -> order ≡ₚ seq 0 n -> matches l0 (mkU w0 ∅ (mkStatics lock_init c0 order)) (init n c0 l0).
Proof.
  intros Hr Ho. destruct (reachable_known w0 Hr) as [Hi _]. split; cbn [kw threads memory fst s_lock s_client s_pending]; try done; try (intros *; by rewrite lookup_empty).
  - split; cbn [kw threads fst]; [done|by intros t th; rewrite lookup_empty| |done]. intros t kc _ _ _. right. destruct kc; cbn; tauto.
  - rewrite Ho. apply NoDup_seq.
  - intros i Hin. rewrite Ho in Hin. apply elem_of_seq in Hin. split; [|intros t th; by rewrite lookup_empty]. cbn. rewrite lookup_replicate_2; [done|lia].
  - intros i Hlt. left. rewrite Ho. apply elem_of_seq. cbn in Hlt. rewrite length_replicate in Hlt. lia.
Qed.

(** Threads that have all exited have done all their rounds. *)
Lemma ended_done `{Lock} {C L : Type} (section : list (@action C L)) N exit_code n `{!LockLaws n} good l0 c0 w aw :
  matches l0 w aw -> winv section N exit_code n good l0 c0 aw -> s_pending (memory w) = [] -> (forall t th, threads w !! t = Some th -> doing th = Ended) ->
  forall i t, w_threads aw !! i = Some t -> done_ t.
Proof.
  intros Hm Hw Hpe Hend i t Hi. destruct (ma_all _ _ _ Hm i) as [Hin|(t1 & th & H1 & <-)]; [by eapply lookup_lt_Some|rewrite Hpe in Hin; by apply elem_of_nil in Hin|].
  pose proof (ma_thread _ _ _ Hm t1 th H1) as Hth. rewrite Hth in Hi. injection Hi as <-. destruct (ma_place _ _ _ Hm t1 th H1) as [_ Hp]. rewrite (Hend t1 th H1) in Hp.
  pose proof (no_panic n N section exit_code good l0 c0 aw _ _ Hw Hth) as Hnp. unfold over in Hp. unfold done_. by destruct (t_pc (state (point th))).
Qed.

(** C12: The lock programs on the kernel.  [main] creates [n] threads in some order, each doing
    its rounds of [lock; section; unlock] and giving up the processor where the source does;
    the timer interrupts and other tasks run at any point.  For every lock that keeps
    [LockLaws] (Peterson's, that of Eisenberg and McGuire, compare-and-exchange) and every
    section that runs to its end when it is undisturbed, each state is that of some schedule of
    [UserLocks] with the same variables: no assertion fails, at most one thread is in the
    section, either the threads created so far have exited or one of them is running, ready
    or asleep, and when all were created and have exited, all have done all their rounds. *)
Theorem lock_programs_on_kernel {K : Lock} {C L : Type} (section : list (@action C L)) (N : nat) (exit_code : L -> Z) (n : nat) {HL : LockLaws n}
    (good : C -> Prop) (c0 : C) (l0 : L) (pause : nat -> pc -> pc -> option call) (order : list nat) w0 w :
  (forall l c, good c -> exists l' c', run_actions section l c = Some (l', c') /\ good c') -> good c0 -> pauses pause -> order ≡ₚ seq 0 n -> reachable w0 ->
  rtc (preempted section N exit_code l0 pause) (mkU w0 ∅ (mkStatics lock_init c0 order)) w ->
  exists schedule, let aw := run section N exit_code (init n c0 l0) schedule in
    w_lock aw = s_lock (memory w) /\ w_client aw = s_client (memory w) /\
    (forall t th, threads w !! t = Some th -> w_threads aw !! id (point th) = Some (state (point th)) /\ t_pc (state (point th)) <> Panicked) /\
    (forall t t' th th', threads w !! t = Some th -> threads w !! t' = Some th' -> in_section (state (point th)) -> in_section (state (point th')) -> t = t') /\
    ((forall t th, threads w !! t = Some th -> doing th = Ended) \/
     exists t th, threads w !! t = Some th /\ (current (fst (kw w)) = Some t \/ t ∈ ready_queue (fst (kw w)) \/ t ∈ timer_task <$> timers (fst (kw w)))) /\
    (s_pending (memory w) = [] -> (forall t th, threads w !! t = Some th -> doing th = Ended) -> forall i t, w_threads aw !! i = Some t -> done_ t).
Proof.
  intros Hsec Hg0 Hpause Ho Hr Hrun.
  destruct (matches_run section N exit_code n c0 l0 pause Hpause _ w [] (start_matches n c0 l0 order w0 Hr Ho) Hrun) as [schedule Hm].
  exists schedule. set (aw := run section N exit_code (init n c0 l0) schedule) in *. cbv zeta.
  assert (Hw : winv section N exit_code n good l0 c0 aw) by (apply winv_run; [done|by apply winv_init]).
  split_and!.
  - apply (ma_lock _ _ _ Hm).
  - apply (ma_client _ _ _ Hm).
  - intros t th Ht. pose proof (ma_thread _ _ _ Hm t th Ht) as Hth. split; [done|]. by eapply (no_panic n N section exit_code good l0 c0 aw).
  - intros t t' th th' Ht Ht' Hs Hs'. apply (ma_inj _ _ _ Hm t t' th th' Ht Ht').
    eapply (sections_exclude n N section exit_code good l0 c0 aw); [done|by apply (ma_thread _ _ _ Hm t th)|by apply (ma_thread _ _ _ Hm t' th')|done|done].
  - set (alive := fun t => current (fst (kw w)) = Some t \/ t ∈ ready_queue (fst (kw w)) \/ t ∈ timer_task <$> timers (fst (kw w))).
    destruct (decide (Exists (fun x : nat * KernelThreads.thread location => alive x.1) (map_to_list (threads w)))) as [Hex|Hno].
    + right. apply Exists_exists in Hex as ([t th] & Hin & Ha). apply elem_of_map_to_list in Hin. by exists t, th.
    + left. eapply not_over_alive; [exact Hm|]. intros t th Ht. assert (Hn : ~ alive t); [|unfold alive in Hn; tauto].
      intros Ha. apply Hno, Exists_exists. exists (t, th). by rewrite elem_of_map_to_list.
  - intros Hpe Hend. by eapply (ended_done section N exit_code n good).
Qed.

(** ** Where the programs pause *)

Section pauses.
Context (clock : nat -> Z).

(** peterson.rs and eisenberg.rs: [sleep(1)] in the waiting loop, [sleep(2)] after each
    claim. *)
Definition test_pause `{Lock} (retry : lpc -> lpc -> bool) (i : nat) (p p' : pc) : option call :=
  match p, p' with
  | Enter _ a, Enter _ b => if retry a b then Some (CSleep (clock i) 1) else None
  | Body _ k, Body _ _ => if (1 <=? k) && (k <=? 3) then Some (CSleep (clock i) 2) else None
  | _, _ => None
  end.

Definition peterson_retry (p p' : Peterson.at_) : bool := match p, p' with Peterson.TestTurn, Peterson.TestFlag => true | _, _ => false end.
Definition eisenberg_retry (p p' : Eisenberg.at_) : bool := match p, p' with Eisenberg.Scan _ _, Eisenberg.LoadTurn => true | _, _ => false end.

(** The adders: [yield_] or nothing. *)
Definition adder_pause `{Lock} (yields : lpc -> lpc -> bool) (i : nat) (p p' : pc) : option call :=
  match p, p' with
  | Enter _ a, Enter _ b => if yields a b then Some CYield else None
  | _, _ => None
  end.

Definition peterson_spin (p p' : Peterson.at_) : bool := false.
Definition peterson_yield (p p' : Peterson.at_) : bool := peterson_retry p p'.
Definition atomic_yield (p p' : Atomic.at_) : bool := match p, p' with Atomic.CompareExchange, Atomic.CompareExchange => true | _, _ => false end.

Lemma test_pauses `{Lock} retry : pauses (test_pause retry).
Proof. intros i p p' c. unfold test_pause. destruct p, p'; try done; case_match; try done; intros [= <-]; eauto. Qed.

Lemma adder_pauses `{Lock} yields : pauses (adder_pause yields).
Proof. intros i p p' c. unfold adder_pause. destruct p, p'; try done; case_match; try done; intros [= <-]; eauto. Qed.
End pauses.

(** The steps of the programs. *)
Definition adder_peterson_spin (PER_THREAD : nat) := preempted (H := Peterson.lock) critical_section PER_THREAD adder_exit_code adder_start (adder_pause (H := Peterson.lock) peterson_spin).
Definition adder_peterson_yield (PER_THREAD : nat) := preempted (H := Peterson.lock) critical_section PER_THREAD adder_exit_code adder_start (adder_pause (H := Peterson.lock) peterson_yield).
Definition adder_atomic (PER_THREAD : nat) := preempted (H := Atomic.lock) critical_section PER_THREAD adder_exit_code adder_start (adder_pause (H := Atomic.lock) atomic_yield).
Definition peterson (clock : nat -> Z) (N : nat) := preempted (H := Peterson.lock) critical_test N test_exit_code tt (test_pause clock (H := Peterson.lock) peterson_retry).
Definition eisenberg (clock : nat -> Z) (THREAD_NUM N : nat) :=
  preempted (H := Eisenberg.lock THREAD_NUM) critical_test N test_exit_code tt (test_pause clock (H := Eisenberg.lock THREAD_NUM) eisenberg_retry).

(** The adders on the kernel: when all threads have exited, nothing was lost. *)
Theorem adders_on_kernel {K : Lock} (N n : nat) {HL : LockLaws n} yields order w0 w :
  order ≡ₚ seq 0 n -> reachable w0 ->
  rtc (preempted critical_section N adder_exit_code adder_start (adder_pause yields)) (mkU w0 ∅ (mkStatics lock_init 0%Z order)) w ->
  s_pending (memory w) = [] -> (forall t th, threads w !! t = Some th -> doing th = Ended) ->
  s_client (memory w) = wrap 64 (Z.of_nat N * Z.of_nat n).
Proof.
  intros Ho Hr Hrun Hpe Hend. destruct (matches_run critical_section N adder_exit_code n 0%Z adder_start _ (adder_pauses yields) _ w [] (start_matches n 0%Z adder_start order w0 Hr Ho) Hrun) as [schedule Hm].
  pose proof (adder_inv n N schedule) as Hw. rewrite <- (ma_client _ _ _ Hm). apply (adder_total n N); [exact Hw|]. by eapply ended_done.
Qed.

(** ** adder_peterson_yield.rs with one round *)

Module Demo.
#[local] Existing Instance Peterson.lock.
#[local] Abbreviation program := (code critical_section 1 adder_exit_code (adder_pause peterson_yield)).
Definition w0 : Sched.world := Eval vm_compute in world_of (run_dispatch (spawn 0 0 (fst boot), [])).
Definition start : uworld (location (L := adder)) (statics (C := Z)) := mkU w0 ∅ (mkStatics lock_init 0%Z [0; 1]).

Definition choose (i : nat) (w : uworld (location (L := adder)) (statics (C := Z))) : act :=
  match current (fst (kw w)) with
  | None => Dispatch
  | Some t =>
      if i mod 5 =? 2 then Tick 0
      else if bool_decide (is_Some (threads w !! t)) then Go
      else if bool_decide (s_pending (memory w) = []) then Tick 0 else Create (S (size (threads w))) 0
  end.

Fixpoint drive (k : nat) (w : uworld (location (L := adder)) (statics (C := Z))) : list act :=
  match k with
  | O => []
  | S k' => let a := choose k w in match next program (born adder_start) a w with Ok w' => a :: drive k' w' | Panic _ => [] end
  end.

Definition acts : list act := Eval vm_compute in drive 80 start.
Definition final : uworld (location (L := adder)) (statics (C := Z)) :=
  Eval vm_compute in match play program (born adder_start) acts start with Ok w => w | Panic _ => start end.

Lemma lock_booted : reachable w0.
Proof.
  unfold reachable. eapply rtc_l; [apply (step_spawn _ _ 0 0); [apply not_elem_of_nil|done]|].
  eapply rtc_l; [apply run_dispatch_step; [done|vm_compute; reflexivity]|]. apply rtc_refl.
Qed.

Lemma lock_final_run : rtc (adder_peterson_yield 1) start final.
Proof. apply (play_usteps _ _ _ _ _ acts). vm_compute. reflexivity. Qed.
End Demo.

Lemma lock_programs_on_kernel_witness :
  exists schedule, w_client (run (H := Peterson.lock) critical_section 1 adder_exit_code (init 2 0%Z adder_start) schedule) = 2%Z.
Proof.
  destruct (lock_programs_on_kernel (K := Peterson.lock) critical_section 1 adder_exit_code 2 (fun _ => True) 0%Z adder_start
    (adder_pause (H := Peterson.lock) peterson_yield) [0; 1] Demo.w0 Demo.final) as (schedule & _ & Hc & _).
  - intros l c _. rewrite critical_section_run. eauto.
  - done.
  - apply adder_pauses.
  - done.
  - apply Demo.lock_booted.
  - apply Demo.lock_final_run.
  - exists schedule. rewrite Hc. reflexivity.
Defined.

(** The tests of peterson.rs and eisenberg.rs keep their assertions on the kernel. *)
Corollary tests_on_kernel clock N THREAD_NUM order w0 :
  reachable w0 ->
  (forall w, order ≡ₚ [0; 1] -> rtc (peterson clock N) (mkU w0 ∅ (mkStatics (H := Peterson.lock) lock_init 0%Z order)) w ->
     forall t th, threads w !! t = Some th -> t_pc (state (point th)) <> Panicked) /\
  (forall w, order ≡ₚ seq 0 THREAD_NUM -> rtc (eisenberg clock THREAD_NUM N) (mkU w0 ∅ (mkStatics (H := Eisenberg.lock THREAD_NUM) lock_init 0%Z order)) w ->
     forall t th, threads w !! t = Some th -> t_pc (state (point th)) <> Panicked).
Proof.
  intros Hr. split; intros w Ho Hrun t th Ht.
  - destruct (matches_run (H := Peterson.lock) critical_test N test_exit_code 2 0%Z tt _ (test_pauses clock _) _ w [] (start_matches 2 0%Z tt order w0 Hr Ho) Hrun) as [schedule Hm].
    by eapply (no_panic (H := Peterson.lock) 2 N), (ma_thread _ _ _ Hm t th Ht); apply test_inv.
  - destruct (matches_run (H := Eisenberg.lock THREAD_NUM) critical_test N test_exit_code THREAD_NUM 0%Z tt _ (test_pauses clock _) _ w [] (start_matches THREAD_NUM 0%Z tt order w0 Hr Ho) Hrun) as [schedule Hm].
    by eapply (no_panic (H := Eisenberg.lock THREAD_NUM) THREAD_NUM N), (ma_thread _ _ _ Hm t th Ht); apply test_inv.
Qed.
