(* ===== verification/Shell.v ===== *)
(** The shell, user/src/bin/user_shell.rs: parsing a command line ([ProcessArguments]), the
    check of redirections, and the descriptors each process of a pipeline gets.

    Text is a list of characters.  A descriptor table is a list of options as in the
    kernel; [t_open], [t_dup] and [t_close] are the calls seen from a program, and
    [sys_dup_table] and [sys_close_table] show that the system calls of [FileCalls] act on
    the table in this way. *)

From S2P Require Import Prelude Alloc BlockCache Process Waiting FileCalls FileCallSpecs.

(** ** Command lines *)

Definition SPACE : Z := 32.
Definition BAR : Z := 124.
Definition LESS : Z := 60.
Definition GREATER : Z := 62.
Definition NUL : Z := 0.

(** [str::split] on a character. *)
Fixpoint split (sep : Z) (s : list Z) : list (list Z) :=
  match s with
  | [] => [[]]
  | c :: s' =>
      if c =? sep then [] :: split sep s'
      else match split sep s' with w :: ws => (c :: w) :: ws | [] => [[c]] end
  end.

Record ProcessArguments := mkArguments {
  input : list Z;
  output : list Z;
  args_copy : list (list Z);
  args_addr : list (option nat);       (* the strings of [args_copy], then a null pointer *)
}.

(** [if let Some((id, _)) = args_copy.iter().enumerate().find(...) { ... }] *)
Definition redirection (c : Z) (args : list (list Z)) : res (list Z * list (list Z)) :=
  match find_index (fun arg => bool_decide (arg = [c; NUL])) args with
  | Some id =>
      file ← index args (Z.of_nat id + 1);
      Ok (file, take id args ++ drop (id + 2) args)
  | None => Ok ([], args)
  end.

Definition ProcessArguments_new (command : list Z) : res ProcessArguments :=
  let args := split SPACE command in
  let words := (fun arg => arg ++ [NUL]) <$> filter (fun arg => arg <> []) args in
  '(input, words) ← redirection LESS words;
  '(output, words) ← redirection GREATER words;
  Ok (mkArguments input output words ((Some <$> seq 0 (length words)) ++ [None])).

Fixpoint parse_commands (commands : list (list Z)) : res (list ProcessArguments) :=
  match commands with
  | [] => Ok []
  | c :: cs => a ← ProcessArguments_new c; rest ← parse_commands cs; Ok (a :: rest)
  end.
Definition parse_line (line : list Z) : res (list ProcessArguments) := parse_commands (split BAR line).

Definition is_empty {A} (l : list A) : bool := match l with [] => true | _ => false end.

(** The loop that checks redirections against the place in the pipeline. *)
Definition place_ok (len i : nat) (a : ProcessArguments) : bool :=
  if (i =? 0)%nat then is_empty (output a)
  else if (i =? len - 1)%nat then is_empty (input a)
  else is_empty (input a) && is_empty (output a).
Definition valid (l : list ProcessArguments) : bool :=
  if (length l =? 1)%nat then true else forallb id (imap (place_ok (length l)) l).

(** ** Editing a line *)

Inductive key_result :=
| Exit                                 (* Ctrl + D *)
| Run (line : list Z)                  (* the line is run when it is not empty *)
| Edit (line : list Z).
Definition LF : Z := 10.
Definition CR : Z := 13.
Definition DL : Z := 127.
Definition BS : Z := 8.
Definition key (c : Z) (line : list Z) : key_result :=
  if c =? 4 then Exit
  else if (c =? LF) || (c =? CR) then Run line
  else if (c =? DL) || (c =? BS) then Edit (match vec_pop line with Some (_, l) => l | None => [] end)
  else Edit (vec_push line c).

(** ** Descriptors *)

Section tables.
Context {A : Type}.
Implicit Types (T : list (option A)).

(** A new descriptor: the first hole, or one more. *)
Definition t_open T (f : A) : nat * list (option A) :=
  match find_index (fun o => match o with None => true | Some _ => false end) T with
  | Some n => (n, <[n := Some f]> T)
  | None => (length T, T ++ [Some f])
  end.
Definition t_close T (fd : nat) : list (option A) :=
  match T !! fd with Some (Some _) => <[fd := None]> T | _ => T end.
(** [None] is the result -1. *)
Definition t_dup T (fd : nat) : option (nat * list (option A)) :=
  match T !! fd with Some (Some f) => Some (t_open T f) | _ => None end.

(** The file behind a descriptor. *)
Definition opened T (fd : nat) : option A := mjoin (T !! fd).
End tables.

(** What a process of a pipeline can refer to; [Inherited] are the files of the shell. *)
Inductive file (A : Type) :=
| Inherited (a : A)
| InputFile (path : list Z)
| OutputFile (path : list Z)
| ReadEnd (pipe : nat)
| WriteEnd (pipe : nat).
Arguments Inherited {A}.
Arguments InputFile {A}.
Arguments OutputFile {A}.
Arguments ReadEnd {A}.
Arguments WriteEnd {A}.

Section shell.
Context {A : Type}.
#[local] Abbreviation table := (list (option (file A))).

(** [for _ in 0..len - 1 { pipe(&mut pipe_fd); pipes.push(pipe_fd); }] *)
Fixpoint make_pipes (j m : nat) (T : table) : list (nat * nat) * table :=
  match m with
  | O => ([], T)
  | S m' =>
      let '(r, T1) := t_open T (ReadEnd j) in
      let '(w, T2) := t_open T1 (WriteEnd j) in
      let '(pipes, T3) := make_pipes (S j) m' T2 in
      ((r, w) :: pipes, T3)
  end.

Definition close_pipes (pipes : list (nat * nat)) (T : table) : table :=
  foldl (fun T p => t_close (t_close T p.1) p.2) T pipes.

(** [close(fd); assert_eq!(dup(from), fd);] *)
Definition move_to (fd from : nat) (T : table) : res table :=
  match t_dup (t_close T fd) from with
  | Some (n, T') => _ ← rassert (n =? fd)%nat; Ok T'
  | None => Panic AssertFailed
  end.

(** The redirection of [fd] to a file that was opened. *)
Definition redirect (fd : nat) (f : file A) (T : table) : res table :=
  let '(n, T1) := t_open T f in
  T2 ← move_to fd n T1;
  Ok (t_close T2 n).

(** The call of [exec] that a child makes, with its table then. *)
Record executing := mkExec { e_path : list Z; e_args : list (option nat); e_table : table }.

(** The child up to [exec]: [opens] says which paths [open] finds; [None] is the exit with
    -4.  A command without words has no [args_copy[0]]. *)
Definition child (opens : list Z -> bool) (i len : nat) (a : ProcessArguments) (pipes : list (nat * nat)) (T : table)
  : res (option executing) :=
  if negb (is_empty (input a)) && negb (opens (input a)) then Ok None
  else
    T1 ← (if is_empty (input a) then Ok T else redirect 0 (InputFile (input a)) T);
    if negb (is_empty (output a)) && negb (opens (output a)) then Ok None
    else
      T2 ← (if is_empty (output a) then Ok T1 else redirect 1 (OutputFile (output a)) T1);
      T3 ← (if (0 <? i)%nat then '(r, _) ← index pipes (Z.of_nat i - 1); move_to 0 r T2 else Ok T2);
      T4 ← (if (i <? len - 1)%nat then '(_, w) ← index pipes (Z.of_nat i); move_to 1 w T3 else Ok T3);
      let T5 := close_pipes pipes T4 in
      path ← index (args_copy a) 0;
      Ok (Some (mkExec path (args_addr a) T5)).

(** The loop that forks the children; each is a process of its own with a copy of the table,
    and a panic is its own. *)
Fixpoint fork_all (opens : list Z -> bool) (len : nat) (pipes : list (nat * nat)) (T : table) (i : nat) (l : list ProcessArguments)
  : list (res (option executing)) :=
  match l with
  | [] => []
  | a :: rest => child opens i len a pipes T :: fork_all opens len pipes T (S i) rest
  end.

(** The pipeline: what the children come to, and the table of the shell when it waits. *)
Definition pipeline (opens : list Z -> bool) (l : list ProcessArguments) (T : table) : list (res (option executing)) * table :=
  let '(pipes, T1) := make_pipes 0 (length l - 1) T in
  (fork_all opens (length l) pipes T1 0 l, close_pipes pipes T1).
End shell.

(** ** Tables as finite functions *)

Section table_lemmas.
Context {A : Type}.
Implicit Types (T : list (option A)).

Lemma t_open_spec T f n T' : t_open T f = (n, T') ->
  opened T n = None /\ (forall m, (m < n)%nat -> opened T m <> None) /\
  forall x, opened T' x = if decide (x = n) then Some f else opened T x.
Proof.
  unfold t_open, opened. destruct (find_index _ T) as [i|] eqn:E; intros [= <- <-].
  - apply find_index_Some in E as (o & Ho & Hn & Hlt). destruct o; [done|]. split; [by rewrite Ho|]. split.
    + intros m Hm. pose proof (lookup_lt_Some _ _ _ Ho). destruct (lookup_lt_is_Some_2 T m) as [[g|] Hg]; [lia|by rewrite Hg|].
      by specialize (Hlt m None Hm Hg).
    + intros x. pose proof (lookup_lt_Some _ _ _ Ho). case_decide as Hx; [subst; by rewrite list_lookup_insert_eq|].
      by rewrite list_lookup_insert_ne.
  - apply find_index_None in E. split; [by rewrite lookup_ge_None_2|]. split.
    + intros m Hm. destruct (lookup_lt_is_Some_2 T m Hm) as [[g|] Hg]; [by rewrite Hg|]. by eapply Forall_lookup_1 in E; [|exact Hg].
    + intros x. case_decide as Hx; [subst; by rewrite lookup_app_r, Nat.sub_diag|].
      destruct (decide (x < length T)%nat); [by rewrite lookup_app_l|]. rewrite (lookup_ge_None_2 T) by lia. apply not_eq in Hx as [|]; [lia|].
      by rewrite lookup_ge_None_2 by (rewrite length_app; cbn; lia).
Qed.

Lemma t_close_spec T fd x : opened (t_close T fd) x = if decide (x = fd) then None else opened T x.
Proof.
  unfold t_close, opened. destruct (T !! fd) as [[f|]|] eqn:E.
  - case_decide as Hx; [subst; rewrite list_lookup_insert_eq; [done|by eapply lookup_lt_Some]|by rewrite list_lookup_insert_ne].
  - case_decide as Hx; [by subst; rewrite E|done].
  - case_decide as Hx; [by subst; rewrite E|done].
Qed.

(** [dup] of an open descriptor when [fd] is the lowest hole. *)
Lemma t_dup_spec T fd from f :
  opened T from = Some f -> opened T fd = None -> (forall m, (m < fd)%nat -> opened T m <> None) ->
  exists T', t_dup T from = Some (fd, T') /\ forall x, opened T' x = if decide (x = fd) then Some f else opened T x.
Proof.
  intros Hf Hfd Hlow. unfold t_dup. unfold opened in Hf at 1. destruct (T !! from) as [[g|]|]; simplify_eq/=.
  destruct (t_open T f) as [n T'] eqn:E. destruct (t_open_spec _ _ _ _ E) as (Hn & Hlt & Hx).
  assert (n = fd) as ->.
  { destruct (lt_eq_lt_dec n fd) as [[Hl| ->]|Hl]; [by destruct (Hlow n Hl)|done|by destruct (Hlt fd Hl)]. }
  by exists T'.
Qed.
End table_lemmas.

Section wiring.
Context {A : Type}.
Implicit Types (T : list (option (file A))) (pipes : list (nat * nat)).

Lemma move_to_spec T fd from f :
  from <> fd -> opened T from = Some f -> (forall m, (m < fd)%nat -> opened T m <> None) ->
  exists T', move_to fd from T = Ok T' /\ forall x, opened T' x = if decide (x = fd) then Some f else opened T x.
Proof.
  intros Hne Hf Hlow. unfold move_to. destruct (t_dup_spec (t_close T fd) fd from f) as (T' & E & Hx).
  - by rewrite t_close_spec, decide_False.
  - by rewrite t_close_spec, decide_True.
  - intros m Hm. rewrite t_close_spec, decide_False by lia. by apply Hlow.
  - rewrite E, Nat.eqb_refl. exists T'. split; [done|]. intros x. rewrite Hx, t_close_spec. by repeat case_decide.
Qed.

Lemma redirect_spec T fd f : (forall m, (m <= fd)%nat -> opened T m <> None) ->
  exists T', redirect fd f T = Ok T' /\ forall x, opened T' x = if decide (x = fd) then Some f else opened T x.
Proof.
  intros Hlow. unfold redirect. destruct (t_open T f) as [n T1] eqn:E. destruct (t_open_spec _ _ _ _ E) as (Hn & _ & Hx).
  assert (Hne : (fd < n)%nat). { apply Nat.nle_gt. intros Hle. by destruct (Hlow n Hle). }
  destruct (move_to_spec T1 fd n f) as (T2 & E2 & Hx2); [lia|by rewrite Hx, decide_True|..].
  - intros m Hm. rewrite Hx, decide_False by lia. apply Hlow. lia.
  - rewrite E2. cbn. exists (t_close T2 n). split; [done|]. intros x. rewrite t_close_spec, Hx2, Hx.
    case_decide as Hxn; [|by repeat case_decide]. subst. by rewrite decide_False by lia.
Qed.

(** [fd] belongs to a pipe. *)
Definition pipe_fds pipes : list nat := pipes ≫= fun p => [p.1; p.2].

Lemma elem_of_pipe_fds pipes x : x ∈ pipe_fds pipes <-> exists p, p ∈ pipes /\ (x = p.1 \/ x = p.2).
Proof.
  unfold pipe_fds. rewrite list_elem_of_bind. setoid_rewrite elem_of_cons. setoid_rewrite list_elem_of_singleton. naive_solver.
Qed.

Record pipes_made (j : nat) T pipes T' : Prop := {
  pm_ends k r w : pipes !! k = Some (r, w) -> opened T' r = Some (ReadEnd (j + k)) /\ opened T' w = Some (WriteEnd (j + k)) /\
    opened T r = None /\ opened T w = None;
  pm_rest x : x ∉ pipe_fds pipes -> opened T' x = opened T x;
}.

Lemma make_pipes_spec j m T pipes T' : make_pipes j m T = (pipes, T') -> length pipes = m /\ pipes_made j T pipes T'.
Proof.
  revert j T pipes T'. induction m as [|m IH]; intros j T pipes T'; cbn [make_pipes].
  { intros [= <- <-]. split; [done|]. by split. }
  destruct (t_open T (ReadEnd j)) as [r T1] eqn:E1. destruct (t_open T1 (WriteEnd j)) as [w T2] eqn:E2.
  destruct (make_pipes (S j) m T2) as [ps T3] eqn:E3. intros [= <- <-]. destruct (IH _ _ _ _ E3) as [Hlen [He Hr]].
  destruct (t_open_spec _ _ _ _ E1) as (Hn1 & _ & Hx1). destruct (t_open_spec _ _ _ _ E2) as (Hn2 & _ & Hx2).
  assert (Hrw : r <> w). { intros ->. by rewrite Hx1, decide_True in Hn2. }
  assert (Hw : opened T w = None). { rewrite Hx1, decide_False in Hn2; done. }
  assert (Hin : forall x, x ∈ pipe_fds ps -> opened T2 x = None).
  { intros x ([a b] & (k & Hk)%list_elem_of_lookup & Hab)%elem_of_pipe_fds. destruct (He k a b Hk) as (_ & _ & ? & ?). naive_solver. }
  assert (Hr2 : opened T2 r = Some (ReadEnd j)) by (by rewrite Hx2, Hx1, decide_False, decide_True).
  assert (Hw2 : opened T2 w = Some (WriteEnd j)) by (by rewrite Hx2, decide_True).
  split; [cbn; lia|]. split.
  - intros [|k] a b; cbn [lookup list_lookup].
    + intros [= <- <-]. rewrite Nat.add_0_r. rewrite !Hr; [done|..]; intros Hx%Hin; congruence.
    + intros Hk. destruct (He k a b Hk) as (H1 & H2 & H3 & H4). rewrite <- Nat.add_succ_comm.
      assert (a <> r /\ a <> w /\ b <> r /\ b <> w) as (? & ? & ? & ?) by (split_and!; congruence).
      rewrite Hx2, Hx1, !decide_False in H3 by done. by rewrite Hx2, Hx1, !decide_False in H4 by done.
  - intros x Hx. cbn in Hx. apply not_elem_of_cons in Hx as [Hxr Hx]. apply not_elem_of_cons in Hx as [Hxw Hx].
    by rewrite Hr, Hx2, Hx1, !decide_False.
Qed.

Lemma close_pipes_spec pipes T x : opened (close_pipes pipes T) x = if decide (x ∈ pipe_fds pipes) then None else opened T x.
Proof.
  revert T. induction pipes as [|[r w] ps IH]; intros T; cbn; [by rewrite decide_False by (apply not_elem_of_nil)|].
  unfold close_pipes in *. rewrite IH, !t_close_spec. cbn [fst snd].
  repeat case_decide; set_solver.
Qed.

(** Standard input and output of the process at place [i]. *)
Definition stdin_of T (i : nat) (a : ProcessArguments) : option (file A) :=
  if (0 <? i)%nat then Some (ReadEnd (i - 1)) else if is_empty (input a) then opened T 0 else Some (InputFile (input a)).
Definition stdout_of T (len i : nat) (a : ProcessArguments) : option (file A) :=
  if (i <? len - 1)%nat then Some (WriteEnd i) else if is_empty (output a) then opened T 1 else Some (OutputFile (output a)).
Definition wired T (len i : nat) (a : ProcessArguments) (x : nat) : option (file A) :=
  if decide (x = 0%nat) then stdin_of T i a else if decide (x = 1%nat) then stdout_of T len i a else opened T x.

(** The files named in a command can be opened. *)
Definition can_open (opens : list Z -> bool) (a : ProcessArguments) : Prop :=
  (input a <> [] -> opens (input a) = true) /\ (output a <> [] -> opens (output a) = true).

Lemma is_empty_nil {B} (l : list B) : is_empty l = true <-> l = [].
Proof. by destruct l. Qed.

Lemma child_files opens a T0 T1 pipes :
  pipes_made 0 T0 pipes T1 -> opened T0 0 <> None -> opened T0 1 <> None -> can_open opens a ->
  exists T2 T3, (if is_empty (input a) then Ok T1 else redirect 0 (InputFile (input a)) T1) = Ok T2 /\
    (if is_empty (output a) then Ok T2 else redirect 1 (OutputFile (output a)) T2) = Ok T3 /\
    forall x, opened T3 x = if decide (x = 0%nat) then if is_empty (input a) then opened T0 0 else Some (InputFile (input a))
      else if decide (x = 1%nat) then if is_empty (output a) then opened T0 1 else Some (OutputFile (output a)) else opened T1 x.
Proof.
  intros [He Hr] H0 H1 Ho.
  assert (Hkeep : forall x, opened T0 x <> None -> opened T1 x = opened T0 x).
  { intros x Hx. apply Hr. intros ([r w] & (k & Hk)%list_elem_of_lookup & Hin)%elem_of_pipe_fds.
    destruct (He k r w Hk) as (_ & _ & ? & ?). naive_solver. }
  assert (Hin : exists T2, (if is_empty (input a) then Ok T1 else redirect 0 (InputFile (input a)) T1) = Ok T2 /\
    forall x, opened T2 x = if decide (x = 0%nat) then if is_empty (input a) then opened T0 0 else Some (InputFile (input a)) else opened T1 x).
  { destruct (is_empty (input a)).
    - exists T1. split; [done|]. intros x. case_decide; [subst; by apply Hkeep|done].
    - apply redirect_spec. intros m Hm. assert (m = 0%nat) as -> by lia. by rewrite Hkeep. }
  destruct Hin as (T2 & E2 & Hx2). exists T2.
  assert (H2 : opened T2 0 <> None /\ opened T2 1 = opened T0 1).
  { rewrite !Hx2. cbn. split; [by destruct (is_empty (input a))|]. by apply Hkeep. }
  destruct (is_empty (output a)).
  - exists T2. split_and!; [done|done|]. intros x. rewrite Hx2. repeat case_decide; try done. subst. apply Hkeep. done.
  - destruct (redirect_spec T2 1 (OutputFile (output a))) as (T3 & E3 & Hx3).
    { intros m Hm. destruct m as [|[|]]; [apply H2|by rewrite (proj2 H2)|lia]. }
    exists T3. split_and!; [done|done|]. intros x. rewrite Hx3, Hx2. by repeat case_decide; subst.
Qed.

Lemma pipe_index pipes k r w : pipes !! k = Some (r, w) -> index pipes (Z.of_nat k) = Ok (r, w).
Proof. intros Hk. apply index_Ok. rewrite Nat2Z.id. split; [lia|done]. Qed.

Lemma child_spec opens i len a T0 T1 pipes :
  pipes_made 0 T0 pipes T1 -> length pipes = (len - 1)%nat -> (i < len)%nat -> opened T0 0 <> None -> opened T0 1 <> None -> can_open opens a ->
  exists T', child opens i len a pipes T1 = (path ← index (args_copy a) 0; Ok (Some (mkExec path (args_addr a) T'))) /\
    forall x, opened T' x = wired T0 len i a x.
Proof.
  intros Hpm Hlen Hi H0 H1 Ho. destruct (child_files opens a T0 T1 pipes Hpm H0 H1 Ho) as (T2 & T3 & E2 & E3 & Hx3).
  destruct Hpm as [He Hr]. unfold child.
  assert (Hopen : forall p, (p <> [] -> opens p = true) -> negb (is_empty p) && negb (opens p) = false).
  { intros p Hp. destruct p; [done|]. by rewrite (Hp ltac:(done)). }
  rewrite (Hopen _ (proj1 Ho)), E2. cbn [mbind res_bind]. rewrite (Hopen _ (proj2 Ho)), E3. cbn [mbind res_bind].
  assert (Hends : forall k r w, pipes !! k = Some (r, w) ->
    r <> 0%nat /\ r <> 1%nat /\ w <> 0%nat /\ w <> 1%nat /\ opened T3 r = Some (ReadEnd k) /\ opened T3 w = Some (WriteEnd k)).
  { intros k r w Hk. destruct (He k r w Hk) as (Hr1 & Hw1 & Hr0 & Hw0).
    assert (r <> 0%nat /\ r <> 1%nat /\ w <> 0%nat /\ w <> 1%nat) as (? & ? & ? & ?) by (split_and!; congruence).
    split_and!; [done..|by rewrite Hx3, !decide_False|by rewrite Hx3, !decide_False]. }
  assert (H3 : exists T4, (if (0 <? i)%nat then '(r, _) ← index pipes (Z.of_nat i - 1); move_to 0 r T3 else Ok T3) = Ok T4 /\
    forall x, opened T4 x = if decide (x = 0%nat) then stdin_of T0 i a else opened T3 x).
  { unfold stdin_of. destruct (Nat.ltb_spec 0 i).
    - destruct (lookup_lt_is_Some_2 pipes (i - 1)) as [[r w] Hk]; [lia|]. destruct (Hends _ _ _ Hk) as (Hne & _ & _ & _ & Hrd & _).
      replace (Z.of_nat i - 1) with (Z.of_nat (i - 1)) by lia. rewrite (pipe_index _ _ _ _ Hk). apply move_to_spec; [done|done|lia].
    - exists T3. split; [done|]. intros x. rewrite Hx3. by repeat case_decide. }
  destruct H3 as (T4 & E4 & Hx4). rewrite E4. cbn [mbind res_bind].
  assert (H5 : exists T5, (if (i <? len - 1)%nat then '(_, w) ← index pipes (Z.of_nat i); move_to 1 w T4 else Ok T4) = Ok T5 /\
    forall x, opened T5 x = if decide (x = 1%nat) then stdout_of T0 len i a else opened T4 x).
  { unfold stdout_of. destruct (Nat.ltb_spec i (len - 1)).
    - destruct (lookup_lt_is_Some_2 pipes i) as [[r w] Hk]; [lia|]. destruct (Hends _ _ _ Hk) as (_ & _ & Hw0 & Hw1 & _ & Hwr).
      rewrite (pipe_index _ _ _ _ Hk). apply move_to_spec; [done|by rewrite Hx4, decide_False|].
      intros m Hm. assert (m = 0%nat) as -> by lia. rewrite Hx4. cbn. unfold stdin_of. by repeat case_match.
    - exists T4. split; [done|]. intros x. rewrite Hx4, Hx3. by repeat case_decide; subst. }
  destruct H5 as (T5 & E5 & Hx5). rewrite E5. cbn [mbind res_bind]. eexists. split; [done|]. intros x. rewrite close_pipes_spec, Hx5, Hx4, Hx3.
  unfold wired. case_decide as Hp.
  - apply elem_of_pipe_fds in Hp as ([r w] & (k & Hk)%list_elem_of_lookup & Hin). destruct (Hends k r w Hk) as (? & ? & ? & ? & _).
    destruct (He k r w Hk) as (_ & _ & ? & ?). rewrite !decide_False by naive_solver. naive_solver.
  - repeat case_decide; subst; try done. by apply Hr.
Qed.

(** A child that reaches [exec] does so with table [T']; one without a command panics there. *)
Definition executes (a : ProcessArguments) (r : res (option executing)) (Q : list (option (file A)) -> Prop) : Prop :=
  match args_copy a with
  | [] => exists e, r = Panic e
  | path :: _ => exists T', r = Ok (Some (mkExec path (args_addr a) T')) /\ Q T'
  end.

Lemma fork_all_spec opens len T0 T1 pipes i l :
  pipes_made 0 T0 pipes T1 -> length pipes = (len - 1)%nat -> (i + length l <= len)%nat -> opened T0 0 <> None -> opened T0 1 <> None ->
  Forall (can_open opens) l ->
  forall k a, l !! k = Some a -> exists r, fork_all opens len pipes T1 i l !! k = Some r /\
    executes a r (fun T' => forall x, opened T' x = wired T0 len (i + k) a x).
Proof.
  intros Hpm Hlen Hi H0 H1 Ho. revert i Hi. induction Ho as [|a l Ha Ho IH]; intros i Hi k b Hk; [done|]. cbn [length] in Hi. cbn [fork_all].
  destruct k as [|k]; cbn in Hk |- *.
  - injection Hk as <-. destruct (child_spec opens i len a T0 T1 pipes Hpm Hlen ltac:(lia) H0 H1 Ha) as (T' & E & Hx).
    eexists. split; [done|]. rewrite E, Nat.add_0_r. unfold executes. destruct (args_copy a) as [|path args]; [by eexists|]. exists T'. done.
  - destruct (IH (S i) ltac:(lia) k b Hk) as (r & Er & Hr). exists r. split; [done|]. by replace (i + S k)%nat with (S i + k)%nat by lia.
Qed.

Lemma fork_all_length opens len pipes (T : list (option (file A))) i l : length (fork_all opens len pipes T i l) = length l.
Proof. revert i. induction l as [|a l IH]; intros i; cbn; [done|]. by rewrite IH. Qed.

(** Where the redirections go in a line the check accepts. *)
Lemma valid_place l i a : valid l = true -> l !! i = Some a ->
  (input a <> [] -> i = 0%nat) /\ (output a <> [] -> i = (length l - 1)%nat).
Proof.
  unfold valid. intros Hv Hi. pose proof (lookup_lt_Some _ _ _ Hi). destruct (Nat.eqb_spec (length l) 1) as [E|E]; [split; intros; lia|].
  assert (Hp : place_ok (length l) i a = true).
  { apply Is_true_eq_left, forallb_True in Hv. rewrite Forall_lookup in Hv. specialize (Hv i (place_ok (length l) i a)).
    rewrite list_lookup_imap, Hi in Hv. by apply Is_true_eq_true, Hv. }
  revert Hp. unfold place_ok. destruct (Nat.eqb_spec i 0), (Nat.eqb_spec i (length l - 1)); rewrite ?andb_true_iff, ?is_empty_nil; naive_solver.
Qed.
End wiring.

(** ** The text of a command line *)

Record command := mkCommand { words : list (list Z); from : option (list Z); to : option (list Z) }.

Fixpoint join (sep : Z) (ws : list (list Z)) : list Z :=
  match ws with
  | [] => []
  | [w] => w
  | w :: ws' => w ++ sep :: join sep ws'
  end.
Definition arrow (c : Z) (o : option (list Z)) : list (list Z) := match o with Some f => [[c]; f] | None => [] end.
Definition tokens (c : command) : list (list Z) := words c ++ arrow LESS (from c) ++ arrow GREATER (to c).
Definition render (cs : list command) : list Z := join BAR ((fun c => join SPACE (tokens c)) <$> cs).

(** A word of the shell. *)
Record word_ok (w : list Z) : Prop := {
  wo_nonempty : w <> [];
  wo_space : SPACE ∉ w;
  wo_bar : BAR ∉ w;
  wo_less : w <> [LESS];
  wo_greater : w <> [GREATER];
}.
Definition command_ok (c : command) : Prop :=
  Forall word_ok (words c) /\ (forall f, from c = Some f -> word_ok f) /\ (forall f, to c = Some f -> word_ok f).

Definition terminated (w : list Z) : list Z := w ++ [NUL].
Definition file_name (o : option (list Z)) : list Z := match o with Some f => terminated f | None => [] end.
Definition arguments (c : command) : ProcessArguments :=
  mkArguments (file_name (from c)) (file_name (to c)) (terminated <$> words c) ((Some <$> seq 0 (length (words c))) ++ [None]).

Lemma split_word sep w : sep ∉ w -> split sep w = [w].
Proof.
  induction w as [|c w IH]; [done|]. intros [Hc Hw]%not_elem_of_cons. cbn. destruct (Z.eqb_spec c sep); [congruence|]. by rewrite IH.
Qed.

Lemma split_app sep w s : sep ∉ w -> split sep (w ++ sep :: s) = w :: split sep s.
Proof.
  induction w as [|c w IH]; [cbn; by rewrite Z.eqb_refl|]. intros [Hc Hw]%not_elem_of_cons. cbn. destruct (Z.eqb_spec c sep); [congruence|].
  by rewrite IH.
Qed.

Lemma split_join sep ws : ws <> [] -> Forall (fun w => sep ∉ w) ws -> split sep (join sep ws) = ws.
Proof.
  intros Hne Hall. induction Hall as [|w ws Hw Hall IH]; [done|]. destruct ws as [|w' ws]; [by apply split_word|].
  change (join sep (w :: w' :: ws)) with (w ++ sep :: join sep (w' :: ws)). rewrite split_app by done. f_equal. by apply IH.
Qed.

Lemma join_bar ws : Forall (fun w => BAR ∉ w) ws -> BAR ∉ join SPACE ws.
Proof.
  intros Hall. induction Hall as [|w ws Hw Hall IH]; [apply not_elem_of_nil|]. destruct ws as [|w' ws]; [done|].
  change (join SPACE (w :: w' :: ws)) with (w ++ SPACE :: join SPACE (w' :: ws)). rewrite not_elem_of_app, not_elem_of_cons. done.
Qed.

Lemma redirection_none c l : Forall (fun w => w <> [c; NUL]) l -> redirection c l = Ok ([], l).
Proof.
  intros Hall. unfold redirection. destruct (find_index _ l) as [i|] eqn:E; [|done].
  apply find_index_Some in E as (w & Hw & Heq%bool_decide_eq_true & _). by eapply Forall_lookup_1 in Hall; [|exact Hw].
Qed.

Lemma redirection_found c l f l' : Forall (fun w => w <> [c; NUL]) l -> redirection c (l ++ [c; NUL] :: f :: l') = Ok (f, l ++ l').
Proof.
  intros Hall. unfold redirection. destruct (find_index _ (l ++ _)) as [i|] eqn:E.
  - apply find_index_Some in E as (w & Hw & Heq%bool_decide_eq_true & Hlow). assert (i = length l) as ->.
    { destruct (lt_eq_lt_dec i (length l)) as [[Hl|]|Hl]; [|done|].
      - rewrite lookup_app_l in Hw by done. by eapply Forall_lookup_1 in Hall; [|exact Hw].
      - specialize (Hlow (length l) [c; NUL] Hl). rewrite lookup_app_r, Nat.sub_diag in Hlow by lia. specialize (Hlow eq_refl).
        by apply bool_decide_eq_false in Hlow. }
    rewrite (proj2 (index_Ok _ _ f)).
    + cbn. rewrite take_app_length, drop_app_ge by lia. by replace (length l + 2 - length l)%nat with 2%nat by lia.
    + split; [lia|]. rewrite lookup_app_r by lia. by replace (Z.to_nat (Z.of_nat (length l) + 1) - length l)%nat with 1%nat by lia.
  - apply find_index_None in E. apply Forall_app in E as [_ [E _]%Forall_cons]. by apply bool_decide_eq_false in E.
Qed.

Lemma terminated_ne w c : w <> [c] -> terminated w <> [c; NUL].
Proof. intros Hw. unfold terminated. change [c; NUL] with ([c] ++ [NUL]). by intros ->%app_inj_tail_iff%proj1. Qed.

Lemma filter_words (ws : list (list Z)) : Forall (fun w => SPACE ∉ w /\ w <> []) ws -> filter (fun w => w <> []) ws = ws.
Proof. induction 1 as [|w ws [_ Hw] Hall IH]; [done|]. by rewrite filter_cons_True, IH. Qed.

Lemma tokens_nonempty c : command_ok c -> filter (fun w => w <> []) (split SPACE (join SPACE (tokens c))) = tokens c.
Proof.
  intros (Hw & Hf & Ht). assert (Hall : Forall (fun w => SPACE ∉ w /\ w <> []) (tokens c)).
  { unfold tokens, arrow. apply Forall_app. split; [|apply Forall_app; split].
    - eapply Forall_impl; [exact Hw|]. by intros w [? ? _ _ _].
    - destruct (from c) as [f|]; [|done]. destruct (Hf f eq_refl). repeat constructor; try done. by intros ?%list_elem_of_singleton.
    - destruct (to c) as [f|]; [|done]. destruct (Ht f eq_refl). repeat constructor; try done. by intros ?%list_elem_of_singleton. }
  destruct (tokens c) as [|w ws] eqn:E; [done|]. rewrite split_join; [|done|by eapply Forall_impl; [exact Hall|intros ? []]].
  by apply filter_words.
Qed.

Lemma terminated_words c ws : (c = LESS \/ c = GREATER) -> Forall word_ok ws -> Forall (fun w => w <> [c; NUL]) (terminated <$> ws).
Proof. intros Hc Hall. apply Forall_fmap. eapply Forall_impl; [exact Hall|]. intros w [? ? ? ? ?]. apply terminated_ne. by destruct Hc as [->| ->]. Qed.

Lemma new_render c : command_ok c -> ProcessArguments_new (join SPACE (tokens c)) = Ok (arguments c).
Proof.
  intros Hc. pose proof Hc as (Hw & Hf & Ht). unfold ProcessArguments_new. rewrite tokens_nonempty by done. fold terminated. unfold tokens.
  rewrite !fmap_app. pose proof (terminated_words LESS _ (or_introl eq_refl) Hw) as H1.
  pose proof (terminated_words GREATER _ (or_intror eq_refl) Hw) as H2.
  assert (Hto : Forall (fun w => w <> [LESS; NUL]) (terminated <$> arrow GREATER (to c))).
  { destruct (to c) as [f|]; [|done]. destruct (Ht f eq_refl) as [_ _ _ ? _]. cbn. repeat constructor; [done|]. by apply terminated_ne. }
  assert (E1 : redirection LESS ((terminated <$> words c) ++ (terminated <$> arrow LESS (from c)) ++ (terminated <$> arrow GREATER (to c))) =
    Ok (file_name (from c), (terminated <$> words c) ++ (terminated <$> arrow GREATER (to c)))).
  { destruct (from c) as [f|]; cbn [arrow fmap list_fmap app]; [by apply redirection_found|]. apply redirection_none. by apply Forall_app. }
  assert (E2 : redirection GREATER ((terminated <$> words c) ++ (terminated <$> arrow GREATER (to c))) = Ok (file_name (to c), terminated <$> words c)).
  { destruct (to c) as [f|]; cbn [arrow fmap list_fmap].
    - etrans; [by apply redirection_found|]. by rewrite app_nil_r.
    - rewrite app_nil_r. by apply redirection_none. }
  rewrite E1. cbn [mbind res_bind]. rewrite E2. cbn [mbind res_bind]. by rewrite length_fmap.
Qed.

(** The shell reads what is written: the line of any pipeline of commands, each with its
    words and redirections, parses to exactly these commands, every word and file name
    with its terminating zero and the pointers ended by null. *)
Theorem shell_parses_rendered cs : cs <> [] -> Forall command_ok cs -> parse_line (render cs) = Ok (arguments <$> cs).
Proof.
  intros Hne Hall. unfold parse_line, render. rewrite split_join.
  - clear Hne. induction Hall as [|c cs Hc Hall IH]; [done|]. rewrite !fmap_cons. cbn [parse_commands].
    rewrite (new_render c Hc). cbn [mbind res_bind]. by rewrite IH.
  - by destruct cs.
  - apply Forall_fmap. eapply Forall_impl; [exact Hall|]. intros c (Hw & Hf & Ht). apply join_bar. unfold tokens, arrow.
    apply Forall_app. split; [by eapply Forall_impl; [exact Hw|intros ? []]|]. apply Forall_app. split.
    + destruct (from c) as [f|]; [|done]. destruct (Hf f eq_refl). repeat constructor; [by intros ?%list_elem_of_singleton|done].
    + destruct (to c) as [f|]; [|done]. destruct (Ht f eq_refl). repeat constructor; [by intros ?%list_elem_of_singleton|done].
Qed.

(** [cat < notes | sort -r > out] *)
Definition demo_commands : list command :=
  [ mkCommand [[99; 97; 116]] (Some [110; 111; 116; 101; 115]) None;
    mkCommand [[115; 111; 114; 116]; [45; 114]] None (Some [111; 117; 116]) ].

Lemma demo_commands_ok : Forall command_ok demo_commands.
Proof.
  assert (Hw : forall w, bool_decide (w <> [] /\ SPACE ∉ w /\ BAR ∉ w /\ w <> [LESS] /\ w <> [GREATER]) = true -> word_ok w).
  { intros w (? & ? & ? & ? & ?)%bool_decide_eq_true. done. }
  apply Forall_cons; split; [|apply Forall_cons; split; [|done]]; split_and!; cbn.
  1, 4: repeat (apply Forall_cons; split; [by apply Hw|]); by apply Forall_nil.
  all: intros f [= <-]; by apply Hw.
Qed.

Lemma shell_parses_rendered_witness : parse_line (render demo_commands) = Ok (arguments <$> demo_commands).
Proof. apply shell_parses_rendered; [done|exact demo_commands_ok]. Defined.

(** C24: a pipeline is connected as it is written.  For a line the check accepts, all of
    whose files can be opened, run by a shell with standard input and output open and no pipe
    of its own: a child with a command calls [exec] on its first word with its arguments, and
    no assertion fails before; a child without one panics at that point, and the others do
    not notice.  Then the descriptor 1 of child [i] is the write end of pipe [i] unless it is
    the last and its descriptor 0 the read end of pipe [i - 1] unless it is the first; the
    ends of the pipeline are the files of the redirections or what the shell has; no other
    descriptor of any child is an end of a pipe, and the shell itself is left with what it
    had.  So each pipe has one writer and one reader. *)
Theorem pipeline_is_wired {A} (T : list (option (file A))) opens l :
  valid l = true -> Forall (can_open opens) l -> opened T 0 <> None -> opened T 1 <> None ->
  (forall x f, opened T x = Some f -> exists a, f = Inherited a) ->
  exists cs T', pipeline opens l T = (cs, T') /\ length cs = length l /\ (forall x, opened T' x = opened T x) /\
    forall i a, l !! i = Some a -> exists r, cs !! i = Some r /\
    match args_copy a with
    | [] => exists e, r = Panic e
    | path :: _ => exists Ti, r = Ok (Some (mkExec path (args_addr a) Ti)) /\
        opened Ti 0 = (if (0 <? i)%nat then Some (ReadEnd (i - 1)) else if is_empty (input a) then opened T 0 else Some (InputFile (input a))) /\
        opened Ti 1 = (if (i <? length l - 1)%nat then Some (WriteEnd i) else if is_empty (output a) then opened T 1 else Some (OutputFile (output a))) /\
        (input a <> [] -> opened Ti 0 = Some (InputFile (input a))) /\ (output a <> [] -> opened Ti 1 = Some (OutputFile (output a))) /\
        (forall fd j, opened Ti fd = Some (ReadEnd j) -> fd = 0%nat /\ i = S j) /\
        (forall fd j, opened Ti fd = Some (WriteEnd j) -> fd = 1%nat /\ j = i /\ (S i < length l)%nat)
    end.
Proof.
  intros Hv Ho H0 H1 Hfiles. unfold pipeline. destruct (make_pipes 0 (length l - 1) T) as [pipes T1] eqn:Ep.
  destruct (make_pipes_spec _ _ _ _ _ Ep) as [Hlen Hpm]. eexists _, _. split_and!; [done|apply fork_all_length| |].
  - intros x. rewrite close_pipes_spec. case_decide as Hx; [|by apply Hpm].
    apply elem_of_pipe_fds in Hx as ([r w] & (k & Hk)%list_elem_of_lookup & Hin). destruct (pm_ends _ _ _ _ Hpm k r w Hk) as (_ & _ & ? & ?).
    naive_solver.
  - intros i a Hi. destruct (fork_all_spec opens (length l) T T1 pipes 0 l Hpm Hlen ltac:(lia) H0 H1 Ho i a Hi) as (r & Er & Hr). exists r. split; [done|].
    unfold executes in Hr. destruct (args_copy a) as [|path args]; [done|]. destruct Hr as (Ti & -> & Hx). exists Ti. rewrite Nat.add_0_l in Hx. rewrite !Hx.
    destruct (valid_place l i a Hv Hi) as [Hin Hout]. pose proof (lookup_lt_Some _ _ _ Hi) as Hlt. split_and!; [done|done|done|..].
    + intros Hne. unfold wired, stdin_of. cbn. rewrite (Hin Hne). cbn. by destruct (input a) eqn:E.
    + intros Hne. unfold wired, stdout_of. rewrite decide_False, decide_True, (Hout Hne) by done. rewrite Nat.ltb_irrefl. by destruct (output a) eqn:E.
    + intros fd j. rewrite Hx. unfold wired, stdin_of, stdout_of. repeat case_decide; repeat case_match; rewrite ?Nat.ltb_lt in *;
        try (intros E; by destruct (Hfiles _ _ E)); intros [= <-]; split; lia.
    + intros fd j. rewrite Hx. unfold wired, stdin_of, stdout_of. repeat case_decide; repeat case_match; rewrite ?Nat.ltb_lt in *;
        try (intros E; by destruct (Hfiles _ _ E)); intros [= <-]; split_and!; lia.
Qed.

(** The first process reads [notes] and writes the pipe, the second reads it and writes
    [out]. *)
Lemma pipeline_is_wired_witness :
  exists cs T', pipeline (fun _ => true) (arguments <$> demo_commands) [Some (Inherited 0%nat); Some (Inherited 1%nat); Some (Inherited 1%nat)] = (cs, T') /\
    exists a b, cs !! 0%nat = Some (Ok (Some (mkExec [99; 97; 116; 0] [Some 0%nat; None] a))) /\ opened a 0 = Some (InputFile [110; 111; 116; 101; 115; 0]) /\ opened a 1 = Some (WriteEnd 0) /\
      cs !! 1%nat = Some (Ok (Some (mkExec [115; 111; 114; 116; 0] [Some 0%nat; Some 1%nat; None] b))) /\ opened b 0 = Some (ReadEnd 0) /\ opened b 1 = Some (OutputFile [111; 117; 116; 0]).
Proof.
  destruct (pipeline_is_wired [Some (Inherited 0%nat); Some (Inherited 1%nat); Some (Inherited 1%nat)] (fun _ => true) (arguments <$> demo_commands))
    as (cs & T' & E & Hlen & _ & Hcs); [done|by repeat constructor|done|done| |].
  - intros [|[|[|x]]] f; cbn; [intros [= <-]; eauto..|done].
  - exists cs, T'. split; [exact E|]. destruct (Hcs 0%nat _ eq_refl) as (r & Hr & a & -> & Ha0 & Ha1 & _).
    destruct (Hcs 1%nat _ eq_refl) as (r' & Hr' & b & -> & Hb0 & Hb1 & _). exists a, b.
    split_and!; [exact Hr|exact Ha0|exact Ha1|exact Hr'|exact Hb0|exact Hb1].
Defined.

(** ** The tables are those of the kernel *)

Section kernel.
Context {F : Type} `{FrameAllocator F} {D : Type} `{BlockDevice D}.
Implicit Types (s : fstate F D).

Lemma lowest_free_unique T n m : lowest_free T n -> lowest_free T m -> n = m.
Proof.
  assert (Hle : forall a b, lowest_free T a -> lowest_free T b -> ~ (a < b)%nat).
  { intros a b [Ha _] [_ Hb] Hlt. destruct (Hb a Hlt) as [f Hf]. destruct Ha as [Ha| ->]; [congruence|].
    apply lookup_lt_Some in Hf. lia. }
  intros Hn Hm. pose proof (Hle n m Hn Hm). pose proof (Hle m n Hm Hn). lia.
Qed.

Lemma t_open_lowest (T : list (option nat)) f : lowest_free T (t_open T f).1 /\ (t_open T f).2 = add_fd T (t_open T f).1 f.
Proof.
  destruct (t_open T f) as [n T'] eqn:E. destruct (t_open_spec _ _ _ _ E) as (Hn & Hlow & _). cbn [fst snd]. revert E. unfold t_open, add_fd.
  destruct (find_index _ T) as [i|] eqn:Ei; intros [= <- <-].
  - apply find_index_Some in Ei as (o & Ho & Hp & _). destruct o; [done|]. pose proof (lookup_lt_Some _ _ _ Ho). split.
    + split; [by left|]. intros j Hj. specialize (Hlow j Hj). unfold opened in Hlow. destruct (T !! j) as [[g|]|]; [eauto|done|done].
    + by rewrite decide_False by lia.
  - split; [|by rewrite decide_True].
    split; [by right|]. intros j Hj. specialize (Hlow j Hj). unfold opened in Hlow. destruct (T !! j) as [[g|]|]; [eauto|done|done].
Qed.

Lemma sys_dup_table (efs : Efs.EasyFileSystem) s p b fd : runs s p b -> 0 <= fd -> Z.of_nat (length (fd_table b)) < 2 ^ 63 ->
  sys_dup fd s = match t_dup (fd_table b) (Z.to_nat fd) with
                 | Some (n, T) => Ok (Z.of_nat n, with_table s p b T)
                 | None => Ok (-1, s)
                 end.
Proof.
  intros Hr Hfd Hlen. unfold t_dup. destruct (closed b fd) eqn:Hc.
  - destruct (refused_run efs s p b fd 0 0 Hr Hfd Hc) as (-> & _). destruct (fd_table b !! Z.to_nat fd) as [[f|]|] eqn:Hf; [|done|done].
    assert (closed b fd = false) by (apply closed_spec; eauto). congruence.
  - apply closed_spec in Hc as [f Hf]; [|done]. rewrite Hf. destruct (dup_run s p b fd f Hr Hfd Hlen Hf) as (n & Hn & ->).
    destruct (t_open_lowest (fd_table b) f) as [Hl HT]. destruct (t_open (fd_table b) f) as [m T]. cbn [fst snd] in Hl, HT.
    by rewrite (lowest_free_unique _ _ _ Hn Hl), HT.
Qed.

Lemma sys_close_table (efs : Efs.EasyFileSystem) s p b fd : runs s p b -> 0 <= fd ->
  exists r, sys_close fd s = Ok (r, match fd_table b !! Z.to_nat fd with
    | Some (Some _) => with_table s p b (t_close (fd_table b) (Z.to_nat fd)) | _ => s end).
Proof.
  intros Hr Hfd. unfold t_close. destruct (closed b fd) eqn:Hc.
  - destruct (refused_run efs s p b fd 0 0 Hr Hfd Hc) as (_ & -> & _). exists (-1). destruct (fd_table b !! Z.to_nat fd) as [[f|]|] eqn:Hf; [|done|done].
    assert (closed b fd = false) by (apply closed_spec; eauto). congruence.
  - apply closed_spec in Hc as [f Hf]; [|done]. rewrite Hf. exists 0. by apply close_run with (f := f).
Qed.
End kernel.
