(* ===== verification/Coroutine.v ===== *)
(** The coroutine runtimes of user/src/bin/stackful_coroutine.rs and
    user/src/bin/stackless_coroutine.rs.

    Both promise the same: the bodies take turns, each running from one yield to the next.
    [interleave] is that promise, stated on the segments of output between yields.  [Stackful]
    models the runtime with its contexts, [switch] at the level of registers, and programs
    that run on it; [Stackless] models the executor, its queue of futures and the waiter. *)

From S2P Require Import Prelude.

#[local] Ltac Zify.zify_post_hook ::= Z.to_euclidean_division_equations.

(** ** What both promise *)

Section spec.
Context {Out : Type}.

(** Segment [j] of every body, for [j = 0, 1, ...] *)
Definition longest (bs : list (list (list Out))) : nat := max_list (length <$> bs).
Definition turn (bs : list (list (list Out))) (j : nat) : list Out := bs ≫= fun b => default [] (b !! j).
Definition interleave (bs : list (list (list Out))) : list Out := seq 0 (longest bs) ≫= turn bs.

Definition first_segment (b : list (list Out)) : list Out := default [] (b !! 0%nat).

Lemma longest_tails bs : longest (tail <$> bs) = (longest bs - 1)%nat.
Proof.
  unfold longest. induction bs as [|b bs IH]; [done|]. cbn. change (max_list_with id) with max_list. rewrite IH. destruct b; cbn; lia.
Qed.

Lemma turn_tails bs j : turn (tail <$> bs) j = turn bs (S j).
Proof. unfold turn. induction bs as [|b bs IH]; [done|]. cbn. rewrite IH. by destruct b. Qed.

Lemma turn_past bs j : (longest bs <= j)%nat -> turn bs j = [].
Proof.
  unfold longest, turn. induction bs as [|b bs IH]; [done|]. cbn. intros Hj. rewrite (lookup_ge_None_2 b) by lia. cbn. apply IH. cbn. lia.
Qed.

(** One round. *)
Lemma interleave_round bs : interleave bs = (bs ≫= first_segment) ++ interleave (tail <$> bs).
Proof.
  unfold interleave. rewrite longest_tails. destruct (longest bs) as [|n] eqn:E.
  - cbn. rewrite app_nil_r. symmetry. apply (turn_past bs 0). lia.
  - replace (S n - 1)%nat with n by lia. cbn [seq mbind list_bind]. f_equal. rewrite <- fmap_S_seq. clear E. induction (seq 0 n) as [|j l IH]; [done|].
    cbn. by rewrite turn_tails, IH.
Qed.

(** A body that has ended adds nothing. *)
Lemma longest_alive bs : longest (filter (fun b => b <> []) bs) = longest bs.
Proof.
  unfold longest. induction bs as [|[|s b] bs IH]; [done|..].
  - rewrite filter_cons_False by naive_solver. done.
  - rewrite filter_cons_True by done. cbn. cbn in IH. by rewrite IH.
Qed.

Lemma interleave_alive bs : interleave (filter (fun b => b <> []) bs) = interleave bs.
Proof.
  assert (Ht : forall j, turn (filter (fun b => b <> []) bs) j = turn bs j).
  { intros j. unfold turn. induction bs as [|[|s b] bs IH]; [done|..].
    - rewrite filter_cons_False by naive_solver. done.
    - rewrite filter_cons_True by done. cbn. by rewrite IH. }
  unfold interleave. rewrite longest_alive. induction (seq 0 (longest bs)) as [|j l IH]; [done|]. cbn. by rewrite Ht, IH.
Qed.
End spec.

(** ** stackless_coroutine.rs *)

Module Stackless.
Inductive State := Halted | Running.
Inductive Poll := Ready | Pending.

Section executor.
Context {Out : Type}.

(** [Waiter::poll], on the state of its task. *)
Definition poll_waiter (state : State) : Poll * State :=
  match state with
  | Halted => (Ready, Running)
  | Running => (Pending, Halted)
  end.

(** The future of an async block: what is left of the block, whether it stopped at an
    [await], and the state of its [Task]. *)
Record future := mkFuture { segments : list (list Out); awaiting : bool; task_state : State }.

(** The block runs to its next [await] whose waiter is pending, or to its end. *)
Fixpoint resume (segs : list (list Out)) (st : State) (out : list Out) : Poll * future * list Out :=
  match segs with
  | [] => (Ready, mkFuture [] false st, out)
  | s :: rest =>
      match rest with
      | [] => (Ready, mkFuture [] false st, out ++ s)
      | _ => match poll_waiter st with
             | (Pending, st') => (Pending, mkFuture rest true st', out ++ s)
             | (Ready, st') => resume rest st' (out ++ s)
             end
      end
  end.

Definition poll (f : future) (out : list Out) : Poll * future * list Out :=
  if awaiting f then
    match poll_waiter (task_state f) with
    | (Pending, st') => (Pending, mkFuture (segments f) true st', out)
    | (Ready, st') => resume (segments f) st' out
    end
  else resume (segments f) (task_state f) out.

(** [Executor]: its queue. *)
Definition Executor_new : list future := [].
Definition push (tasks : list future) (block : list (list Out)) : list future :=
  tasks ++ [mkFuture block false Running].

Fixpoint run (fuel : nat) (tasks : list future) (out : list Out) : res (list Out) :=
  match pop_front tasks with
  | None => Ok out
  | Some (task, tasks') =>
      match fuel with
      | O => Panic OutOfFuel
      | S fuel' =>
          match poll task out with
          | (Pending, task', out') => run fuel' (tasks' ++ [task']) out'
          | (Ready, _, out') => run fuel' tasks' out'
          end
      end
  end.

(** A future between two polls. *)
Definition at_rest (f : future) : Prop :=
  segments f <> [] /\ (if awaiting f then task_state f = Halted else task_state f = Running).

Lemma poll_at_rest f s rest out :
  at_rest f -> segments f = s :: rest ->
  exists f', poll f out = (if decide (rest = []) then Ready else Pending, f', out ++ s) /\
    (rest <> [] -> at_rest f' /\ segments f' = rest).
Proof.
  intros [Hne Hst] Hs. unfold poll. destruct (awaiting f); rewrite Hst, Hs; cbn; destruct rest as [|s2 rest];
    eexists; (split; [reflexivity|]); [done|..|done|]; (intros _; split; [by split|done]).
Qed.

(** The rest of a round: [todo] has not been polled yet, [again] has. *)
Lemma run_round (fuel : nat) (todo again : list future) out :
  Forall at_rest todo -> Forall at_rest again ->
  exists again', Forall at_rest again' /\
    segments <$> again' = (segments <$> again) ++ filter (fun b => b <> []) (tail <$> (segments <$> todo)) /\
    run (length todo + fuel) (todo ++ again) out = run fuel again' (out ++ ((segments <$> todo) ≫= first_segment)).
Proof.
  intros Htodo. revert again out. induction Htodo as [|f todo Hf Htodo IH]; intros again out Hagain.
  - exists again. cbn. by rewrite !app_nil_r.
  - destruct (segments f) as [|s rest] eqn:Es; [by destruct Hf|]. destruct (poll_at_rest f s rest out Hf Es) as (f' & Hp & Hf').
    cbn [length Nat.add app run pop_front]. rewrite Hp. cbn [fmap list_fmap mbind list_bind]. rewrite Es. cbn [tail first_segment].
    destruct (decide (rest = [])) as [->|Hne].
    + rewrite filter_cons_False by naive_solver. rewrite app_assoc. by apply IH.
    + destruct (Hf' Hne) as [Hr Hs]. rewrite filter_cons_True by done. rewrite app_assoc, <- (app_assoc todo).
      destruct (IH (again ++ [f']) (out ++ s)) as (again' & Hg & Heq & Hrun); [by apply Forall_app; split; [|constructor]|].
      exists again'. split_and!; [done| |exact Hrun]. rewrite Heq, fmap_app. cbn. by rewrite Hs, <- app_assoc.
Qed.

(** The polls needed. *)
Definition polls (bs : list (list (list Out))) : nat := sum_list (length <$> bs).

Lemma polls_cons b bs : polls (b :: bs) = (length b + polls bs)%nat.
Proof. done. Qed.

Lemma run_rounds n todo out :
  Forall at_rest todo -> (longest (segments <$> todo) <= n)%nat ->
  run (polls (segments <$> todo)) todo out = Ok (out ++ interleave (segments <$> todo)).
Proof.
  revert todo out. induction n as [|n IH]; intros todo out Hr Hn.
  - destruct Hr as [|f todo Hf _]; [cbn; by rewrite app_nil_r|]. exfalso. destruct Hf as [Hf _]. unfold longest in Hn. cbn in Hn.
    destruct (segments f); [done|]. cbn in Hn. lia.
  - assert (Hp : exists m, polls (segments <$> todo) = (length todo + m)%nat /\ m = polls (filter (fun b => b <> []) (tail <$> (segments <$> todo)))).
    { exists (polls (segments <$> todo) - length todo)%nat. clear Hn IH. induction Hr as [|f todo Hf _ [IH1 IH2]]; [done|].
      destruct Hf as [Hf _]. rewrite !fmap_cons, polls_cons. destruct (segments f) as [|s rest] eqn:Es; [done|]. cbn [length tail]. split; [lia|].
      destruct (decide (rest = [])) as [->|Hne].
      - rewrite filter_cons_False by naive_solver. rewrite <- IH2. cbn [length]. lia.
      - rewrite filter_cons_True by done. rewrite polls_cons, <- IH2. lia. }
    destruct Hp as (m & Hm & Em). destruct (run_round m todo [] out Hr) as (again & Hag & Hseg & Hrun); [constructor|].
    rewrite app_nil_r in Hrun. rewrite Hm, Hrun. cbn in Hseg. rewrite Em, <- Hseg, IH; [|done|].
    + rewrite (interleave_round (segments <$> todo)), Hseg, interleave_alive. by rewrite app_assoc.
    + rewrite Hseg, longest_alive, longest_tails. lia.
Qed.
End executor.

(** The block that [main] pushes three times. *)
Inductive message := Begin (instance : Z) | Next (instance : Z) | End_ (instance : Z).
Definition block (i : Z) : list (list message) := [[Begin i]; [Next i]; [End_ i]].
Definition main : res (list message) :=
  run 9 (foldl (fun tasks i => push tasks (block i)) Executor_new [1; 2; 3]) [].
End Stackless.

(** The executor of stackless_coroutine.rs ends and gives its tasks turns: whatever blocks
    were pushed, after as many polls as the blocks have segments the queue is empty, and the
    output is that of the blocks run one segment each in the order they were pushed, round
    after round. *)
Theorem stackless_interleaves {Out : Type} (blocks : list (list (list Out))) :
  Forall (fun b => b <> []) blocks ->
  Stackless.run (Stackless.polls blocks) (foldl Stackless.push Stackless.Executor_new blocks) [] = Ok (interleave blocks).
Proof.
  intros Hb. assert (E : forall acc, foldl Stackless.push acc blocks = acc ++ ((fun b => Stackless.mkFuture b false Stackless.Running) <$> blocks)).
  { clear Hb. induction blocks as [|b l IH]; intros acc; [cbn; by rewrite app_nil_r|]. cbn. rewrite IH. unfold Stackless.push. by rewrite <- app_assoc. }
  rewrite E. cbn [Stackless.Executor_new app]. set (fs := _ <$> blocks).
  assert (Hs : Stackless.segments <$> fs = blocks).
  { unfold fs. rewrite <- list_fmap_compose. apply list_fmap_id. }
  pose proof (Stackless.run_rounds (longest blocks) fs []) as H. rewrite Hs in H. apply H; [|done].
  unfold fs. apply Forall_fmap. eapply Forall_impl; [exact Hb|]. intros b Hne. by split.
Qed.

Lemma stackless_interleaves_witness :
  Stackless.main = Ok [Stackless.Begin 1; Stackless.Begin 2; Stackless.Begin 3; Stackless.Next 1; Stackless.Next 2; Stackless.Next 3;
    Stackless.End_ 1; Stackless.End_ 2; Stackless.End_ 3].
Proof.
  unfold Stackless.main. change 9%nat with (Stackless.polls (Stackless.block <$> [1; 2; 3])). change (foldl _ _ _) with (foldl Stackless.push Stackless.Executor_new (Stackless.block <$> [1; 2; 3])).
  rewrite (stackless_interleaves (Stackless.block <$> [1; 2; 3])); [reflexivity|by repeat constructor].
Defined.

(** ** stackful_coroutine.rs *)

Module Stackful.
Definition DEFAULT_STACK_SIZE : Z := 4096.
Definition MAX_TASKS : nat := 5.

Inductive State := Available | Running | Ready.
#[export] Instance State_eq_dec : EqDecision State.
Proof. solve_decision. Defined.

Record TaskContext := mkContext {
  x1 : Z; x2 : Z; x8 : Z; x9 : Z; x18 : Z; x19 : Z; x20 : Z; x21 : Z; x22 : Z; x23 : Z; x24 : Z; x25 : Z; x26 : Z; x27 : Z;
  nx1 : Z;
}.
Definition TaskContext_default : TaskContext := mkContext 0 0 0 0 0 0 0 0 0 0 0 0 0 0 0.

(** The registers that [switch] saves, and the program counter. *)
Record regs := mkRegs {
  pc : Z; ra : Z; sp : Z; s0 : Z; s1 : Z; s2 : Z; s3 : Z; s4 : Z; s5 : Z; s6 : Z; s7 : Z; s8 : Z; s9 : Z; s10 : Z; s11 : Z;
}.
#[export] Instance regs_eq_dec : EqDecision regs.
Proof. solve_decision. Defined.

(** The new context of the caller and the registers after the jump. *)
Definition switch (r : regs) (new : TaskContext) : TaskContext * regs :=
  (mkContext (ra r) (sp r) (s0 r) (s1 r) (s2 r) (s3 r) (s4 r) (s5 r) (s6 r) (s7 r) (s8 r) (s9 r) (s10 r) (s11 r) (ra r),
   mkRegs (nx1 new) (x1 new) (x2 new) (x8 new) (x9 new) (x18 new) (x19 new) (x20 new) (x21 new) (x22 new) (x23 new) (x24 new)
     (x25 new) (x26 new) (x27 new)).

(** [stack] is where the bytes of the stack are. *)
Record Task := mkTask { id : nat; stack : Z; ctx : TaskContext; state : State }.
Definition with_state (s : State) (t : Task) : Task := mkTask (id t) (stack t) (ctx t) s.
Definition with_ctx (c : TaskContext) (t : Task) : Task := mkTask (id t) (stack t) c (state t).

Record Runtime := mkRuntime { tasks : list Task; current : nat }.

Definition Task_new (i : nat) (stack : Z) : Task := mkTask i stack TaskContext_default Available.

(** [stacks i] is the address of the stack that is allocated for task [i]. *)
Definition Runtime_new (stacks : nat -> Z) : Runtime :=
  let base_task := mkTask 0 (stacks 0%nat) TaskContext_default Running in
  let available_tasks := (fun i => Task_new i (stacks i)) <$> seq 1 (MAX_TASKS - 1) in
  mkRuntime (base_task :: available_tasks) 0.

(** [while self.tasks[pos].state != State::Ready { ... }]: [None] is the return of
    false. *)
Fixpoint find_ready (fuel : nat) (tasks : list Task) (current pos : nat) : res (option nat) :=
  match fuel with
  | O => Panic OutOfFuel
  | S fuel' =>
      t ← index tasks (Z.of_nat pos);
      if decide (state t = Ready) then Ok (Some pos)
      else
        let pos1 := S pos in
        let pos2 := if (pos1 =? length tasks)%nat then O else pos1 in
        if (pos2 =? current)%nat then Ok None else find_ready fuel' tasks current pos2
  end.

(** With the registers at the call of [switch]: [None] when [t_yield] returns false, else
    the registers with which the next task runs. *)
Definition t_yield (rt : Runtime) (r : regs) : res (option regs * Runtime) :=
  o ← find_ready (S (length (tasks rt))) (tasks rt) (current rt) (current rt);
  match o with
  | None => Ok (None, rt)
  | Some pos =>
      t ← index (tasks rt) (Z.of_nat (current rt));
      let tasks1 := if decide (state t = Available) then tasks rt else alter (with_state Ready) (current rt) (tasks rt) in
      let tasks2 := alter (with_state Running) pos tasks1 in
      t' ← index tasks2 (Z.of_nat pos);
      let '(old, r') := switch r (ctx t') in
      Ok (Some r', mkRuntime (alter (with_ctx old) (current rt) tasks2) pos)
  end.

Definition t_return (rt : Runtime) (r : regs) : res (option regs * Runtime) :=
  if (current rt =? 0)%nat then Ok (None, rt)
  else
    _ ← index (tasks rt) (Z.of_nat (current rt));
    t_yield (mkRuntime (alter (with_state Available) (current rt) (tasks rt)) (current rt)) r.

(** The top of the stack, aligned, less 32 bytes. *)
Definition initial_sp (stack : Z) : Z :=
  let s_ptr := Z.land (uadd stack DEFAULT_STACK_SIZE) (unot 7) in
  usub s_ptr 32.

Definition spawn (guard f : Z) (rt : Runtime) : res Runtime :=
  i ← unwrap (find_index (fun t => bool_decide (state t = Available)) (tasks rt));
  let prepare t :=
    let c := ctx t in
    mkTask (id t) (stack t)
      (mkContext guard (initial_sp (stack t)) (x8 c) (x9 c) (x18 c) (x19 c) (x20 c) (x21 c) (x22 c) (x23 c) (x24 c) (x25 c)
         (x26 c) (x27 c) f)
      Ready in
  Ok (mkRuntime (alter prepare i (tasks rt)) (current rt)).

(** ** Programs that run on the runtime *)

Section program.
Context {Out : Type}.

(** How a task that is not running goes on: from the start of its function, or from the
    return of its call of [switch]. *)
Inductive kont := Fresh (f sp : Z) | Suspended (r : regs).

(** What the registers are when it does. *)
Definition resumes (guard : Z) (k : kont) (r : regs) : bool :=
  match k with
  | Fresh f s => (pc r =? f) && (ra r =? guard) && (sp r =? s)
  | Suspended r0 => bool_decide (r = mkRegs (ra r0) (ra r0) (sp r0) (s0 r0) (s1 r0) (s2 r0) (s3 r0) (s4 r0) (s5 r0) (s6 r0) (s7 r0)
                                       (s8 r0) (s9 r0) (s10 r0) (s11 r0))
  end.

(** [code] has, for each task, how it goes on and the segments left. *)
Record world := mkWorld { rt : Runtime; code : list (kont * list (list Out)); out : list Out; clock : nat }.

Context (guard : Z) (live : nat -> regs).

(** A call of [t_yield] or [t_return] by task [me] with [rest] left: the task whose context
    was loaded goes on if the registers are those it expects. *)
Definition transfer (w : world) (me : nat) (rest : list (list Out)) (out' : list Out) (r : res (option regs * Runtime)) : res world :=
  '(o, rt') ← r;
  match o with
  | None => Ok (mkWorld rt' (alter (fun c => (c.1, rest)) me (code w)) out' (S (clock w)))
  | Some loaded =>
      let code' := alter (fun c => (Suspended (live (clock w)), rest)) me (code w) in
      '(k, _) ← index code' (Z.of_nat (current rt'));
      if resumes guard k loaded then Ok (mkWorld rt' code' out' (S (clock w))) else Panic UndefinedBehaviour
  end.

(** The running task goes to its next call of the runtime.  [None]: [run] has returned. *)
Definition step (w : world) : res (option world) :=
  let me := current (rt w) in
  if (me =? 0)%nat then
    '(o, rt') ← t_yield (rt w) (live (clock w));
    match o with
    | None => Ok None
    | Some _ => w' ← transfer w 0 [] (out w) (Ok (o, rt')); Ok (Some w')
    end
  else
    '(_, segs) ← index (code w) (Z.of_nat me);
    match segs with
    | [] => Panic UndefinedBehaviour
    | [s] => w' ← transfer w me [] (out w ++ s) (t_return (rt w) (live (clock w))); Ok (Some w')
    | s :: rest => w' ← transfer w me rest (out w ++ s) (t_yield (rt w) (live (clock w))); Ok (Some w')
    end.

Fixpoint run (fuel : nat) (w : world) : res world :=
  match fuel with
  | O => Panic OutOfFuel
  | S fuel' => o ← step w; match o with None => Ok w | Some w' => run fuel' w' end
  end.

(** [spawn] for each function and its body, then [run]. *)
Fixpoint spawn_all (l : list (Z * list (list Out))) (w : world) : res world :=
  match l with
  | [] => Ok w
  | (f, body) :: rest =>
      i ← unwrap (find_index (fun t => bool_decide (state t = Available)) (tasks (rt w)));
      t ← index (tasks (rt w)) (Z.of_nat i);
      rt' ← spawn guard f (rt w);
      spawn_all rest (mkWorld rt' (<[i := (Fresh f (initial_sp (stack t)), body)]> (code w)) (out w) (clock w))
  end.

Definition start (stacks : nat -> Z) : world :=
  mkWorld (Runtime_new stacks) (replicate MAX_TASKS (Suspended (live 0), [])) [] 0.
End program.
Arguments world Out : clear implicits.

(** The closures of [main]. *)
Inductive message := Starting (id : Z) | Counter (id i : Z) | Finished (id : Z).
Definition counter_body (id : Z) (n : nat) : list (list message) :=
  [Starting id; Counter id 0] :: ((fun i => [Counter id (Z.of_nat i)]) <$> seq 1 (n - 1)) ++ [[Finished id]].
Definition main_bodies : list (list (list message)) := [counter_body 1 4; counter_body 2 8; counter_body 3 12; counter_body 4 16].
End Stackful.

(** ** The runtime gives every task its turn *)

Module StackfulProofs.
Import Stackful.

Lemma index_nat {A} (l : list A) (i : nat) x : l !! i = Some x -> index l (Z.of_nat i) = Ok x.
Proof. intros H. apply index_Ok. split; [lia|]. by rewrite Nat2Z.id. Qed.

Lemma find_ready_step fuel ts c pos t :
  ts !! pos = Some t ->
  find_ready (S fuel) ts c pos =
    if decide (state t = Ready) then Ok (Some pos)
    else let pos2 := if (S pos =? length ts)%nat then O else S pos in if (pos2 =? c)%nat then Ok None else find_ready fuel ts c pos2.
Proof. intros Ht. cbn [find_ready]. by rewrite (index_nat _ _ _ Ht). Qed.

(** The loop of [t_yield] passes tasks that are not ready. *)
Lemma find_ready_skip k : forall fuel ts c pos,
  (pos + S k <= length ts)%nat -> (c <= pos)%nat ->
  (forall i t, (pos <= i <= pos + k)%nat -> ts !! i = Some t -> state t <> Ready) ->
  find_ready (S k + fuel) ts c pos =
    if (pos + S k =? length ts)%nat then (if (0 =? c)%nat then Ok None else find_ready fuel ts c 0) else find_ready fuel ts c (pos + S k).
Proof.
  induction k as [|k IH]; intros fuel ts c pos Hle Hc Hno; (destruct (lookup_lt_is_Some_2 ts pos) as [t Ht]; [lia|]);
    cbn [Nat.add]; rewrite (find_ready_step _ _ _ _ t Ht), decide_False by (apply (Hno pos); [lia|done]).
  - rewrite Nat.add_1_r. destruct (Nat.eqb_spec (S pos) (length ts)); [by destruct c|]. cbv zeta. destruct (Nat.eqb_spec (S pos) c); [lia|done].
  - destruct (Nat.eqb_spec (S pos) (length ts)); [lia|]. cbv zeta. destruct (Nat.eqb_spec (S pos) c); [lia|]. change (S (k + fuel)) with (S k + fuel)%nat. rewrite IH; [|lia|lia|].
    + by replace (S pos + S k)%nat with (pos + S (S k))%nat by lia.
    + intros i u Hi. apply Hno. lia.
Qed.

Lemma find_ready_here fuel ts c pos t : ts !! pos = Some t -> state t = Ready -> find_ready (S fuel) ts c pos = Ok (Some pos).
Proof. intros Ht Hr. rewrite (find_ready_step _ _ _ _ t Ht). by rewrite decide_True. Qed.

(** The next ready task above, or the base task. *)
Lemma find_ready_above ts c i t :
  (c < i)%nat -> ts !! i = Some t -> state t = Ready ->
  (forall j u, (c <= j < i)%nat -> ts !! j = Some u -> state u <> Ready) ->
  find_ready (S (length ts)) ts c c = Ok (Some i).
Proof.
  intros Hci Hi Hr Hno. pose proof (lookup_lt_Some _ _ _ Hi) as Hlt.
  replace (S (length ts)) with (S (i - c - 1) + S (length ts - (i - c)))%nat by lia. rewrite find_ready_skip; [|lia|lia|].
  - destruct (Nat.eqb_spec (c + S (i - c - 1)) (length ts)); [lia|]. replace (c + S (i - c - 1))%nat with i by lia. by eapply find_ready_here.
  - intros j u Hj. apply Hno. lia.
Qed.

Lemma find_ready_none_above ts c :
  (c < length ts)%nat -> (forall j u, (c <= j)%nat -> ts !! j = Some u -> state u <> Ready) ->
  find_ready (S (length ts)) ts c c = if (0 =? c)%nat then Ok None else find_ready (S c) ts c 0.
Proof.
  intros Hc Hno. replace (S (length ts)) with (S (length ts - c - 1) + S c)%nat by lia. rewrite find_ready_skip; [|lia|lia|].
  - by destruct (Nat.eqb_spec (c + S (length ts - c - 1)) (length ts)); [|lia].
  - intros j u Hj. apply Hno. lia.
Qed.

Section program.
Context {Out : Type} (guard : Z) (live : nat -> regs).
Implicit Types (w : world Out) (rems : nat -> list (list Out)).

(** The context from which a task goes on. *)
Definition holds (k : kont) (c : TaskContext) : Prop :=
  match k with
  | Fresh f s => nx1 c = f /\ x1 c = guard /\ x2 c = s
  | Suspended r => c = (switch r TaskContext_default).1
  end.

(** [switch] from one task and back to it: every saved register is as it was, and execution
    goes on after the call. *)
Lemma switch_resumes k c r : holds k c -> resumes guard k (switch r c).2 = true.
Proof.
  destruct k as [f s|r0]; cbn.
  - intros (<- & <- & <-). by rewrite !Z.eqb_refl.
  - intros ->. by apply bool_decide_eq_true_2.
Qed.

(** Task [i] wants to run. *)
Definition alive rems (i : nat) : Prop := i = 0%nat \/ rems i <> [].

(** What the runtime has for the tasks other than the running one. *)
Record others (n c : nat) rems (ts : list Task) (cd : list (kont * list (list Out))) : Prop := {
  ot_length : length ts = n;
  ot_code : length cd = n;
  ot_current : (c < n)%nat;
  ot_state i t : i <> c -> ts !! i = Some t -> (alive rems i -> state t = Ready) /\ (~ alive rems i -> state t = Available);
  ot_ctx i t k segs : i <> c -> ts !! i = Some t -> cd !! i = Some (k, segs) -> alive rems i -> holds k (ctx t);
}.

(** Task [c] runs; [rems] are the segments that are left. *)
Record running (n c : nat) rems w : Prop := {
  ru_others : others n c rems (tasks (rt w)) (code w);
  ru_current : current (rt w) = c;
  ru_state t : tasks (rt w) !! c = Some t -> state t = Running;
  ru_rest i k segs : code w !! i = Some (k, segs) -> segs = rems i;
}.

#[export] Instance alive_dec rems i : Decision (alive rems i).
Proof.
  unfold alive. apply or_dec; [apply _|]. apply not_dec. destruct (rems i) as [|x l]; [by left|right; done].
Defined.

(** The change of tasks. *)
Lemma transfer_loads n c rems w pos rest ts out' :
  others n c rems ts (code w) -> (pos < n)%nat -> pos <> c -> alive rems pos -> rems c = rest ->
  (forall i k segs, i <> c -> code w !! i = Some (k, segs) -> segs = rems i) ->
  (forall t, ts !! c = Some t -> state t = if decide (alive rems c) then Running else Available) ->
  find_ready (S (length ts)) ts c c = Ok (Some pos) ->
  exists w', transfer guard live w c rest out' (t_yield (mkRuntime ts c) (live (clock w))) = Ok w' /\ running n pos rems w' /\ out w' = out'.
Proof.
  intros [Hl Hcd Hc Hst Hctx] Hpos Hne Hal Hrest Hsegs Hme Hfind. destruct (lookup_lt_is_Some_2 ts c) as [tc Htc]; [lia|].
  destruct (lookup_lt_is_Some_2 ts pos) as [tp Htp]; [lia|]. destruct (lookup_lt_is_Some_2 (code w) pos) as [[k segs] Hk]; [lia|].
  specialize (Hme tc Htc). unfold t_yield. cbn [tasks current]. rewrite Hfind. cbn [mbind res_bind]. rewrite (index_nat _ _ _ Htc). cbn [mbind res_bind].
  set (ts1 := if decide (state tc = Available) then ts else _).
  assert (H1 : forall i, i <> c -> ts1 !! i = ts !! i).
  { intros i Hi. unfold ts1. destruct (decide (state tc = Available)); [done|]. by rewrite list_lookup_alter_ne. }
  assert (H1c : exists t1, ts1 !! c = Some t1 /\ state t1 = if decide (alive rems c) then Ready else Available).
  { unfold ts1. destruct (decide (state tc = Available)) as [Ha|Ha].
    - exists tc. split; [done|]. rewrite Hme in Ha |- *. by destruct (decide (alive rems c)).
    - exists (with_state Ready tc). rewrite list_lookup_alter_eq, Htc. split; [done|]. destruct (decide (alive rems c)); [done|]. by rewrite Hme in Ha. }
  assert (H2p : alter (with_state Running) pos ts1 !! pos = Some (with_state Running tp)) by (by rewrite list_lookup_alter_eq, H1, Htp).
  rewrite (index_nat _ _ _ H2p). cbn [mbind res_bind]. cbn [ctx with_state]. destruct (switch (live (clock w)) (ctx tp)) as [old r'] eqn:Esw.
  cbn [transfer mbind res_bind current]. set (cd' := alter _ c (code w)).
  assert (Hk' : cd' !! pos = Some (k, segs)) by (unfold cd'; by rewrite list_lookup_alter_ne).
  unfold transfer. cbn [mbind res_bind current]. fold cd'. rewrite (index_nat _ _ _ Hk'). cbn [mbind res_bind].
  assert (Hr : resumes guard k r' = true).
  { replace r' with (switch (live (clock w)) (ctx tp)).2 by (by rewrite Esw). apply switch_resumes. by eapply Hctx. }
  rewrite Hr. eexists. split; [done|]. split; [|done].
  set (ts' := alter (with_ctx old) c (alter (with_state Running) pos ts1)).
  assert (Hts : forall i t, ts' !! i = Some t -> i <> pos -> (i = c /\ exists t1, ts1 !! c = Some t1 /\ t = with_ctx old t1) \/ (i <> c /\ ts !! i = Some t)).
  { intros i t Hi Hip. unfold ts' in Hi. destruct (decide (i = c)) as [->|Hic].
    - left. split; [done|]. destruct H1c as (t1 & Ht1 & _). exists t1. split; [done|].
      rewrite list_lookup_alter_eq, list_lookup_alter_ne, Ht1 in Hi by done. by injection Hi as <-.
    - right. split; [done|]. by rewrite !list_lookup_alter_ne, H1 in Hi by done. }
  split; cbn [rt tasks current code].
  - split.
    + unfold ts', ts1. rewrite !length_alter. destruct (decide (state tc = Available)); [done|by rewrite length_alter].
    + unfold cd'. by rewrite length_alter.
    + done.
    + intros i t Hip Hi. destruct (Hts i t Hi Hip) as [(-> & t1 & Ht1 & ->)|[Hic Hi']]; [|by apply Hst].
      destruct H1c as (t1' & Ht1' & Hs1). assert (t1 = t1') as -> by congruence. cbn. rewrite Hs1. by destruct (decide (alive rems c)).
    + intros i t k' segs' Hip Hi Hki Hai. destruct (Hts i t Hi Hip) as [(-> & t1 & Ht1 & ->)|[Hic Hi']].
      * unfold cd' in Hki. rewrite list_lookup_alter_eq in Hki. destruct (lookup_lt_is_Some_2 (code w) c) as [[k0 s0'] Hk0]; [lia|].
        rewrite Hk0 in Hki. injection Hki as <- <-. cbn. injection Esw as <- _. done.
      * unfold cd' in Hki. rewrite list_lookup_alter_ne in Hki by done. by eapply Hctx.
  - done.
  - intros t Ht. unfold ts' in Ht. rewrite list_lookup_alter_ne, H2p in Ht by done. by injection Ht as <-.
  - intros i k' segs' Hki. unfold cd' in Hki. destruct (decide (i = c)) as [->|Hic].
    + rewrite list_lookup_alter_eq in Hki. destruct (code w !! c); [|done]. by injection Hki as _ <-.
    + rewrite list_lookup_alter_ne in Hki by done. by eapply Hsegs.
Qed.

Lemma running_ext n c rems rems' w : (forall i, rems i = rems' i) -> running n c rems w -> running n c rems' w.
Proof.
  intros E [[Hl Hcd Hc Hst Hctx] Hcu Hs Hr].
  assert (Ha : forall i, alive rems i <-> alive rems' i) by (intros i; unfold alive; by rewrite E).
  split; [|done|done|intros; rewrite <- E; by eapply Hr]. split; try done.
  - intros i t Hi Ht. rewrite <- Ha. by apply Hst.
  - intros i t k segs Hi Ht Hk Hal. eapply Hctx; [exact Hi|exact Ht|exact Hk|by apply Ha].
Qed.

(** The task after [c]: the next one that has something left, or the base task. *)
Definition is_next (n : nat) rems (c pos : nat) : Prop :=
  ((c < pos < n)%nat /\ rems pos <> [] /\ forall j, (c < j < pos)%nat -> rems j = []) \/
  (pos = 0%nat /\ forall j, (c < j < n)%nat -> rems j = []).

Lemma next_exists n rems c : exists pos, is_next n rems c pos.
Proof.
  assert (H : forall m, (exists pos, (c < pos < m)%nat /\ rems pos <> [] /\ forall j, (c < j < pos)%nat -> rems j = []) \/
    forall j, (c < j < m)%nat -> rems j = []).
  { induction m as [|m [(pos & ? & ? & ?)|IH]]; [right; lia|left; exists pos; split_and!; [lia|lia|done|done]|].
    destruct (rems m) as [|x l] eqn:E.
    - right. intros j Hj. destruct (decide (j = m)) as [->|]; [done|]. apply IH. lia.
    - destruct (decide (c < m)%nat).
      + left. exists m. split_and!; [lia|lia|by rewrite E|done].
      + right. intros j Hj. lia. }
  destruct (H n) as [(pos & Hp & Hr & Hj)|Hj]; [exists pos; by left|exists 0%nat; by right].
Qed.

(** [t_yield] finds it. *)
Lemma find_next n c rems ts cd pos :
  others n c rems ts cd -> is_next n rems c pos -> (forall t, ts !! c = Some t -> state t <> Ready) ->
  find_ready (S (length ts)) ts c c = if (pos =? c)%nat then Ok None else Ok (Some pos).
Proof.
  intros [Hl Hcd Hc Hst Hctx] Hn Hme.
  assert (Hno : forall j u, (c <= j)%nat -> ts !! j = Some u -> (j <> c -> rems j = []) -> state u <> Ready).
  { intros j u Hj Hu Hr. destruct (decide (j = c)) as [->|Hjc]; [by apply Hme|]. destruct (Hst j u Hjc Hu) as [_ Hav].
    rewrite Hav; [done|]. intros [->|Hne]; [lia|]. by rewrite Hr in Hne. }
  destruct Hn as [(Hp & Hr & Hj)|[-> Hj]].
  - destruct (Nat.eqb_spec pos c); [lia|]. destruct (lookup_lt_is_Some_2 ts pos) as [t Ht]; [lia|].
    apply (find_ready_above ts c pos t); [lia|done| |].
    + apply (Hst pos t ltac:(lia) Ht). by right.
    + intros j u Hcj Hu. apply (Hno j u); [lia|done|]. intros Hne. apply Hj. lia.
  - rewrite find_ready_none_above; [|lia|].
    + destruct (Nat.eqb_spec 0 c) as [Hc0|Hc0]; [done|]. destruct (lookup_lt_is_Some_2 ts 0) as [t Ht]; [lia|].
      apply (find_ready_here _ _ _ _ t Ht). apply (Hst 0%nat t ltac:(lia) Ht). by left.
    + intros j u Hcj Hu. apply (Hno j u); [done|done|]. intros Hne. apply Hj. pose proof (lookup_lt_Some _ _ _ Hu). lia.
Qed.

(** The segments after task [c] has run. *)
Definition advance rems (c : nat) : nat -> list (list Out) := fun i => if decide (i = c) then tail (rems i) else rems i.

Lemma others_advance n c rems ts cd : others n c rems ts cd -> others n c (advance rems c) ts cd.
Proof.
  assert (Ha : forall i, i <> c -> alive rems i <-> alive (advance rems c) i) by (intros i Hi; unfold alive, advance; by rewrite decide_False).
  intros [Hl Hcd Hc Hst Hctx]. split; try done.
  - intros i t Hi Ht. rewrite <- Ha by done. by apply Hst.
  - intros i t k segs Hi Ht Hk Hal. eapply Hctx; [exact Hi|exact Ht|exact Hk|by apply Ha].
Qed.

Lemma is_next_advance n c rems pos : is_next n (advance rems c) c pos <-> is_next n rems c pos.
Proof.
  assert (E : forall j, j <> c -> advance rems c j = rems j) by (intros j Hj; unfold advance; by rewrite decide_False).
  unfold is_next. split; (intros [(Hp & Hr & Hj)|[-> Hj]]; [left; split_and!; [lia|lia| |]|right; split; [done|]]);
    rewrite ?E in * by lia; try done; intros j Hjc; specialize (Hj j Hjc); by rewrite ?E in * by lia.
Qed.

(** A task other than the base task runs to its next yield or returns. *)
Lemma step_task n c rems w s rest pos :
  running n c rems w -> c <> 0%nat -> rems c = s :: rest -> is_next n rems c pos ->
  exists w', step guard live w = Ok (Some w') /\ running n pos (advance rems c) w' /\ out w' = out w ++ s.
Proof.
  intros [Ho Hcu Hst Hr] Hc0 Hs Hn. pose proof (ot_current _ _ _ _ _ Ho) as Hc. pose proof (ot_length _ _ _ _ _ Ho) as Hl. pose proof (ot_code _ _ _ _ _ Ho) as Hcd.
  destruct (lookup_lt_is_Some_2 (code w) c) as [[k segs] Hk]; [lia|]. pose proof (Hr c k segs Hk) as Hseg. rewrite Hs in Hseg. subst segs.
  destruct (lookup_lt_is_Some_2 (tasks (rt w)) c) as [t Ht]; [lia|]. pose proof (Hst t Ht) as Hrun.
  assert (Hpc : pos <> c) by (destruct Hn as [(? & _)|[-> _]]; lia). assert (Hpn : (pos < n)%nat) by (destruct Hn as [(? & _)|[-> _]]; lia).
  assert (Hal : alive (advance rems c) pos).
  { destruct Hn as [(? & Hne & _)|[-> _]]; [|by left]. right. unfold advance. by rewrite decide_False. }
  assert (Hrest : advance rems c c = rest) by (unfold advance; by rewrite decide_True, Hs).
  assert (Hsegs : forall i k segs, i <> c -> code w !! i = Some (k, segs) -> segs = advance rems c i).
  { intros i k' segs Hi Hki. unfold advance. rewrite decide_False by done. by eapply Hr. }
  unfold step. rewrite Hcu. destruct (Nat.eqb_spec c 0) as [|_]; [done|]. rewrite (index_nat _ _ _ Hk). cbn [mbind res_bind].
  assert (Hrt : rt w = mkRuntime (tasks (rt w)) c) by (rewrite <- Hcu; by destruct (rt w)).
  destruct rest as [|s2 rest].
  - (* the body returns to [guard] *)
    unfold t_return. rewrite Hcu. destruct (Nat.eqb_spec c 0) as [|_]; [done|]. rewrite (index_nat _ _ _ Ht). cbn [mbind res_bind].
    set (ts := alter (with_state Available) c (tasks (rt w))).
    assert (Ho' : others n c (advance rems c) ts (code w)).
    { apply others_advance in Ho as [Hl' Hcd' Hc' Hst' Hctx']. unfold ts. split; [by rewrite length_alter|done|done|..].
      - intros i u Hi Hu. rewrite list_lookup_alter_ne in Hu by done. by apply Hst'.
      - intros i u k' segs Hi Hu. rewrite list_lookup_alter_ne in Hu by done. by eapply Hctx'. }
    assert (Hme : forall u, ts !! c = Some u -> state u = Available).
    { intros u Hu. unfold ts in Hu. rewrite list_lookup_alter_eq, Ht in Hu. by injection Hu as <-. }
    destruct (transfer_loads n c (advance rems c) w pos [] ts (out w ++ s)) as (w' & -> & Hw' & Eo); try done.
    + intros u Hu. rewrite (Hme u Hu). destruct (decide (alive _ _)) as [[|Hne]|]; [done|by rewrite Hrest in Hne|done].
    + rewrite (find_next n c (advance rems c) ts (code w) pos); [by destruct (Nat.eqb_spec pos c)|done|by apply is_next_advance|].
      intros u Hu. by rewrite (Hme u Hu).
    + cbn [mbind res_bind]. by exists w'.
  - destruct (transfer_loads n c (advance rems c) w pos (s2 :: rest) (tasks (rt w)) (out w ++ s)) as (w' & Ht' & Hw' & Eo); try done.
    + by apply others_advance.
    + intros u Hu. rewrite (Hst u Hu). destruct (decide (alive _ _)) as [|Hna]; [done|]. destruct Hna. right. by rewrite Hrest.
    + rewrite (find_next n c (advance rems c) (tasks (rt w)) (code w) pos);
        [by destruct (Nat.eqb_spec pos c)|by apply others_advance|by apply is_next_advance|]. intros u Hu. by rewrite (Hst u Hu).
    + rewrite <- Hrt in Ht'. rewrite Ht'. cbn [mbind res_bind]. by exists w'.
Qed.

(** The base task yields, or finds that nothing is left. *)
Lemma step_base n rems w pos :
  running n 0 rems w -> rems 0%nat = [] -> is_next n rems 0 pos ->
  if (pos =? 0)%nat then step guard live w = Ok None
  else exists w', step guard live w = Ok (Some w') /\ running n pos rems w' /\ out w' = out w.
Proof.
  intros [Ho Hcu Hst Hr] H0 Hn.
  assert (Hrt : rt w = mkRuntime (tasks (rt w)) 0) by (rewrite <- Hcu; by destruct (rt w)).
  assert (Hfind : find_ready (S (length (tasks (rt w)))) (tasks (rt w)) 0 0 = if (pos =? 0)%nat then Ok None else Ok (Some pos)).
  { apply (find_next n 0 rems _ (code w)); [done|done|]. intros u Hu. by rewrite (Hst u Hu). }
  unfold step. rewrite Hcu. cbn [Nat.eqb]. destruct (Nat.eqb_spec pos 0) as [->|Hp].
  - unfold t_yield. rewrite Hcu, Hfind. done.
  - destruct (transfer_loads n 0 rems w pos [] (tasks (rt w)) (out w)) as (w' & Ht & Hw' & Eo); try done.
    + destruct Hn as [(? & _)|[-> _]]; [lia|done].
    + destruct Hn as [(? & ? & _)|[-> _]]; [by right|done].
    + intros i k segs _. apply Hr.
    + rewrite <- Hrt in Ht. destruct (t_yield (rt w) (live (clock w))) as [[o rt']|f] eqn:Ey; [|done]. cbn [mbind res_bind].
      destruct o as [r|].
      * rewrite Ht. cbn [mbind res_bind]. by exists w'.
      * exfalso. unfold t_yield in Ey. rewrite Hcu, Hfind in Ey. cbn [mbind res_bind] in Ey.
        destruct (index _ _) as [t|]; [|done]. cbn [mbind res_bind] in Ey. destruct (index _ _) as [t'|]; [|done]. by cbn in Ey.
Qed.

(** What is left for the tasks of a range, in order. *)
Definition left_of rems (a b : nat) : list (list (list Out)) := filter (fun x => x <> []) (rems <$> seq a (b - a)).

Lemma left_of_skip rems a p b : (a <= p <= b)%nat -> (forall j, (a <= j < p)%nat -> rems j = []) -> left_of rems a b = left_of rems p b.
Proof.
  intros Hp Hj. unfold left_of. replace (b - a)%nat with ((p - a) + (b - p))%nat by lia. rewrite seq_app, fmap_app, filter_app.
  replace (a + (p - a))%nat with p by lia. assert (E : filter (fun x => x <> []) (rems <$> seq a (p - a)) = []); [|by rewrite E].
  assert (Hall : Forall (fun x => x = []) (rems <$> seq a (p - a))).
  { apply Forall_fmap, Forall_forall. intros j Hin%elem_of_seq. apply Hj. lia. }
  induction Hall as [|x l Hx _ IH]; [done|]. rewrite filter_cons_False; [done|naive_solver].
Qed.

Lemma left_of_cons rems c b : (c < b)%nat -> rems c <> [] -> left_of rems c b = rems c :: left_of rems (S c) b.
Proof.
  intros Hc Hne. unfold left_of. replace (b - c)%nat with (S (b - S c)) by lia. cbn [seq fmap list_fmap]. by rewrite filter_cons_True.
Qed.

Lemma left_of_ext rems rems' a b : (forall j, (a <= j < b)%nat -> rems j = rems' j) -> left_of rems a b = left_of rems' a b.
Proof.
  intros E. unfold left_of. f_equal. apply list_fmap_ext. intros i x Hx%lookup_seq. apply E. lia.
Qed.

Definition advance_from rems (c : nat) : nat -> list (list Out) := fun i => if decide (c <= i)%nat then tail (rems i) else rems i.

(** From task [c] to the base task. *)
Lemma round_from n d : forall c rems w, (n - c <= d)%nat -> running n c rems w -> c <> 0%nat -> rems c <> [] -> (forall j, (n <= j)%nat -> rems j = []) ->
  exists w', (forall fuel, run guard live (length (left_of rems c n) + fuel) w = run guard live fuel w') /\
    running n 0 (advance_from rems c) w' /\ out w' = out w ++ (left_of rems c n ≫= first_segment).
Proof.
  induction d as [|d IH]; intros c rems w Hd Hrun Hc0 Hne Hbig; pose proof (ot_current _ _ _ _ _ (ru_others _ _ _ _ Hrun)) as Hcn; [lia|].
  destruct (rems c) as [|s rest] eqn:Hs; [done|]. destruct (next_exists n rems c) as [pos Hn].
  destruct (step_task n c rems w s rest pos Hrun Hc0 Hs Hn) as (w1 & Hstep & Hrun1 & Ho1).
  assert (Hl : left_of rems c n = (s :: rest) :: left_of rems (S c) n) by (rewrite <- Hs; apply left_of_cons; [done|by rewrite Hs]).
  rewrite Hl. cbn [length mbind list_bind]. change (first_segment (s :: rest)) with s.
  assert (Hgo : forall fuel, run guard live (S fuel) w = run guard live fuel w1) by (intros fuel; cbn [run]; by rewrite Hstep).
  destruct Hn as [(Hp & Hpne & Hj)|[-> Hj]].
  - assert (Hadv : forall j, (c < j)%nat -> advance rems c j = rems j) by (intros j Hjc; unfold advance; by rewrite decide_False by lia).
    destruct (IH pos (advance rems c) w1) as (w' & Hgo' & Hrun' & Ho'); [lia|done|lia|by rewrite Hadv by lia|intros j Hjn; rewrite Hadv by lia; by apply Hbig|].
    assert (E : left_of (advance rems c) pos n = left_of rems (S c) n).
    { rewrite (left_of_skip rems (S c) pos); [|lia|intros j Hjc; apply Hj; lia]. apply left_of_ext. intros j Hjc. apply Hadv. lia. }
    rewrite E in Hgo', Ho'. exists w'. split_and!.
    + intros fuel. cbn [Nat.add]. by rewrite Hgo, Hgo'.
    + eapply running_ext; [|exact Hrun']. intros i. unfold advance_from, advance.
      destruct (decide (i = c)) as [->|Hic]; [by rewrite decide_False, decide_True by lia|].
      destruct (decide (pos <= i)%nat); [by rewrite decide_True by lia|]. destruct (decide (c <= i)%nat); [|done]. by rewrite Hj by lia.
    + rewrite Ho', Ho1. by rewrite app_assoc.
  - assert (E : left_of rems (S c) n = []).
    { rewrite (left_of_skip rems (S c) n); [|lia|intros j Hjc; apply Hj; lia]. unfold left_of. by rewrite Nat.sub_diag. }
    rewrite E. cbn [length mbind list_bind]. rewrite app_nil_r. exists w1. split_and!; [done| |done].
    eapply running_ext; [|exact Hrun1]. intros i. unfold advance_from, advance.
    destruct (decide (i = c)) as [->|Hic]; [by rewrite decide_True by lia|]. destruct (decide (c <= i)%nat); [|done].
    destruct (decide (i < n)%nat); [by rewrite Hj by lia|by rewrite Hbig by lia].
Qed.

(** The calls of the runtime: one per segment, and one of the base task per round. *)
Definition calls (bs : list (list (list Out))) : nat := (sum_list (length <$> bs) + longest bs)%nat.

Lemma calls_round bs : Forall (fun b => b <> []) bs -> bs <> [] ->
  calls bs = (S (length bs) + calls (filter (fun b => b <> []) (tail <$> bs)))%nat.
Proof.
  intros Hall Hne. unfold calls.
  assert (Hl : longest (filter (fun b => b <> []) (tail <$> bs)) = (longest bs - 1)%nat).
  { by rewrite longest_alive, longest_tails. }
  assert (Hpos : (0 < longest bs)%nat).
  { destruct Hall as [|b bs Hb _]; [done|]. unfold longest. cbn. destruct b; [done|]. cbn. lia. }
  assert (Hs : sum_list (length <$> bs) = (length bs + sum_list (length <$> filter (fun b => b <> []) (tail <$> bs)))%nat).
  { clear Hne Hl Hpos. induction Hall as [|b bs Hb _ IH]; [done|]. rewrite !fmap_cons. destruct b as [|s b]; [done|]. cbn [tail length sum_list sum_list_with].
    destruct (decide (b = [])) as [->|Hne].
    - rewrite filter_cons_False by naive_solver. cbn. cbn in IH. lia.
    - rewrite filter_cons_True by done. cbn. cbn in IH. lia. }
  rewrite Hl, Hs. lia.
Qed.

(** From the base task to the end. *)
Lemma run_to_end n m : forall rems w, running n 0 rems w -> rems 0%nat = [] -> (forall j, (n <= j)%nat -> rems j = []) ->
  (longest (left_of rems 1 n) <= m)%nat ->
  exists w', run guard live (S (calls (left_of rems 1 n))) w = Ok w' /\ out w' = out w ++ interleave (left_of rems 1 n) /\
    running n 0 (fun _ => []) w'.
Proof.
  induction m as [|m IH]; intros rems w Hrun H0 Hbig Hm.
  all: assert (Hall : Forall (fun b => b <> []) (left_of rems 1 n)) by (apply Forall_forall; intros b [Hb _]%list_elem_of_filter; done).
  all: destruct (next_exists n rems 0) as [pos Hn]; pose proof (step_base n rems w pos Hrun H0 Hn) as Hb.
  all: pose proof (ot_current _ _ _ _ _ (ru_others _ _ _ _ Hrun)) as Hn0.
  all: assert (Hend : pos = 0%nat -> left_of rems 1 n = [] /\ forall i, rems i = []).
  1,3: intros ->; destruct Hn as [(? & _)|[_ Hj]]; [lia|]; split;
    [rewrite (left_of_skip rems 1 n); [|lia|intros j Hjc; apply Hj; lia]; unfold left_of; by rewrite Nat.sub_diag
    |intros [|i]; [done|]; destruct (decide (S i < n)%nat); [apply Hj; lia|apply Hbig; lia]].
  all: destruct (Nat.eqb_spec pos 0) as [->|Hp].
  1,3: destruct (Hend eq_refl) as [-> He]; exists w; cbn [run]; rewrite Hb; split_and!; [done|cbn; by rewrite app_nil_r|by apply (running_ext n 0 rems)].
  - exfalso. destruct Hn as [(? & Hne & Hj)|[? _]]; [|done]. rewrite (left_of_skip rems 1 pos) in Hm by (lia || (intros j Hjc; apply Hj; lia)). rewrite left_of_cons in Hm by (done || lia).
    unfold longest in Hm. cbn in Hm. destruct (rems pos); [done|]. cbn in Hm. lia.
  - destruct Hb as (w1 & Hstep & Hrun1 & Ho1). destruct Hn as [(Hpn & Hne & Hj)|[? _]]; [|done].
    destruct (round_from n n pos rems w1) as (w2 & Hgo & Hrun2 & Ho2); [lia|done|done|done|done|].
    assert (E : left_of rems 1 n = left_of rems pos n) by (apply left_of_skip; [lia|intros j Hjc; apply Hj; lia]). rewrite <- E in Hgo, Ho2.
    assert (Hskip : forall i, (i < pos)%nat -> rems i = []).
    { intros [|i] Hi; [done|]. apply Hj. lia. }
    assert (E2 : left_of (advance_from rems pos) 1 n = filter (fun b => b <> []) (tail <$> left_of rems 1 n)).
    { unfold left_of. induction (seq 1 (n - 1)) as [|i l IHl]; [done|]. cbn [fmap list_fmap].
      assert (Ei : advance_from rems pos i = tail (rems i)).
      { unfold advance_from. destruct (decide (pos <= i)%nat); [done|]. by rewrite Hskip by lia. }
      rewrite Ei. destruct (rems i) as [|s b] eqn:Er.
      - cbn [tail]. rewrite !(filter_cons_False _ []) by naive_solver. exact IHl.
      - rewrite (filter_cons_True (fun x => x <> []) (s :: b)) by done. cbn [fmap list_fmap tail].
        destruct (decide (b = [])) as [->|Hbn].
        + rewrite !(filter_cons_False _ []) by naive_solver. exact IHl.
        + rewrite !(filter_cons_True _ b) by done. by rewrite IHl. }
    destruct (IH (advance_from rems pos) w2) as (w' & Hr & Ho & Hw').
    + done.
    + unfold advance_from. by rewrite decide_False by lia.
    + intros j Hjn. unfold advance_from. case_decide; rewrite Hbig; done.
    + rewrite E2, longest_alive, longest_tails. lia.
    + exists w'. split_and!; [| |done].
      * assert (Hnn : left_of rems 1 n <> []) by (rewrite E, left_of_cons by (done || lia); done).
        rewrite (calls_round _ Hall Hnn), <- E2. cbn [Nat.add]. rewrite <- Nat.add_succ_r.
        change (run guard live (S ?x) w) with (o ← step guard live w; match o with None => Ok w | Some w'' => run guard live x w'' end).
        rewrite Hstep. cbn [mbind res_bind]. by rewrite Hgo.
      * rewrite Ho, Ho2, Ho1, E2, interleave_alive. by rewrite <- app_assoc, <- interleave_round.
Qed.

(** ** Spawning *)

Lemma find_index_first {A} (p : A -> bool) l i a :
  l !! i = Some a -> p a = true -> (forall j b, (j < i)%nat -> l !! j = Some b -> p b = false) -> find_index p l = Some i.
Proof.
  revert i. induction l as [|x l IH]; intros [|i] Hi Ha Hlow; try done; cbn in *.
  - injection Hi as ->. by rewrite Ha.
  - rewrite (Hlow 0%nat x) by (lia || done). rewrite (IH i Hi Ha); [done|]. intros j b Hj. apply (Hlow (S j)). lia.
Qed.

Definition rems_of (bs : list (list (list Out))) : nat -> list (list Out) :=
  fun i => match i with O => [] | S j => default [] (bs !! j) end.


Lemma left_of_rems bs n : Forall (fun b => b <> []) bs -> (length bs < n)%nat -> left_of (rems_of bs) 1 n = bs.
Proof.
  intros Hall Hn. unfold left_of.
  assert (E : rems_of bs <$> seq 1 (n - 1) = bs ++ replicate (n - 1 - length bs) []).
  { apply list_eq. intros i. rewrite list_lookup_fmap. destruct (decide (i < n - 1)%nat).
    - rewrite lookup_seq_lt by done. cbn. destruct (decide (i < length bs)%nat) as [Hi|Hi].
      + rewrite lookup_app_l by done. apply lookup_lt_is_Some_2 in Hi as [b Hb]. by rewrite Hb.
      + rewrite lookup_app_r, (lookup_ge_None_2 bs) by lia. by rewrite lookup_replicate_2 by lia.
    - rewrite lookup_seq_ge by lia. rewrite lookup_ge_None_2; [done|]. rewrite length_app, length_replicate. lia. }
  rewrite E, filter_app. assert (E2 : forall k, filter (fun x : list (list Out) => x <> []) (replicate k []) = []).
  { induction k as [|k IH]; [done|]. cbn [replicate]. by rewrite filter_cons_False by naive_solver. }
  rewrite E2, app_nil_r. clear E Hn. induction Hall as [|b bs Hb _ IH]; [done|]. by rewrite filter_cons_True, IH.
Qed.

Lemma spawn_spec n bs w f body :
  running n 0 (rems_of bs) w -> Forall (fun b => b <> []) bs -> (S (length bs) < n)%nat -> body <> [] ->
  exists t rt', find_index (fun t => bool_decide (state t = Available)) (tasks (rt w)) = Some (S (length bs)) /\
    tasks (rt w) !! S (length bs) = Some t /\ spawn guard f (rt w) = Ok rt' /\
    running n 0 (rems_of (bs ++ [body]))
      (mkWorld rt' (<[S (length bs) := (Fresh f (initial_sp (stack t)), body)]> (code w)) (out w) (clock w)).
Proof.
  intros [[Hl Hcd Hc Hst Hctx] Hcu Hme Hr] Hall Hn Hb. set (j := S (length bs)) in *.
  assert (Hlow : forall i, i <> j -> rems_of (bs ++ [body]) i = rems_of bs i).
  { intros [|i] Hi; [done|]. unfold rems_of. destruct (decide (i < length bs)%nat); [by rewrite lookup_app_l|].
    rewrite !lookup_ge_None_2; [done|lia|]. rewrite length_app. cbn. subst j. lia. }
  assert (Hj : rems_of (bs ++ [body]) j = body) by (subst j; unfold rems_of; by rewrite list_lookup_middle).
  assert (Hj0 : rems_of bs j = []) by (subst j; unfold rems_of; by rewrite lookup_ge_None_2).
  destruct (lookup_lt_is_Some_2 (tasks (rt w)) j) as [t Ht]; [lia|].
  assert (Hfi : find_index (fun t => bool_decide (state t = Available)) (tasks (rt w)) = Some j).
  { apply (find_index_first _ _ _ t); [done|..].
    - apply bool_decide_eq_true_2, (Hst j t); [lia|done|]. intros [|Hne]; [lia|done].
    - intros i u Hi Hu. apply bool_decide_eq_false_2. destruct (decide (i = 0%nat)) as [->|Hi0]; [by rewrite (Hme u Hu)|].
      destruct (Hst i u Hi0 Hu) as [Hrd _]. rewrite Hrd; [done|]. right. destruct i as [|i]; [done|]. unfold rems_of.
      destruct (lookup_lt_is_Some_2 bs i) as [b Hbi]; [subst j; lia|]. rewrite Hbi. cbn. rewrite Forall_lookup in Hall. by apply (Hall i). }
  exists t. unfold spawn. rewrite Hfi. cbn [unwrap mbind res_bind]. eexists. split_and!; [done|done|done|].
  assert (Hal : forall i, i <> j -> alive (rems_of (bs ++ [body])) i <-> alive (rems_of bs) i) by (intros i Hi; unfold alive; by rewrite Hlow).
  split; cbn [rt tasks current code]; [split|done|..].
  - by rewrite length_alter.
  - by rewrite length_insert.
  - done.
  - intros i u Hi Hu. destruct (decide (i = j)) as [->|Hij].
    + rewrite list_lookup_alter_eq, Ht in Hu. injection Hu as <-. split; [done|]. intros Hna. destruct Hna. right. by rewrite Hj.
    + rewrite list_lookup_alter_ne in Hu by done. rewrite Hal by done. by apply Hst.
  - intros i u k segs Hi Hu Hk Ha. destruct (decide (i = j)) as [->|Hij].
    + rewrite list_lookup_alter_eq, Ht in Hu. injection Hu as <-. rewrite list_lookup_insert_eq in Hk by lia. injection Hk as <- _. done.
    + rewrite list_lookup_alter_ne in Hu by done. rewrite list_lookup_insert_ne in Hk by done. rewrite Hal in Ha by done. by eapply Hctx.
  - intros u Hu. rewrite list_lookup_alter_ne in Hu by (subst j; lia). by apply Hme.
  - intros i k segs Hk. destruct (decide (i = j)) as [->|Hij].
    + rewrite list_lookup_insert_eq in Hk by lia. injection Hk as _ <-. by rewrite Hj.
    + rewrite list_lookup_insert_ne in Hk by done. rewrite Hlow by done. by eapply Hr.
Qed.

Lemma spawn_all_spec n l : forall bs w,
  running n 0 (rems_of bs) w -> Forall (fun b => b <> []) bs -> Forall (fun b => b <> []) l.*2 -> (length bs + length l < n)%nat ->
  exists w', spawn_all guard l w = Ok w' /\ running n 0 (rems_of (bs ++ l.*2)) w' /\ out w' = out w.
Proof.
  induction l as [|[f body] l IH]; intros bs w Hrun Hbs Hl Hn; cbn [spawn_all].
  - exists w. cbn. by rewrite app_nil_r.
  - cbn [fmap list_fmap] in Hl. apply Forall_cons in Hl as [Hb Hl]. cbn [snd] in Hb. cbn [length] in Hn.
    destruct (spawn_spec n bs w f body Hrun Hbs ltac:(lia) Hb) as (t & rt' & -> & Ht & -> & Hrun'). cbn [unwrap mbind res_bind].
    rewrite (index_nat _ _ _ Ht). cbn [mbind res_bind].
    destruct (IH (bs ++ [body]) _ Hrun') as (w' & -> & Hw' & Ho).
    + apply Forall_app. split; [done|]. by constructor.
    + done.
    + rewrite length_app. cbn. lia.
    + exists w'. split_and!; [done| |done]. cbn [fmap list_fmap snd]. by rewrite <- app_assoc in Hw'.
Qed.

Lemma start_running stacks : running MAX_TASKS 0 (rems_of []) (start live stacks (Out := Out)).
Proof.
  split; [split|..]; try done.
  - cbn. unfold MAX_TASKS. lia.
  - intros i t Hi Ht. split.
    + intros [->|Hne]; [done|]. by destruct i.
    + intros _. destruct i as [|[|[|[|[|i]]]]]; try done; by injection Ht as <-.
  - intros i t k segs Hi _ _ [->|Hne]; [done|]. by destruct i.
  - intros t Ht. by injection Ht as <-.
  - intros i k segs Hk. apply list_elem_of_lookup_2, elem_of_replicate in Hk as [[= _ ->] _]. by destruct i.
Qed.
End program.
End StackfulProofs.

(** The initial stack pointer is aligned and inside the stack of the task, with room for 32
    bytes above. *)
Theorem initial_sp_in_stack stack :
  0 <= stack -> stack + Stackful.DEFAULT_STACK_SIZE < 2 ^ 64 ->
  let sp := Stackful.initial_sp stack in
  stack <= sp /\ sp + 32 <= stack + Stackful.DEFAULT_STACK_SIZE /\ sp mod 8 = 0.
Proof.
  unfold Stackful.initial_sp, Stackful.DEFAULT_STACK_SIZE. intros H0 H1. rewrite uadd_small by lia. set (top := stack + 4096) in *.
  assert (E : Z.land top (unot 7) = top - top mod 8).
  { replace (unot 7) with (Z.ldiff (Z.ones 64) (Z.ones 3)) by reflexivity. rewrite Z.ldiff_land, Z.land_assoc, Z.land_ones by lia.
    rewrite Z.mod_small by lia. rewrite <- Z.ldiff_land, Z.ldiff_ones_r, Z.shiftl_mul_pow2, Z.shiftr_div_pow2 by lia. change (2 ^ 3) with 8. lia. }
  cbv zeta. rewrite E, usub_small by lia. lia.
Qed.

(** C26: The runtime of stackful_coroutine.rs ends and gives its tasks turns.  For up to four
    functions, whatever the registers are when they yield: every spawn succeeds, and [run]
    returns after one call of the runtime per segment and one per round; the output is that of
    the bodies run from yield to yield in the order they were spawned, round after round; the
    base task is running and all others are available again.  Each time a context is loaded,
    the registers are those the task had when it called [switch], and execution goes on after
    that call, or at the start of the function with [guard] as its return address. *)
Theorem stackful_interleaves {Out : Type} guard live stacks (l : list (Z * list (list Out))) :
  (length l < Stackful.MAX_TASKS)%nat -> Forall (fun b => b <> []) l.*2 ->
  exists w w', Stackful.spawn_all guard l (Stackful.start live stacks) = Ok w /\
    Stackful.run guard live (S (StackfulProofs.calls l.*2)) w = Ok w' /\ Stackful.out w' = interleave l.*2 /\
    Stackful.state <$> Stackful.tasks (Stackful.rt w') = Stackful.Running :: replicate (Stackful.MAX_TASKS - 1) Stackful.Available.
Proof.
  intros Hlen Hall. pose proof (StackfulProofs.start_running (Out := Out) guard live stacks) as H0.
  destruct (StackfulProofs.spawn_all_spec guard live Stackful.MAX_TASKS l [] _ H0 (Forall_nil_2 _) Hall Hlen) as (w & Hsp & Hrun & Ho).
  cbn [app] in Hrun. assert (Hl : (length l.*2 < Stackful.MAX_TASKS)%nat) by (by rewrite length_fmap).
  pose proof (StackfulProofs.left_of_rems live l.*2 Stackful.MAX_TASKS Hall Hl) as Eleft.
  destruct (StackfulProofs.run_to_end guard live Stackful.MAX_TASKS (longest l.*2) (StackfulProofs.rems_of l.*2) w Hrun) as (w' & Hr & Ho' & Hend).
  - done.
  - intros [|j] Hj; [done|]. cbn. by rewrite lookup_ge_None_2 by lia.
  - by rewrite Eleft.
  - rewrite Eleft in Hr, Ho'. exists w, w'. split_and!; [done|done|by rewrite Ho', Ho|].
    destruct Hend as [[Hl' _ _ Hst _] _ Hme _]. apply list_eq. intros i. rewrite list_lookup_fmap.
    destruct (Stackful.tasks (Stackful.rt w') !! i) as [t|] eqn:Et; cbn.
    + destruct i as [|i]; [cbn; by rewrite (Hme t Et)|]. destruct (Hst (S i) t ltac:(done) Et) as [_ Hav]. rewrite Hav.
      * apply lookup_lt_Some in Et. rewrite Hl' in Et. unfold Stackful.MAX_TASKS in Et. destruct i as [|[|[|[|i]]]]; [done..|lia].
      * by intros [|].
    + apply lookup_ge_None in Et. symmetry. apply lookup_ge_None_2. rewrite Hl' in Et. exact Et.
Qed.

(** The four closures of [main]. *)
Lemma stackful_interleaves_witness :
  exists w w', Stackful.spawn_all 100 (zip [1000; 2000; 3000; 4000] Stackful.main_bodies) (Stackful.start (fun n => Stackful.mkRegs 0 (Z.of_nat n) 1 2 3 4 5 6 7 8 9 10 11 12 13) (fun i => 4096 * Z.of_nat i)) = Ok w /\
    Stackful.run 100 (fun n => Stackful.mkRegs 0 (Z.of_nat n) 1 2 3 4 5 6 7 8 9 10 11 12 13) 62 w = Ok w' /\ Stackful.out w' = interleave Stackful.main_bodies.
Proof.
  destruct (stackful_interleaves 100 (fun n => Stackful.mkRegs 0 (Z.of_nat n) 1 2 3 4 5 6 7 8 9 10 11 12 13) (fun i => 4096 * Z.of_nat i)
    (zip [1000; 2000; 3000; 4000] Stackful.main_bodies)) as (w & w' & Hsp & Hr & Ho & _).
  - cbn. unfold Stackful.MAX_TASKS. lia.
  - by repeat constructor.
  - exists w, w'. split_and!; [exact Hsp|exact Hr|exact Ho].
Defined.
