(* ===== verification/TestDriver.v ===== *)
(** The test driver user/src/bin/usertests.rs: the argument array it gives to [exec], and its
    verdict.

    A string of the source ends with its terminator; here it is left out, so that the
    placeholder of an absent argument is the empty string.  What a test does is a
    parameter: its exit code, by way of [fork], [exec] and [waitpid]. *)

From stdpp Require Import strings.
From S2P Require Import Prelude.

#[local] Open Scope string_scope.
#[local] Open Scope list_scope.
#[local] Open Scope Z_scope.

(** The placeholder of an argument that is absent. *)
Definition NUL : string := EmptyString.

(** [(app_name, argv_1, argv_2, argv_3, exit_code)] *)
Record test := mkTest { app_name : string; argv_1 : string; argv_2 : string; argv_3 : string; expected : Z }.

Definition SUCC_TESTS : list test :=
  [mkTest "adder_atomic" NUL NUL NUL 0; mkTest "adder_mutex_blocking" NUL NUL NUL 0; mkTest "adder_mutex_spin" NUL NUL NUL 0;
   mkTest "adder_peterson_spin" NUL NUL NUL 0; mkTest "adder_peterson_yield" NUL NUL NUL 0;
   mkTest "barrier_condvar" NUL NUL NUL 0; mkTest "barrier_fail" NUL NUL NUL 0; mkTest "filetest_simple" NUL NUL NUL 0;
   mkTest "cat" "filea" NUL NUL 0; mkTest "cmdline_args" "1" "2" "3" 0; mkTest "condsync_condvar" NUL NUL NUL 0;
   mkTest "condsync_sem" NUL NUL NUL 0; mkTest "early_exit" NUL NUL NUL 0; mkTest "early_exit2" NUL NUL NUL 0;
   mkTest "eisenberg" NUL NUL NUL 0; mkTest "exit" NUL NUL NUL 0; mkTest "fantastic_text" NUL NUL NUL 0;
   mkTest "forktest_simple" NUL NUL NUL 0; mkTest "forktest" NUL NUL NUL 0; mkTest "forktest2" NUL NUL NUL 0;
   mkTest "forktree" NUL NUL NUL 0; mkTest "hello_world" NUL NUL NUL 0; mkTest "huge_write" NUL NUL NUL 0;
   mkTest "matrix" NUL NUL NUL 0; mkTest "mpsc_sem" NUL NUL NUL 0; mkTest "peterson" NUL NUL NUL 0;
   mkTest "phil_din_mutex" NUL NUL NUL 0; mkTest "pipe_large_test" NUL NUL NUL 0; mkTest "pipetest" NUL NUL NUL 0;
   mkTest "run_pipe_test" NUL NUL NUL 0; mkTest "sig_simple" NUL NUL NUL 0; mkTest "sig_simple2" NUL NUL NUL 0;
   mkTest "sig_tests" NUL NUL NUL 0; mkTest "sleep_simple" NUL NUL NUL 0; mkTest "sleep" NUL NUL NUL 0;
   mkTest "stackful_coroutine" NUL NUL NUL 0; mkTest "stackless_coroutine" NUL NUL NUL 0; mkTest "sync_sem" NUL NUL NUL 0;
   mkTest "threads_arg" NUL NUL NUL 0; mkTest "threads" NUL NUL NUL 0; mkTest "usertests_simple" NUL NUL NUL 0;
   mkTest "yield" NUL NUL NUL 0].

Definition FAIL_TESTS : list test :=
  [mkTest "adder_simple_spin" NUL NUL NUL (-6); mkTest "adder_simple_yield" NUL NUL NUL (-6); mkTest "adder" NUL NUL NUL (-6);
   mkTest "priv_csr" NUL NUL NUL (-4); mkTest "priv_inst" NUL NUL NUL (-4); mkTest "stack_overflow" NUL NUL NUL (-11);
   mkTest "store_fault" NUL NUL NUL (-11); mkTest "until_timeout" NUL NUL NUL (-6)].

(** A pointer of [arr] is null or points to a string. *)
Definition arr (t : test) : list (option string) :=
  if bool_decide (argv_1 t <> NUL) then
    if bool_decide (argv_2 t <> NUL) then
      if bool_decide (argv_3 t <> NUL) then [Some (app_name t); Some (argv_1 t); Some (argv_2 t); Some (argv_3 t)]
      else [Some (app_name t); Some (argv_1 t); Some (argv_2 t); None]
    else [Some (app_name t); Some (argv_1 t); None; None]
  else [Some (app_name t); None; None; None].

(** What [sys_exec] reads from there on, up to the first null pointer. *)
Fixpoint exec_reads (words : list (option string)) : option (list string) :=
  match words with
  | [] => None
  | None :: _ => Some []
  | Some s :: rest => (fun l => s :: l) <$> exec_reads rest
  end.

Section driver.
Context (exit_code : string -> list (option string) -> Z).

Definition passes (t : test) : bool := exit_code (app_name t) (arr t) =? expected t.

Definition run_tests (tests : list test) : Z := foldl (fun pass_num t => if passes t then pass_num + 1 else pass_num) 0 tests.

Definition main : Z :=
  let succ_num := run_tests SUCC_TESTS in
  let err_num := run_tests FAIL_TESTS in
  if (succ_num =? Z.of_nat (length SUCC_TESTS)) && (err_num =? Z.of_nat (length FAIL_TESTS)) then 0 else -1.

Lemma run_tests_count tests : run_tests tests = Z.of_nat (length (filter (fun t => passes t = true) tests)).
Proof.
  unfold run_tests. assert (H : forall n, foldl (fun pass_num t => if passes t then pass_num + 1 else pass_num) n tests =
    n + Z.of_nat (length (filter (fun t => passes t = true) tests))); [|apply H].
  induction tests as [|t tests IH]; intros n; cbn [foldl]; [cbn; lia|]. rewrite IH, filter_cons. destruct (passes t); case_decide; cbn [length]; (done || lia).
Qed.

Lemma filter_all {A} (P : A -> Prop) `{forall x, Decision (P x)} l : length (filter P l) = length l <-> Forall P l.
Proof.
  induction l as [|x l IH]; [by split|]. rewrite filter_cons, Forall_cons. pose proof (length_filter P l) as Hl. case_decide; cbn [length]; split; intros; [|f_equal; tauto|lia|tauto].
  split; [done|]. apply IH. lia.
Qed.

(** The driver reports success exactly when every test ends with the code its table says. *)
Theorem usertests_verdict : main = 0 <-> Forall (fun t => exit_code (app_name t) (arr t) = expected t) (SUCC_TESTS ++ FAIL_TESTS).
Proof.
  unfold main. rewrite !run_tests_count, Forall_app.
  assert (Hf : forall l, Z.of_nat (length (filter (fun t => passes t = true) l)) = Z.of_nat (length l) <-> Forall (fun t => exit_code (app_name t) (arr t) = expected t) l).
  { intros l. rewrite Nat2Z.inj_iff, filter_all. unfold passes. split; intros Hl; (eapply Forall_impl; [exact Hl|]); intros t; apply Z.eqb_eq. }
  rewrite <- !Hf. destruct (Z.eqb_spec (Z.of_nat (length (filter (fun t => passes t = true) SUCC_TESTS))) (Z.of_nat (length SUCC_TESTS))),
    (Z.eqb_spec (Z.of_nat (length (filter (fun t => passes t = true) FAIL_TESTS))) (Z.of_nat (length FAIL_TESTS))); cbn [andb]; naive_solver.
Qed.
End driver.

(** ** The argument array *)

Definition arguments (t : test) : list string := app_name t :: filter (fun s => s <> NUL) [argv_1 t; argv_2 t; argv_3 t].

(** With two arguments or fewer the kernel reads exactly those, whatever is behind the array;
    with three, the array has no terminator and it goes on with what is behind. *)
Lemma usertests_arguments t rest :
  (argv_1 t = NUL -> argv_2 t = NUL) -> (argv_2 t = NUL -> argv_3 t = NUL) ->
  exec_reads (arr t ++ rest) = if bool_decide (argv_3 t = NUL) then Some (arguments t) else (fun l => arguments t ++ l) <$> exec_reads rest.
Proof.
  intros H1 H2. unfold arr, arguments. destruct t as [n a b c e]. cbn [app_name argv_1 argv_2 argv_3] in *.
  destruct (decide (a = NUL)) as [->|Ha]; [rewrite H1, H2 by auto; done|]. destruct (decide (b = NUL)) as [->|Hb].
  - rewrite H2 by done. rewrite bool_decide_true by done. rewrite !filter_cons, filter_nil, decide_True, !decide_False by auto. done.
  - rewrite !bool_decide_true by done. destruct (decide (c = NUL)) as [->|Hc].
    + rewrite bool_decide_false, bool_decide_true by auto. rewrite !filter_cons, filter_nil, !decide_True, decide_False by auto. done.
    + rewrite bool_decide_true, bool_decide_false by done. rewrite !filter_cons, filter_nil, !decide_True by auto. cbn [app exec_reads]. by destruct (exec_reads rest).
Qed.

(** One test of the tables has three. *)
Example usertests_overrun :
  filter (fun t => argv_3 t <> NUL) (SUCC_TESTS ++ FAIL_TESTS) = [mkTest "cmdline_args" "1" "2" "3" 0].
Proof. vm_compute. reflexivity. Qed.
